(* ===== verification/_CoqProject ===== *)
-Q . S2P
Prelude.v
Prog.v
GoStrings.v
GoSort.v
GoStrconv.v
GoUtf8.v
GoNet.v
GoNetip.v
GoBytes.v
GoTime.v
GoPath.v
GoFloat.v
SafeCast.v
Ipam.v
Incus.v
TtlSweeper.v
AutoSleep.v
RunLease.v
Pool.v
Auth.v
LogFrame.v
Tokens.v
AuthLimiter.v
AuthHttp.v
GatewayRoutes.v
SentinelSig.v
HashChain.v
Window.v
Ladder.v
Labels.v
TrackerStore.v
TrackerApi.v
DispatchTable.v
Identity.v
Dispatch.v
DispatchProtocol.v
TrackerAlone.v
TrackerWrite.v
DispatchGate.v
Lineage.v
DispatchSweep.v
DispatchInv.v
DispatchMoves.v
DispatchSystem.v
Claim.v
Capacity.v
CoreGuard.v
Cluster.v
ClusterStore.v
ClusterStoreAgree.v
ClusterDecide.v
ClusterCapacity.v
ClusterBootstrap.v
ClusterApi.v
ClusterManager.v
ClusterReconciler.v
ClusterCA.v
ClusterRpc.v
ClusterWorld.v
ClusterCalls.v
ClusterProvision.v
ClusterDrain.v
ClusterGuard.v
ClusterFleet.v
ClusterPass.v
NetPolicy.v
NetNormal.v
NetStore.v
NetServer.v
NetApi.v
NetBpf.v
NetData.v
NetScan.v
NetPlan.v
NetConverge.v
NetVerdict.v
NetEnforcer.v
NetPass.v
NetSources.v
Traffic.v
