(* ===== verification/Prelude.v ===== *)
(** * Containarium: a verification development

    Containarium is a daemon (containariumd) that runs user containers, agent runs and
    platform services on Incus hosts.  This library models the parts of it that decide
    something: who a caller is and what it may do, which packet passes, which address or name is free, which
    container is stopped or deleted, which issue is worked on, how many nodes a cluster has, which call is let
    through, whose traffic was seen, and whether a log is what was written.  The modelled code is under src/internal/,
    src/pkg/core/ (cluster, and the data types of incus) and src/experimental/ebpf-phaseA/ (netpolicy.bpf.c, the
    program in the kernel that the network policy drives); every definition carries the name of the declaration it
    translates, and several definitions share one function where its body has parts
    that are worth a name (a loop, one iteration, a step between two I/O calls).

    ** How the code is modelled

    - Integers of a fixed width are [Z] with [wrap] where arithmetic can leave the width; a
      [time.Time] is nanoseconds since year 1 (zero value 0), a [time.Duration] is an
      int64, and [Sub] saturates as the library's does.  A float64 is a rational rounded to
      53 bits after each operation (GoFloat).
    - Strings are byte strings; the standard library's functions the code relies on
      are defined, not assumed: strings (GoStrings), strconv (GoStrconv), net parsing
      (GoNet), netip (GoNetip), base64, SHA-256 and hex (GoBytes), RFC 3339 (GoTime),
      path.Clean (GoPath), sort on the values of a map (GoSort).
    - A map is a [gmap].  Where the code iterates over one, the order is an argument and the
      theorems hold for every order.
    - Interfaces of the source (a container backend, a revocation store, a deleter, a
      stopper, a tracker) are section variables that act on a world, or records of
      answers per step.  They may fail in every way the interface allows; what a
      theorem needs of them beyond that is a hypothesis of the theorem.
    - A critical section is one step.  Where goroutines interleave between critical
      sections or I/O calls, the program is a step relation over explicit
      continuations (Pool, Tokens, Claim) or a program over an interface (Prog), and the
      theorem is an invariant of every reachable state.
    - A program over an interface is a finite tree of calls and answers.  What one thread
      does, whatever it is answered, is a weakest precondition over a monitor of its calls;
      what many threads do on one world is an invariant of the pool that steps them call by
      call.  The tracker's dispatcher and write verbs and the cluster orchestration are written so.
    - Log lines, metrics and message texts that nothing reads are not modelled.

    ** Files

    Shared: Prelude (machine integers, time, tactics), Prog (programs over interfaces, their
    weakest preconditions, traces and pools), GoStrings, GoStrconv, GoUtf8, GoNet, GoNetip, GoBytes,
    GoTime, GoPath, GoSort, GoFloat, Incus (pkg/core/incus: [ContainerInfo] and
    roles).

    - SafeCast: safecast/safecast.go.  Every converter saturates to the nearest value.
    - Ipam: sandbox/ipam/ipam.go, the sandbox address allocator.  [reach] is a
      history of calls; addresses are exclusive and quarantined, and exhaustion is
      reported exactly when nothing is free.  [AddressAllocator] is the class the pool is
      written against.
    - Pool: sandbox/pool/pool.go, the warm pool, over the class.  [task_step] runs a warm-up or
      a destroy to its next unlocked point; the invariant [inv] ties the allocator to the
      members, rings, tasks and callers.
    - TtlSweeper: ttlsweeper/.  [Decide] against a reference predicate, one tick against
      what it deletes, and the back-off of failing deletes.
    - AutoSleep: autosleep/.  The sleep rule on exact times, the traffic query, one tick.
    - RunLease: runlease/.  The teardown of a run as an account of the requests it
      makes; the path guard against a reference.
    - Auth: auth/scopes.go, delegation.go, strict_scopes.go, authz.go, secrets_authz.go,
      container_owner.go.  Scope intersection, RequireScope and the tenant gates as
      exact characterizations.
    - Tokens: auth/token.go, auth/revocation_store.go, tokenid/, and the handlers of
      server/tokens_server.go and server/agent_server.go that mint.  Refresh rotation as a
      concurrent system over the store; delegation as a bound on authority.
    - AuthLimiter: auth/rate_limit.go, the buckets of failed authentications per address.  The sweep of
      idle ones is invisible, and what an address gets in a window is bounded, rounding included.
    - AuthHttp: auth/middleware.go, grpc_transport.go, mtls_interceptor.go and the metadata of gateway/gateway.go.  The
      identity that a handler sees is the one of the token or the certificate, whatever headers a client sends.
    - GatewayRoutes: auth/ws_token.go, the routes of gateway/gateway.go, terminal.go, console.go and labels.go.  An upgrade opens
      the box of the tenant that the token names, and every path under /v1/ is behind a guard, the label routes excepted.
    - SentinelSig: auth/sentinel_hmac.go, sentinel_ed25519.go, derive.go.  What the verifier accepts, and that a signature is
      for one request, up to an explicit collision.
    - LogFrame: logframe/logframe.go.  Round trip and independence of chunking.
    - HashChain: audit/hash_chain.go and the chain operations of audit/store.go.  A chain's
      tip binds its rows up to an explicit SHA-256 collision; what [Log] writes verifies.
    - Window, Ladder: modelgateway/window.go, quota.go, anomaly.go, policy.go.  What a
      rolling window reports, and the response ladder as rules on a tenant's rung.
    - Identity, Claim: tracker/identity.go, tracker/claim.go and the composition of bodies in
      server/.  Stamps cannot be forged by text; claims exclude each other, with an
      example for each assumption showing that it is needed.
    - Labels: tracker/policy.go and route.go.  Label rules, the glob matcher against its language.
    - TrackerStore, TrackerApi, DispatchTable: the tracker's tables and statements, the calls
      its programs make and their effect, and the dispatch table as a map of row life
      cycles that the statements implement.
    - Dispatch: tracker/dispatch.go, dispatch_lifecycle.go, dispatch_sweep.go and the run starter of
      server/.  DispatchGate: a run starts only on fresh evidence.  DispatchSweep: the
      sweep alone fails exactly the stuck rows.  DispatchProtocol, DispatchInv,
      DispatchMoves, DispatchSystem: the tokens a thread holds about rows, the invariant that
      ties them to the table, and its conclusions for every interleaving (a row
      is launched and reported at most once; nothing stays behind).  TrackerAlone: the world
      in which every call works, for witnesses.
    - TrackerWrite, Lineage: the write verbs of server/ and the chain guards of tracker/store.go;
      the follow-ups that the forge confirms and the depth of their rows stay within their caps under concurrency;
      one whose answer is lost is not counted.
    - Capacity: capacity/.  Advertised headroom and the drain that takes it back.
    - CoreGuard: coreguard/policy.go.  What the computed ACLs admit.
    - Cluster: cluster/cluster.go, pkg/core/cluster/spec.go and the gates of server/
      (cluster_caps.go, cluster_isolation.go).  ClusterStore, ClusterStoreAgree: the memory and the
      Postgres store, and that no sequence of calls tells them apart.
    - ClusterDecide: pkg/core/cluster/reconcile.go, with what repeated passes lead to.
      ClusterCapacity, ClusterBootstrap: what a node is given (reservation, labels, files).
    - ClusterApi, ClusterManager, ClusterReconciler, ClusterCA, ClusterRpc: the calls of the
      orchestration, and its programs: pkg/core/cluster/manager.go and vpa.go,
      server/cluster_reconciler.go, ca_provider_server.go, cluster_server.go.
      ClusterWorld: what a call may do and answer on a store and a host that may fail.
      ClusterCalls: which calls each program makes, for the theorems below.
    - ClusterProvision: the ways in which a failed provisioning ends: it never asked for the instance, removed it, tried
      to, or leaves it (a creation that fails half-way, a binary that does not load).  ClusterDrain: a drained node is not rebuilt by concurrent passes.
      ClusterGuard: whose clusters a request touches, and what the autoscaler may do.
      ClusterFleet: under every interleaving of requests and passes the records stay valid and
      every new instance belongs to one.  ClusterPass: what a pass may create, delete and write.

    - NetPolicy, NetNormal: netpolicy/netpolicy.go, and the normal form of a policy.  NetStore, NetServer, NetApi: the stores
      behind [PolicyStore] and the handlers of server/network_policy_server.go; a patch changes the rules it names, and what is
      stored compiles.
    - NetBpf: netbpf/, the entries and byte layouts of the kernel's maps.  NetData, NetScan: the two programs of
      netpolicy.bpf.c, packet by packet, and the search for signatures.
    - NetPlan, NetConverge: server/network_policy_plan.go and the pass that brings the maps to the plan.  NetVerdict: what the
      maps of a plan mean for a packet.  NetEnforcer, NetPass: server/network_policy_enforcer.go, whole passes over
      whatever fails; an armed pass makes the kernel decide as the stored policies say, an unarmed one drops nothing.
    - NetSources: what those passes read.  server/tenant_registry.go (ids name tenants, also between daemons that race),
      network_policy_signature_store.go with its handlers and netpolicy/signatures.go (an id in the audit log names the
      signature that matched), domain_resolver.go.  [TenantRegistry] and [SignatureStore] are classes with two instances each;
      [registry_sources] discharges with the first what [enforced_policy] asks of ids.
    - Traffic: traffic/ (the cache of addresses, the collector, fan-out, re-aggregation) and the flow poll of the enforcer.
      A step relation interleaves conntrack events, polls and the goroutines that save; every container is counted from one
      source, a flow leaves the kernel after it was handed to the collector, re-aggregation is a grouping by start of the
      interval, and the auto-sleeper's query is composed with what is saved.

    ** Fuel and bounds

    Recursion that is not structural runs on fuel that is proved or evidently enough: the
    length of the text for parsers and trimming (each round consumes a byte), the length
    of the buffer for the demuxer, the size of the range for the allocator's scan,
    six steps for one claim, and, for the loop that numbers new workers, the wanted plus the
    observed nodes ([create_fuel]).  Programs over interfaces are finite trees and need none.
    Theorems state results of the functions, never results
    conditional on their return.  Arithmetic bounds that a theorem needs are in its
    statement: ranges of at most 2^31 addresses for exhaustion, thresholds up to 2^16
    minutes for idle times, quantities below 2^53 where they pass through a float64.

    ** Examples that record a defect

    Tokens.run_token_empty_grant_is_unrestricted,
    Tokens.run_token_wildcard_reaches_tracker_admin, HashChain.batch_boundary_not_checked,
    Identity.sanitize_can_forge_marker, Identity.empty_skill_is_unreadable,
    Claim.equal_timestamps_claim_twice, Claim.failed_assign_claims_twice,
    Claim.abandoned_claim_claims_twice, Claim.unknown_run_claims_unseen, Lineage.timeout_frees_the_slot, Cluster.caps_sum_wraps, Cluster.caps_memory_skipped,
    ClusterDecide.worker_names_collide, ClusterProvision.worker_stranded, ClusterProvision.half_created_stays,
    ClusterPass.deletion_is_lost, ClusterPass.scale_up_wraps, ClusterPass.two_drains_rebuild,
    AuthLimiter.spoofed_header_evades, AuthHttp.delegation_not_forwarded, AuthHttp.comma_splits_a_role,
    GatewayRoutes.labels_without_credentials, SentinelSig.ancient_timestamp_passes, SentinelSig.response_is_a_request,
    NetApi.set_echoes_its_rules, NetApi.far_expiry_blocks_patches, NetScan.scan_misses_the_tail,
    NetPass.refresh_failure_opens, NetPass.ipv6_rule_drops_all, NetPass.ipv6_prefix_allows_none,
    NetPass.narrower_rule_reopens, NetPass.second_port_replaces_first, NetPass.unparsed_expiry_opens,
    NetPass.fingerprints_collide, NetPass.failed_slot_is_not_retried, NetPass.options_hide_the_port,
    NetSources.deleted_id_is_reused, NetSources.newline_in_a_name, NetSources.mapped_answers_are_dropped,
    Traffic.open_session_is_put_to_sleep, Traffic.resumed_flow_is_not_recorded, Traffic.saved_session_has_no_length,
    Traffic.deleted_name_takes_an_address, Traffic.id_of_a_former_container, Traffic.destinations_are_merged,
    Traffic.minutes_are_hours.

    ** Not modelled

    I/O and its glue: the Incus client, SQL queries other than the ones named, the servers and clients of HTTP and
    gRPC beyond the checks named above, the command line, the model providers' streams and
    generated code.  Of the cluster orchestration: the download of the k3s binary, key
    generation and the publisher of endpoints are calls; a reconciler's ticker and
    connection failures of the store are left out.  Of the network policy: the loader's system calls, the ring of events and its
    consumer, and the tickers that start passes.  Of the traffic monitor: netlink, the SQL of the queries and of the cleanup, and
    durations in float seconds.  Of the front door: the bodies of the handlers behind the guards, the streams
    of a terminal, and the statements that revoke an owner's tokens. *)

From stdpp Require Export base gmap strings list sorting.
From Stdlib Require Export ZArith Lia.

#[global] Open Scope Z_scope.

(** ** Machine integers

    A Go integer of a fixed width is a [Z]; conversions and arithmetic that can
    leave the width go through [wrap]. *)

Record int_type := IntType { it_bits : Z; it_signed : bool }.

Definition i16 := IntType 16 true.
Definition i32 := IntType 32 true.
Definition i64 := IntType 64 true.
Definition u8 := IntType 8 false.
Definition u16 := IntType 16 false.
Definition u32 := IntType 32 false.
Definition u64 := IntType 64 false.

Definition it_min (it : int_type) : Z :=
  if it_signed it then - 2 ^ (it_bits it - 1) else 0.
Definition it_max (it : int_type) : Z :=
  if it_signed it then 2 ^ (it_bits it - 1) - 1 else 2 ^ it_bits it - 1.

(** [v] is a value of the Go type [it]. *)
Definition in_type (it : int_type) (v : Z) : Prop := it_min it <= v <= it_max it.

Definition wrap (it : int_type) (z : Z) : Z :=
  if it_signed it
  then (z + 2 ^ (it_bits it - 1)) mod 2 ^ it_bits it - 2 ^ (it_bits it - 1)
  else z mod 2 ^ it_bits it.

(** The nearest representable value: the reference meaning of saturation. *)
Definition clamp (lo hi v : Z) : Z := Z.max lo (Z.min hi v).

#[global] Instance in_type_dec it v : Decision (in_type it v).
Proof. unfold in_type. apply _. Defined.

Lemma wrap_in_type_id it v : 0 < it_bits it -> in_type it v -> wrap it v = v.
Proof.
  unfold in_type, it_min, it_max, wrap. intros Hb Hv.
  assert (Hp : 2 ^ it_bits it = 2 * 2 ^ (it_bits it - 1)).
  { rewrite <- Z.pow_succ_r by lia. f_equal. lia. }
  destruct (it_signed it).
  - rewrite Z.mod_small by lia. lia.
  - rewrite Z.mod_small by lia. lia.
Qed.

Lemma wrap_in_type it v : 0 < it_bits it -> in_type it (wrap it v).
Proof.
  unfold in_type, it_min, it_max, wrap. intros Hb.
  assert (Hp : 2 ^ it_bits it = 2 * 2 ^ (it_bits it - 1)).
  { rewrite <- Z.pow_succ_r by lia. f_equal. lia. }
  assert (0 < 2 ^ it_bits it) by (apply Z.pow_pos_nonneg; lia).
  destruct (it_signed it).
  - pose proof (Z.mod_pos_bound (v + 2 ^ (it_bits it - 1)) (2 ^ it_bits it)). lia.
  - pose proof (Z.mod_pos_bound v (2 ^ it_bits it)). lia.
Qed.

(** Wrapping after each addition is wrapping once at the end. *)
Lemma wrap_add_l it a b : 0 < it_bits it -> wrap it (wrap it a + b) = wrap it (a + b).
Proof.
  unfold wrap. intros Hb.
  destruct (it_signed it); [|apply Zplus_mod_idemp_l].
  f_equal.
  replace ((a + 2 ^ (it_bits it - 1)) mod 2 ^ it_bits it - 2 ^ (it_bits it - 1)
            + b + 2 ^ (it_bits it - 1))
    with ((a + 2 ^ (it_bits it - 1)) mod 2 ^ it_bits it + b) by lia.
  rewrite Zplus_mod_idemp_l. f_equal. lia.
Qed.

Lemma wrap_add_r it a b : 0 < it_bits it -> wrap it (a + wrap it b) = wrap it (a + b).
Proof. intros. rewrite Z.add_comm, wrap_add_l by done. f_equal; lia. Qed.

(** ** Go's [time] package

    [Time] is the number of nanoseconds since 0001-01-01T00:00:00Z, so the zero
    value of [time.Time] is [0]; a [Duration] is an int64 number of nanoseconds. *)

Abbreviation Time := Z (only parsing).
Abbreviation Duration := Z (only parsing).

Definition Nanosecond : Duration := 1.
Definition Second : Duration := 1000000000.
Definition Minute : Duration := 60 * Second.
Definition Hour : Duration := 60 * Minute.

Definition minDuration : Duration := - 2 ^ 63.
Definition maxDuration : Duration := 2 ^ 63 - 1.

Definition IsZero (t : Time) : bool := t =? 0.
Definition Before (t u : Time) : bool := t <? u.
Definition After (t u : Time) : bool := u <? t.
(** [t.Sub(u)] saturates instead of overflowing. *)
Definition Sub (t u : Time) : Duration := clamp minDuration maxDuration (t - u).
Definition Add (t : Time) (d : Duration) : Time := t + d.

(** Nanoseconds between year 1 and the Unix epoch. *)
Definition unixToInternal : Z := 62135596800 * Second.
Definition UnixNano (t : Time) : Z := t - unixToInternal.
Definition UnixTime (nsec : Z) : Time := nsec + unixToInternal.

Lemma Sub_exact t u : in_type i64 (t - u) -> Sub t u = t - u.
Proof.
  unfold Sub, clamp, in_type, it_min, it_max, minDuration, maxDuration; simpl; lia.
Qed.

Lemma Sub_mono t t' u : t <= t' -> Sub t u <= Sub t' u.
Proof. unfold Sub, clamp; lia. Qed.

(** A comparison against a duration that is itself an int64 is not affected by
    the saturation of [Sub]. *)
Lemma Sub_ge_iff t u d : in_type i64 d -> d <= Sub t u <-> d <= t - u \/ d = minDuration.
Proof.
  unfold Sub, clamp, in_type, it_min, it_max, minDuration, maxDuration; simpl; lia.
Qed.

(** ** Tactics *)

(** Membership in a machine type: bounds with the widths evaluated. *)
Ltac type_bounds := unfold in_type, it_min, it_max in *; simpl in *; lia.

(** Prove a decidable closed proposition by evaluating its decision procedure. *)
Ltac decided :=
  match goal with |- ?P => refine (bool_decide_unpack P _); vm_compute; exact I end.

(** Case analysis on the integer comparisons the goal branches on. *)
Ltac cases_Z :=
  repeat match goal with
  | |- context [?a <? ?b] => destruct (Z.ltb_spec a b)
  | |- context [?a <=? ?b] => destruct (Z.leb_spec a b)
  | |- context [?a =? ?b] => destruct (Z.eqb_spec a b)
  end.
