(* ===== verification/Prog.v ===== *)
(** * Programs over interfaces, and systems of them

    A component that calls a database, a forge and a clock between its decisions is a
    [prog]: a tree whose inner nodes are the calls it makes and whose branches are the
    answers.  Every path of a program is finite, so a program that is written in this
    type returns after finitely many calls, whatever the answers are.

    - [wp] is a weakest precondition over a monitor: a ghost state that follows the calls
      and their answers.  A property of one thread is a [wp] statement; it holds
      whatever the rest of the system does, because it quantifies over the answers.
    - [handle] runs a program alone against a deterministic world.
    - [pstep] interleaves threads call by call over a shared world; [pool_invariant] lifts
      per-thread [wp]s and a global invariant to every reachable state. *)

From S2P Require Import Prelude.

Section Prog.
Context {C : Type} {A : C -> Type}.

Inductive prog (R : Type) : Type :=
| Ret (r : R)
| Do (c : C) (k : A c -> prog R).

#[global] Arguments Ret {R} _.
#[global] Arguments Do {R} _ _.

Fixpoint bind {R Q} (f : R -> prog Q) (p : prog R) : prog Q :=
  match p with
  | Ret r => f r
  | Do c k => Do c (fun a => bind f (k a))
  end.

#[global] Instance prog_mret : MRet prog := @Ret.
#[global] Instance prog_mbind : MBind prog := @bind.

Definition call (c : C) : prog (A c) := Do c (@Ret (A c)).

(** ** Monitored weakest preconditions *)

Section Wp.
Context {S : Type} (allow : S -> forall c, A c -> Prop) (mon : S -> forall c, A c -> S)
  (pre : S -> C -> Prop).

(** Run from ghost state [s], [p] makes only calls whose precondition holds, and ends
    in a ghost state and a result that satisfy [post].  [allow] is what is assumed
    of the answers. *)
Fixpoint wp {R} (p : prog R) (post : S -> R -> Prop) (s : S) : Prop :=
  match p with
  | Ret r => post s r
  | Do c k => pre s c /\ forall a, allow s c a -> wp (k a) post (mon s c a)
  end.

Lemma wp_mono {R} (p : prog R) (P Q : S -> R -> Prop) s :
  (forall s r, P s r -> Q s r) -> wp p P s -> wp p Q s.
Proof.
  intros HPQ. revert s. induction p as [r|c k IH]; simpl; [by auto|].
  intros s [Hpre Hk]. split; [done|]. auto.
Qed.

Lemma wp_bind {R Q} (p : prog R) (f : R -> prog Q) post s :
  wp p (fun s r => wp (f r) post s) s -> wp (p ≫= f) post s.
Proof.
  revert s. induction p as [r|c k IH]; simpl; [by auto|].
  intros s [Hpre Hk]. split; [done|]. intros a Ha. apply IH, Hk, Ha.
Qed.

(** Sequencing through an intermediate assertion. *)
Lemma wp_seq {R Q} (p : prog R) (f : R -> prog Q) (mid : S -> R -> Prop) post s :
  wp p mid s -> (forall s r, mid s r -> wp (f r) post s) -> wp (p ≫= f) post s.
Proof. intros Hp Hf. apply wp_bind. eapply wp_mono; [|exact Hp]. auto. Qed.

Lemma wp_call c (post : S -> A c -> Prop) s :
  pre s c -> (forall a, allow s c a -> post (mon s c a) a) -> wp (call c) post s.
Proof. intros Hpre Hpost. split; [done|]. intros a Ha. by apply Hpost. Qed.

Lemma wp_assoc {R Q T} (p : prog R) (f : R -> prog Q) (g : Q -> prog T) post s :
  wp (p ≫= fun r => f r ≫= g) post s -> wp ((p ≫= f) ≫= g) post s.
Proof.
  revert s. induction p as [r|c k IH]; intros s; [done|]. simpl. intros [Hpre Hk].
  split; [done|]. intros a Ha. by apply IH, Hk.
Qed.

Lemma wp_ret_bind {R Q} (r : R) (f : R -> prog Q) post s : wp (f r) post s -> wp (mret r ≫= f) post s.
Proof. done. Qed.

(** A call, and what follows on each answer. *)
Lemma wp_call_bind {R} c (f : A c -> prog R) post s :
  pre s c -> (forall a, allow s c a -> wp (f a) post (mon s c a)) -> wp (call c ≫= f) post s.
Proof. done. Qed.

Lemma wp_ret {R} (r : R) (post : S -> R -> Prop) s : post s r -> wp (mret r) post s.
Proof. done. Qed.
End Wp.

(** ** Calls alone

    [makes al P p Q]: with answers as [al] assumes, [p] makes only calls that satisfy [P] and its
    result satisfies [Q]. *)

Definition makes {R} (al : forall c, A c -> Prop) (P : C -> Prop) (p : prog R) (Q : R -> Prop) : Prop :=
  wp (S := unit) (fun _ => al) (fun s _ _ => s) (fun _ => P) p (fun _ => Q) tt.

Lemma makes_mono {R} al (P P' : C -> Prop) (p : prog R) (Q Q' : R -> Prop) :
  (forall c, P c -> P' c) -> (forall r, Q r -> Q' r) -> makes al P p Q -> makes al P' p Q'.
Proof.
  intros HP HQ. unfold makes. induction p as [r|c k IH]; simpl; [by apply HQ|].
  intros [Hc Hk]. split; [by apply HP|]. intros a Ha. by apply IH, Hk.
Qed.

Lemma makes_bind {R T} al P (p : prog R) (f : R -> prog T) Q Q' :
  makes al P p Q -> (forall r, Q r -> makes al P (f r) Q') -> makes al P (p ≫= f) Q'.
Proof. intros Hp Hf. unfold makes. eapply wp_seq; [exact Hp|]. intros [] r. apply Hf. Qed.

Lemma makes_call {R} al (P : C -> Prop) c (k : A c -> prog R) Q :
  P c -> (forall a, al c a -> makes al P (k a) Q) -> makes al P (call c ≫= k) Q.
Proof. intros Hc Hk. split; [done|]. intros a Ha. by apply Hk. Qed.

Lemma makes_ret {R} al P (r : R) (Q : R -> Prop) : Q r -> makes al P (mret r) Q.
Proof. done. Qed.

(** Under a monitor whose states [I] allow those calls. *)
Lemma wp_makes {S R} (I : S -> Prop) al P allow mon pre (p : prog R) (Q : R -> Prop) s :
  (forall s c, I s -> P c -> pre s c /\ forall a, allow s c a -> al c a /\ I (mon s c a)) ->
  makes al P p Q -> I s -> wp allow mon pre p (fun s' r => I s' /\ Q r) s.
Proof.
  intros HI. revert s. unfold makes. induction p as [r|c k IH]; intros s; simpl; [done|].
  intros [Hc Hk] Hs. destruct (HI s c Hs Hc) as [Hpre Hmon]. split; [done|]. intros a Ha.
  destruct (Hmon a Ha) as [Hal HI']. by apply IH; [apply Hk|].
Qed.

(** ** Traces of one program *)

Definition event : Type := { c : C & A c }.

(** [runs p tr q]: answered as [tr] records, [p] has become [q]. *)
Inductive runs {R} : prog R -> list event -> prog R -> Prop :=
| runs_nil p : runs p [] p
| runs_cons c k a tr q : runs (k a) tr q -> runs (Do c k) (existT c a :: tr) q.

Definition mon_event {S} (mon : S -> forall c, A c -> S) (s : S) (e : event) : S :=
  mon s (projT1 e) (projT2 e).

(** What [wp] says of a run whose answers are as assumed. *)
Lemma wp_runs {S R} (al : forall c, A c -> Prop) (mon : S -> forall c, A c -> S) pre (p : prog R) post s tr q :
  wp (fun _ => al) mon pre p post s -> runs p tr q -> Forall (fun e => al (projT1 e) (projT2 e)) tr ->
  wp (fun _ => al) mon pre q post (foldl (mon_event mon) s tr).
Proof.
  intros Hwp Hruns. revert s Hwp.
  induction Hruns as [p|c k a tr q Hruns IH]; intros s Hwp; [done|].
  intros [Ha Htr]%Forall_cons. simpl in *. apply IH; [by apply Hwp|done].
Qed.

(** Every call of a run, when the answers are as assumed. *)
Lemma makes_runs {R} al P (p : prog R) Q tr q :
  makes al P p Q -> runs p tr q -> Forall (fun e => al (projT1 e) (projT2 e)) tr -> Forall (fun e => P (projT1 e)) tr.
Proof.
  unfold makes. intros Hp Hruns. induction Hruns as [p|c k a tr q Hruns IH]; [constructor|].
  intros [Ha Htr]%Forall_cons. destruct Hp as [Hc Hk]. constructor; [exact Hc|]. apply IH; [by apply Hk|done].
Qed.

(** The monitor that just records. *)
Definition log (s : list event) (c : C) (a : A c) : list event := s ++ [existT c a].

Lemma foldl_log s tr : foldl (mon_event log) s tr = s ++ tr.
Proof.
  revert s. induction tr as [|[c a] tr IH]; intros s; simpl; [by rewrite app_nil_r|].
  rewrite IH. unfold mon_event, log. simpl. by rewrite <- app_assoc.
Qed.

Lemma runs_app {R} (p : prog R) tr1 tr2 q :
  runs p (tr1 ++ tr2) q -> exists r, runs p tr1 r /\ runs r tr2 q.
Proof.
  revert p. induction tr1 as [|e tr1 IH]; intros p; simpl; [exists p; split; [constructor|done]|].
  intros Hruns. inversion Hruns as [|c k a tr q' Hk]; subst. apply IH in Hk as (r & ? & ?).
  exists r. split; [by constructor|done].
Qed.

(** What holds before each call of a run. *)
Lemma wp_log_before {R} al pre (p : prog R) post tr1 c a tr2 q :
  wp (fun _ => al) log pre p post [] -> runs p (tr1 ++ existT c a :: tr2) q ->
  Forall (fun e => al (projT1 e) (projT2 e)) tr1 -> pre tr1 c.
Proof.
  intros Hwp (r & H1 & H2)%runs_app Hal. pose proof (wp_runs _ _ _ _ _ _ _ _ Hwp H1 Hal) as Hr.
  rewrite foldl_log in Hr. simpl in Hr.
  inversion H2 as [|c' k a' tr q' Hk Heq]; subst. by apply Hr.
Qed.

(** A run obeys the rules [pre] of a monitor, call by call. *)
Lemma wp_obeys_calls {S R} (mon : S -> forall c, A c -> S) pre (p : prog R) post s tr q :
  wp (fun _ _ _ => True) mon pre p post s -> runs p tr q ->
  forall tr1 e tr2, tr = tr1 ++ e :: tr2 -> pre (foldl (mon_event mon) s tr1) (projT1 e).
Proof.
  intros Hwp Hruns tr1 [c a] tr2 ->. apply runs_app in Hruns as (q' & H1 & H2).
  assert (Hall : Forall (fun e : event => True) tr1) by (by apply Forall_forall).
  pose proof (wp_runs (fun _ _ => True) _ _ _ _ _ _ _ Hwp H1 Hall) as Hq.
  inversion H2; subst. by destruct Hq.
Qed.

(** A complete run ends as [post] says, too. *)
Lemma wp_obeys {S R} (mon : S -> forall c, A c -> S) pre (p : prog R) post s tr r :
  wp (fun _ _ _ => True) mon pre p post s -> runs p tr (Ret r) ->
  post (foldl (mon_event mon) s tr) r /\
  forall tr1 e tr2, tr = tr1 ++ e :: tr2 -> pre (foldl (mon_event mon) s tr1) (projT1 e).
Proof.
  intros Hwp Hruns. split; [|by eapply wp_obeys_calls].
  apply (wp_runs (fun _ _ => True) _ _ _ _ _ _ _ Hwp Hruns). by apply Forall_forall.
Qed.

(** [p] makes no call that [P] singles out. *)
Fixpoint avoids {R} (P : C -> Prop) (p : prog R) : Prop :=
  match p with
  | Ret _ => True
  | Do c k => ~ P c /\ forall a, avoids P (k a)
  end.

Lemma avoids_bind {R Q} P (p : prog R) (f : R -> prog Q) :
  avoids P p -> (forall r, avoids P (f r)) -> avoids P (p ≫= f).
Proof.
  intros Hp Hf. induction p as [r|c k IH]; [apply Hf|]. destruct Hp as [Hc Hk].
  split; [done|]. intros a. by apply IH.
Qed.

Lemma avoids_wp {R} P (allow : list event -> forall c, A c -> Prop) pre (p : prog R) s :
  avoids P p -> (forall s c, ~ P c -> pre s c) ->
  wp allow log pre p (fun s' _ => s `prefix_of` s') s.
Proof.
  intros Hp Hpre. revert s. induction p as [r|c k IH]; intros s; simpl; [done|].
  destruct Hp as [Hc Hk]. split; [auto|]. intros a _.
  eapply wp_mono; [|by apply IH]. intros s' r Hs. simpl in *. etransitivity; [|done]. by eexists.
Qed.

(** ** One program alone *)

Section Handle.
Context {W : Type} (h : forall c, W -> A c * W).

Fixpoint handle {R} (p : prog R) (w : W) : R * W :=
  match p with
  | Ret r => (r, w)
  | Do c k => let '(a, w') := h c w in handle (k a) w'
  end.

(** The run, recorded. *)
Fixpoint play {R} (p : prog R) (w : W) : list event * R :=
  match p with
  | Ret r => ([], r)
  | Do c k => let '(a, w') := h c w in let '(tr, r) := play (k a) w' in (existT c a :: tr, r)
  end.

Lemma play_runs {R} (p : prog R) w : runs p (play p w).1 (Ret (play p w).2).
Proof.
  revert w. induction p as [r|c k IH]; intros w; simpl; [constructor|].
  destruct (h c w) as [a w']. specialize (IH a w'). destruct (play (k a) w') as [tr r]. by constructor.
Qed.

Lemma handle_bind {R Q} (p : prog R) (f : R -> prog Q) w :
  handle (p ≫= f) w = let '(r, w') := handle p w in handle (f r) w'.
Proof.
  revert w. induction p as [r|c k IH]; intros w; simpl; [done|].
  destruct (h c w) as [a w']. apply IH.
Qed.

Lemma handle_call c w : handle (call c) w = h c w.
Proof. simpl. by destruct (h c w). Qed.
End Handle.

(** ** Threads over a shared world *)

Section Pool.
Context {W : Type}.
(** A call takes effect: the world before, the answer, the world after. *)
Context (exec : W -> forall c, A c -> W -> Prop).
(** The thread a call starts, if it starts one. *)
Context (spawn : forall c, A c -> option (prog unit)).
(** The threads that may arrive from outside, and what the environment may do. *)
Context (arrive : prog unit -> Prop) (env : W -> W -> Prop).

Inductive pstep : list (prog unit) * W -> list (prog unit) * W -> Prop :=
| pstep_call T1 c k T2 w a w' :
    exec w c a w' ->
    pstep (T1 ++ Do c k :: T2, w) (T1 ++ k a :: T2 ++ option_list (spawn c a), w')
| pstep_arrive T p w : arrive p -> pstep (T, w) (T ++ [p], w)
| pstep_env T w w' : env w w' -> pstep (T, w) (T, w').

(** One thread alone, for at most [n] calls, answered by a function that does what [exec] allows. *)
Section Drive.
Context (h : forall c, W -> A c * W).

Fixpoint drive {R} (n : nat) (p : prog R) (w : W) : prog R * W :=
  match n, p with
  | S n, Do c k => let '(a, w') := h c w in drive n (k a) w'
  | _, _ => (p, w)
  end.

Lemma drive_steps n p T1 T2 w :
  (forall c w, exec w c (h c w).1 (h c w).2) -> (forall c a, spawn c a = None) ->
  rtc pstep (T1 ++ p :: T2, w) (T1 ++ (drive n p w).1 :: T2, (drive n p w).2).
Proof.
  intros Hexec Hspawn. revert p w. induction n as [|n IH]; intros p w; [done|].
  destruct p as [r|c k]; [done|]. simpl. specialize (Hexec c w). destruct (h c w) as [a w'].
  eapply rtc_l; [by apply (pstep_call T1 c k T2 w a w')|]. rewrite Hspawn. simpl. rewrite app_nil_r. apply IH.
Qed.
End Drive.

Definition preach (w0 : W) : list (prog unit) * W -> Prop := rtc pstep ([], w0).

Section Invariant.
Context {S : Type} (mon : S -> forall c, A c -> S) (pre : S -> C -> Prop).
Context (allow : S -> forall c, A c -> Prop).
(** The ghost state a thread starts with. *)
Context (born : forall c, A c -> S) (fresh : S).
(** What a thread owes when it ends. *)
Context (post : S -> unit -> Prop).
Context (Inv : W -> list S -> Prop).

Definition safe (p : prog unit) (s : S) : Prop := wp allow mon pre p post s.

(** Every thread has ended. *)
Definition quiescent (T : list (prog unit)) : Prop := Forall (fun p => p = Ret tt) T.

Lemma quiescent_post T G : quiescent T -> Forall2 safe T G -> Forall (fun s => post s tt) G.
Proof.
  intros HT HG. induction HG as [|p s T G Hp HG IH]; [constructor|].
  apply Forall_cons in HT as [-> HT]. constructor; [exact Hp|by apply IH].
Qed.

Lemma pool_invariant_from T0 G0 w0 T w :
  Forall2 safe T0 G0 -> Inv w0 G0 ->
  (forall p, arrive p -> safe p fresh) ->
  (forall c a p, spawn c a = Some p -> safe p (born c a)) ->
  (forall w G, Inv w G -> Inv w (G ++ [fresh])) ->
  (forall w w' G, env w w' -> Inv w G -> Inv w' G) ->
  (forall w G1 s G2 c a w',
      Inv w (G1 ++ s :: G2) -> pre s c -> exec w c a w' ->
      allow s c a /\
      Inv w' (G1 ++ mon s c a :: G2 ++ option_list ((fun _ => born c a) <$> spawn c a))) ->
  rtc pstep (T0, w0) (T, w) -> exists G, Forall2 safe T G /\ Inv w G.
Proof.
  intros HT0 H0 Harr Hspawn Hfresh Henv Hcall Hreach.
  set (ok := fun st : list (prog unit) * W => exists G, Forall2 safe st.1 G /\ Inv st.2 G).
  enough (ok (T, w)) by done. revert Hreach. generalize (T, w). clear T w.
  apply rtc_ind_r; [by exists G0|].
  intros [T1 w1] [T w] _ Hstep (G & HG & HI). simpl in *.
  unfold ok; simpl. inversion Hstep as [T1' c k T2 w1' a w' Hexec|? p ? Hp|? ? ? He]; simplify_eq.
  - apply Forall2_app_inv_l in HG as (G1 & G2' & HG1 & HG2 & ->).
    apply Forall2_cons_inv_l in HG2 as (s & G2 & Hs & HG2 & ->).
    destruct Hs as [Hpre Hk].
    destruct (Hcall _ _ _ _ _ _ _ HI Hpre Hexec) as [Hallow HI'].
    eexists. split; [|exact HI'].
    apply Forall2_app; [done|]. constructor; [by apply Hk|].
    apply Forall2_app; [done|].
    destruct (spawn c a) as [p|] eqn:Esp; simpl; repeat constructor. by apply Hspawn.
  - exists (G ++ [fresh]). split; [|by apply Hfresh].
    apply Forall2_app; [done|]. repeat constructor. by apply Harr.
  - exists G. split; [done|]. by eapply Henv.
Qed.

Lemma pool_invariant w0 T w :
  Inv w0 [] ->
  (forall p, arrive p -> safe p fresh) ->
  (forall c a p, spawn c a = Some p -> safe p (born c a)) ->
  (forall w G, Inv w G -> Inv w (G ++ [fresh])) ->
  (forall w w' G, env w w' -> Inv w G -> Inv w' G) ->
  (forall w G1 s G2 c a w',
      Inv w (G1 ++ s :: G2) -> pre s c -> exec w c a w' ->
      allow s c a /\
      Inv w' (G1 ++ mon s c a :: G2 ++ option_list ((fun _ => born c a) <$> spawn c a))) ->
  preach w0 (T, w) -> exists G, Forall2 safe T G /\ Inv w G.
Proof. intros H0. by apply (pool_invariant_from [] []); [constructor|]. Qed.
End Invariant.
End Pool.
End Prog.

#[global] Arguments prog {C} A R.
#[global] Arguments event {C} A.
