(* ===== verification/GoStrings.v ===== *)
(** * Go's [strings] and [strconv], as the modelled packages use them

    A Go string is a sequence of bytes, here a Standard Library [string] whose
    characters are the bytes.  [TrimSpace] is modelled with the Unicode white
    space of [unicode.IsSpace] in its UTF-8 encoding, from both ends. *)

From S2P Require Import Prelude.
From Stdlib Require Import Ascii.
From Stdlib Require DecimalString DecimalZ DecimalPos.

#[local] Open Scope string_scope.
#[local] Open Scope list_scope.
#[local] Open Scope Z_scope.

(** ** Building blocks *)

Fixpoint HasPrefix (p s : string) : bool :=
  match p, s with
  | "", _ => true
  | String a p', String b s' => Ascii.eqb a b && HasPrefix p' s'
  | _, "" => false
  end.

Fixpoint drop_str (n : nat) (s : string) : string :=
  match n, s with
  | O, _ => s
  | S n', String _ s' => drop_str n' s'
  | S _, "" => ""
  end.

Fixpoint rev_str (s acc : string) : string :=
  match s with
  | "" => acc
  | String a s' => rev_str s' (String a acc)
  end.

Definition reverse (s : string) : string := rev_str s "".

Definition HasSuffix (p s : string) : bool := HasPrefix (reverse p) (reverse s).

Definition TrimPrefix (s p : string) : string :=
  if HasPrefix p s then drop_str (String.length p) s else s.

Definition TrimSuffix (s p : string) : string :=
  if HasSuffix p s then reverse (drop_str (String.length p) (reverse s)) else s.

Fixpoint contains_char (c : ascii) (s : string) : bool :=
  match s with
  | "" => false
  | String a s' => Ascii.eqb a c || contains_char c s'
  end.

(** [strings.Count] of a one-byte substring. *)
Fixpoint count_char (c : ascii) (s : string) : Z :=
  match s with
  | "" => 0
  | String a s' => (if Ascii.eqb a c then 1 else 0) + count_char c s'
  end.

(** [strings.Split] on a one-byte separator. *)
Fixpoint split_char (c : ascii) (s : string) : list string :=
  match s with
  | "" => [""]
  | String a s' =>
      if Ascii.eqb a c then "" :: split_char c s'
      else match split_char c s' with
           | [] => [String a ""]
           | w :: ws => String a w :: ws
           end
  end.

(** ** [TrimSpace] *)

Definition byte_at (n : nat) : ascii := ascii_of_nat n.

Definition bytes_str (l : list nat) : string :=
  fold_right (fun n s => String (byte_at n) s) "" l.

(** UTF-8 encodings of the runes for which [unicode.IsSpace] holds. *)
Definition space_runes : list string :=
  map bytes_str
    (List.app [[9]; [10]; [11]; [12]; [13]; [32]; [194; 133]; [194; 160]; [225; 154; 128];
      [226; 128; 168]; [226; 128; 169]; [226; 128; 175]; [226; 129; 159]; [227; 128; 128]]
     (map (fun k => [226; 128; 128 + k]%nat) (seq 0 11)))%nat.

(** Strip one leading member of [runes], if there is one. *)
Fixpoint strip_one (runes : list string) (s : string) : option string :=
  match runes with
  | [] => None
  | r :: rs => if HasPrefix r s then Some (drop_str (String.length r) s) else strip_one rs s
  end.

(** Every rune has at least one byte, so [length s] rounds are enough. *)
Fixpoint strip_all (fuel : nat) (runes : list string) (s : string) : string :=
  match fuel with
  | O => s
  | S f => match strip_one runes s with
           | Some s' => strip_all f runes s'
           | None => s
           end
  end.

Definition trim_left_with (runes : list string) (s : string) : string :=
  strip_all (S (String.length s)) runes s.

Definition TrimSpace (s : string) : string :=
  let l := trim_left_with space_runes s in
  reverse (trim_left_with (map reverse space_runes) (reverse l)).

(** ** Case folding of ASCII letters, [strings.ToLower] on ASCII input *)

Definition lower_ascii (a : ascii) : ascii :=
  let n := nat_of_ascii a in
  if (65 <=? n)%nat && (n <=? 90)%nat then ascii_of_nat (n + 32) else a.

(** ** [strconv.Itoa] / [strconv.FormatInt(_, 10)] *)

Definition Itoa (z : Z) : string := DecimalString.NilZero.string_of_int (Z.to_int z).

(** ** Lemmas *)

Lemma string_app_nil_r s : s +:+ "" = s.
Proof. induction s as [|a s IH]; [done|]. change (String a (s +:+ "") = String a s). by rewrite IH. Qed.

Lemma string_app_assoc s t u : (s +:+ t) +:+ u = s +:+ (t +:+ u).
Proof. induction s as [|a s IH]; [done|]. change (String a ((s +:+ t) +:+ u) = String a (s +:+ (t +:+ u))). by rewrite IH. Qed.

Lemma string_app_inj_l s t u : s +:+ t = s +:+ u -> t = u.
Proof. induction s as [|a s IH]; [done|]. intros H. injection H. exact IH. Qed.

Lemma string_length_app s t : String.length (s +:+ t) = (String.length s + String.length t)%nat.
Proof. induction s as [|a s IH]; [done|]. change (S (String.length (s +:+ t)) = S (String.length s) + String.length t)%nat. rewrite IH. lia. Qed.

Lemma string_app_inj s t u v :
  String.length s = String.length t -> s +:+ u = t +:+ v -> s = t /\ u = v.
Proof.
  revert t. induction s as [|a s IH]; intros [|b t] Hl H; try done.
  injection Hl as Hl. injection H as -> H. destruct (IH t Hl H) as [-> ->]. done.
Qed.

(** Concatenations to the right, lengths pushed inside. *)
Create HintDb gostrings.
#[export] Hint Rewrite string_app_nil_r string_app_assoc string_length_app : gostrings.

Lemma rev_str_app s acc : rev_str s acc = reverse s +:+ acc.
Proof.
  unfold reverse. revert acc. induction s as [|a s IH]; intros acc; [done|].
  simpl. rewrite (IH (String a acc)), (IH (String a "")), string_app_assoc. done.
Qed.

Lemma reverse_cons a s : reverse (String a s) = reverse s +:+ String a "".
Proof. unfold reverse at 1. simpl. apply rev_str_app. Qed.

Lemma reverse_app s t : reverse (s +:+ t) = reverse t +:+ reverse s.
Proof.
  induction s as [|a s IH].
  - change (reverse t = reverse t +:+ ""). by rewrite string_app_nil_r.
  - change (reverse (String a (s +:+ t)) = reverse t +:+ reverse (String a s)).
    by rewrite !reverse_cons, IH, string_app_assoc.
Qed.

Lemma reverse_involutive s : reverse (reverse s) = s.
Proof.
  induction s as [|a s IH]; [done|]. rewrite reverse_cons, reverse_app, IH. done.
Qed.

Lemma HasPrefix_app p s : HasPrefix p (p +:+ s) = true.
Proof.
  induction p as [|a p IH]; [by destruct s|].
  change (Ascii.eqb a a && HasPrefix p (p +:+ s) = true).
  by rewrite Ascii.eqb_refl, IH.
Qed.

Lemma HasPrefix_iff p s : HasPrefix p s = true <-> exists t, s = p +:+ t.
Proof.
  split.
  - revert s. induction p as [|a p IH]; intros s H.
    + exists s. by destruct s.
    + destruct s as [|b s]; [done|]. simpl in H.
      apply andb_prop in H as [He H]. apply Ascii.eqb_eq in He as ->.
      destruct (IH s H) as [t ->]. by exists t.
  - intros [t ->]. apply HasPrefix_app.
Qed.

Lemma drop_str_app p s : drop_str (String.length p) (p +:+ s) = s.
Proof. induction p as [|a p IH]; [by destruct s|exact IH]. Qed.

Lemma TrimPrefix_app p s : TrimPrefix (p +:+ s) p = s.
Proof. unfold TrimPrefix. by rewrite HasPrefix_app, drop_str_app. Qed.

Lemma TrimSuffix_app s p : TrimSuffix (s +:+ p) p = s.
Proof.
  unfold TrimSuffix, HasSuffix. rewrite reverse_app, HasPrefix_app.
  replace (String.length p) with (String.length (reverse p)).
  - by rewrite drop_str_app, reverse_involutive.
  - clear s. induction p as [|a p IH]; [done|].
    rewrite reverse_cons, string_length_app, IH. simpl. lia.
Qed.

Lemma to_int_has_digit z :
  Z.to_int z <> Decimal.Pos Decimal.Nil /\ Z.to_int z <> Decimal.Neg Decimal.Nil.
Proof.
  destruct z as [|p|p]; split; unfold Z.to_int; intros H; try discriminate H;
    injection H as H; by apply DecimalPos.Unsigned.to_uint_nonnil in H.
Qed.

Lemma Itoa_inj a b : Itoa a = Itoa b -> a = b.
Proof.
  unfold Itoa. intros H. apply (f_equal DecimalString.NilZero.int_of_string) in H.
  rewrite !DecimalString.NilZero.isi in H by apply to_int_has_digit.
  injection H as H. by apply DecimalZ.to_int_inj in H.
Qed.

Example TrimSpace_ex : TrimSpace "  a b	 " = "a b".
Proof. reflexivity. Qed.

Example TrimSuffix_ex : TrimSuffix "alice-container" "-container" = "alice".
Proof. reflexivity. Qed.

(** ** [TrimSpace] is idempotent *)

Definition nonempty_runes (runes : list string) : Prop := Forall (fun r => r <> "") runes.

Lemma strip_one_some runes s s' :
  strip_one runes s = Some s' -> exists r, r ∈ runes /\ s = r +:+ s'.
Proof.
  induction runes as [|r rs IH]; simpl; [done|].
  destruct (HasPrefix r s) eqn:E.
  - intros [= <-]. apply HasPrefix_iff in E as [t ->]. exists r. split; [by left|].
    by rewrite drop_str_app.
  - intros H. destruct (IH H) as (r' & Hr & ->). exists r'. split; [by right|done].
Qed.

Lemma strip_one_none runes s : strip_one runes s = None <-> Forall (fun r => HasPrefix r s = false) runes.
Proof.
  induction runes as [|r rs IH]; simpl; [done|]. rewrite Forall_cons, <- IH.
  destruct (HasPrefix r s); naive_solver.
Qed.

Lemma strip_all_done fuel runes s :
  nonempty_runes runes -> (String.length s < fuel)%nat -> strip_one runes (strip_all fuel runes s) = None.
Proof.
  intros Hne. revert s. induction fuel as [|f IH]; intros s Hf; [lia|]. simpl.
  destruct (strip_one runes s) as [s'|] eqn:E; [|done]. apply IH.
  apply strip_one_some in E as (r & Hr & ->). rewrite string_length_app in Hf.
  assert (r <> "") by (unfold nonempty_runes in Hne; rewrite Forall_forall in Hne; by apply Hne).
  destruct r; [done|]. simpl in Hf. lia.
Qed.

Lemma trim_left_done runes s : nonempty_runes runes -> strip_one runes (trim_left_with runes s) = None.
Proof. intros. unfold trim_left_with. apply strip_all_done; [done|lia]. Qed.

Lemma trim_left_id runes s : strip_one runes s = None -> trim_left_with runes s = s.
Proof. intros H. unfold trim_left_with. simpl. by rewrite H. Qed.

Lemma strip_all_suffix fuel runes s : exists p, s = p +:+ strip_all fuel runes s.
Proof.
  revert s. induction fuel as [|f IH]; intros s; simpl; [by exists ""|].
  destruct (strip_one runes s) as [s'|] eqn:E; [|by exists ""].
  apply strip_one_some in E as (r & _ & ->). destruct (IH s') as [p Hp].
  exists (r +:+ p). by rewrite string_app_assoc, <- Hp.
Qed.

Lemma space_runes_nonempty : nonempty_runes space_runes.
Proof. unfold nonempty_runes. apply Forall_forall. intros r Hr. vm_compute in Hr. set_solver. Qed.

Lemma space_runes_rev_nonempty : nonempty_runes (map reverse space_runes).
Proof. unfold nonempty_runes. apply Forall_forall. intros r Hr. vm_compute in Hr. set_solver. Qed.

Lemma TrimSpace_idem s : TrimSpace (TrimSpace s) = TrimSpace s.
Proof.
  set (l := trim_left_with space_runes s).
  set (r := trim_left_with (map reverse space_runes) (reverse l)).
  assert (Hts : TrimSpace s = reverse r) by done. rewrite Hts.
  assert (Hl : strip_one space_runes (reverse r) = None).
  { pose proof (trim_left_done space_runes s space_runes_nonempty) as H. fold l in H.
    apply strip_one_none. apply strip_one_none in H. eapply Forall_impl; [exact H|]. simpl.
    intros x Hx. apply not_true_is_false. intros Hp. apply HasPrefix_iff in Hp as [t Ht].
    destruct (strip_all_suffix (S (String.length (reverse l))) (map reverse space_runes) (reverse l)) as [p Hp].
    fold (trim_left_with (map reverse space_runes) (reverse l)) in Hp. fold r in Hp.
    apply (f_equal reverse) in Hp. rewrite reverse_involutive, reverse_app, Ht, string_app_assoc in Hp.
    rewrite Hp, HasPrefix_app in Hx. done. }
  unfold TrimSpace at 1. rewrite (trim_left_id _ _ Hl), reverse_involutive.
  by rewrite (trim_left_id _ r) by apply (trim_left_done _ _ space_runes_rev_nonempty).
Qed.

(** ** [strings.Join] with a one-byte separator *)

Fixpoint join_char (c : ascii) (es : list string) : string :=
  match es with
  | [] => ""
  | [e] => e
  | e :: rest => e +:+ String c (join_char c rest)
  end.

Lemma contains_char_split c s : Forall (fun w => contains_char c w = false) (split_char c s).
Proof.
  induction s as [|a s IH]; simpl; [by repeat constructor|].
  destruct (Ascii.eqb_spec a c) as [->|Hne]; [by constructor|].
  destruct (split_char c s) as [|w ws]; [by repeat constructor; simpl; rewrite (proj2 (Ascii.eqb_neq a c))|].
  apply Forall_cons in IH as [Hw Hws]. constructor; [|done]. simpl.
  by rewrite (proj2 (Ascii.eqb_neq a c) Hne).
Qed.

Lemma split_char_app c e s : contains_char c e = false ->
  split_char c (e +:+ String c s) = e :: split_char c s.
Proof.
  induction e as [|a e IH]; intros He.
  - change (split_char c (String c s) = "" :: split_char c s). simpl. by rewrite Ascii.eqb_refl.
  - simpl in He. apply orb_false_iff in He as [Ha He].
    change (split_char c (String a (e +:+ String c s)) = String a e :: split_char c s).
    cbn [split_char]. rewrite Ha, IH by done. done.
Qed.

Lemma split_char_none c e : contains_char c e = false -> split_char c e = [e].
Proof.
  induction e as [|a e IH]; [done|]. simpl. intros [-> H]%orb_false_iff. by rewrite IH.
Qed.

Lemma split_join_char c es :
  Forall (fun w => contains_char c w = false) es -> es <> [] -> split_char c (join_char c es) = es.
Proof.
  induction es as [|e es IH]; intros Hes Hne; [done|]. apply Forall_cons in Hes as [He Hes].
  destruct es as [|e' es]; [by apply split_char_none|].
  change (join_char c (e :: e' :: es)) with (e +:+ String c (join_char c (e' :: es))).
  by rewrite split_char_app, IH.
Qed.

Lemma split_char_nonempty c s : split_char c s <> [].
Proof. destruct s as [|a s]; simpl; [done|]. destruct (Ascii.eqb a c); [done|]. by destruct (split_char c s). Qed.

Lemma contains_char_app c s t : contains_char c (s +:+ t) = contains_char c s || contains_char c t.
Proof.
  induction s as [|a s IH]; [done|].
  change (Ascii.eqb a c || contains_char c (s +:+ t) = Ascii.eqb a c || contains_char c s || contains_char c t).
  by rewrite IH, orb_assoc.
Qed.

(** ** [strings.ReplaceAll] of a non-empty [old] *)

(** [skip] bytes of an occurrence that was replaced are still to be passed over. *)
Fixpoint replace_from (old new : string) (skip : nat) (s : string) : string :=
  match s with
  | "" => ""
  | String c s' =>
      match skip with
      | S k => replace_from old new k s'
      | O => if HasPrefix old s then new +:+ replace_from old new (pred (String.length old)) s'
             else String c (replace_from old new O s')
      end
  end.

Definition ReplaceAll (s old new : string) : string := replace_from old new O s.

Example ReplaceAll_ex : ReplaceAll "aaabab" "ab" "x" = "aaxx" /\ ReplaceAll "aaa" "aa" "b" = "ba".
Proof. split; reflexivity. Qed.
