(* ===== verification/GoSort.v ===== *)
(** * Go's [sort] on what a map holds

    The values of a map in the order of their keys' text.  The result does not depend on the order in
    which the map was walked, because no two values have one key. *)

From S2P Require Import Prelude GoStrings.
#[local] Open Scope string_scope.
#[local] Open Scope list_scope.
#[local] Open Scope Z_scope.

Lemma string_le_total a b : String.le a b \/ String.le b a.
Proof. destruct (total String.le a b); auto. Qed.

(** Sorting two permutations of a list in which the order separates the elements. *)
Lemma merge_sort_agree {A} (R : relation A) `{!forall x y, Decision (R x y)} `{!Total R} `{!Transitive R} (l k : list A) :
  (forall x y, x ∈ l -> y ∈ l -> R x y -> R y x -> x = y) -> l ≡ₚ k -> merge_sort R l = merge_sort R k.
Proof.
  intros Hanti Hp. apply (StronglySorted_unique_strong R).
  - intros x y Hx Hy. rewrite merge_sort_Permutation in Hx. rewrite merge_sort_Permutation, <- Hp in Hy. by apply Hanti.
  - by apply StronglySorted_merge_sort.
  - by apply StronglySorted_merge_sort.
  - by rewrite !merge_sort_Permutation.
Qed.

(** ** Values by key *)

Definition values {A} (m : gmap string A) : list A := (map_to_list m).*2.

Definition key_le {A} (key : A -> string) : relation A := fun x y => String.le (key x) (key y).

#[export] Instance key_le_dec {A} (key : A -> string) x y : Decision (key_le key x y).
Proof. unfold key_le. apply _. Defined.
#[export] Instance key_le_total {A} (key : A -> string) : Total (key_le key).
Proof. intros x y. apply string_le_total. Qed.
#[export] Instance key_le_trans {A} (key : A -> string) : Transitive (key_le key).
Proof. intros x y z. unfold key_le. intros; by etrans. Qed.

(** [sort.Slice] by the text of a key. *)
Definition sorted_by {A} (key : A -> string) (l : list A) : list A := merge_sort (key_le key) l.

(** Each entry of the map is stored under the key of its value. *)
Definition keyed {A} (key : A -> string) (m : gmap string A) : Prop := map_Forall (fun k x => k = key x) m.

Lemma keyed_empty {A} (key : A -> string) : keyed key ∅.
Proof. apply map_Forall_empty. Qed.

Lemma keyed_insert {A} (key : A -> string) m k x : keyed key m -> k = key x -> keyed key (<[k := x]> m).
Proof. intros Hm Hk. by apply map_Forall_insert_2. Qed.

Lemma elem_of_sorted_by {A} (key : A -> string) l x : x ∈ sorted_by key l <-> x ∈ l.
Proof. unfold sorted_by. by rewrite merge_sort_Permutation. Qed.

Lemma elem_of_values {A} (m : gmap string A) x : x ∈ values m <-> exists k, m !! k = Some x.
Proof.
  unfold values. rewrite list_elem_of_fmap. split.
  - intros ([k y] & -> & Hk%elem_of_map_to_list). by exists k.
  - intros [k Hk]. exists (k, x). by rewrite elem_of_map_to_list.
Qed.

(** No two sorted values have one key. *)
Lemma sorted_values_NoDup {A} (key : A -> string) m : keyed key m -> NoDup (key <$> sorted_by key (values m)).
Proof.
  intros Hm. unfold sorted_by. rewrite merge_sort_Permutation. unfold values. rewrite <- list_fmap_compose.
  rewrite (Forall_fmap_ext_1 _ fst); [apply NoDup_fst_map_to_list|]. apply Forall_forall.
  intros [k x] Hk. apply elem_of_map_to_list, Hm in Hk. by rewrite Hk.
Qed.

Lemma sorted_values_sorted {A} (key : A -> string) (l : list A) : StronglySorted (key_le key) (sorted_by key l).
Proof. apply (StronglySorted_merge_sort _). Qed.

(** A list sorted by distinct keys is its own sorting, in whatever order it is walked. *)
Lemma sorted_by_id {A} (key : A -> string) (l k : list A) :
  StronglySorted (key_le key) l -> NoDup (key <$> l) -> k ≡ₚ l -> sorted_by key k = l.
Proof.
  intros Hs Hn Hp. apply (StronglySorted_unique_strong (key_le key)).
  - intros x y Hx Hy Hxy Hyx. unfold sorted_by in Hx. rewrite merge_sort_Permutation, Hp in Hx.
    assert (Heq : key x = key y) by by apply (anti_symm String.le).
    apply list_elem_of_lookup in Hx as [i Hi]. apply list_elem_of_lookup in Hy as [j Hj].
    assert (i = j) as <-; [|congruence].
    eapply (NoDup_lookup _ _ _ (key x) Hn); rewrite list_lookup_fmap, ?Hi, ?Hj; cbn; by rewrite ?Heq.
  - apply sorted_values_sorted.
  - done.
  - unfold sorted_by. by rewrite merge_sort_Permutation.
Qed.

(** ** Indexing a list by key, the last value winning *)

Definition index_into {A} (key : A -> string) (m : gmap string A) (l : list A) : gmap string A :=
  foldl (fun m x => <[key x := x]> m) m l.

Lemma index_into_keyed {A} (key : A -> string) m l : keyed key m -> keyed key (index_into key m l).
Proof. revert m. induction l as [|x l IH]; intros m Hm; [done|]. cbn. apply IH. by apply keyed_insert. Qed.

Lemma index_into_lookup {A} (key : A -> string) m l k :
  index_into key m l !! k = match last (filter (fun x => key x = k) l) with Some x => Some x | None => m !! k end.
Proof.
  revert m. induction l as [|x l IH]; intros m; [done|]. cbn [index_into foldl].
  change (foldl _ ?m l) with (index_into key m l). rewrite IH, filter_cons.
  destruct (decide (key x = k)) as [E|E]; cbn.
  - rewrite last_cons. destruct (last _); [done|]. by rewrite <- E, lookup_insert_eq.
  - destruct (last _); [done|]. by rewrite lookup_insert_ne.
Qed.

Lemma values_insert {A} k (x : A) m : m !! k = None -> values (<[k := x]> m) ≡ₚ x :: values m.
Proof. intros Hk. unfold values. by rewrite map_to_list_insert. Qed.

Lemma values_index {A} (key : A -> string) m l :
  NoDup (key <$> l) -> (forall x, x ∈ l -> m !! key x = None) -> values (index_into key m l) ≡ₚ l ++ values m.
Proof.
  revert m. induction l as [|x l IH]; intros m Hn Hm; [done|]. cbn in Hn |- *. apply NoDup_cons in Hn as [Hx Hn].
  change (foldl _ ?m l) with (index_into key m l). rewrite IH; [|done|].
  - rewrite values_insert by (apply Hm; left). by rewrite Permutation_middle.
  - intros y Hy. rewrite lookup_insert_ne; [apply Hm; by right|].
    intros E. apply Hx. rewrite E. by apply list_elem_of_fmap_2.
Qed.

(** Sorting the index of a sorted list of distinct keys gives the list back. *)
Lemma sorted_index_id {A} (key : A -> string) l :
  StronglySorted (key_le key) l -> NoDup (key <$> l) -> sorted_by key (values (index_into key ∅ l)) = l.
Proof.
  intros Hs Hn. apply sorted_by_id; [done|done|]. rewrite values_index by (done || (intros; apply lookup_empty)).
  by rewrite app_nil_r.
Qed.

(** What is in the sorted index: the last element of each key. *)
Lemma elem_of_sorted_index {A} (key : A -> string) l x :
  x ∈ sorted_by key (values (index_into key ∅ l)) <-> last (filter (fun y => key y = key x) l) = Some x.
Proof.
  rewrite elem_of_sorted_by, elem_of_values. split.
  - intros [k Hk]. pose proof (index_into_keyed key ∅ l (keyed_empty key) k x Hk) as ->.
    rewrite index_into_lookup in Hk. destruct (last _); [done|]. by rewrite lookup_empty in Hk.
  - intros Hl. exists (key x). by rewrite index_into_lookup, Hl.
Qed.
