(* ===== verification/GoStrconv.v ===== *)
(** * Go's strconv: decimal integers

    [strconv.Atoi] and [ParseInt(s, 10, 64)], which agree on the texts they accept and on
    the values: an optional sign, then at least one ASCII digit, with the value in the
    range of int64.  [None] is the error.  What [FormatInt] writes is read back
    ([ParseInt_Itoa]). *)

From S2P Require Import Prelude GoStrings.
From Stdlib Require Import Ascii Decimal DecimalString DecimalZ.
#[local] Open Scope string_scope.
#[local] Open Scope list_scope.
#[local] Open Scope Z_scope.

Definition digit_of (a : ascii) : option Z :=
  let n := Z.of_nat (nat_of_ascii a) - 48 in
  if (0 <=? n) && (n <=? 9) then Some n else None.

(** All of [s] as digits, after [acc]. *)
Fixpoint digits_from (acc : Z) (s : string) : option Z :=
  match s with
  | "" => Some acc
  | String a s' => match digit_of a with Some n => digits_from (10 * acc + n) s' | None => None end
  end.

Definition parse_uint (s : string) : option Z := match s with "" => None | _ => digits_from 0 s end.

(** The value in range, with its sign. *)
Definition signed (bits : Z) (neg : bool) (digits : string) : option Z :=
  match parse_uint digits with
  | Some n => let v := if neg then - n else n in
              if bool_decide (in_type (IntType bits true) v) then Some v else None
  | None => None
  end.

Definition ParseInt (bits : Z) (s : string) : option Z :=
  match s with
  | String "-" s' => signed bits true s'
  | String "+" s' => signed bits false s'
  | _ => signed bits false s
  end.

Definition Atoi (s : string) : option Z := ParseInt 64 s.

(** The value [Atoi] returns beside its error: 0 for a text that is no number, the nearest
    bound for one out of range. *)
Definition saturated (neg : bool) (digits : string) : Z :=
  match parse_uint digits with
  | Some n => clamp (- 2 ^ 63) (2 ^ 63 - 1) (if neg then - n else n)
  | None => 0
  end.
Definition Atoi_value (s : string) : Z :=
  match s with
  | String "-" s' => saturated true s'
  | String "+" s' => saturated false s'
  | _ => saturated false s
  end.

Example Atoi_ex :
  map Atoi ["42"; "-7"; "+3"; ""; "4x"; "-"; "9223372036854775807"; "9223372036854775808"]
  = [Some 42; Some (-7); Some 3; None; None; None; Some (2 ^ 63 - 1); None].
Proof. vm_compute. reflexivity. Qed.

Lemma digit_of_bounds a n : digit_of a = Some n -> 0 <= n <= 9.
Proof. unfold digit_of. destruct (_ && _) eqn:E; [|done]. intros [= <-]. lia. Qed.

Lemma digits_from_nonneg acc s n : 0 <= acc -> digits_from acc s = Some n -> acc <= n.
Proof.
  revert acc. induction s as [|a s IH]; intros acc Hacc; simpl; [intros [= <-]; lia|].
  destruct (digit_of a) as [k|] eqn:Hk; [|done]. apply digit_of_bounds in Hk. intros Hd.
  apply IH in Hd; lia.
Qed.

Lemma signed_in_type bits neg s v : signed bits neg s = Some v -> in_type (IntType bits true) v.
Proof. unfold signed. destruct (parse_uint s); [|done]. cbv zeta. case_bool_decide; [|done]. by intros [= <-]. Qed.

(** The cases of the sign. *)
Lemma ParseInt_cases bits s :
  (exists s', s = String "-" s' /\ ParseInt bits s = signed bits true s') \/
  (exists s', s = String "+" s' /\ ParseInt bits s = signed bits false s') \/
  ParseInt bits s = signed bits false s.
Proof.
  destruct s as [|a s]; [by right; right|].
  destruct a as [[] [] [] [] [] [] [] []];
    solve [by right; right|left; by exists s|right; left; by exists s].
Qed.

Lemma ParseInt_in_type bits s v : ParseInt bits s = Some v -> in_type (IntType bits true) v.
Proof. destruct (ParseInt_cases bits s) as [(?&_& ->)|[(?&_& ->)| ->]]; apply signed_in_type. Qed.

(** A text that starts with a digit has no sign. *)
Lemma ParseInt_digits bits a s : is_Some (digit_of a) -> ParseInt bits (String a s) = signed bits false (String a s).
Proof.
  intros [n Hn]. destruct (ParseInt_cases bits (String a s)) as [(? & [= -> ->] & _)|[(? & [= -> ->] & _)| ->]]; try done;
    vm_compute in Hn; discriminate.
Qed.

Lemma saturated_signed neg digits v : signed 64 neg digits = Some v -> saturated neg digits = v.
Proof.
  unfold signed, saturated. destruct (parse_uint digits) as [n|]; [|done]. cbv zeta. case_bool_decide as Hr; [|done].
  intros [= <-]. unfold clamp, in_type, it_min, it_max in *. simpl in Hr. lia.
Qed.

Lemma Atoi_value_Some s v : Atoi s = Some v -> Atoi_value s = v.
Proof.
  destruct s as [|a s]; [done|]. unfold Atoi, Atoi_value, ParseInt.
  destruct a as [[] [] [] [] [] [] [] []]; apply saturated_signed.
Qed.

Example Atoi_value_ex :
  map Atoi_value ["42"; "-7"; "x"; "9223372036854775808"; "-9223372036854775809"] = [42; -7; 0; 2 ^ 63 - 1; - 2 ^ 63].
Proof. vm_compute. reflexivity. Qed.

(** The value of decimal digits read after [acc]. *)
Fixpoint uint_from (acc : Z) (d : Decimal.uint) : Z :=
  match d with
  | Decimal.Nil => acc
  | Decimal.D0 d => uint_from (10 * acc + 0) d
  | Decimal.D1 d => uint_from (10 * acc + 1) d
  | Decimal.D2 d => uint_from (10 * acc + 2) d
  | Decimal.D3 d => uint_from (10 * acc + 3) d
  | Decimal.D4 d => uint_from (10 * acc + 4) d
  | Decimal.D5 d => uint_from (10 * acc + 5) d
  | Decimal.D6 d => uint_from (10 * acc + 6) d
  | Decimal.D7 d => uint_from (10 * acc + 7) d
  | Decimal.D8 d => uint_from (10 * acc + 8) d
  | Decimal.D9 d => uint_from (10 * acc + 9) d
  end.

Lemma of_uint_acc_from d : forall p, Zpos (Pos.of_uint_acc d p) = uint_from (Zpos p) d.
Proof.
  induction d as [|d IH|d IH|d IH|d IH|d IH|d IH|d IH|d IH|d IH|d IH]; intros p;
    [done|..]; cbn [Pos.of_uint_acc uint_from]; rewrite IH; f_equal; lia.
Qed.

Lemma of_uint_from d : Z.of_N (Pos.of_uint d) = uint_from 0 d.
Proof.
  induction d as [|d IH|d IH|d IH|d IH|d IH|d IH|d IH|d IH|d IH|d IH]; [done|exact IH|..];
    cbn [Pos.of_uint uint_from Z.of_N]; rewrite of_uint_acc_from; f_equal; lia.
Qed.

Lemma digits_from_uint d : forall acc, digits_from acc (NilEmpty.string_of_uint d) = Some (uint_from acc d).
Proof.
  induction d as [|d IH|d IH|d IH|d IH|d IH|d IH|d IH|d IH|d IH|d IH]; intros acc; [done|..];
    exact (IH _).
Qed.

Lemma parse_uint_uint d : d <> Decimal.Nil -> parse_uint (NilEmpty.string_of_uint d) = Some (uint_from 0 d).
Proof. intros Hd. rewrite <- digits_from_uint. by destruct d. Qed.

Lemma ParseInt_Itoa z : in_type i64 z -> ParseInt 64 (Itoa z) = Some z.
Proof.
  intros Hz. unfold Itoa. destruct (to_int_has_digit z) as [Hp Hn].
  pose proof (DecimalZ.of_to z) as Hof. destruct (Z.to_int z) as [d|d] eqn:Ed.
  - cbn [NilZero.string_of_int]. assert (Hd : d <> Decimal.Nil) by (intros ->; done).
    assert (Hs : NilZero.string_of_uint d = NilEmpty.string_of_uint d) by (by destruct d).
    rewrite Hs. cbn [Z.of_int] in Hof. unfold Z.of_uint in Hof. rewrite of_uint_from in Hof.
    assert (Hparse : ParseInt 64 (NilEmpty.string_of_uint d) = signed 64 false (NilEmpty.string_of_uint d)) by (by destruct d).
    rewrite Hparse. unfold signed. rewrite parse_uint_uint by done. rewrite Hof.
    by rewrite bool_decide_true.
  - cbn [NilZero.string_of_int]. assert (Hd : d <> Decimal.Nil) by (intros ->; done).
    assert (Hs : NilZero.string_of_uint d = NilEmpty.string_of_uint d) by (by destruct d).
    rewrite Hs. cbn [Z.of_int] in Hof. unfold Z.of_uint in Hof. rewrite of_uint_from in Hof.
    change (signed 64 true (NilEmpty.string_of_uint d) = Some z).
    unfold signed. rewrite parse_uint_uint by done.
    rewrite bool_decide_true; [by f_equal|]. by rewrite Hof.
Qed.
