(* ===== verification/GoUtf8.v ===== *)
(** * Go's [unicode/utf8] and [unicode], as the label rules use them

    A rune is a [Z].  [runes] is what [for _, r := range s] yields: an invalid byte is the
    replacement rune, one byte wide.  [EqualFold] is [strings.EqualFold] against an ASCII
    second argument, which is how the source uses it: simple folding maps no rune but the
    letter's two cases onto an ASCII letter, except U+017F onto s and U+212A onto k. *)

From S2P Require Import Prelude GoStrings.
From Stdlib Require Import Ascii.
#[local] Open Scope string_scope.
#[local] Open Scope list_scope.
#[local] Open Scope Z_scope.

Definition byte_Z (a : ascii) : Z := Z.of_N (N_of_ascii a).

Definition RuneError : Z := 65533.

Definition between (lo hi x : Z) : bool := (lo <=? x) && (x <=? hi).

(** The continuation bytes a sequence needs, with the range of the first of them; [None]
    for a byte that starts no sequence. *)
Definition seq_shape (b0 : Z) : option (nat * Z * Z) :=
  if b0 <? 128 then Some (0%nat, 0, 0)
  else if between 194 223 b0 then Some (1%nat, 128, 191)
  else if b0 =? 224 then Some (2%nat, 160, 191)
  else if between 225 236 b0 || between 238 239 b0 then Some (2%nat, 128, 191)
  else if b0 =? 237 then Some (2%nat, 128, 159)
  else if b0 =? 240 then Some (3%nat, 144, 191)
  else if between 241 243 b0 then Some (3%nat, 128, 191)
  else if b0 =? 244 then Some (3%nat, 128, 143)
  else None.

Definition seq_value (n : nat) (b0 : Z) : Z :=
  match n with
  | O => b0
  | S O => Z.land b0 31
  | S (S O) => Z.land b0 15
  | _ => Z.land b0 7
  end.

(** [n] more continuation bytes, the first of them in [lo, hi]. *)
Fixpoint read_cont (n : nat) (lo hi acc : Z) (s : string) : option (Z * string) :=
  match n with
  | O => Some (acc, s)
  | S k =>
      match s with
      | "" => None
      | String a s' =>
          if between lo hi (byte_Z a)
          then read_cont k 128 191 (acc * 64 + Z.land (byte_Z a) 63) s' else None
      end
  end.

(** The rune, whether its encoding is valid, and the rest. *)
Definition DecodeRune (s : string) : option (Z * bool * string) :=
  match s with
  | "" => None
  | String a s' =>
      match seq_shape (byte_Z a) with
      | None => Some (RuneError, false, s')
      | Some (n, lo, hi) =>
          match read_cont n lo hi (seq_value n (byte_Z a)) s' with
          | Some (r, rest) => Some (r, true, rest)
          | None => Some (RuneError, false, s')
          end
      end
  end.

Fixpoint decode_all (fuel : nat) (s : string) : list (Z * bool) :=
  match fuel with
  | O => []
  | S f => match DecodeRune s with
           | None => []
           | Some (r, ok, rest) => (r, ok) :: decode_all f rest
           end
  end.

(** A rune takes at least one byte, so the length is fuel enough. *)
Definition decoded (s : string) : list (Z * bool) := decode_all (String.length s) s.

Definition runes (s : string) : list Z := (decoded s).*1.
Definition RuneCountInString (s : string) : Z := Z.of_nat (length (runes s)).
Definition ValidString (s : string) : bool := forallb snd (decoded s).

(** ** Character classes *)

(** Category Cc. *)
Definition IsControl (r : Z) : bool := between 0 31 r || between 127 159 r.

(** Category Cf, as of Unicode 15. *)
Definition Cf_ranges : list (Z * Z) :=
  [(173, 173); (1536, 1541); (1564, 1564); (1757, 1757); (1807, 1807); (2192, 2193); (2274, 2274);
   (6158, 6158); (8203, 8207); (8234, 8238); (8288, 8292); (8294, 8303); (65279, 65279);
   (65529, 65531); (69821, 69821); (69837, 69837); (78896, 78911); (113824, 113827);
   (119155, 119162); (917505, 917505); (917536, 917631)].

Definition IsCf (r : Z) : bool := existsb (fun lh => between lh.1 lh.2 r) Cf_ranges.

(** ** Case folding against ASCII *)

Definition lower_Z (r : Z) : Z := if between 65 90 r then r + 32 else r.

Definition folds_to (r : Z) (a : ascii) : bool :=
  let l := lower_Z (byte_Z a) in
  (lower_Z r =? l) || ((l =? 115) && (r =? 383)) || ((l =? 107) && (r =? 8490)).

Fixpoint fold_match (rs : list Z) (w : string) : bool :=
  match rs, w with
  | [], "" => true
  | r :: rs', String a w' => folds_to r a && fold_match rs' w'
  | _, _ => false
  end.

Definition EqualFold (s w : string) : bool := fold_match (runes s) w.

(** ** Lemmas *)

Lemma byte_Z_range a : 0 <= byte_Z a < 256.
Proof.
  unfold byte_Z. pose proof (N_ascii_bounded a). lia.
Qed.

Lemma read_cont_short n lo hi acc t x u :
  read_cont n lo hi acc t = Some (x, u) -> (String.length u <= String.length t)%nat.
Proof.
  revert lo hi acc t. induction n as [|n IH]; intros lo hi acc t Ht; simpl in Ht; [by simplify_eq|].
  destruct t as [|b t]; [done|]. destruct (between lo hi (byte_Z b)); [|done].
  apply IH in Ht. simpl. lia.
Qed.

Lemma DecodeRune_short s r ok rest :
  DecodeRune s = Some (r, ok, rest) -> (String.length rest < String.length s)%nat.
Proof.
  destruct s as [|a s]; [done|]. simpl.
  destruct (seq_shape (byte_Z a)) as [[[n lo] hi]|]; [|intros; simplify_eq; lia].
  destruct (read_cont n lo hi _ s) as [[x u]|] eqn:E; intros; simplify_eq; [|lia].
  apply read_cont_short in E. lia.
Qed.

Lemma decode_all_fuel f g s :
  (String.length s <= f)%nat -> (String.length s <= g)%nat -> decode_all f s = decode_all g s.
Proof.
  revert g s. induction f as [|f IH]; intros g s Hf Hg.
  { destruct s; [by destruct g|simpl in Hf; lia]. }
  destruct g as [|g]; [destruct s; [done|simpl in Hg; lia]|]. simpl.
  destruct (DecodeRune s) as [[[r ok] rest]|] eqn:E; [|done]. f_equal.
  apply DecodeRune_short in E. apply IH; lia.
Qed.

Lemma decoded_step s r ok rest :
  DecodeRune s = Some (r, ok, rest) -> decoded s = (r, ok) :: decoded rest.
Proof.
  intros E. unfold decoded. pose proof (DecodeRune_short _ _ _ _ E) as Hl.
  destruct (String.length s) as [|n] eqn:Hn; [lia|]. simpl. rewrite E. f_equal.
  apply decode_all_fuel; lia.
Qed.

(** An ASCII byte ends whatever sequence was open before it. *)
Lemma read_cont_app n lo hi acc t a q :
  128 <= lo -> byte_Z a < 128 ->
  read_cont n lo hi acc (t +:+ String a q)
  = (fun xu => (xu.1, xu.2 +:+ String a q)) <$> read_cont n lo hi acc t.
Proof.
  revert lo hi acc t. induction n as [|n IH]; intros lo hi acc t Hlo Ha; [done|].
  destruct t as [|b t].
  - change ("" +:+ String a q) with (String a q). simpl. unfold between.
    by rewrite (proj2 (Z.leb_gt lo (byte_Z a))) by lia.
  - change (String b t +:+ String a q) with (String b (t +:+ String a q)). simpl.
    destruct (between lo hi (byte_Z b)); [|done]. apply IH; lia.
Qed.

Lemma seq_shape_lo b n lo hi : seq_shape b = Some (n, lo, hi) -> n = 0%nat \/ 128 <= lo.
Proof.
  unfold seq_shape. intros H. repeat case_match; simplify_eq; first [by left|right; lia].
Qed.

Lemma DecodeRune_app p a q r ok rest :
  byte_Z a < 128 -> DecodeRune p = Some (r, ok, rest) ->
  DecodeRune (p +:+ String a q) = Some (r, ok, rest +:+ String a q).
Proof.
  intros Ha. destruct p as [|b p]; [done|].
  change (String b p +:+ String a q) with (String b (p +:+ String a q)). simpl.
  destruct (seq_shape (byte_Z b)) as [[[n lo] hi]|] eqn:Es; [|by intros; simplify_eq].
  destruct (seq_shape_lo _ _ _ _ Es) as [->|Hlo]; [simpl; congruence|].
  rewrite read_cont_app by done.
  by destruct (read_cont n lo hi _ p) as [[x u]|]; intros; simplify_eq/=.
Qed.

Lemma decoded_app_ascii p a q :
  byte_Z a < 128 -> decoded (p +:+ String a q) = decoded p ++ (byte_Z a, true) :: decoded q.
Proof.
  intros Ha. remember (String.length p) as n eqn:Hn. revert p Hn.
  induction (lt_wf n) as [n _ IH]. intros p ->. destruct p as [|b p].
  - change ("" +:+ String a q) with (String a q).
    rewrite (decoded_step (String a q) (byte_Z a) true q); [done|].
    simpl. unfold seq_shape. by rewrite (proj2 (Z.ltb_lt _ _)).
  - destruct (DecodeRune (String b p)) as [[[r ok] rest]|] eqn:E.
    + rewrite (decoded_step _ _ _ _ (DecodeRune_app _ a q _ _ _ Ha E)), (decoded_step _ _ _ _ E).
      rewrite (IH (String.length rest)); [done| |done]. by eapply DecodeRune_short.
    + simpl in E. by repeat case_match.
Qed.

Lemma runes_app_ascii p a q :
  byte_Z a < 128 -> runes (p +:+ String a q) = runes p ++ byte_Z a :: runes q.
Proof. intros Ha. unfold runes. by rewrite decoded_app_ascii, fmap_app. Qed.

(** Only an ASCII byte decodes to an ASCII rune. *)
Lemma read_cont_ge n lo hi acc t x u :
  0 <= acc -> read_cont n lo hi acc t = Some (x, u) -> acc * 64 ^ Z.of_nat n <= x.
Proof.
  revert lo hi acc t. induction n as [|n IH]; intros lo hi acc t Hacc Ht; simpl in Ht.
  - simplify_eq. rewrite Z.pow_0_r. lia.
  - destruct t as [|b t]; [done|]. destruct (between lo hi (byte_Z b)); [|done].
    assert (0 <= Z.land (byte_Z b) 63) by (apply Z.land_nonneg; right; lia).
    apply IH in Ht; [|lia].
    replace (Z.of_nat (S n)) with (Z.of_nat n + 1) by lia. rewrite Z.pow_add_r by lia.
    assert (0 < 64 ^ Z.of_nat n) by (apply Z.pow_pos_nonneg; lia). nia.
Qed.

Lemma read_cont_first n lo hi acc t x u :
  128 <= lo -> hi <= 191 -> 0 <= acc ->
  read_cont (S n) lo hi acc t = Some (x, u) -> (acc * 64 + (lo - 128)) * 64 ^ Z.of_nat n <= x.
Proof.
  intros Hlo Hhi Hacc Ht. simpl in Ht. destruct t as [|b t]; [done|].
  destruct (between lo hi (byte_Z b)) eqn:Eb; [|done].
  unfold between in Eb. apply andb_prop in Eb as [?%Z.leb_le ?%Z.leb_le].
  assert (Hland : Z.land (byte_Z b) 63 = byte_Z b - 128).
  { change 63 with (Z.ones 6). rewrite Z.land_ones by lia. change (2 ^ 6) with 64.
    symmetry. apply (Z.mod_unique_pos _ _ 2); lia. }
  apply read_cont_ge in Ht; [|lia]. rewrite Hland in Ht.
  assert (0 < 64 ^ Z.of_nat n) by (apply Z.pow_pos_nonneg; lia). nia.
Qed.

(** A multi-byte sequence cannot encode an ASCII rune. *)
Lemma seq_shape_large b n lo hi :
  0 <= b < 256 -> seq_shape b = Some (n, lo, hi) ->
  (n = 0%nat /\ b < 128) \/
  exists m, n = S m /\ 128 <= lo /\ hi <= 191 /\ 0 <= seq_value n b
            /\ 128 <= (seq_value n b * 64 + (lo - 128)) * 64 ^ Z.of_nat m.
Proof.
  intros Hb Es.
  assert (Hl : forall j base k, 0 <= j -> base mod 2 ^ j = 0 -> base <= k < base + 2 ^ j ->
                 Z.land k (Z.ones j) = k - base).
  { intros j base k Hj Hbase Hk. rewrite Z.land_ones by lia.
    pose proof (Z.div_mod base (2 ^ j)). symmetry.
    apply (Z.mod_unique_pos _ _ (base / 2 ^ j)); lia. }
  unfold seq_shape, between in Es.
  repeat case_match; simplify_eq;
    repeat match goal with
    | H : (_ || _) = true |- _ => apply orb_prop in H as [H|H]
    | H : _ && _ = true |- _ => apply andb_prop in H as [?%Z.leb_le ?%Z.leb_le]
    | H : (_ =? _) = true |- _ => apply Z.eqb_eq in H as ->
    | H : (_ <? _) = true |- _ => apply Z.ltb_lt in H
    end; first [by left|right; eexists; split; [reflexivity|]];
    cbn [seq_value]; vm_compute (Z.of_nat _);
    try (change 31 with (Z.ones 5); rewrite (Hl 5 192 b) by (try reflexivity; lia));
    try (change 15 with (Z.ones 4); rewrite (Hl 4 224 b) by (try reflexivity; lia));
    try (change 7 with (Z.ones 3); rewrite (Hl 3 240 b) by (try reflexivity; lia));
    first [lia|vm_compute; intuition congruence].
Qed.

Lemma DecodeRune_ascii s r ok rest c :
  DecodeRune s = Some (r, ok, rest) -> r = byte_Z c -> byte_Z c < 128 -> s = String c rest.
Proof.
  destruct s as [|a s]; [done|]. simpl. intros H -> Hc.
  destruct (seq_shape (byte_Z a)) as [[[n lo] hi]|] eqn:Es; [|unfold RuneError in *; simplify_eq; lia].
  destruct (seq_shape_large _ _ _ _ (byte_Z_range a) Es) as [[-> _]|(m & -> & Hlo & Hhi & Hv & Hbig)].
  - simpl in H. injection H as H <- <-. f_equal. unfold byte_Z in H. apply N2Z.inj in H.
    rewrite <- (ascii_N_embedding a), <- (ascii_N_embedding c). by f_equal.
  - destruct (read_cont (S m) lo hi _ s) as [[x u]|] eqn:Er; [|unfold RuneError in *; simplify_eq; lia].
    apply read_cont_first in Er; [|done..]. simplify_eq. lia.
Qed.

Definition is_ascii (s : string) : Prop := forall a, contains_char a s = true -> byte_Z a < 128.

Lemma is_ascii_cons a s : is_ascii (String a s) -> byte_Z a < 128 /\ is_ascii s.
Proof.
  intros H. split; [apply H; simpl; by rewrite Ascii.eqb_refl|].
  intros b Hb. apply H. simpl. rewrite Hb. apply orb_true_r.
Qed.

Lemma runes_cons_ascii a s : byte_Z a < 128 -> runes (String a s) = byte_Z a :: runes s.
Proof.
  intros Ha. unfold runes, decoded. simpl. unfold seq_shape.
  rewrite (proj2 (Z.ltb_lt _ _)) by done. done.
Qed.

Lemma folds_to_refl a : folds_to (byte_Z a) a = true.
Proof. unfold folds_to. by rewrite Z.eqb_refl. Qed.

(** An ASCII text folds to itself and to its other casings. *)
Lemma EqualFold_refl w : is_ascii w -> EqualFold w w = true.
Proof.
  induction w as [|a w IH]; intros H; [done|]. apply is_ascii_cons in H as [Ha Hw].
  unfold EqualFold in *. rewrite runes_cons_ascii by done. simpl. by rewrite folds_to_refl, IH.
Qed.

Example EqualFold_ex :
  EqualFold "Agent:DONE" "agent:done" = true /\ EqualFold "agent:done " "agent:done" = false
  /\ EqualFold (bytes_str [197; 191]%nat) "s" = true.
Proof. repeat split. Qed.

Example runes_ex : runes (bytes_str [104; 195; 169; 226; 128; 139; 255]%nat) = [104; 233; 8203; 65533].
Proof. reflexivity. Qed.
