(* ===== verification/GoNet.v ===== *)
(** * Go's [net] and [net/netip] address parsing, as the modelled packages use it

    A [net.IP] is a byte slice: a list of byte values, of length 4 or 16.
    [ParseAddr] follows netip.ParseAddr: the first of '.', ':' and '%' in the
    text selects the IPv4 or the IPv6 grammar.  Zones are split off and reported,
    because [ParseIP] rejects a zoned address. *)

From S2P Require Import Prelude GoStrings.
From Stdlib Require Import Ascii.

#[local] Open Scope string_scope.
#[local] Open Scope list_scope.
#[local] Open Scope Z_scope.

Definition IP := list Z.

(** ** IPv4 dotted decimal *)

Definition digit_of (a : ascii) : option Z :=
  let n := Z.of_nat (nat_of_ascii a) in
  if (48 <=? n) && (n <=? 57) then Some (n - 48) else None.

(** netip's parseIPv4Fields.  [val] and [digLen] are the octet being read, [acc]
    the finished octets in order.  A '.' needs a digit before it and a character
    after it, and at most three dots are allowed. *)
Fixpoint parseIPv4Fields (val digLen : Z) (acc : list Z) (s : string) : option (list Z) :=
  match s with
  | "" => if (length acc =? 3)%nat then Some (acc ++ [val]) else None
  | String c s' =>
      match digit_of c with
      | Some d =>
          if (digLen =? 1) && (val =? 0) then None
          else if 255 <? val * 10 + d then None
          else parseIPv4Fields (val * 10 + d) (digLen + 1) acc s'
      | None =>
          if Ascii.eqb c "." then
            if (digLen =? 0) || (String.length s' =? 0)%nat then None
            else if (length acc =? 3)%nat then None
            else parseIPv4Fields 0 0 (acc ++ [val]) s'
          else None
      end
  end.

Definition parse_v4 (s : string) : option (list Z) := parseIPv4Fields 0 0 [] s.

(** ** IPv6 *)

Definition hex_of (a : ascii) : option Z :=
  let n := Z.of_nat (nat_of_ascii a) in
  if (48 <=? n) && (n <=? 57) then Some (n - 48)
  else if (97 <=? n) && (n <=? 102) then Some (n - 87)
  else if (65 <=? n) && (n <=? 70) then Some (n - 55)
  else None.

(** Read at most four hex digits: value, number of digits, rest.  A fifth digit
    is an error. *)
Fixpoint read_hex (acc off : Z) (s : string) : option (Z * Z * string) :=
  match s with
  | "" => Some (acc, off, "")
  | String c s' =>
      match hex_of c with
      | Some d => if 3 <? off then None else read_hex (acc * 16 + d) (off + 1) s'
      | None => Some (acc, off, s)
      end
  end.

(** The main loop of netip's parseIPv6: [ip] holds the bytes written so far,
    [ell] the position of the ellipsis.  Each round consumes a character, so the
    length of the text is enough fuel.  The result is the bytes, the ellipsis and
    the unread text. *)
Fixpoint v6_loop (fuel : nat) (ip : list Z) (ell : option nat) (s : string)
  : option (list Z * option nat * string) :=
  match fuel with
  | O => None
  | S f =>
      if (16 <=? length ip)%nat then Some (ip, ell, s)
      else
        match read_hex 0 0 s with
        | None => None
        | Some (acc, off, rest) =>
            if off =? 0 then None
            else
              match rest with
              | String "." _ =>
                  match ell with
                  | None => if negb (length ip =? 12)%nat then None
                            else match parse_v4 s with
                                 | Some q => Some (ip ++ q, ell, "")
                                 | None => None
                                 end
                  | Some _ => if (16 <? length ip + 4)%nat then None
                              else match parse_v4 s with
                                   | Some q => Some (ip ++ q, ell, "")
                                   | None => None
                                   end
                  end
              | "" => Some (ip ++ [acc / 256; acc mod 256], ell, "")
              | String ":" "" => None
              | String ":" (String ":" rest') =>
                  match ell with
                  | Some _ => None
                  | None =>
                      let ip' := (ip ++ [acc / 256; acc mod 256]) in
                      let ell' := Some (length ip') in
                      if (String.length rest' =? 0)%nat then Some (ip', ell', "")
                      else v6_loop f ip' ell' rest'
                  end
              | String ":" rest' =>
                  v6_loop f (ip ++ [acc / 256; acc mod 256]) ell rest'
              | _ => None
              end
        end
  end.

Fixpoint split_zone (s : string) : string * option string :=
  match s with
  | "" => ("", None)
  | String "%" z => ("", Some z)
  | String c s' => let '(a, z) := split_zone s' in (String c a, z)
  end.

Definition v6_finish (r : list Z * option nat * string) : option (list Z) :=
  let '(ip, ell, rest) := r in
  if negb (String.length rest =? 0)%nat then None
  else if (length ip <? 16)%nat then
    match ell with
    | None => None
    | Some k => Some (take k ip ++ replicate (16 - length ip) 0 ++ drop k ip)
    end
  else match ell with Some _ => None | None => Some ip end.

(** The 16 address bytes and the zone ([""] for none). *)
Definition parse_v6 (s0 : string) : option (list Z * string) :=
  let '(s, z) := split_zone s0 in
  if match z with Some "" => true | _ => false end then None
  else
    let zone := match z with Some z' => z' | None => "" end in
    match s with
    | String ":" (String ":" "") => Some (replicate 16 0, zone)
    | String ":" (String ":" s') =>
        r ← v6_loop (S (String.length s')) [] (Some 0%nat) s'; ip ← v6_finish r; Some (ip, zone)
    | _ => r ← v6_loop (S (String.length s)) [] None s; ip ← v6_finish r; Some (ip, zone)
    end.

(** ** [netip.ParseAddr], [net.ParseIP] and [net.IP.To4] *)

Inductive Addr :=
| AddrV4 (octets : list Z)
| AddrV6 (octets : list Z) (zone : string).

Fixpoint addr_kind (s : string) : option ascii :=
  match s with
  | "" => None
  | String c s' =>
      if Ascii.eqb c "." || Ascii.eqb c ":" || Ascii.eqb c "%" then Some c else addr_kind s'
  end.

Definition ParseAddr (s : string) : option Addr :=
  match addr_kind s with
  | Some c => if Ascii.eqb c "." then AddrV4 <$> parse_v4 s
              else if Ascii.eqb c ":" then (fun r => AddrV6 r.1 r.2) <$> parse_v6 s
              else None
  | None => None
  end.

Definition v4_in_v6 : list Z := (replicate 10 0 ++ [255; 255]).

(** [net.ParseIP]: the 16-byte form, or nil. *)
Definition ParseIP (s : string) : option IP :=
  match ParseAddr s with
  | Some (AddrV4 q) => Some (v4_in_v6 ++ q)
  | Some (AddrV6 b z) => if String.eqb z "" then Some b else None
  | None => None
  end.

Definition To4 (ip : IP) : option IP :=
  if (length ip =? 4)%nat then Some ip
  else if (length ip =? 16)%nat && bool_decide (take 12 ip = v4_in_v6) then Some (drop 12 ip)
  else None.

(** [net.IP.String] of a 4-byte address. *)
Definition octets_string (a b c d : Z) : string :=
  Itoa a +:+ "." +:+ Itoa b +:+ "." +:+ Itoa c +:+ "." +:+ Itoa d.

Definition String4 (ip : IP) : string :=
  match ip with
  | [a; b; c; d] => octets_string a b c d
  | _ => "?"
  end.

(** ** Printing then parsing an IPv4 address *)

Definition octet (z : Z) : Prop := 0 <= z <= 255.

(** Reading one printed octet advances the parser by exactly that octet. *)
Definition reads_octet (z : Z) : bool :=
  match Itoa z with
  | String c1 "" =>
      bool_decide (digit_of c1 = Some z)
  | String c1 (String c2 "") =>
      match digit_of c1, digit_of c2 with
      | Some d1, Some d2 => (0 <? d1) && (z =? d1 * 10 + d2)
      | _, _ => false
      end
  | String c1 (String c2 (String c3 "")) =>
      match digit_of c1, digit_of c2, digit_of c3 with
      | Some d1, Some d2, Some d3 => (0 <? d1) && (z =? (d1 * 10 + d2) * 10 + d3)
      | _, _, _ => false
      end
  | _ => false
  end.

Lemma reads_octet_all z : octet z -> reads_octet z = true.
Proof.
  intros Hz. unfold octet in Hz.
  assert (H : forallb (fun n => reads_octet (Z.of_nat n)) (seq 0 256) = true) by (vm_compute; reflexivity).
  rewrite forallb_forall in H. specialize (H (Z.to_nat z)).
  rewrite Z2Nat.id in H by lia. apply H, in_seq. lia.
Qed.

Lemma digit_of_range c d : digit_of c = Some d -> 0 <= d <= 9.
Proof. unfold digit_of. case_match eqn:E; intros; simplify_eq. lia. Qed.

Lemma parse_digit c d val dl acc s :
  digit_of c = Some d -> (dl = 1 -> 0 < val) -> 0 <= val -> val * 10 + d <= 255 ->
  parseIPv4Fields val dl acc (String c s) = parseIPv4Fields (val * 10 + d) (dl + 1) acc s.
Proof.
  intros Hd Hz Hv Hb. cbn [parseIPv4Fields]. rewrite Hd.
  destruct (Z.ltb_spec 255 (val * 10 + d)); [lia|].
  destruct (Z.eqb_spec dl 1), (Z.eqb_spec val 0); simpl; done || lia.
Qed.

Lemma parse_octet z acc s :
  octet z -> exists n, 0 < n /\
    parseIPv4Fields 0 0 acc (Itoa z +:+ s) = parseIPv4Fields z n acc s.
Proof.
  intros Hz. pose proof (reads_octet_all z Hz) as H. unfold reads_octet in H.
  unfold octet in Hz.
  destruct (Itoa z) as [|c1 [|c2 [|c3 [|? ?]]]]; try done.
  - apply bool_decide_eq_true in H. exists 1. split; [lia|].
    change (String c1 "" +:+ s) with (String c1 s).
    rewrite (parse_digit _ z) by (done || lia). f_equal; lia.
  - destruct (digit_of c1) as [d1|] eqn:E1; [|done].
    destruct (digit_of c2) as [d2|] eqn:E2; [|done].
    apply digit_of_range in E1 as R1; apply digit_of_range in E2 as R2.
    exists 2. split; [lia|].
    change (String c1 (String c2 "") +:+ s) with (String c1 (String c2 s)).
    rewrite (parse_digit _ d1), (parse_digit _ d2) by (done || lia). f_equal; lia.
  - destruct (digit_of c1) as [d1|] eqn:E1; [|done].
    destruct (digit_of c2) as [d2|] eqn:E2; [|done].
    destruct (digit_of c3) as [d3|] eqn:E3; [|done].
    apply digit_of_range in E1 as R1; apply digit_of_range in E2 as R2; apply digit_of_range in E3 as R3.
    exists 3. split; [lia|].
    change (String c1 (String c2 (String c3 "")) +:+ s) with (String c1 (String c2 (String c3 s))).
    rewrite (parse_digit _ d1), (parse_digit _ d2), (parse_digit _ d3) by (done || lia).
    f_equal; lia.
Qed.

Lemma parse_dot v n acc s :
  0 < n -> (length acc < 3)%nat -> s <> "" ->
  parseIPv4Fields v n acc ("." +:+ s) = parseIPv4Fields 0 0 (acc ++ [v]) s.
Proof.
  intros Hn Ha Hs. change ("." +:+ s) with (String "." s). cbn [parseIPv4Fields].
  change (digit_of ".") with (@None Z). change (Ascii.eqb "." ".") with true. cbn iota.
  destruct (Z.eqb_spec n 0); [lia|].
  destruct s as [|c s]; [done|]. simpl.
  destruct (Nat.eqb_spec (length acc) 3); [lia|done].
Qed.

Lemma Itoa_app_nonempty z s : octet z -> Itoa z +:+ s <> "".
Proof.
  intros Hz. pose proof (reads_octet_all z Hz) as H. unfold reads_octet in H.
  by destruct (Itoa z).
Qed.

Lemma parse_v4_octets a b c d :
  octet a -> octet b -> octet c -> octet d ->
  parse_v4 (octets_string a b c d) = Some [a; b; c; d].
Proof.
  intros Ha Hb Hc Hd. unfold parse_v4, octets_string.
  destruct (parse_octet a [] ("." +:+ Itoa b +:+ "." +:+ Itoa c +:+ "." +:+ Itoa d) Ha) as (n1&?&->).
  rewrite parse_dot by (simpl; (lia || by apply Itoa_app_nonempty)).
  destruct (parse_octet b ([] ++ [a]) ("." +:+ Itoa c +:+ "." +:+ Itoa d) Hb) as (n2&?&->).
  rewrite parse_dot by (simpl; (lia || by apply Itoa_app_nonempty)).
  destruct (parse_octet c (([] ++ [a]) ++ [b]) ("." +:+ Itoa d) Hc) as (n3&?&->).
  rewrite parse_dot by (simpl; (lia || (rewrite <- (string_app_nil_r (Itoa d)); by apply Itoa_app_nonempty))).
  rewrite <- (string_app_nil_r (Itoa d)).
  by destruct (parse_octet d ((([] ++ [a]) ++ [b]) ++ [c]) "" Hd) as (n4&?&->).
Qed.

Lemma addr_kind_digit c d s : digit_of c = Some d -> addr_kind (String c s) = addr_kind s.
Proof.
  intros H. cbn [addr_kind].
  destruct (Ascii.eqb_spec c ".") as [->|]; [by vm_compute in H|].
  destruct (Ascii.eqb_spec c ":") as [->|]; [by vm_compute in H|].
  destruct (Ascii.eqb_spec c "%") as [->|]; [by vm_compute in H|]. done.
Qed.

Lemma addr_kind_octet z s : octet z -> addr_kind (Itoa z +:+ "." +:+ s) = Some "."%char.
Proof.
  intros Hz. pose proof (reads_octet_all z Hz) as H. unfold reads_octet in H.
  destruct (Itoa z) as [|c1 [|c2 [|c3 [|? ?]]]]; try done;
    [apply bool_decide_eq_true in H| |];
    repeat match goal with
    | H : context [match digit_of ?c with _ => _ end] |- _ => destruct (digit_of c) eqn:?; [|done]
    end.
  - change (addr_kind (String c1 ("." +:+ s)) = Some "."%char). by erewrite addr_kind_digit by eassumption.
  - change (addr_kind (String c1 (String c2 ("." +:+ s))) = Some "."%char).
    by erewrite !addr_kind_digit by eassumption.
  - change (addr_kind (String c1 (String c2 (String c3 ("." +:+ s)))) = Some "."%char).
    by erewrite !addr_kind_digit by eassumption.
Qed.

(** Printing a 4-byte address and parsing it back gives the same four octets,
    in the 16-byte form. *)
Lemma ParseIP_String4 ip :
  length ip = 4%nat -> Forall octet ip -> ParseIP (String4 ip) = Some (v4_in_v6 ++ ip).
Proof.
  intros Hl Ho. destruct ip as [|a [|b [|c [|d [|? ?]]]]]; try done.
  rewrite !Forall_cons in Ho. destruct Ho as (Ha & Hb & Hc & Hd & _).
  unfold ParseIP, ParseAddr, String4.
  unfold octets_string at 1. rewrite addr_kind_octet by done.
  by rewrite parse_v4_octets by done.
Qed.

(** ** What the parser returns are bytes *)

Lemma parseIPv4Fields_octets val dl acc s r :
  octet val -> Forall octet acc -> parseIPv4Fields val dl acc s = Some r ->
  Forall octet r /\ length r = 4%nat.
Proof.
  revert val dl acc. induction s as [|c s IH]; intros val dl acc Hv Ha; cbn [parseIPv4Fields].
  - destruct (Nat.eqb_spec (length acc) 3) as [Hl|]; [|done]. intros [= <-].
    rewrite Forall_app, Forall_singleton, length_app. simpl. split; [done|lia].
  - destruct (digit_of c) as [d|] eqn:Hd.
    + apply digit_of_range in Hd. case_match; [done|].
      destruct (Z.ltb_spec 255 (val * 10 + d)); [done|]. apply IH; [unfold octet in *; lia|done].
    + repeat (case_match; try done). apply IH; [unfold octet; lia|].
      by rewrite Forall_app, Forall_singleton.
Qed.

Lemma hex_of_range c d : hex_of c = Some d -> 0 <= d <= 15.
Proof. unfold hex_of. repeat case_match; intros; simplify_eq; lia. Qed.

Lemma read_hex_bound acc off s v n rest :
  0 <= off <= 4 -> 0 <= acc < 16 ^ off -> read_hex acc off s = Some (v, n, rest) -> 0 <= v < 65536.
Proof.
  revert acc off. induction s as [|c s IH]; intros acc off Ho Ha; cbn [read_hex].
  - intros [= <- <- <-]. pose proof (Z.pow_le_mono_r 16 off 4). lia.
  - destruct (hex_of c) as [d|] eqn:Hd.
    + apply hex_of_range in Hd. destruct (Z.ltb_spec 3 off); [done|].
      apply IH; [lia|]. rewrite Z.pow_add_r by lia. lia.
    + intros [= <- <- <-]. pose proof (Z.pow_le_mono_r 16 off 4). lia.
Qed.

Lemma group_octets v : 0 <= v < 65536 -> Forall octet [v / 256; v mod 256].
Proof.
  intros. repeat constructor; unfold octet; Z.to_euclidean_division_equations; lia.
Qed.

Lemma v6_loop_octets fuel ip ell s ip' ell' s' :
  Forall octet ip -> v6_loop fuel ip ell s = Some (ip', ell', s') -> Forall octet ip'.
Proof.
  revert ip ell s. induction fuel as [|f IH]; intros ip ell s Hip; cbn [v6_loop]; [done|].
  destruct (16 <=? length ip)%nat; [by intros [= <- <- <-]|].
  destruct (read_hex 0 0 s) as [[[v n] rest]|] eqn:Hr; [|done].
  apply read_hex_bound in Hr; [|lia|lia].
  assert (Hip' : Forall octet (ip ++ [v / 256; v mod 256])) by (apply Forall_app; auto using group_octets).
  assert (Hq : forall q, parse_v4 s = Some q -> Forall octet (ip ++ q)).
  { intros q Hq. apply parseIPv4Fields_octets in Hq; [|unfold octet; lia|by apply Forall_nil].
    destruct Hq. by apply Forall_app. }
  repeat (case_match; try done); simplify_eq; intros Hres; simplify_eq; eauto.
Qed.

Lemma v6_finish_octets r b : Forall octet r.1.1 -> v6_finish r = Some b -> Forall octet b.
Proof.
  destruct r as [[i e] rest]. intros Hi. unfold v6_finish. destruct (negb _); [done|].
  destruct (length i <? 16)%nat, e as [k|]; try done; intros [= <-]; [|done].
  apply Forall_app; split; [by apply Forall_take|].
  apply Forall_app; split; [apply Forall_replicate; unfold octet; lia|by apply Forall_drop].
Qed.

Lemma parse_v6_octets s b z : parse_v6 s = Some (b, z) -> Forall octet b.
Proof.
  unfold parse_v6. destruct (split_zone s) as [t z'].
  destruct (match z' with Some "" => true | _ => false end); [done|].
  assert (Hgo : forall f e u zz,
    (r ← v6_loop f [] e u; ip ← v6_finish r; Some (ip, zz)) = Some (b, z) -> Forall octet b).
  { intros f e u zz Hg. apply bind_Some in Hg as ([[i e'] rest] & Hr & Hg).
    apply bind_Some in Hg as (b' & Hb' & [= -> ->]).
    eapply v6_finish_octets, Hb'. eapply v6_loop_octets, Hr. by apply Forall_nil. }
  repeat (case_match; try (by intros Hg; eapply Hgo, Hg)).
  all: intros [= <- <-]; change (Forall octet (replicate 16 0));
    apply Forall_replicate; unfold octet; lia.
Qed.

Lemma ParseIP_octets s ip : ParseIP s = Some ip -> Forall octet ip.
Proof.
  unfold ParseIP, ParseAddr. destruct (addr_kind s) as [c|]; [|done].
  destruct (Ascii.eqb c "."); [|destruct (Ascii.eqb c ":"); [|done]].
  - destruct (parse_v4 s) as [q|] eqn:Hq; [|done]. intros [= <-].
    apply parseIPv4Fields_octets in Hq as [Hq _]; [|unfold octet; lia|by apply Forall_nil].
    repeat (apply Forall_cons; split; [unfold octet; lia|]). done.
  - destruct (parse_v6 s) as [[b z]|] eqn:Hq; [|done]. simpl.
    destruct (String.eqb z ""); [|done]. intros [= <-]. by eapply parse_v6_octets.
Qed.

Lemma To4_octets ip v4 : Forall octet ip -> To4 ip = Some v4 -> Forall octet v4 /\ length v4 = 4%nat.
Proof.
  unfold To4. intros Ho. destruct (Nat.eqb_spec (length ip) 4) as [Hl|]; [by intros [= <-]|].
  destruct (Nat.eqb_spec (length ip) 16) as [Hl|]; [|done]. simpl.
  case_bool_decide; [|done]. intros [= <-]. split; [by apply Forall_drop|].
  rewrite length_drop. lia.
Qed.

Example ParseIP_v4 : ParseIP "10.0.3.1" = Some (v4_in_v6 ++ [10; 0; 3; 1]).
Proof. reflexivity. Qed.
Example ParseIP_mapped : (ParseIP "::ffff:10.0.3.1" ≫= To4) = Some [10; 0; 3; 1].
Proof. reflexivity. Qed.
Example ParseIP_v6 : ParseIP "fd00::1" = Some ([253; 0] ++ replicate 13 0 ++ [1]).
Proof. reflexivity. Qed.
Example ParseIP_bad : ParseIP "10.0.03.1" = None /\ ParseIP "10.0.3" = None /\ ParseIP "fe80::1%eth0" = None
  /\ ParseIP "1:2:3:4:5:6:7:8:9" = None /\ ParseIP "1::2::3" = None.
Proof. repeat split. Qed.

(** ** Printing IPv6 addresses and splitting host and port *)

Definition hex_digit (d : Z) : ascii := ascii_of_nat (Z.to_nat (if d <? 10 then 48 + d else 87 + d)).

(** A 16-bit group in hexadecimal without leading zeros. *)
Definition hex_group (v : Z) : string :=
  let d3 := v / 4096 in let d2 := v / 256 mod 16 in let d1 := v / 16 mod 16 in let d0 := v mod 16 in
  let s0 := String (hex_digit d0) "" in
  let s1 := String (hex_digit d1) s0 in
  let s2 := String (hex_digit d2) s1 in
  if 4096 <=? v then String (hex_digit d3) s2
  else if 256 <=? v then s2 else if 16 <=? v then s1 else s0.

Fixpoint groups (ip : IP) : list Z :=
  match ip with a :: b :: rest => a * 256 + b :: groups rest | _ => [] end.

Fixpoint zero_run (gs : list Z) : nat :=
  match gs with g :: rest => if g =? 0 then S (zero_run rest) else O | [] => O end.

(** The first longest run of at least two zero groups: its start and end. *)
Definition best_run (gs : list Z) : option (nat * nat) :=
  foldl (fun best i =>
    let l := zero_run (drop i gs) in
    let len := match best with Some (s, e) => (e - s)%nat | None => O end in
    if ((2 <=? l) && (len <? l))%nat then Some (i, (i + l)%nat) else best) None (seq 0 (length gs)).

(** [net.IP.String] of a 16-byte address that is not an IPv4 one. *)
Definition String16 (ip : IP) : string :=
  let gs := groups ip in
  match best_run gs with
  | None => join_char ":" (map hex_group gs)
  | Some (s, e) => join_char ":" (map hex_group (take s gs)) +:+ "::" +:+ join_char ":" (map hex_group (drop e gs))
  end.

(** What precedes and follows the last [c]. *)
Fixpoint cut_last (c : ascii) (s : string) : option (string * string) :=
  match s with
  | "" => None
  | String a s' =>
      match cut_last c s' with
      | Some (h, p) => Some (String a h, p)
      | None => if Ascii.eqb a c then Some ("", s') else None
      end
  end.

(** What precedes and follows the first [c]. *)
Fixpoint cut_first (c : ascii) (s : string) : option (string * string) :=
  match s with
  | "" => None
  | String a s' =>
      if Ascii.eqb a c then Some ("", s')
      else match cut_first c s' with Some (h, p) => Some (String a h, p) | None => None end
  end.

(** [net.SplitHostPort]; [None] is its error. *)
Definition SplitHostPort (hostport : string) : option (string * string) :=
  match cut_last ":" hostport with
  | None => None
  | Some (h, port) =>
      match hostport with
      | String "[" rest =>
          match cut_first "]" rest with
          | Some (host, String ":" port') =>
              if contains_char ":" port' || contains_char "[" rest || contains_char "]" port' then None
              else Some (host, port')
          | _ => None
          end
      | _ => if contains_char ":" h || contains_char "[" hostport || contains_char "]" hostport then None
             else Some (h, port)
      end
  end.

Example String16_ex : String16 ([32; 1; 13; 184] ++ replicate 11 0 ++ [1]) = "2001:db8::1" /\
  String16 (replicate 16 0) = "::" /\ String16 [0; 1; 0; 0; 0; 2; 0; 0; 0; 0; 0; 3; 0; 0; 255; 255] = "1:0:2::3:0:ffff".
Proof. repeat split. Qed.
Example SplitHostPort_ex : SplitHostPort "10.0.0.1:443" = Some ("10.0.0.1", "443") /\
  SplitHostPort "[fd00::1]:80" = Some ("fd00::1", "80") /\ SplitHostPort "fd00::1" = None /\ SplitHostPort "host" = None /\
  SplitHostPort "[fd00::1]" = None /\ SplitHostPort ":80" = Some ("", "80").
Proof. repeat split. Qed.
