(* ===== verification/GoNetip.v ===== *)
(** * Go's [net/netip]: addresses and prefixes as text

    [Addr.String], [ParsePrefix], [Prefix.Masked] and [Prefix.String].  Every prefix without host
    bits or zone is read back from its text ([ParsePrefix_String]). *)

From S2P Require Import Prelude GoStrings GoStrconv GoNet.
From Stdlib Require Import Ascii.
#[local] Open Scope string_scope.
#[local] Open Scope list_scope.
#[local] Open Scope Z_scope.

(** ** Addresses *)

Definition is_4in6 (b : list Z) : bool := bool_decide (take 12 b = v4_in_v6).

Definition Addr_String (a : Addr) : string :=
  match a with
  | AddrV4 q => String4 q
  | AddrV6 b z =>
      (if is_4in6 b then "::ffff:" +:+ String4 (drop 12 b) else String16 b)
      +:+ (if String.eqb z "" then "" else "%" +:+ z)
  end.

Definition BitLen (a : Addr) : Z := match a with AddrV4 _ => 32 | AddrV6 _ _ => 128 end.

Definition Is4 (a : Addr) : bool := match a with AddrV4 _ => true | AddrV6 _ _ => false end.

Definition octets_of (a : Addr) : list Z := match a with AddrV4 q => q | AddrV6 b _ => b end.

(** ** Prefixes *)

Record Prefix := mkPrefix { pf_addr : Addr; pf_bits : Z }.

#[export] Instance addr_eq_dec : EqDecision Addr.
Proof. solve_decision. Defined.
#[export] Instance prefix_eq_dec : EqDecision Prefix.
Proof. solve_decision. Defined.

Definition withoutZone (a : Addr) : Addr := match a with AddrV4 q => AddrV4 q | AddrV6 b _ => AddrV6 b "" end.

(** [netip.PrefixFrom]: a length that does not fit the address is invalid, -1. *)
Definition PrefixFrom (a : Addr) (bits : Z) : Prefix :=
  mkPrefix (withoutZone a) (if (bits <? 0) || (BitLen a <? bits) then -1 else bits).

(** A single digit, or digits without a leading zero or sign. *)
Definition prefix_bits (s : string) : option Z :=
  match s with
  | String c (String _ _) => if (49 <=? Z.of_nat (nat_of_ascii c)) && (Z.of_nat (nat_of_ascii c) <=? 57) then Atoi s else None
  | _ => Atoi s
  end.

Definition ParsePrefix (s : string) : option Prefix :=
  match cut_last "/" s with
  | None => None
  | Some (ip, bits) =>
      match ParseAddr ip with
      | None => None
      | Some a =>
          if negb (bool_decide (withoutZone a = a)) then None
          else match prefix_bits bits with
               | Some n => if (n <? 0) || (BitLen a <? n) then None else Some (mkPrefix a n)
               | None => None
               end
      end
  end.

(** The first [bits] bits of the octets. *)
Fixpoint mask_octets (bits : Z) (l : list Z) : list Z :=
  match l with
  | [] => []
  | o :: l =>
      let keep := Z.max 0 (Z.min 8 bits) in
      Z.land o (256 - 2 ^ (8 - keep)) :: mask_octets (bits - 8) l
  end.

Definition mask_addr (bits : Z) (a : Addr) : Addr :=
  match a with AddrV4 q => AddrV4 (mask_octets bits q) | AddrV6 b _ => AddrV6 (mask_octets bits b) "" end.

Definition Masked (p : Prefix) : Prefix := mkPrefix (mask_addr (pf_bits p) (pf_addr p)) (pf_bits p).

Definition Prefix_String (p : Prefix) : string := Addr_String (pf_addr p) +:+ "/" +:+ Itoa (pf_bits p).

Example prefix_ex :
  (Prefix_String ∘ Masked <$> ParsePrefix "1.2.3.4/20") = Some "1.2.0.0/20" /\
  (Prefix_String ∘ Masked <$> ParsePrefix "2001:db8::ff01/121") = Some "2001:db8::ff00/121" /\
  (Prefix_String <$> ParsePrefix "::ffff:1.2.3.4/120") = Some "::ffff:1.2.3.4/120" /\
  ParsePrefix "1.2.3.4/33" = None /\ ParsePrefix "1.2.3.4/08" = None /\ ParsePrefix "1.2.3.4/" = None /\
  ParsePrefix "fe80::1%eth0/64" = None.
Proof. vm_compute. done. Qed.

(** ** Lemmas: masking *)

Lemma land_octet o m : octet m -> octet (Z.land o m).
Proof.
  unfold octet. intros Hm. assert (Z.land m (Z.ones 8) = m) as <- by (rewrite Z.land_ones by lia; apply Z.mod_small; lia).
  rewrite Z.land_assoc, Z.land_ones by lia. pose proof (Z.mod_pos_bound (Z.land o m) (2 ^ 8)). lia.
Qed.

Lemma keep_octet bits : octet (256 - 2 ^ (8 - Z.max 0 (Z.min 8 bits))).
Proof.
  unfold octet. set (k := 8 - Z.max 0 (Z.min 8 bits)). assert (0 <= k <= 8) by lia.
  pose proof (Z.pow_le_mono_r 2 k 8 ltac:(lia) ltac:(lia)). pose proof (Z.pow_pos_nonneg 2 k ltac:(lia) ltac:(lia)).
  change (2 ^ 8) with 256 in *. lia.
Qed.

Lemma mask_octets_octets bits l : Forall octet l -> Forall octet (mask_octets bits l).
Proof.
  intros Hl. revert bits. induction Hl as [|o l Ho Hl IH]; intros bits; cbn [mask_octets]; [constructor|].
  constructor; [|apply IH]. by apply land_octet, keep_octet.
Qed.

Lemma length_mask_octets bits l : length (mask_octets bits l) = length l.
Proof. revert bits. induction l as [|o l IH]; intros bits; cbn; [done|]. by rewrite IH. Qed.

Lemma mask_octets_idem bits l : mask_octets bits (mask_octets bits l) = mask_octets bits l.
Proof.
  revert bits. induction l as [|o l IH]; intros bits; cbn [mask_octets]; [done|].
  by rewrite IH, <- Z.land_assoc, Z.land_diag.
Qed.

Lemma Masked_idem p : Masked (Masked p) = Masked p.
Proof. destruct p as [[q|b z] n]; unfold Masked; cbn; by rewrite mask_octets_idem. Qed.

(** ** Lemmas: printing and parsing *)

Lemma cut_last_app c s t : contains_char c t = false -> cut_last c (s +:+ String c t) = Some (s, t).
Proof.
  intros Ht. assert (Hn : cut_last c t = None).
  { clear s. induction t as [|a t IH]; [done|]. cbn [contains_char cut_last] in *. apply orb_false_iff in Ht as [Ha Ht].
    rewrite IH by done. by rewrite Ha. }
  induction s as [|a s IH].
  - change ("" +:+ String c t) with (String c t). cbn [cut_last]. by rewrite Hn, Ascii.eqb_refl.
  - change (String a s +:+ String c t) with (String a (s +:+ String c t)). cbn [cut_last]. by rewrite IH.
Qed.

Definition bits_read (n : nat) : bool :=
  bool_decide (prefix_bits (Itoa (Z.of_nat n)) = Some (Z.of_nat n)) && negb (contains_char "/" (Itoa (Z.of_nat n))).

Lemma bits_read_all n : 0 <= n <= 128 -> prefix_bits (Itoa n) = Some n /\ contains_char "/" (Itoa n) = false.
Proof.
  intros Hn. assert (H : forallb bits_read (seq 0 129) = true) by (vm_compute; reflexivity).
  rewrite forallb_forall in H. specialize (H (Z.to_nat n) ltac:(apply in_seq; lia)). unfold bits_read in H.
  rewrite Z2Nat.id in H by lia. apply andb_true_iff in H as [H1%bool_decide_eq_true_1 H2%negb_true_iff]. done.
Qed.

(** *** Hexadecimal groups *)

Lemma hex_of_hex_digit d : 0 <= d < 16 -> hex_of (hex_digit d) = Some d.
Proof.
  intros Hd. assert (H : forallb (fun n => bool_decide (hex_of (hex_digit (Z.of_nat n)) = Some (Z.of_nat n))) (seq 0 16) = true)
    by (vm_compute; reflexivity).
  rewrite forallb_forall in H. specialize (H (Z.to_nat d) ltac:(apply in_seq; lia)).
  rewrite Z2Nat.id in H by lia. by apply bool_decide_eq_true_1 in H.
Qed.

(** What follows a group. *)
Definition no_hex (s : string) : Prop := match s with "" => True | String c _ => hex_of c = None end.

Lemma read_hex_stop acc off s : no_hex s -> read_hex acc off s = Some (acc, off, s).
Proof. destruct s as [|c s]; cbn; [done|]. by intros ->. Qed.

Lemma read_hex_digit d acc off s :
  0 <= d < 16 -> off <= 3 -> read_hex acc off (String (hex_digit d) s) = read_hex (acc * 16 + d) (off + 1) s.
Proof. intros Hd Ho. cbn [read_hex]. rewrite hex_of_hex_digit by done. destruct (Z.ltb_spec 3 off); [lia|done]. Qed.

Definition group_ok (v : Z) : Prop := 0 <= v < 65536.

Lemma app_String a s t : String a s +:+ t = String a (s +:+ t).
Proof. done. Qed.

Lemma app_empty t : "" +:+ t = t.
Proof. done. Qed.

Lemma read_hex_group v s : group_ok v -> no_hex s -> exists n, 0 < n /\ read_hex 0 0 (hex_group v +:+ s) = Some (v, n, s).
Proof.
  unfold group_ok. intros Hv Hs. unfold hex_group. cbv zeta.
  assert (0 <= v mod 16 < 16) by (apply Z.mod_pos_bound; lia).
  assert (0 <= v / 16 mod 16 < 16) by (apply Z.mod_pos_bound; lia).
  assert (0 <= v / 256 mod 16 < 16) by (apply Z.mod_pos_bound; lia).
  destruct (Z.leb_spec 4096 v); [exists 4|destruct (Z.leb_spec 256 v); [exists 3|destruct (Z.leb_spec 16 v); [exists 2|exists 1]]];
    (split; [lia|]); rewrite ?app_String, app_empty;
    rewrite !read_hex_digit by first [lia|Z.to_euclidean_division_equations; lia];
    rewrite read_hex_stop by done; repeat f_equal; Z.to_euclidean_division_equations; lia.
Qed.

(** *** IPv6 text *)

Fixpoint bytes_of (gs : list Z) : list Z :=
  match gs with [] => [] | v :: gs => v / 256 :: v mod 256 :: bytes_of gs end.

Definition groups_text (gs : list Z) : string := join_char ":" (map hex_group gs).

Lemma bytes_of_app gs hs : bytes_of (gs ++ hs) = bytes_of gs ++ bytes_of hs.
Proof. induction gs as [|g gs IH]; cbn; [done|]. by rewrite IH. Qed.

Lemma length_bytes_of gs : length (bytes_of gs) = (2 * length gs)%nat.
Proof. induction gs as [|g gs IH]; cbn; [done|]. rewrite IH. lia. Qed.

Lemma bytes_of_zeros n : bytes_of (replicate n 0) = replicate (2 * n) 0.
Proof. induction n as [|n IH]; [done|]. replace (2 * S n)%nat with (S (S (2 * n))) by lia. cbn [replicate bytes_of]. by rewrite IH. Qed.

Lemma groups_spec n ip :
  length ip = (2 * n)%nat -> Forall octet ip ->
  length (groups ip) = n /\ Forall group_ok (groups ip) /\ bytes_of (groups ip) = ip.
Proof.
  revert ip. induction n as [|n IH]; intros ip Hl Ho; [by destruct ip|].
  destruct ip as [|a [|b ip]]; cbn in Hl; try lia. apply Forall_cons in Ho as [Ha [Hb Ho]%Forall_cons].
  destruct (IH ip ltac:(lia) Ho) as (Hn & Hg & Hb'). cbn [groups length]. split; [lia|]. unfold octet in *.
  split; [constructor; [unfold group_ok; lia|done]|].
  cbn [bytes_of]. rewrite Hb'. repeat f_equal; Z.to_euclidean_division_equations; lia.
Qed.

Lemma hex_group_start v s : group_ok v -> exists c d t, hex_group v +:+ s = String c t /\ hex_of c = Some d.
Proof.
  unfold group_ok, hex_group. intros Hv. cbv zeta.
  destruct (4096 <=? v), (256 <=? v), (16 <=? v);
    rewrite ?app_String, app_empty; eexists _, _, _; (split; [reflexivity|]);
    apply hex_of_hex_digit; Z.to_euclidean_division_equations; lia.
Qed.

Lemma hex_of_colon : hex_of ":" = None. Proof. done. Qed.

Lemma groups_text_cons v gs :
  groups_text (v :: gs) = hex_group v +:+ match gs with [] => "" | _ => String ":" (groups_text gs) end.
Proof. destruct gs; cbn; [by rewrite string_app_nil_r|done]. Qed.

(** The text of a group list starts with a hexadecimal digit. *)
Lemma groups_text_start v gs s :
  group_ok v -> exists c d t, groups_text (v :: gs) +:+ s = String c t /\ hex_of c = Some d.
Proof. intros Hv. rewrite groups_text_cons, string_app_assoc. by apply hex_group_start. Qed.

(** One group followed by ':' and a digit. *)
Lemma v6_loop_group f ip ell v c d t :
  (length ip < 16)%nat -> group_ok v -> hex_of c = Some d ->
  v6_loop (S f) ip ell (hex_group v +:+ String ":" (String c t))
  = v6_loop f (ip ++ [v / 256; v mod 256]) ell (String c t).
Proof.
  intros Hl Hv Hc. destruct (read_hex_group v (String ":" (String c t)) Hv eq_refl) as (n & Hn & Hr).
  cbn [v6_loop]. destruct (Nat.leb_spec 16 (length ip)); [lia|]. rewrite Hr.
  destruct (Z.eqb_spec n 0); [lia|].
  destruct c as [[] [] [] [] [] [] [] []]; try done.
Qed.

Lemma v6_loop_last f ip ell v :
  (length ip < 16)%nat -> group_ok v ->
  v6_loop (S f) ip ell (hex_group v) = Some (ip ++ [v / 256; v mod 256], ell, "").
Proof.
  intros Hl Hv. destruct (read_hex_group v "" Hv I) as (n & Hn & Hr). rewrite string_app_nil_r in Hr.
  cbn [v6_loop]. destruct (Nat.leb_spec 16 (length ip)); [lia|]. rewrite Hr.
  by destruct (Z.eqb_spec n 0); [lia|].
Qed.

Lemma v6_loop_groups gs f ip ell :
  gs <> [] -> Forall group_ok gs -> (length ip + 2 * length gs <= 16)%nat -> (length gs <= f)%nat ->
  v6_loop f ip ell (groups_text gs) = Some (ip ++ bytes_of gs, ell, "").
Proof.
  revert f ip. induction gs as [|v gs IH]; intros f ip Hne Hg Hl Hf; [done|]. cbn [length] in *.
  apply Forall_cons in Hg as [Hv Hg]. destruct f as [|f]; [lia|]. rewrite groups_text_cons. destruct gs as [|w gs].
  - rewrite string_app_nil_r, v6_loop_last by (done || lia). done.
  - pose proof Hg as [Hw _]%Forall_cons.
    destruct (groups_text_start w gs "" Hw) as (c & d & t & Ht & Hc). rewrite string_app_nil_r in Ht. rewrite Ht.
    rewrite (v6_loop_group f ip ell v c d) by (done || lia). rewrite <- Ht, IH; [|done..|rewrite length_app; cbn in *; lia|lia].
    by rewrite <- app_assoc.
Qed.

(** Groups, the ellipsis, groups. *)
Lemma v6_loop_ellipsis gs hs f ip :
  gs <> [] -> Forall group_ok gs -> Forall group_ok hs ->
  (length ip + 2 * (length gs + length hs) <= 14)%nat -> (length gs + length hs <= f)%nat ->
  v6_loop f ip None (groups_text gs +:+ "::" +:+ groups_text hs)
  = Some (ip ++ bytes_of gs ++ bytes_of hs, Some (length ip + 2 * length gs)%nat, "").
Proof.
  revert f ip. induction gs as [|v gs IH]; intros f ip Hne Hg Hh Hl Hf; [done|]. cbn [length] in *.
  apply Forall_cons in Hg as [Hv Hg]. destruct f as [|f]; [lia|]. rewrite groups_text_cons, string_app_assoc.
  destruct gs as [|w gs].
  - rewrite app_empty, !app_String, app_empty.
    destruct (read_hex_group v (String ":" (String ":" (groups_text hs))) Hv eq_refl) as (n & Hn & Hr).
    cbn [v6_loop]. destruct (Nat.leb_spec 16 (length ip)); [lia|]. rewrite Hr. destruct (Z.eqb_spec n 0); [lia|]. cbn beta iota.
    destruct hs as [|w hs].
    + cbn. rewrite length_app. cbn. by repeat f_equal.
    + pose proof Hh as [Hw _]%Forall_cons.
      destruct (groups_text_start w hs "" Hw) as (c & d & t & Ht & _). rewrite string_app_nil_r in Ht.
      destruct (Nat.eqb_spec (String.length (groups_text (w :: hs))) 0) as [E|_]; [by rewrite Ht in E|].
      rewrite v6_loop_groups; [|done|done|rewrite length_app; cbn in *; lia|cbn in *; lia].
      rewrite length_app, <- app_assoc. cbn. repeat f_equal; lia.
  - rewrite app_String. pose proof Hg as [Hw _]%Forall_cons.
    destruct (groups_text_start w gs ("::" +:+ groups_text hs) Hw) as (c & d & t & Ht & Hc). rewrite Ht.
    rewrite (v6_loop_group f ip None v c d) by (done || lia). rewrite <- Ht, IH; [|done..|rewrite length_app; cbn in *; lia|cbn in *; lia].
    rewrite length_app, <- !app_assoc. cbn [app length].
    by replace (length ip + 2 + 2 * S (length gs))%nat with (length ip + 2 * S (S (length gs)))%nat by lia.
Qed.

(** *** The run the ellipsis replaces *)

Definition zeros_at (gs : list Z) (s e : nat) : Prop :=
  (s + 2 <= e <= length gs)%nat /\ gs = take s gs ++ replicate (e - s) 0 ++ drop e gs.

Lemma zero_run_spec gs : exists r, gs = replicate (zero_run gs) 0 ++ r.
Proof.
  induction gs as [|g gs [r IH]]; [by exists []|]. cbn [zero_run].
  destruct (Z.eqb_spec g 0) as [->|]; [|by exists (g :: gs)]. exists r. cbn. by rewrite <- IH.
Qed.

Lemma zero_run_at gs i : (i <= length gs)%nat -> (2 <= zero_run (drop i gs))%nat -> zeros_at gs i (i + zero_run (drop i gs)).
Proof.
  intros Hi Hz. destruct (zero_run_spec (drop i gs)) as [r Hr]. set (l := zero_run (drop i gs)) in *.
  assert (Hd : drop l (drop i gs) = r) by (rewrite Hr; apply drop_app_length'; by rewrite length_replicate).
  assert (Hl : (length (drop i gs) = l + length r)%nat) by (rewrite Hr, length_app, length_replicate; done).
  rewrite length_drop in Hl. split; [lia|]. rewrite drop_drop in Hd. rewrite Hd.
  replace (i + l - i)%nat with l by lia. rewrite <- Hr. symmetry. apply take_drop.
Qed.

Lemma best_run_zeros gs s e : best_run gs = Some (s, e) -> zeros_at gs s e.
Proof.
  unfold best_run.
  assert (H : forall idx b, (forall s e, b = Some (s, e) -> zeros_at gs s e) -> Forall (fun i => i <= length gs)%nat idx ->
    forall s e, foldl (fun best i =>
      let l := zero_run (drop i gs) in
      let len := match best with Some (s, e) => (e - s)%nat | None => O end in
      if ((2 <=? l) && (len <? l))%nat then Some (i, (i + l)%nat) else best) b idx = Some (s, e) -> zeros_at gs s e).
  { induction idx as [|i idx IH]; intros b Hb Hi; [exact Hb|]. apply Forall_cons in Hi as [Hi His]. apply IH; [|done].
    cbv zeta. intros s' e'. destruct (Nat.leb_spec 2 (zero_run (drop i gs))); [|apply Hb].
    destruct (Nat.ltb _ _); [|apply Hb]. intros [= <- <-]. by apply zero_run_at. }
  apply H; [done|]. apply Forall_forall. intros i [_ Hi]%elem_of_seq. lia.
Qed.

(** *** Text made of hexadecimal digits and colons *)

Definition v6_char (c : ascii) : bool := Ascii.eqb c ":" || match hex_of c with Some _ => true | None => false end.

Fixpoint str_all (p : ascii -> bool) (s : string) : bool :=
  match s with "" => true | String c s => p c && str_all p s end.

Lemma str_all_app p s t : str_all p (s +:+ t) = str_all p s && str_all p t.
Proof. induction s as [|c s IH]; [done|]. rewrite app_String. cbn [str_all]. by rewrite IH, andb_assoc. Qed.

Lemma v6_char_other c : v6_char c = true -> Ascii.eqb c "." = false /\ Ascii.eqb c "%" = false.
Proof. destruct c as [[] [] [] [] [] [] [] []]; by vm_compute. Qed.

Lemma split_zone_v6 s : str_all v6_char s = true -> split_zone s = (s, None).
Proof.
  induction s as [|c s IH]; [done|]. cbn [str_all]. intros [Hc Hs]%andb_true_iff. cbn [split_zone]. rewrite IH by done.
  apply v6_char_other in Hc as [_ Hc%Ascii.eqb_neq]. destruct c as [[] [] [] [] [] [] [] []]; done.
Qed.

Lemma addr_kind_v6 s : str_all v6_char s = true -> contains_char ":" s = true -> addr_kind s = Some ":"%char.
Proof.
  induction s as [|c s IH]; [done|]. cbn [str_all contains_char addr_kind]. intros [Hc Hs]%andb_true_iff.
  apply v6_char_other in Hc as [-> ->]. rewrite orb_false_r, orb_false_l.
  destruct (Ascii.eqb_spec c ":") as [->|]; [done|]. cbn. by apply IH.
Qed.

Lemma hex_group_all v : group_ok v -> str_all v6_char (hex_group v) = true.
Proof.
  intros Hv. unfold hex_group, group_ok in *. cbv zeta.
  assert (Hd : forall d, 0 <= d < 16 -> v6_char (hex_digit d) = true).
  { intros d Hd. unfold v6_char. rewrite hex_of_hex_digit by done. apply orb_true_r. }
  destruct (4096 <=? v) eqn:E; [|destruct (256 <=? v), (16 <=? v)]; cbn [str_all];
    rewrite !Hd by (Z.to_euclidean_division_equations; lia); done.
Qed.

Lemma groups_text_all gs : Forall group_ok gs -> str_all v6_char (groups_text gs) = true.
Proof.
  induction 1 as [|v gs Hv Hgs IH]; [done|]. rewrite groups_text_cons, str_all_app, hex_group_all by done.
  destruct gs; [done|]. cbn [str_all]. by rewrite IH.
Qed.

(** *** Printing then parsing *)

Lemma length_groups_text gs : Forall group_ok gs -> (length gs <= String.length (groups_text gs))%nat.
Proof.
  induction 1 as [|v gs Hv Hgs IH]; [done|]. destruct (groups_text_start v gs "" Hv) as (c & d & t & Ht & _).
  rewrite string_app_nil_r in Ht. rewrite groups_text_cons in *. destruct gs as [|w gs]; [by rewrite Ht; cbn; lia|].
  rewrite string_length_app. destruct (hex_group_start v "" Hv) as (c' & d' & t' & Ht' & _).
  rewrite string_app_nil_r in Ht'. rewrite Ht'. cbn [String.length length] in *. lia.
Qed.

Definition v6_of (r : option (list Z * option nat * string)) : option (list Z * string) :=
  r ← r; ip ← v6_finish r; Some (ip, "").

(** Text that starts with a digit. *)
Lemma parse_v6_digit c d t :
  str_all v6_char (String c t) = true -> hex_of c = Some d ->
  parse_v6 (String c t) = v6_of (v6_loop (S (String.length (String c t))) [] None (String c t)).
Proof.
  intros Ht Hc. unfold parse_v6. rewrite split_zone_v6 by done.
  destruct c as [[] [] [] [] [] [] [] []]; try done.
Qed.

(** Text that starts with the ellipsis. *)
Lemma parse_v6_ellipsis c d t :
  str_all v6_char (String c t) = true -> hex_of c = Some d ->
  parse_v6 ("::" +:+ String c t) = v6_of (v6_loop (S (String.length (String c t))) [] (Some 0%nat) (String c t)).
Proof.
  intros Ht Hc. rewrite !app_String, app_empty. unfold parse_v6. rewrite split_zone_v6 by done. done.
Qed.

Lemma finish_run gs s e :
  zeros_at gs s e -> length gs = 8%nat ->
  v6_finish (bytes_of (take s gs) ++ bytes_of (drop e gs), Some (2 * s)%nat, "") = Some (bytes_of gs).
Proof.
  intros [Hse Hz] Hl. unfold v6_finish. cbn [String.length Nat.eqb negb].
  rewrite length_app, !length_bytes_of, length_take, length_drop.
  destruct (Nat.ltb_spec (2 * (s `min` length gs) + 2 * (length gs - e)) 16); [|lia].
  rewrite take_app_length', drop_app_length' by (rewrite length_bytes_of, length_take; lia).
  assert (bytes_of gs = bytes_of (take s gs) ++ replicate (2 * (e - s)) 0 ++ bytes_of (drop e gs)) as ->
    by (rewrite Hz at 1; by rewrite !bytes_of_app, bytes_of_zeros).
  do 4 f_equal. lia.
Qed.

Lemma String16_parse ip :
  length ip = 16%nat -> Forall octet ip ->
  parse_v6 (String16 ip) = Some (ip, "") /\ addr_kind (String16 ip) = Some ":"%char.
Proof.
  intros Hl Ho. destruct (groups_spec 8 ip Hl Ho) as (Hn & Hg & Hb). unfold String16. cbv zeta.
  destruct (best_run (groups ip)) as [[s e]|] eqn:Hbest.
  - apply best_run_zeros in Hbest as Hz. pose proof (finish_run _ s e Hz Hn) as Hfin. rewrite Hb in Hfin.
    destruct Hz as [Hse _]. fold (groups_text (take s (groups ip))) (groups_text (drop e (groups ip))).
    assert (Hgs : Forall group_ok (take s (groups ip))) by by apply Forall_take.
    assert (Hhs : Forall group_ok (drop e (groups ip))) by by apply Forall_drop.
    assert (Hlg : length (take s (groups ip)) = s) by (rewrite length_take; lia).
    assert (Hlh : length (drop e (groups ip)) = (8 - e)%nat) by (rewrite length_drop; lia).
    pose proof (length_groups_text _ Hgs) as Lg. pose proof (length_groups_text _ Hhs) as Lh.
    assert (Hall : str_all v6_char (groups_text (take s (groups ip)) +:+ "::" +:+ groups_text (drop e (groups ip))) = true)
      by (rewrite !str_all_app, !groups_text_all by done; done).
    split; [|apply addr_kind_v6; [done|rewrite !contains_char_app; cbn; by rewrite orb_true_r]].
    destruct (take s (groups ip)) as [|v gs] eqn:Egs.
    + change (groups_text []) with "". rewrite app_empty. cbn in Hlg. subst s. cbn [bytes_of app] in Hfin.
      destruct (drop e (groups ip)) as [|w hs] eqn:Ehs; [vm_compute in Hfin; by injection Hfin as <-|].
      pose proof Hhs as [Hw _]%Forall_cons. destruct (groups_text_start w hs "" Hw) as (c & d & t & Ht & Hc).
      rewrite string_app_nil_r in Ht. pose proof (groups_text_all _ Hhs) as Ha. rewrite Ht in Ha |- *.
      rewrite (parse_v6_ellipsis c d) by done. rewrite <- Ht.
      rewrite v6_loop_groups; [|done|done|cbn in *; lia|lia]. unfold v6_of. cbn [mbind option_bind app].
      change (Some (2 * 0)%nat) with (Some 0%nat) in Hfin. by rewrite Hfin.
    + pose proof Hgs as [Hv _]%Forall_cons.
      destruct (groups_text_start v gs ("::" +:+ groups_text (drop e (groups ip))) Hv) as (c & d & t & Ht & Hc).
      rewrite Ht in Hall |- *. rewrite (parse_v6_digit c d) by done. rewrite <- Ht.
      rewrite v6_loop_ellipsis; [|done|done|done|cbn in *; lia|rewrite !string_length_app; lia].
      unfold v6_of. rewrite Hlg. cbn [mbind option_bind app length Nat.add] in *. by rewrite Hfin.
  - fold (groups_text (groups ip)). pose proof (length_groups_text _ Hg) as Lg. pose proof (groups_text_all _ Hg) as Hall.
    destruct (groups ip) as [|v [|w gs]] eqn:Egs; [done|done|]. pose proof Hg as [Hv _]%Forall_cons.
    split; [|apply addr_kind_v6; [done|rewrite groups_text_cons, contains_char_app; cbn; by rewrite orb_true_r]].
    destruct (groups_text_start v (w :: gs) "" Hv) as (c & d & t & Ht & Hc). rewrite string_app_nil_r in Ht.
    rewrite Ht in Hall |- *. rewrite (parse_v6_digit c d) by done. rewrite <- Ht.
    rewrite v6_loop_groups; [|done|done|cbn in *; lia|lia]. unfold v6_of. cbn [mbind option_bind app]. rewrite Hb.
    unfold v6_finish. cbn [String.length Nat.eqb negb]. rewrite Hl. done.
Qed.

(** *** IPv4 addresses in IPv6 *)

Lemma split_zone_none s : contains_char "%" s = false -> split_zone s = (s, None).
Proof.
  induction s as [|c s IH]; [done|]. cbn [contains_char split_zone]. intros [Hc%Ascii.eqb_neq Hs]%orb_false_iff.
  rewrite IH by done. destruct c as [[] [] [] [] [] [] [] []]; done.
Qed.

Lemma octet_no_percent z : octet z -> contains_char "%" (Itoa z) = false.
Proof.
  intros Hz. unfold octet in Hz.
  assert (H : forallb (fun n => negb (contains_char "%" (Itoa (Z.of_nat n)))) (seq 0 256) = true) by (vm_compute; reflexivity).
  rewrite forallb_forall in H. specialize (H (Z.to_nat z) ltac:(apply in_seq; lia)).
  rewrite Z2Nat.id in H by lia. by apply negb_true_iff in H.
Qed.

Lemma hex_of_digit c d : digit_of c = Some d -> hex_of c = Some d.
Proof.
  unfold digit_of, hex_of. intros H.
  destruct ((48 <=? Z.of_nat (nat_of_ascii c)) && (Z.of_nat (nat_of_ascii c) <=? 57)); [done|done].
Qed.

Lemma read_hex_octet z t : octet z -> exists v n, 0 < n /\ read_hex 0 0 (Itoa z +:+ String "." t) = Some (v, n, String "." t).
Proof.
  intros Hz. pose proof (reads_octet_all z Hz) as H. unfold reads_octet in H.
  destruct (Itoa z) as [|c1 [|c2 [|c3 [|? ?]]]]; try done;
    [apply bool_decide_eq_true in H| |];
    repeat match goal with
    | H : context [match digit_of ?c with _ => _ end] |- _ => destruct (digit_of c) eqn:?; [|done]
    end;
    repeat match goal with H : digit_of _ = Some _ |- _ => apply hex_of_digit in H end;
    rewrite ?app_String, app_empty; cbn [read_hex];
    repeat match goal with H : hex_of ?c = Some _ |- context [hex_of ?c] => rewrite H end;
    eexists _, _; (split; [|reflexivity]); lia.
Qed.

(** A dotted quad at the end of the text. *)
Lemma v6_loop_quad f ip k a b c d :
  (length ip + 4 <= 16)%nat -> octet a -> octet b -> octet c -> octet d ->
  v6_loop (S f) ip (Some k) (octets_string a b c d) = Some (ip ++ [a; b; c; d], Some k, "").
Proof.
  intros Hl Ha Hb Hc Hd.
  destruct (read_hex_octet a (Itoa b +:+ "." +:+ Itoa c +:+ "." +:+ Itoa d) Ha) as (v & n & Hn & Hr).
  change (read_hex 0 0 (octets_string a b c d) = Some (v, n, String "." (Itoa b +:+ "." +:+ Itoa c +:+ "." +:+ Itoa d))) in Hr.
  cbn [v6_loop]. destruct (Nat.leb_spec 16 (length ip)); [lia|]. rewrite Hr. destruct (Z.eqb_spec n 0); [lia|].
  destruct (Nat.ltb_spec 16 (length ip + 4)); [lia|]. by rewrite parse_v4_octets.
Qed.

Lemma mapped_parse a b c d :
  octet a -> octet b -> octet c -> octet d ->
  parse_v6 ("::ffff:" +:+ octets_string a b c d) = Some (v4_in_v6 ++ [a; b; c; d], "").
Proof.
  intros Ha Hb Hc Hd. set (q := octets_string a b c d).
  assert (Hq : contains_char "%" q = false).
  { unfold q, octets_string. by rewrite !contains_char_app, !octet_no_percent. }
  assert (Hs : exists x s, q = String x s).
  { unfold q, octets_string. pose proof (Itoa_app_nonempty a ("." +:+ Itoa b +:+ "." +:+ Itoa c +:+ "." +:+ Itoa d) Ha) as H.
    destruct (Itoa a +:+ _) as [|x s]; [done|by eexists _, _]. }
  change ("::ffff:" +:+ q) with (String ":" (String ":" (String "f" (String "f" (String "f" (String "f" (String ":" q))))))).
  unfold parse_v6. rewrite split_zone_none by (cbn; done).
  destruct Hs as (x & s & Hs).
  assert (Hx : exists e, hex_of x = Some e).
  { unfold q, octets_string in Hs. pose proof (reads_octet_all a Ha) as H. unfold reads_octet in H.
    destruct (Itoa a) as [|y r]; [done|]. rewrite app_String in Hs. injection Hs as <- _.
    destruct (digit_of y) as [e|] eqn:E; [exists e; by apply hex_of_digit|].
    destruct r as [|? [|? [|? ?]]]; done. }
  destruct Hx as [e He]. cbn [String.length].
  change (String "f" (String "f" (String "f" (String "f" (String ":" q))))) with (hex_group 65535 +:+ String ":" q).
  rewrite Hs at 2. rewrite (v6_loop_group _ [] (Some 0%nat) 65535 x e) by (cbn; done || lia). rewrite <- Hs.
  unfold q. rewrite v6_loop_quad by (done || cbn; lia). done.
Qed.

(** *** Addresses and prefixes *)

Definition addr_ok (a : Addr) : Prop :=
  match a with
  | AddrV4 q => length q = 4%nat /\ Forall octet q
  | AddrV6 b z => length b = 16%nat /\ Forall octet b /\ z = ""
  end.

Definition prefix_ok (p : Prefix) : Prop := addr_ok (pf_addr p) /\ 0 <= pf_bits p <= BitLen (pf_addr p).

Lemma ParseAddr_String a : addr_ok a -> ParseAddr (Addr_String a) = Some a.
Proof.
  destruct a as [q|b z]; cbn [addr_ok Addr_String].
  - intros [Hl Ho]. destruct q as [|x [|y [|u [|v [|? ?]]]]]; try done. rewrite !Forall_cons in Ho.
    destruct Ho as (Hx & Hy & Hu & Hv & _). unfold ParseAddr. cbn [String4]. unfold octets_string at 1.
    rewrite addr_kind_octet by done. cbn. by rewrite parse_v4_octets.
  - intros (Hl & Ho & ->). cbn [String.eqb]. rewrite string_app_nil_r. unfold is_4in6. case_bool_decide as H4.
    + assert (Hb : b = v4_in_v6 ++ drop 12 b) by (rewrite <- H4; symmetry; apply take_drop).
      assert (Hd : length (drop 12 b) = 4%nat) by (rewrite length_drop; lia).
      assert (Hod : Forall octet (drop 12 b)) by by apply Forall_drop.
      destruct (drop 12 b) as [|x [|y [|u [|v [|? ?]]]]]; try done. rewrite !Forall_cons in Hod.
      destruct Hod as (Hx & Hy & Hu & Hv & _). unfold ParseAddr. cbn [String4].
      change (addr_kind ("::ffff:" +:+ octets_string x y u v)) with (Some ":"%char). cbn iota.
      rewrite mapped_parse by done. cbn. by rewrite Hb.
    + destruct (String16_parse b Hl Ho) as [Hp Hk]. unfold ParseAddr. rewrite Hk. cbn. by rewrite Hp.
Qed.

Lemma addr_ok_withoutZone a : addr_ok a -> withoutZone a = a.
Proof. destruct a; [done|]. by intros (_ & _ & ->). Qed.

(** Every prefix is read back from its text. *)
Lemma ParsePrefix_String p : prefix_ok p -> ParsePrefix (Prefix_String p) = Some p.
Proof.
  destruct p as [a n]. intros [Ha Hn]. cbn [pf_addr pf_bits] in *. unfold ParsePrefix, Prefix_String. cbn [pf_addr pf_bits].
  assert (Hb : BitLen a <= 128) by by destruct a. destruct (bits_read_all n ltac:(lia)) as [Hr Hs].
  rewrite app_String, app_empty, cut_last_app by done. rewrite ParseAddr_String by done.
  rewrite addr_ok_withoutZone by done. rewrite bool_decide_eq_true_2 by done. cbn [negb]. rewrite Hr.
  destruct (Z.ltb_spec n 0), (Z.ltb_spec (BitLen a) n); try lia. done.
Qed.

Definition half_full (ip : list Z) : Prop := exists k, (length ip = 2 * k /\ k <= 8)%nat.

Lemma v6_loop_length fuel ip ell s ip' ell' s' :
  half_full ip -> v6_loop fuel ip ell s = Some (ip', ell', s') -> half_full ip'.
Proof.
  revert ip ell s. induction fuel as [|f IH]; intros ip ell s Hip; cbn [v6_loop]; [done|].
  destruct (Nat.leb_spec 16 (length ip)) as [|Hlt]; [by intros [= <- <- <-]|].
  destruct (read_hex 0 0 s) as [[[v n] rest]|] eqn:Hr; [|done].
  assert (Hip' : half_full (ip ++ [v / 256; v mod 256])).
  { destruct Hip as (k & Hk & ?). exists (S k). rewrite length_app. cbn. lia. }
  assert (Hq : forall q, parse_v4 s = Some q -> (length ip + 4 <= 16)%nat -> half_full (ip ++ q)).
  { intros q Hq Hl. apply parseIPv4Fields_octets in Hq as [_ Hq]; [|unfold octet; lia|by apply Forall_nil].
    destruct Hip as (k & Hk & ?). exists (2 + k)%nat. rewrite length_app, Hq. lia. }
  repeat (case_match; try done); simplify_eq; intros Hres; simplify_eq; eauto;
    (apply Hq; [done|]);
    repeat match goal with
    | H : negb _ = false |- _ => apply negb_false_iff, Nat.eqb_eq in H
    | H : (_ <? _)%nat = false |- _ => apply Nat.ltb_ge in H
    end; lia.
Qed.

Lemma v6_finish_length r b : half_full r.1.1 -> v6_finish r = Some b -> length b = 16%nat.
Proof.
  destruct r as [[i e] rest]. intros (k & Hk & Hk8). cbn in Hk. unfold v6_finish. destruct (negb _); [done|].
  destruct (Nat.ltb_spec (length i) 16), e as [j|]; try done; intros [= <-]; [|lia].
  rewrite !length_app, length_replicate, length_take, length_drop. lia.
Qed.

Lemma parse_v6_length s b z : parse_v6 s = Some (b, z) -> length b = 16%nat.
Proof.
  unfold parse_v6. destruct (split_zone s) as [t z'].
  destruct (match z' with Some "" => true | _ => false end); [done|].
  assert (Hgo : forall f e u zz,
    (r ← v6_loop f [] e u; ip ← v6_finish r; Some (ip, zz)) = Some (b, z) -> length b = 16%nat).
  { intros f e u zz Hg. apply bind_Some in Hg as ([[i e'] rest] & Hr & Hg).
    apply bind_Some in Hg as (b' & Hb' & [= -> ->]).
    eapply v6_finish_length, Hb'. eapply v6_loop_length, Hr. exists O. cbn. lia. }
  repeat (case_match; try (by intros Hg; eapply Hgo, Hg)); by intros [= <- <-].
Qed.

(** What the parsers return is well formed, apart from a zone. *)
Lemma ParseAddr_ok s a : ParseAddr s = Some a -> addr_ok (withoutZone a).
Proof.
  unfold ParseAddr. destruct (addr_kind s) as [c|]; [|done].
  destruct (Ascii.eqb c "."); [|destruct (Ascii.eqb c ":"); [|done]].
  - destruct (parse_v4 s) as [q|] eqn:Hq; [|done]. intros [= <-].
    apply parseIPv4Fields_octets in Hq as [Hq Hl]; [|unfold octet; lia|by apply Forall_nil]. done.
  - destruct (parse_v6 s) as [[b z]|] eqn:Hq; [|done]. intros [= <-]. cbn.
    split; [|split; [by eapply parse_v6_octets|done]]. by eapply parse_v6_length.
Qed.

Lemma ParsePrefix_ok s p : ParsePrefix s = Some p -> prefix_ok p.
Proof.
  unfold ParsePrefix. destruct (cut_last "/" s) as [[ip bits]|]; [|done].
  destruct (ParseAddr ip) as [a|] eqn:Ha; [|done]. apply ParseAddr_ok in Ha.
  case_bool_decide as Hz; [|done]. cbn [negb]. rewrite Hz in Ha.
  destruct (prefix_bits bits) as [n|]; [|done].
  destruct (Z.ltb_spec n 0), (Z.ltb_spec (BitLen a) n); cbn; try done. intros [= <-]. split; [done|cbn; lia].
Qed.

Lemma BitLen_withoutZone a : BitLen (withoutZone a) = BitLen a.
Proof. by destruct a. Qed.

Lemma PrefixFrom_ok a : addr_ok (withoutZone a) -> prefix_ok (PrefixFrom a (BitLen a)).
Proof.
  intros Ha. split; [done|]. cbn. rewrite BitLen_withoutZone. rewrite Z.ltb_irrefl.
  destruct a; cbn; lia.
Qed.

Lemma Masked_ok p : prefix_ok p -> prefix_ok (Masked p).
Proof.
  destruct p as [[q|b z] n]; intros [Ha Hn]; cbn in *; (split; [|exact Hn]); cbn.
  - destruct Ha as [Hl Ho]. split; [by rewrite length_mask_octets|by apply mask_octets_octets].
  - destruct Ha as (Hl & Ho & _). split_and!; [by rewrite length_mask_octets|by apply mask_octets_octets|done].
Qed.

(** A full-length prefix is its own network. *)
Lemma mask_octets_full bits l : Forall octet l -> 8 * Z.of_nat (length l) <= bits -> mask_octets bits l = l.
Proof.
  intros Hl. revert bits. induction Hl as [|o l Ho Hl IH]; intros bits Hb; [done|]. cbn [mask_octets length] in *.
  rewrite IH by lia. f_equal. replace (Z.max 0 (Z.min 8 bits)) with 8 by lia. change (256 - 2 ^ (8 - 8)) with (Z.ones 8).
  rewrite Z.land_ones by lia. apply Z.mod_small. unfold octet in Ho. lia.
Qed.

Lemma Masked_PrefixFrom a : addr_ok (withoutZone a) -> Masked (PrefixFrom a (BitLen a)) = PrefixFrom a (BitLen a).
Proof.
  intros Ha. unfold Masked, PrefixFrom. cbn [pf_bits pf_addr]. rewrite Z.ltb_irrefl.
  destruct a as [q|b z]; cbn in *.
  - destruct Ha as [Hl Ho]. by rewrite mask_octets_full by (done || lia).
  - destruct Ha as (Hl & Ho & _). by rewrite mask_octets_full by (done || lia).
Qed.
