(* ===== verification/GoBytes.v ===== *)
(** * Go's [encoding/base64], [crypto/sha256] and [encoding/hex]

    Bytes and encoded text are lists of byte values.  Decoding is that of the
    padded, non-strict standard encoding: carriage returns and line feeds are
    skipped, padding is accepted only to complete the last quantum, and left-over bits of
    a padded quantum are not checked.  SHA-256 is that of FIPS 180-4: padding, the message
    schedule and the compression function, with 32-bit words as integers below
    2^32. *)

From S2P Require Import Prelude GoStrings.
From Stdlib Require Import Ascii.
#[local] Open Scope string_scope.
#[local] Open Scope list_scope.
#[local] Open Scope Z_scope.

Definition is_byte (z : Z) : Prop := 0 <= z <= 255.

Definition byte_of_ascii (a : ascii) : Z := Z.of_nat (nat_of_ascii a).
Fixpoint bytes_of_string (s : string) : list Z :=
  match s with "" => [] | String a s' => byte_of_ascii a :: bytes_of_string s' end.
Fixpoint string_of_bytes (b : list Z) : string :=
  match b with [] => "" | x :: b' => String (ascii_of_nat (Z.to_nat x)) (string_of_bytes b') end.

Definition std_chars : list Z :=
  bytes_of_string "ABCDEFGHIJKLMNOPQRSTUVWXYZabcdefghijklmnopqrstuvwxyz0123456789+/".
Definition url_chars : list Z :=
  bytes_of_string "ABCDEFGHIJKLMNOPQRSTUVWXYZabcdefghijklmnopqrstuvwxyz0123456789-_".

Definition pad : Z := 61.

Definition sextet (chars : list Z) (v : Z) : Z := nth (Z.to_nat v) chars 0.

(** [padding] says whether the last quantum is completed with '='. *)
Fixpoint Encode (chars : list Z) (padding : bool) (b : list Z) : list Z :=
  match b with
  | [] => []
  | [x] => let v := x * 65536 in
           [sextet chars (v / 262144); sextet chars (v / 4096 mod 64)]
             ++ (if padding then [pad; pad] else [])
  | [x; y] => let v := x * 65536 + y * 256 in
              [sextet chars (v / 262144); sextet chars (v / 4096 mod 64); sextet chars (v / 64 mod 64)]
                ++ (if padding then [pad] else [])
  | x :: y :: z :: rest =>
      let v := x * 65536 + y * 256 + z in
      sextet chars (v / 262144) :: sextet chars (v / 4096 mod 64) :: sextet chars (v / 64 mod 64)
        :: sextet chars (v mod 64) :: Encode chars padding rest
  end.

Definition StdEncode : list Z -> list Z := Encode std_chars true.
Definition RawURLEncode : list Z -> list Z := Encode url_chars false.

(** The value of a character of the standard alphabet. *)
Definition std_value (c : Z) : option Z :=
  if (65 <=? c) && (c <=? 90) then Some (c - 65)
  else if (97 <=? c) && (c <=? 122) then Some (c - 71)
  else if (48 <=? c) && (c <=? 57) then Some (c + 4)
  else if c =? 43 then Some 62
  else if c =? 47 then Some 63
  else None.

Definition is_newline (c : Z) : bool := (c =? 10) || (c =? 13).

Fixpoint decode_quanta (t : list Z) : option (list Z) :=
  match t with
  | [] => Some []
  | a :: b :: c :: d :: rest =>
      match std_value a, std_value b with
      | Some va, Some vb =>
          match std_value c, std_value d with
          | Some vc, Some vd =>
              let v := va * 262144 + vb * 4096 + vc * 64 + vd in
              match decode_quanta rest with
              | Some out => Some (v / 65536 :: v / 256 mod 256 :: v mod 256 :: out)
              | None => None
              end
          | Some vc, None =>
              if (d =? pad) && match rest with [] => true | _ => false end
              then let v := va * 262144 + vb * 4096 + vc * 64 in Some [v / 65536; v / 256 mod 256]
              else None
          | None, _ =>
              if (c =? pad) && (d =? pad) && match rest with [] => true | _ => false end
              then let v := va * 262144 + vb * 4096 in Some [v / 65536]
              else None
          end
      | _, _ => None
      end
  | _ => None
  end.

Definition StdDecode (t : list Z) : option (list Z) :=
  decode_quanta (List.filter (fun c => negb (is_newline c)) t).

(** ** Encoding then decoding *)

Definition std_ok (v : Z) : bool :=
  match std_value (sextet std_chars v) with Some w => w =? v | None => false end
  && negb (is_newline (sextet std_chars v)).

Lemma std_ok_all v : 0 <= v < 64 -> std_ok v = true.
Proof.
  intros Hv. assert (H : forallb std_ok (map Z.of_nat (seq 0 64)) = true) by (vm_compute; reflexivity).
  rewrite forallb_forall in H. apply H, in_map_iff. exists (Z.to_nat v). split; [lia|].
  apply in_seq. lia.
Qed.

Lemma std_value_sextet v : 0 <= v < 64 -> std_value (sextet std_chars v) = Some v.
Proof.
  intros Hv. pose proof (std_ok_all v Hv) as H. unfold std_ok in H. apply andb_prop in H as [H _].
  destruct (std_value _); [|done]. apply Z.eqb_eq in H. by subst.
Qed.

Lemma sextet_not_newline v : 0 <= v < 64 -> is_newline (sextet std_chars v) = false.
Proof.
  intros Hv. pose proof (std_ok_all v Hv) as H. unfold std_ok in H. apply andb_prop in H as [_ H].
  by apply negb_true_iff in H.
Qed.

(** Induction in steps of three bytes. *)
Lemma list_ind3 {A} (P : list A -> Prop) :
  P [] -> (forall x, P [x]) -> (forall x y, P [x; y]) ->
  (forall x y z l, P l -> P (x :: y :: z :: l)) -> forall l, P l.
Proof.
  intros H0 H1 H2 H3. assert (H : forall n l, (length l <= n)%nat -> P l); [|eauto].
  induction n as [|n IH]; intros [|x [|y [|z l]]] Hl; simpl in *; try done; try lia.
  apply H3, IH. lia.
Qed.

Ltac sextet_bounds := Z.to_euclidean_division_equations; lia.

Lemma StdEncode_no_newline b : Forall is_byte b -> Forall (fun c => is_newline c = false) (StdEncode b).
Proof.
  unfold StdEncode. induction b as [|x|x y|x y z b IH] using list_ind3; intros Hb;
    rewrite ?Forall_cons in Hb; unfold is_byte in Hb; simpl; [constructor|..].
  - repeat (constructor; [first [done | apply sextet_not_newline; sextet_bounds]|]); constructor.
  - repeat (constructor; [first [done | apply sextet_not_newline; sextet_bounds]|]); constructor.
  - destruct Hb as (? & ? & ? & Hb).
    do 4 (constructor; [apply sextet_not_newline; sextet_bounds|]). by apply IH.
Qed.

Lemma decode_quanta_Encode b : Forall is_byte b -> decode_quanta (StdEncode b) = Some b.
Proof.
  unfold StdEncode. induction b as [|x|x y|x y z b IH] using list_ind3; intros Hb;
    rewrite ?Forall_cons in Hb; unfold is_byte in Hb; [done|..].
  - cbn [Encode app decode_quanta]. rewrite !std_value_sextet by sextet_bounds.
    change (std_value pad) with (@None Z). change ((pad =? pad) && (pad =? pad) && true) with true.
    cbv iota. f_equal. f_equal. sextet_bounds.
  - cbn [Encode app decode_quanta]. rewrite !std_value_sextet by sextet_bounds.
    change (std_value pad) with (@None Z). change ((pad =? pad) && true) with true.
    cbv iota. f_equal. f_equal; [|f_equal]; sextet_bounds.
  - destruct Hb as (? & ? & ? & Hb). cbn [Encode decode_quanta].
    rewrite !std_value_sextet by sextet_bounds. cbv iota. rewrite (IH Hb).
    f_equal. f_equal; [|f_equal; [|f_equal]]; sextet_bounds.
Qed.

(** [DecodeString (EncodeToString b)] is [b]. *)
Lemma StdDecode_Encode b : Forall is_byte b -> StdDecode (StdEncode b) = Some b.
Proof.
  intros Hb. unfold StdDecode.
  assert (Hf : List.filter (fun c => negb (is_newline c)) (StdEncode b) = StdEncode b).
  { pose proof (StdEncode_no_newline b Hb) as H. induction H as [|c l Hc _ IH]; [done|].
    simpl. by rewrite Hc, IH. }
  rewrite Hf. by apply decode_quanta_Encode.
Qed.

Example base64_ex :
  string_of_bytes (StdEncode (bytes_of_string "hello")) = "aGVsbG8=" /\
  string_of_bytes (RawURLEncode [251; 255]) = "-_8" /\
  StdDecode (bytes_of_string "aGVsbG8") = None.
Proof. vm_compute. repeat split. Qed.

Definition mask32 : Z := 4294967295.
Definition add32 (a b : Z) : Z := Z.land (a + b) mask32.
Definition rotr (n x : Z) : Z := Z.lor (Z.shiftr x n) (Z.land (Z.shiftl x (32 - n)) mask32).
Definition not32 (x : Z) : Z := Z.lxor x mask32.

Definition sha_K : list Z :=
  [1116352408; 1899447441; 3049323471; 3921009573; 961987163; 1508970993;
   2453635748; 2870763221; 3624381080; 310598401; 607225278; 1426881987;
   1925078388; 2162078206; 2614888103; 3248222580; 3835390401; 4022224774;
   264347078; 604807628; 770255983; 1249150122; 1555081692; 1996064986;
   2554220882; 2821834349; 2952996808; 3210313671; 3336571891; 3584528711;
   113926993; 338241895; 666307205; 773529912; 1294757372; 1396182291;
   1695183700; 1986661051; 2177026350; 2456956037; 2730485921; 2820302411;
   3259730800; 3345764771; 3516065817; 3600352804; 4094571909; 275423344;
   430227734; 506948616; 659060556; 883997877; 958139571; 1322822218;
   1537002063; 1747873779; 1955562222; 2024104815; 2227730452; 2361852424;
   2428436474; 2756734187; 3204031479; 3329325298].

Definition sha_H0 : list Z :=
  [1779033703; 3144134277; 1013904242; 2773480762; 1359893119; 2600822924;
   528734635; 1541459225].

Definition small_sigma0 (x : Z) : Z := Z.lxor (Z.lxor (rotr 7 x) (rotr 18 x)) (Z.shiftr x 3).
Definition small_sigma1 (x : Z) : Z := Z.lxor (Z.lxor (rotr 17 x) (rotr 19 x)) (Z.shiftr x 10).
Definition big_sigma0 (x : Z) : Z := Z.lxor (Z.lxor (rotr 2 x) (rotr 13 x)) (rotr 22 x).
Definition big_sigma1 (x : Z) : Z := Z.lxor (Z.lxor (rotr 6 x) (rotr 11 x)) (rotr 25 x).
Definition ch (x y z : Z) : Z := Z.lxor (Z.land x y) (Z.land (not32 x) z).
Definition maj (x y z : Z) : Z := Z.lxor (Z.lxor (Z.land x y) (Z.land x z)) (Z.land y z).

(** The message schedule, newest word first. *)
Fixpoint extend (n : nat) (w : list Z) : list Z :=
  match n with
  | O => w
  | S n' =>
      let t := add32 (add32 (small_sigma1 (nth 1 w 0)) (nth 6 w 0)) (add32 (small_sigma0 (nth 14 w 0)) (nth 15 w 0)) in
      extend n' (t :: w)
  end.

Fixpoint words (b : list Z) : list Z :=
  match b with
  | b0 :: b1 :: b2 :: b3 :: rest => (b0 * 16777216 + b1 * 65536 + b2 * 256 + b3) :: words rest
  | _ => []
  end.

Definition round (s : list Z) (kw : Z * Z) : list Z :=
  match s with
  | [a; b; c; d; e; f; g; h] =>
      let t1 := add32 (add32 (add32 h (big_sigma1 e)) (ch e f g)) (add32 kw.1 kw.2) in
      let t2 := add32 (big_sigma0 a) (maj a b c) in
      [add32 t1 t2; a; b; c; add32 d t1; e; f; g]
  | _ => s
  end.

Definition compress (h : list Z) (block : list Z) : list Z :=
  let w := rev (extend 48 (rev (words block))) in
  zip_with add32 h (foldl round h (zip sha_K w)).

Fixpoint blocks (fuel : nat) (h : list Z) (b : list Z) : list Z :=
  match fuel with
  | O => h
  | S f => match b with [] => h | _ => blocks f (compress h (take 64 b)) (drop 64 b) end
  end.

Definition be64 (n : Z) : list Z :=
  map (fun k => Z.shiftr n (8 * k) mod 256) [7; 6; 5; 4; 3; 2; 1; 0].

Definition pad_message (b : list Z) : list Z :=
  let n := Z.of_nat (length b) in
  b ++ [128] ++ replicate (Z.to_nat ((55 - n) mod 64)) 0 ++ be64 (wrap u64 (8 * n)).

Definition bytes_of_word (x : Z) : list Z :=
  [Z.shiftr x 24 mod 256; Z.shiftr x 16 mod 256; Z.shiftr x 8 mod 256; x mod 256].

Definition sha256 (b : list Z) : list Z :=
  let m := pad_message b in flat_map bytes_of_word (blocks (length m) sha_H0 m).

(** ** [hex.EncodeToString] *)

Definition hex_digit (d : Z) : ascii :=
  if d <? 10 then ascii_of_nat (Z.to_nat (48 + d)) else ascii_of_nat (Z.to_nat (87 + d)).

Fixpoint hexEncode (b : list Z) : string :=
  match b with
  | [] => ""
  | x :: b' => String (hex_digit (x / 16)) (String (hex_digit (x mod 16)) (hexEncode b'))
  end.

(** The digest of "abc" from FIPS 180-4, and of the empty and of a two-block message. *)
Example sha256_vectors :
  hexEncode (sha256 (bytes_of_string "abc")) = "ba7816bf8f01cfea414140de5dae2223b00361a396177a9cb410ff61f20015ad" /\
  hexEncode (sha256 []) = "e3b0c44298fc1c149afbf4c8996fb92427ae41e4649b934ca495991b7852b855" /\
  hexEncode (sha256 (bytes_of_string "abcdbcdecdefdefgefghfghighijhijkijkljklmklmnlmnomnopnopq"))
    = "248d6a61d20638b8e5c026930c3e6039a33ce45964ff2167f6ecedd419db06c1".
Proof. vm_compute. repeat split. Qed.

(** ** Shape of a digest, injectivity of hex *)

Lemma length_round s kw : length (round s kw) = length s.
Proof. by destruct s as [|a [|b [|c [|d [|e [|f [|g [|h [|? ?]]]]]]]]]. Qed.

Lemma length_compress h b : length h = 8%nat -> length (compress h b) = 8%nat.
Proof.
  intros Hh. unfold compress. rewrite length_zip_with.
  assert (H : forall l s, length (foldl round s l) = length s).
  { induction l as [|kw l IH]; intros s; simpl; [done|]. by rewrite IH, length_round. }
  rewrite H. lia.
Qed.

Lemma length_blocks fuel h b : length h = 8%nat -> length (blocks fuel h b) = 8%nat.
Proof.
  revert h b. induction fuel as [|f IH]; intros h b Hh; simpl; [done|]. destruct b as [|x b]; [done|].
  apply IH. by apply length_compress.
Qed.

Lemma length_sha256 b : length (sha256 b) = 32%nat.
Proof.
  unfold sha256. assert (H : forall l, length (flat_map bytes_of_word l) = (4 * length l)%nat).
  { induction l as [|x l IH]; [done|]. cbn [flat_map]. rewrite length_app, IH. simpl length. lia. }
  by rewrite H, length_blocks.
Qed.

Lemma sha256_bytes b : Forall is_byte (sha256 b).
Proof.
  unfold sha256. generalize (blocks (length (pad_message b)) sha_H0 (pad_message b)). intros l.
  assert (Hb : forall x, is_byte (x mod 256)) by (intros x; unfold is_byte; pose proof (Z.mod_pos_bound x 256); lia).
  induction l as [|x l IH]; [constructor|]. cbn [flat_map]. apply Forall_app. split; [|exact IH].
  unfold bytes_of_word. auto 10 using List.Forall_cons, List.Forall_nil.
Qed.

Definition hex_ok (d e : Z) : bool := implb (Ascii.eqb (hex_digit d) (hex_digit e)) (d =? e).

Lemma hex_digit_inj d e : 0 <= d < 16 -> 0 <= e < 16 -> hex_digit d = hex_digit e -> d = e.
Proof.
  intros Hd He H.
  assert (Hall : forallb (fun d => forallb (hex_ok d) (map Z.of_nat (seq 0 16))) (map Z.of_nat (seq 0 16)) = true)
    by (vm_compute; reflexivity).
  assert (Hin : forall z, 0 <= z < 16 -> In z (map Z.of_nat (seq 0 16))).
  { intros z Hz. apply in_map_iff. exists (Z.to_nat z). split; [lia|]. apply in_seq. lia. }
  rewrite forallb_forall in Hall. specialize (Hall d (Hin d Hd)).
  rewrite forallb_forall in Hall. specialize (Hall e (Hin e He)).
  unfold hex_ok in Hall. rewrite H, Ascii.eqb_refl in Hall. by apply Z.eqb_eq.
Qed.

Lemma hexEncode_inj a b : Forall is_byte a -> Forall is_byte b -> hexEncode a = hexEncode b -> a = b.
Proof.
  intros Ha. revert b. induction Ha as [|x a Hx _ IH]; intros b Hb; destruct Hb as [|y b Hy Hb]; simpl; try done.
  intros H. injection H as H1 H2 H3. unfold is_byte in *.
  apply hex_digit_inj in H1; [|Z.to_euclidean_division_equations; lia..].
  apply hex_digit_inj in H2; [|Z.to_euclidean_division_equations; lia..].
  f_equal; [|by apply IH]. rewrite (Z.div_mod x 16), (Z.div_mod y 16) by lia. by rewrite H1, H2.
Qed.
