(* ===== verification/GoTime.v ===== *)
(** * Go's RFC 3339 times

    [t.UTC().Format(time.RFC3339)], with the civil date computed from the day number in
    the proleptic Gregorian calendar, and [time.Parse] with the same layout.  Parsing
    accepts an hour of one digit, a fraction after '.' or ',' of any length, and offsets
    up to 24:60.  A time that is printed in UTC is read back to the second
    ([Parse_Format]). *)

From S2P Require Import Prelude GoStrings GoNet.
From Stdlib Require Import Ascii.
#[local] Open Scope string_scope.
#[local] Open Scope list_scope.
#[local] Open Scope Z_scope.

(** Zero-padded decimal of at least [w] digits (non-negative argument). *)
Definition padded (w : nat) (z : Z) : string :=
  let s := Itoa z in
  String.concat "" (replicate (w - String.length s) "0") +:+ s.

(** Year, month and day of the day number [d] counted from 0001-01-01: 400-year
    eras starting on March 1st of year 0. *)
Definition civil (d : Z) : Z * Z * Z :=
  let z := d + 306 in
  let era := z / 146097 in
  let doe := z mod 146097 in
  let yoe := (doe - doe / 1460 + doe / 36524 - doe / 146096) / 365 in
  let doy := doe - (365 * yoe + yoe / 4 - yoe / 100) in
  let mp := (5 * doy + 2) / 153 in
  let day := doy - (153 * mp + 2) / 5 + 1 in
  let month := if mp <? 10 then mp + 3 else mp - 9 in
  let year := yoe + era * 400 + (if month <=? 2 then 1 else 0) in
  (year, month, day).

Definition FormatRFC3339 (t : Time) : string :=
  let secs := t / Second in
  let '(y, m, d) := civil (secs / 86400) in
  let r := secs mod 86400 in
  padded 4 y +:+ "-" +:+ padded 2 m +:+ "-" +:+ padded 2 d +:+ "T" +:+
  padded 2 (r / 3600) +:+ ":" +:+ padded 2 (r mod 3600 / 60) +:+ ":" +:+ padded 2 (r mod 60) +:+ "Z".

Example format_zero : FormatRFC3339 0 = "0001-01-01T00:00:00Z".
Proof. vm_compute. reflexivity. Qed.
Example format_epoch : FormatRFC3339 (UnixTime 0) = "1970-01-01T00:00:00Z".
Proof. vm_compute. reflexivity. Qed.
Example format_leap : FormatRFC3339 (UnixTime (1709210096 * Second)) = "2024-02-29T12:34:56Z".
Proof. vm_compute. reflexivity. Qed.
Example format_year_end : FormatRFC3339 (UnixTime (1798761599 * Second)) = "2026-12-31T23:59:59Z".
Proof. vm_compute. reflexivity. Qed.

(** ** [time.Duration.String] *)

Fixpoint strip_zeros (s : string) : string :=
  match s with
  | String c s' => if Ascii.eqb c "0"%char then strip_zeros s' else s
  | "" => ""
  end.

(** [fmtFrac]: the fraction of [v / 10^prec] without its trailing zeros, dot included. *)
Definition fmt_frac (prec : nat) (v : Z) : string :=
  match reverse (strip_zeros (reverse (padded prec (v mod 10 ^ Z.of_nat prec)))) with
  | "" => ""
  | digits => "." +:+ digits
  end.

Definition DurationString (d : Duration) : string :=
  let u := Z.abs d in
  let text :=
    if u =? 0 then "0s"
    else if u <? 1000 then Itoa u +:+ "ns"
    else if u <? 1000000 then Itoa (u / 1000) +:+ fmt_frac 3 u +:+ "µs"
    else if u <? Second then Itoa (u / 1000000) +:+ fmt_frac 6 u +:+ "ms"
    else
      let secs := u / Second in
      let s := Itoa (secs mod 60) +:+ fmt_frac 9 u +:+ "s" in
      let mins := secs / 60 in
      if mins =? 0 then s
      else
        let ms := Itoa (mins mod 60) +:+ "m" +:+ s in
        if mins / 60 =? 0 then ms else Itoa (mins / 60) +:+ "h" +:+ ms in
  if d <? 0 then "-" +:+ text else text.

Example DurationString_ex :
  map DurationString [Hour; 90 * Second; 1500000000; 2 * Hour + 1; -1500; 0]
  = ["1h0m0s"; "1m30s"; "1.5s"; "2h0m0.000000001s"; "-1.5µs"; "0s"]%list.
Proof. reflexivity. Qed.

(** ** Dates *)

Definition is_leap (y : Z) : bool := (y mod 4 =? 0) && (negb (y mod 100 =? 0) || (y mod 400 =? 0)).

Definition daysIn (m y : Z) : Z :=
  if m =? 2 then (if is_leap y then 29 else 28)
  else if (m =? 4) || (m =? 6) || (m =? 9) || (m =? 11) then 30 else 31.

(** Days of the year [y] before the month [m]. *)
Definition days_before (m y : Z) : Z :=
  nth (Z.to_nat (m - 1)) [0; 31; 59; 90; 120; 151; 181; 212; 243; 273; 304; 334] 0
  + (if (2 <? m) && is_leap y then 1 else 0).

(** The day number counted from 0001-01-01. *)
Definition day_number (y m d : Z) : Z :=
  let p := y - 1 in 365 * p + p / 4 - p / 100 + p / 400 + days_before m y + (d - 1).

(** ** Reading *)

Definition lit (c : ascii) (s : string) : option string :=
  match s with String a s' => if Ascii.eqb a c then Some s' else None | "" => None end.

(** [getnum]: two digits, or one where [fixed] allows it. *)
Definition getnum (fixed : bool) (s : string) : option (Z * string) :=
  match s with
  | String a s' =>
      match digit_of a, s' with
      | Some x, String b s'' =>
          match digit_of b with
          | Some y => Some (x * 10 + y, s'')
          | None => if fixed then None else Some (x, s')
          end
      | Some x, "" => if fixed then None else Some (x, s')
      | None, _ => None
      end
  | "" => None
  end.

Definition get_year (s : string) : option (Z * string) :=
  match getnum true s with
  | Some (hi, s) => match getnum true s with Some (lo, s) => Some (hi * 100 + lo, s) | None => None end
  | None => None
  end.

(** The digits at the front and what follows. *)
Fixpoint span_digits (s : string) : list Z * string :=
  match s with
  | String a s' =>
      match digit_of a with
      | Some d => let '(ds, rest) := span_digits s' in (d :: ds, rest)
      | None => ([], s)
      end
  | "" => ([], "")
  end.

Definition digits_value (ds : list Z) : Z := foldl (fun v d => v * 10 + d) 0 ds.

(** A fraction that the layout does not ask for: its first nine digits count. *)
Definition get_fraction (s : string) : Z * string :=
  match s with
  | String a s' =>
      if Ascii.eqb a "." || Ascii.eqb a "," then
        match span_digits s' with
        | ([], _) => (0, s)
        | (ds, rest) => let ds := take 9 ds in (digits_value ds * 10 ^ (9 - Z.of_nat (length ds)), rest)
        end
      else (0, s)
  | "" => (0, s)
  end.

(** [Z], or a signed offset hh:mm: its seconds. *)
Definition get_zone (s : string) : option (Z * string) :=
  match s with
  | String "Z" s' => Some (0, s')
  | String sign s' =>
      '(hr, s') ← getnum true s';
      s' ← lit ":" s';
      '(mm, s') ← getnum true s';
      if (24 <? hr) || (60 <? mm) then None
      else if Ascii.eqb sign "+" then Some ((hr * 60 + mm) * 60, s')
      else if Ascii.eqb sign "-" then Some (- ((hr * 60 + mm) * 60), s')
      else None
  | "" => None
  end.

Definition in_range (lo hi v : Z) : option unit := if (lo <=? v) && (v <=? hi) then Some tt else None.

Definition ParseRFC3339 (s : string) : option Time :=
  '(year, s) ← get_year s;
  s ← lit "-" s;
  '(month, s) ← getnum true s;
  _ ← in_range 1 12 month;
  s ← lit "-" s;
  '(day, s) ← getnum true s;
  s ← lit "T" s;
  '(hour, s) ← getnum false s;
  _ ← in_range 0 23 hour;
  s ← lit ":" s;
  '(min, s) ← getnum true s;
  _ ← in_range 0 59 min;
  s ← lit ":" s;
  '(sec, s) ← getnum true s;
  _ ← in_range 0 59 sec;
  let '(nsec, s) := get_fraction s in
  '(offset, s) ← get_zone s;
  if negb (String.eqb s "") then None
  else
    _ ← in_range 1 (daysIn month year) day;
    Some ((day_number year month day * 86400 + hour * 3600 + min * 60 + sec - offset) * Second + nsec).

Example Parse_ex :
  ParseRFC3339 "1970-01-01T00:00:00Z" = Some (UnixTime 0) /\
  ParseRFC3339 "1970-01-01T01:00:00.5+01:00" = Some (UnixTime 500000000) /\
  ParseRFC3339 "1970-01-01T0:00:00,25Z" = Some (UnixTime 250000000) /\
  ParseRFC3339 "1970-01-02T00:59:00+24:59" = Some (UnixTime 0) /\
  ParseRFC3339 "0001-01-01T00:00:00Z" = Some 0 /\
  ParseRFC3339 "2023-02-29T00:00:00Z" = None /\ ParseRFC3339 "2024-02-29T00:00:00Z" <> None /\
  ParseRFC3339 "2024-02-29 00:00:00Z" = None /\ ParseRFC3339 "10000-01-01T00:00:00Z" = None.
Proof. vm_compute. repeat split; discriminate. Qed.

(** ** Lemmas: numbers *)

Lemma forall_below (f : Z -> bool) n k :
  forallb (fun i => f (Z.of_nat i)) (seq 0 (Z.to_nat n)) = true -> 0 <= k < n -> f k = true.
Proof.
  intros H Hk. rewrite forallb_forall in H. specialize (H (Z.to_nat k) ltac:(apply in_seq; lia)).
  by rewrite Z2Nat.id in H by lia.
Qed.

Definition reads_two (v : Z) : bool :=
  match padded 2 v with
  | String a (String b "") =>
      match digit_of a, digit_of b with Some x, Some y => v =? x * 10 + y | _, _ => false end
  | _ => false
  end.

Lemma getnum_padded fixed v s : 0 <= v < 100 -> getnum fixed (padded 2 v +:+ s) = Some (v, s).
Proof.
  intros Hv. assert (H : reads_two v = true) by (apply (forall_below _ 100); [vm_compute; reflexivity|lia]).
  unfold reads_two in H. destruct (padded 2 v) as [|a [|b [|? ?]]]; try done.
  change (String a (String b "") +:+ s) with (String a (String b s)). cbn [getnum].
  destruct (digit_of a), (digit_of b); try done. apply Z.eqb_eq in H. by subst.
Qed.

Lemma padded_year y : 0 <= y < 10000 -> padded 4 y = padded 2 (y / 100) +:+ padded 2 (y mod 100).
Proof.
  intros Hy. apply String.eqb_eq.
  by apply (forall_below (fun y => String.eqb (padded 4 y) (padded 2 (y / 100) +:+ padded 2 (y mod 100))) 10000);
    [vm_compute; reflexivity|lia].
Qed.

Lemma get_year_padded y s : 0 <= y < 10000 -> get_year (padded 4 y +:+ s) = Some (y, s).
Proof.
  intros Hy. rewrite padded_year, string_app_assoc by done. unfold get_year.
  rewrite !getnum_padded by (Z.to_euclidean_division_equations; lia). do 2 f_equal. Z.to_euclidean_division_equations; lia.
Qed.

Lemma lit_app c s : lit c (String c "" +:+ s) = Some s.
Proof. change (String c "" +:+ s) with (String c s). cbn. by rewrite Ascii.eqb_refl. Qed.

(** ** Lemmas: the civil calendar *)

(** The first day of a year that starts in March, within an era of 400 years. *)
Definition year_start (y : Z) : Z := 365 * y + y / 4 - y / 100.

Definition year_of (doe : Z) : Z := (doe - doe / 1460 + doe / 36524 - doe / 146096) / 365.

Lemma year_of_step d : 0 <= d -> year_of d <= year_of (d + 1).
Proof.
  intros Hd. unfold year_of. apply Z.div_le_mono; [lia|].
  change 146096 with (36524 * 4). rewrite <- !Z.div_div by lia. Z.to_euclidean_division_equations; lia.
Qed.

Lemma year_of_mono d e : 0 <= d <= e -> year_of d <= year_of e.
Proof.
  intros Hd. replace e with (d + Z.of_nat (Z.to_nat (e - d))) by lia.
  induction (Z.to_nat (e - d)) as [|n IH]; [by rewrite Z.add_0_r|].
  etransitivity; [exact IH|]. replace (d + Z.of_nat (S n)) with (d + Z.of_nat n + 1) by lia. apply year_of_step. lia.
Qed.

Lemma year_of_ends y :
  0 <= y < 400 -> year_of (year_start y) = y /\ (y < 399 -> year_of (year_start (y + 1) - 1) = y) /\ (0 <= year_start y < 146097).
Proof.
  intros Hy.
  assert (H : (year_of (year_start y) =? y) && ((399 <=? y) || (year_of (year_start (y + 1) - 1) =? y))
    && (0 <=? year_start y) && (year_start y <? 146097) = true).
  { apply (forall_below (fun y => (year_of (year_start y) =? y) && ((399 <=? y) || (year_of (year_start (y + 1) - 1) =? y))
      && (0 <=? year_start y) && (year_start y <? 146097)) 400); [vm_compute; reflexivity|lia]. }
  rewrite !andb_true_iff, orb_true_iff in H. lia.
Qed.

Lemma year_of_bounds d : 0 <= d < 146097 -> 0 <= year_of d <= 399.
Proof.
  intros Hd. pose proof (year_of_mono 0 d ltac:(lia)) as H1. pose proof (year_of_mono d 146096 ltac:(lia)) as H2.
  change (year_of 0) with 0 in H1. change (year_of 146096) with 399 in H2. lia.
Qed.

Lemma year_of_start d :
  0 <= d < 146097 -> year_start (year_of d) <= d /\ (year_of d < 399 -> d < year_start (year_of d + 1)).
Proof.
  intros Hd. pose proof (year_of_bounds d Hd) as Hb. split.
  - destruct (Z.le_gt_cases (year_start (year_of d)) d); [done|].
    destruct (Z.eq_dec (year_of d) 0) as [E|]; [rewrite E in *; change (year_start 0) with 0 in *; lia|].
    destruct (year_of_ends (year_of d - 1) ltac:(lia)) as (_ & H2 & _). specialize (H2 ltac:(lia)).
    replace (year_of d - 1 + 1) with (year_of d) in H2 by lia.
    pose proof (year_of_mono d (year_start (year_of d) - 1) ltac:(lia)). lia.
  - intros Hlt. destruct (Z.le_gt_cases (year_start (year_of d + 1)) d); [|lia].
    destruct (year_of_ends (year_of d + 1) ltac:(lia)) as (H1 & _ & H3).
    pose proof (year_of_mono (year_start (year_of d + 1)) d ltac:(lia)). lia.
Qed.

(** Days before a month in a year that starts in March. *)
Definition march_before (mp : Z) : Z := (153 * mp + 2) / 5.

(** The months of such a year against the calendar's. *)
Definition month_ok (doy : Z) : bool :=
  let mp := (5 * doy + 2) / 153 in
  let m := if mp <? 10 then mp + 3 else mp - 9 in
  let d := doy - march_before mp in
  let len := if m =? 2 then 29 else daysIn m 1 in
  (0 <=? mp) && (mp <=? 11) && (1 <=? m) && (m <=? 12) && (0 <=? d) && (d <? len)
  && (march_before mp =? nth (Z.to_nat (m - 1)) [0; 31; 59; 90; 120; 151; 181; 212; 243; 273; 304; 334] 0 + (if m <=? 2 then 306 else -59)).

Lemma month_ok_all doy : 0 <= doy < 366 -> month_ok doy = true.
Proof. intros H. apply (forall_below month_ok 366); [vm_compute; reflexivity|done]. Qed.

Definition leap_count (y : Z) : Z := y / 4 - y / 100 + y / 400.

Lemma leap_count_step y : leap_count y = leap_count (y - 1) + (if is_leap y then 1 else 0).
Proof.
  unfold leap_count, is_leap.
  destruct (Z.eqb_spec (y mod 4) 0), (Z.eqb_spec (y mod 100) 0), (Z.eqb_spec (y mod 400) 0); cbn [andb orb negb];
    Z.to_euclidean_division_equations; lia.
Qed.

Lemma leap_count_era e y : 0 <= y < 400 -> leap_count (y + e * 400) = y / 4 - y / 100 + 97 * e.
Proof. intros Hy. unfold leap_count. Z.to_euclidean_division_equations; lia. Qed.

Lemma day_number_alt y m d : day_number y m d = 365 * (y - 1) + leap_count (y - 1) + days_before m y + (d - 1).
Proof. unfold day_number, leap_count. cbv zeta. lia. Qed.

(** February 29 falls in leap years only. *)
Lemma year_length d :
  0 <= d < 146097 -> 0 <= d - year_start (year_of d) <= 365
  /\ (d - year_start (year_of d) = 365 -> forall e, is_leap (year_of d + e * 400 + 1) = true).
Proof.
  intros Hd. pose proof (year_of_bounds d Hd) as Hb. destruct (year_of_start d Hd) as [H1 H2].
  destruct (Z.eq_dec (year_of d) 399) as [E|].
  - rewrite E in *. change (year_start 399) with 145731 in *. split; [lia|]. intros _ e. unfold is_leap.
    apply andb_true_iff. split; [apply Z.eqb_eq; Z.to_euclidean_division_equations; lia|].
    apply orb_true_iff. right. apply Z.eqb_eq. Z.to_euclidean_division_equations; lia.
  - specialize (H2 ltac:(lia)). unfold year_start in *. split; [Z.to_euclidean_division_equations; lia|].
    intros He e. unfold is_leap. set (y := year_of d) in *.
    apply andb_true_iff. split; [apply Z.eqb_eq; Z.to_euclidean_division_equations; lia|].
    apply orb_true_iff. left. apply negb_true_iff, Z.eqb_neq. Z.to_euclidean_division_equations; lia.
Qed.

Lemma civil_inverse d y m dd :
  civil d = (y, m, dd) -> day_number y m dd = d /\ 1 <= m <= 12 /\ 1 <= dd <= daysIn m y.
Proof.
  unfold civil. cbv zeta. set (era := (d + 306) / 146097). set (doe := (d + 306) mod 146097).
  fold (year_of doe). set (yoe := year_of doe).
  replace (doe - (365 * yoe + yoe / 4 - yoe / 100)) with (doe - year_start yoe) by (unfold year_start; lia).
  set (doy := doe - year_start yoe). set (mp := (5 * doy + 2) / 153). fold (march_before mp).
  assert (Hdoe : 0 <= doe < 146097) by (unfold doe; apply Z.mod_pos_bound; lia).
  assert (Hd : d = era * 146097 + doe - 306) by (unfold era, doe; Z.to_euclidean_division_equations; lia).
  pose proof (year_of_bounds doe Hdoe) as Hy. destruct (year_length doe Hdoe) as [Hdoy Hleap]. fold yoe doy in Hy, Hdoy, Hleap.
  pose proof (month_ok_all doy ltac:(lia)) as Hm. unfold month_ok in Hm. cbv zeta in Hm. fold mp in Hm.
  set (m' := if mp <? 10 then mp + 3 else mp - 9) in *. rewrite !andb_true_iff in Hm.
  intros [= <- <- <-]. rewrite day_number_alt. unfold days_before.
  assert (Hera : leap_count (yoe + era * 400) = yoe / 4 - yoe / 100 + 97 * era) by (apply leap_count_era; lia).
  assert (Hdays : doy = doe - (365 * yoe + yoe / 4 - yoe / 100)) by (unfold doy, year_start; lia).
  set (c := nth (Z.to_nat (m' - 1)) _ 0) in *.
  pose proof (leap_count_step (yoe + era * 400)) as Hstep. unfold daysIn in *.
  destruct (Z.leb_spec m' 2).
  - destruct (Z.ltb_spec 2 m'); [lia|]. cbn [andb].
    replace (yoe + era * 400 + 1 - 1) with (yoe + era * 400) by lia. rewrite Hera.
    split; [lia|]. split; [lia|].
    destruct (Z.eqb_spec m' 2) as [E|E]; [|destruct ((m' =? 4) || _ || _ || _); lia].
    destruct (is_leap (yoe + era * 400 + 1)) eqn:El; [lia|].
    assert (Hc : c = 31) by (unfold c; rewrite E; reflexivity).
    destruct (Z.eq_dec doy 365) as [E5|]; [by rewrite Hleap in El|lia].
  - destruct (Z.ltb_spec 2 m'); [|lia]. cbn [andb]. rewrite Z.add_0_r.
    replace (leap_count (yoe + era * 400 - 1)) with (leap_count (yoe + era * 400) - (if is_leap (yoe + era * 400) then 1 else 0)) by lia.
    rewrite Hera. split; [lia|]. split; [lia|].
    destruct (Z.eqb_spec m' 2); [lia|]. destruct ((m' =? 4) || _ || _ || _); lia.
Qed.

(** ** Printing then parsing *)

Definition four_digit_year (t : Time) : Prop :=
  let '(y, _, _) := civil (t / Second / 86400) in 0 <= y < 10000.

Lemma get_zone_Z : get_zone "Z" = Some (0, "").
Proof. done. Qed.

Lemma in_range_ok lo hi v : lo <= v <= hi -> in_range lo hi v = Some tt.
Proof. intros H. unfold in_range. destruct (Z.leb_spec lo v), (Z.leb_spec v hi); try lia. done. Qed.

Lemma daysIn_max m y : daysIn m y <= 31.
Proof.
  unfold daysIn. destruct (m =? 2); [destruct (is_leap y); lia|].
  destruct ((m =? 4) || (m =? 6) || (m =? 9) || (m =? 11)); lia.
Qed.

(** Read one part of the text. *)
Ltac read_on :=
  first [rewrite lit_app|rewrite getnum_padded by lia|rewrite in_range_ok by lia]; cbn [mbind option_bind].

(** The text of a time gives back the time without its fraction of a second. *)
Lemma Parse_Format t : four_digit_year t -> ParseRFC3339 (FormatRFC3339 t) = Some (t - t mod Second).
Proof.
  unfold four_digit_year, FormatRFC3339. cbv zeta.
  destruct (civil (t / Second / 86400)) as [[y m] d] eqn:Hc. intros Hy.
  apply civil_inverse in Hc as (Hn & Hm & Hd).
  pose proof (daysIn_max m y) as Hdd.
  set (r := (t / Second) mod 86400). assert (Hr : 0 <= r < 86400) by (apply Z.mod_pos_bound; lia).
  assert (H1 : 0 <= r / 3600 <= 23) by (Z.to_euclidean_division_equations; lia).
  assert (H2 : 0 <= r mod 3600 / 60 <= 59) by (Z.to_euclidean_division_equations; lia).
  assert (H3 : 0 <= r mod 60 <= 59) by (Z.to_euclidean_division_equations; lia).
  unfold ParseRFC3339. rewrite get_year_padded by done. cbn [mbind option_bind].
  repeat read_on.
  change (get_fraction "Z") with (0, "Z"). cbn iota beta. rewrite get_zone_Z. cbn [mbind option_bind String.eqb negb].
  cbn [mbind option_bind]. f_equal. rewrite Hn.
  unfold Second in *. unfold r. Z.to_euclidean_division_equations; lia.
Qed.
