(* ===== verification/GoPath.v ===== *)
(** * Go's [path] package: [IsAbs] and [Clean]

    [Clean] works on the list of slash-separated elements: empty elements and "."
    vanish, ".." removes the element before it (and vanishes at the root of a
    rooted path).  An empty result is "/" for a rooted path and "." otherwise. *)

From S2P Require Import Prelude GoStrings.
From Stdlib Require Import Ascii.
#[local] Open Scope string_scope.
#[local] Open Scope list_scope.
#[local] Open Scope Z_scope.

Definition IsAbs (p : string) : bool := HasPrefix "/" p.

(** Process one element against the stack [acc] (last element first). *)
Definition clean_step (rooted : bool) (acc : list string) (e : string) : list string :=
  if String.eqb e "" || String.eqb e "." then acc
  else if String.eqb e ".." then
    match acc with
    | [] => if rooted then [] else [".."]
    | top :: rest => if String.eqb top ".." then ".." :: acc else rest
    end
  else e :: acc.

Definition clean_elems (rooted : bool) (es : list string) : list string :=
  rev (foldl (clean_step rooted) [] es).

Fixpoint join_slash (es : list string) : string :=
  match es with
  | [] => ""
  | [e] => e
  | e :: rest => e +:+ "/" +:+ join_slash rest
  end.

Definition Clean (p : string) : string :=
  if String.eqb p "" then "."
  else
    let rooted := IsAbs p in
    let body := join_slash (clean_elems rooted (split_char "/" p)) in
    if rooted then "/" +:+ body
    else if String.eqb body "" then "." else body.

(** [filepath.Dir]: the path up to its last slash, cleaned. *)
Definition dir_prefix (p : string) : string :=
  match rev (split_char "/" p) with
  | _ :: ((_ :: _) as rest) => join_char "/" (rev ("" :: rest))
  | _ => ""
  end.
Definition Dir (p : string) : string := Clean (dir_prefix p).

Example Dir_ex : map Dir ["/usr/local/bin/k3s"; "/k3s"; "k3s"; "a/b/"; ""] = ["/usr/local/bin"; "/"; "."; "a/b"; "."].
Proof. vm_compute. done. Qed.

(** A proper path element: what remains in a cleaned rooted path. *)
Definition proper_elem (e : string) : Prop :=
  e <> "" /\ e <> "." /\ e <> ".." /\ contains_char "/" e = false.

Lemma clean_step_proper acc e :
  contains_char "/" e = false -> Forall proper_elem acc -> Forall proper_elem (clean_step true acc e).
Proof.
  intros He Hacc. unfold clean_step.
  destruct (String.eqb_spec e ""); simpl; [done|]. destruct (String.eqb_spec e "."); simpl; [done|].
  destruct (String.eqb_spec e "..").
  - destruct acc as [|top rest]; [done|]. apply Forall_cons in Hacc as [Ht Hr].
    destruct (String.eqb_spec top ".."); [|done]. subst. by destruct Ht as (_ & _ & ? & _).
  - by constructor.
Qed.

Lemma clean_elems_proper es :
  Forall (fun w => contains_char "/" w = false) es -> Forall proper_elem (clean_elems true es).
Proof.
  intros Hes. unfold clean_elems. apply Forall_rev.
  assert (H : forall acc, Forall proper_elem acc -> Forall proper_elem (foldl (clean_step true) acc es)).
  { induction Hes as [|e es He _ IH]; intros acc Hacc; simpl; [done|].
    apply IH. by apply clean_step_proper. }
  apply H. constructor.
Qed.

Lemma count_char_app c s t : count_char c (s +:+ t) = count_char c s + count_char c t.
Proof.
  induction s as [|a s IH]; [done|].
  change ((if Ascii.eqb a c then 1 else 0) + count_char c (s +:+ t) =
          (if Ascii.eqb a c then 1 else 0) + count_char c s + count_char c t). lia.
Qed.

Lemma count_char_none c s : contains_char c s = false -> count_char c s = 0.
Proof.
  induction s as [|a s IH]; simpl; [done|]. intros [-> H]%orb_false_iff. by rewrite IH.
Qed.

(** A join of [n > 0] proper elements contains [n - 1] slashes. *)
Lemma count_join es : Forall proper_elem es -> es <> [] ->
  count_char "/" (join_slash es) = Z.of_nat (length es) - 1.
Proof.
  induction es as [|e es IH]; intros Hes Hne; [done|].
  apply Forall_cons in Hes as [He Hes]. destruct He as (_ & _ & _ & He).
  destruct es as [|e' es]; [by simpl; rewrite count_char_none|].
  change (join_slash (e :: e' :: es)) with (e +:+ "/" +:+ join_slash (e' :: es)).
  rewrite !count_char_app, (count_char_none _ e) by done. rewrite IH by done.
  change (count_char "/" "/") with 1. simpl length. lia.
Qed.

Lemma split_join es : Forall proper_elem es -> es <> [] -> split_char "/" (join_slash es) = es.
Proof.
  induction es as [|e es IH]; intros Hes Hne; [done|].
  apply Forall_cons in Hes as [(_ & _ & _ & He) Hes].
  destruct es as [|e' es]; [by apply split_char_none|].
  change (join_slash (e :: e' :: es)) with (e +:+ String "/" (join_slash (e' :: es))).
  by rewrite split_char_app, IH.
Qed.

Lemma clean_elems_id es : Forall proper_elem es -> clean_elems true es = es.
Proof.
  intros Hes. unfold clean_elems.
  assert (H : forall acc, foldl (clean_step true) acc es = rev es ++ acc).
  { induction Hes as [|e es (H1 & H2 & H3 & _) _ IH]; intros acc; [done|].
    simpl foldl. unfold clean_step at 2.
    rewrite (proj2 (String.eqb_neq _ _) H1), (proj2 (String.eqb_neq _ _) H2), (proj2 (String.eqb_neq _ _) H3).
    simpl. rewrite IH. by rewrite <- app_assoc. }
  by rewrite H, app_nil_r, rev_involutive.
Qed.

(** The clean absolute paths other than the root are exactly the joins of proper
    elements. *)
Lemma clean_abs_iff p : p <> "/" ->
  IsAbs p = true /\ Clean p = p <->
  exists es, es <> [] /\ Forall proper_elem es /\ p = "/" +:+ join_slash es.
Proof.
  intros Hroot. split.
  - intros [Ha Hc]. unfold Clean in Hc. destruct (String.eqb_spec p "") as [->|_]; [done|].
    rewrite Ha in Hc. exists (clean_elems true (split_char "/" p)). split_and!.
    + intros He. rewrite He in Hc. by subst.
    + apply clean_elems_proper, contains_char_split.
    + by rewrite Hc.
  - intros (es & Hne & Hes & ->). split; [apply HasPrefix_app|].
    unfold Clean. replace (IsAbs _) with true by (symmetry; apply HasPrefix_app).
    change ("/" +:+ join_slash es) with (String "/" (join_slash es)).
    cbn [String.eqb split_char]. rewrite Ascii.eqb_refl, split_join by done.
    unfold clean_elems. change (foldl (clean_step true) [] ("" :: es)) with (foldl (clean_step true) [] es).
    change (rev (foldl (clean_step true) [] es)) with (clean_elems true es). by rewrite clean_elems_id.
Qed.

Example Clean_ex : Clean "/workspace//runs/./x/../r1" = "/workspace/runs/r1" /\ Clean "" = "."
  /\ Clean "/.." = "/" /\ Clean "a/../.." = ".." /\ Clean "/a/b/c" = "/a/b/c".
Proof. repeat split. Qed.
