(* ===== verification/GoFloat.v ===== *)
(** * Go's float64 arithmetic

    A finite float64 is the rational number it denotes ([Q], compared with [==]);
    every operation computes exactly and rounds once, to 53 significant bits,
    nearest with ties to even ([rnd]).  The exponent range is not modelled: the
    magnitudes the code computes with lie between 2^-60 and 2^64, far from
    overflow and from the subnormal numbers.  The last part bounds the error of a
    rounding, and names results that are exact. *)

From S2P Require Import Prelude.
From Stdlib Require Export QArith Qround.
From Stdlib Require Import Qpower Qabs Lqa.

#[local] Open Scope Q_scope.

Abbreviation float64 := Q (only parsing).

Definition pow2 (k : Z) : Q := Qpower (2 # 1) k.

(** Nearest integer, ties to even. *)
Definition rne (x : Q) : Z :=
  let f := Qfloor x in
  let r := x - inject_Z f in
  match Qcompare r (1 # 2) with
  | Lt => f
  | Gt => (f + 1)%Z
  | Eq => if Z.even f then f else (f + 1)%Z
  end.

(** [2^k <= x < 2^(k+1)] for positive [x]. *)
Definition flog2 (x : Q) : Z :=
  let k := (Z.log2 (Qnum x) - Z.log2 (Zpos (Qden x)))%Z in
  if Qle_bool (pow2 k) x then k else (k - 1)%Z.

Definition rnd_pos (x : Q) : Q :=
  let e := (flog2 x - 52)%Z in Qred (inject_Z (rne (x / pow2 e)) * pow2 e).

Definition rnd (x : Q) : Q :=
  match Qcompare x 0 with
  | Eq => 0
  | Gt => rnd_pos x
  | Lt => - rnd_pos (- x)
  end.

Definition of_int (z : Z) : float64 := rnd (inject_Z z).
Definition fadd (a b : float64) : float64 := rnd (a + b).
Definition fsub (a b : float64) : float64 := rnd (a - b).
Definition fmul (a b : float64) : float64 := rnd (a * b).
Definition fdiv (a b : float64) : float64 := rnd (a / b).

Definition fle (a b : float64) : bool := Qle_bool a b.
Definition flt (a b : float64) : bool := negb (Qle_bool b a).

(** Conversion to an integer type truncates toward zero. *)
Definition trunc (x : float64) : Z :=
  if Qle_bool 0 x then Qfloor x else (- Qfloor (- x))%Z.

(** [Duration.Minutes] and [Duration.Seconds]: whole units and the fraction are
    converted separately and added. *)
Definition Minutes (d : Duration) : float64 :=
  fadd (of_int (Z.quot d Minute)) (fdiv (of_int (Z.rem d Minute)) (of_int Minute)).
Definition Seconds (d : Duration) : float64 :=
  fadd (of_int (Z.quot d Second)) (fdiv (of_int (Z.rem d Second)) (of_int Second)).

(** ** Powers of two *)

Lemma pow2_pos k : 0 < pow2 k.
Proof. by apply Qpower_0_lt. Qed.

Lemma pow2_nonzero k : ~ pow2 k == 0.
Proof. pose proof (pow2_pos k). lra. Qed.

Lemma pow2_add a b : pow2 (a + b) == pow2 a * pow2 b.
Proof. apply Qpower_plus. by vm_compute. Qed.

Lemma pow2_Z k : (0 <= k)%Z -> pow2 k == inject_Z (2 ^ k).
Proof. intros. unfold pow2. symmetry. by apply Zpower_Qpower. Qed.

Lemma pow2_le a b : (a <= b)%Z -> pow2 a <= pow2 b.
Proof. intros. apply Qpower_le_compat_l; [done|by vm_compute]. Qed.

Lemma pow2_lt_inv a b : pow2 a < pow2 b -> (a < b)%Z.
Proof. intros H. by apply Qpower_lt_compat_l_inv in H. Qed.

Lemma pow2_sub_div a b : pow2 (a - b) == pow2 a / pow2 b.
Proof.
  apply (Qmult_inj_r _ _ (pow2 b)); [apply pow2_nonzero|].
  rewrite <- pow2_add. rewrite Z.sub_add. field. apply pow2_nonzero.
Qed.

Lemma log2_Q p : pow2 (Z.log2 (Zpos p)) <= inject_Z (Zpos p) < pow2 (Z.log2 (Zpos p) + 1).
Proof.
  pose proof (Z.log2_spec (Zpos p) ltac:(done)) as [H1 H2].
  pose proof (Z.log2_nonneg (Zpos p)).
  rewrite !pow2_Z by lia. rewrite <- Zle_Qle, <- Zlt_Qlt. done.
Qed.

Lemma flog2_spec x : 0 < x -> pow2 (flog2 x) <= x < pow2 (flog2 x + 1).
Proof.
  intros Hx. destruct x as [[|n|n] d]; try (by vm_compute in Hx).
  unfold flog2. simpl Qnum. simpl Qden.
  pose proof (log2_Q n) as [Hn1 Hn2]. pose proof (log2_Q d) as [Hd1 Hd2].
  set (ln := Z.log2 (Zpos n)) in *. set (ld := Z.log2 (Zpos d)) in *.
  set (x := Zpos n # d) in *.
  assert (Hxd : x * inject_Z (Zpos d) == inject_Z (Zpos n)).
  { unfold x, Qeq, inject_Z, Qmult. simpl. lia. }
  pose proof (pow2_pos ld) as Hp. pose proof (pow2_pos (ld + 1)) as Hp'.
  assert (Hup : x < pow2 (ln - ld + 1)).
  { apply (Qmult_lt_r _ _ (pow2 ld)); [done|].
    rewrite <- pow2_add. replace (ln - ld + 1 + ld)%Z with (ln + 1)%Z by lia. nra. }
  assert (Hlo : pow2 (ln - ld - 1) < x).
  { apply (Qmult_lt_r _ _ (pow2 (ld + 1))); [done|].
    rewrite <- pow2_add. replace (ln - ld - 1 + (ld + 1))%Z with ln by lia. nra. }
  destruct (Qle_bool (pow2 (ln - ld)) x) eqn:E.
  - apply Qle_bool_iff in E. done.
  - rewrite Z.sub_add. split; [by apply Qlt_le_weak|].
    apply Qnot_le_lt. intros Hle. apply Qle_bool_iff in Hle. congruence.
Qed.

Lemma flog2_unique x k : pow2 k <= x < pow2 (k + 1) -> flog2 x = k.
Proof.
  intros [H1 H2]. pose proof (pow2_pos k).
  assert (Hx : 0 < x) by lra. destruct (flog2_spec x Hx) as [H3 H4].
  assert (pow2 (flog2 x) < pow2 (k + 1)) as Ha%pow2_lt_inv by lra.
  assert (pow2 k < pow2 (flog2 x + 1)) as Hb%pow2_lt_inv by lra. lia.
Qed.

Lemma flog2_mono x y : 0 < x -> x <= y -> (flog2 x <= flog2 y)%Z.
Proof.
  intros Hx Hy. destruct (flog2_spec x Hx) as [H1 _].
  destruct (flog2_spec y ltac:(lra)) as [_ H2].
  assert (pow2 (flog2 x) < pow2 (flog2 y + 1)) as Ha%pow2_lt_inv by lra. lia.
Qed.

(** ** Rounding to an integer *)

#[global] Instance rne_proper : Proper (Qeq ==> eq) rne.
Proof.
  intros x y Hxy. unfold rne. rewrite (Qfloor_comp _ _ Hxy).
  assert (H : Qcompare (x - inject_Z (Qfloor y)) (1 # 2) = Qcompare (y - inject_Z (Qfloor y)) (1 # 2)).
  { apply Qcompare_comp; [rewrite Hxy|]; reflexivity. }
  by rewrite H.
Qed.

Lemma rne_Z z : rne (inject_Z z) = z.
Proof.
  unfold rne. rewrite Qfloor_Z.
  assert (Hc : Qcompare (inject_Z z - inject_Z z) (1 # 2) = Lt) by (rewrite <- Qlt_alt; lra).
  by rewrite Hc.
Qed.

Lemma rne_floor x : rne x = Qfloor x \/ rne x = (Qfloor x + 1)%Z.
Proof. unfold rne. destruct (Qcompare _ _); [destruct (Z.even _)|..]; auto. Qed.

Lemma rne_mono x y : x <= y -> (rne x <= rne y)%Z.
Proof.
  intros Hxy. pose proof (Qfloor_resp_le _ _ Hxy) as Hf.
  destruct (Z.eq_dec (Qfloor x) (Qfloor y)) as [He|Hne].
  2: { destruct (rne_floor x), (rne_floor y); lia. }
  unfold rne. rewrite He.
  assert (Hr : x - inject_Z (Qfloor y) <= y - inject_Z (Qfloor y)) by lra.
  destruct (Qcompare_spec (x - inject_Z (Qfloor y)) (1 # 2)),
    (Qcompare_spec (y - inject_Z (Qfloor y)) (1 # 2)); try destruct (Z.even _); lia || (exfalso; lra).
Qed.

(** ** Rounding to 53 bits *)

(** The scaled significand of a positive number lies in [2^52, 2^53). *)
Lemma scaled_bounds x : 0 < x ->
  inject_Z (2 ^ 52) <= x / pow2 (flog2 x - 52) < inject_Z (2 ^ 53).
Proof.
  intros Hx. destruct (flog2_spec x Hx) as [H1 H2]. rewrite <- !pow2_Z by lia.
  pose proof (pow2_pos (flog2 x - 52)) as Hp.
  assert (Hd : x / pow2 (flog2 x - 52) * pow2 (flog2 x - 52) == x).
  { field. apply pow2_nonzero. }
  split.
  - apply (Qmult_le_r _ _ (pow2 (flog2 x - 52))); [done|]. rewrite Hd, <- pow2_add.
    by replace (52 + (flog2 x - 52))%Z with (flog2 x) by lia.
  - apply (Qmult_lt_r _ _ (pow2 (flog2 x - 52))); [done|]. rewrite Hd, <- pow2_add.
    by replace (53 + (flog2 x - 52))%Z with (flog2 x + 1)%Z by lia.
Qed.

Lemma rnd_pos_eq x : rnd_pos x == inject_Z (rne (x / pow2 (flog2 x - 52))) * pow2 (flog2 x - 52).
Proof. unfold rnd_pos. apply Qred_correct. Qed.

Lemma rnd_pos_bounds x : 0 < x -> pow2 (flog2 x) <= rnd_pos x <= pow2 (flog2 x + 1).
Proof.
  intros Hx. destruct (scaled_bounds x Hx) as [H1 H2]. rewrite rnd_pos_eq.
  pose proof (pow2_pos (flog2 x - 52)) as Hp.
  apply rne_mono in H1. rewrite rne_Z in H1. apply Qlt_le_weak, rne_mono in H2. rewrite rne_Z in H2.
  split.
  - replace (flog2 x) with (52 + (flog2 x - 52))%Z at 1 by lia.
    rewrite pow2_add, (pow2_Z 52) by lia. apply Qmult_le_r; [done|]. by rewrite <- Zle_Qle.
  - replace (flog2 x + 1)%Z with (53 + (flog2 x - 52))%Z by lia.
    rewrite pow2_add, (pow2_Z 53) by lia. apply Qmult_le_r; [done|]. by rewrite <- Zle_Qle.
Qed.

Lemma rnd_pos_mono x y : 0 < x -> x <= y -> rnd_pos x <= rnd_pos y.
Proof.
  intros Hx Hy. pose proof (flog2_mono x y Hx Hy) as Hl.
  destruct (Z.eq_dec (flog2 x) (flog2 y)) as [He|Hne].
  - rewrite !rnd_pos_eq, He. apply Qmult_le_r; [apply pow2_pos|]. rewrite <- Zle_Qle.
    apply rne_mono. unfold Qdiv. apply Qmult_le_r; [|done]. apply Qinv_lt_0_compat, pow2_pos.
  - apply Qle_trans with (pow2 (flog2 x + 1)); [by apply rnd_pos_bounds|].
    apply Qle_trans with (pow2 (flog2 y)); [apply pow2_le; lia|]. apply rnd_pos_bounds. lra.
Qed.

Lemma rnd_pos_pos x : 0 < x -> 0 < rnd_pos x.
Proof. intros Hx. pose proof (rnd_pos_bounds x Hx). pose proof (pow2_pos (flog2 x)). lra. Qed.

(** Rounding preserves order. *)
Lemma rnd_mono x y : x <= y -> rnd x <= rnd y.
Proof.
  intros H. unfold rnd.
  destruct (Qcompare_spec x 0) as [Hx|Hx|Hx], (Qcompare_spec y 0) as [Hy|Hy|Hy]; try lra.
  - apply Qlt_le_weak. by apply rnd_pos_pos.
  - pose proof (rnd_pos_pos (- x)). lra.
  - apply Qopp_le_compat, rnd_pos_mono; lra.
  - pose proof (rnd_pos_pos (- x)). pose proof (rnd_pos_pos y). lra.
  - by apply rnd_pos_mono.
Qed.

#[global] Instance rnd_proper : Proper (Qeq ==> Qeq) rnd.
Proof. intros x y H. apply Qle_antisym; apply rnd_mono; lra. Qed.

Lemma rnd_0 : rnd 0 = 0.
Proof. reflexivity. Qed.

(** A number with at most 53 significant bits is not changed by rounding. *)
Lemma rnd_exact_pos m e : (0 < m < 2 ^ 53)%Z -> rnd (inject_Z m * pow2 e) == inject_Z m * pow2 e.
Proof.
  intros Hm. pose proof (pow2_pos e) as He.
  assert (Hx : 0 < inject_Z m * pow2 e).
  { apply Qmult_lt_0_compat; [|done]. change 0 with (inject_Z 0). rewrite <- Zlt_Qlt. lia. }
  set (x := inject_Z m * pow2 e) in *.
  unfold rnd. destruct (Qcompare_spec x 0); try lra. rewrite rnd_pos_eq.
  destruct m as [|p|p]; try lia.
  assert (Hl : flog2 x = (Z.log2 (Zpos p) + e)%Z).
  { apply flog2_unique. destruct (log2_Q p) as [H1 H2]. unfold x.
    replace (Z.log2 (Zpos p) + e + 1)%Z with (Z.log2 (Zpos p) + 1 + e)%Z by lia.
    rewrite (pow2_add (Z.log2 (Zpos p)) e), (pow2_add (Z.log2 (Zpos p) + 1) e).
    split; [by apply Qmult_le_r|by apply Qmult_lt_r]. }
  assert (Hlog : (Z.log2 (Zpos p) <= 52)%Z).
  { apply Z.lt_succ_r. apply Z.log2_lt_pow2; [lia|]. lia. }
  set (k := (52 - Z.log2 (Zpos p))%Z).
  assert (Hs : x / pow2 (flog2 x - 52) == inject_Z (Zpos p * 2 ^ k)).
  { rewrite Hl, inject_Z_mult, <- pow2_Z by lia. unfold x.
    replace (Z.log2 (Zpos p) + e - 52)%Z with (e - k)%Z by lia. rewrite pow2_sub_div.
    field; repeat split; apply pow2_nonzero. }
  rewrite Hs, rne_Z, <- Hs. field. apply pow2_nonzero.
Qed.

Lemma of_int_exact z : (0 <= z < 2 ^ 53)%Z -> of_int z == inject_Z z.
Proof.
  intros Hz. unfold of_int. destruct (Z.eq_dec z 0) as [->|]; [reflexivity|].
  rewrite <- (Qmult_1_r (inject_Z z)) at 1. change 1 with (pow2 0).
  rewrite rnd_exact_pos by lia. change (pow2 0) with 1. ring.
Qed.

Lemma fle_spec a b : fle a b = true <-> a <= b.
Proof. apply Qle_bool_iff. Qed.

Lemma flt_spec a b : flt a b = true <-> a < b.
Proof.
  unfold flt. rewrite negb_true_iff. split.
  - intros H. apply Qnot_le_lt. intros Hle. apply Qle_bool_iff in Hle. congruence.
  - intros H. destruct (Qle_bool b a) eqn:E; [|done]. apply Qle_bool_iff in E. lra.
Qed.

#[global] Instance trunc_proper : Proper (Qeq ==> eq) trunc.
Proof.
  intros x y H. unfold trunc. rewrite (Qleb_comp 0 0 (Qeq_refl 0) x y H).
  destruct (Qle_bool 0 y); [by apply Qfloor_comp|]. f_equal. apply Qfloor_comp. by rewrite H.
Qed.

(** ** Whole minutes of a duration

    [int(d.Minutes())] is the floor of the duration in minutes up to 2^16 minutes
    (45 days); beyond that the sum may round up to the next minute. *)

Lemma rnd_Z z : (0 <= z < 2 ^ 53)%Z -> rnd (inject_Z z) == inject_Z z.
Proof. apply of_int_exact. Qed.

Section minutes.
Context (d : Duration) (Hd : (0 <= d <= maxDuration)%Z).
Let m := (d / Minute)%Z.
Let r := (d mod Minute)%Z.
Let q := fdiv (of_int r) (of_int Minute).

Lemma minutes_parts : (0 <= m < 2 ^ 28)%Z /\ (0 <= r < Minute)%Z /\ d = (m * Minute + r)%Z.
Proof using Hd.
  unfold maxDuration in Hd. unfold m, r, Minute, Second in *. clear m r q.
  change (2 ^ 63 - 1)%Z with 9223372036854775807%Z in Hd.
  Z.to_euclidean_division_equations. lia.
Qed.

Lemma minutes_unfold : Minutes d == rnd (inject_Z m + q).
Proof using Hd.
  destruct minutes_parts as (Hm & Hr & He). unfold Minutes, fadd.
  assert (Z.quot d Minute = m) as -> by (apply Z.quot_div_nonneg; unfold Minute, Second; lia).
  assert (Z.rem d Minute = r) as -> by (apply Z.rem_mod_nonneg; unfold Minute, Second; lia).
  rewrite (of_int_exact m) by lia. reflexivity.
Qed.

Lemma fraction_eq : inject_Z r / inject_Z Minute == (r # 60000000000).
Proof. unfold Qeq, Qdiv, Qmult, Qinv, inject_Z. simpl. lia. Qed.

Lemma fraction_bounds : 0 <= q <= 1 - pow2 (-36).
Proof using Hd.
  destruct minutes_parts as (Hm & Hr & He). unfold q, fdiv.
  rewrite !of_int_exact by (unfold Minute, Second in *; lia). rewrite fraction_eq.
  split.
  - change 0 with (rnd 0). apply rnd_mono. unfold Qle. simpl. lia.
  - assert (Hx : 1 - pow2 (-36) == inject_Z (2 ^ 36 - 1) * pow2 (-36)) by (vm_compute; reflexivity).
    rewrite Hx, <- (rnd_exact_pos (2 ^ 36 - 1) (-36)) by lia. apply rnd_mono.
    rewrite <- Hx. unfold Minute, Second in Hr. unfold Qle. simpl. lia.
Qed.

Lemma minutes_range : inject_Z m <= Minutes d <= inject_Z (m + 1).
Proof using Hd.
  destruct minutes_parts as (Hm & Hr & He). destruct fraction_bounds as [Hq1 Hq2].
  rewrite minutes_unfold. pose proof (pow2_pos (-36)) as Hp.
  rewrite <- (rnd_Z m) at 1 by lia. rewrite <- (rnd_Z (m + 1)) by lia.
  rewrite inject_Z_plus. change (inject_Z 1) with 1. split; apply rnd_mono; lra.
Qed.

Lemma minutes_below : (m + 1 <= 2 ^ 16)%Z -> Minutes d < inject_Z (m + 1).
Proof using Hd.
  intros Hs. destruct minutes_parts as (Hm & Hr & He). destruct fraction_bounds as [Hq1 Hq2].
  rewrite minutes_unfold. pose proof (pow2_pos (-36)) as Hp.
  assert (Hx : inject_Z m + (1 - pow2 (-36)) == inject_Z (m * 2 ^ 36 + (2 ^ 36 - 1)) * pow2 (-36)).
  { rewrite inject_Z_plus, inject_Z_mult. change (pow2 (-36)) with (1 # 68719476736).
    change (inject_Z (2 ^ 36)) with (68719476736 # 1). change (inject_Z (2 ^ 36 - 1)) with (68719476735 # 1). ring. }
  apply Qle_lt_trans with (inject_Z m + (1 - pow2 (-36))).
  - rewrite Hx, <- rnd_exact_pos by lia. rewrite <- Hx. apply rnd_mono. lra.
  - rewrite inject_Z_plus. change (inject_Z 1) with 1. lra.
Qed.

Lemma trunc_Minutes_le thr :
  (0 <= thr <= 2 ^ 16)%Z -> (thr <= trunc (Minutes d))%Z <-> (thr * Minute <= d)%Z.
Proof using Hd.
  intros Ht. destruct minutes_parts as (Hm & Hr & He). destruct minutes_range as [Hlo Hhi].
  unfold trunc. destruct (Qle_bool 0 (Minutes d)) eqn:Epos.
  2: { exfalso. assert (0 <= Minutes d) as H%Qle_bool_iff; [|congruence].
       apply Qle_trans with (inject_Z m); [|done]. change 0 with (inject_Z 0). rewrite <- Zle_Qle. lia. }
  assert (Hf : (m <= Qfloor (Minutes d))%Z) by (apply Qfloor_resp_le in Hlo; by rewrite Qfloor_Z in Hlo).
  split; [|unfold Minute, Second in *; nia]. intros Hthr.
  destruct (Z.le_gt_cases thr m) as [Hle|Hgt]; [unfold Minute, Second in *; nia|]. exfalso.
  assert (Hb : Minutes d < inject_Z (m + 1)) by (apply minutes_below; lia).
  pose proof (Qfloor_le (Minutes d)) as Hfl.
  assert (H : inject_Z (Qfloor (Minutes d)) < inject_Z (m + 1)) by lra.
  rewrite <- Zlt_Qlt in H. lia.
Qed.
End minutes.

Lemma of_int_nonpos z : (z <= 0)%Z -> of_int z <= 0.
Proof.
  intros Hz. unfold of_int. change 0 with (rnd 0). apply rnd_mono.
  change 0 with (inject_Z 0). by rewrite <- Zle_Qle.
Qed.

Lemma Minutes_nonpos d : (d <= 0)%Z -> Minutes d <= 0.
Proof.
  intros Hd. unfold Minutes, fadd, fdiv. change 0 with (rnd 0). apply rnd_mono.
  assert (Hq : (Z.quot d Minute <= 0)%Z).
  { rewrite <- (Z.opp_involutive d), Z.quot_opp_l by done.
    pose proof (Z.quot_pos (- d) Minute). unfold Minute, Second in *. lia. }
  assert (Hr : (Z.rem d Minute <= 0)%Z).
  { rewrite <- (Z.opp_involutive d), Z.rem_opp_l by done.
    pose proof (Z.rem_nonneg (- d) Minute). unfold Minute, Second in *. lia. }
  apply of_int_nonpos in Hq. apply of_int_nonpos in Hr.
  assert (Hd0 : rnd (of_int (Z.rem d Minute) / of_int Minute) <= 0).
  { change 0 with (rnd 0). apply rnd_mono. apply Qle_shift_div_r; [vm_compute; reflexivity|]. lra. }
  lra.
Qed.

Lemma trunc_nonpos x : x <= 0 -> (trunc x <= 0)%Z.
Proof.
  intros Hx. unfold trunc. destruct (Qle_bool 0 x) eqn:E.
  - apply Qle_bool_iff in E. assert (x == 0) as -> by lra. done.
  - assert (0 <= - x) as H%Qfloor_resp_le by lra. change (Qfloor 0) with 0%Z in H. lia.
Qed.

(** The same comparison for any pair of instants: neither the saturation of [Sub]
    nor the rounding of [Minutes] is visible at a threshold of up to 2^16 minutes. *)
Lemma idle_minutes_le now t thr :
  (1 <= thr <= 2 ^ 16)%Z -> (thr <= trunc (Minutes (Sub now t)))%Z <-> (thr * Minute <= now - t)%Z.
Proof.
  intros Ht.
  assert (Hs : (thr * Minute <= Sub now t <-> thr * Minute <= now - t)%Z).
  { unfold Sub, clamp, minDuration, maxDuration, Minute, Second. simpl. lia. }
  assert (Hr : (minDuration <= Sub now t <= maxDuration)%Z).
  { unfold Sub, clamp, minDuration, maxDuration. lia. }
  destruct (Z.le_gt_cases 0 (Sub now t)) as [Hpos|Hneg].
  - rewrite trunc_Minutes_le; [done|lia|lia].
  - pose proof (trunc_nonpos _ (Minutes_nonpos (Sub now t) ltac:(lia))).
    unfold Minute, Second in *. lia.
Qed.

(** A number of the form a finite float64 has. *)
Definition representable (x : Q) : Prop := rnd x == x.

#[global] Instance representable_proper : Proper (Qeq ==> iff) representable.
Proof. intros x y H. unfold representable. by rewrite H. Qed.

#[global] Instance flt_proper : Proper (Qeq ==> Qeq ==> eq) flt.
Proof. intros x y H u v H'. unfold flt. by rewrite (Qleb_comp _ _ H' _ _ H). Qed.

#[global] Instance fadd_proper : Proper (Qeq ==> Qeq ==> Qeq) fadd.
Proof. intros x y H u v H'. unfold fadd. by rewrite H, H'. Qed.

#[global] Instance fsub_proper : Proper (Qeq ==> Qeq ==> Qeq) fsub.
Proof. intros x y H u v H'. unfold fsub. by rewrite H, H'. Qed.

Lemma rne_upper y : inject_Z (rne y) <= y + (1 # 2).
Proof.
  unfold rne. pose proof (Qfloor_le y) as Hf.
  assert (Hr : y == inject_Z (Qfloor y) + (y - inject_Z (Qfloor y))) by ring.
  destruct (Qcompare_spec (y - inject_Z (Qfloor y)) (1 # 2)) as [Hc|Hc|Hc].
  - destruct (Z.even (Qfloor y)); [|rewrite inject_Z_plus; change (inject_Z 1) with 1]; lra.
  - lra.
  - rewrite inject_Z_plus. change (inject_Z 1) with 1. lra.
Qed.

(** One rounding adds at most a 2^-53 part of the value. *)
Lemma rnd_upper x : 0 <= x -> rnd x <= x * (1 + pow2 (-53)).
Proof.
  intros Hx. unfold rnd. destruct (Qcompare_spec x 0) as [H0|H0|H0]; [rewrite H0; lra|lra|].
  rewrite rnd_pos_eq. destruct (flog2_spec x H0) as [Hlo _].
  pose proof (rne_upper (x / pow2 (flog2 x - 52))) as Hr.
  pose proof (pow2_pos (flog2 x - 52)) as Hp.
  assert (Hmul : inject_Z (rne (x / pow2 (flog2 x - 52))) * pow2 (flog2 x - 52)
                 <= (x / pow2 (flog2 x - 52) + (1 # 2)) * pow2 (flog2 x - 52)).
  { apply Qmult_le_compat_r; [done|lra]. }
  assert (Hd : x / pow2 (flog2 x - 52) * pow2 (flog2 x - 52) == x) by (field; apply pow2_nonzero).
  assert (Hh : (1 # 2) * pow2 (flog2 x - 52) == pow2 (flog2 x) * pow2 (-53)).
  { rewrite <- pow2_add. change (1 # 2) with (pow2 (-1)). rewrite <- pow2_add.
    by replace (-1 + (flog2 x - 52))%Z with (flog2 x + -53)%Z by lia. }
  assert (He : pow2 (flog2 x) * pow2 (-53) <= x * pow2 (-53)).
  { apply Qmult_le_compat_r; [done|]. pose proof (pow2_pos (-53)). lra. }
  lra.
Qed.

(** The 53-bit form of a positive representable number. *)
Lemma rnd_form x : 0 < x -> exists m, (2 ^ 52 <= m <= 2 ^ 53)%Z /\ rnd x == inject_Z m * pow2 (flog2 x - 52).
Proof.
  intros Hx. exists (rne (x / pow2 (flog2 x - 52))). split.
  - destruct (scaled_bounds x Hx) as [H1 H2]. split.
    + rewrite <- (rne_Z (2 ^ 52)). by apply rne_mono.
    + rewrite <- (rne_Z (2 ^ 53)). apply rne_mono. lra.
  - unfold rnd. destruct (Qcompare_spec x 0); try lra. apply rnd_pos_eq.
Qed.

Lemma mantissa_exact m e : (0 <= m <= 2 ^ 53)%Z -> representable (inject_Z m * pow2 e).
Proof.
  intros Hm. unfold representable. destruct (Z.eq_dec m 0) as [->|].
  { assert (inject_Z 0 * pow2 e == 0) as -> by (change (inject_Z 0) with 0; ring). reflexivity. }
  destruct (Z.eq_dec m (2 ^ 53)) as [->|]; [|apply rnd_exact_pos; lia].
  assert (inject_Z (2 ^ 53) * pow2 e == inject_Z 1 * pow2 (53 + e)) as ->.
  { rewrite <- pow2_Z, pow2_add by lia. change (inject_Z 1) with 1. ring. }
  apply rnd_exact_pos. lia.
Qed.

Lemma rnd_representable x : 0 <= x -> representable (rnd x).
Proof.
  intros Hx. destruct (Qlt_le_dec 0 x) as [H|H].
  - destruct (rnd_form x H) as (m & Hm & ->). apply mantissa_exact. lia.
  - assert (x == 0) as -> by lra. reflexivity.
Qed.

Lemma representable_Z z : (0 <= z < 2 ^ 53)%Z -> representable (inject_Z z).
Proof. apply rnd_Z. Qed.

(** Subtraction of one is exact between 1 and 2^52. *)
Lemma fsub_one x : representable x -> 1 <= x -> x < inject_Z (2 ^ 52) ->
  fsub x 1 == x - 1 /\ representable (x - 1).
Proof.
  intros Hr H1 H2. destruct (rnd_form x ltac:(lra)) as (m & Hm & Hf).
  assert (Hx : x == inject_Z m * pow2 (flog2 x - 52)) by (by rewrite <- Hf).
  set (e := (flog2 x - 52)%Z) in *.
  destruct (flog2_spec x ltac:(lra)) as [Hl Hu].
  assert (He : (0 <= flog2 x < 52)%Z).
  { split.
    - assert (pow2 0 < pow2 (flog2 x + 1)) as H%pow2_lt_inv by (change (pow2 0) with 1; lra). lia.
    - apply pow2_lt_inv. rewrite (pow2_Z 52) by lia. lra. }
  assert (Hsub : x - 1 == inject_Z (m - 2 ^ (- e)) * pow2 e).
  { rewrite Hx at 1. unfold Z.sub. rewrite inject_Z_plus, inject_Z_opp, <- pow2_Z by (unfold e; lia).
    assert (pow2 (- e) * pow2 e == 1) as Hone.
    { rewrite <- pow2_add. by rewrite Z.add_opp_diag_l. }
    rewrite <- Hone. ring. }
  assert (Hm' : (0 <= m - 2 ^ (- e) <= 2 ^ 53)%Z).
  { assert ((0 < 2 ^ (- e) <= 2 ^ 52)%Z) by (split; [apply Z.pow_pos_nonneg; unfold e; lia|apply Z.pow_le_mono_r; unfold e; lia]). lia. }
  pose proof (mantissa_exact _ e Hm') as Hrep. rewrite <- Hsub in Hrep.
  split; [exact Hrep|exact Hrep].
Qed.

(** ** Minutes *)

Lemma eps_small : pow2 (-53) <= 1 # 1000000000000000.
Proof. by vm_compute. Qed.

(** The float64 minutes of a duration exceed the real number of minutes by at
    most three parts in 10^15. *)
Lemma Minutes_upper d : (0 <= d <= maxDuration)%Z ->
  Minutes d <= (d # 60000000000) * (1 + (3 # 1000000000000000)).
Proof.
  intros Hd. destruct (minutes_parts d Hd) as (Hm & Hr & He).
  rewrite (minutes_unfold d Hd). pose proof (fraction_bounds d Hd) as [Hq1 _].
  pose proof eps_small as He1. pose proof (pow2_pos (-53)) as He0.
  assert (Hm0 : 0 <= inject_Z (d / Minute)).
  { change 0 with (inject_Z 0). rewrite <- Zle_Qle. lia. }
  assert (Hq : fdiv (of_int (d mod Minute)) (of_int Minute) <= (d mod Minute # 60000000000) * (1 + pow2 (-53))).
  { unfold fdiv. rewrite !of_int_exact by (unfold Minute, Second in *; lia).
    rewrite fraction_eq. apply rnd_upper. unfold Qle. simpl. unfold Minute, Second in *. lia. }
  assert (Hd' : (d # 60000000000) == inject_Z (d / Minute) + (d mod Minute # 60000000000)).
  { unfold Qeq, Qplus, inject_Z. simpl. unfold Minute, Second in *. lia. }
  assert (Hf : 0 <= (d mod Minute # 60000000000)) by (unfold Qle; simpl; unfold Minute, Second in *; lia).
  pose proof (rnd_upper (inject_Z (d / Minute) + fdiv (of_int (d mod Minute)) (of_int Minute)) ltac:(lra)) as Hu.
  rewrite Hd'. set (a := inject_Z (d / Minute)) in *. set (f := (d mod Minute # 60000000000)) in *.
  set (e := pow2 (-53)) in *. eapply Qle_trans; [exact Hu|].
  assert (Ha : 0 <= a * e) by (apply Qmult_le_0_compat; lra).
  apply Qle_trans with ((a + f) * (1 + e) * (1 + e)).
  { apply Qmult_le_compat_r; lra. }
  assert (Hsq : (1 + e) * (1 + e) <= 1 + (3 # 1000000000000000)).
  { assert (e * e <= (1 # 1000000000000000) * e) by (apply Qmult_le_compat_r; lra). lra. }
  rewrite <- Qmult_assoc, !(Qmult_comm (a + f)). apply Qmult_le_compat_r; [done|lra].
Qed.
