(* ===== verification/SafeCast.v ===== *)
(** * internal/safecast: saturating integer conversions

    Every converter is written as the source writes it, bounds test first and
    then Go's wrapping conversion; [saturates] is the reference meaning, and
    the theorem says that each converter agrees with it on every value of its
    source type. *)

From S2P Require Import Prelude.

Definition MaxInt16 : Z := 32767.
Definition MinInt16 : Z := -32768.
Definition MaxInt32 : Z := 2147483647.
Definition MinInt32 : Z := -2147483648.
Definition MaxInt64 : Z := 9223372036854775807.
Definition MaxUint8 : Z := 255.
Definition MaxUint16 : Z := 65535.
Definition MaxUint32 : Z := 4294967295.

Definition I32 (v : Z) : Z :=
  if MaxInt32 <? v then MaxInt32
  else if v <? MinInt32 then MinInt32
  else wrap i32 v.

Definition I64FromU64 (v : Z) : Z :=
  if MaxInt64 <? v then MaxInt64 else wrap i64 v.

Definition U32 (v : Z) : Z :=
  if v <? 0 then 0
  else if MaxUint32 <? wrap u64 v then MaxUint32
  else wrap u32 v.

Definition I16 (v : Z) : Z :=
  if MaxInt16 <? v then MaxInt16
  else if v <? MinInt16 then MinInt16
  else wrap i16 v.

Definition I32FromU32 (v : Z) : Z :=
  if MaxInt32 <? v then MaxInt32 else wrap i32 v.

Definition U32FromUint (v : Z) : Z :=
  if MaxUint32 <? v then MaxUint32 else wrap u32 v.

Definition U16FromUint (v : Z) : Z :=
  if MaxUint16 <? v then MaxUint16 else wrap u16 v.

Definition U64FromI64 (v : Z) : Z :=
  if v <? 0 then 0 else wrap u64 v.

Definition U8 (v : Z) : Z :=
  if v <? 0 then 0
  else if MaxUint8 <? v then MaxUint8
  else wrap u8 v.

(** [f] converts values of [src] into [dst], yielding the nearest value of [dst]. *)
Definition saturates (src dst : int_type) (f : Z -> Z) : Prop :=
  forall v, in_type src v -> f v = clamp (it_min dst) (it_max dst) v.

(** The converters with their widest source type and their destination. *)
Definition converters : list (int_type * int_type * (Z -> Z)) :=
  [ (i64, i32, I32); (u64, i64, I64FromU64); (i64, u32, U32); (i64, i16, I16);
    (u32, i32, I32FromU32); (u64, u32, U32FromUint); (u64, u16, U16FromUint);
    (i64, u64, U64FromI64); (i64, u8, U8) ].

(** Decide the comparisons of a converter and use [wrap] as the identity where
    the value is known to fit. *)
Ltac saturate :=
  intros v Hv; unfold in_type, it_min, it_max in Hv; simpl in Hv;
  repeat match goal with |- context [if ?a <? ?b then _ else _] => destruct (Z.ltb_spec a b) end;
  rewrite ?wrap_in_type_id in * by type_bounds;
  unfold clamp, it_min, it_max; simpl; lia.

Lemma I32_sat : saturates i64 i32 I32.
Proof. unfold I32, MaxInt32, MinInt32. saturate. Qed.
Lemma I64FromU64_sat : saturates u64 i64 I64FromU64.
Proof. unfold I64FromU64, MaxInt64. saturate. Qed.
Lemma U32_sat : saturates i64 u32 U32.
Proof.
  intros v Hv. unfold U32. destruct (Z.ltb_spec v 0).
  - unfold clamp, it_min, it_max in *; simpl; lia.
  - rewrite (wrap_in_type_id u64); unfold MaxUint32.
    + destruct (Z.ltb_spec 4294967295 v);
        rewrite ?wrap_in_type_id by type_bounds;
        unfold clamp, it_min, it_max in *; simpl in *; lia.
    + done.
    + type_bounds.
Qed.
Lemma I16_sat : saturates i64 i16 I16.
Proof. unfold I16, MaxInt16, MinInt16. saturate. Qed.
Lemma I32FromU32_sat : saturates u32 i32 I32FromU32.
Proof. unfold I32FromU32, MaxInt32. saturate. Qed.
Lemma U32FromUint_sat : saturates u64 u32 U32FromUint.
Proof. unfold U32FromUint, MaxUint32. saturate. Qed.
Lemma U16FromUint_sat : saturates u64 u16 U16FromUint.
Proof. unfold U16FromUint, MaxUint16. saturate. Qed.
Lemma U64FromI64_sat : saturates i64 u64 U64FromI64.
Proof. unfold U64FromI64. saturate. Qed.
Lemma U8_sat : saturates i64 u8 U8.
Proof. unfold U8, MaxUint8. saturate. Qed.

Create HintDb safecast.
#[export] Hint Resolve I32_sat I64FromU64_sat U32_sat I16_sat I32FromU32_sat U32FromUint_sat
  U16FromUint_sat U64FromI64_sat U8_sat : safecast.

(** Every converter of the package saturates.  For each of them and every value
    [v] of its source type the result is a value of the destination type and is the
    destination value nearest to [v]; no conversion ever wraps. *)
Theorem converters_saturate src dst f v :
  In (src, dst, f) converters -> in_type src v ->
  in_type dst (f v) /\ f v = clamp (it_min dst) (it_max dst) v.
Proof.
  intros Hin Hv.
  assert (Hs : saturates src dst f).
  { unfold converters in Hin. simpl in Hin. intuition (simplify_eq; auto with safecast). }
  rewrite (Hs v Hv). split; [|done].
  unfold converters in Hin. simpl in Hin.
  intuition (simplify_eq; unfold in_type, it_min, it_max, clamp; simpl; lia).
Qed.

Lemma converters_saturate_witness :
  in_type i32 (I32 (2 ^ 40)) /\ I32 (2 ^ 40) = 2 ^ 31 - 1.
Proof.
  destruct (converters_saturate i64 i32 I32 (2 ^ 40)) as [H1 H2].
  - simpl. auto.
  - vm_compute. split; discriminate.
  - split; [exact H1|]. rewrite H2. reflexivity.
Defined.
