(* ===== verification/Ipam.v ===== *)
(** * internal/sandbox/ipam: static address allocation for pool members

    [Allocator] is the struct of the same name: the inclusive range, the
    quarantine, the set of held addresses, the release times of addresses that
    were given back, and the round-robin cursor.  [time.Now()] is the argument
    [now] of the operations that read the clock; the mutex makes each operation
    one atomic step. *)

From S2P Require Import Prelude GoStrings GoNet.

(** ** Byte order: encoding/binary's BigEndian *)

Definition Uint32 (b : list Z) : Z :=
  match b with
  | [b0; b1; b2; b3] => Z.lor (Z.lor (Z.lor b3 (Z.shiftl b2 8)) (Z.shiftl b1 16)) (Z.shiftl b0 24)
  | _ => 0
  end.

Definition PutUint32 (v : Z) : list Z :=
  [wrap u8 (Z.shiftr v 24); wrap u8 (Z.shiftr v 16); wrap u8 (Z.shiftr v 8); wrap u8 v].

(** ** Data *)

Record Allocator := mkAllocator {
  a_start : Z;
  a_end : Z;
  a_quarantine : Duration;
  a_allocated : gset Z;
  a_released : gmap Z Time;
  a_cursor : Z;
}.

Inductive parse_error := InvalidIP (s : string) | NotIPv4 (s : string).

Inductive new_error :=
| StartInvalid (e : parse_error)
| EndInvalid (e : parse_error)
| StartAfterEnd
| HostInvalid (e : parse_error)
| OverlapsHost
| NegativeQuarantine.

Inductive release_error := InvalidIPv4Address | ErrNotAllocated.

(** ** Operations *)

Definition parseIPv4 (s : string) : Z + parse_error :=
  match ParseIP s with
  | None => inr (InvalidIP s)
  | Some ip => match To4 ip with
               | None => inr (NotIPv4 s)
               | Some v4 => inl (Uint32 v4)
               end
  end.

Definition ipToUint32 (ip : IP) : option Z := Uint32 <$> To4 ip.

Definition ipFromUint32 (v : Z) : IP := PutUint32 v.

Definition New (startIP endIP hostIP : string) (quarantine : Duration) : Allocator + new_error :=
  match parseIPv4 startIP with
  | inr e => inr (StartInvalid e)
  | inl start =>
  match parseIPv4 endIP with
  | inr e => inr (EndInvalid e)
  | inl end_ =>
  if end_ <? start then inr StartAfterEnd
  else
  match parseIPv4 hostIP with
  | inr e => inr (HostInvalid e)
  | inl host =>
  if (start <=? host) && (host <=? end_) then inr OverlapsHost
  else if quarantine <? 0 then inr NegativeQuarantine
  else inl {| a_start := start; a_end := end_; a_quarantine := quarantine;
              a_allocated := ∅; a_released := ∅; a_cursor := start |}
  end end end.

Definition isFreeLocked (a : Allocator) (ip : Z) (now : Time) : bool :=
  if bool_decide (ip ∈ a_allocated a) then false
  else match a_released a !! ip with
       | Some releasedAt => if Sub now releasedAt <? a_quarantine a then false else true
       | None => true
       end.

(** uint32 arithmetic throughout: [end - start + 1] and the candidate wrap. *)
Definition total (a : Allocator) : Z := wrap u32 (wrap u32 (a_end a - a_start a) + 1).

Definition candidate (a : Allocator) (i : Z) : Z :=
  wrap u32 (a_start a + (wrap u32 (wrap u32 (a_cursor a - a_start a) + i)) mod total a).

(** The loop of [Allocate], [n] iterations from index [i]. *)
Fixpoint scan (a : Allocator) (now : Time) (n : nat) (i : Z) : option Z :=
  match n with
  | O => None
  | S n' => if isFreeLocked a (candidate a i) now then Some (candidate a i)
            else scan a now n' (i + 1)
  end.

Definition claim (a : Allocator) (c : Z) : Allocator :=
  {| a_start := a_start a; a_end := a_end a; a_quarantine := a_quarantine a;
     a_allocated := {[c]} ∪ a_allocated a;
     a_released := delete c (a_released a);
     a_cursor := wrap u32 (c + 1) |}.

(** [None] is ErrExhausted. *)
Definition Allocate (now : Time) (a : Allocator) : option IP * Allocator :=
  match scan a now (Z.to_nat (total a)) 0 with
  | Some c => (Some (ipFromUint32 c), claim a c)
  | None => (None, a)
  end.

Definition Release (now : Time) (ip : IP) (a : Allocator) : option release_error * Allocator :=
  match ipToUint32 ip with
  | None => (Some InvalidIPv4Address, a)
  | Some v =>
      if bool_decide (v ∈ a_allocated a)
      then (None, {| a_start := a_start a; a_end := a_end a; a_quarantine := a_quarantine a;
                     a_allocated := a_allocated a ∖ {[v]};
                     a_released := <[v := now]> (a_released a);
                     a_cursor := a_cursor a |})
      else (Some ErrNotAllocated, a)
  end.

(** ** Invariant *)

Definition in_range (a : Allocator) (v : Z) : Prop := a_start a <= v <= a_end a.

(** What every reachable allocator satisfies.  The range is never the whole of
    uint32 (it leaves out the host's address), so [total] does not wrap to 0. *)
Record wf (a : Allocator) : Prop := {
  wf_start : 0 <= a_start a;
  wf_order : a_start a <= a_end a;
  wf_end : a_end a < 2 ^ 32;
  wf_total : a_end a - a_start a + 1 < 2 ^ 32;
  wf_cursor : exists c, a_start a <= c <= a_end a + 1 /\ a_cursor a = wrap u32 c;
  wf_allocated : forall v, v ∈ a_allocated a -> in_range a v;
  wf_released : forall v t, a_released a !! v = Some t -> in_range a v /\ v ∉ a_allocated a;
}.

(** ** Lemmas: byte order *)

Lemma wrap_u32_small v : 0 <= v < 2 ^ 32 -> wrap u32 v = v.
Proof. intros. apply wrap_in_type_id; type_bounds. Qed.

Lemma wrap_u32_range v : 0 <= wrap u32 v < 2 ^ 32.
Proof.
  pose proof (wrap_in_type u32 v ltac:(done)) as H.
  unfold in_type, it_min, it_max in H; simpl in *; lia.
Qed.

Lemma lor_shiftl_add x y k : 0 <= k -> 0 <= x < 2 ^ k -> Z.lor x (Z.shiftl y k) = x + y * 2 ^ k.
Proof.
  intros Hk Hx. rewrite Z.shiftl_mul_pow2 by done. symmetry. apply Z.add_nocarry_lor.
  apply Z.bits_inj'. intros n Hn. rewrite Z.land_spec, Z.bits_0.
  destruct (Z.lt_ge_cases n k).
  - rewrite Z.mul_pow2_bits_low by done. by rewrite andb_false_r.
  - destruct (Z.eq_dec x 0) as [->|]; [by rewrite Z.bits_0|].
    rewrite (Z.bits_above_log2 x n); [done|lia|]. apply Z.log2_lt_pow2; [lia|].
    apply Z.lt_le_trans with (2 ^ k); [lia|]. apply Z.pow_le_mono_r; lia.
Qed.

Lemma Uint32_eq b0 b1 b2 b3 : octet b0 -> octet b1 -> octet b2 -> octet b3 ->
  Uint32 [b0; b1; b2; b3] = ((b0 * 256 + b1) * 256 + b2) * 256 + b3.
Proof.
  unfold octet, Uint32. intros. rewrite (lor_shiftl_add b3 b2 8) by (simpl; lia).
  rewrite (lor_shiftl_add _ b1 16) by (simpl; lia).
  rewrite (lor_shiftl_add _ b0 24) by (simpl; lia). lia.
Qed.

Lemma PutUint32_octets v : Forall octet (PutUint32 v).
Proof.
  assert (forall z, octet (wrap u8 z)).
  { intros z. pose proof (wrap_in_type u8 z ltac:(done)). unfold in_type, it_min, it_max, octet in *; simpl in *; lia. }
  unfold PutUint32. eauto using List.Forall_nil, List.Forall_cons.
Qed.

Lemma PutUint32_eq v : 0 <= v ->
  PutUint32 v = [v / 2 ^ 24 mod 256; v / 2 ^ 16 mod 256; v / 2 ^ 8 mod 256; v mod 256].
Proof. intros. unfold PutUint32, wrap; simpl. by rewrite !Z.shiftr_div_pow2 by lia. Qed.

(** Writing an address in network order and reading it back. *)
Lemma Uint32_PutUint32 v : 0 <= v < 2 ^ 32 -> Uint32 (PutUint32 v) = v.
Proof.
  intros Hv. pose proof (PutUint32_octets v) as Ho. rewrite PutUint32_eq in * by lia.
  rewrite !Forall_cons in Ho. destruct Ho as (?&?&?&?&_).
  rewrite Uint32_eq by done.
  change (2 ^ 24) with 16777216. change (2 ^ 16) with 65536. change (2 ^ 8) with 256.
  change (2 ^ 32) with 4294967296 in Hv.
  Z.to_euclidean_division_equations; lia.
Qed.

Lemma ipToUint32_From v : 0 <= v < 2 ^ 32 -> ipToUint32 (ipFromUint32 v) = Some v.
Proof. intros. unfold ipToUint32, ipFromUint32. simpl. f_equal. by apply Uint32_PutUint32. Qed.

(** ** Lemmas: the scan *)

Section scan.
Context (a : Allocator) (Hwf : wf a).

Lemma total_eq : total a = a_end a - a_start a + 1.
Proof using Hwf.
  destruct Hwf. unfold total. rewrite wrap_u32_small by (rewrite ?wrap_u32_small; lia).
  rewrite wrap_u32_small; lia.
Qed.

Lemma offset_bound : 0 <= wrap u32 (a_cursor a - a_start a) <= total a.
Proof using Hwf.
  rewrite total_eq. destruct Hwf as [? ? ? ? (c & Hc & Hcur) _ _].
  rewrite Hcur, <- Z.add_opp_r, wrap_add_l, Z.add_opp_r by done.
  rewrite wrap_u32_small; lia.
Qed.

Lemma candidate_in_range i : in_range a (candidate a i).
Proof using Hwf.
  unfold candidate, in_range. pose proof total_eq as Ht.
  pose proof (Z.mod_pos_bound (wrap u32 (wrap u32 (a_cursor a - a_start a) + i)) (total a)).
  destruct Hwf. rewrite wrap_u32_small; lia.
Qed.

(** With a range of at most 2^31 addresses the uint32 sum does not wrap, and the
    scan visits every address. *)
Lemma candidate_surj v :
  2 * total a <= 2 ^ 32 -> in_range a v -> exists i, 0 <= i < total a /\ candidate a i = v.
Proof using Hwf.
  intros Hsmall Hv. unfold candidate, in_range in *. pose proof offset_bound as Hoff.
  pose proof total_eq as Ht. set (off := wrap u32 (a_cursor a - a_start a)) in *.
  set (n := total a) in *. exists ((v - a_start a - off) mod n).
  pose proof (Z.mod_pos_bound (v - a_start a - off) n). destruct Hwf.
  split; [lia|]. rewrite (wrap_u32_small (off + _)) by lia.
  rewrite Zplus_mod_idemp_r. replace (off + (v - a_start a - off)) with (v - a_start a) by lia.
  rewrite Z.mod_small by lia. rewrite wrap_u32_small; lia.
Qed.

Lemma scan_some now n i c :
  scan a now n i = Some c -> in_range a c /\ isFreeLocked a c now = true.
Proof using Hwf.
  revert i. induction n as [|n IH]; intros i; simpl; [done|].
  destruct (isFreeLocked a (candidate a i) now) eqn:E; [|apply IH].
  intros [= <-]. split; [apply candidate_in_range|done].
Qed.

Lemma scan_none now n i :
  scan a now n i = None -> forall j, i <= j < i + Z.of_nat n -> isFreeLocked a (candidate a j) now = false.
Proof.
  revert i. induction n as [|n IH]; intros i; simpl; [lia|].
  destruct (isFreeLocked a (candidate a i) now) eqn:E; [done|]. intros H j Hj.
  destruct (Z.eq_dec i j) as [->|]; [done|]. apply (IH (i + 1) H). lia.
Qed.
End scan.

Lemma isFreeLocked_true a v now :
  isFreeLocked a v now = true <->
  v ∉ a_allocated a /\ forall t, a_released a !! v = Some t -> a_quarantine a <= Sub now t.
Proof.
  unfold isFreeLocked. case_bool_decide as Hin; [by split; [|intros []]|].
  destruct (a_released a !! v) as [t|]; [|done].
  destruct (Z.ltb_spec (Sub now t) (a_quarantine a)) as [Hlt | Hge].
  - split; [done|]. intros [_ H]. specialize (H t eq_refl). lia.
  - split; [|done]. intros _. split; [done|]. by intros t' [= <-].
Qed.

(** ** Lemmas: the invariant is preserved *)

Lemma claim_wf a c : wf a -> in_range a c -> wf (claim a c).
Proof.
  intros [] Hc. split; simpl; try done; unfold in_range in *; simpl in *.
  - exists (c + 1). split; [lia|done].
  - set_solver.
  - intros v t. rewrite lookup_delete_Some. intros [Hne Ht]. naive_solver set_solver.
Qed.

Lemma Allocate_wf now a : wf a -> wf (Allocate now a).2.
Proof.
  intros Hwf. unfold Allocate. destruct (scan _ _ _ _) eqn:E; [|done].
  apply claim_wf; [done|]. by eapply scan_some.
Qed.

Lemma Release_wf now ip a : wf a -> wf (Release now ip a).2.
Proof.
  intros Hwf. unfold Release. destruct (ipToUint32 ip) as [v|]; [|done].
  case_bool_decide as Hin; [|done]. destruct Hwf as [? ? ? ? ? Hall Hrel].
  split; simpl; try done; unfold in_range in *; simpl in *.
  - intros w Hw. apply Hall. set_solver.
  - intros w t. rewrite lookup_insert_Some. intros [[<- <-]|[Hne Ht]].
    + split; [by apply Hall|set_solver].
    + destruct (Hrel w t Ht). split; [done|set_solver].
Qed.

Lemma Uint32_range b : Forall octet b -> 0 <= Uint32 b < 2 ^ 32.
Proof.
  intros H. destruct b as [|a [|b [|c [|d [|? ?]]]]]; try (simpl; lia).
  rewrite !Forall_cons in H. destruct H as (?&?&?&?&_).
  rewrite Uint32_eq by done. unfold octet in *. lia.
Qed.

Lemma parseIPv4_range s v : parseIPv4 s = inl v -> 0 <= v < 2 ^ 32.
Proof.
  unfold parseIPv4. destruct (ParseIP s) as [ip|] eqn:Hp; [|done].
  destruct (To4 ip) as [v4|] eqn:H4; [|done]. intros [= <-].
  apply Uint32_range. eapply To4_octets; [|exact H4]. by eapply ParseIP_octets.
Qed.

(** What [New] establishes; [h] is the host's own address. *)
Lemma New_spec s e h q a :
  New s e h q = inl a ->
  wf a /\ a_quarantine a = q /\ 0 <= q /\ a_allocated a = ∅ /\ a_released a = ∅ /\
  exists host, parseIPv4 h = inl host /\ ~ in_range a host.
Proof.
  unfold New. destruct (parseIPv4 s) as [s'|] eqn:Es; [|done].
  destruct (parseIPv4 e) as [e'|] eqn:Ee; [|done].
  destruct (Z.ltb_spec e' s'); [done|].
  destruct (parseIPv4 h) as [h'|] eqn:Eh; [|done].
  destruct ((s' <=? h') && (h' <=? e')) eqn:Ho; [done|].
  destruct (Z.ltb_spec q 0); [done|]. intros [= <-].
  apply parseIPv4_range in Es; apply parseIPv4_range in Ee; apply parseIPv4_range in Eh.
  split; [|repeat split; try done; exists h'; unfold in_range; simpl; split; [done|lia]].
  split; simpl; try lia; try set_solver.
  exists s'. split; [lia|]. by rewrite wrap_u32_small.
Qed.

(** ** Histories

    The observable history of an allocator: the addresses it handed out and took
    back, newest first, with the clock reading of each operation. *)

Inductive event := Got (t : Time) (v : Z) | Gave (t : Time) (v : Z).

Definition ev_addr (e : event) : Z := match e with Got _ v | Gave _ v => v end.

(** The most recent event about [v]. *)
Fixpoint last_of (v : Z) (h : list event) : option event :=
  match h with
  | [] => None
  | e :: h' => if ev_addr e =? v then Some e else last_of v h'
  end.

Inductive reach (a0 : Allocator) : list event -> Allocator -> Prop :=
| reach_init : reach a0 [] a0
| reach_allocate h a now ip a' v :
    reach a0 h a -> Allocate now a = (Some ip, a') -> ipToUint32 ip = Some v ->
    reach a0 (Got now v :: h) a'
| reach_exhausted h a now a' :
    reach a0 h a -> Allocate now a = (None, a') -> reach a0 h a'
| reach_release h a now ip a' v :
    reach a0 h a -> Release now ip a = (None, a') -> ipToUint32 ip = Some v ->
    reach a0 (Gave now v :: h) a'
| reach_refused h a now ip e a' :
    reach a0 h a -> Release now ip a = (Some e, a') -> reach a0 h a'.

(** The allocator's bookkeeping is exactly what its history says. *)
Definition agrees (h : list event) (a : Allocator) : Prop :=
  forall v, match last_of v h with
            | None => v ∉ a_allocated a /\ a_released a !! v = None
            | Some (Got _ _) => v ∈ a_allocated a
            | Some (Gave t _) => v ∉ a_allocated a /\ a_released a !! v = Some t
            end.

Definition same_config (a b : Allocator) : Prop :=
  a_start a = a_start b /\ a_end a = a_end b /\ a_quarantine a = a_quarantine b.

Lemma Allocate_some now a ip a' :
  wf a -> Allocate now a = (Some ip, a') ->
  exists v, ip = ipFromUint32 v /\ a' = claim a v /\ in_range a v /\ 0 <= v < 2 ^ 32 /\
    isFreeLocked a v now = true.
Proof.
  intros Hwf. unfold Allocate. destruct (scan a now _ 0) as [c|] eqn:E; [|done].
  intros [= <- <-]. apply scan_some in E as [Hr Hf]; [|done]. exists c.
  destruct Hwf. unfold in_range in *. repeat split; done || lia.
Qed.

Lemma reach_invariant a0 h a :
  wf a0 -> a_allocated a0 = ∅ -> a_released a0 = ∅ -> reach a0 h a ->
  wf a /\ same_config a0 a /\ agrees h a.
Proof.
  intros Hwf Ha Hr. induction 1 as [|h a now ip a' v _ (Hw & Hc & Hg) HA Hv
    |h a now a' _ (Hw & Hc & Hg) HA|h a now ip a' v _ (Hw & Hc & Hg) HR Hv
    |h a now ip e a' _ (Hw & Hc & Hg) HR].
  - split; [done|]. split; [done|]. intros v. simpl. rewrite Ha, Hr. set_solver.
  - pose proof (Allocate_wf now a Hw) as Hw'. rewrite HA in Hw'. split; [done|].
    destruct (Allocate_some _ _ _ _ Hw HA) as (w & -> & -> & _ & Hb & _).
    rewrite ipToUint32_From in Hv by done. injection Hv as <-. split; [done|].
    intros u. specialize (Hg u). simpl. destruct (Z.eqb_spec w u) as [->|Hne]; [set_solver|].
    rewrite lookup_delete_ne by done. destruct (last_of u h) as [[]|]; set_solver.
  - assert (a' = a) as ->; [|done]. unfold Allocate in HA. destruct (scan a now _ 0); naive_solver.
  - pose proof (Release_wf now ip a Hw) as Hw'. rewrite HR in Hw'. split; [done|].
    unfold Release in HR. rewrite Hv in HR. case_bool_decide as Hin; [|done].
    injection HR as <-. split; [done|]. intros u. specialize (Hg u). simpl.
    destruct (Z.eqb_spec v u) as [->|Hne].
    + split; [set_solver|apply lookup_insert_eq].
    + rewrite lookup_insert_ne by done. destruct (last_of u h) as [[]|]; set_solver.
  - assert (a' = a) as ->; [|done]. unfold Release in HR.
    destruct (ipToUint32 ip); [|naive_solver]. case_bool_decide; naive_solver.
Qed.

Lemma last_of_addr v h e : last_of v h = Some e -> ev_addr e = v.
Proof.
  induction h as [|e' h IH]; simpl; [done|].
  destruct (Z.eqb_spec (ev_addr e') v); [by intros [= <-]|done].
Qed.

(** ** Properties *)

(** C38: in every history of an allocator built by [New], an address that is handed
    out lies in the configured range, is not the host's own address, and is either
    being handed out for the first time or was last given back at a time [t] at
    least the quarantine ago; in particular no address is ever held twice. *)
Theorem allocate_exclusive s e h q a0 host now v hist a :
  New s e h q = inl a0 -> parseIPv4 h = inl host ->
  reach a0 (Got now v :: hist) a ->
  in_range a0 v /\ v <> host /\
  (last_of v hist = None \/
   exists t, last_of v hist = Some (Gave t v) /\ q <= Sub now t).
Proof.
  intros HN Hh HR. apply New_spec in HN as (Hwf & Hq & _ & Hal & Hre & host' & Hh' & Hout).
  assert (host' = host) as -> by congruence.
  remember (Got now v :: hist) as full eqn:Hf. revert now v hist Hf.
  induction HR as [|h1 a1 n1 ip a2 v1 HR IH HA Hv|h1 a1 n1 a2 HR IH HA|h1 a1 n1 ip a2 v1 HR IH HA Hv
    |h1 a1 n1 ip er a2 HR IH HA]; intros now v hist Hf; simplify_eq; eauto.
  destruct (reach_invariant _ _ _ Hwf Hal Hre HR) as (Hw1 & (Es & Ee & Eq) & Hag).
  destruct (Allocate_some _ _ _ _ Hw1 HA) as (w & -> & _ & Hrange & Hb & Hfree).
  rewrite ipToUint32_From in Hv by done. injection Hv as ->.
  apply isFreeLocked_true in Hfree as [Hni Hqu]. specialize (Hag v).
  assert (Hr0 : in_range a0 v) by (unfold in_range in *; lia).
  split; [done|]. split; [by intros ->|].
  destruct (last_of v hist) as [[t w|t w]|] eqn:El; [done| |by left]. right.
  apply last_of_addr in El as Hw; simpl in Hw; subst w.
  exists t. split; [done|]. destruct Hag as [_ Hag]. specialize (Hqu t Hag). lia.
Qed.

(** [Allocate] fails only when it must.  On a range of at most 2^31 addresses
    it returns ErrExhausted exactly when every address of the range is held or
    still in quarantine, and a failed call changes nothing. *)
Theorem allocate_exhausted_iff a now :
  wf a -> 2 * total a <= 2 ^ 32 ->
  (Allocate now a = (None, a) <-> forall v, in_range a v -> isFreeLocked a v now = false) /\
  ((Allocate now a).1 = None -> (Allocate now a).2 = a).
Proof.
  intros Hwf Hsmall. unfold Allocate. destruct (scan a now (Z.to_nat (total a)) 0) as [c|] eqn:E.
  - split; [|done]. split; [done|]. intros Hall.
    apply scan_some in E as [Hr Hf]; [|done]. by rewrite Hall in Hf.
  - split; [|done]. split; [|done]. intros _ v Hv.
    destruct (candidate_surj a Hwf v Hsmall Hv) as (i & Hi & <-).
    eapply scan_none; [exact E|lia].
Qed.

(** A one-address range next to its bridge, used by the witnesses. *)
Definition demo : Allocator :=
  {| a_start := 167772938; a_end := 167772938; a_quarantine := 30;
     a_allocated := ∅; a_released := ∅; a_cursor := 167772938 |}.

Lemma New_demo : New "10.0.3.10" "10.0.3.10" "10.0.3.1" 30 = inl demo.
Proof. vm_compute. reflexivity. Qed.

Lemma demo_wf : wf demo.
Proof. exact (proj1 (New_spec _ _ _ _ _ New_demo)). Qed.

Lemma demo_history :
  reach demo [Got 90 167772938; Gave 50 167772938; Got 10 167772938] (claim demo 167772938).
Proof.
  assert (H1 : reach demo [Got 10 167772938] (claim demo 167772938)).
  { apply (reach_allocate _ _ demo 10 [10; 0; 3; 10]); [apply reach_init|..]; vm_compute; reflexivity. }
  assert (H2 : reach demo [Gave 50 167772938; Got 10 167772938]
    (Release 50 [10; 0; 3; 10] (claim demo 167772938)).2).
  { apply (reach_release _ _ (claim demo 167772938) 50 [10; 0; 3; 10]); [exact H1|..];
      vm_compute; reflexivity. }
  apply (reach_allocate _ _ (Release 50 [10; 0; 3; 10] (claim demo 167772938)).2 90 [10; 0; 3; 10]);
    [exact H2|..]; vm_compute; reflexivity.
Qed.

Lemma allocate_exclusive_witness :
  exists t, last_of 167772938 [Gave 50 167772938; Got 10 167772938] = Some (Gave t 167772938) /\
      30 <= Sub 90 t.
Proof.
  destruct (allocate_exclusive "10.0.3.10" "10.0.3.10" "10.0.3.1" 30 demo 167772929 90 167772938
              [Gave 50 167772938; Got 10 167772938] _ New_demo eq_refl demo_history)
    as (_ & _ & [Hn | Ht]).
  - exfalso. discriminate Hn.
  - exact Ht.
Defined.

Lemma allocate_exhausted_iff_witness :
  let a := claim demo 167772938 in
  wf a /\ Allocate 90 a = (None, a) /\ forall v, in_range a v -> isFreeLocked a v 90 = false.
Proof.
  intros a.
  assert (Hwf : wf a) by (apply claim_wf; [apply demo_wf|unfold in_range; simpl; lia]).
  assert (HA : Allocate 90 a = (None, a)) by (vm_compute; reflexivity).
  assert (Ht : 2 * total a <= 2 ^ 32) by (vm_compute; discriminate).
  split; [exact Hwf|]. split; [exact HA|].
  exact (proj1 (proj1 (allocate_exhausted_iff a 90 Hwf Ht)) HA).
Defined.

(** ** The allocator as an interface

    What the warm pool needs from its address allocator: a set of held addresses
    that [allocate] extends by a fresh one and [release] shrinks. *)
Class AddressAllocator (A : Type) := {
  aa_inv : A -> Prop;
  aa_held : A -> gset Z;
  aa_allocate : Time -> A -> option IP * A;
  aa_release : Time -> IP -> A -> option release_error * A;
  aa_allocate_inv now a : aa_inv a -> aa_inv (aa_allocate now a).2;
  aa_release_inv now ip a : aa_inv a -> aa_inv (aa_release now ip a).2;
  aa_allocate_fresh now a ip a' :
    aa_inv a -> aa_allocate now a = (Some ip, a') ->
    exists v, 0 <= v < 2 ^ 32 /\ ip = ipFromUint32 v /\ v ∉ aa_held a /\ aa_held a' = {[v]} ∪ aa_held a;
  aa_allocate_none now a a' : aa_allocate now a = (None, a') -> a' = a;
  aa_release_held now ip v a :
    ipToUint32 ip = Some v -> v ∈ aa_held a ->
    exists a', aa_release now ip a = (None, a') /\ aa_held a' = aa_held a ∖ {[v]};
}.

Lemma Allocate_fresh now a ip a' :
  wf a -> Allocate now a = (Some ip, a') ->
  exists v, 0 <= v < 2 ^ 32 /\ ip = ipFromUint32 v /\ v ∉ a_allocated a /\
    a_allocated a' = {[v]} ∪ a_allocated a.
Proof.
  intros Hwf HA. destruct (Allocate_some _ _ _ _ Hwf HA) as (v & -> & -> & _ & Hb & Hf).
  apply isFreeLocked_true in Hf as [Hni _]. by exists v.
Qed.

Lemma Allocate_none now a a' : Allocate now a = (None, a') -> a' = a.
Proof. unfold Allocate. destruct (scan a now _ 0); naive_solver. Qed.

Lemma Release_held now ip v a :
  ipToUint32 ip = Some v -> v ∈ a_allocated a ->
  exists a', Release now ip a = (None, a') /\ a_allocated a' = a_allocated a ∖ {[v]}.
Proof.
  intros Hv Hin. unfold Release. rewrite Hv, bool_decide_eq_true_2 by done.
  eexists. split; reflexivity.
Qed.

#[export] Instance Allocator_interface : AddressAllocator Allocator := {|
  aa_inv := wf;
  aa_held := a_allocated;
  aa_allocate := Allocate;
  aa_release := Release;
  aa_allocate_inv := Allocate_wf;
  aa_release_inv := Release_wf;
  aa_allocate_fresh := Allocate_fresh;
  aa_allocate_none := Allocate_none;
  aa_release_held := Release_held;
|}.
