(* ===== verification/Incus.v ===== *)
(** * pkg/core/incus: the container records the daemon's loops read

    The role labels and the fields of [ContainerInfo] that the modelled packages
    use; the client that talks to the Incus API is not modelled. *)

From S2P Require Import Prelude.
#[local] Open Scope string_scope.

Definition RoleNone := "".
Definition RolePostgres := "core-postgres".
Definition RoleCaddy := "core-caddy".
Definition RoleVictoriaMetrics := "core-victoriametrics".
Definition RoleSecurity := "core-security".
Definition RoleGuacamole := "core-guacamole".
Definition RoleOTelCollector := "core-otelcollector".
Definition RoleControlPlane := "core-controlplane".

Definition IsCoreRole (r : string) : bool := negb (String.eqb r RoleNone).

Record ContainerInfo := mkInfo {
  ci_Name : string;
  ci_Username : string;
  ci_State : string;
  ci_Labels : gmap string string;
  ci_Role : string;
  ci_AutoSleepEnabled : bool;
  ci_IdleThresholdMinutes : Z;
  ci_LastStartedAt : Time;
}.
