(* ===== verification/TtlSweeper.v ===== *)
(** * internal/ttlsweeper: deleting expired containers with per-box backoff

    [Decide] is the pure rule; [tick] is one round of the manager's loop.  The
    container source and the deleter are interfaces of the source: the listing is
    an argument of [tick], and the deleter is a parameter that acts on a world [W]
    of its own and reports whether it failed.  Log lines are not modelled. *)

From S2P Require Import Prelude GoStrings GoTime.
#[local] Open Scope string_scope.
#[local] Open Scope list_scope.
#[local] Open Scope Z_scope.

(** ** Data *)

Record ContainerView := mkView {
  cv_Name : string;
  cv_TTLExpiresAt : option Time;
  cv_Stopped : bool;
  cv_StoppedAt : option Time;
  cv_DeleteAfterStopped : option Duration;
  cv_Protected : bool;
}.

Definition graceMargin : Duration := 30 * Second.

Definition failBackoffBase : Duration := 1 * Minute.
Definition failBackoffMax : Duration := 1 * Hour.
Definition quarantineAfter : Z := 10.
Definition maxBackoffShift : Z := 16.

Record failState := mkFail {
  fs_count : Z;
  fs_nextAttempt : Time;
  fs_quarantined : bool;
}.

(** The manager's mutable state: the failure table. *)
Abbreviation Failures := (gmap string failState).

(** ** The decision *)

(** The loop of [Decide]; [expired] is the slice built so far. *)
Fixpoint decide_loop (cutoff : Time) (containers : list ContainerView) (expired : list string)
  : list string :=
  match containers with
  | [] => expired
  | c :: rest =>
      if cv_Protected c then decide_loop cutoff rest expired
      else if match cv_TTLExpiresAt c with Some t => negb (After t cutoff) | None => false end
      then decide_loop cutoff rest (expired ++ [cv_Name c])
      else match cv_Stopped c, cv_StoppedAt c, cv_DeleteAfterStopped c with
           | true, Some at_, Some window =>
               if negb (After (Add at_ window) cutoff)
               then decide_loop cutoff rest (expired ++ [cv_Name c])
               else decide_loop cutoff rest expired
           | _, _, _ => decide_loop cutoff rest expired
           end
  end.

Definition Decide (containers : list ContainerView) (now : Time) : list string :=
  decide_loop (Add now (- graceMargin)) containers [].

(** ** The failure table *)

Definition pruneFailures (expired : list string) (failures : Failures) : Failures :=
  if decide (failures = ∅) then failures
  else filter (fun kv => kv.1 ∈ expired) failures.

Definition shift_of (count : Z) : Z :=
  let shift := count - 1 in
  if maxBackoffShift <? shift then maxBackoffShift else shift.

Definition backoff_of (count : Z) : Duration :=
  let backoff := wrap i64 (Z.shiftl failBackoffBase (shift_of count)) in
  if failBackoffMax <? backoff then failBackoffMax else backoff.

Definition recordFailure (name : string) (now : Time) (failures : Failures) : Failures :=
  let fs := default (mkFail 0 0 false) (failures !! name) in
  let count := fs_count fs + 1 in
  let next := Add now (backoff_of count) in
  let quarantined := if quarantineAfter <=? count then true else fs_quarantined fs in
  <[name := mkFail count next quarantined]> failures.

(** ** One tick *)

(** [expiryByName]: later containers of the same name win, as map writes do. *)
Definition expiryByName (containers : list ContainerView) : gmap string Time :=
  foldl (fun m c => match cv_TTLExpiresAt c with
                    | Some t => <[cv_Name c := t]> m
                    | None => m
                    end) ∅ containers.

Definition reason_for (expiry : gmap string Time) (name : string) : string :=
  match expiry !! name with
  | Some exp => "ttl_expired at " +:+ FormatRFC3339 exp
  | None => "ttl_expired"
  end.

Definition backing_off (failures : Failures) (now : Time) (name : string) : bool :=
  match failures !! name with
  | Some fs => Before now (fs_nextAttempt fs)
  | None => false
  end.

Section tick.
Context {W : Type} (DeleteContainer : string -> string -> W -> bool * W).
(** [DeleteContainer name reason w] is [(failed, w')]. *)

Fixpoint delete_loop (expiry : gmap string Time) (now : Time) (expired : list string)
  (st : Failures * W) : Failures * W :=
  match expired with
  | [] => st
  | name :: rest =>
      let '(failures, w) := st in
      if backing_off failures now name then delete_loop expiry now rest st
      else
        let '(failed, w') := DeleteContainer name (reason_for expiry name) w in
        if failed : bool
        then delete_loop expiry now rest (recordFailure name now failures, w')
        else delete_loop expiry now rest (delete name failures, w')
  end.

(** [listing = None] is a failed ListContainers: the tick does nothing. *)
Definition tick (listing : option (list ContainerView)) (now : Time) (st : Failures * W)
  : Failures * W :=
  match listing with
  | None => st
  | Some containers =>
      let expired := Decide containers now in
      let failures := pruneFailures expired st.1 in
      if (length expired =? 0)%nat then (failures, st.2)
      else delete_loop (expiryByName containers) now expired (failures, st.2)
  end.
End tick.

(** ** Reference definitions *)

(** A container whose absolute TTL, or whose stopped-to-delete window, ran out at
    [cutoff], and which is not protected. *)
Definition expired_at (cutoff : Time) (c : ContainerView) : bool :=
  negb (cv_Protected c) &&
  (match cv_TTLExpiresAt c with Some t => t <=? cutoff | None => false end
   || (cv_Stopped c &&
       match cv_StoppedAt c, cv_DeleteAfterStopped c with
       | Some at_, Some window => at_ + window <=? cutoff
       | _, _ => false
       end)).

(** A deleter that logs its calls and fails as [outcome] says. *)
Definition logged (outcome : string -> bool) (name reason : string) (w : list (string * string))
  : bool * list (string * string) := (outcome name, w ++ [(name, reason)]).

(** The names a tick attempts: expired and not backing off. *)
Definition attempted (failures : Failures) (now : Time) (expired : list string) : list string :=
  List.filter (fun n => negb (backing_off failures now n)) expired.

(** The failure entry of [name] after a tick. *)
Definition entry_after (outcome : string -> bool) (failures : Failures) (now : Time)
  (expired : list string) (name : string) : option failState :=
  if bool_decide (name ∈ expired) then
    if backing_off failures now name then failures !! name
    else if outcome name then recordFailure name now failures !! name
    else None
  else None.

(** ** Lemmas *)

Lemma negb_After t u : negb (After t u) = (t <=? u).
Proof. unfold After. symmetry. apply Z.leb_antisym. Qed.

Lemma decide_loop_spec cutoff cs acc :
  decide_loop cutoff cs acc = acc ++ map cv_Name (List.filter (expired_at cutoff) cs).
Proof.
  revert acc. induction cs as [|c cs IH]; intros acc; simpl; [by rewrite app_nil_r|].
  assert (Hs : forall b : bool, (if b then decide_loop cutoff cs (acc ++ [cv_Name c]) else decide_loop cutoff cs acc)
             = acc ++ map cv_Name (if b then c :: List.filter (expired_at cutoff) cs
                                   else List.filter (expired_at cutoff) cs)).
  { intros [|]; rewrite IH; [|done]. by rewrite <- app_assoc. }
  unfold expired_at at 1, Add.
  destruct (cv_Protected c); simpl; [apply (Hs false)|].
  destruct (cv_TTLExpiresAt c) as [t|]; [rewrite negb_After; destruct (t <=? cutoff); simpl; [apply (Hs true)|]|];
    destruct (cv_Stopped c), (cv_StoppedAt c), (cv_DeleteAfterStopped c); simpl;
    rewrite ?negb_After; apply Hs || apply (Hs false).
Qed.

Lemma recordFailure_ne n m now f : n <> m -> recordFailure n now f !! m = f !! m.
Proof. intros. unfold recordFailure. by rewrite lookup_insert_ne. Qed.

Lemma backing_off_agree f g now n : f !! n = g !! n -> backing_off f now n = backing_off g now n.
Proof. unfold backing_off. by intros ->. Qed.

Lemma recordFailure_agree f g now n : f !! n = g !! n -> recordFailure n now f !! n = recordFailure n now g !! n.
Proof. unfold recordFailure. intros ->. by rewrite !lookup_insert_eq. Qed.

(** What [delete_loop] does, for distinct names. *)
Lemma delete_loop_spec outcome expiry now expired f w :
  NoDup expired ->
  let r := delete_loop (logged outcome) expiry now expired (f, w) in
  r.2 = w ++ map (fun n => (n, reason_for expiry n)) (attempted f now expired) /\
  forall n, r.1 !! n = if bool_decide (n ∈ expired) then entry_after outcome f now expired n else f !! n.
Proof.
  revert f w. induction expired as [|x xs IH]; intros f w Hnd; cbv zeta.
  { simpl. rewrite app_nil_r. done. }
  apply NoDup_cons in Hnd as [Hx Hnd].
  assert (Hstep : forall g w', (forall n, n <> x -> g !! n = f !! n) ->
    g !! x = entry_after outcome f now (x :: xs) x ->
    w' = w ++ map (fun n => (n, reason_for expiry n)) (attempted f now [x]) ->
    let r := delete_loop (logged outcome) expiry now xs (g, w') in
    r.2 = w ++ map (fun n => (n, reason_for expiry n)) (attempted f now (x :: xs)) /\
    forall n, r.1 !! n = if bool_decide (n ∈ x :: xs) then entry_after outcome f now (x :: xs) n else f !! n).
  { intros g w' Hg Hgx ->. destruct (IH g (w ++ map (fun n => (n, reason_for expiry n)) (attempted f now [x])) Hnd) as [IH1 IH2].
    cbv zeta. rewrite IH1. split.
    - rewrite <- app_assoc, <- map_app. f_equal. f_equal.
      change (x :: xs) with ([x] ++ xs). unfold attempted. rewrite List.filter_app. f_equal.
      apply List.filter_ext_in. intros n Hn%list_elem_of_In.
      rewrite (backing_off_agree g f) by (apply Hg; by intros ->). done.
    - intros n. rewrite IH2. destruct (decide (n = x)) as [->|Hne].
      + rewrite (bool_decide_eq_false_2 (x ∈ xs)), (bool_decide_eq_true_2 (x ∈ x :: xs)) by set_solver. done.
      + rewrite (bool_decide_ext (n ∈ x :: xs) (n ∈ xs)) by set_solver.
        case_bool_decide as Hin; [|by apply Hg].
        unfold entry_after. rewrite !bool_decide_eq_true_2 by set_solver.
        rewrite (backing_off_agree g f), (recordFailure_agree g f) by (by apply Hg). by rewrite (Hg n Hne). }
  assert (Hin : bool_decide (x ∈ x :: xs) = true) by (apply bool_decide_eq_true_2; set_solver).
  cbn [delete_loop].
  assert (Hl : logged outcome x (reason_for expiry x) w = (outcome x, w ++ [(x, reason_for expiry x)])) by done.
  rewrite Hl.
  destruct (backing_off f now x) eqn:Eb; [|destruct (outcome x) eqn:Eo]; apply Hstep.
  all: try (intros n Hn; by rewrite ?recordFailure_ne, ?lookup_delete_ne by congruence).
  all: unfold entry_after; rewrite ?Hin, ?Eb, ?Eo, ?lookup_delete_eq; try done.
  all: unfold attempted; simpl; rewrite Eb; simpl; by rewrite ?app_nil_r.
Qed.

Lemma pruneFailures_lookup expired f n :
  pruneFailures expired f !! n = if bool_decide (n ∈ expired) then f !! n else None.
Proof.
  unfold pruneFailures. case_decide as He.
  - subst f. rewrite lookup_empty. by case_bool_decide.
  - destruct (f !! n) as [v|] eqn:Hn; case_bool_decide as Hin.
    + by apply map_lookup_filter_Some.
    + apply map_lookup_filter_None. naive_solver.
    + apply map_lookup_filter_None. by left.
    + apply map_lookup_filter_None. by left.
Qed.

Lemma backoff_of_bounds k : 1 <= k -> failBackoffBase <= backoff_of k <= failBackoffMax.
Proof.
  intros Hk. unfold backoff_of, failBackoffBase, failBackoffMax, Hour, Minute, Second.
  assert (Hs : 0 <= shift_of k <= 16) by (unfold shift_of, maxBackoffShift; case_match; lia).
  rewrite Z.shiftl_mul_pow2 by lia.
  assert (1 <= 2 ^ shift_of k <= 65536).
  { pose proof (Z.pow_le_mono_r 2 0 (shift_of k)). pose proof (Z.pow_le_mono_r 2 (shift_of k) 16). lia. }
  rewrite wrap_in_type_id by type_bounds. case_match; lia.
Qed.

(** ** Properties *)

(** [Decide] returns exactly the unprotected containers one of whose timers ran
    out at least [graceMargin] ago, each once and in listing order. *)
Theorem Decide_spec cs now :
  Decide cs now = map cv_Name (List.filter (expired_at (now - graceMargin)) cs).
Proof. unfold Decide, Add. by rewrite decide_loop_spec. Qed.

(** The backoff after the [k]-th consecutive failure is [2^(k-1)] minutes capped
    at one hour, for every [k]; the capped shift makes the int64 arithmetic exact. *)
Lemma backoff_schedule k :
  1 <= k -> backoff_of k = Z.min failBackoffMax (failBackoffBase * 2 ^ (k - 1)).
Proof.
  intros Hk. unfold backoff_of, shift_of, maxBackoffShift, failBackoffBase, failBackoffMax, Hour, Minute, Second.
  destruct (Z.ltb_spec 16 (k - 1)) as [Hbig|Hsmall].
  - pose proof (Z.pow_le_mono_r 2 16 (k - 1)). simpl. lia.
  - rewrite Z.shiftl_mul_pow2 by lia.
    assert (1 <= 2 ^ (k - 1) <= 65536).
    { pose proof (Z.pow_le_mono_r 2 0 (k - 1)). pose proof (Z.pow_le_mono_r 2 (k - 1) 16). lia. }
    rewrite wrap_in_type_id by type_bounds. case_match; lia.
Qed.

(** One tick over containers with distinct expired names.  The deleter is called
    exactly for the expired containers that are not backing off, once each, in
    order and with their reason; afterwards the failure table holds an entry only
    for expired names, unchanged for those still backing off, bumped for those whose
    delete failed and gone for those deleted. *)
Theorem tick_spec outcome cs now f w :
  NoDup (Decide cs now) ->
  let expired := Decide cs now in
  let r := tick (logged outcome) (Some cs) now (f, w) in
  r.2 = w ++ map (fun n => (n, reason_for (expiryByName cs) n)) (attempted f now expired) /\
  forall n, r.1 !! n = entry_after outcome f now expired n.
Proof.
  intros Hnd expired r. unfold r, tick. fold expired. simpl.
  assert (Hp : forall n, n ∈ expired -> pruneFailures expired f !! n = f !! n).
  { intros n Hn. rewrite pruneFailures_lookup. by rewrite bool_decide_eq_true_2. }
  destruct (delete_loop_spec outcome (expiryByName cs) now expired (pruneFailures expired f) w Hnd) as [H1 H2].
  assert (Ha : attempted (pruneFailures expired f) now expired = attempted f now expired).
  { apply List.filter_ext_in. intros n Hn%list_elem_of_In. by rewrite (backing_off_agree _ f) by auto. }
  assert (Hn : forall n, (delete_loop (logged outcome) (expiryByName cs) now expired (pruneFailures expired f, w)).1 !! n
             = entry_after outcome f now expired n).
  { intros n. rewrite H2. unfold entry_after at 2. case_bool_decide as Hin.
    - unfold entry_after. rewrite bool_decide_eq_true_2 by done.
      by rewrite (backing_off_agree _ f), (recordFailure_agree _ f), Hp by auto.
    - rewrite pruneFailures_lookup. by rewrite bool_decide_eq_false_2. }
  rewrite Ha in H1.
  destruct (Nat.eqb_spec (length expired) 0) as [Hl|Hl]; [|by split].
  apply nil_length_inv in Hl. rewrite Hl in *. by split.
Qed.

(** Two expired boxes, one of them in backoff. *)
Definition demo_cs : list ContainerView :=
  [ mkView "a-container" (Some 1000) false None None false;
    mkView "b-container" None true (Some 1000) (Some 10) false;
    mkView "c-container" (Some 1000) false None None true ].

Definition demo_failures : Failures :=
  {[ "a-container" := mkFail 1 (31 * Minute) false; "z-container" := mkFail 3 0 false ]}.

Lemma tick_spec_witness :
  map fst (tick (logged (fun _ => true)) (Some demo_cs) (30 * Minute) (demo_failures, [])).2 = ["b-container"] /\
  (tick (logged (fun _ => true)) (Some demo_cs) (30 * Minute) (demo_failures, [])).1 !! "z-container" = None.
Proof.
  destruct (tick_spec (fun _ => true) demo_cs (30 * Minute) demo_failures []) as [H1 H2].
  - decided.
  - split; [rewrite H1; vm_compute; reflexivity|rewrite H2; vm_compute; reflexivity].
Defined.

(** Ticks one after the other. *)
Fixpoint ticks (l : list (list ContainerView * Time * (string -> bool))) (st : Failures * list (string * string))
  : Failures * list (string * string) :=
  match l with
  | [] => st
  | (cs, now, outcome) :: rest => ticks rest (tick (logged outcome) (Some cs) now st)
  end.

(** A failed delete silences its box.  After a delete of [name] failed at [now],
    no tick earlier than [now] plus the backoff attempts [name] again, however many
    ticks run and whatever happens to the other boxes, as long as [name] stays
    expired; its failure entry is untouched meanwhile. *)
Theorem failed_delete_backs_off name now f0 l w :
  let f := recordFailure name now f0 in
  let count := match f !! name with Some fs => fs_count fs | None => 0 end in
  Forall (fun e => NoDup (Decide e.1.1 e.1.2) /\ name ∈ Decide e.1.1 e.1.2 /\
                   e.1.2 < now + backoff_of count) l ->
  (ticks l (f, w)).1 !! name = f !! name /\
  exists calls, (ticks l (f, w)).2 = w ++ calls /\ name ∉ map fst calls.
Proof.
  intros f count Hl.
  assert (Hf : exists fs, f !! name = Some fs /\ fs_nextAttempt fs = now + backoff_of count).
  { unfold count, f, recordFailure. rewrite lookup_insert_eq. eauto. }
  destruct Hf as (fs & Hfs & Hna). clearbody count. clearbody f. revert f w Hfs.
  induction Hl as [|[[cs t] outcome] l (Hnd & Hin & Ht) _ IH]; intros f w Hfs; cbn [ticks].
  { split; [done|]. exists []. rewrite app_nil_r. split; [done|]. simpl. set_solver. }
  simpl in Hnd, Hin, Ht.
  destruct (tick_spec outcome cs t f w Hnd) as [H1 H2].
  assert (Hb : backing_off f t name = true).
  { unfold backing_off, Before. rewrite Hfs. apply Z.ltb_lt. lia. }
  destruct (tick (logged outcome) (Some cs) t (f, w)) as [f' w'] eqn:Et. simpl in H1, H2.
  assert (Hf' : f' !! name = Some fs).
  { rewrite H2. unfold entry_after. by rewrite bool_decide_eq_true_2, Hb by done. }
  destruct (IH f' w' Hf') as [IH1 (calls & IH2 & IH3)].
  split; [by rewrite IH1, Hf', Hfs|]. rewrite IH2, H1, <- app_assoc. eexists. split; [done|].
  rewrite map_app, map_map. intros [Hc|Hc]%elem_of_app; [|done].
  simpl in Hc. rewrite map_id in Hc. apply list_elem_of_In, filter_In in Hc as [_ Hc].
  by rewrite Hb in Hc.
Qed.

Lemma failed_delete_backs_off_witness :
  exists calls,
    (ticks [(demo_cs, 30 * Minute + 1, fun _ => true); (demo_cs, 31 * Minute - 1, fun _ => false)]
       (recordFailure "a-container" (30 * Minute) ∅, [])).2 = [] ++ calls /\
    "a-container" ∉ map fst calls.
Proof.
  apply (failed_delete_backs_off "a-container" (30 * Minute) ∅
           [(demo_cs, 30 * Minute + 1, fun _ => true); (demo_cs, 31 * Minute - 1, fun _ => false)] []).
  repeat (apply Forall_cons; split);
    [split; [|split]; [decided..|reflexivity]..|].
  apply Forall_nil. exact I.
Defined.
