(* ===== verification/AutoSleep.v ===== *)
(** * internal/autosleep: stopping idle containers

    [Decide] is the pure rule; [LastNetworkActivity] is the query of the traffic
    adapter over the rows of traffic_connections; [tick] is one round of the
    manager.  The stopper and the audit log are interfaces of the source: they are
    parameters acting on a world [W].  Log lines are not modelled. *)

From S2P Require Import Prelude GoStrings GoFloat Incus.
#[local] Open Scope string_scope.
#[local] Open Scope list_scope.
#[local] Open Scope Z_scope.

(** ** Data *)

Inductive DecideAction := ActionNothing | ActionSleep.

Record DecideInput := mkInput {
  di_Username : string;
  di_State : string;
  di_AutoSleepEnabled : bool;
  di_IdleThresholdMinutes : Z;
  di_IsCoreRole : bool;
  di_LastStartedAt : Time;
  di_LastNetworkActivity : Time;
  di_Now : Time;
}.

Record Decision := mkDecision {
  d_Action : DecideAction;
  d_Reason : string;
  d_IdleMinutes : Z;
}.

#[export] Instance DecideAction_eq : EqDecision DecideAction.
Proof. solve_decision. Defined.

(** ** The decision *)

Definition nothing (reason : string) : Decision := mkDecision ActionNothing reason 0.

(** [int(now.Sub(t).Minutes())]. *)
Definition idle_minutes (now t : Time) : Z := trunc (Minutes (Sub now t)).

(** [2*time.Duration(threshold)*time.Minute], in int64. *)
Definition anti_thrash (threshold : Z) : Duration := wrap i64 (wrap i64 (2 * threshold) * Minute).

Definition Decide (inp : DecideInput) : Decision :=
  if negb (di_AutoSleepEnabled inp) then nothing "auto-sleep not enabled"
  else if di_IsCoreRole inp then nothing "core container"
  else if negb (String.eqb (di_State inp) "Running")
  then nothing ("state " +:+ di_State inp +:+ " not running")
  else
    let threshold := di_IdleThresholdMinutes inp in
    if negb (IsZero (di_LastStartedAt inp)) &&
       (Sub (di_Now inp) (di_LastStartedAt inp) <? anti_thrash threshold)
    then nothing "recently started"
    else if IsZero (di_LastNetworkActivity inp) then
      if IsZero (di_LastStartedAt inp) then nothing "no traffic signal and no last-start"
      else
        let idle := idle_minutes (di_Now inp) (di_LastStartedAt inp) in
        if threshold <=? idle
        then mkDecision ActionSleep
               ("idle " +:+ Itoa idle +:+ "m >= threshold " +:+ Itoa threshold
                +:+ "m (no network signal, since-start)") idle
        else nothing "below threshold (since-start)"
    else
      let idle := idle_minutes (di_Now inp) (di_LastNetworkActivity inp) in
      if threshold <=? idle
      then mkDecision ActionSleep
             ("idle " +:+ Itoa idle +:+ "m >= threshold " +:+ Itoa threshold +:+ "m") idle
      else nothing "below threshold".

(** ** The traffic adapter *)

(** A row of traffic_connections; [ended_at = None] is an open connection. *)
Record conn_row := mkRow { row_container_name : string; row_ended_at : option Time }.

(** MAX over the matching rows, NULL on none; [dbnow] is the database's now(). *)
Fixpoint max_activity (dbnow : Time) (name : string) (rows : list conn_row) : option Time :=
  match rows with
  | [] => None
  | r :: rest =>
      let m := max_activity dbnow name rest in
      if String.eqb (row_container_name r) name then
        let t := match row_ended_at r with None => dbnow | Some e => e end in
        Some (match m with None => t | Some u => Z.max t u end)
      else m
  end.

(** [None] is a query error, which the manager treats as no signal. *)
Definition LastNetworkActivity (dbnow : Time) (rows : option (list conn_row)) (name : string)
  : option Time :=
  match rows with
  | None => None
  | Some rs => Some (default 0 (max_activity dbnow name rs))
  end.

(** ** The manager *)

Section tick.
Context {W : Type}.
(** [StopForAutoSleep user reason idle w = (failed, w')]. *)
Context (StopForAutoSleep : string -> string -> Z -> W -> bool * W).
(** The audit record of a sleep (or its log line when no audit logger is wired). *)
Context (logSleep : string -> Decision -> W -> W).
(** The traffic source, [None] when the daemon has none. *)
Context (traffic : option (string -> option Time)).

Definition input_of (now : Time) (c : ContainerInfo) : DecideInput :=
  let lastNet := match traffic with
                 | None => 0
                 | Some q => default 0 (q (ci_Name c))
                 end in
  {| di_Username := TrimSuffix (ci_Name c) "-container";
     di_State := ci_State c;
     di_AutoSleepEnabled := ci_AutoSleepEnabled c;
     di_IdleThresholdMinutes := ci_IdleThresholdMinutes c;
     di_IsCoreRole := IsCoreRole (ci_Role c);
     di_LastStartedAt := ci_LastStartedAt c;
     di_LastNetworkActivity := lastNet;
     di_Now := now |}.

Definition tick_one (now : Time) (c : ContainerInfo) (w : W) : W :=
  if IsCoreRole (ci_Role c) then w
  else if negb (ci_AutoSleepEnabled c) then w
  else
    let username := TrimSuffix (ci_Name c) "-container" in
    let d := Decide (input_of now c) in
    match d_Action d with
    | ActionNothing => w
    | ActionSleep =>
        let '(failed, w') := StopForAutoSleep username (d_Reason d) (d_IdleMinutes d) w in
        if failed : bool then w' else logSleep username d w'
    end.

Definition tick (listing : option (list ContainerInfo)) (now : Time) (w : W) : W :=
  match listing with
  | None => w
  | Some cs => foldl (fun w c => tick_one now c w) w cs
  end.
End tick.

(** ** Reference: when a container sleeps *)

(** All the conditions, on exact times in nanoseconds. *)
Definition should_sleep (inp : DecideInput) : Prop :=
  let thr := di_IdleThresholdMinutes inp * Minute in
  di_AutoSleepEnabled inp = true /\ di_IsCoreRole inp = false /\ di_State inp = "Running" /\
  (di_LastStartedAt inp <> 0 -> 2 * thr <= di_Now inp - di_LastStartedAt inp) /\
  (if IsZero (di_LastNetworkActivity inp)
   then di_LastStartedAt inp <> 0 /\ thr <= di_Now inp - di_LastStartedAt inp
   else thr <= di_Now inp - di_LastNetworkActivity inp).

(** ** Lemmas *)

Lemma anti_thrash_exact thr : 1 <= thr <= 2 ^ 16 -> anti_thrash thr = 2 * (thr * Minute).
Proof.
  intros. unfold anti_thrash, Minute, Second.
  rewrite !wrap_in_type_id by
    (try rewrite wrap_in_type_id; type_bounds). lia.
Qed.

Lemma Sub_lt_anti_thrash now t thr :
  1 <= thr <= 2 ^ 16 -> (Sub now t <? anti_thrash thr) = (now - t <? 2 * (thr * Minute)).
Proof.
  intros Ht. rewrite anti_thrash_exact by done. apply eq_true_iff_eq. rewrite !Z.ltb_lt.
  unfold Sub, clamp, minDuration, maxDuration, Minute, Second. simpl. lia.
Qed.

(** ** Properties *)

(** The exact sleep condition.  For every threshold between one minute and 2^16
    minutes and arbitrary instants, [Decide] answers sleep exactly when the feature
    is on, the container is a running user container, it was not started within
    twice the threshold, and it has been idle for the threshold, counted from its
    last traffic or, with no traffic on record, from its last start. *)
Theorem Decide_sleep_iff inp :
  1 <= di_IdleThresholdMinutes inp <= 2 ^ 16 ->
  d_Action (Decide inp) = ActionSleep <-> should_sleep inp.
Proof.
  intros Ht. unfold Decide, should_sleep, IsZero. destruct inp as [u st en thr core ls la now]. simpl in *.
  rewrite Sub_lt_anti_thrash by done.
  assert (Hidle : forall t, (thr <=? idle_minutes now t) = (thr * Minute <=? now - t)).
  { intros t. apply eq_true_iff_eq. rewrite !Z.leb_le. unfold idle_minutes. by apply idle_minutes_le. }
  rewrite !Hidle.
  destruct en; simpl; [|naive_solver]. destruct core; simpl; [naive_solver|].
  destruct (String.eqb_spec st "Running"); simpl; [|naive_solver].
  assert (0 < Minute) by done.
  destruct (Z.eqb_spec ls 0), (Z.eqb_spec la 0); simpl; cases_Z; simpl; split;
    try done; intros; repeat split; try done; try lia; naive_solver lia.
Qed.

Lemma Decide_sleep_iff_witness :
  d_Action (Decide (mkInput "alice" "Running" true 15 false 1 (100 * Minute) (115 * Minute))) = ActionSleep.
Proof.
  apply Decide_sleep_iff; [simpl; lia|].
  unfold should_sleep, Minute, Second; simpl. repeat split; lia.
Defined.

#[export] Instance should_sleep_dec inp : base.Decision (should_sleep inp).
Proof.
  unfold should_sleep. do 3 (apply and_dec; [apply _|]).
  apply and_dec; [apply impl_dec; apply _|]. destruct (IsZero _); apply _.
Defined.

(** A stopper that logs its calls and fails as [outcome] says. *)
Definition logged (outcome : string -> bool) (user reason : string) (idle : Z)
  (w : list (string * string * Z)) : bool * list (string * string * Z) :=
  (outcome user, w ++ [(user, reason, idle)]).

Definition sleeps (traffic : option (string -> option Time)) (now : Time) (c : ContainerInfo) : bool :=
  bool_decide (should_sleep (input_of traffic now c)).

Definition call_of (traffic : option (string -> option Time)) (now : Time) (c : ContainerInfo)
  : string * string * Z :=
  let d := Decide (input_of traffic now c) in
  (TrimSuffix (ci_Name c) "-container", d_Reason d, d_IdleMinutes d).

Definition threshold_ok (c : ContainerInfo) : Prop := 1 <= ci_IdleThresholdMinutes c <= 2 ^ 16.

Lemma tick_one_spec outcome traffic now c w :
  threshold_ok c ->
  tick_one (logged outcome) (fun _ _ w => w) traffic now c w =
  w ++ (if sleeps traffic now c then [call_of traffic now c] else []).
Proof.
  intros Ht. pose proof (Decide_sleep_iff (input_of traffic now c) Ht) as Hiff.
  unfold tick_one, sleeps. case_bool_decide as Hs.
  - pose proof (proj2 Hiff Hs) as Ha. rewrite Ha. unfold should_sleep in Hs; simpl in Hs.
    destruct Hs as (-> & -> & _). simpl. by destruct (outcome _).
  - rewrite app_nil_r. destruct (IsCoreRole (ci_Role c)); [done|].
    destruct (ci_AutoSleepEnabled c); [simpl|done].
    destruct (d_Action (Decide (input_of traffic now c))) eqn:E; [done|].
    exfalso. by apply Hs, Hiff.
Qed.

(** One tick, whatever the stops' outcomes: the stopper is called exactly for the
    listed containers that should sleep, once each, in listing order, with the
    decision's reason and idle time; a failing stop does not affect the others. *)
Theorem tick_stops outcome traffic cs now w :
  Forall threshold_ok cs ->
  tick (logged outcome) (fun _ _ w => w) traffic (Some cs) now w =
  w ++ map (call_of traffic now) (List.filter (sleeps traffic now) cs).
Proof.
  intros Hcs. simpl. revert w. induction Hcs as [|c cs Hc _ IH]; intros w; simpl; [by rewrite app_nil_r|].
  rewrite tick_one_spec, IH, <- app_assoc by done. f_equal. by destruct (sleeps traffic now c).
Qed.

(** An idle box and a busy one. *)
Definition demo_boxes : list ContainerInfo :=
  [ mkInfo "alice-container" "alice" "Running" ∅ RoleNone true 15 1;
    mkInfo "bob-container" "bob" "Running" ∅ RoleNone true 15 1;
    mkInfo "containarium-core-postgres" "" "Running" ∅ RolePostgres true 15 1 ].

Definition demo_traffic : string -> option Time :=
  LastNetworkActivity (200 * Minute) (Some [mkRow "alice-container" (Some (100 * Minute)); mkRow "bob-container" None]).

Lemma tick_stops_witness :
  map (fun e => e.1.1) (tick (logged (fun _ => false)) (fun _ _ w => w) (Some demo_traffic)
    (Some demo_boxes) (200 * Minute) []) = ["alice"].
Proof.
  rewrite (tick_stops (fun _ => false) (Some demo_traffic) demo_boxes (200 * Minute) []).
  - vm_compute. reflexivity.
  - repeat (apply Forall_cons; split; [unfold threshold_ok; simpl; lia|]). apply Forall_nil. exact I.
Defined.

Lemma max_activity_open dbnow name rows r :
  In r rows -> row_container_name r = name -> row_ended_at r = None ->
  exists t, max_activity dbnow name rows = Some t /\ dbnow <= t.
Proof.
  intros Hin Hn He. induction rows as [|x rows IH]; [done|]. simpl.
  destruct Hin as [->|Hin].
  - rewrite Hn, String.eqb_refl, He. destruct (max_activity dbnow name rows); eexists; split; done || lia.
  - destruct (IH Hin) as (t & -> & Ht).
    destruct (String.eqb _ name); eexists; split; try done; lia.
Qed.

(** A box somebody is connected to is never slept: with an open connection on
    record (no ended_at) and a database clock that is not behind the daemon's by a
    whole threshold, [Decide] answers nothing, however long ago the session began. *)
Theorem open_connection_keeps_awake dbnow rows r now c :
  threshold_ok c -> In r rows -> row_container_name r = ci_Name c -> row_ended_at r = None ->
  0 < dbnow -> now - dbnow < ci_IdleThresholdMinutes c * Minute ->
  d_Action (Decide (input_of (Some (LastNetworkActivity dbnow (Some rows))) now c)) = ActionNothing.
Proof.
  intros Ht Hin Hn He Hpos Hclose.
  destruct (max_activity_open dbnow (ci_Name c) rows r Hin Hn He) as (t & Hmax & Hle).
  destruct (d_Action (Decide _)) eqn:E; [done|].
  apply Decide_sleep_iff in E; [|done]. exfalso. revert E.
  unfold should_sleep, input_of, LastNetworkActivity; simpl. rewrite Hmax; simpl.
  intros (_ & _ & _ & _ & Hlast). unfold IsZero in Hlast.
  destruct (Z.eqb_spec t 0); lia.
Qed.

Lemma open_connection_keeps_awake_witness :
  d_Action (Decide (input_of (Some demo_traffic) (205 * Minute)
    (mkInfo "bob-container" "bob" "Running" ∅ RoleNone true 15 1))) = ActionNothing.
Proof.
  apply (open_connection_keeps_awake (200 * Minute)
    [mkRow "alice-container" (Some (100 * Minute)); mkRow "bob-container" None] (mkRow "bob-container" None)).
  - unfold threshold_ok; simpl; lia.
  - simpl. auto.
  - reflexivity.
  - reflexivity.
  - reflexivity.
  - reflexivity.
Defined.
