(* ===== verification/RunLease.v ===== *)
(** * internal/runlease: ending a run's credentials, and the registry of live runs

    [End] revokes, wipes and removes, in that order.  The revocation store and the
    box executor are interfaces of the source; they are parameters acting on a world
    [W].  An [Exec] that outlives its timer is the outcome [ExecTimeout]. *)

From S2P Require Import Prelude GoStrings GoPath.
From Stdlib Require Import Ascii.
#[local] Open Scope string_scope.
#[local] Open Scope list_scope.
#[local] Open Scope Z_scope.

(** ** Data *)

Inductive Kind := KindPlatformJWT | KindGatewayToken.

Record Credential := mkCred { cr_Kind : Kind; cr_JTI : string; cr_ExpiresAt : Time }.

Record Lease := mkLease {
  l_RunID : string;
  l_Box : string;
  l_SeedDir : string;
  l_Workspace : string;
  l_Credentials : list Credential;
}.

(** The failed steps; the source wraps each cause in a message. *)
Inductive step_error :=
| RevokeFailed (jti : string)
| WipeEmptySeedDir
| WipeFailed
| WipeTimedOut
| SeedDirUnsafe
| WorkspaceUnsafe
| RemoveFailed
| RemoveTimedOut.

Record Outcome := mkOutcome {
  o_Revoked : list string;
  o_Unrevoked : list string;
  o_Wiped : bool;
  o_DirsRemoved : bool;
  o_Errs : list step_error;
}.

Inductive exec_result := ExecOk | ExecErr | ExecTimeout.

(** ** Path safety *)

Definition isSafeToRemove (p : string) : bool :=
  if String.eqb p "" || negb (IsAbs p) || negb (String.eqb (Clean p) p) then false
  else 3 <=? count_char "/"%char (TrimPrefix p "/") + 1.

(** ** Ending a lease *)

Section End.
Context {W : Type}.
(** [Revoke jti expiresAt reason w = (failed, w')]; [None] is a nil store. *)
Context (rev_ : option (string -> Time -> string -> W -> bool * W)).
(** [Exec box cmd w]; [None] is a nil wiper. *)
Context (wiper : option (string -> list string -> W -> exec_result * W)).

Definition revokeOne (c : Credential) (reason : string) (w : W) : bool * option step_error * W :=
  match rev_ with
  | None => (false, None, w)
  | Some Revoke =>
      let '(failed, w') := Revoke (cr_JTI c) (cr_ExpiresAt c) reason w in
      if failed : bool then (false, Some (RevokeFailed (cr_JTI c)), w') else (true, None, w')
  end.

Definition wipe_cmd (seedDir : string) : list string :=
  ["rm"; "-f"; seedDir +:+ "/token"; seedDir +:+ "/gateway.env"].

Definition wipeSeed (box seedDir : string) (w : W) : bool * option step_error * W :=
  match wiper with
  | None => (false, None, w)
  | Some Exec =>
      if String.eqb seedDir "" then (false, Some WipeEmptySeedDir, w)
      else
        let '(r, w') := Exec box (wipe_cmd seedDir) w in
        match r with
        | ExecOk => (true, None, w')
        | ExecErr => (false, Some WipeFailed, w')
        | ExecTimeout => (false, Some WipeTimedOut, w')
        end
  end.

Definition remove_cmd (seedDir workspace : string) : list string :=
  if String.eqb workspace "" then ["rm"; "-rf"; seedDir] else ["rm"; "-rf"; seedDir; workspace].

Definition removeDirs (box seedDir workspace : string) (w : W) : bool * option step_error * W :=
  match wiper with
  | None => (false, None, w)
  | Some Exec =>
      if negb (isSafeToRemove seedDir) then (false, Some SeedDirUnsafe, w)
      else if negb (String.eqb workspace "") && negb (isSafeToRemove workspace)
      then (false, Some WorkspaceUnsafe, w)
      else
        let '(r, w') := Exec box (remove_cmd seedDir workspace) w in
        match r with
        | ExecOk => (true, None, w')
        | ExecErr => (false, Some RemoveFailed, w')
        | ExecTimeout => (false, Some RemoveTimedOut, w')
        end
  end.

Definition opt_list {A} (o : option A) : list A := match o with Some x => [x] | None => [] end.

(** The loop over the credentials: [(revoked, unrevoked, errs)]. *)
Fixpoint revoke_loop (creds : list Credential) (reason : string)
  (acc : list string * list string * list step_error) (w : W)
  : list string * list string * list step_error * W :=
  match creds with
  | [] => (acc, w)
  | c :: rest =>
      let '(revoked, err, w') := revokeOne c reason w in
      let '(rv, un, errs) := acc in
      let acc' := if revoked : bool
                  then (rv ++ [cr_JTI c], un, errs ++ opt_list err)
                  else (rv, un ++ [cr_JTI c], errs ++ opt_list err) in
      revoke_loop rest reason acc' w'
  end.

Definition End (l : Lease) (reason : string) (w : W) : Outcome * W :=
  let '(rv, un, errs, w1) := revoke_loop (l_Credentials l) reason ([], [], []) w in
  let '(wiped, e2, w2) := wipeSeed (l_Box l) (l_SeedDir l) w1 in
  let '(removed, e3, w3) := removeDirs (l_Box l) (l_SeedDir l) (l_Workspace l) w2 in
  ({| o_Revoked := rv; o_Unrevoked := un; o_Wiped := wiped; o_DirsRemoved := removed;
      o_Errs := errs ++ opt_list e2 ++ opt_list e3 |}, w3).
End End.

(** ** The registry of live runs *)

Record Info := mkRunInfo {
  in_SkillID : string; in_Model : string; in_Box : string;
  in_GitCommit : string; in_Workspace : string; in_GitRef : string;
}.

Abbreviation Registry := (gmap string Info).

Definition NewRegistry : Registry := ∅.
Definition Register (runID : string) (info : Info) (r : Registry) : Registry := <[runID := info]> r.
Definition Unregister (runID : string) (r : Registry) : Registry := delete runID r.
Definition Get (runID : string) (r : Registry) : option Info := r !! runID.
Definition Live (runID : string) (r : Registry) : bool :=
  match Get runID r with Some _ => true | None => false end.

(** ** The paths [rm -rf] may be given *)

(** A path passes [isSafeToRemove] exactly when it is "/" followed by at least
    three slash-separated elements, none of them empty, "." or "..": the root,
    its children and its grandchildren are refused, as is every path that leaves
    its own prefix. *)
Theorem isSafeToRemove_iff p :
  isSafeToRemove p = true <->
  exists es, (3 <= length es)%nat /\ Forall proper_elem es /\ p = "/" +:+ join_slash es.
Proof.
  unfold isSafeToRemove. destruct (String.eqb_spec p "/") as [->|Hroot].
  { split; [by vm_compute|]. intros (es & Hl & Hes & Hp).
    change "/" with ("/" +:+ "") in Hp at 1. apply string_app_inj_l in Hp.
    assert (Hj := count_join es Hes ltac:(by intros ->; simpl in Hl; lia)).
    rewrite <- Hp in Hj. simpl in Hj. lia. }
  assert (Hlen : forall es, Forall proper_elem es -> es <> [] ->
    count_char "/" (TrimPrefix ("/" +:+ join_slash es) "/") + 1 = Z.of_nat (length es)).
  { intros es Hes Hne. unfold TrimPrefix. rewrite HasPrefix_app, (drop_str_app "/"), count_join by done. lia. }
  destruct (decide (IsAbs p = true /\ Clean p = p)) as [HC|HC].
  - pose proof HC as [-> ->]. rewrite String.eqb_refl. simpl.
    apply clean_abs_iff in HC as (es & Hne & Hes & ->); [|done].
    change (String.eqb ("/" +:+ join_slash es) "") with false. simpl. rewrite Hlen, Z.leb_le by done.
    split.
    + intros ?. exists es. split_and!; [lia|done..].
    + intros (es' & Hl & Hes' & Heq). apply string_app_inj_l in Heq.
      assert (es' <> []) by (by intros ->; simpl in Hl; lia).
      assert (es = es') as -> by (by rewrite <- (split_join es), <- (split_join es'), Heq). lia.
  - split.
    + destruct (String.eqb_spec p ""); [done|]. destruct (IsAbs p); [|done].
      destruct (String.eqb_spec (Clean p) p); [|done]. simpl. tauto.
    + intros (es & Hl & Hes & Hp). destruct HC. apply clean_abs_iff; [done|].
      exists es. split_and!; [by intros ->; simpl in Hl; lia|done..].
Qed.

(** ** What [End] does

    A recording of the two interfaces: every call is logged with its result. *)

Inductive action :=
| ARevoke (jti : string) (expiresAt : Time) (reason : string) (failed : bool)
| AExec (box : string) (cmd : list string) (r : exec_result).

Section Trace.
Context {W : Type}.
Context (Revoke : string -> Time -> string -> W -> bool * W).
Context (Exec : string -> list string -> W -> exec_result * W).

Definition log_revoke (jti : string) (e : Time) (reason : string) (s : W * list action)
  : bool * (W * list action) :=
  let '(f, w') := Revoke jti e reason s.1 in (f, (w', s.2 ++ [ARevoke jti e reason f])).
Definition log_exec (box : string) (cmd : list string) (s : W * list action)
  : exec_result * (W * list action) :=
  let '(r, w') := Exec box cmd s.1 in (r, (w', s.2 ++ [AExec box cmd r])).

(** What an action asks for, without its result. *)
Definition request (a : action) : action :=
  match a with
  | ARevoke j e r _ => ARevoke j e r false
  | AExec b c _ => AExec b c ExecOk
  end.

Definition revoke_requests (reason : string) (creds : list Credential) : list action :=
  map (fun c => ARevoke (cr_JTI c) (cr_ExpiresAt c) reason false) creds.

Definition accepted (a : action) : list string :=
  match a with ARevoke j _ _ false => [j] | _ => [] end.
Definition refused (a : action) : list string :=
  match a with ARevoke j _ _ true => [j] | _ => [] end.

Lemma revoke_loop_trace creds reason rv un errs w tr :
  exists w' tr',
    revoke_loop (Some log_revoke) creds reason (rv, un, errs) (w, tr) =
      ((rv ++ concat (map accepted tr'), un ++ concat (map refused tr'),
        errs ++ map RevokeFailed (concat (map refused tr'))), (w', tr ++ tr'))
    /\ map request tr' = revoke_requests reason creds.
Proof.
  revert rv un errs w tr. induction creds as [|c creds IH]; intros rv un errs w tr; simpl.
  { exists w, []. simpl. by rewrite !app_nil_r. }
  unfold log_revoke. simpl.
  destruct (Revoke (cr_JTI c) (cr_ExpiresAt c) reason w) as [f w1]. simpl.
  destruct f.
  - destruct (IH rv (un ++ [cr_JTI c]) (errs ++ [RevokeFailed (cr_JTI c)]) w1
      (tr ++ [ARevoke (cr_JTI c) (cr_ExpiresAt c) reason true])) as (w' & tr' & Heq & Hr).
    exists w', (ARevoke (cr_JTI c) (cr_ExpiresAt c) reason true :: tr').
    simpl. unfold log_revoke in Heq. rewrite Heq, Hr, <- !app_assoc. done.
  - destruct (IH (rv ++ [cr_JTI c]) un (errs ++ []) w1
      (tr ++ [ARevoke (cr_JTI c) (cr_ExpiresAt c) reason false])) as (w' & tr' & Heq & Hr).
    exists w', (ARevoke (cr_JTI c) (cr_ExpiresAt c) reason false :: tr').
    simpl. unfold log_revoke in Heq. rewrite Heq, Hr, <- !app_assoc. done.
Qed.

(** The two box commands [End] is due to run for a lease. *)
Definition wipe_due (l : Lease) : list action :=
  if String.eqb (l_SeedDir l) "" then []
  else [AExec (l_Box l) (wipe_cmd (l_SeedDir l)) ExecOk].
Definition remove_safe (l : Lease) : bool :=
  isSafeToRemove (l_SeedDir l) && (String.eqb (l_Workspace l) "" || isSafeToRemove (l_Workspace l)).
Definition remove_due (l : Lease) : list action :=
  if remove_safe l then [AExec (l_Box l) (remove_cmd (l_SeedDir l) (l_Workspace l)) ExecOk] else [].

Definition ran_ok (tr : list action) : bool :=
  match tr with [AExec _ _ ExecOk] => true | _ => false end.

Lemma timed_exec_trace box cmd e1 e2 w tr :
  exists e w' tr',
    (let '(r, w') := log_exec box cmd (w, tr) in
     match r with
     | ExecOk => (true, None, w')
     | ExecErr => (false, Some e1, w')
     | ExecTimeout => (false, Some e2, w')
     end) = (ran_ok tr', e, (w', tr ++ tr'))
    /\ map request tr' = [AExec box cmd ExecOk]
    /\ length (opt_list (A:=step_error) e) = (if ran_ok tr' then 0 else 1)%nat.
Proof.
  unfold log_exec. simpl. destruct (Exec box cmd w) as [r w1].
  exists (match r with ExecOk => None | ExecErr => Some e1 | ExecTimeout => Some e2 end), w1,
    [AExec box cmd r].
  by destruct r.
Qed.

Lemma wipeSeed_trace l w tr :
  exists e w' tr',
    wipeSeed (Some log_exec) (l_Box l) (l_SeedDir l) (w, tr) = (ran_ok tr', e, (w', tr ++ tr'))
    /\ map request tr' = wipe_due l /\ length (opt_list e) = (if ran_ok tr' then 0 else 1)%nat.
Proof.
  unfold wipeSeed, wipe_due. destruct (String.eqb (l_SeedDir l) "").
  - by exists (Some WipeEmptySeedDir), w, []; rewrite app_nil_r.
  - apply timed_exec_trace.
Qed.

Lemma removeDirs_trace l w tr :
  exists e w' tr',
    removeDirs (Some log_exec) (l_Box l) (l_SeedDir l) (l_Workspace l) (w, tr)
      = (ran_ok tr', e, (w', tr ++ tr'))
    /\ map request tr' = remove_due l /\ length (opt_list e) = (if ran_ok tr' then 0 else 1)%nat.
Proof.
  unfold removeDirs, remove_due, remove_safe.
  destruct (isSafeToRemove (l_SeedDir l)); simpl;
    [|by exists (Some SeedDirUnsafe), w, []; rewrite app_nil_r].
  destruct (String.eqb (l_Workspace l) ""), (isSafeToRemove (l_Workspace l)); simpl;
    try apply timed_exec_trace.
  by exists (Some WorkspaceUnsafe), w, []; rewrite app_nil_r.
Qed.

(** Whatever the store and the box answer, ending a lease makes exactly one
    revocation request per credential, in order, then the wipe of the seed files
    (unless the seed directory is empty), then the removal of the directories
    (when both paths are safe); no failure cancels a later step.  The outcome is the
    account of those calls: the accepted and the refused ids, whether the wipe and
    the removal succeeded, and an error for every refused revocation and for every
    box step that did not succeed. *)
Theorem End_runs_every_step l reason w :
  exists trR trW trD,
    let '(out, (_, tr)) := End (Some log_revoke) (Some log_exec) l reason (w, []) in
    tr = trR ++ trW ++ trD
    /\ map request trR = revoke_requests reason (l_Credentials l)
    /\ map request trW = wipe_due l
    /\ map request trD = remove_due l
    /\ o_Revoked out = concat (map accepted trR)
    /\ o_Unrevoked out = concat (map refused trR)
    /\ o_Wiped out = ran_ok trW
    /\ o_DirsRemoved out = ran_ok trD
    /\ length (o_Errs out) = (length (o_Unrevoked out) + (if o_Wiped out then 0 else 1)
                               + (if o_DirsRemoved out then 0 else 1))%nat.
Proof.
  unfold End.
  destruct (revoke_loop_trace (l_Credentials l) reason [] [] [] w []) as (w1 & trR & -> & HR).
  destruct (wipeSeed_trace l w1 ([] ++ trR)) as (e2 & w2 & trW & -> & HW & He2).
  destruct (removeDirs_trace l w2 (([] ++ trR) ++ trW)) as (e3 & w3 & trD & -> & HD & He3).
  exists trR, trW, trD. simpl. rewrite <- app_assoc. split_and!; try done.
  rewrite !length_app, length_map.
  rewrite He2, He3. lia.
Qed.
End Trace.

(** Every credential of the lease is reported exactly once, as revoked or as
    unrevoked, for every store (none included) and every box. *)
Theorem End_accounts_for_every_credential {W} rev_ wiper l reason (w : W) :
  o_Revoked (End rev_ wiper l reason w).1 ++ o_Unrevoked (End rev_ wiper l reason w).1
    ≡ₚ map cr_JTI (l_Credentials l).
Proof.
  unfold End.
  assert (H : forall creds rv un errs w,
    let '(rv', un', _, _) := revoke_loop rev_ creds reason (rv, un, errs) w in
    rv' ++ un' ≡ₚ rv ++ un ++ map cr_JTI creds).
  { induction creds as [|c creds IH]; intros rv un errs w0; simpl; [by rewrite app_nil_r|].
    destruct (revokeOne rev_ c reason w0) as [[[] e] w1];
    [specialize (IH (rv ++ [cr_JTI c]) un (errs ++ opt_list e) w1)
    |specialize (IH rv (un ++ [cr_JTI c]) (errs ++ opt_list e) w1)];
    destruct (revoke_loop rev_ creds reason _ w1) as [[[rv' un'] errs'] w'];
    rewrite IH; solve_Permutation. }
  specialize (H (l_Credentials l) [] [] [] w).
  destruct (revoke_loop rev_ (l_Credentials l) reason ([], [], []) w) as [[[rv un] errs] w1].
  destruct (wipeSeed wiper (l_Box l) (l_SeedDir l) w1) as [[wiped e2] w2].
  destruct (removeDirs wiper (l_Box l) (l_SeedDir l) (l_Workspace l) w2) as [[removed e3] w3].
  exact H.
Qed.
