(* ===== verification/Pool.v ===== *)
(** * internal/sandbox/pool: the warm pool of sandbox containers

    [Pool] is the struct of the same name.  The mutex makes [Claim], [planLocked] and
    the deferred block of [warmOne] atomic; the I/O between them is not.  A warm-up
    or a destroy in flight is therefore a [task] whose constructors are the
    points at which another goroutine may run, and [task_step] executes the code up to the
    next such point.  The answers of the outside world (random bytes, clock,
    whether a backend call succeeded) are the record [answers].  The pool is
    written against the class [AddressAllocator], of which the ipam allocator is an
    instance.  A [*Member] is identified by [m_ptr]. *)

From S2P Require Import Prelude GoStrings GoNet GoBytes Ipam.
From Stdlib Require Import Ascii.
#[local] Open Scope string_scope.
#[local] Open Scope list_scope.
#[local] Open Scope Z_scope.

#[local] Arguments ipFromUint32 : simpl never.
#[local] Arguments String4 : simpl never.
#[local] Arguments ipToUint32 : simpl never.

(** ** Data *)

Abbreviation SandboxTemplate := Z (only parsing).

Record Member := mkMember {
  m_ptr : nat;
  m_ID : string;
  m_Template : SandboxTemplate;
  m_IP : string;
  m_WarmedAt : Time;
}.

Record Config := mkConfig {
  c_MinWarm : gmap Z Z;
  c_Image : gmap Z string;
  c_NICNetwork : string;
}.

Record Pool (A : Type) := mkPool {
  p_ipam : A;
  p_cfg : Config;
  p_ready : gmap Z (list Member);
  p_warming : gmap Z Z;
}.
Arguments mkPool {A}. Arguments p_ipam {A}. Arguments p_cfg {A}.
Arguments p_ready {A}. Arguments p_warming {A}.

Record TemplateStatus := mkStatus {
  ts_Template : SandboxTemplate; ts_Ready : Z; ts_Warming : Z; ts_MinWarm : Z;
}.

(** The calls made to the container backend. *)
Inductive backend_call :=
| CreateContainer (name image nic network ipv4 : string)
| StartContainer (name : string)
| StopContainer (name : string) (force : bool)
| DeleteContainer (name : string).

(** ** Member ids: "sandbox-" and six random bytes in hexadecimal *)

Definition memberNamePrefix : string := "sandbox-".

Definition newMemberID (rand : option (list Z)) : option string :=
  match rand with
  | None => None
  | Some b => Some (memberNamePrefix +:+ hexEncode b)
  end.

(** ** Operations *)

(** The comparison [Status] sorts by. *)
Definition by_template (a b : TemplateStatus) : Prop := ts_Template a <= ts_Template b.
#[export] Instance by_template_dec a b : Decision (by_template a b).
Proof. unfold by_template. apply _. Defined.

Section ops.
Context {A : Type} `{AA : AddressAllocator A}.
Implicit Types p : Pool A.

Definition New (allocator : A) (cfg : Config) : Pool A :=
  {| p_ipam := allocator; p_cfg := cfg; p_ready := ∅; p_warming := ∅ |}.

Definition ready_of p (t : Z) : list Member := default [] (p_ready p !! t).
Definition warming_of p (t : Z) : Z := default 0 (p_warming p !! t).

Definition set_ready p (t : Z) (ms : list Member) : Pool A :=
  {| p_ipam := p_ipam p; p_cfg := p_cfg p; p_ready := <[t := ms]> (p_ready p);
     p_warming := p_warming p |}.
Definition set_warming p (t : Z) (n : Z) : Pool A :=
  {| p_ipam := p_ipam p; p_cfg := p_cfg p; p_ready := p_ready p;
     p_warming := <[t := n]> (p_warming p) |}.
Definition set_ipam p (a : A) : Pool A :=
  {| p_ipam := a; p_cfg := p_cfg p; p_ready := p_ready p; p_warming := p_warming p |}.

(** [None] is ErrPoolExhausted. *)
Definition Claim (template : Z) p : option Member * Pool A :=
  match ready_of p template with
  | [] => (None, p)
  | m :: rest => (Some m, set_ready p template rest)
  end.

Definition ReadyCount (template : Z) p : Z := Z.of_nat (length (ready_of p template)).

(** [order] is the order in which the runtime iterates over [MinWarm]; the template
    is the sort key. *)
Definition Status (order : list (Z * Z)) p : list TemplateStatus :=
  merge_sort by_template
    (map (fun '(template, minWarm) =>
            {| ts_Template := template; ts_Ready := Z.of_nat (length (ready_of p template));
               ts_Warming := warming_of p template; ts_MinWarm := minWarm |}) order).

(** One iteration of [planLocked]'s loop.  [None] is the run-time panic of slicing a ring
    beyond its end, which a negative target provokes. *)
Definition plan_one (template target : Z) (toWarm : list Z) (toTrim : list Member) p
  : option (list Z * list Member * Pool A) :=
  let readyCount := Z.of_nat (length (ready_of p template)) in
  let total := readyCount + warming_of p template in
  if total <? target then
    let short := target - total in
    Some (toWarm ++ replicate (Z.to_nat short) template, toTrim,
          set_warming p template (warming_of p template + short))
  else if target <? readyCount then
    let excess := readyCount - target in
    if readyCount <? excess then None
    else Some (toWarm, toTrim ++ take (Z.to_nat excess) (ready_of p template),
               set_ready p template (drop (Z.to_nat excess) (ready_of p template)))
  else Some (toWarm, toTrim, p).

Fixpoint plan_loop (order : list (Z * Z)) (toWarm : list Z) (toTrim : list Member) p
  : option (list Z * list Member * Pool A) :=
  match order with
  | [] => Some (toWarm, toTrim, p)
  | (template, target) :: rest =>
      match plan_one template target toWarm toTrim p with
      | None => None
      | Some (tw, tr, p') => plan_loop rest tw tr p'
      end
  end.

Definition planLocked (order : list (Z * Z)) p : option (list Z * list Member * Pool A) :=
  plan_loop order [] [] p.

(** ** Work in flight *)

Inductive task :=
| WarmBegin (t : Z)
| WarmCreate (t : Z) (id image : string) (ip : IP)
| WarmStart (t : Z) (id : string) (ip : IP)
| WarmUndoCreate (t : Z) (id : string) (ip : IP)
| WarmUndoAllocate (t : Z) (ip : IP)
| WarmDeferred (t : Z) (member : option Member)
| DestroyStop (m : Member)
| DestroyDelete (m : Member)
| DestroyFree (m : Member) (deleteErr : bool).

Inductive progress := Continue (k : task) | Finished (err : bool).

Record answers := mkAnswers {
  an_ptr : nat;
  an_rand : option (list Z);
  an_now : Time;
  an_ok : bool;
}.

(** The code of [warmOne] and [destroy] up to its next blocking point. *)
Definition task_step (an : answers) (k : task) p : progress * list backend_call * Pool A :=
  match k with
  | WarmBegin t =>
      match c_Image (p_cfg p) !! t with
      | None => (Continue (WarmDeferred t None), [], p)
      | Some image =>
          match newMemberID (an_rand an) with
          | None => (Continue (WarmDeferred t None), [], p)
          | Some id =>
              match aa_allocate (an_now an) (p_ipam p) with
              | (None, a) => (Continue (WarmDeferred t None), [], set_ipam p a)
              | (Some ip, a) => (Continue (WarmCreate t id image ip), [], set_ipam p a)
              end
          end
      end
  | WarmCreate t id image ip =>
      (Continue (if an_ok an then WarmStart t id ip else WarmUndoAllocate t ip),
       [CreateContainer id image "eth0" (c_NICNetwork (p_cfg p)) (String4 ip)], p)
  | WarmStart t id ip =>
      (Continue (if an_ok an
                 then WarmDeferred t (Some {| m_ptr := an_ptr an; m_ID := id; m_Template := t;
                                              m_IP := String4 ip; m_WarmedAt := an_now an |})
                 else WarmUndoCreate t id ip),
       [StartContainer id], p)
  | WarmUndoCreate t id ip => (Continue (WarmUndoAllocate t ip), [DeleteContainer id], p)
  | WarmUndoAllocate t ip =>
      (Continue (WarmDeferred t None), [], set_ipam p (aa_release (an_now an) ip (p_ipam p)).2)
  | WarmDeferred t member =>
      let p1 := set_warming p t (warming_of p t - 1) in
      (Finished false, [],
       match member with
       | Some m => set_ready p1 t (ready_of p1 t ++ [m])
       | None => p1
       end)
  | DestroyStop m => (Continue (DestroyDelete m), [StopContainer (m_ID m) true], p)
  | DestroyDelete m => (Continue (DestroyFree m (negb (an_ok an))), [DeleteContainer (m_ID m)], p)
  | DestroyFree m deleteErr =>
      (Finished deleteErr, [],
       match ParseIP (m_IP m) with
       | Some ip => set_ipam p (aa_release (an_now an) ip (p_ipam p)).2
       | None => p
       end)
  end.

Definition warmOne (template : Z) : task := WarmBegin template.
Definition destroy (m : Member) : task := DestroyStop m.
Definition Release (m : Member) : task := destroy m.

(** [Reconcile] plans under the lock, then starts one goroutine per item; [cancelled]
    is [ctx.Err() != nil]. *)
Definition Reconcile (cancelled : bool) (order : list (Z * Z)) p : option (list task * Pool A) :=
  if cancelled then Some ([], p)
  else match planLocked order p with
       | None => None
       | Some (toWarm, toTrim, p') => Some (map warmOne toWarm ++ map destroy toTrim, p')
       end.
End ops.

(** ** The running system

    The pool, the work in flight, the members the callers own, the next pointer,
    and every member ever claimed (newest first).  Callers release what they own. *)

Record sys (A : Type) := mkSys {
  s_pool : Pool A;
  s_tasks : list task;
  s_owned : list Member;
  s_next : nat;
  s_claims : list Member;
}.
Arguments mkSys {A}. Arguments s_pool {A}. Arguments s_tasks {A}.
Arguments s_owned {A}. Arguments s_next {A}. Arguments s_claims {A}.

Section system.
Context {A : Type} `{AA : AddressAllocator A}.
Implicit Types (p : Pool A) (s : sys A).

Inductive step : sys A -> sys A -> Prop :=
| step_reconcile s cancelled order ks p' :
    order ≡ₚ map_to_list (c_MinWarm (p_cfg (s_pool s))) ->
    Reconcile cancelled order (s_pool s) = Some (ks, p') ->
    step s (mkSys p' (s_tasks s ++ ks) (s_owned s) (s_next s) (s_claims s))
| step_task p l1 k l2 owned next claims an k' calls p' :
    an_ptr an = next -> task_step an k p = (Continue k', calls, p') ->
    step (mkSys p (l1 ++ k :: l2) owned next claims)
         (mkSys p' (l1 ++ k' :: l2) owned (S next) claims)
| step_finish p l1 k l2 owned next claims an err calls p' :
    task_step an k p = (Finished err, calls, p') ->
    step (mkSys p (l1 ++ k :: l2) owned next claims) (mkSys p' (l1 ++ l2) owned next claims)
| step_claim s t m p' :
    Claim t (s_pool s) = (Some m, p') ->
    step s (mkSys p' (s_tasks s) (m :: s_owned s) (s_next s) (m :: s_claims s))
| step_release p tasks l1 m l2 next claims :
    step (mkSys p tasks (l1 ++ m :: l2) next claims)
         (mkSys p (tasks ++ [Release m]) (l1 ++ l2) next claims).

Definition initial (a : A) (cfg : Config) : sys A := mkSys (New a cfg) [] [] 0 [].

Definition reachable (a : A) (cfg : Config) : sys A -> Prop := rtc step (initial a cfg).

(** ** What the system holds *)

Definition member_addr (m : Member) : option Z := ParseIP (m_IP m) ≫= ipToUint32.

Definition task_addr (k : task) : option Z :=
  match k with
  | WarmBegin _ | WarmDeferred _ None => None
  | WarmCreate _ _ _ ip | WarmStart _ _ ip | WarmUndoCreate _ _ ip | WarmUndoAllocate _ ip => ipToUint32 ip
  | WarmDeferred _ (Some m) | DestroyStop m | DestroyDelete m | DestroyFree m _ => member_addr m
  end.

Definition flat (m : gmap Z (list Member)) : list Member := flat_map snd (map_to_list m).
Definition ready_list p : list Member := flat (p_ready p).

(** The address of every ready member, every warm-up and destroy in flight, and every member
    a caller owns. *)
Definition addresses s : list Z :=
  omap member_addr (ready_list (s_pool s)) ++ omap task_addr (s_tasks s)
    ++ omap member_addr (s_owned s).

(** The template a task is warming a member for. *)
Definition warms (k : task) : option Z :=
  match k with
  | WarmBegin t | WarmCreate t _ _ _ | WarmStart t _ _ | WarmUndoCreate t _ _
  | WarmUndoAllocate t _ | WarmDeferred t _ => Some t
  | _ => None
  end.

Definition in_flight (t : Z) (ks : list task) : Z :=
  Z.of_nat (length (filter (fun k => warms k = Some t) ks)).

(** ** Well-formed values *)

(** A member carries the printed form of an IPv4 address. *)
Definition member_ok (m : Member) : Prop :=
  exists v, 0 <= v < 2 ^ 32 /\ m_IP m = String4 (ipFromUint32 v).

Definition task_ok (k : task) : Prop :=
  match k with
  | WarmBegin _ | WarmDeferred _ None => True
  | WarmCreate _ _ _ ip | WarmStart _ _ ip | WarmUndoCreate _ _ ip | WarmUndoAllocate _ ip =>
      exists v, 0 <= v < 2 ^ 32 /\ ip = ipFromUint32 v
  | WarmDeferred t (Some m) => member_ok m /\ m_Template m = t
  | DestroyStop m | DestroyDelete m | DestroyFree m _ => member_ok m
  end.

(** The member a finished warm-up is about to publish. *)
Definition pending (k : task) : option Member :=
  match k with WarmDeferred _ om => om | _ => None end.

(** Pointers of the members that are, will be or have been claimable. *)
Definition pointers s : list nat :=
  map m_ptr (ready_list (s_pool s) ++ omap pending (s_tasks s) ++ s_claims s).

Record inv s : Prop := {
  inv_ipam : aa_inv (p_ipam (s_pool s));
  inv_nodup : NoDup (addresses s);
  inv_held : aa_held (p_ipam (s_pool s)) = list_to_set (addresses s);
  inv_ready : forall t, Forall (fun m => member_ok m /\ m_Template m = t) (ready_of (s_pool s) t);
  inv_tasks : Forall task_ok (s_tasks s);
  inv_owned : Forall member_ok (s_owned s);
  inv_warming : forall t, warming_of (s_pool s) t = in_flight t (s_tasks s);
  inv_ptrs : NoDup (pointers s);
  inv_fresh : Forall (fun n => (n < s_next s)%nat) (pointers s);
}.

(** ** Lemmas: the flattened ring *)

Lemma flat_split m t : flat m ≡ₚ default [] (m !! t) ++ flat (delete t m).
Proof.
  unfold flat. destruct (m !! t) as [l|] eqn:E; simpl.
  - by rewrite <- (map_to_list_delete m t l E).
  - by rewrite delete_id.
Qed.

Lemma flat_insert m t l : flat (<[t := l]> m) ≡ₚ l ++ flat (delete t m).
Proof. by rewrite (flat_split _ t), lookup_insert_eq, delete_insert_eq. Qed.

Lemma ready_set_eq p t l : ready_of (set_ready p t l) t = l.
Proof. unfold ready_of. simpl. by rewrite lookup_insert_eq. Qed.
Lemma ready_set_ne p t u l : t <> u -> ready_of (set_ready p t l) u = ready_of p u.
Proof. intros. unfold ready_of. simpl. by rewrite lookup_insert_ne. Qed.
Lemma warming_set_eq p t n : warming_of (set_warming p t n) t = n.
Proof. unfold warming_of. simpl. by rewrite lookup_insert_eq. Qed.
Lemma warming_set_ne p t u n : t <> u -> warming_of (set_warming p t n) u = warming_of p u.
Proof. intros. unfold warming_of. simpl. by rewrite lookup_insert_ne. Qed.

(** Splitting a ring in front and back moves its members, nothing else. *)
Lemma ready_list_set p t l l' :
  ready_of p t ≡ₚ l ++ l' -> ready_list p ≡ₚ l ++ ready_list (set_ready p t l').
Proof.
  intros H. unfold ready_list. simpl. rewrite flat_insert, (flat_split _ t).
  unfold ready_of in H. rewrite H. by rewrite app_assoc.
Qed.

Lemma in_flight_app t ks1 ks2 : in_flight t (ks1 ++ ks2) = in_flight t ks1 + in_flight t ks2.
Proof. unfold in_flight. rewrite filter_app, length_app. lia. Qed.

Lemma in_flight_cons t k ks :
  in_flight t (k :: ks) = (if decide (warms k = Some t) then 1 else 0) + in_flight t ks.
Proof.
  unfold in_flight. rewrite filter_cons. destruct (decide (warms k = Some t)); simpl length; lia.
Qed.

Lemma in_flight_nonneg t ks : 0 <= in_flight t ks.
Proof. unfold in_flight. lia. Qed.

(** ** Lemmas: planning *)

(** What one pass of the loop, and the whole loop, does to the pool: [tw] templates
    are added to the warm-up list, the members [tr] leave the rings. *)
Record planned p (tw : list Z) (tr : list Member) p' : Prop := {
  pl_ipam : p_ipam p' = p_ipam p;
  pl_cfg : p_cfg p' = p_cfg p;
  pl_ready : ready_list p ≡ₚ tr ++ ready_list p';
  pl_rings : forall t, exists out, ready_of p t = out ++ ready_of p' t /\ Forall (fun m => m ∈ tr) out;
  pl_trim : Forall (fun m => exists t, m ∈ ready_of p t) tr;
  pl_warming : forall t, warming_of p' t = warming_of p t + in_flight t (map warmOne tw);
}.

Lemma in_flight_replicate t u n :
  in_flight u (map warmOne (replicate n t)) = if decide (t = u) then Z.of_nat n else 0.
Proof.
  induction n as [|n IH]; simpl map; [by destruct (decide (t = u))|].
  rewrite in_flight_cons, IH. simpl.
  destruct (decide (t = u)); destruct (decide (Some t = Some u)); simplify_eq; lia.
Qed.

Lemma planned_refl p : planned p [] [] p.
Proof.
  split; try done; intros t; simpl.
  - by exists [].
  - unfold in_flight. simpl. lia.
Qed.

Lemma planned_trans p tw tr p1 tw' tr' p2 :
  planned p tw tr p1 -> planned p1 tw' tr' p2 -> planned p (tw ++ tw') (tr ++ tr') p2.
Proof.
  intros [Hi Hc Hr Hg Ht Hw] [Hi' Hc' Hr' Hg' Ht' Hw']. split; [congruence|congruence| | | |].
  - by rewrite Hr, Hr', app_assoc.
  - intros t. destruct (Hg t) as (o1 & E1 & F1), (Hg' t) as (o2 & E2 & F2).
    exists (o1 ++ o2). split; [by rewrite E1, E2, app_assoc|].
    apply Forall_app. split; [eapply Forall_impl; [exact F1|]|eapply Forall_impl; [exact F2|]];
      intros m; simpl; rewrite elem_of_app; tauto.
  - apply Forall_app. split; [done|]. eapply Forall_impl; [exact Ht'|]. simpl. intros m (t & Hm).
    exists t. destruct (Hg t) as (o1 & -> & _). apply elem_of_app. by right.
  - intros t. rewrite Hw', Hw, map_app, in_flight_app. lia.
Qed.

Lemma plan_one_planned t n tw tr p tw' tr' p' :
  plan_one t n tw tr p = Some (tw', tr', p') ->
  exists tw1 tr1, tw' = tw ++ tw1 /\ tr' = tr ++ tr1 /\ planned p tw1 tr1 p'.
Proof.
  unfold plan_one. set (r := Z.of_nat (length (ready_of p t))).
  destruct (Z.ltb_spec (r + warming_of p t) n).
  { intros [= <- <- <-]. exists (replicate (Z.to_nat (n - (r + warming_of p t))) t), [].
    rewrite app_nil_r. split_and!; [done..|]. split; try done.
    - intros u. by exists [].
    - intros u. rewrite in_flight_replicate. destruct (decide (t = u)) as [<-|].
      + rewrite warming_set_eq. lia.
      + rewrite warming_set_ne by done. lia. }
  destruct (Z.ltb_spec n r).
  - destruct (Z.ltb_spec r (r - n)); [done|]. intros [= <- <- <-].
    set (e := Z.to_nat (r - n)).
    exists [], (take e (ready_of p t)). rewrite app_nil_r. split_and!; [done..|].
    split; try done.
    + apply ready_list_set. by rewrite take_drop.
    + intros u. destruct (decide (t = u)) as [<-|].
      * exists (take e (ready_of p t)). rewrite ready_set_eq, take_drop. split; [done|].
        by apply Forall_forall.
      * exists []. by rewrite ready_set_ne.
    + apply Forall_forall. intros m Hm. exists t. apply elem_of_take in Hm as (i & Hm & _).
      by eapply list_elem_of_lookup_2.
    + intros u. unfold in_flight. simpl. unfold warming_of. simpl. lia.
  - intros [= <- <- <-]. exists [], []. rewrite !app_nil_r. split_and!; [done..|]. apply planned_refl.
Qed.

Lemma plan_loop_planned order tw tr p tw' tr' p' :
  plan_loop order tw tr p = Some (tw', tr', p') ->
  exists tw1 tr1, tw' = tw ++ tw1 /\ tr' = tr ++ tr1 /\ planned p tw1 tr1 p'.
Proof.
  revert tw tr p. induction order as [|[t n] order IH]; intros tw tr p; simpl.
  { intros [= <- <- <-]. exists [], []. rewrite !app_nil_r. split_and!; [done..|]. apply planned_refl. }
  destruct (plan_one t n tw tr p) as [[[tw1 tr1] p1]|] eqn:E; [|done]. intros H.
  apply plan_one_planned in E as (a & b & -> & -> & H1).
  apply IH in H as (c & d & -> & -> & H2). exists (a ++ c), (b ++ d).
  rewrite !app_assoc. split_and!; [done..|]. by eapply planned_trans.
Qed.

(** ** Lemmas: addresses *)

Lemma member_addr_ok v m : 0 <= v < 2 ^ 32 -> m_IP m = String4 (ipFromUint32 v) -> member_addr m = Some v.
Proof.
  intros Hv Hm. unfold member_addr. rewrite Hm, ParseIP_String4; [|done|apply PutUint32_octets].
  simpl. unfold ipToUint32. rewrite <- (Uint32_PutUint32 v) at 2 by done. done.
Qed.

(** How a step may change the one address it works on, and the held set with it. *)
Definition moves (oa : option Z) (held : gset Z) (oa' : option Z) (held' : gset Z) : Prop :=
  oa' = oa /\ held' = held \/
  (exists v, oa = None /\ oa' = Some v /\ v ∉ held /\ held' = {[v]} ∪ held) \/
  (exists v, oa = Some v /\ oa' = None /\ held' = held ∖ {[v]}).

Lemma moves_exact base oa held oa' held' :
  NoDup (option_list oa ++ base) -> held = list_to_set (option_list oa ++ base) ->
  moves oa held oa' held' ->
  NoDup (option_list oa' ++ base) /\ held' = list_to_set (option_list oa' ++ base).
Proof.
  intros Hn Hh [[-> ->]|[(v & -> & -> & Hv & ->)|(v & -> & -> & ->)]]; simpl in *; [done|..]; subst held.
  - split; [|done]. apply NoDup_cons. split; [set_solver|done].
  - apply NoDup_cons in Hn as [Hv Hn]. split; [done|]. set_solver.
Qed.

Lemma addresses_task p l1 k l2 o n c :
  addresses (mkSys p (l1 ++ k :: l2) o n c) ≡ₚ option_list (task_addr k) ++ addresses (mkSys p (l1 ++ l2) o n c).
Proof.
  unfold addresses. simpl. rewrite !omap_app. simpl. destruct (task_addr k); simpl; solve_Permutation.
Qed.

Lemma pointers_task p l1 k l2 o n c :
  pointers (mkSys p (l1 ++ k :: l2) o n c) ≡ₚ
  map m_ptr (option_list (pending k)) ++ pointers (mkSys p (l1 ++ l2) o n c).
Proof.
  unfold pointers. simpl. rewrite !omap_app, !map_app. simpl.
  destruct (pending k); simpl; solve_Permutation.
Qed.

Lemma in_flight_task t l1 k l2 :
  in_flight t (l1 ++ k :: l2) = (if decide (warms k = Some t) then 1 else 0) + in_flight t (l1 ++ l2).
Proof. rewrite !in_flight_app, in_flight_cons. lia. Qed.

(** A step of one task that leaves the rings and counters alone. *)
Lemma inv_continue p p' l1 k k' l2 o n c :
  inv (mkSys p (l1 ++ k :: l2) o n c) ->
  p_ready p' = p_ready p -> p_warming p' = p_warming p -> aa_inv (p_ipam p') ->
  moves (task_addr k) (aa_held (p_ipam p)) (task_addr k') (aa_held (p_ipam p')) ->
  task_ok k' -> warms k' = warms k -> pending k = None ->
  (forall m, pending k' = Some m -> m_ptr m = n) ->
  inv (mkSys p' (l1 ++ k' :: l2) o (S n) c).
Proof.
  intros [Hi Hn Hh Hr Ht Ho Hw Hp Hf] Er Ew Hi' Hm Hok Hwarm Hk Hk'. simpl in *.
  assert (Haddr : forall ks, addresses (mkSys p' ks o (S n) c) = addresses (mkSys p ks o n c))
    by (intros; unfold addresses, ready_list; simpl; by rewrite Er).
  assert (Hptr : forall ks, pointers (mkSys p' ks o (S n) c) = pointers (mkSys p ks o n c))
    by (intros; unfold pointers, ready_list; simpl; by rewrite Er).
  rewrite addresses_task in Hn. rewrite (list_to_set_perm_L _ _ (addresses_task _ _ _ _ _ _ _)) in Hh.
  destruct (moves_exact _ _ _ _ _ Hn Hh Hm) as [Hn' Hh'].
  rewrite pointers_task, Hk in Hp. rewrite pointers_task, Hk in Hf. simpl in Hp, Hf.
  apply Forall_app in Ht as [Ht1 Ht2]. apply Forall_cons in Ht2 as [_ Ht2].
  split; simpl; try done.
  - by rewrite Haddr, addresses_task.
  - rewrite Haddr, Hh'. apply list_to_set_perm_L. by rewrite addresses_task.
  - intros t. unfold ready_of in *. rewrite Er. apply Hr.
  - apply Forall_app. split; [done|]. by apply Forall_cons.
  - intros t. specialize (Hw t). unfold warming_of in *. rewrite Ew, Hw, !in_flight_task.
    by rewrite Hwarm.
  - rewrite Hptr, pointers_task. destruct (pending k') as [m|] eqn:E; simpl; [|done].
    apply NoDup_cons. split; [|done]. rewrite (Hk' m eq_refl). intros Hin.
    rewrite Forall_forall in Hf. specialize (Hf _ Hin). lia.
  - rewrite Hptr, pointers_task. apply Forall_app. split.
    + destruct (pending k') as [m|] eqn:E; simpl; [|done]. rewrite (Hk' m eq_refl). repeat constructor.
    + eapply Forall_impl; [exact Hf|]. simpl. lia.
Qed.

Lemma release_moves a now ip v :
  ipToUint32 ip = Some v -> v ∈ aa_held a ->
  moves (Some v) (aa_held a) None (aa_held (aa_release now ip a).2).
Proof.
  intros Hv Hin. destruct (aa_release_held now ip v a Hv Hin) as (a' & -> & Hh).
  right. right. exists v. done.
Qed.

Lemma task_held p l1 k l2 o n c v :
  inv (mkSys p (l1 ++ k :: l2) o n c) -> task_addr k = Some v -> v ∈ aa_held (p_ipam p).
Proof.
  intros [_ _ Hh _ _ _ _ _ _] Hk. simpl in Hh. rewrite Hh, elem_of_list_to_set, addresses_task, Hk. set_solver.
Qed.

(** ** Every step preserves the invariant *)

Lemma inv_task_step p l1 k l2 o n c an k' calls p' :
  inv (mkSys p (l1 ++ k :: l2) o n c) -> an_ptr an = n ->
  task_step an k p = (Continue k', calls, p') -> inv (mkSys p' (l1 ++ k' :: l2) o (S n) c).
Proof.
  intros HI Hptr Hstep.
  assert (Hk : task_ok k) by (pose proof (inv_tasks _ HI) as H; simpl in H; by apply Forall_elt in H).
  assert (Hia := inv_ipam _ HI). simpl in Hia.
  assert (same : moves (task_addr k) (aa_held (p_ipam p)) (task_addr k) (aa_held (p_ipam p))) by by left.
  destruct k as [t|t id image ip|t id ip|t id ip|t ip|t om|m|m|m e]; simpl in Hstep.
  - destruct (c_Image (p_cfg p) !! t) as [image|]; [|by simplify_eq; eapply inv_continue].
    destruct (newMemberID (an_rand an)) as [id|]; [|by simplify_eq; eapply inv_continue].
    destruct (aa_allocate (an_now an) (p_ipam p)) as [[ip|] a] eqn:E; simplify_eq.
    + pose proof (aa_allocate_inv (an_now an) _ Hia) as Hia'. rewrite E in Hia'.
      destruct (aa_allocate_fresh _ _ _ _ Hia E) as (v & Hv & -> & Hfresh & Hheld).
      eapply inv_continue; simpl; try done; eauto. right. left. exists v.
      rewrite ipToUint32_From by done. by rewrite Hheld.
    + apply aa_allocate_none in E as ->. by eapply inv_continue.
  - simplify_eq. destruct (an_ok an); by eapply inv_continue.
  - simplify_eq. destruct Hk as (v & Hv & ->). destruct (an_ok an); [|eapply inv_continue; simpl; try done; eauto].
    eapply inv_continue; simpl; try done; eauto.
    + left. split; [|done]. cbn [task_addr]; rewrite ipToUint32_From by done. by apply member_addr_ok.
    + split; [|done]. by exists v.
    + by intros m [= <-].
  - simplify_eq. by eapply inv_continue.
  - simplify_eq. destruct Hk as (v & Hv & ->).
    assert (Ha : ipToUint32 (ipFromUint32 v) = Some v) by by apply ipToUint32_From.
    eapply inv_continue; simpl; try done; eauto using aa_release_inv. cbn [task_addr]. rewrite Ha.
    apply release_moves; [done|]. by eapply task_held.
  - done.
  - simplify_eq. by eapply inv_continue.
  - simplify_eq. by eapply inv_continue.
  - done.
Qed.

Lemma inv_destroy_finish p l1 m e l2 o n c now :
  inv (mkSys p (l1 ++ DestroyFree m e :: l2) o n c) ->
  inv (mkSys (match ParseIP (m_IP m) with
              | Some ip => set_ipam p (aa_release now ip (p_ipam p)).2
              | None => p end) (l1 ++ l2) o n c).
Proof.
  intros HI. assert (Hk : task_ok (DestroyFree m e))
    by (pose proof (inv_tasks _ HI) as H; simpl in H; by apply Forall_elt in H).
  destruct Hk as (v & Hv & Hm). pose proof (member_addr_ok v m Hv Hm) as Ha.
  pose proof (task_held _ _ _ _ _ _ _ v HI Ha) as Hin.
  unfold member_addr in Ha. destruct (ParseIP (m_IP m)) as [ip|] eqn:E; [|done]. simpl in Ha.
  pose proof (release_moves (p_ipam p) now ip v Ha Hin) as Hm'.
  destruct HI as [Hi Hn Hh Hr Ht Ho Hw Hp Hf]. simpl in *.
  rewrite addresses_task in Hn. rewrite (list_to_set_perm_L _ _ (addresses_task _ _ _ _ _ _ _)) in Hh.
  simpl in Hn, Hh. unfold member_addr in Hn, Hh. rewrite E in Hn, Hh. simpl in Hn, Hh. rewrite Ha in Hn, Hh.
  destruct (moves_exact _ _ _ _ _ Hn Hh Hm') as [Hn' Hh'].
  rewrite pointers_task in Hp. rewrite pointers_task in Hf. simpl in Hp, Hf.
  apply Forall_app in Ht as [Ht1 Ht2]. apply Forall_cons in Ht2 as [_ Ht2].
  split; simpl; try done.
  - by apply aa_release_inv.
  - by apply Forall_app.
  - intros t. specialize (Hw t). rewrite in_flight_task in Hw. exact Hw.
Qed.

Lemma inv_warm_finish p l1 t om l2 o n c :
  inv (mkSys p (l1 ++ WarmDeferred t om :: l2) o n c) ->
  let p1 := set_warming p t (warming_of p t - 1) in
  inv (mkSys (match om with Some m => set_ready p1 t (ready_of p1 t ++ [m]) | None => p1 end) (l1 ++ l2) o n c).
Proof.
  intros [Hi Hn Hh Hr Ht Ho Hw Hp Hf]. simpl in *.
  apply Forall_app in Ht as [Ht1 Ht2]. apply Forall_cons in Ht2 as [Hk Ht2].
  rewrite addresses_task in Hn. rewrite (list_to_set_perm_L _ _ (addresses_task _ _ _ _ _ _ _)) in Hh.
  rewrite pointers_task in Hp. rewrite pointers_task in Hf.
  assert (Hw' : forall u, warming_of (set_warming p t (warming_of p t - 1)) u = in_flight u (l1 ++ l2)).
  { intros u. specialize (Hw u). rewrite in_flight_task in Hw. simpl in Hw.
    destruct (decide (t = u)) as [<-|].
    - rewrite warming_set_eq. rewrite decide_True in Hw by done. lia.
    - rewrite warming_set_ne by done. rewrite decide_False in Hw by congruence. lia. }
  destruct om as [m|]; [|split; simpl in *; eauto; by apply Forall_app].
  destruct Hk as [Hok Htm].
  set (p' := set_ready _ _ _).
  assert (Hl : ready_list p' ≡ₚ m :: ready_list p).
  { unfold ready_list, p'. simpl. rewrite flat_insert, (flat_split (p_ready p) t).
    unfold ready_of. simpl. solve_Permutation. }
  assert (HA : option_list (task_addr (WarmDeferred t (Some m))) ++ addresses (mkSys p (l1 ++ l2) o n c)
               ≡ₚ addresses (mkSys p' (l1 ++ l2) o n c)).
  { unfold addresses. simpl. rewrite Hl. simpl. destruct (member_addr m); simpl; done. }
  assert (HP : map m_ptr (option_list (pending (WarmDeferred t (Some m)))) ++ pointers (mkSys p (l1 ++ l2) o n c)
               ≡ₚ pointers (mkSys p' (l1 ++ l2) o n c)).
  { unfold pointers. simpl. rewrite Hl. done. }
  rewrite HA in Hn. rewrite (list_to_set_perm_L _ _ HA) in Hh. rewrite HP in Hp. rewrite HP in Hf.
  split; simpl; try done.
  - intros u. unfold p'. destruct (decide (t = u)) as [<-|].
    + rewrite ready_set_eq. apply Forall_app. split; [apply Hr|]. by repeat constructor.
    + rewrite ready_set_ne by done. apply Hr.
  - by apply Forall_app.
Qed.

Lemma inv_reconcile s ks p' cancelled order :
  inv s -> Reconcile cancelled order (s_pool s) = Some (ks, p') ->
  inv (mkSys p' (s_tasks s ++ ks) (s_owned s) (s_next s) (s_claims s)).
Proof.
  destruct s as [p ts o n c]. simpl. unfold Reconcile. destruct cancelled.
  { intros HI [= <- <-]. by rewrite app_nil_r. }
  intros [Hi Hn Hh Hr Ht Ho Hw Hp Hf] H. simpl in *.
  destruct (planLocked order p) as [[[tw tr] p1]|] eqn:E; [|done]. injection H as <- <-.
  apply plan_loop_planned in E as (tw1 & tr1 & -> & -> & [Pi Pc Pr Pg Pt Pw]). simpl.
  assert (Hmem : Forall member_ok tr1).
  { eapply Forall_impl; [exact Pt|]. simpl. intros m (t & Hm). specialize (Hr t).
    rewrite Forall_forall in Hr. by apply Hr. }
  assert (Htw : omap task_addr (map warmOne tw1) = []) by (clear; by induction tw1).
  assert (Hpw : omap pending (map warmOne tw1 ++ map destroy tr1) = []).
  { clear. rewrite omap_app. induction tw1; [|done]. by induction tr1. }
  assert (Htr : omap task_addr (map destroy tr1) = omap member_addr tr1).
  { clear. induction tr1 as [|m tr IH]; [done|]. simpl.
    destruct (member_addr m); [f_equal|]; exact IH. }
  assert (HA : addresses (mkSys p ts o n c) ≡ₚ
               addresses (mkSys p1 (ts ++ map warmOne tw1 ++ map destroy tr1) o n c)).
  { unfold addresses. simpl. rewrite Pr, !omap_app, Htw, Htr. solve_Permutation. }
  assert (HP : pointers (mkSys p ts o n c) ≡ₚ
               map m_ptr tr1 ++ pointers (mkSys p1 (ts ++ map warmOne tw1 ++ map destroy tr1) o n c)).
  { unfold pointers. simpl. rewrite Pr, (omap_app _ ts), Hpw, app_nil_r, <- app_assoc, map_app. done. }
  rewrite HA in Hn. rewrite (list_to_set_perm_L _ _ HA) in Hh.
  rewrite HP in Hp. rewrite HP in Hf. apply NoDup_app in Hp as (_ & _ & Hp). apply Forall_app in Hf as [_ Hf].
  split; simpl; try done.
  - by rewrite Pi.
  - by rewrite Pi.
  - intros t. specialize (Hr t). destruct (Pg t) as (out & Eq & _). rewrite Eq in Hr.
    by apply Forall_app in Hr as [_ Hr].
  - rewrite !Forall_app. split_and!; [done| |]; apply Forall_map; [by apply Forall_true|].
    eapply Forall_impl; [exact Hmem|]. done.
  - intros t. rewrite Pw, Hw, !in_flight_app.
    assert (in_flight t (map destroy tr1) = 0) as ->; [|lia].
    clear. induction tr1 as [|m tr IH]; [done|]. simpl map. rewrite in_flight_cons. simpl. by rewrite IH.
Qed.

Lemma inv_claim s t m p' :
  inv s -> Claim t (s_pool s) = (Some m, p') ->
  inv (mkSys p' (s_tasks s) (m :: s_owned s) (s_next s) (m :: s_claims s)).
Proof.
  destruct s as [p ts o n c]. unfold Claim. simpl.
  destruct (ready_of p t) as [|m' rest] eqn:E; [done|]. intros [Hi Hn Hh Hr Ht Ho Hw Hp Hf] [= -> <-].
  simpl in *.
  assert (Hl : ready_list p ≡ₚ m :: ready_list (set_ready p t rest)).
  { apply (ready_list_set p t [m] rest). by rewrite E. }
  assert (HA : addresses (mkSys p ts o n c) ≡ₚ addresses (mkSys (set_ready p t rest) ts (m :: o) n (m :: c))).
  { unfold addresses. simpl. rewrite Hl. simpl. destruct (member_addr m); simpl; solve_Permutation. }
  assert (HP : pointers (mkSys p ts o n c) ≡ₚ pointers (mkSys (set_ready p t rest) ts (m :: o) n (m :: c))).
  { unfold pointers. simpl. rewrite Hl. simpl. rewrite !map_app. simpl. solve_Permutation. }
  rewrite HA in Hn. rewrite (list_to_set_perm_L _ _ HA) in Hh. rewrite HP in Hp. rewrite HP in Hf.
  split; simpl; try done.
  - intros u. destruct (decide (t = u)) as [<-|].
    + rewrite ready_set_eq. specialize (Hr t). rewrite E in Hr. by apply Forall_cons in Hr as [_ Hr].
    + rewrite ready_set_ne by done. apply Hr.
  - apply Forall_cons. split; [|done]. specialize (Hr t). rewrite E in Hr.
    by apply Forall_cons in Hr as [[? _] _].
Qed.

Lemma inv_release p ts l1 m l2 n c :
  inv (mkSys p ts (l1 ++ m :: l2) n c) -> inv (mkSys p (ts ++ [Release m]) (l1 ++ l2) n c).
Proof.
  intros [Hi Hn Hh Hr Ht Ho Hw Hp Hf]. simpl in *.
  assert (HA : addresses (mkSys p ts (l1 ++ m :: l2) n c) ≡ₚ addresses (mkSys p (ts ++ [Release m]) (l1 ++ l2) n c)).
  { unfold addresses. simpl. rewrite !omap_app. simpl. destruct (member_addr m); simpl; solve_Permutation. }
  rewrite HA in Hn. rewrite (list_to_set_perm_L _ _ HA) in Hh.
  apply Forall_app in Ho as [Ho1 Ho2]. apply Forall_cons in Ho2 as [Hm Ho2].
  assert (Hpt : pointers (mkSys p (ts ++ [Release m]) (l1 ++ l2) n c) = pointers (mkSys p ts (l1 ++ m :: l2) n c)).
  { unfold pointers. simpl. by rewrite omap_app, app_nil_r. }
  split; simpl; rewrite ?Hpt; try done.
  - apply Forall_app. split; [done|]. by repeat constructor.
  - by apply Forall_app.
  - intros t. rewrite in_flight_app, Hw. unfold in_flight at 3. simpl. lia.
Qed.

Lemma step_inv s s' : inv s -> step s s' -> inv s'.
Proof.
  intros HI Hs. destruct Hs as [s cancelled order ks p' _ H|p l1 k l2 o n c an k' calls p' Hp H
    |p l1 k l2 o n c an err calls p' H|s t m p' H|p ts l1 m l2 n c].
  - by eapply inv_reconcile.
  - by eapply inv_task_step.
  - destruct k; simpl in H; try done.
    + repeat case_match; done.
    + injection H as _ _ <-. by apply inv_warm_finish.
    + injection H as _ _ <-. by eapply inv_destroy_finish.
  - by eapply inv_claim.
  - by apply inv_release.
Qed.

Lemma reachable_inv a cfg s : aa_inv a -> aa_held a = ∅ -> reachable a cfg s -> inv s.
Proof.
  intros Ha Hh Hr. unfold reachable in Hr. apply rtc_ind_r with (P := inv) in Hr; [done| |].
  - split; simpl; try done; try constructor.
  - intros. by eapply step_inv.
Qed.

(** ** Lemmas: the plan meets its targets *)

Lemma plan_one_exact t n tw tr p :
  0 <= n -> 0 <= warming_of p t ->
  exists tw' tr' p', plan_one t n tw tr p = Some (tw', tr', p') /\
    ready_of p' t = drop (Z.to_nat (Z.of_nat (length (ready_of p t)) - n)) (ready_of p t) /\
    warming_of p' t = Z.max (warming_of p t) (n - Z.of_nat (length (ready_of p t))) /\
    forall u, u <> t -> ready_of p' u = ready_of p u /\ warming_of p' u = warming_of p u.
Proof.
  intros Hn Hw. unfold plan_one. set (r := Z.of_nat (length (ready_of p t))).
  destruct (Z.ltb_spec (r + warming_of p t) n); [|destruct (Z.ltb_spec n r)].
  - eexists _, _, _. split; [done|]. split_and!.
    + replace (Z.to_nat (r - n)) with 0%nat by lia. done.
    + rewrite warming_set_eq. lia.
    + intros u Hu. by rewrite warming_set_ne.
  - destruct (Z.ltb_spec r (r - n)); [lia|]. eexists _, _, _. split; [done|]. split_and!.
    + by rewrite ready_set_eq.
    + change (warming_of (set_ready p t _) t) with (warming_of p t). lia.
    + intros u Hu. by rewrite ready_set_ne.
  - eexists _, _, _. split; [done|]. split_and!; [|lia|done].
    by replace (Z.to_nat (r - n)) with 0%nat by lia.
Qed.

(** The ring and counter the plan leaves for a template with target [n]. *)
Definition on_target (n : Z) p p' (t : Z) : Prop :=
  ready_of p' t = drop (Z.to_nat (Z.of_nat (length (ready_of p t)) - n)) (ready_of p t) /\
  warming_of p' t = Z.max (warming_of p t) (n - Z.of_nat (length (ready_of p t))).

Lemma plan_loop_exact order tw tr p :
  NoDup order.*1 -> Forall (fun tn => 0 <= tn.2) order -> (forall t, 0 <= warming_of p t) ->
  exists tw' tr' p', plan_loop order tw tr p = Some (tw', tr', p') /\
    (forall t n, (t, n) ∈ order -> on_target n p p' t) /\
    (forall t, t ∉ order.*1 -> ready_of p' t = ready_of p t /\ warming_of p' t = warming_of p t).
Proof.
  revert tw tr p. induction order as [|[t n] order IH]; intros tw tr p Hnd Hpos Hw; simpl.
  { eexists _, _, _. split; [done|]. split; [|done]. intros t n H. by apply elem_of_nil in H. }
  apply NoDup_cons in Hnd as [Hni Hnd]. apply Forall_cons in Hpos as [Hn Hpos]. simpl in Hn.
  destruct (plan_one_exact t n tw tr p Hn (Hw t)) as (tw1 & tr1 & p1 & -> & Hr1 & Hw1 & Hf1).
  destruct (IH tw1 tr1 p1 Hnd Hpos) as (tw2 & tr2 & p2 & -> & Ht2 & Hf2).
  { intros u. destruct (decide (u = t)) as [->|Hu]; [rewrite Hw1; specialize (Hw t); lia|].
    destruct (Hf1 u Hu) as [_ ->]. apply Hw. }
  eexists _, _, _. split; [done|]. split.
  - intros u k Hu. apply elem_of_cons in Hu as [[= -> ->]|Hu].
    + destruct (Hf2 t Hni) as [E1 E2]. split; [by rewrite E1|by rewrite E2].
    + assert (u <> t) as Hne by (intros ->; apply Hni; by apply (list_elem_of_fmap_2 fst) in Hu).
      destruct (Hf1 u Hne) as [E1 E2]. specialize (Ht2 u k Hu). unfold on_target in *.
      by rewrite E1, E2 in Ht2.
  - intros u Hu. simpl in Hu. apply not_elem_of_cons in Hu as [Hne Hu].
    destruct (Hf2 u Hu) as [-> ->]. by apply Hf1.
Qed.
End system.

(** ** Properties of the pool over the ipam allocator *)

Section properties.
Context (startIP endIP hostIP : string) (q : Duration) (a : Allocator) (cfg : Config).
Context (Ha : Ipam.New startIP endIP hostIP q = inl a).

Lemma ipam_reachable_inv s : reachable a cfg s -> inv s.
Proof using Ha.
  apply New_spec in Ha as (Hwf & _ & _ & Hempty & _). by apply reachable_inv.
Qed.

(** C37: under every interleaving of reconciles, warm-ups, destroys, claims and releases,
    whatever the backend answers, no two of the ready members, the members being
    warmed or destroyed and the members owned by callers have the same address,
    and the allocator holds exactly those addresses: none is shared and none is
    leaked. *)
Theorem pool_addresses_exact s :
  reachable a cfg s ->
  NoDup (addresses s) /\ a_allocated (p_ipam (s_pool s)) = list_to_set (addresses s).
Proof using Ha. intros Hr%ipam_reachable_inv. split; apply Hr. Qed.

(** A member is handed to at most one caller, ever: no pointer is claimed twice, and
    no member that was claimed is in a ring or about to enter one. *)
Theorem pool_member_claimed_once s :
  reachable a cfg s ->
  NoDup (map m_ptr (s_claims s)) /\
  forall m m', m ∈ s_claims s -> m' ∈ ready_list (s_pool s) \/ WarmDeferred (m_Template m') (Some m') ∈ s_tasks s ->
    m_ptr m <> m_ptr m'.
Proof using Ha.
  intros Hr%ipam_reachable_inv. destruct Hr as [_ _ _ _ _ _ _ Hp _]. unfold pointers in Hp.
  rewrite app_assoc, map_app in Hp. apply NoDup_app in Hp as (_ & Hdisj & Hc). split; [done|].
  intros m m' Hm Hm' Heq. apply (Hdisj (m_ptr m')).
  - apply list_elem_of_fmap_2, elem_of_app. destruct Hm' as [Hm'|Hm']; [by left|right].
    apply list_elem_of_omap. by exists (WarmDeferred (m_Template m') (Some m')).
  - rewrite <- Heq. by apply list_elem_of_fmap_2.
Qed.

(** With non-negative targets the plan never fails, and for each configured
    template it leaves exactly the newest [min ready target] members in the ring
    and raises the in-flight count to what is missing, so that ready plus warming
    reaches the target; other templates are untouched. *)
Theorem plan_meets_targets s order :
  reachable a cfg s ->
  order ≡ₚ map_to_list (c_MinWarm (p_cfg (s_pool s))) ->
  (forall t n, c_MinWarm (p_cfg (s_pool s)) !! t = Some n -> 0 <= n) ->
  exists tw tr p', planLocked order (s_pool s) = Some (tw, tr, p') /\
    forall t, match c_MinWarm (p_cfg (s_pool s)) !! t with
              | Some n => on_target n (s_pool s) p' t /\ n <= ReadyCount t p' + warming_of p' t
              | None => ready_of p' t = ready_of (s_pool s) t /\ warming_of p' t = warming_of (s_pool s) t
              end.
Proof using Ha.
  intros Hr%ipam_reachable_inv Hord Hpos.
  destruct (plan_loop_exact order [] [] (s_pool s)) as (tw & tr & p' & E & Hin & Hout).
  - rewrite Hord. apply NoDup_fst_map_to_list.
  - rewrite Hord. apply Forall_forall. intros [t n] Htn. apply elem_of_map_to_list in Htn. by apply (Hpos t).
  - intros t. rewrite (inv_warming _ Hr). apply in_flight_nonneg.
  - exists tw, tr, p'. split; [exact E|]. intros t. destruct (c_MinWarm _ !! t) as [n|] eqn:Et.
    + assert (Htn : (t, n) ∈ order) by (rewrite Hord; by apply elem_of_map_to_list).
      specialize (Hin t n Htn). split; [done|]. destruct Hin as [Hr' Hw']. unfold ReadyCount.
      rewrite Hr', Hw', length_drop. specialize (Hpos t n Et).
      rewrite (inv_warming _ Hr). pose proof (in_flight_nonneg t (s_tasks s)). lia.
    + apply Hout. rewrite Hord. intros Hin'. apply list_elem_of_fmap in Hin' as ([u n] & -> & Hu).
      apply elem_of_map_to_list in Hu. simpl in Et. by rewrite Hu in Et.
Qed.

(** [Status] is truthful: whatever the map iteration order, it reports each
    configured template once, in ascending order, with the number of claimable members, the
    number of warm-ups really in flight and the configured floor; the members in
    a template's ring were all warmed for that template. *)
Theorem status_truthful s order :
  reachable a cfg s ->
  order ≡ₚ map_to_list (c_MinWarm (p_cfg (s_pool s))) ->
  Sorted by_template (Status order (s_pool s)) /\
  Status order (s_pool s) ≡ₚ
    map (fun '(t, n) => {| ts_Template := t; ts_Ready := ReadyCount t (s_pool s);
                           ts_Warming := in_flight t (s_tasks s); ts_MinWarm := n |})
        (map_to_list (c_MinWarm (p_cfg (s_pool s)))) /\
  forall t, Forall (fun m => m_Template m = t) (ready_of (s_pool s) t).
Proof using Ha.
  intros Hr%ipam_reachable_inv Hord. unfold Status. split_and!.
  - apply Sorted_merge_sort. intros x y. unfold by_template. lia.
  - rewrite merge_sort_Permutation, Hord. apply reflexive_eq, map_ext. intros [t n].
    by rewrite (inv_warming _ Hr).
  - intros t. eapply Forall_impl; [apply (inv_ready _ Hr)|]. by intros m [_ ?].
Qed.
End properties.

(** ** A concrete run: one member is warmed, claimed, and its successor begun *)

Definition demo_cfg : Config :=
  {| c_MinWarm := {[1 := 1]}; c_Image := {[1 := "base"]}; c_NICNetwork := "incusbr0" |}.
Definition demo_ipam : Allocator :=
  {| a_start := 167772938; a_end := 167772940; a_quarantine := 30;
     a_allocated := ∅; a_released := ∅; a_cursor := 167772938 |}.

Lemma demo_ipam_New : Ipam.New "10.0.3.10" "10.0.3.12" "10.0.3.1" 30 = inl demo_ipam.
Proof. vm_compute. reflexivity. Qed.

Definition demo_answers (n : nat) : answers :=
  {| an_ptr := n; an_rand := Some [1; 2; 3; 4; 5; 255]; an_now := 100; an_ok := true |}.

Lemma demo_run : exists s,
  reachable demo_ipam demo_cfg s /\ addresses s = [167772939; 167772938] /\
  map m_ID (s_claims s) = ["sandbox-0102030405ff"] /\
  c_MinWarm (p_cfg (s_pool s)) = {[1 := 1]}.
Proof.
  eexists. split; [|shelve]. unfold reachable, initial, New.
  eapply rtc_l; [eapply (step_reconcile _ false [(1, 1)]); [reflexivity|vm_compute; reflexivity]|].
  eapply rtc_l; [eapply (step_task _ [] (WarmBegin 1) [] _ _ _ (demo_answers 0)); [reflexivity|vm_compute; reflexivity]|].
  eapply rtc_l; [eapply (step_task _ [] _ [] _ _ _ (demo_answers 1)); [reflexivity|vm_compute; reflexivity]|].
  eapply rtc_l; [eapply (step_task _ [] _ [] _ _ _ (demo_answers 2)); [reflexivity|vm_compute; reflexivity]|].
  eapply rtc_l; [eapply (step_finish _ [] _ [] _ _ _ (demo_answers 3)); vm_compute; reflexivity|].
  eapply rtc_l; [eapply (step_claim _ 1); vm_compute; reflexivity|].
  eapply rtc_l; [eapply (step_reconcile _ false [(1, 1)]); [reflexivity|vm_compute; reflexivity]|].
  eapply rtc_l; [eapply (step_task _ [] (WarmBegin 1) [] _ _ _ (demo_answers 3)); [reflexivity|vm_compute; reflexivity]|].
  apply rtc_refl.
  Unshelve. vm_compute. repeat split.
Qed.

Lemma pool_addresses_exact_witness : exists s,
  reachable demo_ipam demo_cfg s /\ addresses s <> [] /\ NoDup (addresses s).
Proof.
  destruct demo_run as (s & Hr & Ha & _). exists s. split; [exact Hr|]. split; [by rewrite Ha|].
  exact (proj1 (pool_addresses_exact _ _ _ _ _ _ demo_ipam_New s Hr)).
Defined.

Lemma pool_member_claimed_once_witness : exists s,
  reachable demo_ipam demo_cfg s /\ s_claims s <> [] /\ NoDup (map m_ptr (s_claims s)).
Proof.
  destruct demo_run as (s & Hr & _ & Hc & _). exists s. split; [exact Hr|].
  split; [by intros E; rewrite E in Hc|].
  exact (proj1 (pool_member_claimed_once _ _ _ _ _ _ demo_ipam_New s Hr)).
Defined.

Lemma plan_meets_targets_witness : exists s tw tr p',
  reachable demo_ipam demo_cfg s /\ planLocked [(1, 1)] (s_pool s) = Some (tw, tr, p') /\
  1 <= ReadyCount 1 p' + warming_of p' 1.
Proof.
  destruct demo_run as (s & Hr & _ & _ & Hc).
  destruct (plan_meets_targets _ _ _ _ _ _ demo_ipam_New s [(1, 1)] Hr) as (tw & tr & p' & E & H).
  - by rewrite Hc.
  - intros t n. rewrite Hc, lookup_singleton_Some. intros [_ <-]. lia.
  - exists s, tw, tr, p'. split; [exact Hr|]. split; [exact E|].
    specialize (H 1). rewrite Hc in H. exact (proj2 H).
Defined.

Lemma status_truthful_witness : exists s,
  reachable demo_ipam demo_cfg s /\
  Status [(1, 1)] (s_pool s) ≡ₚ
    [{| ts_Template := 1; ts_Ready := ReadyCount 1 (s_pool s);
        ts_Warming := in_flight 1 (s_tasks s); ts_MinWarm := 1 |}].
Proof.
  destruct demo_run as (s & Hr & _ & _ & Hc). exists s. split; [exact Hr|].
  destruct (status_truthful _ _ _ _ _ _ demo_ipam_New s [(1, 1)] Hr) as (_ & H & _); [by rewrite Hc|].
  rewrite Hc in H. exact H.
Defined.
