(* ===== verification/Auth.v ===== *)
(** * internal/auth: scopes, roles, delegation chains and request authorization

    A Go slice for which nil differs from empty is an [option (list string)];
    where the code only ranges over it or takes its length, [elems] reads it.  The
    request context is the record [Context]: the incoming gRPC metadata and the values
    set by [ContextWithClaims].  JSON decoding of the [act] metadata value is the
    parameter [Unmarshal] of the definitions that read it.  Errors are a constructor
    per message with the gRPC code it carries. *)

From S2P Require Import Prelude GoStrings.
From Stdlib Require Import Ascii.
#[local] Open Scope string_scope.
#[local] Open Scope list_scope.
#[local] Open Scope Z_scope.

Abbreviation slice := (option (list string)) (only parsing).
Definition elems (s : slice) : list string := default [] s.

(** ** Scopes *)

Definition ScopeWildcard : string := "*".
Definition ScopeTokensWrite : string := "tokens:write".
Definition ScopeTokensRead : string := "tokens:read".
Definition ScopeTokensDelegate : string := "tokens:delegate".
Definition ScopeTrackerAdmin : string := "tracker:admin".

Definition AllScopes : list string :=
  ["containers:read"; "containers:write"; "secrets:read"; "secrets:write"; "kms:admin";
   "backups:read"; "backups:write"; "volumes:read"; "volumes:write"; "routes:read"; "routes:write";
   "security:read"; "security:write"; "alerts:read"; "alerts:write"; "traffic:read";
   "code:write"; "ssh:write"; ScopeTokensWrite; ScopeTokensDelegate;
   "agents:read"; "agents:run"; "agents:call"; "crews:read"; "crews:run";
   "clusters:read"; "clusters:write"; "clusters:scale";
   "audit:read"; "network-policy:read"; ScopeTokensRead; "sandboxes:read"; "sandboxes:write";
   "tracker:read"; "tracker:write"; ScopeTrackerAdmin; "gateway:admin"; "gateway:mint"].

Fixpoint HasExplicitScope (granted : list string) (want : string) : bool :=
  match granted with
  | [] => false
  | s :: rest => if String.eqb (TrimSpace s) want || String.eqb (TrimSpace s) ScopeWildcard then true
                 else HasExplicitScope rest want
  end.

Definition IsKnownScope (s : string) : bool :=
  if String.eqb s ScopeWildcard then true else existsb (fun k => String.eqb k s) AllScopes.

Definition HasScope (granted : slice) (required : string) : bool :=
  if String.eqb required "" then true
  else match granted with
       | None => true
       | Some l => existsb (fun s => String.eqb (TrimSpace s) ScopeWildcard || String.eqb (TrimSpace s) required) l
       end.

Definition trimmed_set (l : list string) : gset string := list_to_set (map TrimSpace l).

Definition IntersectScopes (caller : slice) (manifest : list string) : list string :=
  match caller with
  | None => manifest
  | Some c =>
      if HasExplicitScope c ScopeWildcard then manifest
      else if HasExplicitScope manifest ScopeWildcard then c
      else filter (fun s => s ∈ trimmed_set c) (map TrimSpace manifest)
  end.

Definition ExcludeScopes (scopes : slice) (exclude : list string) : slice :=
  match scopes with
  | None => None
  | Some l => Some (filter (fun s => TrimSpace s ∉ (list_to_set exclude : gset string)) l)
  end.

(** [nil] for an input without entries. *)
Definition ParseScopes (s : string) : slice :=
  match filter (fun p => p <> "") (map TrimSpace (split_char "," s)) with
  | [] => None
  | out => Some out
  end.

(** ** Delegation chains *)

Inductive Actor := mkActor (Subject : string) (Act : option Actor).

Definition MaxActDepth : Z := 8.

Fixpoint actor_len (a : Actor) : Z :=
  match a with mkActor _ next => 1 + match next with Some b => actor_len b | None => 0 end end.

Definition actDepth (a : option Actor) : Z := match a with Some b => actor_len b | None => 0 end.

(** [true] is an error. *)
Definition validateActDepth (a : option Actor) : bool := MaxActDepth <? actDepth a.

Fixpoint root_of (a : Actor) : string :=
  match a with mkActor s next => match next with Some b => root_of b | None => s end end.

Definition RootActor (a : option Actor) : string := match a with Some b => root_of b | None => "" end.

(** The loop over the requested roles, with the set of roles already granted. *)
Fixpoint roles_loop (held seen : gset string) (requested : list string) : list string :=
  match requested with
  | [] => []
  | r0 :: rest =>
      let r := TrimSpace r0 in
      if String.eqb r "" then roles_loop held seen rest
      else if bool_decide (r ∈ seen) then roles_loop held seen rest
      else if bool_decide (r ∈ held) then r :: roles_loop held ({[r]} ∪ seen) rest
      else roles_loop held seen rest
  end.

Definition IntersectRoles (caller requested : list string) : list string :=
  match caller, requested with
  | [], _ | _, [] => []
  | _, _ => roles_loop (trimmed_set caller) ∅ requested
  end.

(** ** Claims and the request context *)

Record Claims := mkClaims {
  cl_Username : string;
  cl_Roles : list string;
  cl_Scopes : slice;
  cl_TokenType : string;
  cl_Act : option Actor;
  cl_RunID : string;
  cl_TrackerConn : string;
  cl_FamilyID : string;
  cl_ID : string;
  cl_ExpiresAt : option Time;
  cl_IssuedAt : Time;
  cl_Issuer : string;
  cl_Audience : list string;
}.

Abbreviation MD := (gmap string (list string)) (only parsing).

Record Context := mkContext {
  cx_md : option MD;
  cx_username : option string;
  cx_roles : option (list string);
  cx_scopes : option slice;
  cx_act : option (option Actor);
  cx_jti : option string;
  cx_run_id : option string;
  cx_tracker_conn : option string;
}.

Definition MDKeyUsername := "username".
Definition MDKeyRoles := "roles".
Definition MDKeyScopes := "scopes".
Definition MDKeyAct := "act".
Definition MDKeyJTI := "jti".
Definition MDKeyRunID := "run_id".
Definition MDKeyTrackerConn := "tracker_conn".

Definition RoleAdmin := "admin".
Definition SystemSubject := "_system".

Definition ContextWithClaims (ctx : Context) (c : Claims) : Context :=
  {| cx_md := cx_md ctx;
     cx_username := Some (cl_Username c);
     cx_roles := Some (cl_Roles c);
     cx_scopes := match cl_Scopes c with Some _ => Some (cl_Scopes c) | None => cx_scopes ctx end;
     cx_act := match cl_Act c with Some _ => Some (cl_Act c) | None => cx_act ctx end;
     cx_jti := if String.eqb (cl_ID c) "" then cx_jti ctx else Some (cl_ID c);
     cx_run_id := if String.eqb (cl_RunID c) "" then cx_run_id ctx else Some (cl_RunID c);
     cx_tracker_conn := if String.eqb (cl_TrackerConn c) "" then cx_tracker_conn ctx
                        else Some (cl_TrackerConn c) |}.

(** [vals := md.Get(key); len(vals) > 0 && vals[0] != ""]. *)
Definition md_first (ctx : Context) (key : string) : option string :=
  match cx_md ctx with
  | None => None
  | Some md => match md !! key with
               | Some (v :: _) => if String.eqb v "" then None else Some v
               | _ => None
               end
  end.

(** The in-place filter of the comma-separated role list. *)
Definition splitRoles (s : string) : list string :=
  filter (fun p => p <> "") (map TrimSpace (split_char "," s)).

(** [(username, roles, ok)]. *)
Definition SubjectFromGRPCContext (ctx : Context) : string * list string * bool :=
  let u := match md_first ctx MDKeyUsername with
           | Some v => Some v
           | None => match cx_username ctx with
                     | Some u => if String.eqb u "" then None else Some u
                     | None => None
                     end
           end in
  let r0 := match md_first ctx MDKeyRoles with Some v => splitRoles v | None => [] end in
  let roles := match r0 with
               | [] => match cx_roles ctx with Some r => r | None => [] end
               | _ => r0
               end in
  match u with Some v => (v, roles, true) | None => ("", roles, false) end.

(** [(scopes, present)]. *)
Definition ScopesFromGRPCContext (ctx : Context) : slice * bool :=
  let from_context :=
    match cx_scopes ctx with
    | Some s => (s, match s with Some _ => true | None => false end)
    | None => (None, false)
    end in
  match cx_md ctx with
  | None => from_context
  | Some md =>
      match md !! MDKeyScopes with
      | Some (v :: _) => (Some (elems (ParseScopes v)), true)
      | _ => from_context
      end
  end.

Definition ActFromGRPCContext (Unmarshal : string -> option Actor) (ctx : Context) : option Actor * bool :=
  match md_first ctx MDKeyAct with
  | Some v => match Unmarshal v with Some a => (Some a, true) | None => (None, false) end
  | None => match cx_act ctx with
            | Some a => (a, match a with Some _ => true | None => false end)
            | None => (None, false)
            end
  end.

(** [JTIFromGRPCContext] and its two siblings differ in the key and the field. *)
Definition claim_from (key : string) (field : Context -> option string) (ctx : Context) : string * bool :=
  match md_first ctx key with
  | Some v => (v, true)
  | None => match field ctx with
            | Some v => if String.eqb v "" then ("", false) else (v, true)
            | None => ("", false)
            end
  end.
Definition JTIFromGRPCContext : Context -> string * bool := claim_from MDKeyJTI cx_jti.
Definition RunIDFromGRPCContext : Context -> string * bool := claim_from MDKeyRunID cx_run_id.
Definition TrackerConnFromGRPCContext : Context -> string * bool := claim_from MDKeyTrackerConn cx_tracker_conn.

(** ** Authorization decisions *)

Inductive code := InvalidArgument | Unauthenticated | PermissionDenied | FailedPrecondition
                | Unavailable | Internal.

Inductive auth_error :=
| NoSubject
| RoleRequired (role : string)
| RoleOrScopeRequired (role scope : string)
| StrictScopesDenial (required : string)
| ScopeRequired (required : string)
| NotThisTenant
| SecretScopeRequired (required : string)
| NotTenantContainer (name : string)
| OtherTenantContainer (name : string).

Definition code_of (e : auth_error) : code :=
  match e with NoSubject => Unauthenticated | _ => PermissionDenied end.

Definition HasRole (roles : list string) (wanted : string) : bool :=
  existsb (fun r => String.eqb r wanted) roles.

(** [None] is a nil error. *)
Definition RequireRole (ctx : Context) (role : string) : option auth_error :=
  let '(_, roles, ok) := SubjectFromGRPCContext ctx in
  if negb ok then Some NoSubject
  else if negb (HasRole roles role) then Some (RoleRequired role) else None.

Definition RequireRoleOrScope (ctx : Context) (role scope : string) : option auth_error :=
  let '(_, roles, ok) := SubjectFromGRPCContext ctx in
  if negb ok then Some NoSubject
  else if HasRole roles role then None
  else if HasExplicitScope (elems (ScopesFromGRPCContext ctx).1) scope then None
  else Some (RoleOrScopeRequired role scope).

(** The package-level strict-mode switch and unscoped-call measurement. *)
Record scope_state := mkScopeState { st_strict : bool; st_count : Z; st_since : Time }.

Definition SetStrictScopes (enabled : bool) (st : scope_state) : scope_state :=
  {| st_strict := enabled; st_count := st_count st; st_since := st_since st |}.
Definition StrictScopesEnabled (st : scope_state) : bool := st_strict st.

Definition recordUnscopedCall (now : Time) (st : scope_state) : scope_state :=
  {| st_strict := st_strict st; st_count := wrap i64 (st_count st + 1);
     st_since := if st_count st =? 0 then now else st_since st |}.

Definition UnscopedTokenCalls (st : scope_state) : Z * Time := (st_count st, st_since st).

Definition RequireScope (now : Time) (ctx : Context) (required : string) (st : scope_state)
  : option auth_error * scope_state :=
  let '(_, _, ok) := SubjectFromGRPCContext ctx in
  if negb ok then (Some NoSubject, st)
  else
    let '(scopes, present) := ScopesFromGRPCContext ctx in
    let st1 := if negb present then recordUnscopedCall now st else st in
    if negb present && StrictScopesEnabled st1 then (Some (StrictScopesDenial required), st1)
    else if HasScope scopes required then (None, st1)
    else (Some (ScopeRequired required), st1).

Definition AuthorizeTenant (ctx : Context) (requestedUsername : string) : option auth_error :=
  let '(subject, roles, ok) := SubjectFromGRPCContext ctx in
  if negb ok then Some NoSubject
  else if HasRole roles RoleAdmin then None
  else if negb (String.eqb subject requestedUsername) then Some NotThisTenant
  else None.

Definition AuthorizeSecretTenant (ctx : Context) (requestedUsername requiredScope : string)
  : option auth_error :=
  let '(subject, roles, ok) := SubjectFromGRPCContext ctx in
  if negb ok then Some NoSubject
  else if String.eqb subject requestedUsername then None
  else if negb (HasRole roles RoleAdmin) then Some NotThisTenant
  else if negb (HasExplicitScope (elems (ScopesFromGRPCContext ctx).1) requiredScope)
  then Some (SecretScopeRequired requiredScope)
  else None.

Definition containerSuffix : string := "-container".

Definition OwnerFromContainerName (containerName : string) : option string :=
  let name := TrimSpace containerName in
  if String.eqb name "" then None
  else if negb (HasSuffix containerSuffix name) then None
  else let owner := TrimSuffix name containerSuffix in
       if String.eqb owner "" then None else Some owner.

Definition AuthorizeContainerAccess (ctx : Context) (containerName : string) : option auth_error :=
  let '(subject, roles, ok) := SubjectFromGRPCContext ctx in
  if negb ok then Some NoSubject
  else if HasRole roles RoleAdmin then None
  else match OwnerFromContainerName containerName with
       | None => Some (NotTenantContainer containerName)
       | Some owner => if negb (String.eqb owner subject) then Some (OtherTenantContainer containerName)
                       else None
       end.

(** ** Lemmas: scope membership *)

Lemma HasExplicitScope_iff granted want :
  HasExplicitScope granted want = true <->
  exists s, s ∈ granted /\ (TrimSpace s = want \/ TrimSpace s = ScopeWildcard).
Proof.
  induction granted as [|s rest IH]; simpl; [set_solver|].
  destruct (String.eqb_spec (TrimSpace s) want), (String.eqb_spec (TrimSpace s) ScopeWildcard); simpl;
    [set_solver..|]. rewrite IH. set_solver.
Qed.

Lemma HasScope_some l r : r <> "" -> HasScope (Some l) r = HasExplicitScope l r.
Proof.
  intros Hr. unfold HasScope. rewrite (proj2 (String.eqb_neq r "") Hr).
  induction l as [|s l IH]; [done|]. cbn [existsb HasExplicitScope].
  rewrite IH, orb_comm. rewrite (orb_comm (String.eqb _ ScopeWildcard)).
  destruct (_ || String.eqb (TrimSpace s) ScopeWildcard); [|by rewrite orb_false_r]. by rewrite orb_true_r.
Qed.

Lemma HasExplicitScope_mono l l' r :
  (forall s, s ∈ l -> s ∈ l') -> HasExplicitScope l r = true -> HasExplicitScope l' r = true.
Proof. rewrite !HasExplicitScope_iff. intros H (s & Hs & Hm). exists s. eauto. Qed.

Lemma elem_of_trimmed_set s l : s ∈ trimmed_set l <-> exists x, x ∈ l /\ TrimSpace x = s.
Proof.
  unfold trimmed_set. rewrite elem_of_list_to_set, list_elem_of_fmap. naive_solver.
Qed.

(** ** Properties: scopes *)

Lemma IntersectScopes_grants caller manifest r :
  r <> "" ->
  HasExplicitScope (IntersectScopes caller manifest) r =
  HasScope caller r && HasExplicitScope manifest r.
Proof.
  intros Hr. destruct caller as [c|]; simpl; [|by unfold HasScope; rewrite (proj2 (String.eqb_neq r "") Hr)].
  rewrite HasScope_some by done.
  destruct (HasExplicitScope c ScopeWildcard) eqn:Ec.
  { assert (HasExplicitScope c r = true) as ->; [|done].
    apply HasExplicitScope_iff in Ec as (s & Hs & Hw). apply HasExplicitScope_iff. exists s. naive_solver. }
  destruct (HasExplicitScope manifest ScopeWildcard) eqn:Em.
  { assert (HasExplicitScope manifest r = true) as ->; [|by rewrite andb_true_r].
    apply HasExplicitScope_iff in Em as (s & Hs & Hw). apply HasExplicitScope_iff. exists s. naive_solver. }
  apply not_true_iff_false in Ec, Em. rewrite HasExplicitScope_iff in Ec, Em.
  apply eq_bool_prop_intro. rewrite !Is_true_true, andb_true_iff, !HasExplicitScope_iff. split.
  - intros (s & Hs & Hm). apply list_elem_of_filter in Hs as [Hc Hs].
    apply list_elem_of_fmap in Hs as (m & -> & Hm'). apply elem_of_trimmed_set in Hc as (x & Hx & Heq).
    rewrite TrimSpace_idem in Hm. naive_solver.
  - intros [(x & Hx & [Hxr|]) (m & Hm & [Hmr|])]; try naive_solver.
    exists r. rewrite <- Hmr at 2. rewrite TrimSpace_idem. split; [|by left].
    apply list_elem_of_filter. split; [apply elem_of_trimmed_set; eauto|].
    rewrite <- Hmr. by apply list_elem_of_fmap_2.
Qed.

(** A manifest is a ceiling and never a floor.  For every caller (without a
    scopes claim, with a wildcard, or with any list) and every manifest, a token
    minted with the intersection as its scopes claim passes a scope check exactly
    when the caller's own token does and the manifest lists the scope. *)
Theorem IntersectScopes_exact caller manifest r :
  r <> "" ->
  HasScope (Some (IntersectScopes caller manifest)) r =
  HasScope caller r && HasExplicitScope manifest r.
Proof. intros Hr. by rewrite HasScope_some, IntersectScopes_grants. Qed.

Lemma IntersectScopes_exact_witness :
  HasScope (Some (IntersectScopes (Some ["agents:run"; " secrets:read "]) ["secrets:read"; "tracker:admin"]))
    "secrets:read" = true /\
  HasScope (Some (IntersectScopes (Some ["agents:run"; " secrets:read "]) ["secrets:read"; "tracker:admin"]))
    "tracker:admin" = false.
Proof.
  split; rewrite IntersectScopes_exact by discriminate; vm_compute; reflexivity.
Defined.

Lemma ScopesFromGRPCContext_absent ctx s : ScopesFromGRPCContext ctx = (s, false) -> s = None.
Proof. unfold ScopesFromGRPCContext. repeat case_match; naive_solver. Qed.

(** [RequireScope] admits a call exactly when there is an authenticated subject and
    either its scopes claim covers the required scope or it has no claim and
    strict mode is off; every authenticated call without a claim is counted, in both
    modes, and no other call changes the measurement. *)
Theorem RequireScope_spec now ctx required st :
  let authenticated := (SubjectFromGRPCContext ctx).2 = true in
  ((RequireScope now ctx required st).1 = None <->
     authenticated /\
     match ScopesFromGRPCContext ctx with
     | (s, true) => HasScope s required = true
     | (_, false) => st_strict st = false
     end) /\
  (RequireScope now ctx required st).2 =
    (if (SubjectFromGRPCContext ctx).2 && negb (ScopesFromGRPCContext ctx).2
     then recordUnscopedCall now st else st).
Proof.
  unfold RequireScope. destruct (SubjectFromGRPCContext ctx) as [[u roles] ok]. simpl.
  destruct ok; simpl; [|split; [|done]; split; [done|by intros [? _]]].
  destruct (ScopesFromGRPCContext ctx) as [s present] eqn:E. destruct present; simpl.
  - destruct (HasScope s required); naive_solver.
  - apply ScopesFromGRPCContext_absent in E as ->.
    unfold StrictScopesEnabled, recordUnscopedCall. simpl.
    destruct (st_strict st); simpl; [naive_solver|].
    unfold HasScope. destruct (String.eqb required ""); naive_solver.
Qed.

(** ** Properties: tenant isolation *)

Lemma HasSuffix_iff p s : HasSuffix p s = true <-> exists t, s = t +:+ p.
Proof.
  unfold HasSuffix. rewrite HasPrefix_iff. split.
  - intros [t Ht]. exists (reverse t). apply (f_equal reverse) in Ht.
    by rewrite reverse_involutive, reverse_app, reverse_involutive in Ht.
  - intros [t ->]. exists (reverse t). by rewrite reverse_app.
Qed.

Lemma OwnerFromContainerName_iff name owner :
  OwnerFromContainerName name = Some owner <->
  owner <> "" /\ TrimSpace name = owner +:+ containerSuffix.
Proof.
  unfold OwnerFromContainerName. destruct (String.eqb_spec (TrimSpace name) "") as [E|E].
  { rewrite E. split; [done|]. intros [_ H]. apply (f_equal String.length) in H.
    autorewrite with gostrings in H. simpl in H. lia. }
  destruct (HasSuffix containerSuffix (TrimSpace name)) eqn:Hs; simpl.
  - apply HasSuffix_iff in Hs as [t Ht]. rewrite Ht, TrimSuffix_app.
    destruct (String.eqb_spec t "") as [->|Hne].
    + split; [done|]. intros [Ho H]. destruct owner; [done|]. apply (f_equal String.length) in H.
      autorewrite with gostrings in H. simpl in H. lia.
    + split; [by intros [= <-]|]. intros [_ H]. f_equal.
      apply (f_equal (fun x => TrimSuffix x containerSuffix)) in H. by rewrite !TrimSuffix_app in H.
  - split; [done|]. intros [_ H]. rewrite H in Hs.
    assert (HasSuffix containerSuffix (owner +:+ containerSuffix) = true) by (apply HasSuffix_iff; eauto).
    congruence.
Qed.

(** The authenticated caller of a request: its name and roles. *)
Definition caller_is (ctx : Context) (subject : string) (roles : list string) : Prop :=
  SubjectFromGRPCContext ctx = (subject, roles, true).

(** The three tenant gates.  [AuthorizeTenant] admits exactly the tenant itself
    and admins; [AuthorizeContainerAccess] admits exactly admins and the tenant [u]
    whose container is named [u-container] (surrounding white space aside);
    [AuthorizeSecretTenant] admits exactly the tenant itself and admins whose token
    explicitly carries the secrets scope, so an admin token without a scopes claim
    reaches no other tenant's secrets. *)
Theorem tenant_gates ctx target name scope :
  (AuthorizeTenant ctx target = None <->
     exists u roles, caller_is ctx u roles /\ (u = target \/ HasRole roles RoleAdmin = true)) /\
  (AuthorizeContainerAccess ctx name = None <->
     exists u roles, caller_is ctx u roles /\
       (HasRole roles RoleAdmin = true \/ (u <> "" /\ TrimSpace name = u +:+ containerSuffix))) /\
  (AuthorizeSecretTenant ctx target scope = None <->
     exists u roles, caller_is ctx u roles /\
       (u = target \/ (HasRole roles RoleAdmin = true /\
                       HasExplicitScope (elems (ScopesFromGRPCContext ctx).1) scope = true))).
Proof.
  unfold AuthorizeTenant, AuthorizeContainerAccess, AuthorizeSecretTenant, caller_is.
  destruct (SubjectFromGRPCContext ctx) as [[u roles] ok]. destruct ok; simpl; [|naive_solver].
  assert (Hex : forall P : string -> list string -> Prop,
    (exists u' r', (u, roles, true) = (u', r', true) /\ P u' r') <-> P u roles) by naive_solver.
  rewrite !Hex. clear Hex.
  rewrite <- (OwnerFromContainerName_iff name u).
  destruct (HasRole roles RoleAdmin); simpl; split_and!.
  - tauto.
  - tauto.
  - destruct (String.eqb_spec u target); [tauto|].
    destruct (HasExplicitScope (elems (ScopesFromGRPCContext ctx).1) scope); naive_solver.
  - destruct (String.eqb_spec u target); simpl; split; intuition congruence.
  - destruct (OwnerFromContainerName name) as [o|]; [|intuition congruence].
    destruct (String.eqb_spec o u); simpl; intuition congruence.
  - destruct (String.eqb_spec u target); simpl; split; intuition congruence.
Qed.
