(* ===== verification/LogFrame.v ===== *)
(** * internal/logframe: the text-safe framing of a process's output streams

    [EncodeFrame] writes "<stream> <base64>\n"; a [Demuxer] is fed the stream in
    arbitrary chunks.  Bytes are integers 0..255.  The demuxer's loop removes at
    least one byte from the buffer per iteration, so the length of the buffer is
    enough fuel. *)

From S2P Require Import Prelude GoStrings GoBytes.

Abbreviation Stream := Z (only parsing).
Definition Stdout : Stream := 49.
Definition Stderr : Stream := 50.

Definition EncodeFrame (stream : Stream) (payload : list Z) : list Z :=
  stream :: 32 :: StdEncode payload ++ [10].

Record Frame := mkFrame { f_Stream : Stream; f_Payload : list Z }.

Inductive frame_error := MalformedLine (line : list Z) | UnknownStream (id : Z) | DecodeFailed.

(** The bytes before and after the first line feed. *)
Fixpoint cut_line (b : list Z) : option (list Z * list Z) :=
  match b with
  | [] => None
  | c :: b' => if c =? 10 then Some ([], b')
               else match cut_line b' with Some (l, r) => Some (c :: l, r) | None => None end
  end.

Definition parse_line (line : list Z) : Frame + frame_error :=
  match line with
  | s :: sp :: body =>
      if negb (sp =? 32) then inr (MalformedLine line)
      else if negb (s =? Stdout) && negb (s =? Stderr) then inr (UnknownStream s)
      else match StdDecode body with
           | None => inr DecodeFailed
           | Some payload => inl {| f_Stream := s; f_Payload := payload |}
           end
  | _ => inr (MalformedLine line)
  end.

(** The loop of [Write]: [(frames, err, buf)]. *)
Fixpoint demux_loop (fuel : nat) (buf : list Z) (frames : list Frame)
  : list Frame * option frame_error * list Z :=
  match fuel with
  | O => (frames, None, buf)
  | S f =>
      match cut_line buf with
      | None => (frames, None, buf)
      | Some (line, rest) =>
          match parse_line line with
          | inr e => (frames, Some e, rest)
          | inl fr => demux_loop f rest (frames ++ [fr])
          end
      end
  end.

(** [d] is the demuxer's buffer. *)
Definition Write (d chunk : list Z) : list Frame * option frame_error * list Z :=
  demux_loop (S (length (d ++ chunk))) (d ++ chunk) [].

(** Feeding chunks one after the other, stopping at the first error. *)
Fixpoint feed (d : list Z) (chunks : list (list Z)) : list Frame * option frame_error * list Z :=
  match chunks with
  | [] => ([], None, d)
  | c :: rest =>
      let '(fs, e, d') := Write d c in
      match e with
      | Some _ => (fs, e, d')
      | None => let '(fs', e', d'') := feed d' rest in (fs ++ fs', e', d'')
      end
  end.

(** ** Lemmas *)

Lemma cut_line_some b l r : cut_line b = Some (l, r) -> b = l ++ 10 :: r /\ Forall (fun c => c <> 10) l.
Proof.
  revert l. induction b as [|c b IH]; intros l; simpl; [done|].
  destruct (Z.eqb_spec c 10) as [->|Hc]; [by intros [= <- <-]|].
  destruct (cut_line b) as [[l' r']|]; [|done]. intros [= <- <-].
  destruct (IH l' eq_refl) as [-> Hl]. split; [done|]. by constructor.
Qed.

Lemma cut_line_app l r : Forall (fun c => c <> 10) l -> cut_line (l ++ 10 :: r) = Some (l, r).
Proof.
  induction 1 as [|c l Hc _ IH]; [done|]. simpl. rewrite (proj2 (Z.eqb_neq c 10) Hc), IH. done.
Qed.

Lemma cut_line_some_app b c l r : cut_line b = Some (l, r) -> cut_line (b ++ c) = Some (l, r ++ c).
Proof.
  intros H. apply cut_line_some in H as [-> Hl]. rewrite <- app_assoc. by apply cut_line_app.
Qed.

(** Enough fuel is as good as more. *)
Lemma demux_fuel f1 f2 buf fs :
  (length buf < f1)%nat -> (length buf < f2)%nat -> demux_loop f1 buf fs = demux_loop f2 buf fs.
Proof.
  revert f2 buf fs. induction f1 as [|f1 IH]; intros [|f2] buf fs H1 H2; try lia. simpl.
  destruct (cut_line buf) as [[l r]|] eqn:E; [|done]. destruct (parse_line l); [|done].
  apply cut_line_some in E as [-> _]. rewrite length_app in H1, H2. simpl in H1, H2. apply IH; lia.
Qed.

Lemma demux_acc f buf fs :
  demux_loop f buf fs = let '(out, e, d) := demux_loop f buf [] in (fs ++ out, e, d).
Proof.
  revert buf fs. induction f as [|f IH]; intros buf fs; simpl; [by rewrite app_nil_r|].
  destruct (cut_line buf) as [[l r]|]; [|by rewrite app_nil_r].
  destruct (parse_line l) as [fr|e]; [|by rewrite app_nil_r].
  rewrite IH, (IH r [fr]). destruct (demux_loop f r []) as [[out e] d]. simpl. by rewrite <- app_assoc.
Qed.

(** The demuxer on a whole buffer, with the fuel it needs. *)
Definition run (buf : list Z) : list Frame * option frame_error * list Z :=
  demux_loop (S (length buf)) buf [].

Lemma run_cut buf l r fr : cut_line buf = Some (l, r) -> parse_line l = inl fr ->
  run buf = let '(fs, e, d) := run r in (fr :: fs, e, d).
Proof.
  intros Hc Hp. unfold run at 1. cbn [demux_loop]. rewrite Hc, Hp, (demux_acc _ r).
  apply cut_line_some in Hc as [-> _].
  rewrite (demux_fuel _ (S (length r)) r []) by (rewrite ?length_app; simpl; lia). done.
Qed.

Lemma run_error buf l r e : cut_line buf = Some (l, r) -> parse_line l = inr e -> run buf = ([], Some e, r).
Proof. intros Hc Hp. unfold run. cbn [demux_loop]. by rewrite Hc, Hp. Qed.

Lemma run_stop buf : cut_line buf = None -> run buf = ([], None, buf).
Proof. intros Hc. unfold run. cbn [demux_loop]. by rewrite Hc. Qed.

(** Induction over the lines of a buffer, following the demuxer. *)
Lemma lines_ind (P : list Z -> Prop) :
  (forall buf, cut_line buf = None -> P buf) ->
  (forall buf l r e, cut_line buf = Some (l, r) -> parse_line l = inr e -> P buf) ->
  (forall buf l r fr, cut_line buf = Some (l, r) -> parse_line l = inl fr -> P r -> P buf) ->
  forall buf, P buf.
Proof.
  intros H1 H2 H3. apply (induction_ltof1 _ (@length Z)). intros buf IH. unfold ltof in IH.
  destruct (cut_line buf) as [[l r]|] eqn:E; [|by apply H1].
  destruct (parse_line l) as [fr|e] eqn:Ep; [|by eapply H2].
  eapply H3; [done..|]. apply IH. apply cut_line_some in E as [-> _]. rewrite length_app. simpl. lia.
Qed.

(** A run that ends without error can be resumed where it stopped. *)
Lemma run_app more buf : forall fs d,
  run buf = (fs, None, d) ->
  cut_line d = None /\ run (buf ++ more) = let '(fs', e, d') := run (d ++ more) in (fs ++ fs', e, d').
Proof.
  induction buf as [buf E|buf l r e E Ep|buf l r fr E Ep IH] using lines_ind; intros fs d H.
  - rewrite (run_stop _ E) in H. injection H as <- <-. by destruct (run (buf ++ more)) as [[fs2 e2] d2].
  - by rewrite (run_error _ _ _ _ E Ep) in H.
  - rewrite (run_cut _ _ _ _ E Ep) in H. destruct (run r) as [[fs1 e1] d1] eqn:Er. injection H as <- -> ->.
    pose proof (cut_line_some_app _ more _ _ E) as E'. rewrite (run_cut _ _ _ _ E' Ep).
    destruct (IH fs1 d eq_refl) as [Hd ->]. split; [done|]. by destruct (run (d ++ more)) as [[fs2 e2] d2].
Qed.

(** An error does not depend on what follows the offending line. *)
Lemma run_error_app more buf : forall fs e d,
  run buf = (fs, Some e, d) -> run (buf ++ more) = (fs, Some e, d ++ more).
Proof.
  induction buf as [buf E|buf l r e' E Ep|buf l r fr E Ep IH] using lines_ind; intros fs e d H.
  - by rewrite (run_stop _ E) in H.
  - rewrite (run_error _ _ _ _ E Ep) in H. injection H as <- <- <-.
    by rewrite (run_error _ _ _ _ (cut_line_some_app _ more _ _ E) Ep).
  - rewrite (run_cut _ _ _ _ E Ep) in H. destruct (run r) as [[fs1 e1] d1] eqn:Er. injection H as <- -> ->.
    by rewrite (run_cut _ _ _ _ (cut_line_some_app _ more _ _ E) Ep), (IH fs1 e d eq_refl).
Qed.

Lemma Write_run d chunk : Write d chunk = run (d ++ chunk).
Proof. done. Qed.

(** What a run reports; the buffer is only meaningful when there is no error. *)
Definition observe (r : list Frame * option frame_error * list Z)
  : list Frame * option frame_error * option (list Z) :=
  let '(fs, e, d) := r in (fs, e, match e with None => Some d | Some _ => None end).

Lemma feed_observe chunks : forall d,
  cut_line d = None -> observe (feed d chunks) = observe (run (d ++ concat chunks)).
Proof.
  induction chunks as [|c chunks IH]; intros d Hd; simpl.
  { rewrite app_nil_r. by rewrite run_stop. }
  rewrite Write_run. destruct (run (d ++ c)) as [[fs e] d1] eqn:E. rewrite app_assoc.
  destruct e as [er|].
  - by rewrite (run_error_app (concat chunks) _ _ _ _ E).
  - destruct (run_app (concat chunks) _ _ _ E) as [Hd1 ->]. specialize (IH d1 Hd1).
    destruct (feed d1 chunks) as [[fs1 e1] d2], (run (d1 ++ concat chunks)) as [[fs2 e2] d3].
    simpl in *. injection IH as -> -> Hx. destruct e2; [done|]. by injection Hx as ->.
Qed.

(** ** Frames on the wire *)

Definition frame_ok (f : Frame) : Prop :=
  (f_Stream f = Stdout \/ f_Stream f = Stderr) /\ Forall is_byte (f_Payload f).

Definition wire (fs : list Frame) : list Z := concat (map (fun f => EncodeFrame (f_Stream f) (f_Payload f)) fs).

Lemma cut_frame f rest : frame_ok f ->
  cut_line (EncodeFrame (f_Stream f) (f_Payload f) ++ rest) = Some (f_Stream f :: 32 :: StdEncode (f_Payload f), rest).
Proof.
  intros [Hs Hb]. unfold EncodeFrame. rewrite !app_comm_cons, <- app_assoc.
  apply (cut_line_app (f_Stream f :: 32 :: StdEncode (f_Payload f))).
  repeat (constructor; [unfold Stdout, Stderr in *; lia|]).
  eapply Forall_impl; [by apply StdEncode_no_newline|]. unfold is_newline. simpl.
  intros c [Hc _]%orb_false_iff. by apply Z.eqb_neq.
Qed.

Lemma parse_frame f : frame_ok f -> parse_line (f_Stream f :: 32 :: StdEncode (f_Payload f)) = inl f.
Proof.
  intros [Hs Hb]. unfold parse_line. change (negb (32 =? 32)) with false. cbv iota.
  replace (negb (f_Stream f =? Stdout) && negb (f_Stream f =? Stderr)) with false
    by (destruct Hs as [-> | ->]; reflexivity).
  rewrite StdDecode_Encode by done. by destruct f.
Qed.

Lemma run_wire fs rest : Forall frame_ok fs ->
  run (wire fs ++ rest) = let '(fs', e, d) := run rest in (fs ++ fs', e, d).
Proof.
  induction 1 as [|f fs Hf _ IH]; [by simpl; destruct (run rest) as [[fs' e] d]|].
  change (wire (f :: fs)) with (EncodeFrame (f_Stream f) (f_Payload f) ++ wire fs).
  rewrite <- app_assoc.
  rewrite (run_cut _ _ _ _ (cut_frame f _ Hf) (parse_frame f Hf)), IH.
  by destruct (run rest) as [[fs' e] d].
Qed.

(** ** Properties *)

(** However the bytes of a stream are cut into chunks, and whether or not they
    are well-formed, feeding the chunks to a fresh demuxer one by one yields the
    same frames, the same error and (without error) the same buffered rest as
    writing the whole stream at once. *)
Theorem demux_chunk_invariant chunks :
  observe (feed [] chunks) = observe (Write [] (concat chunks)).
Proof. by rewrite (feed_observe chunks []), Write_run. Qed.

(** Round trip.  Frames of arbitrary bytes on the two streams, encoded,
    concatenated, followed by a beginning of another frame and cut anywhere,
    come back in order and unchanged, with no error; the incomplete tail stays in
    the buffer. *)
Theorem demux_roundtrip fs tail chunks :
  Forall frame_ok fs -> Forall (fun c => c <> 10) tail ->
  concat chunks = wire fs ++ tail ->
  feed [] chunks = (fs, None, tail).
Proof.
  intros Hfs Htail Hc. pose proof (feed_observe chunks [] eq_refl) as H.
  assert (Hcut : cut_line tail = None).
  { clear -Htail. induction Htail as [|c l Hne _ IH]; [done|]. simpl.
    by rewrite (proj2 (Z.eqb_neq c 10) Hne), IH. }
  simpl app in H. rewrite Hc, run_wire, (run_stop _ Hcut), app_nil_r in H by done.
  destruct (feed [] chunks) as [[out e] d]. simpl in H. destruct e; naive_solver.
Qed.

Definition demo_frames : list Frame :=
  [mkFrame Stdout [104; 195]; mkFrame Stderr []; mkFrame Stdout [169; 255]].

Lemma demux_roundtrip_witness :
  feed [] [take 7 (wire demo_frames); drop 7 (wire demo_frames); [49; 32]; [97]] = (demo_frames, None, [49; 32; 97]).
Proof.
  apply demux_roundtrip.
  - repeat (constructor; [split; [unfold Stdout, Stderr; simpl; auto|];
      repeat (constructor; [unfold is_byte; lia|]); constructor|]). constructor.
  - repeat (constructor; [lia|]). constructor.
  - vm_compute. reflexivity.
Defined.
