(* ===== verification/Tokens.v ===== *)
(** * internal/auth TokenManager and internal/server TokensServer

    Minting and validating tokens, the single-use rotation of refresh tokens with
    reuse detection, delegated tokens, and the scopes of an agent run's token.

    The JWT library is a parameter: [SignedString] signs claims with a key, [decode] reads
    a token's algorithm and claims without trusting them, and [verify] is the
    library's check of signature, time claims, issuer and audience.  Every theorem holds
    for every such library.  The revocation store is the pair of tables of
    revocation_store.go; each of its operations is one atomic step and may fail.
    The steps of [RefreshToken] between store operations are the constructors
    of [refresh_pc], so concurrent exchanges interleave. *)

From S2P Require Import Prelude GoStrings GoBytes Auth.
From Stdlib Require Import Ascii.
#[local] Open Scope string_scope.
#[local] Open Scope list_scope.
#[local] Open Scope Z_scope.

(** ** The token manager *)

Definition DefaultMaxTokenExpiry : Duration := 30 * 24 * Hour.
Definition MinSecretKeyLen : Z := 32.
Definition DefaultAudience : string := "containarium-api".
Definition TokenTypeAccess : string := "access".
Definition TokenTypeRefresh : string := "refresh".
Definition DefaultRefreshTokenExpiry : Duration := 30 * 24 * Hour.
Definition DefaultAccessTokenExpiry : Duration := 15 * Minute.

Record TokenManager := mkTM {
  tm_secretKey : string;
  tm_issuer : string;
  tm_audience : string;
  tm_maxTokenExpiry : Duration;
}.

Record MintedID := mkMinted { mi_JTI : string; mi_ExpiresAt : Time }.

(** [jwt.NewNumericDate] keeps whole seconds. *)
Definition NumericDate (t : Time) : Time := t - t mod Second.

(** [rand] is the outcome of reading 16 random bytes. *)
Definition newJTI (rand : option (list Z)) : option string :=
  match rand with
  | None => None
  | Some b => Some (string_of_bytes (RawURLEncode b))
  end.

Definition effective_expiry (tm : TokenManager) (expiresIn : Duration) : Duration :=
  if (expiresIn <=? 0) || (tm_maxTokenExpiry tm <? expiresIn) then tm_maxTokenExpiry tm else expiresIn.

(** The claims [generate] signs. *)
Definition mint_claims (tm : TokenManager) (now : Time) (jti username : string) (roles scopes : list string)
  (tt : string) (expiresIn : Duration) (act : option Actor) (runID trackerConn familyID : string) : Claims :=
  {| cl_Username := username;
     cl_Roles := roles;
     cl_Scopes := match scopes with [] => None | _ => Some scopes end;
     cl_TokenType := tt;
     cl_Act := act;
     cl_RunID := runID;
     cl_TrackerConn := trackerConn;
     cl_FamilyID := if String.eqb tt TokenTypeRefresh && String.eqb familyID "" then jti else familyID;
     cl_ID := jti;
     cl_ExpiresAt := Some (NumericDate (now + effective_expiry tm expiresIn));
     cl_IssuedAt := NumericDate now;
     cl_Issuer := tm_issuer tm;
     cl_Audience := [tm_audience tm] |}.

Inductive token_error := JTIFailed | SignFailed | ActTooDeep | InvalidToken.

(** ** The revocation tables *)

Record store := mkStore {
  jwt_revocations : gmap string (Time * string);
  jwt_revoked_families : gmap string string;
}.

(** [inr] is a database error, or an empty key; [ok = false] makes the query fail. *)
Definition IsRevoked (ok : bool) (jti : string) (s : store) : bool + unit :=
  if String.eqb jti "" then inl false
  else if negb ok then inr () else inl (bool_decide (is_Some (jwt_revocations s !! jti))).

Definition RevokeClaim (ok : bool) (jti : string) (expiresAt : Time) (reason : string) (s : store)
  : (bool + unit) * store :=
  if String.eqb jti "" then (inr (), s)
  else if negb ok then (inr (), s)
  else match jwt_revocations s !! jti with
       | Some _ => (inl false, s)
       | None => (inl true, {| jwt_revocations := <[jti := (expiresAt, reason)]> (jwt_revocations s);
                               jwt_revoked_families := jwt_revoked_families s |})
       end.

Definition Revoke (ok : bool) (jti : string) (expiresAt : Time) (reason : string) (s : store)
  : option unit * store :=
  let '(r, s') := RevokeClaim ok jti expiresAt reason s in
  (match r with inl _ => None | inr e => Some e end, s').

Definition RevokeFamily (ok : bool) (familyID reason : string) (s : store) : option unit * store :=
  if String.eqb familyID "" then (Some (), s)
  else if negb ok then (Some (), s)
  else match jwt_revoked_families s !! familyID with
       | Some _ => (None, s)
       | None => (None, {| jwt_revocations := jwt_revocations s;
                           jwt_revoked_families := <[familyID := reason]> (jwt_revoked_families s) |})
       end.

Definition IsFamilyRevoked (ok : bool) (familyID : string) (s : store) : bool + unit :=
  if String.eqb familyID "" then inl false
  else if negb ok then inr () else inl (bool_decide (is_Some (jwt_revoked_families s !! familyID))).

(** [DELETE ... WHERE expires_at < now]; the result is the number of rows. *)
Definition CleanupExpired (ok : bool) (now : Time) (s : store) : (Z + unit) * store :=
  if negb ok then (inr (), s)
  else let keep := filter (fun kv => now <= kv.2.1) (jwt_revocations s) in
       (inl (Z.of_nat (size (jwt_revocations s)) - Z.of_nat (size keep)),
        {| jwt_revocations := keep; jwt_revoked_families := jwt_revoked_families s |}).

(** ** Minting and validating *)

Section jwt.
Context (SignedString : string -> Claims -> option string).
Context (decode : string -> option (string * Claims)).
Context (verify : string -> string -> string -> Time -> string -> bool).

Definition generate (tm : TokenManager) (now : Time) (rand : option (list Z)) (username : string)
  (roles scopes : list string) (tt : string) (expiresIn : Duration) (act : option Actor)
  (runID trackerConn familyID : string) : (string * MintedID) + token_error :=
  match newJTI rand with
  | None => inr JTIFailed
  | Some jti =>
      let c := mint_claims tm now jti username roles scopes tt expiresIn act runID trackerConn familyID in
      match SignedString (tm_secretKey tm) c with
      | None => inr SignFailed
      | Some tok => inl (tok, {| mi_JTI := jti; mi_ExpiresAt := default 0 (cl_ExpiresAt c) |})
      end
  end.

Definition token_only (r : (string * MintedID) + token_error) : string + token_error :=
  match r with inl (tok, _) => inl tok | inr e => inr e end.

Definition GenerateAccessToken (tm : TokenManager) (now : Time) (rand : option (list Z)) (username : string)
  (roles : list string) (expiresIn : Duration) (scopes : list string) : string + token_error :=
  let e := if expiresIn <=? 0 then DefaultAccessTokenExpiry else expiresIn in
  token_only (generate tm now rand username roles scopes TokenTypeAccess e None "" "" "").

Definition GenerateRefreshTokenInFamily (tm : TokenManager) (now : Time) (rand : option (list Z))
  (username : string) (roles : list string) (expiresIn : Duration) (familyID : string)
  (scopes : list string) : string + token_error :=
  let e := if expiresIn <=? 0 then DefaultRefreshTokenExpiry else expiresIn in
  token_only (generate tm now rand username roles scopes TokenTypeRefresh e None "" "" familyID).

Definition GenerateRefreshToken (tm : TokenManager) (now : Time) (rand : option (list Z))
  (username : string) (roles : list string) (expiresIn : Duration) (scopes : list string)
  : string + token_error :=
  GenerateRefreshTokenInFamily tm now rand username roles expiresIn "" scopes.

Definition GenerateDelegatedTokenWithRun (tm : TokenManager) (now : Time) (rand : option (list Z))
  (username : string) (roles : list string) (expiresIn : Duration) (act : option Actor)
  (runID trackerConn : string) (scopes : list string) : (string * MintedID) + token_error :=
  if validateActDepth act then inr ActTooDeep
  else generate tm now rand username roles scopes "" expiresIn act runID trackerConn "".

Definition GenerateDelegatedTokenWithID (tm : TokenManager) (now : Time) (rand : option (list Z))
  (username : string) (roles : list string) (expiresIn : Duration) (act : option Actor)
  (runID : string) (scopes : list string) : (string * MintedID) + token_error :=
  GenerateDelegatedTokenWithRun tm now rand username roles expiresIn act runID "" scopes.

Definition GenerateDelegatedToken (tm : TokenManager) (now : Time) (rand : option (list Z))
  (username : string) (roles : list string) (expiresIn : Duration) (act : option Actor)
  (scopes : list string) : string + token_error :=
  token_only (GenerateDelegatedTokenWithID tm now rand username roles expiresIn act "" scopes).

Definition parseAndVerify (tm : TokenManager) (now : Time) (tok : string) : Claims + token_error :=
  match decode tok with
  | None => inr InvalidToken
  | Some (alg, claims) =>
      if negb (String.eqb alg "HS256") then inr InvalidToken
      else if negb (verify (tm_secretKey tm) (tm_issuer tm) (tm_audience tm) now tok) then inr InvalidToken
      else if validateActDepth (cl_Act claims) then inr InvalidToken
      else inl claims
  end.

(** [rs] is the revocation store, if one is configured; a failed lookup lets the token through. *)
Definition ValidateToken (tm : TokenManager) (rs : option store) (db_ok : bool) (now : Time) (tok : string)
  : Claims + token_error :=
  match parseAndVerify tm now tok with
  | inr e => inr e
  | inl claims =>
      match rs with
      | None => inl claims
      | Some s =>
          if String.eqb (cl_ID claims) "" then inl claims
          else match IsRevoked db_ok (cl_ID claims) s with
               | inr _ => inl claims
               | inl true => inr InvalidToken
               | inl false => inl claims
               end
      end
  end.

Definition ValidateAccessToken (tm : TokenManager) (rs : option store) (db_ok : bool) (now : Time)
  (tok : string) : Claims + token_error :=
  match ValidateToken tm rs db_ok now tok with
  | inr e => inr e
  | inl c => if negb (String.eqb (cl_TokenType c) "") && negb (String.eqb (cl_TokenType c) TokenTypeAccess)
             then inr InvalidToken else inl c
  end.

Definition ValidateRefreshToken (tm : TokenManager) (rs : option store) (db_ok : bool) (now : Time)
  (tok : string) : Claims + token_error :=
  match ValidateToken tm rs db_ok now tok with
  | inr e => inr e
  | inl c => if negb (String.eqb (cl_TokenType c) TokenTypeRefresh) then inr InvalidToken else inl c
  end.

Definition ValidateRefreshTokenClaims (tm : TokenManager) (now : Time) (tok : string) : Claims + token_error :=
  match parseAndVerify tm now tok with
  | inr e => inr e
  | inl c => if negb (String.eqb (cl_TokenType c) TokenTypeRefresh) then inr InvalidToken else inl c
  end.
End jwt.

(** ** RefreshToken *)

Record refresh_response := mkResp {
  rr_AccessToken : string;
  rr_RefreshToken : string;
  rr_AccessExp : Z;
  rr_RefreshExp : Z;
}.

Inductive refresh_result := ROk (resp : refresh_response) | RErr (c : code).

(** Where a call is: before the family lookup, before the claim, before the family
    revocation that answers a lost claim, before minting, or finished. *)
Inductive refresh_pc :=
| RLookup (c : Claims) (familyID : string)
| RClaim (c : Claims) (familyID : string)
| RReuse (c : Claims) (familyID : string)
| RMint (c : Claims) (familyID : string)
| RDone (c : option Claims) (r : refresh_result).

Record answers := mkAns {
  an_now : Time;
  an_db : bool;
  an_rand_access : option (list Z);
  an_rand_refresh : option (list Z);
}.

Definition family_of (c : Claims) : string :=
  if String.eqb (cl_FamilyID c) "" then cl_ID c else cl_FamilyID c.

(** Seconds since the Unix epoch. *)
Definition Unix (t : Time) : Z := (t - unixToInternal) / Second.

Section refresh.
Context (SignedString : string -> Claims -> option string).
Context (decode : string -> option (string * Claims)).
Context (verify : string -> string -> string -> Time -> string -> bool).
Context (tm : TokenManager).

(** The handler up to its first store operation; [configured] is [s.store != nil]. *)
Definition refresh_begin (configured : bool) (now : Time) (refreshToken : string) : refresh_pc :=
  if String.eqb refreshToken "" then RDone None (RErr InvalidArgument)
  else match ValidateRefreshTokenClaims decode verify tm now refreshToken with
       | inr _ => RDone None (RErr Unauthenticated)
       | inl c => if configured && negb (String.eqb (cl_ID c) "")
                  then RLookup c (family_of c) else RMint c (family_of c)
       end.

Definition exp_unix (r : Claims + token_error) : Z :=
  match r with
  | inl c => match cl_ExpiresAt c with Some e => Unix e | None => 0 end
  | inr _ => 0
  end.

Definition refresh_mint (rs : option store) (an : answers) (c : Claims) (familyID : string) : refresh_result :=
  match GenerateAccessToken SignedString tm (an_now an) (an_rand_access an)
          (cl_Username c) (cl_Roles c) 0 (elems (cl_Scopes c)) with
  | inr _ => RErr Internal
  | inl newAccess =>
      match GenerateRefreshTokenInFamily SignedString tm (an_now an) (an_rand_refresh an)
              (cl_Username c) (cl_Roles c) 0 familyID (elems (cl_Scopes c)) with
      | inr _ => RErr Internal
      | inl newRefresh =>
          ROk {| rr_AccessToken := newAccess; rr_RefreshToken := newRefresh;
                 rr_AccessExp := exp_unix (ValidateAccessToken decode verify tm rs (an_db an) (an_now an) newAccess);
                 rr_RefreshExp := exp_unix (ValidateRefreshToken decode verify tm rs (an_db an) (an_now an) newRefresh) |}
      end
  end.

Definition refresh_step (an : answers) (pc : refresh_pc) (s : store) : refresh_pc * store :=
  match pc with
  | RLookup c familyID =>
      match IsFamilyRevoked (an_db an) familyID s with
      | inl true => (RDone (Some c) (RErr Unauthenticated), s)
      | _ => (RClaim c familyID, s)
      end
  | RClaim c familyID =>
      let '(r, s') := RevokeClaim (an_db an) (cl_ID c) (default 0 (cl_ExpiresAt c)) "refresh_rotation" s in
      match r with
      | inr _ => (RDone (Some c) (RErr Internal), s')
      | inl true => (RMint c familyID, s')
      | inl false => (RReuse c familyID, s')
      end
  | RReuse c familyID =>
      (RDone (Some c) (RErr Unauthenticated), (RevokeFamily (an_db an) familyID "refresh_reuse_detected" s).2)
  | RMint c familyID => (RDone (Some c) (refresh_mint (Some s) an c familyID), s)
  | RDone c r => (RDone c r, s)
  end.

(** The handler run without interruption: three steps reach [RDone]. *)
Fixpoint refresh_steps (ans : list answers) (pc : refresh_pc) (s : store) : refresh_pc * store :=
  match ans with
  | [] => (pc, s)
  | an :: rest => let '(pc', s') := refresh_step an pc s in refresh_steps rest pc' s'
  end.

Definition RefreshToken (now : Time) (a1 a2 a3 : answers) (refreshToken : string) (s : store)
  : refresh_pc * store :=
  refresh_steps [a1; a2; a3] (refresh_begin true now refreshToken) s.

(** ** Concurrent exchanges over one store *)

Record rsys := mkRsys { r_store : store; r_calls : list refresh_pc }.

Inductive rstep : rsys -> rsys -> Prop :=
| rstep_request s calls now tok :
    rstep (mkRsys s calls) (mkRsys s (calls ++ [refresh_begin true now tok]))
| rstep_call s l1 pc l2 an pc' s' :
    refresh_step an pc s = (pc', s') ->
    rstep (mkRsys s (l1 ++ pc :: l2)) (mkRsys s' (l1 ++ pc' :: l2))
| rstep_revoke s calls ok jti e reason :
    rstep (mkRsys s calls) (mkRsys (Revoke ok jti e reason s).2 calls).

Definition rreachable (s0 : store) : rsys -> Prop := rtc rstep (mkRsys s0 []).

(** [pc] has won the right to exchange the token with id [jti]. *)
Definition holds (jti : string) (pc : refresh_pc) : bool :=
  match pc with
  | RMint c _ | RDone (Some c) (ROk _) => String.eqb (cl_ID c) jti
  | _ => false
  end.

(** [pc] has exchanged it. *)
Definition exchanged (jti : string) (pc : refresh_pc) : bool :=
  match pc with RDone (Some c) (ROk _) => String.eqb (cl_ID c) jti | _ => false end.

Definition count_if {A} (f : A -> bool) (l : list A) : Z := Z.of_nat (length (List.filter f l)).

Lemma count_if_app {A} (f : A -> bool) l1 l2 : count_if f (l1 ++ l2) = count_if f l1 + count_if f l2.
Proof. unfold count_if. rewrite List.filter_app, length_app. lia. Qed.
Lemma count_if_cons {A} (f : A -> bool) x l : count_if f (x :: l) = (if f x then 1 else 0) + count_if f l.
Proof. unfold count_if. simpl. destruct (f x); simpl length; lia. Qed.
Lemma count_if_nonneg {A} (f : A -> bool) l : 0 <= count_if f l.
Proof. unfold count_if. lia. Qed.

Definition spent (s : store) (jti : string) : Z :=
  if bool_decide (is_Some (jwt_revocations s !! jti)) then 1 else 0.

Definition rinv (s : rsys) : Prop :=
  forall jti, jti <> "" -> count_if (holds jti) (r_calls s) <= spent (r_store s) jti.

Lemma refresh_begin_holds now tok jti : jti <> "" -> holds jti (refresh_begin true now tok) = false.
Proof.
  intros Hj. unfold refresh_begin. destruct (String.eqb tok ""); [done|].
  destruct (ValidateRefreshTokenClaims _ _ _ _ _) as [c|]; [|done].
  destruct (String.eqb_spec (cl_ID c) "") as [E|]; simpl; [|done]. rewrite E.
  by apply String.eqb_neq.
Qed.

Lemma RevokeClaim_spent ok jti e reason s jti' :
  let '(r, s') := RevokeClaim ok jti e reason s in
  spent s jti' + (if String.eqb jti jti' then (match r with inl true => 1 | _ => 0 end) else 0) = spent s' jti'.
Proof.
  unfold RevokeClaim. destruct (String.eqb_spec jti "").
  { destruct (String.eqb jti jti'); lia. }
  destruct ok; simpl; [|destruct (String.eqb jti jti'); lia].
  destruct (jwt_revocations s !! jti) as [row|] eqn:E; [destruct (String.eqb jti jti'); lia|].
  unfold spent. simpl. destruct (String.eqb_spec jti jti') as [<-|Hne].
  - rewrite E, lookup_insert_eq. reflexivity.
  - rewrite lookup_insert_ne by done. lia.
Qed.

Lemma refresh_step_spent an pc s pc' s' jti :
  jti <> "" -> refresh_step an pc s = (pc', s') ->
  (if holds jti pc' then 1 else 0) - (if holds jti pc then 1 else 0) <= spent s' jti - spent s jti.
Proof.
  intros Hj H. destruct pc as [c f|c f|c f|c f|c r]; simpl in H.
  - destruct (IsFamilyRevoked _ _ _) as [[]|]; injection H as <- <-; simpl; lia.
  - pose proof (RevokeClaim_spent (an_db an) (cl_ID c) (default 0 (cl_ExpiresAt c)) "refresh_rotation" s jti) as Hs.
    destruct (RevokeClaim _ _ _ _ _) as [r s1]. destruct r as [[]|]; injection H as <- <-; simpl;
      destruct (String.eqb (cl_ID c) jti); lia.
  - injection H as <- <-. simpl. unfold spent, RevokeFamily.
    destruct (String.eqb f ""), (an_db an); simpl; try lia.
    destruct (jwt_revoked_families s !! f); simpl; lia.
  - injection H as <- <-. simpl. destruct (refresh_mint _ _ _ _); destruct (String.eqb (cl_ID c) jti); lia.
  - injection H as <- <-. lia.
Qed.

Lemma rstep_inv s s' : rinv s -> rstep s s' -> rinv s'.
Proof.
  intros HI Hs jti Hj. destruct Hs as [s calls now tok|s l1 pc l2 an pc' s' H|s calls ok j e reason];
    specialize (HI jti Hj); simpl in *.
  - rewrite count_if_app, count_if_cons, refresh_begin_holds by done. unfold count_if at 2. simpl. lia.
  - rewrite count_if_app, count_if_cons in *. pose proof (refresh_step_spent _ _ _ _ _ jti Hj H). lia.
  - pose proof (RevokeClaim_spent ok j e reason s jti) as Hr. unfold Revoke.
    destruct (RevokeClaim ok j e reason s) as [r s1]. simpl. destruct (String.eqb j jti), r as [[]|]; lia.
Qed.
End refresh.

(** ** ExchangeDelegatedToken *)

Record exchange_request := mkExReq {
  xr_Subject : string;
  xr_Scopes : list string;
  xr_Roles : list string;
  xr_ExpiresInSeconds : Z;
}.

Record exchange_response := mkExResp {
  xs_Token : string;
  xs_ExpiresAt : Time;
  xs_GrantedScopes : list string;
  xs_GrantedRoles : list string;
}.

Inductive exchange_error :=
| XAuth (e : auth_error)
| XUnscopedCaller
| XSubjectRequired
| XNoSubject
| XNothingGranted
| XChainTooDeep
| XMintFailed
| XSelfValidation.

Definition exchange_code (e : exchange_error) : code :=
  match e with
  | XAuth a => code_of a
  | XUnscopedCaller | XNothingGranted => PermissionDenied
  | XSubjectRequired => InvalidArgument
  | XNoSubject => Unauthenticated
  | XChainTooDeep => FailedPrecondition
  | XMintFailed | XSelfValidation => Internal
  end.

Section exchange.
Context (SignedString : string -> Claims -> option string).
Context (decode : string -> option (string * Claims)).
Context (verify : string -> string -> string -> Time -> string -> bool).
Context (Unmarshal : string -> option Actor).
Context (tm : TokenManager).

(** [now0] is the clock reading of the scope measurement, [now] that of the mint and
    of the validation of its result. *)
Definition ExchangeDelegatedToken (rs : option store) (db_ok : bool) (now0 now : Time)
  (rand : option (list Z)) (ctx : Context) (req : exchange_request) (st : scope_state)
  : (exchange_response + exchange_error) * scope_state :=
  match RequireScope now0 ctx ScopeTokensDelegate st with
  | (Some e, st') => (inr (XAuth e), st')
  | (None, st') =>
    let '(callerScopes, scopesPresent) := ScopesFromGRPCContext ctx in
    if negb scopesPresent then (inr XUnscopedCaller, st')
    else
      let subject := TrimSpace (xr_Subject req) in
      if String.eqb subject "" then (inr XSubjectRequired, st')
      else
        let '(caller, callerRoles, ok) := SubjectFromGRPCContext ctx in
        if negb ok || String.eqb caller "" then (inr XNoSubject, st')
        else
          let '(callerAct, _) := ActFromGRPCContext Unmarshal ctx in
          let act := mkActor caller callerAct in
          let granted := match xr_Scopes req with
                         | [] => elems callerScopes
                         | _ => IntersectScopes callerScopes (xr_Scopes req)
                         end in
          match granted with
          | [] => (inr XNothingGranted, st')
          | _ =>
            let secs := xr_ExpiresInSeconds req in
            let ttl := if 0 <? secs then wrap i64 (secs * Second) else DefaultAccessTokenExpiry in
            let grantedRoles := IntersectRoles callerRoles (xr_Roles req) in
            match GenerateDelegatedToken SignedString tm now rand subject grantedRoles ttl (Some act) granted with
            | inr ActTooDeep => (inr XChainTooDeep, st')
            | inr _ => (inr XMintFailed, st')
            | inl token =>
                match ValidateToken decode verify tm rs db_ok now token with
                | inr _ => (inr XSelfValidation, st')
                | inl claims =>
                    (inl {| xs_Token := token; xs_ExpiresAt := default 0 (cl_ExpiresAt claims);
                            xs_GrantedScopes := granted; xs_GrantedRoles := grantedRoles |}, st')
                end
            end
          end
  end.
End exchange.

(** ** The token of an agent run *)

Definition runForbiddenScopes : list string := [ScopeTrackerAdmin].

Definition mintedAgentTokenScopes (ctx : Context) (AllowedScopes : list string) : slice :=
  let '(callerScopes, _) := ScopesFromGRPCContext ctx in
  ExcludeScopes (Some (IntersectScopes callerScopes AllowedScopes)) runForbiddenScopes.

Definition mintedAgentAct (Unmarshal : string -> option Actor) (ctx : Context) : option Actor :=
  let '(username, _, ok) := SubjectFromGRPCContext ctx in
  if negb ok || String.eqb username "" then None
  else let '(callerAct, _) := ActFromGRPCContext Unmarshal ctx in Some (mkActor username callerAct).

(** The claims [provisionSkillBox] has signed for the run. *)
Definition run_token_claims (Unmarshal : string -> option Actor) (tm : TokenManager) (now : Time)
  (jti name runID trackerConnection : string) (ttl : Duration) (ctx : Context) (AllowedScopes : list string) : Claims :=
  mint_claims tm now jti name [] (elems (mintedAgentTokenScopes ctx AllowedScopes)) "" ttl
    (mintedAgentAct Unmarshal ctx) runID trackerConnection "".

(** ** Lemmas *)

Lemma roles_loop_held held seen requested r :
  r ∈ roles_loop held seen requested -> r ∈ held /\ r <> "" /\ r ∉ seen.
Proof.
  revert seen. induction requested as [|r0 rest IH]; intros seen; simpl; [set_solver|].
  destruct (String.eqb_spec (TrimSpace r0) ""); [apply IH|]. case_bool_decide; [apply IH|].
  case_bool_decide; [|apply IH]. rewrite elem_of_cons. intros [->|Hr]; [done|].
  apply IH in Hr. set_solver.
Qed.

Lemma roles_loop_nodup held seen requested : NoDup (roles_loop held seen requested).
Proof.
  revert seen. induction requested as [|r0 rest IH]; intros seen; simpl; [constructor|].
  destruct (String.eqb_spec (TrimSpace r0) ""); [apply IH|]. case_bool_decide; [apply IH|].
  case_bool_decide; [|apply IH]. apply NoDup_cons. split; [|apply IH].
  intros Hr%roles_loop_held. set_solver.
Qed.

(** Roles fail closed: only roles the caller holds, each once. *)
Lemma IntersectRoles_held caller requested r :
  r ∈ IntersectRoles caller requested -> exists r', r' ∈ caller /\ TrimSpace r' = r.
Proof.
  unfold IntersectRoles. destruct caller as [|c cs]; [set_solver|]. destruct requested; [set_solver|].
  intros H%roles_loop_held. apply elem_of_trimmed_set. tauto.
Qed.

Lemma effective_expiry_max tm e : effective_expiry tm e <= tm_maxTokenExpiry tm.
Proof.
  unfold effective_expiry. destruct (Z.leb_spec e 0); simpl; [lia|].
  destruct (Z.ltb_spec (tm_maxTokenExpiry tm) e); lia.
Qed.

Lemma NumericDate_le t : NumericDate t <= t.
Proof. unfold NumericDate. pose proof (Z.mod_pos_bound t Second). unfold Second in *. lia. Qed.

Lemma GenerateDelegatedToken_inl SignedString tm now rand u roles e act scopes tok :
  GenerateDelegatedToken SignedString tm now rand u roles e act scopes = inl tok ->
  actDepth act <= MaxActDepth /\
  exists jti, SignedString (tm_secretKey tm) (mint_claims tm now jti u roles scopes "" e act "" "" "") = Some tok.
Proof.
  unfold GenerateDelegatedToken, GenerateDelegatedTokenWithID, GenerateDelegatedTokenWithRun, validateActDepth.
  destruct (Z.ltb_spec MaxActDepth (actDepth act)); [done|]. unfold generate.
  destruct (newJTI rand) as [jti|]; [|done].
  destruct (SignedString _ _) as [t|] eqn:E; [|done]. intros [= <-]. split; [lia|]. by exists jti.
Qed.

(** What a minted scopes claim grants, when it is present. *)
Lemma minted_scopes_grant l r : l <> [] -> r <> "" ->
  HasScope (match l with [] => None | _ => Some l end) r = HasExplicitScope l r.
Proof. intros. destruct l; [done|]. by apply HasScope_some. Qed.

(** ** Properties: refresh-token rotation *)

(** C1: single use.  With a revocation store, however many exchanges run at once and
    however their steps interleave with each other, with revocations and with
    database failures, at most one of the calls that present a token with a
    given id ever gets a new pair. *)
Theorem refresh_single_use SignedString decode verify tm s0 s jti :
  rreachable SignedString decode verify tm s0 s -> jti <> "" ->
  count_if (exchanged jti) (r_calls s) <= 1.
Proof.
  intros Hr Hj. assert (HI : rinv s).
  { unfold rreachable in Hr. apply rtc_ind_r with (P := rinv) in Hr; [done| |].
    - intros j _. unfold count_if, spent. simpl. destruct (bool_decide _); lia.
    - intros. by eapply rstep_inv. }
  specialize (HI jti Hj).
  assert (Hle : count_if (exchanged jti) (r_calls s) <= count_if (holds jti) (r_calls s)).
  { generalize (r_calls s). intros l. induction l as [|pc l IH]; [done|]. rewrite !count_if_cons.
    assert ((if exchanged jti pc then 1 else 0) <= (if holds jti pc then 1 else 0)); [|lia].
    destruct pc as [c f|c f|c f|c f|[c|] [r|e]]; simpl; try lia. destruct (String.eqb (cl_ID c) jti); lia. }
  unfold spent in HI. destruct (bool_decide _); lia.
Qed.

(** C2: reuse detection.  When the database answers, presenting a refresh token whose
    id is already spent is denied and revokes its rotation family, and from
    then on every refresh token of that family is denied, spent or not. *)
Theorem refresh_reuse_kills_family decode verify SignedString tm now a1 a2 a3 tok c s :
  ValidateRefreshTokenClaims decode verify tm now tok = inl c -> tok <> "" ->
  cl_ID c <> "" -> is_Some (jwt_revocations s !! cl_ID c) ->
  an_db a1 = true -> an_db a2 = true -> an_db a3 = true ->
  let '(pc, s') := RefreshToken SignedString decode verify tm now a1 a2 a3 tok s in
  pc = RDone (Some c) (RErr Unauthenticated) /\
  is_Some (jwt_revoked_families s' !! family_of c) /\
  forall now' b1 b2 b3 tok' c',
    ValidateRefreshTokenClaims decode verify tm now' tok' = inl c' -> tok' <> "" -> cl_ID c' <> "" ->
    family_of c' = family_of c -> an_db b1 = true ->
    RefreshToken SignedString decode verify tm now' b1 b2 b3 tok' s' = (RDone (Some c') (RErr Unauthenticated), s').
Proof.
  intros Hv Ht Hid Hsp D1 D2 D3.
  assert (Hfam : forall c, cl_ID c <> "" -> family_of c <> "").
  { intros c0 H0. unfold family_of. by destruct (String.eqb_spec (cl_FamilyID c0) ""). }
  assert (Hdead : forall s', is_Some (jwt_revoked_families s' !! family_of c) ->
    forall now' b1 b2 b3 tok' c',
    ValidateRefreshTokenClaims decode verify tm now' tok' = inl c' -> tok' <> "" -> cl_ID c' <> "" ->
    family_of c' = family_of c -> an_db b1 = true ->
    RefreshToken SignedString decode verify tm now' b1 b2 b3 tok' s' = (RDone (Some c') (RErr Unauthenticated), s')).
  { intros s' Hd now' b1 b2 b3 tok' c' Hv' Ht' Hid' Hf' Db. unfold RefreshToken, refresh_begin.
    rewrite (proj2 (String.eqb_neq _ _) Ht'), Hv', (proj2 (String.eqb_neq _ _) Hid'). simpl.
    unfold IsFamilyRevoked. rewrite Db, Hf', (proj2 (String.eqb_neq _ _) (Hfam c Hid)). simpl.
    by rewrite bool_decide_eq_true_2. }
  destruct (bool_decide (is_Some (jwt_revoked_families s !! family_of c))) eqn:Ef.
  { apply bool_decide_eq_true in Ef. rewrite (Hdead s Ef now a1 a2 a3 tok c) by done.
    split; [done|]. split; [done|]. by apply Hdead. }
  assert (RefreshToken SignedString decode verify tm now a1 a2 a3 tok s =
    (RDone (Some c) (RErr Unauthenticated), (RevokeFamily true (family_of c) "refresh_reuse_detected" s).2)) as ->.
  { unfold RefreshToken, refresh_begin.
    rewrite (proj2 (String.eqb_neq _ _) Ht), Hv, (proj2 (String.eqb_neq _ _) Hid). simpl.
    unfold IsFamilyRevoked. rewrite D1, (proj2 (String.eqb_neq _ _) (Hfam c Hid)), Ef. simpl.
    unfold RevokeClaim. rewrite D2, (proj2 (String.eqb_neq _ _) Hid). simpl.
    destruct Hsp as [row ->]. simpl. by rewrite D3. }
  assert (Hd : is_Some (jwt_revoked_families (RevokeFamily true (family_of c) "refresh_reuse_detected" s).2 !! family_of c)).
  { unfold RevokeFamily. rewrite (proj2 (String.eqb_neq _ _) (Hfam c Hid)). simpl.
    apply bool_decide_eq_false in Ef. destruct (jwt_revoked_families s !! family_of c) as [x|] eqn:El; simpl; [by rewrite El|].
    rewrite lookup_insert_eq. by eexists. }
  split; [done|]. split; [done|]. by apply Hdead.
Qed.

(** ** Properties: delegated tokens *)

(** C3: an exchange never widens authority.  Whatever the caller asks for, a token that is
    issued is signed for the requested subject, its scopes claim is present and every scope
    it grants is granted by the caller's own token (and, if the request lists
    scopes, listed there), every role is one of the caller's, the delegation chain
    is the authenticated caller on top of its own chain, at most eight deep, and
    the lifetime does not exceed the daemon's maximum. *)
Theorem exchange_never_widens SignedString decode verify Unmarshal tm rs db_ok now0 now rand ctx req st resp st' :
  ExchangeDelegatedToken SignedString decode verify Unmarshal tm rs db_ok now0 now rand ctx req st = (inl resp, st') ->
  exists c u roles,
    SignedString (tm_secretKey tm) c = Some (xs_Token resp) /\
    cl_Username c = TrimSpace (xr_Subject req) /\ cl_Username c <> "" /\
    caller_is ctx u roles /\ u <> "" /\
    is_Some (cl_Scopes c) /\
    (forall r, r <> "" -> HasScope (cl_Scopes c) r = true ->
       HasScope (ScopesFromGRPCContext ctx).1 r = true /\
       (xr_Scopes req <> [] -> HasExplicitScope (xr_Scopes req) r = true)) /\
    (forall r, r ∈ cl_Roles c -> exists r', r' ∈ roles /\ TrimSpace r' = r) /\
    cl_Act c = Some (mkActor u (ActFromGRPCContext Unmarshal ctx).1) /\
    actDepth (cl_Act c) <= MaxActDepth /\
    exists e, cl_ExpiresAt c = Some e /\ e <= now + tm_maxTokenExpiry tm.
Proof.
  unfold ExchangeDelegatedToken.
  destruct (RequireScope now0 ctx ScopeTokensDelegate st) as [[e|] st1]; [done|].
  destruct (ScopesFromGRPCContext ctx) as [callerScopes present]. destruct present; simpl; [|done].
  destruct (String.eqb_spec (TrimSpace (xr_Subject req)) "") as [|Hs]; [done|].
  unfold caller_is. destruct (SubjectFromGRPCContext ctx) as [[u roles] ok].
  destruct ok; simpl; [|done]. destruct (String.eqb_spec u "") as [|Hu]; simpl; [done|].
  destruct (ActFromGRPCContext Unmarshal ctx) as [callerAct b]. simpl.
  set (granted := match xr_Scopes req with [] => _ | _ => _ end).
  intros H. assert (Hne : granted <> []) by (intros E; rewrite E in H; done).
  set (ttl := if 0 <? xr_ExpiresInSeconds req then _ else _) in H.
  destruct (GenerateDelegatedToken SignedString tm now rand (TrimSpace (xr_Subject req))
    (IntersectRoles roles (xr_Roles req)) ttl (Some (mkActor u callerAct)) granted) as [tok|e] eqn:E.
  2: { by destruct granted, e. }
  apply GenerateDelegatedToken_inl in E as [Hd (jti & Hsign)].
  exists (mint_claims tm now jti (TrimSpace (xr_Subject req)) (IntersectRoles roles (xr_Roles req)) granted "" ttl
            (Some (mkActor u callerAct)) "" "" ""), u, roles.
  assert (Htok : xs_Token resp = tok).
  { destruct granted; [done|]. destruct (ValidateToken _ _ _ _ _ _ _); [|done]. by injection H as <- _. }
  rewrite Htok. split_and!; try done.
  - simpl. by destruct granted.
  - intros r Hr Hg. simpl in Hg. rewrite minted_scopes_grant in Hg by done.
    unfold granted in Hg. destruct (xr_Scopes req) as [|x xs] eqn:Ex.
    + split; [|done]. destruct callerScopes as [l|]; [|done]. by rewrite HasScope_some.
    + rewrite IntersectScopes_grants in Hg by done. apply andb_prop in Hg as [-> ->]. done.
  - simpl. intros r. apply IntersectRoles_held.
  - simpl. eexists. split; [done|]. pose proof (NumericDate_le (now + effective_expiry tm ttl)).
    pose proof (effective_expiry_max tm ttl). lia.
Qed.

(** A run's token is bounded by its dispatcher and its manifest.  When at least one scope
    is granted, the token minted for an agent run grants a scope only if the
    caller's token does and the manifest lists it; without a wildcard among the minted
    scopes it never grants tracker:admin. *)
Theorem run_token_bounded Unmarshal tm now jti name runID conn ttl ctx allowed r :
  elems (mintedAgentTokenScopes ctx allowed) <> [] -> r <> "" ->
  HasScope (cl_Scopes (run_token_claims Unmarshal tm now jti name runID conn ttl ctx allowed)) r = true ->
  HasScope (ScopesFromGRPCContext ctx).1 r = true /\
  HasExplicitScope allowed r = true /\
  (HasExplicitScope (elems (mintedAgentTokenScopes ctx allowed)) ScopeWildcard = false -> r <> ScopeTrackerAdmin).
Proof.
  intros Hne Hr. unfold run_token_claims, mint_claims. simpl. rewrite minted_scopes_grant by done.
  unfold mintedAgentTokenScopes in *. destruct (ScopesFromGRPCContext ctx) as [s present]. simpl in *.
  set (l := IntersectScopes s allowed) in *. intros Hg.
  assert (Hl : HasExplicitScope l r = true).
  { eapply HasExplicitScope_mono; [|exact Hg]. intros x Hx. by apply list_elem_of_filter in Hx as [_ Hx]. }
  unfold l in Hl. rewrite IntersectScopes_grants in Hl by done. apply andb_prop in Hl as [H1 H2].
  split; [done|]. split; [done|]. intros Hw ->.
  apply HasExplicitScope_iff in Hg as (x & Hx & [Ht|Ht]).
  - apply list_elem_of_filter in Hx as [Hx _]. apply Hx. rewrite Ht. set_solver.
  - apply not_true_iff_false in Hw. apply Hw. apply HasExplicitScope_iff. eauto.
Qed.

(** ** What the run token's bound does not cover

    The intersection of disjoint scope sets is empty, [generate] leaves the claim out
    for an empty list, and a token without the claim is unrestricted: a caller
    holding only agents:run obtains a run token that passes every scope check. *)
Example run_token_empty_grant_is_unrestricted Unmarshal tm now jti name runID conn ttl :
  let ctx := mkContext (Some {[MDKeyUsername := ["alice"]; MDKeyScopes := ["agents:run"]]})
               None None None None None None None in
  let c := run_token_claims Unmarshal tm now jti name runID conn ttl ctx ["secrets:read"] in
  HasScope (ScopesFromGRPCContext ctx).1 "kms:admin" = false /\
  HasExplicitScope ["secrets:read"] "kms:admin" = false /\
  HasScope (cl_Scopes c) "kms:admin" = true.
Proof. vm_compute. repeat split. Qed.

(** Excluding tracker:admin from a wildcard grant removes nothing. *)
Example run_token_wildcard_reaches_tracker_admin Unmarshal tm now jti name runID conn ttl :
  let ctx := mkContext (Some {[MDKeyUsername := ["root"]; MDKeyScopes := ["*"]]})
               None None None None None None None in
  let c := run_token_claims Unmarshal tm now jti name runID conn ttl ctx ["*"] in
  elems (cl_Scopes c) = ["*"] /\ HasScope (cl_Scopes c) ScopeTrackerAdmin = true.
Proof. vm_compute. repeat split. Qed.

(** ** A toy JWT library and concrete runs *)

Definition demo_tm : TokenManager := mkTM "key" "containarium" "containarium-api" DefaultMaxTokenExpiry.
Definition demo_sign (key : string) (c : Claims) : option string := Some (cl_ID c).
Definition demo_claims : Claims :=
  mint_claims demo_tm 0 "j1" "alice" [] ["secrets:read"] TokenTypeRefresh Hour None "" "" "".
Definition demo_decode (tok : string) : option (string * Claims) :=
  if String.eqb tok "t1" then Some ("HS256", demo_claims)
  else Some ("HS256", mint_claims demo_tm 0 tok "u" [] [] "" Hour None "" "" "").
Definition demo_verify (_ _ _ : string) (_ : Time) (_ : string) : bool := true.
Definition demo_an : answers := mkAns 5 true (Some [1; 2; 3]) (Some [4; 5; 6]).
Definition demo_store : store := mkStore ∅ ∅.

Lemma demo_rrun : exists s,
  rreachable demo_sign demo_decode demo_verify demo_tm demo_store s /\
  length (r_calls s) = 2%nat /\ count_if (exchanged "j1") (r_calls s) = 1.
Proof.
  eexists. split; [|shelve]. unfold rreachable.
  eapply rtc_l; [apply (rstep_request _ _ _ _ _ _ 5 "t1")|]. eapply rtc_l; [apply (rstep_request _ _ _ _ _ _ 5 "t1")|].
  cbn [app]. set (b := refresh_begin _ _ _ _ _ _). vm_compute in b. subst b.
  eapply rtc_l; [eapply (rstep_call _ _ _ _ _ [] _ _ demo_an); vm_compute; reflexivity|].
  eapply rtc_l; [eapply (rstep_call _ _ _ _ _ [_] _ [] demo_an); vm_compute; reflexivity|].
  eapply rtc_l; [eapply (rstep_call _ _ _ _ _ [] _ _ demo_an); vm_compute; reflexivity|].
  eapply rtc_l; [eapply (rstep_call _ _ _ _ _ [_] _ [] demo_an); vm_compute; reflexivity|].
  eapply rtc_l; [eapply (rstep_call _ _ _ _ _ [] _ _ demo_an); vm_compute; reflexivity|].
  apply rtc_refl.
  Unshelve. vm_compute. repeat split.
Qed.

Lemma refresh_single_use_witness : exists s,
  rreachable demo_sign demo_decode demo_verify demo_tm demo_store s /\ length (r_calls s) = 2%nat /\
  count_if (exchanged "j1") (r_calls s) = 1 /\ count_if (exchanged "j1") (r_calls s) <= 1.
Proof.
  destruct demo_rrun as (s & Hr & Hl & Hc). exists s. split; [exact Hr|]. split; [exact Hl|]. split; [exact Hc|].
  apply (refresh_single_use _ _ _ _ _ s "j1" Hr). discriminate.
Defined.

Lemma refresh_reuse_kills_family_witness :
  let s := mkStore {["j1" := (100, "refresh_rotation")]} ∅ in
  is_Some (jwt_revoked_families
    (RefreshToken demo_sign demo_decode demo_verify demo_tm 5 demo_an demo_an demo_an "t1" s).2 !! "j1").
Proof.
  intros s.
  pose proof (refresh_reuse_kills_family demo_decode demo_verify demo_sign demo_tm 5 demo_an demo_an demo_an
    "t1" demo_claims s eq_refl ltac:(discriminate) ltac:(discriminate) ltac:(by eexists) eq_refl eq_refl eq_refl) as H.
  destruct (RefreshToken _ _ _ _ _ _ _ _ _ s) as [pc s']. exact (proj1 (proj2 H)).
Defined.

Definition demo_ctx : Context :=
  mkContext (Some {[MDKeyUsername := ["svc"]; MDKeyRoles := ["ops"];
                    MDKeyScopes := ["tokens:delegate,containers:read"]]}) None None None None None None None.

Lemma exchange_never_widens_witness : exists resp st' c,
  ExchangeDelegatedToken demo_sign demo_decode demo_verify (fun _ => None) demo_tm None true 0 5 (Some [7])
    demo_ctx (mkExReq "bob" ["containers:read"; "secrets:read"] ["ops"; "admin"] 60)
    (mkScopeState false 0 0) = (inl resp, st') /\
  xs_GrantedScopes resp = ["containers:read"] /\ xs_GrantedRoles resp = ["ops"] /\
  cl_Username c = "bob" /\ actDepth (cl_Act c) <= MaxActDepth.
Proof.
  eexists _, _.
  assert (E : ExchangeDelegatedToken demo_sign demo_decode demo_verify (fun _ => None) demo_tm None true 0 5 (Some [7])
    demo_ctx (mkExReq "bob" ["containers:read"; "secrets:read"] ["ops"; "admin"] 60)
    (mkScopeState false 0 0) = (inl (mkExResp "Bw" 3600000000000 ["containers:read"] ["ops"]), mkScopeState false 0 0))
    by (vm_compute; reflexivity).
  destruct (exchange_never_widens _ _ _ _ _ _ _ _ _ _ _ _ _ _ _ E)
    as (c & u & roles & _ & Hu & _ & _ & _ & _ & _ & _ & _ & Hd & _).
  exists c. split; [exact E|]. split; [reflexivity|]. split; [reflexivity|]. split; [exact Hu|exact Hd].
Defined.

Lemma run_token_bounded_witness :
  let ctx := demo_ctx in
  HasScope (ScopesFromGRPCContext ctx).1 "containers:read" = true /\
  HasExplicitScope ["containers:read"; "tracker:admin"] "containers:read" = true.
Proof.
  intros ctx.
  destruct (run_token_bounded (fun _ => None) demo_tm 0 "j" "n" "r" "" Hour ctx ["containers:read"; "tracker:admin"]
    "containers:read") as (H1 & H2 & _); [vm_compute; discriminate|discriminate|vm_compute; reflexivity|].
  split; [exact H1|exact H2].
Defined.
