(* ===== verification/AuthLimiter.v ===== *)
(** * internal/auth: the limit on failed authentications (rate_limit.go)

    One token bucket per source address.  The bucket of an address is shared by
    reference between the local of [Allow] and the map, so the decrement acts on the
    map entry after the sweep.  A nil limiter is [None].  The instants of successive
    calls do not decrease: [time.Now] carries a monotonic reading and the calls are
    serialised by the mutex.

    The sweep of idle buckets is invisible ([allow_per_ip]): an address gets the
    answers of a bucket of its own that is never swept.  In any window an address gets
    at most ten failures plus six per minute, up to a tenth of a percent of rounding
    ([allowed_bound]). *)

From S2P Require Import Prelude GoStrings GoNet GoFloat.
From Stdlib Require Import Qpower Lqa Ascii Sorting.Sorted.
#[local] Open Scope string_scope.
#[local] Open Scope list_scope.
#[local] Open Scope Z_scope.

Definition authFailureBurst : Z := 10.
Definition authFailureRefillPerMin : Z := 6.
Definition authFailureTTL : Duration := 30 * Minute.

Record authBucket := mkBucket { tokens : float64; lastSeen : Time }.
Abbreviation AuthFailureLimiter := (gmap string authBucket) (only parsing).

Definition NewAuthFailureLimiter : AuthFailureLimiter := ∅.

Definition fresh_bucket (now : Time) : authBucket := mkBucket (of_int authFailureBurst) now.

(** The refill of the bucket up to [now], capped at the burst. *)
Definition refill (now : Time) (b : authBucket) : authBucket :=
  let elapsed := Minutes (Sub now (lastSeen b)) in
  let t := fadd (tokens b) (fmul elapsed (of_int authFailureRefillPerMin)) in
  mkBucket (if flt (of_int authFailureBurst) t then of_int authFailureBurst else t) now.

(** [b.tokens--]. *)
Definition spend (b : authBucket) : authBucket := mkBucket (fsub (tokens b) 1) (lastSeen b).

Definition evictLocked (now : Time) (l : AuthFailureLimiter) : AuthFailureLimiter :=
  filter (fun kb => Before (lastSeen kb.2) (Add now (- authFailureTTL)) = false) l.

Definition Allow (ip : string) (now : Time) (l : AuthFailureLimiter) : bool * AuthFailureLimiter :=
  let b := refill now (default (fresh_bucket now) (l !! ip)) in
  let l1 := <[ip := b]> l in
  let l2 := if 1024 <? Z.of_nat (size l1) then evictLocked now l1 else l1 in
  if flt (tokens b) 1 then (false, l2) else (true, alter spend ip l2).

(** The method on a pointer that may be nil. *)
Definition Allow_opt (ip : string) (now : Time) (l : option AuthFailureLimiter) : bool * option AuthFailureLimiter :=
  match l with
  | None => (true, None)
  | Some l => let '(ok, l') := Allow ip now l in (ok, Some l')
  end.

Fixpoint indexComma (s : string) : option nat :=
  match s with
  | "" => None
  | String c s' => if Ascii.eqb c "," then Some O else S <$> indexComma s'
  end.

Fixpoint take_str (n : nat) (s : string) : string :=
  match n, s with
  | S n', String c s' => String c (take_str n' s')
  | _, _ => ""
  end.

(** Only spaces and tabs, at both ends. *)
Fixpoint trim_front (s : string) : string :=
  match s with
  | String c s' => if Ascii.eqb c " " || Ascii.eqb c "009" then trim_front s' else s
  | "" => ""
  end.
Definition trimSpace (s : string) : string := reverse (trim_front (reverse (trim_front s))).

(** [xff] is the value of the X-Forwarded-For header, empty when it is absent. *)
Definition clientIPFromRequest (xff RemoteAddr : string) : string :=
  if negb (String.eqb xff "") then
    match indexComma xff with
    | Some comma => trimSpace (take_str comma xff)
    | None => trimSpace xff
    end
  else match SplitHostPort RemoteAddr with
       | Some (host, _) => host
       | None => RemoteAddr
       end.

Example clientIP_ex : clientIPFromRequest " 1.2.3.4 , 10.0.0.1" "9.9.9.9:1" = "1.2.3.4" /\
  clientIPFromRequest "" "9.9.9.9:1" = "9.9.9.9" /\ clientIPFromRequest "" "pipe" = "pipe".
Proof. repeat split. Qed.

(** ** Sequences of failures *)

(** The failures in the order the mutex admits them, with their answers. *)
Fixpoint allow_run (l : list (string * Time)) (st : AuthFailureLimiter)
  : list (string * bool) * AuthFailureLimiter :=
  match l with
  | [] => ([], st)
  | (ip, now) :: rest =>
      let '(ok, st1) := Allow ip now st in
      let '(outs, st2) := allow_run rest st1 in
      ((ip, ok) :: outs, st2)
  end.

(** The specification: one bucket that is never swept. *)
Definition bucket_step (now : Time) (o : option authBucket) : bool * authBucket :=
  let b := refill now (default (fresh_bucket now) o) in
  if flt (tokens b) 1 then (false, b) else (true, spend b).

Fixpoint bucket_run (ts : list Time) (o : option authBucket) : list bool :=
  match ts with
  | [] => []
  | now :: rest => let '(ok, b) := bucket_step now o in ok :: bucket_run rest (Some b)
  end.

Definition of_ip {A} (ip : string) (l : list (string * A)) : list A :=
  (filter (fun p => p.1 = ip) l).*2.

Definition granted (outs : list bool) : Z := Z.of_nat (length (filter (fun b => b = true) outs)).

(** The instants do not decrease. *)
Fixpoint in_order (now : Time) (ts : list Time) : Prop :=
  match ts with
  | [] => True
  | t :: rest => now <= t /\ in_order t rest
  end.

(** ** The bucket *)

Definition bucket_eq (a b : authBucket) : Prop := tokens a == tokens b /\ lastSeen a = lastSeen b.

#[export] Instance bucket_eq_equiv : Equivalence bucket_eq.
Proof.
  split; [by intros x|intros x y [H1 H2]; split; by symmetry|].
  intros x y z [H1 H2] [H3 H4]. split; [by rewrite H1|by rewrite H2].
Qed.

#[local] Instance refill_proper now : Proper (bucket_eq ==> bucket_eq) (refill now).
Proof.
  intros a b [Ht Hl]. unfold refill. rewrite Hl. split; simpl; [|done].
  set (r := fmul _ _). assert (He : (fadd (tokens a) r == fadd (tokens b) r)%Q) by (by rewrite Ht).
  rewrite He. by destruct (flt _ _).
Qed.

#[local] Instance spend_proper : Proper (bucket_eq ==> bucket_eq) spend.
Proof. intros a b [Ht Hl]. unfold spend. split; simpl; [by rewrite Ht|done]. Qed.

(** Tokens lie between zero and the burst and are float64 numbers. *)
Definition bucket_ok (b : authBucket) : Prop :=
  (0 <= tokens b <= 10)%Q /\ representable (tokens b).

Lemma burst_eq : (of_int authFailureBurst == 10)%Q.
Proof. apply (of_int_exact 10). lia. Qed.

Lemma refill_rate_eq : (of_int authFailureRefillPerMin == 6)%Q.
Proof. apply (of_int_exact 6). lia. Qed.

Lemma fresh_ok now : bucket_ok (fresh_bucket now).
Proof.
  unfold bucket_ok, fresh_bucket. simpl. rewrite burst_eq.
  split; [lra|apply (representable_Z 10); lia].
Qed.

Lemma Sub_range now t : t <= now -> 0 <= Sub now t <= maxDuration.
Proof. unfold Sub, clamp, minDuration, maxDuration. lia. Qed.

Lemma gain_nonneg now t : t <= now -> (0 <= fmul (Minutes (Sub now t)) (of_int authFailureRefillPerMin))%Q.
Proof.
  intros Ht. pose proof (Sub_range now t Ht) as Hs.
  destruct (minutes_range _ Hs) as [Hm _]. unfold fmul. change 0%Q with (rnd 0). apply rnd_mono.
  rewrite refill_rate_eq.
  assert (0 <= inject_Z (Sub now t / Minute))%Q.
  { change 0%Q with (inject_Z 0). rewrite <- Zle_Qle. apply Z.div_pos; [lia|done]. }
  lra.
Qed.

Lemma refill_ok now b : bucket_ok b -> lastSeen b <= now -> bucket_ok (refill now b).
Proof.
  intros [[H0 H10] Hr] Hl. unfold refill, bucket_ok. simpl.
  pose proof (gain_nonneg now (lastSeen b) Hl) as Hg. set (g := fmul _ _) in *.
  destruct (flt _ _) eqn:E; [apply (fresh_ok 0)|].
  assert (Hle : (fadd (tokens b) g <= 10)%Q).
  { rewrite <- burst_eq. apply Qnot_lt_le. intros Hlt. apply flt_spec in Hlt. congruence. }
  assert (0 <= tokens b + g)%Q as Hs by lra.
  split; [split; [|done]|by apply rnd_representable].
  unfold fadd. change 0%Q with (rnd 0). apply rnd_mono. lra.
Qed.

Lemma spend_exact b : bucket_ok b -> flt (tokens b) 1 = false ->
  (tokens (spend b) == tokens b - 1)%Q /\ bucket_ok (spend b).
Proof.
  intros [[H0 H10] Hr] Hf.
  assert (H1 : (1 <= tokens b)%Q).
  { apply Qnot_lt_le. intros Hlt. apply flt_spec in Hlt. congruence. }
  destruct (fsub_one (tokens b) Hr H1) as [He Hr']; [unfold Qlt; simpl in *; unfold Qle in *; simpl in *; lia|].
  unfold spend, bucket_ok. simpl. rewrite He. split; [done|]. split; [lra|done].
Qed.

Lemma step_ok now o : (forall b, o = Some b -> bucket_ok b /\ lastSeen b <= now) ->
  bucket_ok (bucket_step now o).2 /\ lastSeen (bucket_step now o).2 = now.
Proof.
  intros Ho. unfold bucket_step.
  assert (Hb : bucket_ok (refill now (default (fresh_bucket now) o))).
  { destruct o as [b|]; simpl; [|by apply refill_ok; [apply fresh_ok|]].
    destruct (Ho b eq_refl). by apply refill_ok. }
  destruct (flt _ _) eqn:E; [done|]. by destruct (spend_exact _ Hb E).
Qed.

(** ** Sweeping changes no answer *)

Lemma full_refill now b : bucket_ok b -> lastSeen b + authFailureTTL < now ->
  tokens (refill now b) = of_int authFailureBurst.
Proof.
  intros [[H0 H10] _] Hl. unfold refill. simpl.
  assert (Hb : lastSeen b <= now) by (unfold authFailureTTL, Minute, Second in Hl; lia).
  pose proof (Sub_range now (lastSeen b) Hb) as Hs.
  destruct (minutes_range _ Hs) as [Hm _].
  assert (H30 : 30 <= Sub now (lastSeen b) / Minute).
  { apply Z.div_le_lower_bound; [done|].
    unfold Sub, clamp, minDuration, maxDuration, authFailureTTL, Minute, Second in *. lia. }
  rewrite Zle_Qle in H30. change (inject_Z 30) with 30%Q in H30.
  assert (Hg : (180 <= fmul (Minutes (Sub now (lastSeen b))) (of_int authFailureRefillPerMin))%Q).
  { unfold fmul. change 180%Q with (inject_Z 180). rewrite <- (rnd_Z 180) by lia. apply rnd_mono.
    rewrite refill_rate_eq. change (inject_Z 180) with 180%Q. lra. }
  destruct (flt _ _) eqn:E; [done|]. exfalso.
  assert (Hlt : (of_int authFailureBurst < fadd (tokens b) (fmul (Minutes (Sub now (lastSeen b))) (of_int authFailureRefillPerMin)))%Q).
  { rewrite burst_eq. apply Qlt_le_trans with 180%Q; [lra|]. unfold fadd.
    change 180%Q with (inject_Z 180). rewrite <- (rnd_Z 180) at 1 by lia. apply rnd_mono.
    change (inject_Z 180) with 180%Q. lra. }
  apply flt_spec in Hlt. congruence.
Qed.

Lemma fresh_refill now : (tokens (refill now (fresh_bucket now)) == 10)%Q.
Proof.
  unfold refill, fresh_bucket. cbn [tokens lastSeen]. replace (Sub now now) with 0 by (unfold Sub, clamp, minDuration, maxDuration; lia).
  vm_compute. reflexivity.
Qed.

(** The entry of an address in the map, and the bucket that is never swept. *)
Inductive agrees (now : Time) : option authBucket -> option authBucket -> Prop :=
| agrees_none : agrees now None None
| agrees_some b b' : bucket_eq b b' -> bucket_ok b' -> lastSeen b' <= now -> agrees now (Some b) (Some b')
| agrees_swept b' : bucket_ok b' -> lastSeen b' + authFailureTTL < now -> agrees now None (Some b').

Lemma agrees_seen now e b : agrees now e (Some b) -> lastSeen b <= now.
Proof.
  intros Ha. inversion Ha as [|c c' He Hb Hl|c' Hb Hl]; [done|]. unfold authFailureTTL, Minute, Second in Hl. lia.
Qed.

Lemma agrees_later now now' e o : now <= now' -> agrees now e o -> agrees now' e o.
Proof. intros Hn [|b b' He Hb Hl|b' Hb Hl]; constructor; auto; lia. Qed.

Lemma refill_lastSeen now b : lastSeen (refill now b) = now.
Proof. reflexivity. Qed.

Lemma agrees_refill now e o : agrees now e o ->
  bucket_eq (refill now (default (fresh_bucket now) e)) (refill now (default (fresh_bucket now) o)).
Proof.
  intros [|b b' He Hb Hl|b' Hb Hl]; simpl; [done|by rewrite He|].
  split; [|by rewrite !refill_lastSeen].
  rewrite (full_refill now b') by done. rewrite fresh_refill. symmetry. apply burst_eq.
Qed.

Lemma evict_lookup now l ip : evictLocked now l !! ip =
  match l !! ip with
  | Some b => if Before (lastSeen b) (Add now (- authFailureTTL)) then None else Some b
  | None => None
  end.
Proof.
  unfold evictLocked. destruct (l !! ip) as [b|] eqn:E.
  - destruct (Before _ _) eqn:Eb.
    + apply map_lookup_filter_None. right. intros x Hx. simpl. congruence.
    + by apply map_lookup_filter_Some.
  - apply map_lookup_filter_None. by left.
Qed.

(** The map after the refill and the sweep. *)
Lemma swept_own now l ip b : lastSeen b = now ->
  (if 1024 <? Z.of_nat (size (<[ip := b]> l)) then evictLocked now (<[ip := b]> l) else <[ip := b]> l) !! ip = Some b.
Proof.
  intros Hb. destruct (_ <? _); [rewrite evict_lookup|]; rewrite lookup_insert_eq; [|done].
  unfold Before, Add, authFailureTTL, Minute, Second. cases_Z; [lia|done].
Qed.

Lemma Allow_own now l ip o : agrees now (l !! ip) o -> (forall b, o = Some b -> lastSeen b <= now) ->
  (Allow ip now l).1 = (bucket_step now o).1 /\
  agrees now ((Allow ip now l).2 !! ip) (Some (bucket_step now o).2).
Proof.
  intros Ha Ho. pose proof (agrees_refill now _ _ Ha) as Hr.
  assert (Hk : forall b, o = Some b -> bucket_ok b /\ lastSeen b <= now).
  { intros b ->. split; [|by apply Ho]. by inversion Ha. }
  destruct (step_ok now o Hk) as [Hok Hls].
  unfold Allow, bucket_step in *. set (b := refill now (default _ (l !! ip))) in *.
  set (b' := refill now (default _ o)) in *.
  assert (Hf : flt (tokens b) 1 = flt (tokens b') 1) by (by rewrite (proj1 Hr)).
  rewrite <- Hf in *. pose proof (swept_own now l ip b eq_refl) as Hown.
  clearbody b b'. destruct (flt (tokens b) 1); cbn [fst snd] in *; (split; [done|]).
  - rewrite Hown. apply agrees_some; [done|done|lia].
  - rewrite lookup_alter_eq, Hown. apply agrees_some; [by apply spend_proper|done|lia].
Qed.

Lemma Allow_other now l ip ip' o : ip <> ip' -> (forall b, o = Some b -> lastSeen b <= now) ->
  agrees now (l !! ip) o -> agrees now ((Allow ip' now l).2 !! ip) o.
Proof.
  intros Hne Ho Ha. unfold Allow. set (b := refill now _). set (l1 := <[ip' := b]> l).
  assert (Hl1 : l1 !! ip = l !! ip) by (unfold l1; by rewrite lookup_insert_ne).
  assert (H2 : agrees now ((if 1024 <? Z.of_nat (size l1) then evictLocked now l1 else l1) !! ip) o).
  { destruct (_ <? _); [rewrite evict_lookup|]; rewrite Hl1; [|done].
    destruct Ha as [|c c' He Hb Hl|c' Hb Hl]; try by constructor.
    destruct (Before _ _) eqn:Eb; [|by constructor]. unfold Before in Eb. apply Z.ltb_lt in Eb.
    unfold Add in Eb. destruct He as [_ He]. constructor; [done|]. lia. }
  destruct (flt (tokens b) 1); simpl; [done|]. by rewrite lookup_alter_ne.
Qed.

Lemma of_ip_cons {A} ip q (a : A) l : of_ip ip ((q, a) :: l) = if decide (q = ip) then a :: of_ip ip l else of_ip ip l.
Proof. unfold of_ip. rewrite filter_cons. by destruct (decide _). Qed.

Lemma run_agrees ip l : forall now st o, in_order now (l.*2) -> agrees now (st !! ip) o ->
  of_ip ip (allow_run l st).1 = bucket_run (of_ip ip l) o.
Proof.
  induction l as [|[q t] l IH]; intros now st o Hord Ha; [done|].
  destruct Hord as [Ht Hord]. apply (agrees_later now t) in Ha; [|done].
  assert (Ho : forall b, o = Some b -> lastSeen b <= t).
  { intros b ->. by eapply agrees_seen. }
  simpl allow_run. destruct (Allow q t st) as [ok st1] eqn:EA.
  destruct (allow_run l st1) as [outs st2] eqn:ER. simpl fst. rewrite !of_ip_cons.
  pose proof (IH t st1) as IH1. rewrite ER in IH1. simpl in IH1.
  destruct (decide (q = ip)) as [->|Hne].
  - destruct (Allow_own t st ip o Ha Ho) as [H1 H2]. rewrite EA in H1, H2. simpl in H1, H2.
    simpl bucket_run. destruct (bucket_step t o) as [ok' b']. simpl in *. subst ok'. f_equal. by apply IH1.
  - apply IH1; [done|]. pose proof (Allow_other t st ip q o ltac:(done) Ho Ha) as H2. by rewrite EA in H2.
Qed.

Lemma last_shift {A} (t d : A) l : List.last (t :: l) d = List.last l t.
Proof.
  revert t d. induction l as [|x l IH]; intros t d; [done|].
  change (List.last (x :: l) d = List.last (x :: l) t). by rewrite !IH.
Qed.

(** The state of an address after a sequence of failures. *)
Lemma run_state ip l : forall now st o, in_order now (l.*2) -> agrees now (st !! ip) o ->
  (forall b, o = Some b -> lastSeen b <= now) ->
  exists o', agrees (List.last (l.*2) now) ((allow_run l st).2 !! ip) o' /\
             (forall b, o' = Some b -> lastSeen b <= List.last (l.*2) now).
Proof.
  induction l as [|[q t] l IH]; intros now st o Hord Ha Ho; [by exists o|].
  destruct Hord as [Ht Hord]. simpl in Ht, Hord. apply (agrees_later now t) in Ha; [|done].
  assert (Ho' : forall b, o = Some b -> lastSeen b <= t) by (intros b Hb; etransitivity; [by apply Ho|done]).
  simpl allow_run. destruct (Allow q t st) as [ok st1] eqn:EA.
  destruct (allow_run l st1) as [outs st2] eqn:ER. simpl snd.
  assert (Hstep : exists o1, agrees t (st1 !! ip) o1 /\ (forall b, o1 = Some b -> lastSeen b <= t)).
  { destruct (decide (q = ip)) as [->|Hne].
    - destruct (Allow_own t st ip o Ha Ho') as [_ H2]. rewrite EA in H2.
      eexists; split; [exact H2|]. intros b [= <-]. by eapply agrees_seen.
    - exists o. split; [|done]. pose proof (Allow_other t st ip q o ltac:(done) Ho' Ha) as H2. by rewrite EA in H2. }
  destruct Hstep as (o1 & H1 & H2). destruct (IH t st1 o1 Hord H1 H2) as (o' & H3 & H4).
  rewrite ER in H3. exists o'.
  change (((q, t) :: l).*2) with (t :: l.*2). by rewrite last_shift.
Qed.

(** ** The budget *)

(** What a refill adds: six tokens per minute, up to the rounding. *)
Lemma refill_gain now b : bucket_ok b -> lastSeen b <= now ->
  (tokens (refill now b) <= tokens b + (6001 # 1000) * (now - lastSeen b # 60000000000))%Q.
Proof.
  intros [[H0 H10] Hr] Hl. unfold refill. cbn [tokens].
  pose proof (Sub_range now (lastSeen b) Hl) as Hs.
  assert (Hle : Sub now (lastSeen b) <= now - lastSeen b) by (unfold Sub, clamp, minDuration, maxDuration in *; lia).
  pose proof (Minutes_upper _ Hs) as HM. pose proof (gain_nonneg now (lastSeen b) Hl) as Hg.
  pose proof (minutes_range _ Hs) as [HM0 _].
  assert (Hdn : (0 <= inject_Z (Sub now (lastSeen b) / Minute))%Q).
  { change 0%Q with (inject_Z 0). rewrite <- Zle_Qle. apply Z.div_pos; [lia|done]. }
  set (d := Sub now (lastSeen b)) in *. set (M := Minutes d) in *.
  assert (Hx : ((d # 60000000000) <= (now - lastSeen b # 60000000000))%Q) by (unfold Qle; simpl; lia).
  assert (Hcap : forall t, ((if flt (of_int authFailureBurst) t then of_int authFailureBurst else t) <= t)%Q).
  { intros t. destruct (flt _ _) eqn:E; [|lra]. apply flt_spec in E. lra. }
  eapply Qle_trans; [apply Hcap|]. unfold fadd.
  destruct (Z.eq_dec d 0) as [Hd|Hd].
  { assert (HMz : (M == 0)%Q) by (unfold M; rewrite Hd; by vm_compute).
    assert (Hz : (fmul M (of_int authFailureRefillPerMin) == 0)%Q) by (unfold fmul; rewrite HMz, Qmult_0_l; reflexivity).
    rewrite Hz, Qplus_0_r. unfold representable in Hr. rewrite Hr. rewrite Hd in Hx.
    change (0 # 60000000000)%Q with (0 # 60000000000)%Q in Hx.
    assert ((0 # 60000000000) == 0)%Q as Hzz by reflexivity. lra. }
  set (x := (d # 60000000000)%Q) in *.
  assert (Hx1 : ((1 # 60000000000) <= x)%Q) by (unfold x, Qle; simpl; lia).
  pose proof eps_small as He1. pose proof (pow2_pos (-53)) as He0. set (e := pow2 (-53)) in *.
  assert (HgU : (fmul M (of_int authFailureRefillPerMin) <= 6 * x * (1 + (5 # 1000000000000000)))%Q).
  { unfold fmul. eapply Qle_trans; [apply rnd_upper; rewrite refill_rate_eq; lra|]. rewrite refill_rate_eq.
    fold e. assert (M * e <= M * (1 # 1000000000000000))%Q.
    { rewrite !(Qmult_comm M). apply Qmult_le_compat_r; lra. }
    lra. }
  set (g := fmul _ _) in *. eapply Qle_trans; [apply rnd_upper; lra|]. fold e.
  assert (Hp : ((tokens b + g) * e <= (tokens b + g) * (1 # 1000000000000000))%Q).
  { rewrite !(Qmult_comm (tokens b + g)). apply Qmult_le_compat_r; lra. }
  lra.
Qed.

Lemma granted_cons b outs : granted (b :: outs) = (if b : bool then 1 else 0) + granted outs.
Proof.
  unfold granted. rewrite filter_cons. destruct b; simpl; [|lia].
  destruct (decide (true = true)); [simpl; lia|done].
Qed.

Lemma bucket_run_budget ts : forall b, bucket_ok b -> in_order (lastSeen b) ts ->
  (inject_Z (granted (bucket_run ts (Some b)))
   <= tokens b + (6001 # 1000) * (List.last ts (lastSeen b) - lastSeen b # 60000000000))%Q.
Proof.
  induction ts as [|t ts IH]; intros b Hb Hord.
  { cbn [bucket_run List.last]. rewrite Z.sub_diag. change (inject_Z (granted [])) with 0%Q.
    assert ((0 # 60000000000) == 0)%Q as Hzz by reflexivity. destruct Hb as [? _]. lra. }
  destruct Hord as [Ht Hord]. rewrite last_shift.
  pose proof (refill_gain t b Hb Ht) as Hg. pose proof (refill_ok t b Hb Ht) as Hok.
  cbn [bucket_run]. unfold bucket_step. cbn [default id from_option].
  pose proof (refill_lastSeen t b) as Hls. set (b1 := refill t b) in *. clearbody b1.
  assert (Hsum : forall z, ((z - t # 60000000000) + (t - lastSeen b # 60000000000) == (z - lastSeen b # 60000000000))%Q).
  { intros z. unfold Qeq, Qplus. simpl. lia. }
  specialize (Hsum (List.last ts t)).
  destruct (flt (tokens b1) 1) eqn:Ef.
  all: rewrite granted_cons.
  - rewrite Z.add_0_l. pose proof (IH b1 Hok ltac:(by rewrite Hls)) as H. rewrite Hls in H. lra.
  - destruct (spend_exact b1 Hok Ef) as [Hsp Hok']. rewrite inject_Z_plus. change (inject_Z 1) with 1%Q.
    assert (Hls' : lastSeen (spend b1) = t) by done.
    pose proof (IH (spend b1) Hok' ltac:(by rewrite Hls')) as H. rewrite Hls', Hsp in H. lra.
Qed.

Lemma in_order_app now a b : in_order now (a ++ b) <-> in_order now a /\ in_order (List.last a now) b.
Proof.
  revert now. induction a as [|t a IH]; intros now; [simpl; tauto|].
  rewrite last_shift. simpl. rewrite IH. tauto.
Qed.

Lemma in_order_earlier now now' ts : now' <= now -> in_order now ts -> in_order now' ts.
Proof. destruct ts as [|t ts]; simpl; [done|]. intros ? [??]. split; [lia|done]. Qed.

Lemma in_order_of_ip ip l : forall now, in_order now (l.*2) -> in_order now (of_ip ip l).
Proof.
  induction l as [|[q t] l IH]; intros now Hord; [done|]. destruct Hord as [Ht Hord]. simpl in Ht, Hord.
  rewrite of_ip_cons. destruct (decide _).
  - split; [done|by apply IH].
  - apply (in_order_earlier t); [done|by apply IH].
Qed.

Lemma first_step_budget t ts o : (forall b, o = Some b -> bucket_ok b /\ lastSeen b <= t) -> in_order t ts ->
  (inject_Z (granted (bucket_run (t :: ts) o)) <= 10 + (6001 # 1000) * (List.last ts t - t # 60000000000))%Q.
Proof.
  intros Ho Hord. cbn [bucket_run]. unfold bucket_step.
  assert (Hb : bucket_ok (refill t (default (fresh_bucket t) o))).
  { destruct o as [b|]; cbn [default from_option id]; [|by apply refill_ok; [apply fresh_ok|]].
    destruct (Ho b eq_refl). by apply refill_ok. }
  pose proof (refill_lastSeen t (default (fresh_bucket t) o)) as Hls.
  set (b1 := refill t _) in *. clearbody b1. pose proof (proj2 (proj1 Hb)) as H10.
  destruct (flt (tokens b1) 1) eqn:Ef; rewrite granted_cons.
  - rewrite Z.add_0_l. pose proof (bucket_run_budget ts b1 Hb ltac:(by rewrite Hls)) as H. rewrite Hls in H. lra.
  - destruct (spend_exact b1 Hb Ef) as [Hsp Hok']. rewrite inject_Z_plus. change (inject_Z 1) with 1%Q.
    assert (Hls' : lastSeen (spend b1) = t) by done.
    pose proof (bucket_run_budget ts (spend b1) Hok' ltac:(by rewrite Hls')) as H. rewrite Hls', Hsp in H. lra.
Qed.

(** ** Properties *)

(** C32: sweeping idle buckets changes no answer.  In any sequence of failures from
    many addresses at instants that do not decrease, the answers one address gets are
    those of a single bucket that is never swept and sees only its own failures: the
    traffic of other addresses neither throttles it nor refills it. *)
Theorem allow_per_ip (ip : string) (t0 : Time) (l : list (string * Time))
  (Hord : in_order t0 (l.*2)) :
  of_ip ip (allow_run l NewAuthFailureLimiter).1 = bucket_run (of_ip ip l) None.
Proof. apply (run_agrees ip l t0); [done|]. unfold NewAuthFailureLimiter. rewrite lookup_empty. constructor. Qed.

(** C33: The limiter's budget.  In every window of a run that starts with no buckets and whose instants do not decrease,
    an address is granted at most the burst of ten plus 6.001 per minute, six and the rounding of float64, of the time between
    its first and last failure in the window, whatever other addresses do and whatever was swept before. *)
Theorem allowed_bound (ip : string) (t0 : Time) (l1 l2 : list (string * Time)) (first : Time) (rest : list Time)
  (Hord : in_order t0 ((l1 ++ l2).*2)) (Hown : of_ip ip l2 = first :: rest) :
  granted (of_ip ip (allow_run l2 (allow_run l1 NewAuthFailureLimiter).2).1) * (1000 * Minute)
  <= authFailureBurst * (1000 * Minute) + 6001 * (List.last rest first - first).
Proof.
  rewrite fmap_app in Hord. apply in_order_app in Hord as [H1 H2].
  destruct (run_state ip l1 t0 NewAuthFailureLimiter None H1) as (o & Ha & Ho); [unfold NewAuthFailureLimiter; rewrite lookup_empty; constructor|done|].
  rewrite (run_agrees ip l2 _ _ o H2 Ha), Hown.
  pose proof (in_order_of_ip ip l2 _ H2) as H3. rewrite Hown in H3. destruct H3 as [Hf H3].
  assert (Hk : forall b, o = Some b -> bucket_ok b /\ lastSeen b <= first).
  { intros b ->. split; [by inversion Ha|]. etransitivity; [by apply Ho|done]. }
  pose proof (first_step_budget first rest o Hk H3) as Hb.
  set (G := granted _) in *. set (D := List.last rest first - first) in *. clearbody G D.
  unfold Qle in Hb. simpl in Hb. unfold authFailureBurst, Minute, Second. lia.
Qed.

Definition three_addresses : list (string * Time) :=
  [("10.0.0.1", Hour); ("10.0.0.2", Hour + Second); ("10.0.0.1", Hour + 2 * Second); ("10.0.0.3", 2 * Hour)].

Lemma allow_per_ip_witness :
  of_ip "10.0.0.1" (allow_run three_addresses NewAuthFailureLimiter).1 = [true; true].
Proof.
  rewrite (allow_per_ip "10.0.0.1" 0 three_addresses); [vm_compute; reflexivity|].
  vm_compute. repeat split; discriminate.
Defined.

(** Sixteen failures in a second: eleven at most, by the theorem. *)
Definition burst_of (n : nat) : list (string * Time) :=
  map (fun i => ("10.0.0.1", Hour + Z.of_nat i * 1000000)) (seq 0 n).

Lemma allowed_bound_witness :
  granted (of_ip "10.0.0.1" (allow_run (burst_of 16) NewAuthFailureLimiter).1) <= 10.
Proof.
  pose proof (allowed_bound "10.0.0.1" 0 [] (burst_of 16) Hour (of_ip "10.0.0.1" (List.tl (burst_of 16)))) as H.
  assert (Hb : in_order 0 (([] ++ burst_of 16).*2)) by (vm_compute; repeat split; discriminate).
  specialize (H Hb eq_refl). vm_compute in H. vm_compute. intros Hc. vm_compute in Hc. by apply H.
Defined.

(** The eleventh failure of a burst is refused, and the bucket refills. *)
Example burst_refused :
  (allow_run (burst_of 12) NewAuthFailureLimiter).1.*2 = repeat true 10 ++ [false; false] /\
  bucket_run [Hour; Hour + Minute] (Some (mkBucket 0 Hour)) = [false; true].
Proof. split; vm_compute; reflexivity. Qed.

(** A source that sends another X-Forwarded-For value with each attempt gets a fresh
    bucket each time: the limit does not apply to it. *)
Definition spoofed (n : nat) : list (string * Time) :=
  map (fun i => (clientIPFromRequest ("10.1.1." +:+ Itoa (Z.of_nat i)) "203.0.113.9:4000", Hour + Z.of_nat i)) (seq 0 n).

Example spoofed_header_evades :
  forallb (fun p => p.2) (allow_run (spoofed 40) NewAuthFailureLimiter).1 = true /\
  (allow_run (map (fun i => (clientIPFromRequest "" "203.0.113.9:4000", Hour + Z.of_nat i)) (seq 0 40))
     NewAuthFailureLimiter).1.*2 = repeat true 10 ++ repeat false 30.
Proof. split; vm_compute; reflexivity. Qed.
