(* ===== verification/AuthHttp.v ===== *)
(** * internal/auth middleware and transport, internal/gateway metadata

    How the identity of a caller reaches a gRPC handler: [HTTPMiddleware] of
    middleware.go checks the token of a REST request, [annotateContext] and
    [incomingHeaderMatcher] of gateway.go choose what the gateway forwards as gRPC
    metadata, and [serverTransportCreds] and [authenticateTransport] of
    grpc_transport.go decide whether the metadata of a connection is believed.

    A header map has canonical keys.  A request's cookies are read from its headers as
    net/http does; the query is the parsed map.  grpc-gateway is a parameter: its
    default header matcher and the call that turns headers and annotations into
    the metadata the server receives, with what its documentation says of
    them as hypotheses ([matcher_documented], [gateway_documented]).  Header names
    are tokens, so [strings.ToLower] on them is the ASCII one; so is the comparison with
    the scheme name, whose letters are the lower case of no other rune. *)

From S2P Require Import Prelude GoStrings GoNet GoFloat Auth Tokens AuthLimiter.
From Stdlib Require Import Ascii.
#[local] Open Scope string_scope.
#[local] Open Scope list_scope.
#[local] Open Scope Z_scope.

(** ** Headers *)

Abbreviation Header := (gmap string (list string)) (only parsing).

Fixpoint ascii_lower (s : string) : string :=
  match s with "" => "" | String c s' => String (lower_ascii c) (ascii_lower s') end.

Definition upper_ascii (a : ascii) : ascii :=
  let n := nat_of_ascii a in
  if (97 <=? n)%nat && (n <=? 122)%nat then ascii_of_nat (n - 32) else a.

(** [http.CanonicalHeaderKey] of a token: a letter is upper case at the start and after a
    hyphen, and lower case elsewhere. *)
Fixpoint canonical_from (upper : bool) (s : string) : string :=
  match s with
  | "" => ""
  | String c s' => String (if upper then upper_ascii c else lower_ascii c)
                     (canonical_from (Ascii.eqb c "-") s')
  end.
Definition CanonicalHeaderKey : string -> string := canonical_from true.

(** [h.Get(key)]. *)
Definition header_get (h : Header) (key : string) : string :=
  match h !! CanonicalHeaderKey key with Some (v :: _) => v | _ => "" end.

(** [textproto.TrimString]. *)
Definition ascii_space (c : ascii) : bool :=
  Ascii.eqb c " " || Ascii.eqb c "009" || Ascii.eqb c "010" || Ascii.eqb c "013".
Fixpoint drop_space (s : string) : string :=
  match s with
  | String c s' => if ascii_space c then drop_space s' else s
  | "" => ""
  end.
Definition TrimString (s : string) : string := reverse (drop_space (reverse (drop_space s))).

Fixpoint all_chars (p : ascii -> bool) (s : string) : bool :=
  match s with "" => true | String c s' => p c && all_chars p s' end.

Definition validCookieValueByte (c : ascii) : bool :=
  let n := nat_of_ascii c in
  (32 <=? n)%nat && (n <? 127)%nat && negb (Ascii.eqb c "034") && negb (Ascii.eqb c ";") && negb (Ascii.eqb c "\").

(** A quoted value loses its quotes. *)
Definition parseCookieValue (raw : string) : option string :=
  let stripped :=
    match raw with
    | String "034" rest => match reverse rest with
                          | String "034" r => reverse r
                          | _ => raw
                          end
    | _ => raw
    end in
  if all_chars validCookieValueByte stripped then Some stripped else None.

(** The value of the first part of a Cookie line with this name and a valid value. *)
Fixpoint cookie_in (name : string) (parts : list string) : option string :=
  match parts with
  | [] => None
  | p :: rest =>
      let part := TrimString p in
      let '(n, v) := match cut_first "=" part with Some (n, v) => (n, v) | None => (part, "") end in
      if String.eqb (TrimString n) name then
        match parseCookieValue v with Some value => Some value | None => cookie_in name rest end
      else cookie_in name rest
  end.

Fixpoint cookie_lines (name : string) (lines : list string) : option string :=
  match lines with
  | [] => None
  | l :: rest => match cookie_in name (split_char ";" (TrimString l)) with
                 | Some v => Some v
                 | None => cookie_lines name rest
                 end
  end.

(** [r.Cookie(name)]; [None] is [ErrNoCookie]. *)
Definition Cookie (name : string) (h : Header) : option string :=
  cookie_lines name (default [] (h !! "Cookie")).

Record request := mkRequest {
  rq_Method : string;
  rq_Path : string;
  rq_RemoteAddr : string;
  rq_Header : Header;
  rq_Query : gmap string (list string);
  rq_Context : Context;
}.

(** A context that carries no metadata and no claims. *)
Definition Background : Context := mkContext None None None None None None None None.

(** ** Metadata *)

(** [metadata.Pairs]: keys are lower-cased and values of one key are kept in order. *)
Definition md_append (md : MD) (kv : string * string) : MD :=
  <[ascii_lower kv.1 := default [] (md !! ascii_lower kv.1) ++ [kv.2]]> md.
Definition Pairs (kvs : list (string * string)) : MD := fold_left md_append kvs ∅.

(** [md.Set(key, v)] and [md.Delete(key)]. *)
Definition md_set (key v : string) (md : MD) : MD := <[ascii_lower key := [v]]> md.
Definition md_delete (key : string) (md : MD) : MD := delete (ascii_lower key) md.

Definition gatewayForwardMDKey : string := "x-containarium-gateway-forward".

Definition ReservedIdentityMetadataKeys : list string :=
  [MDKeyUsername; MDKeyRoles; MDKeyScopes; MDKeyAct; MDKeyJTI; MDKeyRunID; MDKeyTrackerConn; gatewayForwardMDKey].

Definition IsReservedIdentityMetadataKey (key : string) : bool :=
  existsb (String.eqb (ascii_lower key)) ReservedIdentityMetadataKeys.

(** ** The REST middleware *)

Definition unauthPaths (path : string) : bool := String.eqb path "/v1/tokens/refresh".
Definition SessionCookieName : string := "containarium_session".

Inductive http_error :=
| InvalidHeaderFormat
| MissingHeader
| TooManyFailures
| InvalidAccessToken.

Definition http_status (e : http_error) : Z :=
  match e with TooManyFailures => 429 | _ => 401 end.

(** The Authorization header wins over the session cookie. *)
Definition request_token (r : request) : string + http_error :=
  let authHeader := header_get (rq_Header r) "Authorization" in
  if negb (String.eqb authHeader "") then
    match cut_first " " authHeader with
    | Some (scheme, token) => if String.eqb (ascii_lower scheme) "bearer" then inl token else inr InvalidHeaderFormat
    | None => inr InvalidHeaderFormat
    end
  else match Cookie SessionCookieName (rq_Header r) with
       | Some v => if String.eqb v "" then inr MissingHeader else inl v
       | None => inr MissingHeader
       end.

(** The next handler runs with a context and the metadata for outgoing calls. *)
Inductive served := Next (ctx : Context) (outgoing : option MD) | Refused (e : http_error).

Section middleware.
Context (decode : string -> option (string * Claims)).
Context (verify : string -> string -> string -> Time -> string -> bool).
Context (Marshal : Actor -> option string).

Definition outgoing_pairs (c : Claims) : list (string * string) :=
  [(MDKeyUsername, cl_Username c); (MDKeyRoles, join_char "," (cl_Roles c))] ++
  match elems (cl_Scopes c) with [] => [] | s => [(MDKeyScopes, join_char "," s)] end ++
  match cl_Act c with
  | Some a => match Marshal a with Some encoded => [(MDKeyAct, encoded)] | None => [] end
  | None => []
  end ++
  (if String.eqb (cl_ID c) "" then [] else [(MDKeyJTI, cl_ID c)]) ++
  (if String.eqb (cl_RunID c) "" then [] else [(MDKeyRunID, cl_RunID c)]) ++
  (if String.eqb (cl_TrackerConn c) "" then [] else [(MDKeyTrackerConn, cl_TrackerConn c)]).

Definition HTTPMiddleware (tm : TokenManager) (rs : option store) (db_ok : bool) (now : Time)
  (lim : option AuthFailureLimiter) (r : request) : served * option AuthFailureLimiter :=
  if unauthPaths (rq_Path r) then (Next (rq_Context r) None, lim)
  else match request_token r with
       | inr e => (Refused e, lim)
       | inl token =>
           match ValidateAccessToken decode verify tm rs db_ok now token with
           | inr _ =>
               let ip := clientIPFromRequest (header_get (rq_Header r) "X-Forwarded-For") (rq_RemoteAddr r) in
               if String.eqb ip "" then (Refused InvalidAccessToken, lim)
               else let '(ok, lim') := Allow_opt ip now lim in
                    (Refused (if ok then InvalidAccessToken else TooManyFailures), lim')
           | inl claims =>
               (Next (ContextWithClaims (rq_Context r) claims) (Some (Pairs (outgoing_pairs claims))), lim)
           end
       end.

(** [requireAdminFromContext] of gateway.go: whether the wrapped handler runs. *)
Definition requireAdminFromContext (ctx : Context) : bool := HasRole (default [] (cx_roles ctx)) RoleAdmin.
End middleware.

(** ** The gateway *)

Definition incomingHeaderMatcher (DefaultHeaderMatcher : string -> option string) (key : string) : option string :=
  let lower := ascii_lower key in
  if HasPrefix "grpc-metadata-" lower && IsReservedIdentityMetadataKey (TrimPrefix lower "grpc-metadata-") then None
  else DefaultHeaderMatcher key.

Definition GatewayForwardMDKey : string := gatewayForwardMDKey.

(** Set a key to a value the context holds, unless it is empty. *)
Definition set_some (key : string) (v : option string) (md : MD) : MD :=
  match v with Some s => if String.eqb s "" then md else md_set key s md | None => md end.
Definition set_joined (key : string) (v : option (list string)) (md : MD) : MD :=
  match v with Some (x :: l) => md_set key (join_char "," (x :: l)) md | _ => md end.

Definition annotateContext (ctx : Context) (r : request) : MD :=
  let md := Pairs [("x-forwarded-method", rq_Method r); ("x-forwarded-path", rq_Path r); (GatewayForwardMDKey, "1")] in
  let md := set_some MDKeyUsername (cx_username ctx) md in
  let md := set_joined MDKeyRoles (cx_roles ctx) md in
  let md := set_joined MDKeyScopes (elems <$> cx_scopes ctx) md in
  let md := set_some MDKeyRunID (cx_run_id ctx) md in
  set_some MDKeyTrackerConn (cx_tracker_conn ctx) md.

(** ** The gRPC server's transport *)

Inductive AuthInfo :=
| InternalAuthInfo
| TLSInfo (VerifiedChains : list (list string))   (** the common names of each chain, leaf first *)
| OtherAuthInfo.

Inductive conn := internalConn | networkConn (id : Z).

(** [tls] is the handshake of the mTLS credentials, if external connections are enabled. *)
Definition ServerHandshake (tls : option (conn -> option AuthInfo)) (c : conn) : option AuthInfo :=
  match c with
  | internalConn => Some InternalAuthInfo
  | networkConn _ => match tls with None => None | Some handshake => handshake c end
  end.

Inductive transport_error := NoPeerInfo | NonTLS | NoVerifiedCert | UnauthenticatedTransport.

(** [None] is a nil error. *)
Definition assertMTLSPeer (peer : option AuthInfo) : option transport_error :=
  match peer with
  | None => Some NoPeerInfo
  | Some (TLSInfo ((_ :: _) :: _)) => None
  | Some (TLSInfo _) => Some NoVerifiedCert
  | Some _ => Some NonTLS
  end.

Definition MTLSPeerCN (peer : option AuthInfo) : string + transport_error :=
  match peer with
  | None => inr NoPeerInfo
  | Some (TLSInfo ((leaf :: _) :: _)) => inl leaf
  | Some _ => inr NoVerifiedCert
  end.

Definition mtlsSubjectPrefix : string := "mtls:".

Definition with_md (ctx : Context) (md : MD) : Context :=
  {| cx_md := Some md; cx_username := cx_username ctx; cx_roles := cx_roles ctx; cx_scopes := cx_scopes ctx;
     cx_act := cx_act ctx; cx_jti := cx_jti ctx; cx_run_id := cx_run_id ctx; cx_tracker_conn := cx_tracker_conn ctx |}.

(** The loop that discards every reserved key. *)
Definition strip_reserved (md : MD) : MD :=
  fold_left (fun md k => md_delete k md) ReservedIdentityMetadataKeys md.

(** The context the handler runs with; both interceptors call it. *)
Definition authenticateTransport (peer : option AuthInfo) (ctx : Context) : Context + transport_error :=
  match peer with
  | None => inr NoPeerInfo
  | Some InternalAuthInfo => inl ctx
  | Some (TLSInfo _) =>
      match assertMTLSPeer peer with
      | Some e => inr e
      | None =>
          match MTLSPeerCN peer with
          | inr e => inr e
          | inl cn =>
              let md := strip_reserved (default ∅ (cx_md ctx)) in
              inl (with_md ctx (md_set MDKeyUsername (mtlsSubjectPrefix +:+ cn) md))
          end
      end
  | Some OtherAuthInfo => inr UnauthenticatedTransport
  end.

(** The context of a call as the gRPC server first sees it: the metadata that came over
    the wire, and no value of the client's context. *)
Definition server_context (md : MD) : Context := with_md Background md.

(** ** Lemmas *)

Lemma ascii_lower_app s t : ascii_lower (s +:+ t) = ascii_lower s +:+ ascii_lower t.
Proof.
  induction s as [|c s IH]; [done|].
  change (String (lower_ascii c) (ascii_lower (s +:+ t)) = String (lower_ascii c) (ascii_lower s +:+ ascii_lower t)).
  by rewrite IH.
Qed.

Lemma lower_ascii_idem c : lower_ascii (lower_ascii c) = lower_ascii c.
Proof. destruct c as [[] [] [] [] [] [] [] []]; vm_compute; reflexivity. Qed.

Lemma ascii_lower_idem s : ascii_lower (ascii_lower s) = ascii_lower s.
Proof. induction s as [|c s IH]; simpl; [done|]. by rewrite lower_ascii_idem, IH. Qed.

Lemma reserved_iff key : IsReservedIdentityMetadataKey key = true <-> ascii_lower key ∈ ReservedIdentityMetadataKeys.
Proof.
  unfold IsReservedIdentityMetadataKey. rewrite existsb_exists. rewrite list_elem_of_In.
  split; [intros (x & Hx & Hk); apply String.eqb_eq in Hk; by subst x|].
  intros Hk. exists (ascii_lower key). by rewrite String.eqb_refl.
Qed.

Lemma reserved_of k : existsb (String.eqb k) ReservedIdentityMetadataKeys = true -> k ∈ ReservedIdentityMetadataKeys.
Proof.
  rewrite existsb_exists. intros (x & Hx & Hk). apply String.eqb_eq in Hk. subst x. by apply list_elem_of_In.
Qed.

Lemma reserved_lower k : k ∈ ReservedIdentityMetadataKeys -> ascii_lower k = k.
Proof. unfold ReservedIdentityMetadataKeys. set_unfold. intros Hk. repeat destruct Hk as [->|Hk]; done. Qed.

Section fold.
Context (k : string).

(** The values of a key, in the order the pairs name them. *)
Definition values_of (md : MD) : list string := default [] (md !! k).

Lemma Pairs_from kvs : forall md : MD,
  values_of (fold_left md_append kvs md) = values_of md ++ (filter (fun kv => ascii_lower kv.1 = k) kvs).*2.
Proof.
  induction kvs as [|kv kvs IH]; intros md; simpl; [by rewrite app_nil_r|].
  rewrite IH, filter_cons. unfold md_append, values_of. destruct (decide _) as [<-|Hne].
  - rewrite lookup_insert_eq. simpl. by rewrite <- app_assoc.
  - by rewrite lookup_insert_ne.
Qed.

Lemma Pairs_values kvs : values_of (Pairs kvs) = (filter (fun kv => ascii_lower kv.1 = k) kvs).*2.
Proof. unfold Pairs. rewrite Pairs_from. unfold values_of. by rewrite lookup_empty. Qed.

Lemma set_some_ne k' v md : ascii_lower k' <> k -> set_some k' v md !! k = md !! k.
Proof. intros. destruct v as [s|]; simpl; [|done]. destruct (String.eqb s ""); [done|]. by apply lookup_insert_ne. Qed.

Lemma set_joined_ne k' v md : ascii_lower k' <> k -> set_joined k' v md !! k = md !! k.
Proof. intros. destruct v as [[|x l]|]; simpl; [done| |done]. by apply lookup_insert_ne. Qed.

Lemma deleted_keys (keys : list string) : forall md : MD,
  fold_left (fun md k => md_delete k md) keys md !! k
  = if existsb (fun x => String.eqb (ascii_lower x) k) keys then None else md !! k.
Proof.
  induction keys as [|x keys IH]; intros md; simpl; [done|].
  rewrite IH. unfold md_delete. destruct (String.eqb_spec (ascii_lower x) k) as [<-|Hne]; simpl.
  - rewrite lookup_delete_eq. by destruct (existsb _ keys).
  - by rewrite lookup_delete_ne.
Qed.
End fold.

Lemma stripped k (md : MD) : k ∈ ReservedIdentityMetadataKeys -> strip_reserved md !! k = None.
Proof.
  intros Hk. unfold strip_reserved. rewrite deleted_keys. rewrite (proj2 (existsb_exists _ _)); [done|].
  exists k. split; [by apply list_elem_of_In|]. rewrite (reserved_lower k Hk). apply String.eqb_refl.
Qed.

Lemma set_some_eq k v md : ascii_lower k = k -> set_some k v md !! k =
  match v with Some s => if String.eqb s "" then md !! k else Some [s] | None => md !! k end.
Proof.
  intros Hk. destruct v as [s|]; simpl; [|done]. destruct (String.eqb s ""); [done|].
  unfold md_set. rewrite Hk. apply lookup_insert_eq.
Qed.

Lemma set_joined_eq k v md : ascii_lower k = k -> set_joined k v md !! k =
  match v with Some (x :: l) => Some [join_char "," (x :: l)] | _ => md !! k end.
Proof.
  intros Hk. destruct v as [[|x l]|]; simpl; [done| |done].
  unfold md_set. rewrite Hk. apply lookup_insert_eq.
Qed.

(** ** What the libraries promise *)

(** The default matcher maps a permanent header to a name with the prefix
    [grpcgateway-], and a header [Grpc-Metadata-x] to [x]. *)
Definition matcher_documented (DefaultHeaderMatcher : string -> option string) : Prop :=
  forall key h, DefaultHeaderMatcher key = Some h ->
    HasPrefix "grpcgateway-" h = true \/ ascii_lower key = "grpc-metadata-" +:+ ascii_lower h.

(** A reserved key to which no header of the request is mapped arrives with the
    values of the annotation, alone or next to those the context already had
    for outgoing calls.  [None] is a call the library refuses to make. *)
Definition gateway_documented
  (AnnotateContext : (string -> option string) -> MD -> option MD -> Header -> option MD) : Prop :=
  forall matcher annotation outgoing h md k,
    AnnotateContext matcher annotation outgoing h = Some md ->
    k ∈ ReservedIdentityMetadataKeys ->
    (forall key name, key ∈ dom h -> matcher key = Some name -> ascii_lower name <> k) ->
    let a := values_of k annotation in
    let o := values_of k (default ∅ outgoing) in
    values_of k md = a \/ values_of k md = o ++ a \/ values_of k md = a ++ o.

Lemma matched_not_reserved D key h : matcher_documented D -> incomingHeaderMatcher D key = Some h ->
  ascii_lower h ∉ ReservedIdentityMetadataKeys.
Proof.
  intros HD Hm Hin. unfold incomingHeaderMatcher in Hm.
  destruct (HasPrefix "grpc-metadata-" (ascii_lower key) && _) eqn:E; [done|].
  destruct (HD _ _ Hm) as [Hp|Hk].
  - apply HasPrefix_iff in Hp as (t & ->). rewrite ascii_lower_app in Hin.
    unfold ReservedIdentityMetadataKeys in Hin. set_unfold in Hin. repeat destruct Hin as [Hin|Hin]; done.
  - rewrite Hk in E. rewrite HasPrefix_app, TrimPrefix_app in E. simpl in E.
    apply not_true_iff_false in E. apply E. apply reserved_iff. by rewrite ascii_lower_idem.
Qed.

(** ** Forwarded values *)

(** A key whose annotation and outgoing metadata hold the one value [v], or nothing where
    [v] is empty. *)
Definition carries (k v : string) (md : MD) : Prop := values_of k md = [v] \/ (values_of k md = [] /\ v = "").

Lemma carried_first k v a o md : carries k v a -> carries k v o ->
  (values_of k md = values_of k a \/ values_of k md = values_of k o ++ values_of k a
   \/ values_of k md = values_of k a ++ values_of k o) ->
  md_first (server_context md) k = if String.eqb v "" then None else Some v.
Proof.
  unfold carries, md_first, server_context, values_of. simpl. intros Ha Ho Hm.
  assert (H : default [] (md !! k) = [] /\ v = "" \/ exists l, default [] (md !! k) = v :: l).
  { set (va := default [] (a !! k)) in *. set (vo := default [] (o !! k)) in *.
    set (vm := default [] (md !! k)) in *. clearbody va vo vm.
    destruct Ha as [->|[-> ->]], Ho as [->|[-> Hv]]; try (injection Hv as ->);
      destruct Hm as [->|[->| ->]]; simpl; eauto. }
  destruct (md !! k) as [[|x l]|]; simpl in H; destruct H as [[H ->]|[l' H]]; try done.
  by injection H as -> _.
Qed.

Section claims.
Context (Marshal : Actor -> option string) (c : Claims) (r : request).
Let out : MD := Pairs (outgoing_pairs Marshal c).
Let annot : MD := annotateContext (ContextWithClaims Background c) r.

Ltac outgoing_key :=
  unfold carries, out, outgoing_pairs; rewrite Pairs_values;
  destruct (elems (cl_Scopes c)), (cl_Act c) as [act|]; try destruct (Marshal act);
  destruct (String.eqb_spec (cl_ID c) ""), (String.eqb_spec (cl_RunID c) ""), (String.eqb_spec (cl_TrackerConn c) "");
  vm_compute; auto.

Lemma out_username : carries MDKeyUsername (cl_Username c) out.
Proof using. outgoing_key. Qed.
Lemma out_roles : carries MDKeyRoles (join_char "," (cl_Roles c)) out.
Proof using. outgoing_key. Qed.
Lemma out_run_id : carries MDKeyRunID (cl_RunID c) out.
Proof using. outgoing_key. Qed.
Lemma out_tracker_conn : carries MDKeyTrackerConn (cl_TrackerConn c) out.
Proof using. outgoing_key. Qed.
Lemma out_scopes : values_of MDKeyScopes out =
  match elems (cl_Scopes c) with [] => [] | s => [join_char "," s] end.
Proof using. outgoing_key. Qed.

Ltac annotated_key :=
  unfold carries, values_of, annot, annotateContext;
  repeat first [rewrite set_some_eq by done | rewrite set_joined_eq by done
               | rewrite set_some_ne by done | rewrite set_joined_ne by done].

Lemma annot_username : carries MDKeyUsername (cl_Username c) annot.
Proof using. annotated_key. simpl. destruct (String.eqb_spec (cl_Username c) ""); auto. Qed.
Lemma annot_roles : carries MDKeyRoles (join_char "," (cl_Roles c)) annot.
Proof using. annotated_key. simpl. destruct (cl_Roles c); auto. Qed.
Lemma annot_run_id : carries MDKeyRunID (cl_RunID c) annot.
Proof using.
  annotated_key. simpl. destruct (String.eqb_spec (cl_RunID c) ""); simpl; auto.
  rewrite (proj2 (String.eqb_neq _ _)) by done. auto.
Qed.
Lemma annot_tracker_conn : carries MDKeyTrackerConn (cl_TrackerConn c) annot.
Proof using.
  annotated_key. simpl. destruct (String.eqb_spec (cl_TrackerConn c) ""); simpl; auto.
  rewrite (proj2 (String.eqb_neq _ _)) by done. auto.
Qed.
Lemma annot_scopes : values_of MDKeyScopes annot =
  match elems (cl_Scopes c) with [] => [] | s => [join_char "," s] end.
Proof using. annotated_key. simpl. by destruct (cl_Scopes c) as [[|s l]|]. Qed.
End claims.

(** A list whose entries survive the comma-separated metadata value. *)
Definition forwardable (l : list string) : Prop :=
  Forall (fun s => contains_char "," s = false /\ TrimSpace s = s /\ s <> "") l.

Lemma split_forwarded l : forwardable l ->
  filter (fun p => p <> "") (map TrimSpace (split_char "," (join_char "," l))) = l.
Proof.
  intros Hl. destruct l as [|x l]; [done|].
  rewrite split_join_char; [|by eapply Forall_impl; [exact Hl|]; naive_solver|done].
  remember (x :: l) as xs. clear Heqxs. induction xs as [|y ys IH]; [done|].
  apply Forall_cons in Hl as [(_ & Ht & Hne) Hl]. simpl. rewrite Ht, filter_cons_True by done. by rewrite IH.
Qed.

(** The identity a handler reads from the metadata of a verified token. *)
Definition identity_of (c : Claims) (g : Context) : Prop :=
  SubjectFromGRPCContext g
    = (cl_Username c, splitRoles (join_char "," (cl_Roles c)), negb (String.eqb (cl_Username c) "")) /\
  ScopesFromGRPCContext g
    = match elems (cl_Scopes c) with
      | [] => (None, false)
      | s => (Some (elems (ParseScopes (join_char "," s))), true)
      end /\
  RunIDFromGRPCContext g = (cl_RunID c, negb (String.eqb (cl_RunID c) "")) /\
  TrackerConnFromGRPCContext g = (cl_TrackerConn c, negb (String.eqb (cl_TrackerConn c) "")).

Lemma subject_from md u v :
  md_first (server_context md) MDKeyUsername = (if String.eqb u "" then None else Some u) ->
  md_first (server_context md) MDKeyRoles = (if String.eqb v "" then None else Some v) ->
  SubjectFromGRPCContext (server_context md) = (u, splitRoles v, negb (String.eqb u "")).
Proof.
  intros Hu Hv. unfold SubjectFromGRPCContext. rewrite Hu, Hv. simpl.
  assert (Hr : (if String.eqb v "" then None else Some v) = None /\ splitRoles v = [] \/
               (if String.eqb v "" then None else Some v) = Some v).
  { destruct (String.eqb_spec v "") as [->|]; auto. }
  destruct Hr as [[-> ->]| ->]; (destruct (String.eqb_spec u "") as [->|]; simpl; [|]); try done;
    by destruct (splitRoles v).
Qed.

Lemma claim_of key field md v : field (server_context md) = None ->
  md_first (server_context md) key = (if String.eqb v "" then None else Some v) ->
  claim_from key field (server_context md) = (v, negb (String.eqb v "")).
Proof.
  intros Hf Hv. unfold claim_from. rewrite Hv, Hf. by destruct (String.eqb_spec v "") as [->|].
Qed.

Section rest.
Context (AnnotateContext : (string -> option string) -> MD -> option MD -> Header -> option MD).
Context (D : string -> option string).
Context (HD : matcher_documented D) (HA : gateway_documented AnnotateContext).
Context (Marshal : Actor -> option string).

(** The metadata a REST request's call arrives with. *)
Definition rest_metadata (ctx : Context) (out : option MD) (r : request) : option MD :=
  AnnotateContext (incomingHeaderMatcher D) (annotateContext ctx r) out (rq_Header r).

Lemma unmapped k : k ∈ ReservedIdentityMetadataKeys -> forall (h : Header) key name, key ∈ dom h ->
  incomingHeaderMatcher D key = Some name -> ascii_lower name <> k.
Proof using HD. intros Hk h key name _ Hm <-. by eapply matched_not_reserved. Qed.

Lemma forwarded_identity c r md :
  rest_metadata (ContextWithClaims Background c) (Some (Pairs (outgoing_pairs Marshal c))) r = Some md ->
  identity_of c (server_context md).
Proof using HD HA.
  unfold rest_metadata. intros Hmd.
  assert (Hk : forall k, k ∈ ReservedIdentityMetadataKeys -> _) by (intros k Hk; exact (HA _ _ _ _ _ k Hmd Hk (unmapped k Hk _))).
  split; [|split; [|split]].
  - apply subject_from; (eapply carried_first; [..|apply Hk, reserved_of; reflexivity]).
    + apply annot_username.
    + apply out_username.
    + apply annot_roles.
    + apply out_roles.
  - specialize (Hk MDKeyScopes (reserved_of MDKeyScopes eq_refl)). simpl in Hk. rewrite annot_scopes, out_scopes in Hk.
    unfold ScopesFromGRPCContext, server_context. cbn [with_md cx_md cx_scopes Background]. unfold values_of in Hk.
    destruct (elems (cl_Scopes c)) as [|s l].
    + destruct (md !! MDKeyScopes) as [[|v vs]|]; try done. simpl in Hk. naive_solver.
    + set (v := join_char "," (s :: l)) in *. clearbody v.
      destruct (md !! MDKeyScopes) as [[|x vs]|]; simpl in Hk; destruct Hk as [Hk|[Hk|Hk]]; try done;
        by simplify_eq.
  - apply claim_of; [done|]. eapply carried_first; [..|apply Hk, reserved_of; reflexivity].
    + apply annot_run_id.
    + apply out_run_id.
  - apply claim_of; [done|]. eapply carried_first; [..|apply Hk, reserved_of; reflexivity].
    + apply annot_tracker_conn.
    + apply out_tracker_conn.
Qed.

(** Without claims only the forwarding marker is annotated. *)
Lemma anonymous_identity r md : rest_metadata Background None r = Some md ->
  (SubjectFromGRPCContext (server_context md)).2 = false /\ ScopesFromGRPCContext (server_context md) = (None, false) /\
  RunIDFromGRPCContext (server_context md) = ("", false) /\ TrackerConnFromGRPCContext (server_context md) = ("", false).
Proof using HD HA.
  unfold rest_metadata. intros Hmd.
  assert (Hk : forall k, k ∈ ReservedIdentityMetadataKeys -> values_of k (annotateContext Background r) = [] -> values_of k md = []).
  { intros k Hk Ha. pose proof (HA _ _ _ _ _ k Hmd Hk (unmapped k Hk _)) as H. simpl in H. rewrite Ha in H.
    unfold values_of in *. simpl in H. rewrite lookup_empty in H. naive_solver. }
  assert (Hf : forall k, existsb (String.eqb k) ReservedIdentityMetadataKeys = true ->
                 values_of k (annotateContext Background r) = [] -> md_first (server_context md) k = None).
  { intros k Hb%reserved_of Ha. specialize (Hk k Hb Ha). unfold values_of, md_first, server_context in *.
    simpl. by destruct (md !! k) as [[|]|]. }
  assert (Hu : md_first (server_context md) MDKeyUsername = None) by (by apply Hf).
  assert (Hs : values_of MDKeyScopes md = []) by (apply Hk; [by apply reserved_of|done]).
  split; [|split; [|split]].
  - unfold SubjectFromGRPCContext. by rewrite Hu.
  - unfold ScopesFromGRPCContext, server_context. simpl. unfold values_of in Hs. by destruct (md !! MDKeyScopes) as [[|]|].
  - apply (claim_of MDKeyRunID cx_run_id md ""); [done|]. by apply Hf.
  - apply (claim_of MDKeyTrackerConn cx_tracker_conn md ""); [done|]. by apply Hf.
Qed.
End rest.

(** ** Properties *)

Section served.
Context (decode : string -> option (string * Claims)).
Context (verify : string -> string -> string -> Time -> string -> bool).
Context (Marshal : Actor -> option string).

(** The middleware's decision on every request.  The wrapped handler runs exactly when
    the path is the refresh exchange or the request carries a token that validates as an
    access token; a request that is served leaves the failure limiter as it was, and
    one with a bad token is answered 401 or 429 as the limiter's answer for its address
    says. *)
Theorem middleware_admits tm rs db_ok now lim r :
  match HTTPMiddleware decode verify Marshal tm rs db_ok now lim r with
  | (Next ctx out, lim') =>
      lim' = lim /\
      (unauthPaths (rq_Path r) = true /\ ctx = rq_Context r /\ out = None \/
       exists token c, request_token r = inl token /\
         ValidateAccessToken decode verify tm rs db_ok now token = inl c /\
         ctx = ContextWithClaims (rq_Context r) c /\ out = Some (Pairs (outgoing_pairs Marshal c)))
  | (Refused e, lim') =>
      unauthPaths (rq_Path r) = false /\
      match request_token r with
      | inr e' => e = e' /\ lim' = lim /\ http_status e = 401
      | inl token =>
          (exists err, ValidateAccessToken decode verify tm rs db_ok now token = inr err) /\
          let ip := clientIPFromRequest (header_get (rq_Header r) "X-Forwarded-For") (rq_RemoteAddr r) in
          if String.eqb ip "" then e = InvalidAccessToken /\ lim' = lim
          else lim' = (Allow_opt ip now lim).2 /\
               http_status e = (if (Allow_opt ip now lim).1 then 401 else 429)
      end
  end.
Proof.
  unfold HTTPMiddleware. destruct (unauthPaths (rq_Path r)) eqn:Hp; [by auto|].
  destruct (request_token r) as [token|e] eqn:Ht.
  - destruct (ValidateAccessToken _ _ _ _ _ _ _) as [c|err] eqn:Hv; [by eauto 10|].
    destruct (String.eqb _ "") eqn:Hip; [by eauto|].
    destruct (Allow_opt _ now lim) as [[] lim'] eqn:Ha; simpl; by eauto.
  - split; [done|]. split; [done|]. split; [done|].
    unfold request_token in Ht. repeat case_match; simplify_eq; done.
Qed.

(** C4: a REST caller is who its token says.  When a request is served and the gateway makes
    the gRPC call, the identity the handler reads is that of the claims of the validated
    access token: subject, roles, scopes, run and tracker connection, whatever headers the
    client sent.  On the refresh path the handler reads no identity.  Roles without commas
    or surrounding spaces are read back unchanged. *)
Theorem rest_identity AnnotateContext D (HD : matcher_documented D) (HA : gateway_documented AnnotateContext)
  tm rs db_ok now lim r ctx out lim' md (Hctx : rq_Context r = Background)
  (Hserved : HTTPMiddleware decode verify Marshal tm rs db_ok now lim r = (Next ctx out, lim'))
  (Hcall : rest_metadata AnnotateContext D ctx out r = Some md) :
  exists g, authenticateTransport (Some InternalAuthInfo) (server_context md) = inl g /\
  if unauthPaths (rq_Path r) then
    (SubjectFromGRPCContext g).2 = false /\ ScopesFromGRPCContext g = (None, false) /\
    RunIDFromGRPCContext g = ("", false) /\ TrackerConnFromGRPCContext g = ("", false)
  else exists token c, request_token r = inl token /\
    ValidateAccessToken decode verify tm rs db_ok now token = inl c /\ identity_of c g /\
    (forwardable (cl_Roles c) -> (SubjectFromGRPCContext g).1.2 = cl_Roles c) /\
    (forwardable (elems (cl_Scopes c)) -> elems (ScopesFromGRPCContext g).1 = elems (cl_Scopes c)).
Proof.
  exists (server_context md). split; [done|]. revert Hserved. unfold HTTPMiddleware.
  destruct (unauthPaths (rq_Path r)).
  { intros [= <- <- <-]. rewrite Hctx in Hcall. by eapply anonymous_identity. }
  destruct (request_token r) as [token|e]; [|done].
  destruct (ValidateAccessToken _ _ _ _ _ _ _) as [c|err] eqn:Hv.
  2:{ destruct (String.eqb _ ""); [done|]. by destruct (Allow_opt _ _ _). }
  intros [= <- <- <-]. rewrite Hctx in Hcall. exists token, c.
  pose proof (forwarded_identity _ _ HD HA Marshal c r md Hcall) as Hid.
  do 3 (split; [done|]). destruct Hid as (Hs & Hsc & _). rewrite Hs, Hsc. split.
  - intros Hf. exact (split_forwarded _ Hf).
  - intros Hf. destruct (elems (cl_Scopes c)) as [|s l]; [done|]. cbn [fst elems default from_option].
    unfold ParseScopes. rewrite (split_forwarded _ Hf). done.
Qed.
End served.

(** C5: metadata is believed by the connection it came on.  Whatever metadata a client
    sends, a call over an external connection runs as the certificate's common name behind
    the prefix [mtls:], with no roles, scopes, delegation chain, token id or run of its
    own choosing; it never passes an admin check, and a tenant check only for that very
    name.  Without a verified certificate the call is refused, and without mTLS
    configured every external handshake fails. *)
Theorem external_identity (tls : option (conn -> option AuthInfo)) (id : Z) (md : MD)
  (Unmarshal : string -> option Actor)
  (Htls : forall handshake ai, tls = Some handshake -> handshake (networkConn id) = Some ai -> ai <> InternalAuthInfo) :
  match ServerHandshake tls (networkConn id) with
  | None => True
  | Some ai =>
      is_Some tls /\
      match authenticateTransport (Some ai) (server_context md) with
      | inr _ => True
      | inl g =>
          exists cn chain chains, ai = TLSInfo ((cn :: chain) :: chains) /\
            SubjectFromGRPCContext g = (mtlsSubjectPrefix +:+ cn, [], true) /\
            ScopesFromGRPCContext g = (None, false) /\ ActFromGRPCContext Unmarshal g = (None, false) /\
            JTIFromGRPCContext g = ("", false) /\ RunIDFromGRPCContext g = ("", false) /\
            TrackerConnFromGRPCContext g = ("", false) /\
            RequireRole g RoleAdmin = Some (RoleRequired RoleAdmin) /\
            forall tenant, AuthorizeTenant g tenant = None -> tenant = mtlsSubjectPrefix +:+ cn
      end
  end.
Proof.
  destruct (ServerHandshake tls (networkConn id)) as [ai|] eqn:Hh; [|done].
  simpl in Hh. destruct tls as [handshake|]; [|done]. split; [done|].
  specialize (Htls handshake ai eq_refl Hh).
  destruct ai as [|chains|]; [done| |done]. unfold authenticateTransport.
  destruct chains as [|[|cn chain] chains]; [done|done|]. cbn [assertMTLSPeer MTLSPeerCN].
  exists cn, chain, chains. set (g := with_md _ _).
  assert (Hnone : forall k, k ∈ ReservedIdentityMetadataKeys -> k <> MDKeyUsername ->
            forall m, cx_md g = Some m -> m !! k = None).
  { intros k Hk Hne m [= <-]. unfold md_set. rewrite lookup_insert_ne by (intros <-; by apply Hne).
    by apply stripped. }
  assert (Hf : forall k, existsb (String.eqb k) ReservedIdentityMetadataKeys = true -> k <> MDKeyUsername -> md_first g k = None).
  { intros k Hb%reserved_of Hne. unfold md_first. specialize (Hnone k Hb Hne).
    destruct (cx_md g) as [m|] eqn:Em; [|done]. by rewrite (Hnone m eq_refl). }
  assert (Hu : md_first g MDKeyUsername = Some (mtlsSubjectPrefix +:+ cn)).
  { unfold md_first. cbn [g with_md cx_md]. unfold md_set. rewrite lookup_insert_eq. done. }
  assert (Hs : SubjectFromGRPCContext g = (mtlsSubjectPrefix +:+ cn, [], true)).
  { unfold SubjectFromGRPCContext. rewrite Hu, (Hf MDKeyRoles) by done. done. }
  split; [done|]. split; [done|]. split.
  { unfold ScopesFromGRPCContext. destruct (cx_md g) as [m|] eqn:Em; [|done].
    rewrite (Hnone MDKeyScopes); [done|by apply reserved_of|done|done]. }
  split; [unfold ActFromGRPCContext; by rewrite (Hf MDKeyAct)|].
  split; [unfold JTIFromGRPCContext, claim_from; by rewrite (Hf MDKeyJTI)|].
  split; [unfold RunIDFromGRPCContext, claim_from; by rewrite (Hf MDKeyRunID)|].
  split; [unfold TrackerConnFromGRPCContext, claim_from; by rewrite (Hf MDKeyTrackerConn)|].
  split; [unfold RequireRole; by rewrite Hs|].
  intros tenant. unfold AuthorizeTenant. rewrite Hs. change (HasRole [] RoleAdmin) with false. cbn [negb].
  by destruct (String.eqb_spec (mtlsSubjectPrefix +:+ cn) tenant) as [<-|].
Qed.

(** ** The hypotheses can hold *)

Definition default_matcher (key : string) : option string :=
  if HasPrefix "Grpc-Metadata-" key then Some (TrimPrefix key "Grpc-Metadata-")
  else if existsb (String.eqb key) ["Accept"; "Cookie"; "Host"] then Some ("grpcgateway-" +:+ key)
  else None.

Lemma default_matcher_documented : matcher_documented default_matcher.
Proof.
  intros key h. unfold default_matcher. destruct (HasPrefix "Grpc-Metadata-" key) eqn:E.
  - apply HasPrefix_iff in E as (t & ->). intros [= <-]. right. by rewrite TrimPrefix_app, ascii_lower_app.
  - destruct (existsb _ _); [|done]. intros [= <-]. left. apply HasPrefix_app.
Qed.

(** A gateway that replaces the outgoing metadata by the mapped headers and the
    annotation. *)
Definition mapped_pairs (matcher : string -> option string) (h : Header) : list (string * string) :=
  flat_map (fun kv => match matcher kv.1 with Some name => map (pair name) kv.2 | None => [] end) (map_to_list h).

Definition md_join (a b : MD) : MD := union_with (fun x y => Some (x ++ y)) a b.

Definition replacing_gateway (matcher : string -> option string) (annotation : MD) (outgoing : option MD)
  (h : Header) : option MD :=
  Some (md_join (Pairs (mapped_pairs matcher h)) annotation).

Lemma values_of_join k a b : values_of k (md_join a b) = values_of k a ++ values_of k b.
Proof.
  unfold values_of, md_join. rewrite lookup_union_with.
  destruct (a !! k), (b !! k); simpl; by rewrite ?app_nil_r.
Qed.

Lemma replacing_gateway_documented : gateway_documented replacing_gateway.
Proof.
  intros matcher annotation outgoing h md k [= <-] _ Hm. left. rewrite values_of_join, Pairs_values.
  assert (filter (fun kv => ascii_lower kv.1 = k) (mapped_pairs matcher h) = []) as ->; [|done].
  destruct (filter _ _) as [|[n v] rest] eqn:E; [done|]. exfalso.
  assert (Hnv : (n, v) ∈ filter (fun kv => ascii_lower kv.1 = k) (mapped_pairs matcher h)) by (rewrite E; left).
  apply list_elem_of_filter in Hnv as [Hk Hin]. clear E. unfold mapped_pairs in Hin.
  apply list_elem_of_In, in_flat_map in Hin as ([key vs] & Hkey & Hin). simpl in *.
  destruct (matcher key) as [name|] eqn:E; [|done]. apply in_map_iff in Hin as (v' & [= -> ->] & _).
  apply (Hm key n); [|done|done]. apply elem_of_dom. exists vs. apply elem_of_map_to_list. by apply list_elem_of_In.
Qed.

Definition bob_claims : Claims :=
  mkClaims "bob" ["user"] (Some ["containers:read"; "secrets:read"]) "access" (Some (mkActor "agent-7" None)) "run-1" ""
    "" "jti-1" (Some Hour) 0 "containarium" ["containarium-api"].

Definition bob_decode (tok : string) : option (string * Claims) :=
  if String.eqb tok "tok" then Some ("HS256", bob_claims) else None.

(** A client that also claims other identities in its headers. *)
Definition bob_request : request :=
  mkRequest "GET" "/v1/containers" "203.0.113.9:4000"
    (<["Authorization" := ["Bearer tok"]]> (<["Grpc-Metadata-Roles" := ["admin"]]>
       (<["Grpc-Metadata-Username" := ["_system"]]> (<["Accept" := ["*/*"]]> ∅)))) ∅ Background.

Definition bob_tm : TokenManager := mkTM "0123456789abcdef0123456789abcdef" "containarium" "containarium-api" Hour.
Definition every_verify (_ _ _ : string) (_ : Time) (_ : string) : bool := true.
Definition act_json (a : Actor) : option string := match a with mkActor s _ => Some s end.

Definition bob_served : served :=
  Next (ContextWithClaims Background bob_claims) (Some (Pairs (outgoing_pairs act_json bob_claims))).

Definition bob_metadata : MD :=
  default ∅ (rest_metadata replacing_gateway default_matcher (ContextWithClaims Background bob_claims)
               (Some (Pairs (outgoing_pairs act_json bob_claims))) bob_request).

Lemma rest_identity_witness : exists g,
  authenticateTransport (Some InternalAuthInfo) (server_context bob_metadata) = inl g /\
  exists token c, request_token bob_request = inl token /\
    ValidateAccessToken bob_decode every_verify bob_tm None true 0 token = inl c /\ identity_of c g /\
    (forwardable (cl_Roles c) -> (SubjectFromGRPCContext g).1.2 = cl_Roles c) /\
    (forwardable (elems (cl_Scopes c)) -> elems (ScopesFromGRPCContext g).1 = elems (cl_Scopes c)).
Proof.
  exact (rest_identity bob_decode every_verify act_json replacing_gateway default_matcher
    default_matcher_documented replacing_gateway_documented bob_tm None true 0 None bob_request
    (ContextWithClaims Background bob_claims) (Some (Pairs (outgoing_pairs act_json bob_claims))) None bob_metadata
    eq_refl eq_refl eq_refl).
Defined.

Lemma external_identity_witness :
  let tls (_ : conn) := Some (TLSInfo [["bob"; "ca"]]) in
  ServerHandshake (Some tls) (networkConn 7) = Some (TLSInfo [["bob"; "ca"]]) /\
  match ServerHandshake (Some tls) (networkConn 7) with
  | None => True
  | Some ai =>
      is_Some (Some tls) /\
      match authenticateTransport (Some ai) (server_context (Pairs [("roles", "admin"); ("username", "bob")])) with
      | inr _ => True
      | inl g =>
          exists cn chain chains, ai = TLSInfo ((cn :: chain) :: chains) /\
            SubjectFromGRPCContext g = (mtlsSubjectPrefix +:+ cn, [], true) /\
            ScopesFromGRPCContext g = (None, false) /\ ActFromGRPCContext (fun _ => None) g = (None, false) /\
            JTIFromGRPCContext g = ("", false) /\ RunIDFromGRPCContext g = ("", false) /\
            TrackerConnFromGRPCContext g = ("", false) /\
            RequireRole g RoleAdmin = Some (RoleRequired RoleAdmin) /\
            forall tenant, AuthorizeTenant g tenant = None -> tenant = mtlsSubjectPrefix +:+ cn
      end
  end.
Proof.
  split; [reflexivity|].
  apply (external_identity (Some (fun _ => Some (TLSInfo [["bob"; "ca"]]))) 7 _ (fun _ => None)).
  intros handshake ai [= <-] [= <-]. discriminate.
Defined.

(** With a gateway that replaces the outgoing metadata, the delegation chain and the token
    id of the claims do not reach the handler: [annotateContext] forwards neither. *)
Example delegation_not_forwarded :
  md_first (server_context bob_metadata) MDKeyRunID = Some "run-1" /\
  md_first (server_context bob_metadata) MDKeyUsername = Some "bob" /\
  ActFromGRPCContext (fun s => Some (mkActor s None)) (server_context bob_metadata) = (None, false) /\
  JTIFromGRPCContext (server_context bob_metadata) = ("", false).
Proof. vm_compute. repeat split. Qed.

(** A role with a comma becomes two roles on the way. *)
Example comma_splits_a_role :
  splitRoles (join_char "," ["team,admin"]) = ["team"; "admin"].
Proof. reflexivity. Qed.

(** The refresh path is served without a token; a repeated bad token is refused with 429
    once the bucket of its address is empty. *)
Example middleware_ex :
  (HTTPMiddleware bob_decode every_verify act_json bob_tm None true 0 None
     (mkRequest "POST" "/v1/tokens/refresh" "203.0.113.9:4000" ∅ ∅ Background)).1 = Next Background None /\
  (HTTPMiddleware bob_decode every_verify act_json bob_tm None true 0 (Some {["203.0.113.9" := mkBucket (of_int 0) 0]})
     (mkRequest "GET" "/v1/apps" "203.0.113.9:4000" {["Authorization" := ["bearer nope"]]} ∅ Background)).1
    = Refused TooManyFailures /\
  (HTTPMiddleware bob_decode every_verify act_json bob_tm None true 0 None
     (mkRequest "GET" "/grafana/" "203.0.113.9:4000" {["Cookie" := ["a=1; containarium_session=tok"]]} ∅ Background)).1
    = bob_served /\
  CanonicalHeaderKey "X-containarium-sentinel-ts" = "X-Containarium-Sentinel-Ts".
Proof. repeat split. Qed.
