(* ===== verification/GatewayRoutes.v ===== *)
(** * internal/gateway: routes, upgrade tokens and who may open a tenant's box

    [registered] is the table of patterns [Start] of gateway.go puts on its mux, in
    order, and [serve_mux] net/http's choice among them: the longest pattern that
    equals the path, or that ends in a slash and is a prefix of it.  The mux also
    redirects an unclean path before it matches; here such a path is matched as it stands,
    so what is shown of all paths holds of the clean ones.  CORS wrappers
    pass every request on, preflights apart.  [guard_of] is the check between a
    request and the handler behind it.

    The upgrade token of ws_token.go, the tenant check and the two handlers of
    terminal.go and console.go up to the point where they open the box are
    [Upgrade], [terminal_route] and [console_route]; whether the box exists and runs is
    an argument.  The label handlers of labels.go act on a world of labels. *)

From S2P Require Import Prelude GoStrings GoNet Auth Tokens AuthLimiter AuthHttp.
From Stdlib Require Import Ascii.
#[local] Open Scope string_scope.
#[local] Open Scope list_scope.
#[local] Open Scope Z_scope.

(** ** The upgrade token (ws_token.go) *)

Definition WSSubprotocolBearer : string := "containarium.bearer".

Inductive TokenSource :=
| TokenSourceNone | TokenSourceSubprotocol | TokenSourceAuthorizationHeader | TokenSourceQueryParam.

Definition TokenSource_String (s : TokenSource) : string :=
  match s with
  | TokenSourceSubprotocol => "subprotocol"
  | TokenSourceAuthorizationHeader => "authorization-header"
  | TokenSourceQueryParam => "query-param"
  | TokenSourceNone => "none"
  end.

Definition splitSubprotocols (v : string) : list string :=
  filter (fun p => p <> "") (map TrimSpace (split_char "," v)).

Definition jwt_char (c : ascii) : bool :=
  let n := nat_of_ascii c in
  ((65 <=? n) && (n <=? 90) || (97 <=? n) && (n <=? 122) || (48 <=? n) && (n <=? 57))%nat
  || Ascii.eqb c "-" || Ascii.eqb c "_" || Ascii.eqb c "=".

Definition looksLikeJWT (s : string) : bool :=
  if (String.length s <? 16)%nat then false
  else let segs := split_char "." s in
       if negb (length segs =? 3)%nat then false
       else forallb (fun seg => negb (String.eqb seg "") && all_chars jwt_char seg) segs.

(** The first non-empty entry after the marker that is not the marker again. *)
Fixpoint after_marker (sawMarker : bool) (entries : list string) : option string :=
  match entries with
  | [] => None
  | e :: rest =>
      if String.eqb e WSSubprotocolBearer then after_marker true rest
      else if sawMarker && negb (String.eqb e "") then Some e
      else after_marker sawMarker rest
  end.

Definition subprotocol_token (v : string) : option string :=
  let entries := splitSubprotocols v in
  match after_marker false entries with
  | Some e => Some e
  | None => List.find looksLikeJWT entries
  end.

(** [r.URL.Query().Get(key)]. *)
Definition query_get (q : gmap string (list string)) (key : string) : string :=
  match q !! key with Some (v :: _) => v | _ => "" end.

Definition ExtractBearerForUpgrade (r : request) : string * TokenSource :=
  let v := header_get (rq_Header r) "Sec-WebSocket-Protocol" in
  match (if String.eqb v "" then None else subprotocol_token v) with
  | Some e => (e, TokenSourceSubprotocol)
  | None =>
      let a := header_get (rq_Header r) "Authorization" in
      if HasPrefix "Bearer " a then (TrimPrefix a "Bearer ", TokenSourceAuthorizationHeader)
      else let q := query_get (rq_Query r) "token" in
           if String.eqb q "" then ("", TokenSourceNone) else (q, TokenSourceQueryParam)
  end.

Definition AckSubprotocol (r : request) : string :=
  let v := header_get (rq_Header r) "Sec-WebSocket-Protocol" in
  if negb (String.eqb v "") && existsb (String.eqb WSSubprotocolBearer) (splitSubprotocols v)
  then WSSubprotocolBearer else "".

(** ** The tenant check of the two upgrade routes *)

(** [None] is a nil error. *)
Definition authorizeTenantWSAccess (claims : option Claims) (requestedUsername : string) : option string :=
  match claims with
  | None => Some "no authenticated subject"
  | Some c => if HasRole (cl_Roles c) RoleAdmin then None
              else if negb (String.eqb (cl_Username c) requestedUsername) then Some "not authorized for this tenant"
              else None
  end.

(** [strings.Trim(path, "/")]. *)
Fixpoint trim_slashes (s : string) : string :=
  match s with
  | String c s' => if Ascii.eqb c "/" then trim_slashes s' else s
  | "" => ""
  end.
Definition Trim_slash (s : string) : string := reverse (trim_slashes (reverse (trim_slashes s))).

(** The loop of the terminal route: the element after the first [containers]. *)
Fixpoint after_containers (parts : list string) : string :=
  match parts with
  | p :: ((q :: _) as rest) => if String.eqb p "containers" then q else after_containers rest
  | _ => ""
  end.

Definition terminal_tenant (path : string) : string := after_containers (split_char "/" (Trim_slash path)).

Definition parseConsoleUsername (path : string) : string :=
  match split_char "/" (Trim_slash path) with
  | ["v1"; "containers"; u; "console-attach"] => u
  | _ => ""
  end.

(** What an upgrade route does: an HTTP error, a session in a container of this host,
    or a proxied session for a user of a peer. *)
Inductive ws_outcome := WSError (status : Z) | WSSession (container : string) | WSPeer (username url : string).

(** The state of an instance: absent, or its status. *)
Definition open_instance (instances : string -> option string) (username : string) : ws_outcome :=
  let containerName := username +:+ "-container" in
  match instances containerName with
  | None => WSError 404
  | Some status => if negb (String.eqb status "Running") then WSError 400 else WSSession containerName
  end.

(** [PeerTerminalURL] of the peer proxy, if there is one: the URL of the peer that has
    the user's box, [None] for an error. *)
Abbreviation peer_proxy := (option (string -> string -> option string)) (only parsing).

Definition HandleTerminal (instances : string -> option string) (peerProxy : peer_proxy) (r : request) : ws_outcome :=
  let parts := split_char "/" (rq_Path r) in
  if (length parts <? 4)%nat then WSError 400
  else let username := nth 3 parts "" in
       if String.eqb username "" then WSError 400
       else match (match peerProxy with
                   | Some url => url username (ExtractBearerForUpgrade r).1
                   | None => None
                   end) with
            | Some peerURL => if String.eqb peerURL "" then open_instance instances username
                              else WSPeer username peerURL
            | None => open_instance instances username
            end.

Definition HandleConsole (instances : string -> option string) (path : string) : ws_outcome :=
  let username := parseConsoleUsername path in
  if String.eqb username "" then WSError 400 else open_instance instances username.

Section upgrade.
Context (decode : string -> option (string * Claims)).
Context (verify : string -> string -> string -> Time -> string -> bool).
Context (tm : TokenManager) (rs : option store) (db_ok : bool) (now : Time).

(** The checks both routes share, for the tenant the route names. *)
Definition Upgrade (tenant : string) (r : request) : Claims + Z :=
  let '(token, _) := ExtractBearerForUpgrade r in
  if String.eqb token "" then inr 401
  else match ValidateAccessToken decode verify tm rs db_ok now token with
       | inr _ => inr 401
       | inl claims => match authorizeTenantWSAccess (Some claims) tenant with
                       | Some _ => inr 403
                       | None => inl claims
                       end
       end.

Definition terminal_route (instances : string -> option string) (peerProxy : peer_proxy) (r : request) : ws_outcome :=
  match Upgrade (terminal_tenant (rq_Path r)) r with
  | inr status => WSError status
  | inl _ => HandleTerminal instances peerProxy r
  end.

Definition console_route (instances : string -> option string) (r : request) : ws_outcome :=
  match Upgrade (parseConsoleUsername (rq_Path r)) r with
  | inr status => WSError status
  | inl _ => HandleConsole instances (rq_Path r)
  end.

(** The events stream: any access token. *)
Definition events_allowed (r : request) : bool :=
  let '(token, _) := ExtractBearerForUpgrade r in
  if String.eqb token "" then false
  else match ValidateAccessToken decode verify tm rs db_ok now token with inl _ => true | inr _ => false end.

(** The Authorization-only check of the version, audit and cookie endpoints. *)
Definition requireBearer (r : request) : option Claims :=
  let authHeader := header_get (rq_Header r) "Authorization" in
  if negb (HasPrefix "Bearer " authHeader) then None
  else match ValidateAccessToken decode verify tm rs db_ok now (TrimPrefix authHeader "Bearer ") with
       | inl c => Some c
       | inr _ => None
       end.

Definition ScopeAuditRead : string := "audit:read".

(** [inr] is the status of the refusal. *)
Definition authorizeAuditRead (r : request) : Claims + Z :=
  match requireBearer r with
  | None => inr 401
  | Some c => if negb (HasRole (cl_Roles c) RoleAdmin) && negb (HasExplicitScope (elems (cl_Scopes c)) ScopeAuditRead)
              then inr 403 else inl c
  end.

(** The token may also come as a query parameter, which wins. *)
Definition clamav_export_allowed (r : request) : bool :=
  let q := query_get (rq_Query r) "token" in
  let authHeader := header_get (rq_Header r) "Authorization" in
  let token := if String.eqb q "" then
                 if HasPrefix "Bearer " authHeader then TrimPrefix authHeader "Bearer " else ""
               else q in
  if String.eqb token "" then false
  else match ValidateAccessToken decode verify tm rs db_ok now token with inl _ => true | inr _ => false end.

(** The session cookie: its value and lifetime in seconds, or the status of a refusal. *)
Definition handleSessionCookieSet (r : request) : (string * Z) + Z :=
  match requireBearer r with
  | None => inr 401
  | Some c =>
      let maxAge := match cl_ExpiresAt c with
                    | Some exp => let remaining := Sub exp now in
                                  if 0 <? remaining then Z.quot remaining Second else 0
                    | None => 0
                    end in
      inl (TrimPrefix (header_get (rq_Header r) "Authorization") "Bearer ", maxAge)
  end.
End upgrade.

(** ** The mux *)

Inductive route :=
| RContainers | RApi | RWake | RModel | RCoreServices | REvents | RSwagger | RWebUI | RAlertRelay | RHealth
| RProxy | RProxyRedirect | RSession | RClamavExport | RAudit | RReleases | RBackends | RSentinel.

(** The handlers and stores the server was given. *)
Record gateway_config := mkGateway {
  g_terminal : bool; g_console : bool; g_label : bool; g_wake : bool; g_model : bool; g_core : bool;
  g_grafana : bool; g_alertmanager : bool; g_guacamole : bool; g_security : bool; g_audit : bool; g_backends : bool;
}.

Definition when {A} (b : bool) (l : list A) : list A := if b then l else [].

(** [mountInternalProxies]: each configured backend has a guarded subtree and a redirect to it. *)
Definition mountInternalProxies (g : gateway_config) : list (string * route) :=
  when (g_grafana g) [("/grafana/", RProxy); ("/grafana", RProxyRedirect)] ++
  when (g_alertmanager g) [("/alertmanager/", RProxy); ("/alertmanager", RProxyRedirect)] ++
  when (g_guacamole g) [("/guacamole/", RProxy); ("/guacamole", RProxyRedirect)].

Definition registered (g : gateway_config) : list (string * route) :=
  when (g_terminal g) [("/v1/containers/", RContainers); ("/v1/containers", RContainers)] ++
  [("/v1/", RApi)] ++
  when (g_wake g) [("/wake/", RWake); ("/wake", RWake)] ++
  when (g_model g) [("/v1/model/", RModel); ("/__gateway/status", RModel); ("/__gateway/healthz", RModel)] ++
  when (g_core g) [("/v1/system/core-services", RCoreServices)] ++
  [("/v1/events/subscribe", REvents); ("/swagger-ui/", RSwagger); ("/swagger.json", RSwagger); ("/webui/", RWebUI);
   ("/internal/alert-relay", RAlertRelay); ("/health", RHealth)] ++
  mountInternalProxies g ++
  [("/v1/auth/session", RSession)] ++
  when (g_security g) [("/v1/security/clamav-reports/export", RClamavExport)] ++
  when (g_audit g) [("/v1/audit/logs", RAudit); ("/v1/audit/health", RAudit)] ++
  [("/v1/releases/latest", RReleases); ("/v1/backends", RApi); ("/v1/backends/upgrade", RApi)] ++
  when (g_backends g) [("/v1/backends/", RBackends)] ++
  [("/certs", RSentinel); ("/authorized-keys", RSentinel); ("/authorized-keys/sentinel", RSentinel)] ++
  when (g_wake g) [("/", RWake)].

Definition pattern_matches (pattern path : string) : bool :=
  if HasSuffix "/" pattern then HasPrefix pattern path else String.eqb pattern path.

(** The longest pattern that matches. *)
Fixpoint serve_mux (patterns : list (string * route)) (path : string) : option (string * route) :=
  match patterns with
  | [] => None
  | (p, h) :: rest =>
      let best := serve_mux rest path in
      if pattern_matches p path then
        match best with
        | Some (q, h') => if (String.length p <? String.length q)%nat then best else Some (p, h)
        | None => Some (p, h)
        end
      else best
  end.

(** [strings.Contains]. *)
Fixpoint Contains (s sub : string) : bool :=
  HasPrefix sub s || match s with "" => false | String _ s' => Contains s' sub end.

(** The cases of [containerHandler]. *)
Inductive container_case := CTerminal | CConsole | CLabels | CApi.

Definition containerHandler (g : gateway_config) (method path : string) : container_case :=
  if HasSuffix "/terminal" path then CTerminal
  else if HasSuffix "/console-attach" path && g_console g then CConsole
  else if Contains path "/labels" && g_label g
          && existsb (String.eqb method) ["GET"; "PUT"; "POST"; "DELETE"] then CLabels
  else CApi.

(** What a request must present before its handler runs. *)
Inductive guard :=
| GBearer           (** [HTTPMiddleware] *)
| GBearerAdmin      (** [HTTPMiddleware] and [requireAdminFromContext] *)
| GUpgradeTenant    (** [Upgrade] *)
| GUpgrade          (** [events_allowed] *)
| GHandler          (** a token check in the handler *)
| GGatewayToken     (** the model gateway's own token *)
| GSentinel         (** a signature of the sentinel *)
| GNone.

Definition route_guard (g : gateway_config) (method path : string) (h : route) : guard :=
  match h with
  | RContainers => match containerHandler g method path with
                   | CTerminal | CConsole => GUpgradeTenant
                   | CLabels => GNone
                   | CApi => GBearer
                   end
  | RApi | RCoreServices | RProxy | RBackends => GBearer
  | RSwagger => GBearerAdmin
  | REvents => GUpgrade
  | RSession | RClamavExport | RAudit | RReleases => GHandler
  | RModel => GGatewayToken
  | RSentinel => GSentinel
  | RWake | RWebUI | RAlertRelay | RHealth | RProxyRedirect => GNone
  end.

(** [None] is the mux's 404. *)
Definition guard_of (g : gateway_config) (method path : string) : option guard :=
  match serve_mux (registered g) path with
  | Some (_, h) => Some (route_guard g method path h)
  | None => None
  end.

(** The upgrades [containerHandler] serves. *)
Definition serve_upgrade (decode : string -> option (string * Claims))
  (verify : string -> string -> string -> Time -> string -> bool)
  (tm : TokenManager) (rs : option store) (db_ok : bool) (now : Time) (g : gateway_config)
  (instances : string -> option string) (peerProxy : peer_proxy) (r : request) : option ws_outcome :=
  match serve_mux (registered g) (rq_Path r) with
  | Some (_, RContainers) =>
      match containerHandler g (rq_Method r) (rq_Path r) with
      | CTerminal => Some (terminal_route decode verify tm rs db_ok now instances peerProxy r)
      | CConsole => Some (console_route decode verify tm rs db_ok now instances r)
      | _ => None
      end
  | _ => None
  end.

(** ** The label handlers *)

Section labels.
Context (W : Type) (ContainerExists : string -> W -> bool) (GetLabels : string -> W -> option (gmap string string)).
Context (AddLabel : string -> string -> string -> W -> bool * W) (RemoveLabel : string -> string -> W -> bool * W).

Definition label_parts (path : string) : list string := split_char "/" (TrimPrefix path "/v1/containers/").

(** The status of the reply, with the labels of a success. *)
Record label_reply := mkLabelReply { lr_status : Z; lr_labels : gmap string string }.
Definition label_error (status : Z) : label_reply := mkLabelReply status ∅.

Fixpoint add_labels (username : string) (labels : list (string * string)) (w : W) : bool * W :=
  match labels with
  | [] => (true, w)
  | (k, v) :: rest => let '(ok, w1) := AddLabel username k v w in
                      if ok then add_labels username rest w1 else (false, w1)
  end.

(** [body] is the decoded request in the order the map is ranged over. *)
Definition HandleSetLabels (path : string) (body : option (list (string * string))) (w : W) : label_reply * W :=
  match label_parts path with
  | username :: "labels" :: _ =>
      if negb (ContainerExists (username +:+ "-container") w) then (label_error 404, w)
      else match body with
           | None => (label_error 400, w)
           | Some labels =>
               let '(ok, w1) := add_labels username labels w in
               if negb ok then (label_error 500, w1)
               else (mkLabelReply 200 (default ∅ (GetLabels username w1)), w1)
           end
  | _ => (label_error 400, w)
  end.

Definition HandleRemoveLabel (path : string) (w : W) : label_reply * W :=
  match label_parts path with
  | username :: "labels" :: labelKey :: _ =>
      if negb (ContainerExists (username +:+ "-container") w) then (label_error 404, w)
      else let '(ok, w1) := RemoveLabel username labelKey w in
           if negb ok then (label_error 500, w1)
           else (mkLabelReply 200 (default ∅ (GetLabels username w1)), w1)
  | _ => (label_error 400, w)
  end.

Definition HandleGetLabels (path : string) (w : W) : label_reply :=
  match label_parts path with
  | username :: "labels" :: _ =>
      if negb (ContainerExists (username +:+ "-container") w) then label_error 404
      else match GetLabels username w with
           | None => label_error 500
           | Some labels => mkLabelReply 200 labels
           end
  | _ => label_error 400
  end.
End labels.

(** ** The longest match *)

Lemma serve_mux_in ps path p h : serve_mux ps path = Some (p, h) -> (p, h) ∈ ps /\ pattern_matches p path = true.
Proof.
  induction ps as [|[q k] ps IH]; simpl; [done|]. destruct (pattern_matches q path) eqn:Em.
  - destruct (serve_mux ps path) as [[q' k']|] eqn:Es; [|intros [= <- <-]; split; [left|done]].
    destruct (_ <? _)%nat; intros [= <- <-]; [|split; [left|done]].
    destruct (IH eq_refl) as [H1 H2]. split; [by right|done].
  - intros H. destruct (IH H) as [H1 H2]. split; [by right|done].
Qed.

Lemma serve_mux_longest ps path q k : (q, k) ∈ ps -> pattern_matches q path = true ->
  exists p h, serve_mux ps path = Some (p, h) /\ (String.length q <= String.length p)%nat.
Proof.
  induction ps as [|[q0 k0] ps IH]; intros Hin Hm; [by inversion Hin|]. simpl.
  apply elem_of_cons in Hin as [[= <- <-]|Hin].
  - rewrite Hm. destruct (serve_mux ps path) as [[p h]|]; [|eauto].
    destruct (Nat.ltb_spec (String.length q) (String.length p)); eauto with lia.
  - destruct (IH Hin Hm) as (p & h & -> & Hl). destruct (pattern_matches q0 path); [|eauto].
    destruct (Nat.ltb_spec (String.length q0) (String.length p)); eauto with lia.
Qed.

(** Every pattern of a configuration is one of the full table. *)
Definition full_config : gateway_config :=
  mkGateway true true true true true true true true true true true true.

Lemma elem_of_when {A} (x : A) b l : x ∈ when b l -> x ∈ l.
Proof. destruct b; simpl; [done|]. by intros ?%elem_of_nil. Qed.

Lemma registered_full g x : x ∈ registered g -> x ∈ registered full_config.
Proof.
  unfold registered, mountInternalProxies. rewrite !elem_of_app. cbn [when full_config g_terminal g_wake g_model g_core
    g_grafana g_alertmanager g_guacamole g_security g_audit g_backends].
  intros H. destruct_or! H; try apply elem_of_when in H; tauto.
Qed.

Lemma api_registered g : ("/v1/", RApi) ∈ registered g.
Proof. unfold registered. rewrite !elem_of_app. set_solver. Qed.

(** The patterns that can match a path below /v1/. *)
Lemma v1_route g path p h : HasPrefix "/v1/" path = true -> serve_mux (registered g) path = Some (p, h) ->
  h = RContainers /\ (p = "/v1/containers/" \/ p = "/v1/containers") \/
  In h [RApi; RModel; RCoreServices; REvents; RSession; RClamavExport; RAudit; RReleases; RBackends].
Proof.
  intros Hp Hs. destruct (serve_mux_longest _ path _ _ (api_registered g)) as (p' & h' & Hs' & Hl).
  { exact Hp. }
  rewrite Hs in Hs'. injection Hs' as <- <-. apply serve_mux_in in Hs as [Hin Hm].
  apply registered_full in Hin. apply HasPrefix_iff in Hp as (t & ->).
  unfold registered, mountInternalProxies in Hin. simpl in Hin.
  repeat (apply elem_of_cons in Hin as [[= -> ->]|Hin];
    [first [by left; split; [|auto] | by right; simpl; tauto | by exfalso; simpl in Hl; lia | by exfalso]|]).
  by apply elem_of_nil in Hin.
Qed.

(** ** The name that is checked and the name that is opened *)

Lemma rev_suffix s p : HasSuffix s p = true -> exists t, reverse p = reverse s +:+ t.
Proof. unfold HasSuffix. intros H. by apply HasPrefix_iff in H. Qed.

(** Below /v1/containers/ and before /terminal, trimming slashes removes the leading one only. *)
Lemma Trim_terminal t : HasSuffix "/terminal" ("/v1/containers/" +:+ t) = true ->
  Trim_slash ("/v1/containers/" +:+ t) = "v1/containers/" +:+ t.
Proof.
  intros H. apply rev_suffix in H as (u & Hu). unfold Trim_slash.
  change (trim_slashes ("/v1/containers/" +:+ t)) with ("v1/containers/" +:+ t).
  change ("/v1/containers/" +:+ t) with (String "/" ("v1/containers/" +:+ t)) in Hu.
  rewrite reverse_cons in Hu. change (reverse "/terminal") with (String "l" (reverse "/termina")) in Hu.
  assert (Hr : trim_slashes (reverse ("v1/containers/" +:+ t)) = reverse ("v1/containers/" +:+ t)).
  { destruct (reverse ("v1/containers/" +:+ t)) as [|c x]; [done|].
    change (String c (x +:+ "/") = String "l" (reverse "/termina" +:+ u)) in Hu. by injection Hu as -> _. }
  by rewrite Hr, reverse_involutive.
Qed.

Lemma terminal_tenant_opened path : HasPrefix "/v1/containers/" path = true -> HasSuffix "/terminal" path = true ->
  exists u rest, split_char "/" path = ["" ; "v1"; "containers"; u] ++ rest /\ terminal_tenant path = u.
Proof.
  intros Hp Hs. apply HasPrefix_iff in Hp as (t & ->). unfold terminal_tenant. rewrite (Trim_terminal t Hs).
  destruct (split_char "/" t) as [|u rest] eqn:E; [by apply split_char_nonempty in E|].
  exists u, rest. split.
  - change (split_char "/" ("/v1/containers/" +:+ t)) with ("" :: "v1" :: "containers" :: split_char "/" t).
    by rewrite E.
  - change (split_char "/" ("v1/containers/" +:+ t)) with ("v1" :: "containers" :: split_char "/" t).
    by rewrite E.
Qed.

Section owns.
Context (decode : string -> option (string * Claims)).
Context (verify : string -> string -> string -> Time -> string -> bool).
Context (tm : TokenManager) (rs : option store) (db_ok : bool) (now : Time).

(** The caller holds a valid access token of the tenant, or of an admin. *)
Definition may_open (r : request) (tenant : string) : Prop :=
  exists c, ValidateAccessToken decode verify tm rs db_ok now (ExtractBearerForUpgrade r).1 = inl c /\
            (HasRole (cl_Roles c) RoleAdmin = true \/ cl_Username c = tenant).

Lemma Upgrade_checked tenant r c : Upgrade decode verify tm rs db_ok now tenant r = inl c -> may_open r tenant.
Proof using.
  unfold Upgrade, may_open. destruct (ExtractBearerForUpgrade r) as [token src]. simpl.
  destruct (String.eqb token ""); [done|]. destruct (ValidateAccessToken _ _ _ _ _ _ _) as [c'|] eqn:Hv; [|done].
  destruct (HasRole _ _) eqn:Hr; [intros [= <-]; exists c'; auto|].
  destruct (String.eqb_spec (cl_Username c') tenant) as [<-|]; simpl; [|done].
  intros [= <-]. eauto.
Qed.

Lemma open_instance_session instances u box : open_instance instances u = WSSession box ->
  box = u +:+ "-container" /\ instances box = Some "Running".
Proof using.
  unfold open_instance. destruct (instances _) as [status|] eqn:E; [|done].
  destruct (String.eqb_spec status "Running") as [->|]; simpl; [|done]. by intros [= <-].
Qed.

Lemma open_instance_peer instances u v url : open_instance instances u <> WSPeer v url.
Proof using. unfold open_instance. destruct (instances _); [|done]. by destruct (negb _). Qed.

(** The outcome is a session for this tenant's box. *)
Definition session_of (instances : string -> option string) (tenant : string) (o : ws_outcome) : Prop :=
  match o with
  | WSError _ => True
  | WSSession box => tenant <> "" /\ box = tenant +:+ "-container" /\ instances box = Some "Running"
  | WSPeer u url => tenant <> "" /\ u = tenant
  end.

Lemma HandleTerminal_session instances peerProxy r u rest :
  split_char "/" (rq_Path r) = ["" ; "v1"; "containers"; u] ++ rest ->
  session_of instances u (HandleTerminal instances peerProxy r).
Proof using.
  intros Hsp. unfold HandleTerminal. rewrite Hsp. cbn [length nth app].
  destruct (_ <? 4)%nat; [done|]. destruct (String.eqb_spec u "") as [|Hu]; [done|].
  assert (Hopen : session_of instances u (open_instance instances u)).
  { destruct (open_instance instances u) as [|box|v url] eqn:E; [done| |by apply open_instance_peer in E].
    apply open_instance_session in E. done. }
  destruct peerProxy as [url|]; [|exact Hopen]. destruct (url _ _) as [x|]; [|exact Hopen].
  destruct (String.eqb x ""); [exact Hopen|]. done.
Qed.

Lemma HandleConsole_session instances path :
  session_of instances (parseConsoleUsername path) (HandleConsole instances path).
Proof using.
  unfold HandleConsole. destruct (String.eqb_spec (parseConsoleUsername path) "") as [|Hu]; [done|].
  destruct (open_instance _ _) as [|box|v url] eqn:E; [done| |by apply open_instance_peer in E].
  apply open_instance_session in E. done.
Qed.

(** C6: a shell or console opens only for its tenant or an admin.  For every path the mux
    hands to the container handler, every method, header and query, an upgrade that ends in
    a session of this host or of a peer is in the running box of a user for whom the
    caller holds a valid access token, the user's own or one with the admin role: the name
    the route checks and the name the handler opens are read from the path by
    different code, and agree. *)
Theorem upgrade_opens_own_box g instances peerProxy r o
  (Hserve : serve_upgrade decode verify tm rs db_ok now g instances peerProxy r = Some o) :
  match o with
  | WSError _ => True
  | WSSession box => exists tenant, box = tenant +:+ "-container" /\ instances box = Some "Running" /\ may_open r tenant
  | WSPeer tenant _ => may_open r tenant
  end.
Proof using.
  unfold serve_upgrade in Hserve.
  destruct (serve_mux _ _) as [[p h]|] eqn:Es; [|done]. destruct h; try done.
  apply serve_mux_in in Es as [Hin Hm]. apply registered_full in Hin.
  assert (Hpat : p = "/v1/containers/" \/ p = "/v1/containers").
  { unfold registered, mountInternalProxies in Hin. simpl in Hin. set_unfold in Hin.
    destruct_or! Hin; simplify_eq; auto. }
  assert (Hmain : forall tenant, session_of instances tenant o -> may_open r tenant ->
            match o with
            | WSError _ => True
            | WSSession box => exists tenant, box = tenant +:+ "-container" /\ instances box = Some "Running" /\ may_open r tenant
            | WSPeer tenant _ => may_open r tenant
            end).
  { intros tenant Hs Hmay. destruct o as [|box|v url]; [done| |].
    - destruct Hs as (_ & H1 & H2). by exists tenant.
    - by destruct Hs as (_ & ->). }
  unfold containerHandler in Hserve. destruct (HasSuffix "/terminal" (rq_Path r)) eqn:Et.
  - injection Hserve as <-. assert (Hpre : HasPrefix "/v1/containers/" (rq_Path r) = true).
    { destruct Hpat as [->| ->]; [exact Hm|]. change (String.eqb "/v1/containers" (rq_Path r) = true) in Hm.
      apply String.eqb_eq in Hm. by rewrite <- Hm in Et. }
    destruct (terminal_tenant_opened _ Hpre Et) as (u & rest & Hsp & Hu). unfold terminal_route in *. rewrite Hu in *.
    destruct (Upgrade _ _ _ _ _ _ u r) as [c|status] eqn:EU; [|done].
    apply (Hmain u); [by eapply HandleTerminal_session|]. by eapply Upgrade_checked.
  - destruct (HasSuffix "/console-attach" (rq_Path r) && g_console g); [|by destruct (_ && _)].
    injection Hserve as <-. unfold console_route in *.
    destruct (Upgrade _ _ _ _ _ _ _ r) as [c|status] eqn:EU; [|done].
    apply (Hmain (parseConsoleUsername (rq_Path r))); [apply HandleConsole_session|]. by eapply Upgrade_checked.
Qed.
End owns.

(** What stands between a client and the API.  Every path below /v1/ is served, and its
    handler runs behind the REST middleware, a tenant-checked upgrade, a token check of the
    handler or the model gateway's token, with one exception: a GET, PUT, POST or DELETE on
    a container path that contains [/labels] reaches the label handlers of a server that
    has them with no check at all. *)
Theorem v1_guarded g method path (Hv1 : HasPrefix "/v1/" path = true) :
  exists k, guard_of g method path = Some k /\
    (k = GNone -> HasPrefix "/v1/containers" path = true /\ Contains path "/labels" = true /\ g_label g = true /\
                  existsb (String.eqb method) ["GET"; "PUT"; "POST"; "DELETE"] = true) /\
    k <> GSentinel /\ k <> GBearerAdmin.
Proof.
  destruct (serve_mux_longest _ path _ _ (api_registered g) Hv1) as (p & h & Hs & _).
  unfold guard_of. rewrite Hs. eexists. split; [reflexivity|].
  destruct (v1_route g path p h Hv1 Hs) as [[-> Hp]|Hin].
  - unfold route_guard. destruct (containerHandler g method path) eqn:Ec; try (split; [done|split; done]).
    split; [|split; done]. intros _. split.
    + apply serve_mux_in in Hs as [_ Hm]. destruct Hp as [->| ->].
      * change (HasPrefix "/v1/containers/" path = true) in Hm. by apply HasPrefix_iff in Hm as (t & ->).
      * change (String.eqb "/v1/containers" path = true) in Hm. apply String.eqb_eq in Hm. by subst path.
    + unfold containerHandler in Ec. destruct (HasSuffix "/terminal" path); [done|].
      destruct (_ && g_console g); [done|].
      destruct (Contains path "/labels"), (g_label g), (existsb _ _); done.
  - simpl in Hin. destruct_or! Hin; subst h; (split; [done|split; done]).
Qed.

(** The exception is real: an anonymous request changes another tenant's labels. *)
Definition label_world : Type := gmap string (gmap string string).
Definition demo_exists (c : string) (w : label_world) : bool := bool_decide (is_Some (w !! c)).
Definition demo_get (u : string) (w : label_world) : option (gmap string string) := w !! (u +:+ "-container").
Definition demo_add (u k v : string) (w : label_world) : bool * label_world :=
  (true, <[u +:+ "-container" := <[k := v]> (default ∅ (w !! (u +:+ "-container")))]> w).

Example labels_without_credentials :
  guard_of full_config "PUT" "/v1/containers/alice/labels" = Some GNone /\
  guard_of full_config "PATCH" "/v1/containers/alice/labels" = Some GBearer /\
  let w : label_world := {["alice-container" := {["env" := "prod"]}]} in
  (HandleSetLabels label_world demo_exists demo_get demo_add "/v1/containers/alice/labels" (Some [("env", "test")]) w).1
  = mkLabelReply 200 {["env" := "test"]}.
Proof. vm_compute. repeat split. Qed.

(** ** The upgrade token *)

(** The subprotocol form.  A browser that offers the marker and a token gets exactly that
    token validated, from the header and not from the query, and the server's
    reply names the marker only, for every token without commas or surrounding spaces
    that is not the marker itself. *)
Theorem subprotocol_token_found r token
  (Hheader : header_get (rq_Header r) "Sec-WebSocket-Protocol" = WSSubprotocolBearer +:+ ", " +:+ token)
  (Hcomma : contains_char "," token = false) (Htrim : TrimSpace (String " " token) = token)
  (Hne : token <> "") (Hmark : token <> WSSubprotocolBearer) :
  ExtractBearerForUpgrade r = (token, TokenSourceSubprotocol) /\ AckSubprotocol r = WSSubprotocolBearer.
Proof.
  assert (Hsplit : splitSubprotocols (WSSubprotocolBearer +:+ ", " +:+ token) = [WSSubprotocolBearer; token]).
  { unfold splitSubprotocols. change (", " +:+ token) with (String "," (String " " token)).
    rewrite split_char_app by done. rewrite split_char_none by (simpl; done).
    cbn [map]. rewrite Htrim. rewrite filter_cons_True by done. by rewrite filter_cons_True. }
  unfold ExtractBearerForUpgrade, AckSubprotocol. rewrite Hheader. unfold subprotocol_token. rewrite Hsplit.
  assert (Hb : String.eqb token WSSubprotocolBearer = false) by (by apply String.eqb_neq).
  assert (He : String.eqb token "" = false) by (by apply String.eqb_neq).
  cbn [after_marker]. rewrite String.eqb_refl. rewrite Hb, He. done.
Qed.

(** The session cookie is the validated token, and lives no longer than it. *)
Theorem session_cookie_bounded decode verify tm rs db_ok now r value maxAge
  (Hset : handleSessionCookieSet decode verify tm rs db_ok now r = inl (value, maxAge)) :
  exists c, ValidateAccessToken decode verify tm rs db_ok now value = inl c /\ 0 <= maxAge /\
    forall exp, cl_ExpiresAt c = Some exp -> now <= exp -> now + maxAge * Second <= exp.
Proof.
  unfold handleSessionCookieSet, requireBearer in Hset.
  destruct (negb (HasPrefix "Bearer " _)); [done|].
  destruct (ValidateAccessToken _ _ _ _ _ _ _) as [c|] eqn:Hv; [|done].
  injection Hset as <- <-. exists c. split; [done|].
  destruct (cl_ExpiresAt c) as [exp|]; [|split; [lia|done]].
  destruct (Z.ltb_spec 0 (Sub exp now)) as [Hpos|]; [|split; [lia|intros e [= <-]; lia]].
  assert (Hsub : Sub exp now <= exp - now).
  { unfold Sub, clamp, minDuration, maxDuration in *. lia. }
  rewrite Z.quot_div_nonneg by (unfold Second; lia).
  pose proof (Z.mul_div_le (Sub exp now) Second ltac:(done)).
  split; [apply Z.div_pos; [lia|done]|]. intros e [= <-] _. lia.
Qed.

(** ** Witnesses *)

Definition open_request : request :=
  mkRequest "GET" "/v1/containers/bob/terminal" "203.0.113.9:4000"
    {["Sec-Websocket-Protocol" := ["containarium.bearer, tok"]]} ∅ Background.

Definition bob_box (c : string) : option string := if String.eqb c "bob-container" then Some "Running" else None.

Lemma upgrade_opens_own_box_witness :
  exists tenant, "bob-container" = tenant +:+ "-container" /\ bob_box "bob-container" = Some "Running" /\
    may_open bob_decode every_verify bob_tm None true 0 open_request tenant.
Proof.
  exact (upgrade_opens_own_box bob_decode every_verify bob_tm None true 0 full_config bob_box None open_request
    (WSSession "bob-container") eq_refl).
Defined.

Lemma v1_guarded_witness : exists k, guard_of full_config "GET" "/v1/containers/bob/terminal" = Some k /\
    (k = GNone -> HasPrefix "/v1/containers" "/v1/containers/bob/terminal" = true /\
                  Contains "/v1/containers/bob/terminal" "/labels" = true /\ g_label full_config = true /\
                  existsb (String.eqb "GET") ["GET"; "PUT"; "POST"; "DELETE"] = true) /\
    k <> GSentinel /\ k <> GBearerAdmin.
Proof. exact (v1_guarded full_config "GET" "/v1/containers/bob/terminal" eq_refl). Defined.

Lemma subprotocol_token_found_witness :
  ExtractBearerForUpgrade open_request = ("tok", TokenSourceSubprotocol) /\
  AckSubprotocol open_request = WSSubprotocolBearer.
Proof.
  apply (subprotocol_token_found open_request "tok"); [reflexivity|reflexivity|reflexivity|discriminate|discriminate].
Defined.

Lemma session_cookie_bounded_witness :
  exists c, ValidateAccessToken bob_decode every_verify bob_tm None true 0 "tok" = inl c /\ 0 <= 3600 /\
    forall exp, cl_ExpiresAt c = Some exp -> 0 <= exp -> 0 + 3600 * Second <= exp.
Proof.
  exact (session_cookie_bounded bob_decode every_verify bob_tm None true 0
    (mkRequest "POST" "/v1/auth/session" "1.2.3.4:1" {["Authorization" := ["Bearer tok"]]} ∅ Background)
    "tok" 3600 eq_refl).
Defined.
