(* ===== verification/SentinelSig.v ===== *)
(** * internal/auth: signatures between sentinel and daemon, derived secrets

    The HMAC scheme of sentinel_hmac.go, the ed25519 scheme and the verifier that
    accepts both of sentinel_ed25519.go, and [DeriveSharedSecret] of derive.go.  HMAC
    is computed from SHA-256.  The ed25519 primitive is a parameter ([Sign], [Verify],
    [NewKeyFromSeed]); the round trip assumes of it that a signature made with a
    private key verifies under that key's public half.  A message is a list of bytes.
    The server's clock lies between 1970 and the year 292 billion.

    A forgery is not excluded by these theorems, since no computation on bytes can
    exclude it: what is shown is that whatever a signature was made for is what it
    is accepted for, unless two different messages with one SHA-256 digest are at hand
    ([sha256_collision]). *)

From Stdlib Require Import Ascii.
From S2P Require Import Prelude GoStrings GoStrconv GoBytes.
#[local] Open Scope string_scope.
#[local] Open Scope list_scope.
#[local] Open Scope Z_scope.

(** ** HMAC-SHA256 *)

Definition hmac_block : nat := 64.

(** A key longer than a block is hashed; a shorter one is padded with zeros. *)
Definition hmac_key (key : list Z) : list Z :=
  let k := if (hmac_block <? length key)%nat then sha256 key else key in
  k ++ replicate (hmac_block - length k) 0.

Definition hmac_pad (byte : Z) (key : list Z) : list Z := map (Z.lxor byte) (hmac_key key).

Definition hmac_sha256 (key msg : list Z) : list Z :=
  sha256 (hmac_pad 92 key ++ sha256 (hmac_pad 54 key ++ msg)).

(** Test cases 1 and 2 of RFC 4231. *)
Example hmac_vectors :
  hexEncode (hmac_sha256 (replicate 20 11) (bytes_of_string "Hi There"))
    = "b0344c61d8db38535ca8afceaf0bf12b881dc200c9833da726e9376c2e32cff7" /\
  hexEncode (hmac_sha256 (bytes_of_string "Jefe") (bytes_of_string "what do ya want for nothing?"))
    = "5bdcc146bf60754e6a042426089575c75a003f089d2739839dec58b964ec3843".
Proof. vm_compute. split; reflexivity. Qed.

(** ** The HMAC scheme *)

Definition SentinelMaxClockSkew : Duration := 5 * Minute.
Definition SentinelMinSecretLen : Z := 32.

(** [t.Unix()]. *)
Definition Unix (t : Time) : Z := wrap i64 (UnixNano t / Second).

Definition newline : list Z := [10].

Definition computeSentinelSignature (secret : list Z) (method path ts : string) : string :=
  hexEncode (hmac_sha256 secret
    (bytes_of_string method ++ newline ++ bytes_of_string path ++ newline ++ bytes_of_string ts)).

Definition computeBodySignature (secret body : list Z) (ts : string) : string :=
  hexEncode (hmac_sha256 secret (body ++ newline ++ bytes_of_string ts)).

(** The two headers, empty when absent. *)
Record sentinel_headers := mkSentinel { sh_ts : string; sh_sig : string }.

Definition SignSentinelRequest (now : Time) (method path : string) (secret : list Z) : sentinel_headers :=
  let ts := Itoa (Unix now) in
  mkSentinel ts (computeSentinelSignature secret method path ts).

(** The comparison in int64; [true] is within the window. *)
Definition skew_ok (now : Time) (ts : Z) : bool :=
  let maxSkew := Z.quot SentinelMaxClockSkew Second in
  let delta := wrap i64 (Unix now - ts) in
  negb ((maxSkew <? delta) || (maxSkew <? wrap i64 (- delta))).

(** [true] is a nil error. *)
Definition VerifySentinelRequest (h : sentinel_headers) (method path : string) (secret : list Z) (now : Time) : bool :=
  if String.eqb (sh_ts h) "" || String.eqb (sh_sig h) "" then false
  else match ParseInt 64 (sh_ts h) with
       | None => false
       | Some ts => if negb (skew_ok now ts) then false
                    else String.eqb (computeSentinelSignature secret method path (sh_ts h)) (sh_sig h)
       end.

(** The result of a middleware: the wrapped handler runs, or a 401 of one of two kinds. *)
Inductive sentinel_reply := Served | NotConfigured | AuthFailed.

(** The instant of the last warning, in nanoseconds; 0 before the first.  The result says
    whether this call logs. *)
Definition sentinelMisconfigLogInterval : Duration := 60 * Second.

Definition logDaemonSentinelMisconfigOncePerInterval (now : Time) (last : Z) : bool * Z :=
  let n := wrap i64 (UnixNano now) in
  if negb (last =? 0) && (wrap i64 (n - last) <? sentinelMisconfigLogInterval) then (false, last)
  else (true, n).

Definition SentinelHMACMiddleware (secret : list Z) (h : sentinel_headers) (method path : string) (now : Time)
  (last : Z) : sentinel_reply * Z :=
  if negb (SentinelMinSecretLen <=? Z.of_nat (length secret))
  then (NotConfigured, (logDaemonSentinelMisconfigOncePerInterval now last).2)
  else if VerifySentinelRequest h method path secret now then (Served, last) else (AuthFailed, last).

(** [None] leaves the headers out. *)
Definition SignSentinelResponse (now : Time) (secret body : list Z) : option sentinel_headers :=
  if Z.of_nat (length secret) <? SentinelMinSecretLen then None
  else let ts := Itoa (Unix now) in Some (mkSentinel ts (computeBodySignature secret body ts)).

Definition VerifySentinelResponse (h : sentinel_headers) (secret body : list Z) (now : Time) : bool :=
  if Z.of_nat (length secret) <? SentinelMinSecretLen then false
  else if String.eqb (sh_ts h) "" || String.eqb (sh_sig h) "" then false
  else match ParseInt 64 (sh_ts h) with
       | None => false
       | Some ts => if negb (skew_ok now ts) then false
                    else String.eqb (computeBodySignature secret body (sh_ts h)) (sh_sig h)
       end.

(** ** The ed25519 scheme *)

Definition PublicKeySize : nat := 32.
Definition PrivateKeySize : nat := 64.
Definition SeedSize : nat := 32.
Definition SignatureSize : nat := 64.
Definition sentinelEd25519SigPrefix : string := "ed25519:".

Definition DecodeString (s : string) : option (list Z) := StdDecode (bytes_of_string s).

Definition ParseSentinelPublicKey (b64 : string) : option (list Z) :=
  match DecodeString (TrimSpace b64) with
  | None => None
  | Some raw => if negb (length raw =? PublicKeySize)%nat then None else Some raw
  end.

Definition sentinelRequestMessage (method path ts : string) : list Z :=
  bytes_of_string (method +:+ String "010" (path +:+ String "010" ts)).
Definition sentinelBodyMessage (body : list Z) (ts : string) : list Z :=
  body ++ newline ++ bytes_of_string ts.

Definition sentinelTimestampWithinSkew (tsStr : string) (now : Time) : bool :=
  match ParseInt 64 tsStr with
  | None => false
  | Some ts =>
      let maxSkew := Z.quot SentinelMaxClockSkew Second in
      let delta := wrap i64 (Unix now - ts) in
      (delta <=? maxSkew) && (wrap i64 (- delta) <=? maxSkew)
  end.

(** An absent key is the empty list. *)
Record SentinelVerifier := mkVerifier { v_pub : list Z; v_secret : list Z }.

Definition NewSentinelVerifier (pub hmacSecret : list Z) : SentinelVerifier :=
  mkVerifier (if (length pub =? PublicKeySize)%nat then pub else [])
             (if SentinelMinSecretLen <=? Z.of_nat (length hmacSecret) then hmacSecret else []).

Definition hasEd25519 (v : SentinelVerifier) : bool := (length (v_pub v) =? PublicKeySize)%nat.
Definition hasHMAC (v : SentinelVerifier) : bool := SentinelMinSecretLen <=? Z.of_nat (length (v_secret v)).
Definition Configured (v : SentinelVerifier) : bool := hasEd25519 v || hasHMAC v.

Section ed25519.
Context (Sign : list Z -> list Z -> list Z) (Verify : list Z -> list Z -> list Z -> bool).
Context (NewKeyFromSeed : list Z -> list Z).

Definition ParseSentinelSigningKey (b64 : string) : option (list Z) :=
  match DecodeString (TrimSpace b64) with
  | None => None
  | Some raw => if (length raw =? PrivateKeySize)%nat then Some raw
                else if (length raw =? SeedSize)%nat then Some (NewKeyFromSeed raw)
                else None
  end.

Definition tagged (sig : list Z) : string := sentinelEd25519SigPrefix +:+ string_of_bytes (StdEncode sig).

Definition SignSentinelRequestEd25519 (now : Time) (method path : string) (priv : list Z) : sentinel_headers :=
  let ts := Itoa (Unix now) in
  mkSentinel ts (tagged (Sign priv (sentinelRequestMessage method path ts))).

Definition SignSentinelResponseEd25519 (now : Time) (priv body : list Z) : option sentinel_headers :=
  if negb (length priv =? PrivateKeySize)%nat then None
  else let ts := Itoa (Unix now) in
       Some (mkSentinel ts (tagged (Sign priv (sentinelBodyMessage body ts)))).

Definition verifyEd25519 (v : SentinelVerifier) (msg : list Z) (taggedSig : string) : bool :=
  match DecodeString (TrimPrefix taggedSig sentinelEd25519SigPrefix) with
  | None => false
  | Some raw => if negb (length raw =? SignatureSize)%nat then false else Verify (v_pub v) msg raw
  end.

Definition verifySig (v : SentinelVerifier) (msg : list Z) (sig method path ts : string) : bool :=
  if HasPrefix sentinelEd25519SigPrefix sig then
    if negb (hasEd25519 v) then false else verifyEd25519 v msg sig
  else if negb (hasHMAC v) then false
  else String.eqb (computeSentinelSignature (v_secret v) method path ts) sig.

Definition VerifyRequest (v : SentinelVerifier) (h : sentinel_headers) (method path : string) (now : Time) : bool :=
  if String.eqb (sh_ts h) "" || String.eqb (sh_sig h) "" || negb (sentinelTimestampWithinSkew (sh_ts h) now) then false
  else verifySig v (sentinelRequestMessage method path (sh_ts h)) (sh_sig h) method path (sh_ts h).

Definition VerifyResponse (v : SentinelVerifier) (h : sentinel_headers) (body : list Z) (now : Time) : bool :=
  if String.eqb (sh_ts h) "" || String.eqb (sh_sig h) "" || negb (sentinelTimestampWithinSkew (sh_ts h) now) then false
  else if HasPrefix sentinelEd25519SigPrefix (sh_sig h) then
         if negb (hasEd25519 v) then false else verifyEd25519 v (sentinelBodyMessage body (sh_ts h)) (sh_sig h)
       else if negb (hasHMAC v) then false
       else String.eqb (computeBodySignature (v_secret v) body (sh_ts h)) (sh_sig h).

Definition Middleware (v : SentinelVerifier) (h : sentinel_headers) (method path : string) (now : Time) (last : Z)
  : sentinel_reply * Z :=
  if negb (Configured v) then (NotConfigured, (logDaemonSentinelMisconfigOncePerInterval now last).2)
  else if VerifyRequest v h method path now then (Served, last) else (AuthFailed, last).
End ed25519.

(** ** Derived secrets *)

(** [secretKey] is empty for a manager without a key. *)
Definition DeriveSharedSecret (secretKey : list Z) (purpose id : string) : string :=
  if (length secretKey =? 0)%nat || String.eqb purpose "" || String.eqb id "" then ""
  else hexEncode (hmac_sha256 secretKey (bytes_of_string purpose ++ [0] ++ bytes_of_string id)).

(** ** Messages *)

Lemma bytes_app s t : bytes_of_string (s +:+ t) = bytes_of_string s ++ bytes_of_string t.
Proof.
  induction s as [|c s IH]; [done|].
  change (byte_of_ascii c :: bytes_of_string (s +:+ t) = (byte_of_ascii c :: bytes_of_string s) ++ bytes_of_string t).
  by rewrite IH.
Qed.

Lemma byte_of_ascii_inj a b : byte_of_ascii a = byte_of_ascii b -> a = b.
Proof.
  unfold byte_of_ascii. intros H. apply Nat2Z.inj in H. apply (f_equal ascii_of_nat) in H.
  by rewrite !ascii_nat_embedding in H.
Qed.

Lemma bytes_inj s t : bytes_of_string s = bytes_of_string t -> s = t.
Proof.
  revert t. induction s as [|a s IH]; intros [|b t] H; try done.
  injection H as H1 H2. apply byte_of_ascii_inj in H1 as ->. by rewrite (IH t).
Qed.

Lemma bytes_string_of_bytes b : Forall is_byte b -> bytes_of_string (string_of_bytes b) = b.
Proof.
  induction 1 as [|x b Hx _ IH]; [done|]. unfold is_byte in Hx.
  cbn [string_of_bytes bytes_of_string]. rewrite IH. f_equal. unfold byte_of_ascii.
  rewrite nat_ascii_embedding by lia. lia.
Qed.

Lemma sextet_byte v : is_byte (sextet std_chars v).
Proof.
  assert (H : Forall is_byte std_chars).
  { apply Forall_forall. intros x Hx. apply list_elem_of_In in Hx. revert x Hx. apply List.Forall_forall.
    unfold is_byte. vm_compute. repeat constructor; discriminate. }
  unfold sextet. destruct (nth_in_or_default (Z.to_nat v) std_chars 0) as [Hin| ->]; [|done].
  rewrite List.Forall_forall in H. by apply H.
Qed.

Lemma StdEncode_bytes b : Forall is_byte (StdEncode b).
Proof.
  unfold StdEncode. induction b as [|x|x y|x y z b IH] using list_ind3; cbn [Encode app];
    repeat (apply Forall_cons; split; [first [apply sextet_byte|done]|]); try apply Forall_nil_2. exact IH.
Qed.

Lemma request_message method path ts : sentinelRequestMessage method path ts =
  bytes_of_string method ++ newline ++ bytes_of_string path ++ newline ++ bytes_of_string ts.
Proof. unfold sentinelRequestMessage. rewrite bytes_app. cbn [bytes_of_string]. by rewrite bytes_app. Qed.

(** A byte that occurs in neither prefix separates unambiguously. *)
Lemma cut_at (sep : Z) a a' r r' : sep ∉ a -> sep ∉ a' -> a ++ sep :: r = a' ++ sep :: r' -> a = a' /\ r = r'.
Proof.
  revert a'. induction a as [|x a IH]; intros [|y a'] Ha Ha' H; cbn [app] in H.
  - injection H as ->. done.
  - injection H as -> _. set_solver.
  - injection H as -> _. set_solver.
  - injection H as -> H. destruct (IH a') as [-> ->]; [set_solver|set_solver|done|done].
Qed.

Lemma cut_at_last (sep : Z) a a' r r' : sep ∉ r -> sep ∉ r' -> a ++ sep :: r = a' ++ sep :: r' -> a = a' /\ r = r'.
Proof.
  intros Hr Hr' H. apply (f_equal (@rev Z)) in H. rewrite !rev_app_distr in H. simpl in H. rewrite <- !app_assoc in H.
  destruct (cut_at sep (rev r) (rev r') (rev a) (rev a')) as [H1 H2]; [|  |exact H|].
  - intros Hin. apply Hr. apply list_elem_of_In. rewrite in_rev. by apply list_elem_of_In.
  - intros Hin. apply Hr'. apply list_elem_of_In. rewrite in_rev. by apply list_elem_of_In.
  - split; [|]; [rewrite <- (rev_involutive a), <- (rev_involutive a') | rewrite <- (rev_involutive r), <- (rev_involutive r')];
      congruence.
Qed.

Lemma elem_of_bytes c s : byte_of_ascii c ∈ bytes_of_string s <-> contains_char c s = true.
Proof.
  induction s as [|a s IH]; cbn [bytes_of_string contains_char].
  - split; [by intros ?%elem_of_nil|done].
  - rewrite elem_of_cons, orb_true_iff, IH, Ascii.eqb_eq. split; intros [H|H]; auto.
    + left. symmetry. by apply byte_of_ascii_inj.
    + left. by subst.
Qed.

Lemma not_in_bytes c s : contains_char c s = false -> byte_of_ascii c ∉ bytes_of_string s.
Proof. intros H Hin. apply elem_of_bytes in Hin. congruence. Qed.

(** A text that parses as an integer has no newline. *)
Lemma digits_from_plain c s : digit_of c = None -> forall acc, is_Some (digits_from acc s) -> contains_char c s = false.
Proof.
  intros Hc. induction s as [|a s IH]; intros acc Hs; [done|]. cbn [digits_from contains_char] in *.
  destruct (Ascii.eqb_spec a c) as [->|Hne]; [rewrite Hc in Hs; by destruct Hs|].
  destruct (digit_of a); [by eapply IH|by destruct Hs].
Qed.

Lemma signed_plain c bits neg s v : digit_of c = None -> signed bits neg s = Some v -> contains_char c s = false.
Proof.
  unfold signed, parse_uint. intros Hc H. destruct s as [|a s]; [done|].
  destruct (digits_from 0 (String a s)) eqn:E; [|done]. by apply (digits_from_plain c _ Hc 0).
Qed.

Lemma ParseInt_no_newline s v : ParseInt 64 s = Some v -> contains_char "010" s = false.
Proof.
  intros H. destruct (ParseInt_cases 64 s) as [(s' & -> & Hp)|[(s' & -> & Hp)|Hp]]; rewrite Hp in H;
    apply (signed_plain "010") in H; done.
Qed.

(** Two different inputs of SHA-256 with one digest. *)
Definition collide (a b : list Z) : Prop := a <> b /\ sha256 a = sha256 b.

(** Two messages whose inner or outer hashes under a key collide. *)
Definition hmac_collision (key m m' : list Z) : Prop :=
  collide (hmac_pad 54 key ++ m) (hmac_pad 54 key ++ m') \/
  collide (hmac_pad 92 key ++ sha256 (hmac_pad 54 key ++ m)) (hmac_pad 92 key ++ sha256 (hmac_pad 54 key ++ m')).

Lemma hmac_binds key m m' : hexEncode (hmac_sha256 key m) = hexEncode (hmac_sha256 key m') ->
  m = m' \/ hmac_collision key m m'.
Proof.
  intros H. apply hexEncode_inj in H; [|apply sha256_bytes|apply sha256_bytes]. unfold hmac_sha256 in H.
  destruct (decide (m = m')) as [|Hne]; [by left|right].
  destruct (decide (sha256 (hmac_pad 54 key ++ m) = sha256 (hmac_pad 54 key ++ m'))) as [He|Hn].
  - left. split; [|done]. intros Ha. by apply app_inv_head in Ha.
  - right. split; [|done]. intros Ha. by apply app_inv_head in Ha.
Qed.

(** ** The window *)

Definition in_window (now : Time) (ts : Z) : Prop := Z.abs (Unix now - ts) <= 300 \/ ts = Unix now - 2 ^ 63.

Lemma Unix_in_type now : in_type i64 (Unix now).
Proof. by apply wrap_in_type. Qed.

(** The server's clock is between 1970 and the year 146 billion. *)
Definition clock_ok (now : Time) : Prop := 0 <= Unix now < 2 ^ 62.

Lemma wrap_up d : 2 ^ 63 <= d < 2 ^ 64 -> wrap i64 d = d - 2 ^ 64.
Proof.
  intros Hd. unfold wrap. cbn [it_signed it_bits i64]. change (2 ^ (64 - 1)) with (2 ^ 63).
  rewrite <- (Z.mod_add _ (-1)) by done. rewrite Z.mod_small by lia. lia.
Qed.

Lemma skew_window now ts : clock_ok now -> in_type i64 ts -> skew_ok now ts = true <-> in_window now ts.
Proof.
  intros [Hn Hm] Ht. unfold skew_ok, in_window. change (Z.quot SentinelMaxClockSkew Second) with 300.
  rewrite negb_true_iff, orb_false_iff, !Z.ltb_ge. set (d := Unix now - ts).
  assert (Hd : - 2 ^ 63 < d <= 2 ^ 62 + 2 ^ 63) by (unfold d; type_bounds).
  assert (He : ts = Unix now - 2 ^ 63 <-> d = 2 ^ 63) by (unfold d; lia). rewrite He. clearbody d.
  destruct (Z.lt_ge_cases d (2 ^ 63)) as [Hs|Hb].
  - rewrite (wrap_in_type_id i64 d) by (done || type_bounds).
    rewrite (wrap_in_type_id i64 (- d)) by (done || type_bounds). lia.
  - rewrite (wrap_up d) by lia. destruct (Z.eq_dec d (2 ^ 63)) as [->|Hne].
    + change (wrap i64 (- (2 ^ 63 - 2 ^ 64))) with (- 2 ^ 63). lia.
    + rewrite (wrap_in_type_id i64) by (done || type_bounds). lia.
Qed.

Lemma within_skew s now : sentinelTimestampWithinSkew s now =
  match ParseInt 64 s with None => false | Some ts => skew_ok now ts end.
Proof.
  unfold sentinelTimestampWithinSkew, skew_ok. destruct (ParseInt 64 s); [|done].
  by rewrite negb_orb, !Z.leb_antisym.
Qed.

(** The header of a signature made at [t]. *)
Lemma stamped t : ParseInt 64 (Itoa (Unix t)) = Some (Unix t) /\ String.eqb (Itoa (Unix t)) "" = false.
Proof.
  pose proof (ParseInt_Itoa _ (Unix_in_type t)) as H. split; [done|]. by destruct (Itoa (Unix t)).
Qed.

Lemma hmac_not_empty key m : hexEncode (hmac_sha256 key m) <> "".
Proof.
  unfold hmac_sha256. set (x := _ ++ sha256 _). pose proof (length_sha256 x) as H. clearbody x.
  by destruct (sha256 x).
Qed.

(** A hex text has no colon, so it never carries the tag. *)
Lemma hex_no_colon b : Forall is_byte b -> contains_char ":" (hexEncode b) = false.
Proof.
  assert (Hd : forall d, 0 <= d < 16 -> Ascii.eqb (hex_digit d) ":" = false).
  { intros d Hd. assert (Hall : forallb (fun d => negb (Ascii.eqb (hex_digit d) ":")) (map Z.of_nat (seq 0 16)) = true) by reflexivity.
    rewrite forallb_forall in Hall. specialize (Hall d). apply negb_true_iff, Hall.
    apply in_map_iff. exists (Z.to_nat d). split; [lia|]. apply in_seq. lia. }
  induction 1 as [|x b Hx _ IH]; [done|]. cbn [hexEncode contains_char]. unfold is_byte in Hx.
  rewrite !Hd, IH; [done|apply Z.mod_pos_bound; lia|]. split; [apply Z.div_pos; lia|apply Z.div_lt_upper_bound; lia].
Qed.

Lemma hmac_untagged key m : HasPrefix sentinelEd25519SigPrefix (hexEncode (hmac_sha256 key m)) = false.
Proof.
  pose proof (hex_no_colon (hmac_sha256 key m) (sha256_bytes _)) as H.
  destruct (HasPrefix _ _) eqn:E; [|done]. apply HasPrefix_iff in E as (t & E). rewrite E in H. done.
Qed.

(** ** Properties *)

(** C7: what the request verifier accepts.  Exactly the requests whose timestamp is an int64
    within five minutes of the clock, or 2^63 seconds before it, where the difference
    overflows, and whose signature header is the signature of the configured kind: an
    ed25519 one under a key of the right size, tagged, or a bare HMAC under a secret of at
    least 32 bytes.  A tagged signature is never compared with the HMAC. *)
Theorem verifier_accepts Verify pub secret h method path now (Hclock : clock_ok now) :
  VerifyRequest Verify (NewSentinelVerifier pub secret) h method path now = true <->
  exists ts, ParseInt 64 (sh_ts h) = Some ts /\ in_window now ts /\
    ((exists b64 raw, length pub = PublicKeySize /\ sh_sig h = sentinelEd25519SigPrefix +:+ b64 /\
        DecodeString b64 = Some raw /\ length raw = SignatureSize /\
        Verify pub (sentinelRequestMessage method path (sh_ts h)) raw = true) \/
     (SentinelMinSecretLen <= Z.of_nat (length secret) /\
        sh_sig h = computeSentinelSignature secret method path (sh_ts h))).
Proof.
  unfold VerifyRequest. rewrite within_skew.
  destruct (ParseInt 64 (sh_ts h)) as [ts|] eqn:Hts.
  2:{ rewrite orb_true_r. split; [done|]. by intros (ts & ? & _). }
  assert (Hne : String.eqb (sh_ts h) "" = false) by (by destruct (sh_ts h)).
  rewrite Hne. cbn [orb]. pose proof (skew_window now ts Hclock (ParseInt_in_type 64 _ _ Hts)) as Hw.
  assert (Hpub : hasEd25519 (NewSentinelVerifier pub secret) = (length pub =? PublicKeySize)%nat).
  { unfold hasEd25519, NewSentinelVerifier. cbn [v_pub]. destruct (length pub =? PublicKeySize)%nat eqn:E; [exact E|reflexivity]. }
  assert (Hsec : hasHMAC (NewSentinelVerifier pub secret) = (SentinelMinSecretLen <=? Z.of_nat (length secret))).
  { unfold hasHMAC, NewSentinelVerifier. cbn [v_secret]. destruct (SentinelMinSecretLen <=? Z.of_nat (length secret)) eqn:E; [exact E|reflexivity]. }
  unfold verifySig. rewrite Hpub, Hsec. split.
  - intros H. exists ts. split; [done|].
    destruct (String.eqb_spec (sh_sig h) "") as [|Hsig]; [done|]. destruct (skew_ok now ts); [|done].
    split; [by apply Hw|]. cbn [orb negb] in H. destruct (HasPrefix _ _) eqn:Htag.
    + left. destruct (Nat.eqb_spec (length pub) PublicKeySize) as [Hl|]; [|done]. cbn [negb] in H.
      apply HasPrefix_iff in Htag as (b64 & Hb). unfold verifyEd25519 in H. rewrite Hb, TrimPrefix_app in H.
      destruct (DecodeString b64) as [raw|] eqn:Hd; [|done].
      destruct (Nat.eqb_spec (length raw) SignatureSize) as [Hr|]; [|done]. cbn [negb] in H.
      exists b64, raw. unfold NewSentinelVerifier in H. cbn [v_pub] in H. rewrite (proj2 (Nat.eqb_eq _ _) Hl) in H. done.
    + right. destruct (Z.leb_spec SentinelMinSecretLen (Z.of_nat (length secret))) as [Hl|]; [|done]. cbn [negb] in H.
      split; [done|]. apply String.eqb_eq in H. unfold NewSentinelVerifier in H. cbn [v_secret] in H.
      rewrite (proj2 (Z.leb_le _ _) Hl) in H. done.
  - intros (ts' & [= <-] & Hin & Hcases). apply Hw in Hin as ->.
    destruct Hcases as [(b64 & raw & Hl & Hsig & Hd & Hr & Hv)|[Hl Hsig]].
    + rewrite Hsig, HasPrefix_app. cbn [orb negb]. rewrite (proj2 (Nat.eqb_eq _ _) Hl). cbn [negb].
      unfold verifyEd25519. rewrite TrimPrefix_app, Hd, (proj2 (Nat.eqb_eq _ _) Hr). cbn [negb].
      unfold NewSentinelVerifier. cbn [v_pub]. by rewrite (proj2 (Nat.eqb_eq _ _) Hl).
    + rewrite Hsig. unfold computeSentinelSignature at 2. rewrite hmac_untagged.
      assert (Hz : String.eqb (computeSentinelSignature secret method path (sh_ts h)) "" = false).
      { apply String.eqb_neq. apply hmac_not_empty. }
      rewrite Hz. cbn [orb negb]. rewrite (proj2 (Z.leb_le _ _) Hl). cbn [negb].
      unfold NewSentinelVerifier. cbn [v_secret]. rewrite (proj2 (Z.leb_le _ _) Hl). apply String.eqb_refl.
Qed.

Lemma near_window t now : Z.abs (Unix now - Unix t) <= 300 -> in_window now (Unix t).
Proof. by left. Qed.

(** Signing and verifying fit.  A request signed by either scheme is accepted within five
    minutes by every verifier that holds the counterpart of the key, whatever else it is
    configured with, for a primitive whose signatures verify under the signer's public key. *)
Theorem signed_requests_verify Sign Verify pub priv secret t now method path
  (Hclock : clock_ok now) (Hskew : Z.abs (Unix now - Unix t) <= 300)
  (Hpair : forall m, Verify pub m (Sign priv m) = true /\ length (Sign priv m) = SignatureSize /\ Forall is_byte (Sign priv m)) :
  (length pub = PublicKeySize -> forall other,
     VerifyRequest Verify (NewSentinelVerifier pub other)
       (SignSentinelRequestEd25519 Sign t method path priv) method path now = true) /\
  (SentinelMinSecretLen <= Z.of_nat (length secret) -> forall other,
     VerifyRequest Verify (NewSentinelVerifier other secret)
       (SignSentinelRequest t method path secret) method path now = true).
Proof.
  destruct (stamped t) as [Hts _]. split.
  - intros Hl other. apply verifier_accepts; [done|]. exists (Unix t). split; [exact Hts|].
    split; [by apply near_window|]. left.
    set (m := sentinelRequestMessage method path (Itoa (Unix t))). destruct (Hpair m) as (Hv & Hlen & Hb).
    exists (string_of_bytes (StdEncode (Sign priv m))), (Sign priv m). split; [done|]. split; [done|].
    split; [|split; [done|exact Hv]]. unfold DecodeString. rewrite bytes_string_of_bytes; [by apply StdDecode_Encode|].
    apply StdEncode_bytes.
  - intros Hl other. apply verifier_accepts; [done|]. exists (Unix t). split; [exact Hts|].
    split; [by apply near_window|]. right. done.
Qed.

(** C8: an HMAC signature is good for one request.  If the same signature header is accepted
    for two requests, at any clocks and with any timestamps, the two have the same
    method, path and timestamp, or two different inputs of SHA-256 with one digest can be
    read off them.  Methods are tokens; a path may contain any byte, newlines included. *)
Theorem signature_binds secret sig now now' method method' path path' ts ts'
  (Hm : contains_char "010" method = false) (Hm' : contains_char "010" method' = false)
  (H1 : VerifySentinelRequest (mkSentinel ts sig) method path secret now = true)
  (H2 : VerifySentinelRequest (mkSentinel ts' sig) method' path' secret now' = true) :
  (method = method' /\ path = path' /\ ts = ts') \/
  hmac_collision secret (sentinelRequestMessage method path ts) (sentinelRequestMessage method' path' ts').
Proof.
  assert (Hacc : forall m p t n, VerifySentinelRequest (mkSentinel t sig) m p secret n = true ->
            contains_char "010" t = false /\ computeSentinelSignature secret m p t = sig).
  { intros m p t n. unfold VerifySentinelRequest. cbn [sh_ts sh_sig]. destruct (_ || _); [done|].
    destruct (ParseInt 64 t) as [z|] eqn:E; [|done]. destruct (negb _); [done|].
    intros He%String.eqb_eq. split; [by eapply ParseInt_no_newline|done]. }
  destruct (Hacc _ _ _ _ H1) as [Ht He]. destruct (Hacc _ _ _ _ H2) as [Ht' He'].
  rewrite <- He' in He. unfold computeSentinelSignature in He. rewrite <- !request_message in He.
  destruct (hmac_binds _ _ _ He) as [Heq|Hc]; [left|by right].
  rewrite !request_message in Heq. unfold newline in Heq. cbn [app] in Heq.
  apply cut_at in Heq as [Hmm Heq]; [|by apply (not_in_bytes "010")|by apply (not_in_bytes "010")].
  apply cut_at_last in Heq as [Hp Htt]; [|by apply (not_in_bytes "010")|by apply (not_in_bytes "010")].
  apply bytes_inj in Hmm, Hp, Htt. done.
Qed.

(** Without a usable key nothing is served.  A verifier with neither a public key of 32
    bytes nor a secret of 32 refuses every request, whatever it carries, and the HMAC
    middleware does so for a short secret. *)
Theorem unconfigured_refuses Verify pub secret h method path now last
  (Hpub : length pub <> PublicKeySize) (Hsec : Z.of_nat (length secret) < SentinelMinSecretLen) :
  (Middleware Verify (NewSentinelVerifier pub secret) h method path now last).1 = NotConfigured /\
  (SentinelHMACMiddleware secret h method path now last).1 = NotConfigured.
Proof.
  unfold Middleware, SentinelHMACMiddleware, Configured, hasEd25519, hasHMAC, NewSentinelVerifier. cbn [v_pub v_secret].
  rewrite (proj2 (Nat.eqb_neq _ _) Hpub), (proj2 (Z.leb_gt _ _) Hsec). done.
Qed.

(** Derived secrets are separated by purpose and by component.  Two pairs that derive the
    same non-empty secret are the same pair, for purposes without a NUL byte, or two
    different inputs of SHA-256 with one digest can be read off them. *)
Theorem derived_secrets_separate key purpose purpose' id id'
  (Hp : contains_char "000" purpose = false) (Hp' : contains_char "000" purpose' = false)
  (Hne : DeriveSharedSecret key purpose id <> "")
  (Heq : DeriveSharedSecret key purpose id = DeriveSharedSecret key purpose' id') :
  (purpose = purpose' /\ id = id') \/
  hmac_collision key (bytes_of_string purpose ++ [0] ++ bytes_of_string id)
                     (bytes_of_string purpose' ++ [0] ++ bytes_of_string id').
Proof.
  unfold DeriveSharedSecret in *. destruct (_ || _) eqn:E; [done|]. destruct (_ || _ || _) eqn:E' in Heq.
  { by apply hmac_not_empty in Heq. }
  destruct (hmac_binds _ _ _ Heq) as [H|Hc]; [left|by right]. cbn [app] in H.
  apply cut_at in H as [H1 H2]; [|by apply (not_in_bytes "000")|by apply (not_in_bytes "000")].
  apply bytes_inj in H1, H2. done.
Qed.

(** ** Witnesses and examples *)

Definition demo_now : Time := UnixTime (1700000000 * Second).
Definition demo_secret : list Z := bytes_of_string "0123456789abcdef0123456789abcdef".
Definition demo_pub : list Z := replicate 32 7.
Definition demo_sign (priv m : list Z) : list Z := sha256 m ++ sha256 m.
Definition demo_verify (pub m sig : list Z) : bool := bool_decide (sig = sha256 m ++ sha256 m).
Definition demo_headers : sentinel_headers := SignSentinelRequest demo_now "GET" "/certs" demo_secret.

Lemma demo_clock : clock_ok demo_now.
Proof. unfold clock_ok. vm_compute. split; [discriminate|reflexivity]. Qed.

Lemma demo_pair m : demo_verify demo_pub m (demo_sign [] m) = true /\ length (demo_sign [] m) = SignatureSize /\
  Forall is_byte (demo_sign [] m).
Proof.
  unfold demo_verify, demo_sign. split; [by apply bool_decide_eq_true|].
  split; [rewrite length_app; by rewrite !length_sha256|]. apply Forall_app. split; apply sha256_bytes.
Qed.

Lemma verifier_accepts_witness :
  VerifyRequest demo_verify (NewSentinelVerifier demo_pub demo_secret) demo_headers "GET" "/certs" demo_now = true.
Proof.
  apply (verifier_accepts demo_verify demo_pub demo_secret demo_headers "GET" "/certs" demo_now demo_clock).
  exists 1700000000. split; [vm_compute; reflexivity|]. split; [left; vm_compute; discriminate|].
  right. split; [vm_compute; discriminate|]. vm_compute. reflexivity.
Defined.

Lemma signed_requests_verify_witness :
  VerifyRequest demo_verify (NewSentinelVerifier demo_pub [])
    (SignSentinelRequestEd25519 demo_sign (demo_now - 200 * Second) "GET" "/certs" []) "GET" "/certs" demo_now = true /\
  VerifyRequest demo_verify (NewSentinelVerifier [] demo_secret)
    (SignSentinelRequest (demo_now - 200 * Second) "GET" "/certs" demo_secret) "GET" "/certs" demo_now = true.
Proof.
  assert (Hs : Z.abs (Unix demo_now - Unix (demo_now - 200 * Second)) <= 300) by (vm_compute; discriminate).
  destruct (signed_requests_verify demo_sign demo_verify demo_pub [] demo_secret (demo_now - 200 * Second) demo_now
    "GET" "/certs" demo_clock Hs demo_pair) as [H1 H2].
  split; [exact (H1 eq_refl [])|]. apply H2. vm_compute. discriminate.
Defined.

Lemma demo_headers_eta : demo_headers = mkSentinel (sh_ts demo_headers) (sh_sig demo_headers).
Proof. unfold demo_headers. generalize (SignSentinelRequest demo_now "GET" "/certs" demo_secret). by intros []. Qed.

Lemma demo_accepted : VerifySentinelRequest demo_headers "GET" "/certs" demo_secret demo_now = true.
Proof. vm_compute. reflexivity. Qed.

Lemma signature_binds_witness :
  VerifySentinelRequest demo_headers "GET" "/certs" demo_secret demo_now = true /\
  (("GET" = "GET" /\ "/certs" = "/certs" /\ sh_ts demo_headers = sh_ts demo_headers) \/
   hmac_collision demo_secret (sentinelRequestMessage "GET" "/certs" (sh_ts demo_headers))
     (sentinelRequestMessage "GET" "/certs" (sh_ts demo_headers))).
Proof.
  pose proof demo_accepted as H. split; [exact H|]. rewrite demo_headers_eta in H.
  exact (signature_binds demo_secret (sh_sig demo_headers) demo_now demo_now "GET" "GET" "/certs" "/certs"
    (sh_ts demo_headers) (sh_ts demo_headers) eq_refl eq_refl H H).
Defined.

Lemma unconfigured_refuses_witness :
  (Middleware demo_verify (NewSentinelVerifier [1; 2] [3]) demo_headers "GET" "/certs" demo_now 0).1 = NotConfigured /\
  (SentinelHMACMiddleware [3] demo_headers "GET" "/certs" demo_now 0).1 = NotConfigured.
Proof. apply (unconfigured_refuses demo_verify [1; 2] [3]); [discriminate|reflexivity]. Defined.

Lemma derived_secrets_separate_witness :
  ("a2a/v1" = "a2a/v1" /\ "box-1" = "box-1") \/
  hmac_collision demo_secret (bytes_of_string "a2a/v1" ++ [0] ++ bytes_of_string "box-1")
                             (bytes_of_string "a2a/v1" ++ [0] ++ bytes_of_string "box-1").
Proof.
  assert (Hne : DeriveSharedSecret demo_secret "a2a/v1" "box-1" <> "") by (vm_compute; discriminate).
  exact (derived_secrets_separate demo_secret "a2a/v1" "a2a/v1" "box-1" "box-1" eq_refl eq_refl Hne eq_refl).
Defined.

(** A timestamp 2^63 seconds before the clock passes the window: the difference and its
    negation are both the least int64. *)
Definition ancient : string := Itoa (1700000000 - 2 ^ 63).

Example ancient_timestamp_passes :
  VerifySentinelRequest (mkSentinel ancient (computeSentinelSignature demo_secret "GET" "/certs" ancient))
    "GET" "/certs" demo_secret demo_now = true.
Proof. vm_compute. reflexivity. Qed.

(** Requests and responses share key and form: a signed body that reads as a request line is
    a signed request. *)
Example response_is_a_request :
  let body := bytes_of_string ("POST" +:+ String "010" "/authorized-keys/sentinel") in
  match SignSentinelResponse demo_now demo_secret body with
  | Some h => VerifySentinelRequest h "POST" "/authorized-keys/sentinel" demo_secret demo_now
  | None => false
  end = true.
Proof. vm_compute. reflexivity. Qed.

(** One warning in an interval. *)
Example misconfig_log_ex :
  let '(l1, s1) := logDaemonSentinelMisconfigOncePerInterval demo_now 0 in
  let '(l2, s2) := logDaemonSentinelMisconfigOncePerInterval (demo_now + 59 * Second) s1 in
  let '(l3, s3) := logDaemonSentinelMisconfigOncePerInterval (demo_now + 60 * Second) s2 in
  [l1; l2; l3] = [true; false; true].
Proof. vm_compute. reflexivity. Qed.

Example parse_keys_ex :
  ParseSentinelPublicKey " BwcHBwcHBwcHBwcHBwcHBwcHBwcHBwcHBwcHBwcHBwc= " = Some demo_pub /\
  ParseSentinelPublicKey "BwcH" = None /\
  ParseSentinelSigningKey (fun seed => seed ++ seed) "BwcHBwcHBwcHBwcHBwcHBwcHBwcHBwcHBwcHBwcHBwc=" = Some (demo_pub ++ demo_pub).
Proof. vm_compute. repeat split. Qed.
