(* ===== verification/HashChain.v ===== *)
(** * internal/audit: the tamper-evident hash chain of the audit log

    A row of [audit_logs] is a [ChainEntry]; the table is the list of rows in
    ascending id order.  [computeRowHash] hashes with the SHA-256 of GoBytes.v.
    Appends hold an advisory lock from reading the tail to the insert, so [Log] is one
    step on the table; [pg_ts] is what the timestamp column gives back for a value
    written to it. *)

From S2P Require Import Prelude GoStrings GoBytes.
From Stdlib Require Import Ascii.
From Stdlib Require DecimalString.
#[local] Open Scope string_scope.
#[local] Open Scope list_scope.
#[local] Open Scope Z_scope.

(** ** Data *)

Record AuditEntry := mkEntry {
  e_ID : Z;
  e_Timestamp : Time;
  e_Username : string;
  e_Action : string;
  e_ResourceType : string;
  e_ResourceID : string;
  e_Detail : string;
  e_SourceIP : string;
  e_StatusCode : Z;
  e_Actor : string;
  e_DelegationChain : string;
  e_TokenID : string;
  e_OrgID : string;
  e_RunID : string;
}.

Record ChainEntry := mkChainEntry {
  ce_entry : AuditEntry;
  ce_RowHash : string;
  ce_PrevHash : string;
  ce_HashVersion : Z;
}.

Definition HashEmpty : string := "".
Definition HashVersion1 : Z := 1.
Definition HashVersion2 : Z := 2.
Definition CurrentHashVersion : Z := HashVersion2.

Inductive chain_error :=
| UnrecognizedVersion (version : Z)
| PrevHashMismatch (id : Z)
| RowUnrecognizedVersion (id version : Z)
| RowHashMismatch (id : Z).

(** ** Operations *)

Definition writeField (s : string) : string := Itoa (Z.of_nat (String.length s)) +:+ ":" +:+ s.

Fixpoint writeFields (fs : list string) : string :=
  match fs with [] => "" | f :: rest => writeField f +:+ writeFields rest end.

(** [UnixNano] is an int64. *)
Definition common_fields (e : AuditEntry) : list string :=
  [Itoa (wrap i64 (UnixNano (e_Timestamp e))); e_Username e; e_Action e; e_ResourceType e;
   e_ResourceID e; e_Detail e; e_SourceIP e; Itoa (e_StatusCode e)].
Definition attribution_fields (e : AuditEntry) : list string :=
  [e_Actor e; e_DelegationChain e; e_TokenID e; e_OrgID e; e_RunID e].

(** The fields hashed under a version, without the trailing previous hash. *)
Definition hashed_fields (e : AuditEntry) (version : Z) : option (list string) :=
  if version =? HashVersion1 then Some (common_fields e)
  else if version =? HashVersion2 then Some (common_fields e ++ attribution_fields e)
  else None.

Definition computeRowHash (e : AuditEntry) (prevHash : string) (version : Z) : string + chain_error :=
  match hashed_fields e version with
  | None => inr (UnrecognizedVersion version)
  | Some fs => inl (hexEncode (sha256 (bytes_of_string (writeFields (fs ++ [prevHash])))))
  end.

(** [(firstBad, err)]. *)
Fixpoint VerifyChain (entries : list ChainEntry) (prev : string) : Z * option chain_error :=
  match entries with
  | [] => (0, None)
  | e :: rest =>
      let id := e_ID (ce_entry e) in
      if negb (String.eqb (ce_PrevHash e) prev) then (id, Some (PrevHashMismatch id))
      else match computeRowHash (ce_entry e) (ce_PrevHash e) (ce_HashVersion e) with
           | inr _ => (id, Some (RowUnrecognizedVersion id (ce_HashVersion e)))
           | inl want => if negb (String.eqb (ce_RowHash e) want) then (id, Some (RowHashMismatch id))
                         else VerifyChain rest (ce_RowHash e)
           end
  end.

(** ** The table *)

Abbreviation table := (list ChainEntry) (only parsing).

Definition row_id (r : ChainEntry) : Z := e_ID (ce_entry r).

Definition truncate_us (t : Time) : Time := t - t mod 1000.

Definition set_id_ts (e : AuditEntry) (id : Z) (ts : Time) : AuditEntry :=
  {| e_ID := id; e_Timestamp := ts; e_Username := e_Username e; e_Action := e_Action e;
     e_ResourceType := e_ResourceType e; e_ResourceID := e_ResourceID e; e_Detail := e_Detail e;
     e_SourceIP := e_SourceIP e; e_StatusCode := e_StatusCode e; e_Actor := e_Actor e;
     e_DelegationChain := e_DelegationChain e; e_TokenID := e_TokenID e; e_OrgID := e_OrgID e;
     e_RunID := e_RunID e |}.

Definition tail_hash (t : table) : option string := ce_RowHash <$> last t.

Section store.
Context (pg_ts : Time -> Time).

(** [id] is the value of the row id sequence; [db_ok] is false when the transaction
    fails and is rolled back. *)
Definition Log (now : Time) (db_ok : bool) (id : Z) (entry : AuditEntry) (t : table) : bool * table :=
  let ts := truncate_us (if IsZero (e_Timestamp entry) then now else e_Timestamp entry) in
  if negb db_ok then (false, t)
  else
    let prevHash := default HashEmpty (tail_hash t) in
    match computeRowHash (set_id_ts entry 0 ts) prevHash CurrentHashVersion with
    | inr _ => (false, t)
    | inl rowHash =>
        (true, t ++ [{| ce_entry := set_id_ts entry id (pg_ts ts); ce_RowHash := rowHash;
                        ce_PrevHash := prevHash; ce_HashVersion := CurrentHashVersion |}])
    end.
End store.

Definition MaxRowID (t : table) : Z := default 0 (row_id <$> last t).

Definition RowHashAt (id : Z) (t : table) : option string :=
  ce_RowHash <$> find (fun r => row_id r =? id) t.

Definition VerifyChainSinceID (fromID limit : Z) (t : table) : Z * option chain_error :=
  let lim := if limit <=? 0 then 1000 else limit in
  let entries := take (Z.to_nat lim)
    (List.filter (fun r => (fromID <? row_id r) && negb (String.eqb (ce_RowHash r) "")) t) in
  match entries with
  | [] => (0, None)
  | e :: _ => VerifyChain entries (if fromID =? 0 then HashEmpty else ce_PrevHash e)
  end.

Definition defaultVerifyBatch : Z := 1000.

Record AnchorVerifyResult := mkAnchorResult {
  ar_Checkpoint : Z;
  ar_AnchorRoot : string;
  ar_CurrentRoot : string;
  ar_FirstBadAfterCheckpoint : Z;
}.

Definition OK (r : AnchorVerifyResult) : bool :=
  String.eqb (ar_AnchorRoot r) (ar_CurrentRoot r) && (ar_FirstBadAfterCheckpoint r =? 0).

(** The loop over the rows after the checkpoint; every round advances [from]. *)
Fixpoint anchor_loop (fuel : nat) (from maxID : Z) (t : table) : Z + chain_error :=
  match fuel with
  | O => inl 0
  | S f =>
      if negb (from <? maxID) then inl 0
      else match VerifyChainSinceID from 0 t with
           | (_, Some e) => inr e
           | (bad, None) => if negb (bad =? 0) then inl bad else anchor_loop f (from + defaultVerifyBatch) maxID t
           end
  end.

(** [anchor] is what the sink last published; [None] is ErrNoAnchor. *)
Definition VerifyChainAgainstAnchor (anchor : option (Z * string)) (t : table)
  : option (AnchorVerifyResult + chain_error) :=
  match anchor with
  | None => None
  | Some (checkpoint, anchorRoot) =>
      let maxID := MaxRowID t in
      Some (match anchor_loop (Z.to_nat (maxID - checkpoint)) checkpoint maxID t with
            | inr e => inr e
            | inl bad => inl {| ar_Checkpoint := checkpoint; ar_AnchorRoot := anchorRoot;
                                ar_CurrentRoot := default "" (RowHashAt checkpoint t);
                                ar_FirstBadAfterCheckpoint := bad |}
            end)
  end.

(** ** Lemmas: the serialization is injective *)

Lemma no_colon_uint d : contains_char ":" (DecimalString.NilEmpty.string_of_uint d) = false.
Proof. by induction d. Qed.

Lemma no_colon_Itoa z : contains_char ":" (Itoa z) = false.
Proof.
  unfold Itoa, DecimalString.NilZero.string_of_int, DecimalString.NilZero.string_of_uint.
  destruct (Z.to_int z) as [d|d]; destruct d; try done; cbn [contains_char]; apply no_colon_uint.
Qed.

Lemma cut_at_char c s t u v :
  contains_char c s = false -> contains_char c t = false ->
  s +:+ String c u = t +:+ String c v -> s = t /\ u = v.
Proof.
  revert t. induction s as [|a s IH]; intros [|b t] Hs Ht H.
  - change (String c u = String c v) in H. by injection H.
  - change (String c u = String b (t +:+ String c v)) in H. injection H as <- _.
    simpl in Ht. by rewrite Ascii.eqb_refl in Ht.
  - change (String a (s +:+ String c u) = String c v) in H. injection H as -> _.
    simpl in Hs. by rewrite Ascii.eqb_refl in Hs.
  - change (String a (s +:+ String c u) = String b (t +:+ String c v)) in H. injection H as -> H.
    simpl in Hs, Ht. apply orb_false_iff in Hs as [_ Hs]. apply orb_false_iff in Ht as [_ Ht].
    destruct (IH t Hs Ht H) as [-> ->]. done.
Qed.

Lemma writeField_inj s t u v : writeField s +:+ u = writeField t +:+ v -> s = t /\ u = v.
Proof.
  unfold writeField. autorewrite with gostrings. intros H.
  apply (cut_at_char ":") in H as [Hl H]; [|apply no_colon_Itoa..].
  apply Itoa_inj in Hl. apply string_app_inj; [lia|exact H].
Qed.

Lemma writeFields_inj fs gs : writeFields fs = writeFields gs -> fs = gs.
Proof.
  assert (Hne : forall s u, "" <> writeField s +:+ u).
  { intros s u H. apply (f_equal String.length) in H. unfold writeField in H.
    autorewrite with gostrings in H. simpl in H. lia. }
  revert gs. induction fs as [|f fs IH]; intros [|g gs] H; simpl in H; [done| | |].
  - by apply Hne in H.
  - symmetry in H. by apply Hne in H.
  - apply writeField_inj in H as [-> H]. f_equal. by apply IH.
Qed.

Lemma bytes_of_string_inj s t : bytes_of_string s = bytes_of_string t -> s = t.
Proof.
  revert t. induction s as [|a s IH]; intros [|b t] H; try done. simpl in H. injection H as Ha H.
  f_equal; [|by apply IH]. unfold byte_of_ascii in Ha. apply Nat2Z.inj in Ha.
  apply (f_equal ascii_of_nat) in Ha. by rewrite !ascii_nat_embedding in Ha.
Qed.

(** ** Lemmas: one row *)

(** What a row's digest is taken of. *)
Definition preimage (r : ChainEntry) : list Z :=
  bytes_of_string (writeFields (default [] (hashed_fields (ce_entry r) (ce_HashVersion r)) ++ [ce_PrevHash r])).

(** A stored row is consistent: its version is known and its hash is that of its fields. *)
Definition row_ok (r : ChainEntry) : Prop :=
  computeRowHash (ce_entry r) (ce_PrevHash r) (ce_HashVersion r) = inl (ce_RowHash r).

Lemma row_ok_digest r : row_ok r -> ce_RowHash r = hexEncode (sha256 (preimage r)).
Proof.
  unfold row_ok, computeRowHash, preimage. destruct (hashed_fields _ _); [|done]. by intros [= <-].
Qed.

Lemma row_ok_nonempty r : row_ok r -> ce_RowHash r <> "".
Proof.
  intros H. rewrite (row_ok_digest r H). pose proof (length_sha256 (preimage r)) as Hl.
  destruct (sha256 (preimage r)); [done|]. by simpl.
Qed.

(** Two entries with the same content, as far as a version of the hash covers it; time
    stamps are compared as the int64 nanoseconds that are hashed. *)
Definition same_entry (version : Z) (e1 e2 : AuditEntry) : Prop :=
  wrap i64 (UnixNano (e_Timestamp e1)) = wrap i64 (UnixNano (e_Timestamp e2)) /\
  e_Username e1 = e_Username e2 /\ e_Action e1 = e_Action e2 /\
  e_ResourceType e1 = e_ResourceType e2 /\ e_ResourceID e1 = e_ResourceID e2 /\
  e_Detail e1 = e_Detail e2 /\ e_SourceIP e1 = e_SourceIP e2 /\ e_StatusCode e1 = e_StatusCode e2 /\
  (version = HashVersion2 ->
     e_Actor e1 = e_Actor e2 /\ e_DelegationChain e1 = e_DelegationChain e2 /\ e_TokenID e1 = e_TokenID e2 /\
     e_OrgID e1 = e_OrgID e2 /\ e_RunID e1 = e_RunID e2).

(** Two rows with the same content under the chain: version, entry, links. *)
Definition same_record (r1 r2 : ChainEntry) : Prop :=
  ce_HashVersion r1 = ce_HashVersion r2 /\
  same_entry (ce_HashVersion r1) (ce_entry r1) (ce_entry r2) /\
  ce_PrevHash r1 = ce_PrevHash r2 /\ ce_RowHash r1 = ce_RowHash r2.

(** Two rows whose digests collide although their contents differ. *)
Definition collide (r1 r2 : ChainEntry) : Prop :=
  preimage r1 <> preimage r2 /\ sha256 (preimage r1) = sha256 (preimage r2).

Lemma hashed_fields_version e v e' v' fs :
  hashed_fields e v = Some fs -> hashed_fields e' v' = Some fs -> v = v'.
Proof.
  unfold hashed_fields.
  destruct (Z.eqb_spec v HashVersion1) as [->|]; [|destruct (Z.eqb_spec v HashVersion2) as [->|]; [|done]];
  (destruct (Z.eqb_spec v' HashVersion1) as [->|]; [|destruct (Z.eqb_spec v' HashVersion2) as [->|]; [|done]]); try done;
  intros H1 H2; exfalso; pose proof (eq_trans H1 (eq_sym H2)) as H; by apply (f_equal (fun o => length <$> o)) in H.
Qed.

Lemma hashed_fields_entry e1 e2 version fs :
  hashed_fields e1 version = Some fs -> hashed_fields e2 version = Some fs -> same_entry version e1 e2.
Proof.
  unfold hashed_fields, same_entry. destruct (Z.eqb_spec version HashVersion1) as [->|].
  { intros H1 H2. pose proof (eq_trans H1 (eq_sym H2)) as H. unfold common_fields in H.
    injection H as Ht Hu Ha Hrt Hri Hd Hip Hsc. apply Itoa_inj in Ht, Hsc. by split_and!. }
  destruct (Z.eqb_spec version HashVersion2) as [->|]; [|done].
  intros H1 H2. pose proof (eq_trans H1 (eq_sym H2)) as H. unfold common_fields, attribution_fields in H.
  injection H as Ht Hu Ha Hrt Hri Hd Hip Hsc Hac Hdc Hti Ho Hr. apply Itoa_inj in Ht, Hsc. by split_and!.
Qed.

Lemma rows_bind r1 r2 : row_ok r1 -> row_ok r2 -> ce_RowHash r1 = ce_RowHash r2 ->
  same_record r1 r2 \/ collide r1 r2.
Proof.
  intros H1 H2 Hh. pose proof Hh as Hd. rewrite (row_ok_digest r1 H1), (row_ok_digest r2 H2) in Hd.
  apply hexEncode_inj in Hd; [|apply sha256_bytes..].
  destruct (decide (preimage r1 = preimage r2)) as [Heq|Hne]; [left|by right].
  unfold preimage in Heq. apply bytes_of_string_inj, writeFields_inj in Heq.
  unfold row_ok, computeRowHash in H1, H2. unfold same_record.
  destruct (hashed_fields (ce_entry r1) _) as [f1|] eqn:E1; [|done].
  destruct (hashed_fields (ce_entry r2) _) as [f2|] eqn:E2; [|done]. simpl in Heq.
  apply app_inj_tail in Heq as [-> Hp].
  pose proof (hashed_fields_version _ _ _ _ _ E1 E2) as Hv. rewrite <- Hv in E2.
  split; [done|]. split; [by eapply hashed_fields_entry|done].
Qed.

(** ** Lemmas: chains *)

Definition intact (t : table) (root : string) : Prop := VerifyChain t root = (0, None).

Lemma intact_cons r t root :
  intact (r :: t) root <-> ce_PrevHash r = root /\ row_ok r /\ intact t (ce_RowHash r).
Proof.
  unfold intact, row_ok. simpl. destruct (String.eqb_spec (ce_PrevHash r) root) as [->|]; simpl; [|naive_solver].
  destruct (computeRowHash _ _ _) as [w|e]; [|naive_solver].
  destruct (String.eqb_spec (ce_RowHash r) w) as [->|]; simpl; naive_solver.
Qed.

Lemma intact_app t1 t2 root :
  intact (t1 ++ t2) root <-> intact t1 root /\ intact t2 (default root (tail_hash t1)).
Proof.
  revert root. induction t1 as [|r t1 IH]; intros root; [naive_solver|].
  rewrite <- app_comm_cons, !intact_cons, IH.
  assert (default root (tail_hash (r :: t1)) = default (ce_RowHash r) (tail_hash t1)) as ->; [|tauto].
  unfold tail_hash. destruct t1; [done|]. rewrite last_cons_cons. by destruct (last (c :: t1)) eqn:E;
    [|apply last_None in E].
Qed.

Lemma tail_hash_snoc t r : tail_hash (t ++ [r]) = Some (ce_RowHash r).
Proof. unfold tail_hash. by rewrite last_snoc. Qed.

Lemma intact_snoc t r root :
  intact (t ++ [r]) root <-> intact t root /\ ce_PrevHash r = default root (tail_hash t) /\ row_ok r.
Proof.
  rewrite intact_app, intact_cons. assert (intact [] (ce_RowHash r)) by done. tauto.
Qed.

Lemma intact_tail_nonempty t h : intact t HashEmpty -> tail_hash t = Some h -> h <> "".
Proof.
  destruct t as [|r t _] using rev_ind; [done|]. rewrite tail_hash_snoc.
  intros (_ & _ & Hr)%intact_snoc [= <-]. by apply row_ok_nonempty.
Qed.

(** ** Lemmas: the honest log *)

(** Tables written by [Log] alone, with increasing row ids. *)
Inductive logged (pg_ts : Time -> Time) : table -> Prop :=
| logged_empty : logged pg_ts []
| logged_append t now id e t' :
    logged pg_ts t -> MaxRowID t < id -> Log pg_ts now true id e t = (true, t') -> logged pg_ts t'.

(** Ids are positive and strictly ascending. *)
Fixpoint ascending (lo : Z) (t : table) : Prop :=
  match t with [] => True | r :: rest => lo < row_id r /\ ascending (row_id r) rest end.

Lemma MaxRowID_snoc t r : MaxRowID (t ++ [r]) = row_id r.
Proof. unfold MaxRowID. by rewrite last_snoc. Qed.

Lemma ascending_app lo t1 t2 :
  ascending lo (t1 ++ t2) <-> ascending lo t1 /\ ascending (default lo (row_id <$> last t1)) t2.
Proof.
  revert lo. induction t1 as [|r t1 IH]; intros lo; [simpl; tauto|].
  rewrite <- app_comm_cons. cbn [ascending]. rewrite IH.
  assert (default lo (row_id <$> last (r :: t1)) = default (row_id r) (row_id <$> last t1)) as ->; [|tauto].
  destruct t1; [done|]. rewrite last_cons_cons. by destruct (last (c :: t1)) eqn:E; [|apply last_None in E].
Qed.

Lemma ascending_above lo t r : ascending lo t -> r ∈ t -> lo < row_id r.
Proof.
  revert lo. induction t as [|x t IH]; intros lo; [set_solver|]. intros [Hx Ht] [->|Hr]%elem_of_cons; [done|].
  specialize (IH _ Ht Hr). lia.
Qed.

Lemma Log_spec pg_ts now id e t t' :
  (forall ts, ts mod 1000 = 0 -> pg_ts ts = ts) ->
  Log pg_ts now true id e t = (true, t') ->
  exists r, t' = t ++ [r] /\ row_id r = id /\ ce_PrevHash r = default HashEmpty (tail_hash t) /\ row_ok r.
Proof.
  intros Hpg. unfold Log. set (ts := truncate_us _). cbn [negb].
  destruct (computeRowHash _ _ _) as [h|er] eqn:E; [|done]. intros [= <-]. eexists. split; [done|].
  split; [done|]. split; [done|]. unfold row_ok. cbn [ce_entry ce_PrevHash ce_HashVersion ce_RowHash].
  rewrite Hpg; [exact E|].
  unfold ts, truncate_us. by rewrite Zminus_mod_idemp_r, Z.sub_diag.
Qed.

Lemma logged_intact pg_ts t :
  (forall ts, ts mod 1000 = 0 -> pg_ts ts = ts) -> logged pg_ts t -> intact t HashEmpty /\ ascending 0 t.
Proof.
  intros Hpg. induction 1 as [|t now id e t' _ [HI HA] Hid HL]; [done|].
  apply Log_spec in HL as (r & -> & Hr & Hp & Hok); [|done]. split; [by apply intact_snoc|].
  apply ascending_app. split; [done|]. simpl. split; [|done]. by rewrite Hr.
Qed.

Lemma intact_rows t root : intact t root -> Forall row_ok t.
Proof.
  revert root. induction t as [|r t IH]; intros root; [constructor|].
  intros (_ & Hr & Ht)%intact_cons. constructor; [done|]. by eapply IH.
Qed.

(** The rows after [from] are a suffix of the table. *)
Lemma rows_since from lo t : ascending lo t -> Forall row_ok t ->
  exists t1 t2, t = t1 ++ t2 /\ Forall (fun r => row_id r <= from) t1 /\
    List.filter (fun r => (from <? row_id r) && negb (String.eqb (ce_RowHash r) "")) t = t2.
Proof.
  revert lo. induction t as [|r t IH]; intros lo; [by exists [], []|].
  intros [Hlo Ha] [Hr Ht]%Forall_cons. simpl.
  pose proof (row_ok_nonempty r Hr) as Hne. rewrite (proj2 (String.eqb_neq _ _) Hne). simpl.
  destruct (Z.ltb_spec from (row_id r)); simpl.
  - exists [], (r :: t). split; [done|]. split; [done|]. f_equal. clear IH. revert Ha Ht.
    assert (Hlow : from < row_id r) by done. revert Hlow. generalize (row_id r) as lo'. induction t as [|x t IHt]; [done|].
    intros lo' Hlow [Hx Ha] [Hok Ht]%Forall_cons. simpl.
    rewrite (proj2 (String.eqb_neq _ _) (row_ok_nonempty x Hok)).
    destruct (Z.ltb_spec from (row_id x)); [|lia]. simpl. f_equal. apply (IHt (row_id x)); [lia|done..].
  - destruct (IH _ Ha Ht) as (t1 & t2 & -> & H1 & H2). exists (r :: t1), t2. split; [done|].
    split; [by constructor|]. exact H2.
Qed.

Lemma intact_take n t root : intact t root -> intact (take n t) root.
Proof. rewrite <- (take_drop n t) at 1. by intros [? _]%intact_app. Qed.

Lemma VerifyChainSinceID_intact from limit t :
  0 <= from -> intact t HashEmpty -> ascending 0 t -> VerifyChainSinceID from limit t = (0, None).
Proof.
  intros Hf HI HA. destruct (rows_since from 0 t HA (intact_rows _ _ HI)) as (t1 & t2 & Ht & H1 & H2).
  unfold VerifyChainSinceID. rewrite H2. rewrite Ht in HI. apply intact_app in HI as [_ HI].
  set (n := Z.to_nat _). pose proof (intact_take n _ _ HI) as HT. destruct (take n t2) as [|r rest] eqn:E; [done|].
  destruct (Z.eqb_spec from 0) as [->|Hne].
  - assert (t1 = []) as ->; [|exact HT]. destruct t1 as [|x t1]; [done|]. exfalso.
    rewrite Ht in HA. destruct HA as [Hx _]. apply Forall_cons in H1 as [H1 _]. lia.
  - pose proof HT as HT'. apply intact_cons in HT' as (-> & _). exact HT.
Qed.

Lemma RowHashAt_tail lo t0 r more :
  ascending lo (t0 ++ r :: more) -> RowHashAt (row_id r) (t0 ++ r :: more) = Some (ce_RowHash r).
Proof.
  unfold RowHashAt. revert lo. induction t0 as [|x t0 IH]; intros lo H; simpl in *.
  - by rewrite Z.eqb_refl.
  - destruct H as [_ H]. pose proof (ascending_above _ _ r H ltac:(set_solver)).
    destruct (Z.eqb_spec (row_id x) (row_id r)); [lia|]. by eapply IH.
Qed.

Lemma anchor_loop_ok fuel from maxID t :
  0 <= from -> maxID <= from + Z.of_nat fuel -> intact t HashEmpty -> ascending 0 t ->
  anchor_loop fuel from maxID t = inl 0.
Proof.
  intros Hf Hm HI HA. revert from Hf Hm. induction fuel as [|f IH]; intros from Hf Hm; [done|]. simpl.
  destruct (Z.ltb_spec from maxID); simpl; [|done].
  rewrite (VerifyChainSinceID_intact from 0) by done. simpl. apply IH; unfold defaultVerifyBatch; lia.
Qed.

(** ** Properties *)

(** C35: the tip of a chain binds its whole history.  If two chains both verify from
    the empty root and end in the same row hash, then they have the same number
    of rows and agree row by row on the hash version, every hashed field and the
    links, or else two rows of the two chains are an explicit SHA-256
    collision. *)
Theorem chain_tip_binds_history t1 t2 :
  VerifyChain t1 HashEmpty = (0, None) -> VerifyChain t2 HashEmpty = (0, None) ->
  tail_hash t1 = tail_hash t2 ->
  Forall2 same_record t1 t2 \/ exists r1 r2, r1 ∈ t1 /\ r2 ∈ t2 /\ collide r1 r2.
Proof.
  fold (intact t1 HashEmpty) (intact t2 HashEmpty). revert t2.
  induction t1 as [|r1 t1 IH] using rev_ind; intros t2; destruct t2 as [|r2 t2 _] using rev_ind; intros H1 H2.
  - intros _. by left.
  - by rewrite tail_hash_snoc.
  - by rewrite tail_hash_snoc.
  - rewrite !tail_hash_snoc. intros [= Hh].
    apply intact_snoc in H1 as (I1 & P1 & O1), H2 as (I2 & P2 & O2).
    destruct (rows_bind r1 r2 O1 O2 Hh) as [Hs|Hc]; [|right; exists r1, r2; set_solver].
    pose proof Hs as (_ & _ & Hp & _). rewrite P1, P2 in Hp.
    assert (Ht : tail_hash t1 = tail_hash t2).
    { destruct (tail_hash t1) as [h1|] eqn:E1, (tail_hash t2) as [h2|] eqn:E2; simpl in Hp; try congruence.
      - by apply (intact_tail_nonempty t1 h1 I1) in E1.
      - by apply (intact_tail_nonempty t2 h2 I2) in E2. }
    destruct (IH t2 I1 I2 Ht) as [HF|(x & y & Hx & Hy & Hc)].
    + left. apply Forall2_app; [done|]. by constructor.
    + right. exists x, y. set_solver.
Qed.

(** The log verifies.  A table written by [Log] alone, whatever the entries
    and the clock, is intact from any row, in batches of any size, and against
    every anchor taken of one of its prefixes; this needs the timestamp column to
    keep microseconds, which is what [Log] truncates to. *)
Theorem honest_log_verifies pg_ts t0 more :
  (forall ts, ts mod 1000 = 0 -> pg_ts ts = ts) ->
  logged pg_ts (t0 ++ more) ->
  (forall from limit, 0 <= from -> VerifyChainSinceID from limit (t0 ++ more) = (0, None)) /\
  (forall root, tail_hash t0 = Some root ->
     exists r, VerifyChainAgainstAnchor (Some (MaxRowID t0, root)) (t0 ++ more) = Some (inl r) /\ OK r = true).
Proof.
  intros Hpg HL. apply logged_intact in HL as [HI HA]; [|done]. split.
  { intros from limit Hf. by apply VerifyChainSinceID_intact. }
  intros root Hroot. destruct t0 as [|r t0 _] using rev_ind; [done|]. rewrite tail_hash_snoc in Hroot.
  injection Hroot as <-. unfold VerifyChainAgainstAnchor. rewrite MaxRowID_snoc.
  pose proof HA as HA'. rewrite <- app_assoc in HA'. simpl in HA'.
  assert (Hpos : 0 < row_id r) by (eapply ascending_above; [exact HA'|set_solver]).
  rewrite anchor_loop_ok; [|lia..|done|done]. eexists. split; [done|].
  unfold OK. simpl. rewrite <- app_assoc. simpl. rewrite (RowHashAt_tail 0) by done. simpl.
  by rewrite String.eqb_refl.
Qed.

(** ** A concrete log *)

Definition demo_entry (user action : string) : AuditEntry :=
  mkEntry 0 (UnixTime 1700000000123456789) user action "container" "c1" "" "10.0.0.1" 200 "" "" "jti" "" "".

Definition demo_log : table := (Log truncate_us 5 true 7 (demo_entry "bob" "delete")
  (Log truncate_us 5 true 3 (demo_entry "alice" "create") []).2).2.

Lemma demo_logged : logged truncate_us demo_log.
Proof.
  apply (logged_append _ (Log truncate_us 5 true 3 (demo_entry "alice" "create") []).2 5 7 (demo_entry "bob" "delete")).
  - apply (logged_append _ [] 5 3 (demo_entry "alice" "create")); [apply logged_empty|vm_compute; reflexivity..].
  - vm_compute. reflexivity.
  - vm_compute. reflexivity.
Qed.

Lemma truncate_us_stored ts : ts mod 1000 = 0 -> truncate_us ts = ts.
Proof. unfold truncate_us. lia. Qed.

Lemma honest_log_verifies_witness :
  VerifyChainSinceID 3 1000 demo_log = (0, None) /\
  exists r, VerifyChainAgainstAnchor (Some (3, default "" (tail_hash (take 1 demo_log)))) demo_log = Some (inl r) /\ OK r = true.
Proof.
  assert (E : demo_log = take 1 demo_log ++ drop 1 demo_log) by (symmetry; apply take_drop).
  assert (HL : logged truncate_us (take 1 demo_log ++ drop 1 demo_log)) by (rewrite <- E; exact demo_logged).
  destruct (honest_log_verifies truncate_us (take 1 demo_log) (drop 1 demo_log) truncate_us_stored HL) as [H1 H2].
  rewrite <- E in H1, H2. split; [apply H1; lia|]. apply (H2 (default "" (tail_hash (take 1 demo_log)))).
  vm_compute. reflexivity.
Defined.

Lemma chain_tip_binds_history_witness :
  Forall2 same_record demo_log demo_log \/ exists r1 r2, r1 ∈ demo_log /\ r2 ∈ demo_log /\ collide r1 r2.
Proof. apply chain_tip_binds_history; vm_compute; reflexivity. Defined.

(** ** What verification in batches does not cover

    A batch after the first takes its first row's own [prev_hash] for granted.  Replacing
    the last row of a batch, with its own hash recomputed, breaks the link to the
    next row; verifying in batches of one row accepts the table, verifying it in
    one batch does not. *)
Definition spliced_log : table :=
  match demo_log with
  | r :: rest =>
      let e := demo_entry "mallory" "create" in
      match computeRowHash e (ce_PrevHash r) 2 with
      | inl h => {| ce_entry := set_id_ts e 3 (e_Timestamp e); ce_RowHash := h; ce_PrevHash := ce_PrevHash r;
                    ce_HashVersion := 2 |} :: rest
      | inr _ => []
      end
  | [] => []
  end.

Example batch_boundary_not_checked :
  VerifyChainSinceID 0 1 spliced_log = (0, None) /\ VerifyChainSinceID 3 1 spliced_log = (0, None) /\
  VerifyChainSinceID 0 1000 spliced_log = (7, Some (PrevHashMismatch 7)).
Proof. vm_compute. repeat split. Qed.
