(* ===== verification/Window.v ===== *)
(** * internal/modelgateway, window.go: rolling usage windows, recent values, baselines

    Counters are int64 and wrap.  The zero [time.Time] of an unused bucket is [0].
    Go iterates over a map in an unspecified order: [iter] is the order the runtime
    picks, and the definitions that iterate take it as an argument. *)

From S2P Require Import Prelude GoStrings GoFloat.
#[local] Open Scope string_scope.
#[local] Open Scope list_scope.
#[local] Open Scope Z_scope.

(** ** Counters *)

Record counts := mkCounts {
  calls : Z;
  inputTokens : Z;
  outputTokens : Z;
  cachedTokens : Z;
  authDenials : Z;
  policyDenials : Z;
}.

Definition no_counts : counts := mkCounts 0 0 0 0 0 0.

Definition add64 (a b : Z) : Z := wrap i64 (a + b).

Definition counts_add (c o : counts) : counts :=
  {| calls := add64 (calls c) (calls o);
     inputTokens := add64 (inputTokens c) (inputTokens o);
     outputTokens := add64 (outputTokens c) (outputTokens o);
     cachedTokens := add64 (cachedTokens c) (cachedTokens o);
     authDenials := add64 (authDenials c) (authDenials o);
     policyDenials := add64 (policyDenials c) (policyDenials o) |}.

Definition totalTokens (c : counts) : Z :=
  add64 (add64 (inputTokens c) (outputTokens c)) (cachedTokens c).

(** ** The ring of buckets *)

Definition bucketCount : Z := 12.

Record rollingWindow := mkWindow {
  w_window : Duration;
  w_slot : Duration;
  w_buckets : list counts;
  w_starts : list Time;
}.

Definition newRollingWindow (window : Duration) : rollingWindow :=
  let w := if window <=? 0 then Minute else window in
  {| w_window := w; w_slot := Z.quot w bucketCount;
     w_buckets := replicate 12 no_counts; w_starts := replicate 12 0 |}.

Definition set_bucket (w : rollingWindow) (i : nat) (c : counts) (start : Time) : rollingWindow :=
  {| w_window := w_window w; w_slot := w_slot w;
     w_buckets := <[i := c]> (w_buckets w); w_starts := <[i := start]> (w_starts w) |}.

Definition fix_slot (w : rollingWindow) : rollingWindow :=
  if w_slot w <=? 0
  then {| w_window := w_window w; w_slot := Nanosecond; w_buckets := w_buckets w; w_starts := w_starts w |}
  else w.

Definition index (t : Time) (w0 : rollingWindow) : nat * rollingWindow :=
  let w := fix_slot w0 in
  let n := Z.quot (wrap i64 (UnixNano t)) (w_slot w) in
  let r := Z.rem n bucketCount in
  let i := Z.to_nat (if r <? 0 then r + bucketCount else r) in
  let start := UnixTime (n * w_slot w) in
  if negb (nth i (w_starts w) 0 =? start)
  then (i, set_bucket w i no_counts start)
  else (i, w).

Definition add (now : Time) (c : counts) (w0 : rollingWindow) : rollingWindow :=
  let '(i, w) := index now w0 in
  {| w_window := w_window w; w_slot := w_slot w;
     w_buckets := <[i := counts_add (nth i (w_buckets w) no_counts) c]> (w_buckets w);
     w_starts := w_starts w |}.

(** A bucket that is in use and not older than the cutoff. *)
Definition live (cutoff start : Time) : bool := negb (IsZero start || Before start cutoff).

Definition sum (now : Time) (w : rollingWindow) : counts :=
  let cutoff := now - w_window w in
  foldl (fun out sb => if live cutoff sb.1 then counts_add out sb.2 else out) no_counts
    (zip (w_starts w) (w_buckets w)).

(** The oldest live bucket start. *)
Definition oldest_live (cutoff : Time) (starts : list Time) : option Time :=
  foldl (fun o s => if live cutoff s
                    then match o with
                         | None => Some s
                         | Some old => if Before s old then Some s else Some old
                         end
                    else o) None starts.

Definition rate (now : Time) (w : rollingWindow) : float64 :=
  match oldest_live (now - w_window w) (w_starts w) with
  | None => 0%Q
  | Some oldest =>
      let e := Seconds (Sub now oldest) in
      let m := Seconds (w_slot w) in
      let elapsed := if flt e m then m else e in
      if fle elapsed 0%Q then 0%Q
      else fdiv (of_int (totalTokens (sum now w))) elapsed
  end.

(** ** Recently used values *)

Definition maxRecentValues : Z := 64.

Record recentSet := mkRecent { rs_ttl : Duration; rs_seen : gmap string Time }.

Definition newRecentSet (ttl : Duration) : recentSet := {| rs_ttl := ttl; rs_seen := ∅ |}.

Definition prune (now : Time) (s : recentSet) : recentSet :=
  {| rs_ttl := rs_ttl s; rs_seen := filter (fun kv => Sub now kv.2 <= rs_ttl s) (rs_seen s) |}.

Section iteration.
Context (iter : gmap string Time -> list (string * Time)).

Definition oldest_entry (l : list (string * Time)) : option (string * Time) :=
  foldl (fun o kt => match o with
                     | None => Some kt
                     | Some old => if Before kt.2 old.2 then Some kt else Some old
                     end) None l.

Definition evictOldest (s : recentSet) : recentSet :=
  match oldest_entry (iter (rs_seen s)) with
  | None => s
  | Some (k, _) => {| rs_ttl := rs_ttl s; rs_seen := delete k (rs_seen s) |}
  end.

(** [(novel, set)]. *)
Definition observe (now : Time) (v : string) (s0 : recentSet) : bool * recentSet :=
  if String.eqb v "" then (false, s0)
  else
    let s := prune now s0 in
    let last := rs_seen s !! v in
    let s1 := {| rs_ttl := rs_ttl s; rs_seen := <[v := now]> (rs_seen s) |} in
    let s2 := match last with
              | None => if maxRecentValues <? Z.of_nat (size (rs_seen s1)) then evictOldest s1 else s1
              | Some _ => s1
              end in
    (match last with None => true | Some t => rs_ttl s <? Sub now t end, s2).
End iteration.

Definition recent_len (now : Time) (s0 : recentSet) : Z * recentSet :=
  let s := prune now s0 in (Z.of_nat (size (rs_seen s)), s).

(** ** Exponentially weighted averages *)

Record ewma := mkEwma { ew_alpha : float64; ew_value : float64; ew_samples : Z }.

Definition newEWMA (alpha : float64) : ewma :=
  {| ew_alpha := if fle alpha 0%Q || flt 1%Q alpha then rnd (2 # 10) else alpha;
     ew_value := 0%Q; ew_samples := 0 |}.

Definition ewma_observe (v : float64) (e : ewma) : ewma :=
  {| ew_alpha := ew_alpha e;
     ew_value := if ew_samples e =? 0 then v
                 else fadd (fmul (ew_alpha e) v) (fmul (fsub 1%Q (ew_alpha e)) (ew_value e));
     ew_samples := wrap i64 (ew_samples e + 1) |}.

(** ** Lemmas: counters *)

Inductive field := Calls | InputTokens | OutputTokens | CachedTokens | AuthDenials | PolicyDenials.

Definition get (f : field) (c : counts) : Z :=
  match f with
  | Calls => calls c | InputTokens => inputTokens c | OutputTokens => outputTokens c
  | CachedTokens => cachedTokens c | AuthDenials => authDenials c | PolicyDenials => policyDenials c
  end.

Lemma get_add f a b : get f (counts_add a b) = wrap i64 (get f a + get f b).
Proof. by destruct f. Qed.

Lemma get_none f : get f no_counts = 0.
Proof. by destruct f. Qed.

Definition total (l : list Z) : Z := foldr Z.add 0 l.

Lemma total_app l1 l2 : total (l1 ++ l2) = total l1 + total l2.
Proof. induction l1 as [|x l1 IH]; simpl; lia. Qed.

Lemma foldl_live f cutoff l : forall acc A, get f acc = wrap i64 A ->
  get f (foldl (fun out sb => if live cutoff sb.1 then counts_add out sb.2 else out) acc l) =
  wrap i64 (A + total (map (fun sb => if live cutoff sb.1 then get f sb.2 else 0) l)).
Proof.
  induction l as [|[s b] l IH]; intros acc A HA; simpl; [by rewrite Z.add_0_r|].
  destruct (live cutoff s).
  - rewrite (IH _ (A + get f b)); [f_equal; lia|]. rewrite get_add, HA. by rewrite wrap_add_l.
  - by rewrite (IH _ A), Z.add_0_l.
Qed.

Lemma list_nth_seq {A} (l : list A) d : l = map (fun i => nth i l d) (seq 0 (length l)).
Proof.
  induction l as [|x l IH]; [done|]. simpl. f_equal. rewrite <- seq_shift, map_map. exact IH.
Qed.

Lemma zip_nth_seq {A B} (l : list A) (k : list B) n a b :
  length l = n -> length k = n -> zip l k = map (fun i => (nth i l a, nth i k b)) (seq 0 n).
Proof.
  revert l k. induction n as [|n IH]; intros [|x l] [|y k] Hl Hk; simpl in *; try lia; [done|].
  f_equal. rewrite <- seq_shift, map_map. apply IH; lia.
Qed.

Lemma nth_insert_eq {A} i (l : list A) x d : (i < length l)%nat -> nth i (<[i := x]> l) d = x.
Proof. revert i. induction l as [|y l IH]; intros [|i] H; simpl in *; try lia; [done|]. apply IH. lia. Qed.
Lemma nth_insert_ne {A} i j (l : list A) x d : i <> j -> nth j (<[i := x]> l) d = nth j l d.
Proof. revert i j. induction l as [|y l IH]; intros [|i] [|j] H; simpl; try done. apply IH. lia. Qed.

(** ** Lemmas: what the ring holds *)

Section ring.
Context (W : Duration) (HW : 12 <= W <= maxDuration).

Definition slot : Z := Z.quot W 12.

Lemma slot_pos : 1 <= slot /\ 12 * slot <= W.
Proof using HW. unfold slot. rewrite Z.quot_div_nonneg by lia. Z.to_euclidean_division_equations. lia. Qed.

(** A clock reading between 1970 and 2262, where [UnixNano] is exact. *)
Definition epoch (t : Time) : Prop := 0 <= t - unixToInternal < 2 ^ 63.

Definition slot_of (t : Time) : Z := (t - unixToInternal) / slot.
Definition class_of (t : Time) : Z := slot_of t mod 12.
Definition start_of (n : Z) : Time := UnixTime (n * slot).

(** The usage recorded so far, newest first. *)
Definition history := list (Time * counts).

Definition fill (h : history) : rollingWindow := foldr (fun e w => add e.1 e.2 w) (newRollingWindow W) h.

(** The slot of the newest event of a class. *)
Definition latest (h : history) (i : Z) : option Z :=
  (fun e => slot_of e.1) <$> find (fun e => class_of e.1 =? i) h.

Definition in_slot (n : Z) (h : history) : history := List.filter (fun e => slot_of e.1 =? n) h.

#[local] Arguments in_slot : simpl never.
#[local] Arguments latest : simpl never.

Definition usage (f : field) (h : history) : Z := total (map (fun e => get f e.2) h).

(** Readings of a clock that does not go back, newest first. *)
Fixpoint monotone (h : history) : Prop :=
  match h with
  | [] => True
  | e :: h' => epoch e.1 /\ (forall e', e' ∈ h' -> e'.1 <= e.1) /\ monotone h'
  end.

Record ring_inv (h : history) (w : rollingWindow) : Prop := {
  ri_window : w_window w = W;
  ri_slot : w_slot w = slot;
  ri_starts : length (w_starts w) = 12%nat;
  ri_buckets : length (w_buckets w) = 12%nat;
  ri_bucket : forall i, (i < 12)%nat ->
    match latest h (Z.of_nat i) with
    | None => nth i (w_starts w) 0 = 0
    | Some m => nth i (w_starts w) 0 = start_of m /\
                forall f, get f (nth i (w_buckets w) no_counts) = wrap i64 (usage f (in_slot m h))
    end;
}.

Lemma slot_of_mono t u : t <= u -> slot_of t <= slot_of u.
Proof using HW. intros. unfold slot_of. pose proof slot_pos. apply Z.div_le_mono; lia. Qed.

Lemma slot_of_nonneg t : epoch t -> 0 <= slot_of t.
Proof using HW. unfold epoch, slot_of. intros. pose proof slot_pos. apply Z.div_pos; lia. Qed.

Lemma class_range t : 0 <= class_of t < 12.
Proof. unfold class_of. apply Z.mod_pos_bound. lia. Qed.

Lemma start_pos n : 0 <= n -> start_of n <> 0.
Proof using HW.
  unfold start_of, UnixTime, unixToInternal. pose proof slot_pos. intros.
  assert (0 <= n * slot) by nia. unfold Second. lia.
Qed.

Lemma start_inj m n : start_of m = start_of n -> m = n.
Proof using HW. unfold start_of, UnixTime. pose proof slot_pos. intros. nia. Qed.

Lemma latest_in h i m : latest h i = Some m -> exists e, e ∈ h /\ slot_of e.1 = m /\ class_of e.1 = i.
Proof.
  unfold latest. destruct (find _ h) as [e|] eqn:E; [|done]. intros [= <-].
  apply find_some in E as [Hin Hc]. apply list_elem_of_In in Hin. exists e. split; [done|]. lia.
Qed.

Lemma latest_max h i m e : monotone h -> latest h i = Some m -> e ∈ h -> class_of e.1 = i -> slot_of e.1 <= m.
Proof using HW.
  unfold latest. induction h as [|x h IH]; simpl; [done|]. intros (_ & Hx & Hm).
  destruct (Z.eqb_spec (class_of x.1) i) as [Hc|Hc].
  - intros [= <-] [->|He]%elem_of_cons _; [lia|]. apply slot_of_mono. by apply Hx.
  - intros Hl [->|He]%elem_of_cons Hce; [done|]. by apply IH.
Qed.

Lemma latest_none h i e : latest h i = None -> e ∈ h -> class_of e.1 <> i.
Proof.
  unfold latest. destruct (find _ h) as [x|] eqn:E; [done|]. intros _ He Hc.
  apply list_elem_of_In in He. pose proof (find_none _ _ E e He) as H. simpl in H.
  by rewrite Hc, Z.eqb_refl in H.
Qed.

Lemma class_of_slot t m : slot_of t = m -> class_of t = m mod 12.
Proof. intros <-. done. Qed.

Lemma in_slot_empty h n : (forall e, e ∈ h -> slot_of e.1 <> n) -> in_slot n h = [].
Proof.
  induction h as [|e h IH]; intros H; [done|]. unfold in_slot. simpl.
  destruct (Z.eqb_spec (slot_of e.1) n) as [E|_]; [by apply H in E; [|left]|].
  apply IH. intros x Hx. apply H. by right.
Qed.

Lemma index_eq t w : epoch t -> w_slot w = slot ->
  index t w =
  (Z.to_nat (class_of t),
   if nth (Z.to_nat (class_of t)) (w_starts w) 0 =? start_of (slot_of t) then w
   else set_bucket w (Z.to_nat (class_of t)) no_counts (start_of (slot_of t))).
Proof using HW.
  intros He Hs. pose proof slot_pos as [Hp _]. pose proof (slot_of_nonneg t He).
  unfold index, fix_slot. rewrite Hs. destruct (Z.leb_spec slot 0); [lia|]. rewrite Hs.
  unfold UnixNano. rewrite wrap_in_type_id; [|done|unfold epoch in He; type_bounds].
  rewrite Z.quot_div_nonneg by (unfold epoch in He; lia). fold (slot_of t).
  unfold bucketCount. rewrite Z.rem_mod_nonneg by lia. fold (class_of t).
  destruct (Z.ltb_spec (class_of t) 0); [pose proof (class_range t); lia|].
  fold (start_of (slot_of t)). by destruct (nth _ _ _ =? _).
Qed.

Lemma ring_inv_init : ring_inv [] (newRollingWindow W).
Proof using HW.
  unfold newRollingWindow. destruct (Z.leb_spec W 0); [lia|]. split; try done.
  intros i Hi. change (nth i (replicate 12 0) 0 = 0).
  do 12 (destruct i as [|i]; [reflexivity|]). lia.
Qed.

Lemma ring_inv_add h w t c : ring_inv h w -> monotone ((t, c) :: h) -> ring_inv ((t, c) :: h) (add t c w).
Proof using HW.
  intros [Hw Hs Hl Hb HB] (He & Hmax & Hm). simpl in He, Hmax.
  pose proof (class_range t) as Hc. set (k := Z.to_nat (class_of t)).
  assert (Hk : (k < 12)%nat) by lia. assert (Hzk : Z.of_nat k = class_of t) by lia.
  pose proof (HB k Hk) as HBk. rewrite Hzk in HBk.
  assert (Hnone : forall m, latest h (class_of t) = Some m -> m <> slot_of t -> in_slot (slot_of t) h = []).
  { intros m Hlm Hne. apply in_slot_empty. intros e Hin Hes.
    pose proof (latest_max h _ m e Hm Hlm Hin) as H1. rewrite (class_of_slot _ _ Hes) in H1.
    specialize (H1 eq_refl). destruct (latest_in _ _ _ Hlm) as (x & Hx & Hxs & _).
    pose proof (slot_of_mono x.1 t (Hmax x Hx)). lia. }
  unfold add. rewrite index_eq by done. fold k.
  assert (Hother : forall i, (i < 12)%nat -> i <> k ->
    latest ((t, c) :: h) (Z.of_nat i) = latest h (Z.of_nat i) /\
    forall m, latest h (Z.of_nat i) = Some m -> in_slot m ((t, c) :: h) = in_slot m h).
  { intros i Hi Hne. split.
    - unfold latest. simpl. destruct (Z.eqb_spec (class_of t) (Z.of_nat i)); [lia|done].
    - intros m Hlm. unfold in_slot. simpl. destruct (Z.eqb_spec (slot_of t) m) as [E|]; [|done]. exfalso.
      destruct (latest_in _ _ _ Hlm) as (x & _ & Hxs & Hxc). rewrite (class_of_slot _ _ Hxs) in Hxc.
      rewrite <- E in Hxc. unfold class_of in Hzk. lia. }
  assert (Hself : latest ((t, c) :: h) (Z.of_nat k) = Some (slot_of t) /\
    forall f, usage f (in_slot (slot_of t) ((t, c) :: h)) = get f c + usage f (in_slot (slot_of t) h)).
  { split; [unfold latest; simpl; by rewrite Hzk, Z.eqb_refl|].
    intros f. unfold in_slot, usage. simpl. by rewrite Z.eqb_refl. }
  destruct Hself as [Hsl Hsu].
  destruct (Z.eqb_spec (nth k (w_starts w) 0) (start_of (slot_of t))) as [Heq|Hne].
  - assert (Hlk : latest h (class_of t) = Some (slot_of t)).
    { destruct (latest h (class_of t)) as [m|]; 
        [|by rewrite HBk in Heq; symmetry in Heq; apply start_pos in Heq as []; apply slot_of_nonneg].
      destruct HBk as [HBk _]. rewrite HBk in Heq. apply start_inj in Heq. by rewrite Heq. }
    rewrite Hlk in HBk. destruct HBk as [Hst Hbk].
    split; simpl; rewrite ?length_insert; try done. intros i Hi. destruct (decide (i = k)) as [->|Hik].
    + rewrite Hsl. split; [done|]. intros f. rewrite nth_insert_eq by lia.
      rewrite get_add, Hbk, Hsu, wrap_add_l by done. f_equal. lia.
    + destruct (Hother i Hi Hik) as [-> Hin]. specialize (HB i Hi). rewrite nth_insert_ne by done.
      destruct (latest h (Z.of_nat i)) as [m|]; [|done]. by rewrite (Hin m eq_refl).
  - assert (Hempty : in_slot (slot_of t) h = []).
    { destruct (latest h (class_of t)) as [m|] eqn:Elm.
      - apply (Hnone m eq_refl). intros ->. by destruct HBk.
      - apply in_slot_empty. intros e Hin Hes. apply (latest_none h _ e Elm Hin). by apply class_of_slot. }
    split; simpl; rewrite ?length_insert; try done. intros i Hi. destruct (decide (i = k)) as [->|Hik].
    + rewrite Hsl, nth_insert_eq by lia. split; [done|]. intros f.
      rewrite nth_insert_eq by (rewrite length_insert; lia). rewrite nth_insert_eq by lia.
      rewrite get_add, get_none, Hsu, Hempty. unfold usage. simpl. f_equal. lia.
    + destruct (Hother i Hi Hik) as [-> Hin]. specialize (HB i Hi). rewrite !nth_insert_ne by done.
      destruct (latest h (Z.of_nat i)) as [m|]; [|done]. by rewrite (Hin m eq_refl).
Qed.

Lemma fill_inv h : monotone h -> ring_inv h (fill h).
Proof using HW.
  induction h as [|[t c] h IH]; intros Hm; [apply ring_inv_init|]. simpl.
  apply ring_inv_add; [|done]. apply IH. by destruct Hm as (_ & _ & Hm).
Qed.

(** ** Lemmas: the sum over the ring is a sum over events *)

Lemma total_const0 {A} (l : list A) : total (map (fun _ => 0) l) = 0.
Proof. induction l; simpl; lia. Qed.

Lemma total_add {A} (f g : A -> Z) l : total (map (fun x => f x + g x) l) = total (map f l) + total (map g l).
Proof. induction l as [|x l IH]; simpl; lia. Qed.

Lemma total_ext {A} (f g : A -> Z) l : (forall x, x ∈ l -> f x = g x) -> total (map f l) = total (map g l).
Proof.
  induction l as [|x l IH]; intros H; [done|]. simpl. rewrite (H x) by (by left). rewrite IH; [done|].
  intros y Hy. apply H. by right.
Qed.

Lemma total_le {A} (f g : A -> Z) l : (forall x, x ∈ l -> f x <= g x) -> total (map f l) <= total (map g l).
Proof.
  induction l as [|x l IH]; intros H; [done|]. simpl.
  pose proof (H x ltac:(by left)). pose proof (IH ltac:(intros y Hy; apply H; by right)). lia.
Qed.

(** Exactly one class contains a given event. *)
Lemma total_one_class k x n : (k < n)%nat ->
  total (map (fun i => if Z.of_nat i =? Z.of_nat k then x else 0) (seq 0 n)) = x.
Proof.
  intros Hk. replace n with (k + S (n - S k))%nat by lia. rewrite seq_app, map_app, total_app. simpl.
  rewrite Z.eqb_refl.
  rewrite (total_ext _ (fun _ => 0) (seq 0 k)), (total_ext _ (fun _ => 0) (seq (S k) _)), !total_const0; [lia|..];
    intros i Hi%elem_of_seq; destruct (Z.eqb_spec (Z.of_nat i) (Z.of_nat k)); lia.
Qed.

Lemma total_by_class (a : Time * counts -> Z) h :
  total (map (fun i => total (map (fun e => if Z.of_nat i =? class_of e.1 then a e else 0) h)) (seq 0 12))
  = total (map a h).
Proof.
  induction h as [|e h IH]; [apply total_const0|].
  pose proof (class_range e.1). set (k := Z.to_nat (class_of e.1)).
  rewrite (total_ext _ (fun i => (if Z.of_nat i =? Z.of_nat k then a e else 0) +
    total (map (fun e => if Z.of_nat i =? class_of e.1 then a e else 0) h))).
  - rewrite total_add, IH, total_one_class by lia. done.
  - intros i _. simpl. unfold k. by rewrite Z2Nat.id by lia.
Qed.

(** The events the ring still accounts for at [now]. *)
Definition counted (now : Time) (h : history) (e : Time * counts) : bool :=
  live (now - W) (start_of (slot_of e.1)) && bool_decide (latest h (class_of e.1) = Some (slot_of e.1)).

Lemma usage_filter f h n :
  usage f (in_slot n h) = total (map (fun e => if slot_of e.1 =? n then get f e.2 else 0) h).
Proof.
  unfold usage, in_slot. induction h as [|e h IH]; [done|]. simpl. destruct (slot_of e.1 =? n); simpl; lia.
Qed.

Lemma sum_counted f now h : monotone h ->
  get f (sum now (fill h)) = wrap i64 (total (map (fun e => if counted now h e then get f e.2 else 0) h)).
Proof using HW.
  intros Hm. destruct (fill_inv h Hm) as [Hw Hs Hl Hb HB]. unfold sum.
  rewrite (foldl_live f _ _ no_counts 0) by by rewrite get_none. rewrite Hw, Z.add_0_l.
  rewrite (zip_nth_seq _ _ 12 0 no_counts) by done. rewrite map_map.
  set (bucket := fun i => total (map (fun e => if Z.of_nat i =? class_of e.1
                                               then if counted now h e then get f e.2 else 0 else 0) h)).
  rewrite <- (total_by_class (fun e => if counted now h e then get f e.2 else 0)). fold bucket.
  assert (Heq : forall i, (i < 12)%nat ->
    (if live (now - W) (nth i (w_starts (fill h)) 0) then get f (nth i (w_buckets (fill h)) no_counts) else 0)
    = wrap i64 (bucket i)).
  { intros i Hi. specialize (HB i Hi). unfold bucket. destruct (latest h (Z.of_nat i)) as [m|] eqn:El.
    - destruct HB as [-> HB].
      assert (Hmi : m mod 12 = Z.of_nat i)
        by (destruct (latest_in _ _ _ El) as (x & _ & Hxs & Hxc); by rewrite <- Hxc, (class_of_slot _ _ Hxs)).
      rewrite HB, usage_filter.
      destruct (live (now - W) (start_of m)) eqn:Elive.
      + f_equal. apply total_ext. intros e He. unfold counted.
        destruct (Z.eqb_spec (Z.of_nat i) (class_of e.1)) as [Hc|Hc].
        * rewrite <- Hc, El. destruct (Z.eqb_spec (slot_of e.1) m) as [->|Hne].
          { by rewrite Elive, bool_decide_eq_true_2. }
          { rewrite bool_decide_eq_false_2 by congruence. by rewrite andb_false_r. }
        * destruct (Z.eqb_spec (slot_of e.1) m) as [E|]; [|done]. apply class_of_slot in E. lia.
      + rewrite (total_ext _ (fun _ => 0)), total_const0; [done|]. intros e He. unfold counted.
        destruct (Z.eqb_spec (Z.of_nat i) (class_of e.1)) as [Hc|Hc]; [|done]. rewrite <- Hc, El.
        case_bool_decide as Hs'; [|by rewrite andb_false_r]. injection Hs' as <-. by rewrite Elive.
    - rewrite HB. rewrite (total_ext _ (fun _ => 0)), total_const0; [done|]. intros e He.
      pose proof (latest_none h _ e El He). destruct (Z.eqb_spec (Z.of_nat i) (class_of e.1)); [congruence|done]. }
  set (entry := fun i => if live (now - W) (nth i (w_starts (fill h)) 0)
                         then get f (nth i (w_buckets (fill h)) no_counts) else 0) in *.
  assert (Hent : forall i, (i < 12)%nat -> entry i = wrap i64 (bucket i)) by exact Heq.
  assert (Hseq : forall l, (forall i, i ∈ l -> (i < 12)%nat) ->
    wrap i64 (total (map entry l)) = wrap i64 (total (map bucket l))).
  { induction l as [|i l IH]; intros Hin; [done|]. simpl.
    rewrite (Hent i) by (apply Hin; by left).
    rewrite wrap_add_l, <- (wrap_add_r _ _ (total (map bucket l))) by done.
    rewrite <- IH by (intros j Hj; apply Hin; by right). by rewrite wrap_add_r. }
  apply Hseq. intros i Hi%elem_of_seq. lia.
Qed.

(** Events not older than the window. *)
Definition since (t : Time) (h : history) : history := List.filter (fun e => t <=? e.1) h.

Lemma usage_since f t h :
  usage f (since t h) = total (map (fun e => if t <=? e.1 then get f e.2 else 0) h).
Proof.
  unfold usage, since. induction h as [|e h IH]; [done|]. simpl. destruct (t <=? e.1); simpl; lia.
Qed.

Lemma counted_within now h e : epoch e.1 -> counted now h e = true -> now - W <= e.1.
Proof using HW.
  intros He [Hlive _]%andb_prop. pose proof slot_pos as [Hp _]. unfold live, Before in Hlive.
  apply negb_true_iff, orb_false_iff in Hlive as [_ Hlive%Z.ltb_ge].
  unfold start_of, slot_of, UnixTime in Hlive. pose proof (Z.mul_div_le (e.1 - unixToInternal) slot). lia.
Qed.

Lemma counted_recent now h e :
  monotone h -> (forall x, x ∈ h -> x.1 <= now) -> e ∈ h -> epoch e.1 ->
  now - 11 * slot <= e.1 -> counted now h e = true.
Proof using HW.
  intros Hm Hnow He Hep Ht. pose proof slot_pos as [Hp HpW]. unfold counted. apply andb_true_intro.
  pose proof (Z.mul_succ_div_gt (e.1 - unixToInternal) slot ltac:(lia)) as Hgt. fold (slot_of e.1) in Hgt.
  split.
  - unfold live, Before, IsZero. rewrite (proj2 (Z.eqb_neq _ _) (start_pos _ (slot_of_nonneg _ Hep))). simpl.
    apply negb_true_iff, Z.ltb_ge. unfold start_of, UnixTime. lia.
  - apply bool_decide_eq_true_2. destruct (latest h (class_of e.1)) as [m|] eqn:El.
    + f_equal. pose proof (latest_max h _ m e Hm El He eq_refl) as Hle.
      destruct (latest_in _ _ _ El) as (x & Hx & Hxs & Hxc). specialize (Hnow x Hx).
      destruct (Z.eq_dec m (slot_of e.1)) as [|Hne]; [done|]. exfalso.
      unfold class_of in Hxc. rewrite Hxs in Hxc.
      assert (slot_of e.1 + 12 <= m) by (Z.to_euclidean_division_equations; lia).
      pose proof (Z.mul_div_le (x.1 - unixToInternal) slot ltac:(lia)) as Hxl. fold (slot_of x.1) in Hxl.
      rewrite Hxs in Hxl. nia.
    + by pose proof (latest_none h _ e El He).
Qed.
End ring.

(** ** Properties *)

(** What a rolling window reports.  For usage recorded under a clock that does not go
    back, every counter of [sum now] is, up to 64-bit wrap-around, a total that
    covers all usage of the last eleven slots (11/12 of the window) and nothing
    older than the window. *)
Theorem window_sum_bounds W h now f :
  12 <= W <= maxDuration -> monotone h -> (forall e, e ∈ h -> e.1 <= now) ->
  (forall e, e ∈ h -> 0 <= get f e.2) ->
  exists T, get f (sum now (fill W h)) = wrap i64 T /\
    usage f (since (now - 11 * slot W) h) <= T <= usage f (since (now - W) h).
Proof.
  intros HW Hm Hnow Hpos. exists (total (map (fun e => if counted W now h e then get f e.2 else 0) h)).
  split; [by apply sum_counted|]. rewrite !usage_since.
  assert (Hep : forall e, e ∈ h -> epoch e.1).
  { clear -Hm. induction h as [|x h IH]; [set_solver|]. destruct Hm as (Hx & _ & Hm).
    intros e [->|He]%elem_of_cons; [done|]. by apply IH. }
  split; apply total_le; intros e He; specialize (Hpos e He); specialize (Hep e He).
  - destruct (Z.leb_spec (now - 11 * slot W) e.1); [|destruct (counted W now h e); lia].
    by rewrite counted_recent.
  - destruct (counted W now h e) eqn:Ec; [|destruct (now - W <=? e.1); lia].
    apply counted_within in Ec; [|done|done]. destruct (Z.leb_spec (now - W) e.1); lia.
Qed.

(** Three calls a minute window apart: the first has aged out. *)
Definition demo_time (s : Z) : Time := UnixTime ((1700000000 + s) * Second).
Definition demo_usage : list (Time * counts) :=
  [(demo_time 70, mkCounts 1 0 40 0 0 0); (demo_time 61, mkCounts 1 0 30 0 0 0); (demo_time 0, mkCounts 1 0 20 0 0 0)].

Lemma window_sum_bounds_witness : exists T,
  get OutputTokens (sum (demo_time 71) (fill Minute demo_usage)) = wrap i64 T /\ 70 <= T <= 70.
Proof.
  destruct (window_sum_bounds Minute demo_usage (demo_time 71) OutputTokens) as (T & E & HT).
  - unfold maxDuration. vm_compute. split; discriminate.
  - repeat split; try (intros e He; repeat (apply elem_of_cons in He as [->|He]; [vm_compute; discriminate|]); set_solver);
      vm_compute; try discriminate; reflexivity.
  - intros e He. repeat (apply elem_of_cons in He as [->|He]; [vm_compute; discriminate|]). set_solver.
  - intros e He. repeat (apply elem_of_cons in He as [->|He]; [vm_compute; discriminate|]). set_solver.
  - exists T. split; [exact E|]. exact HT.
Defined.

Lemma foldl_oldest_some l o : is_Some o ->
  is_Some (foldl (fun o (kt : string * Time) => match o with
    | None => Some kt | Some old => if Before kt.2 old.2 then Some kt else Some old end) o l).
Proof.
  revert o. induction l as [|x l IH]; intros o Ho; [done|]. simpl. apply IH.
  destruct o as [old|]; [destruct (Before x.2 old.2)|]; by eexists.
Qed.

Lemma foldl_oldest_in l : forall o k t,
  foldl (fun o (kt : string * Time) => match o with
    | None => Some kt | Some old => if Before kt.2 old.2 then Some kt else Some old end) o l = Some (k, t) ->
  o = Some (k, t) \/ (k, t) ∈ l.
Proof.
  induction l as [|x l IH]; intros o k t H; simpl in H; [by left|].
  apply IH in H as [H|H]; [|right; by right].
  destruct o as [old|]; [destruct (Before x.2 old.2)|]; injection H as ->; [right; left|left|right; left]; done.
Qed.

(** A tenant cannot grow its set of recent values without bound: whatever
    values are observed, at whatever times and in whatever order the map is
    iterated, the set never holds more than 64 of them, and the value just
    observed is reported as novel exactly when it was absent or expired. *)
Theorem recent_set_bounded iter now v s :
  (forall m, iter m ≡ₚ map_to_list m) -> 0 <= rs_ttl s ->
  Z.of_nat (size (rs_seen s)) <= maxRecentValues ->
  let '(novel, s') := observe iter now v s in
  Z.of_nat (size (rs_seen s')) <= maxRecentValues /\
  (v <> "" -> novel = match rs_seen s !! v with
                      | None => true
                      | Some t => rs_ttl s <? Sub now t
                      end).
Proof.
  intros Hiter Httl Hsz. unfold observe. destruct (String.eqb_spec v "") as [->|Hv]; [done|].
  assert (Hp : (size (rs_seen (prune now s)) <= size (rs_seen s))%nat).
  { simpl. apply map_subseteq_size, map_filter_subseteq. }
  split.
  - destruct (rs_seen (prune now s) !! v) as [t|] eqn:E; simpl.
    + rewrite map_size_insert. simpl in E. rewrite E. simpl in Hp. simpl. lia.
    + rewrite map_size_insert. simpl in E. rewrite E. simpl in Hp. simpl.
      set (m := <[v := now]> _).
      assert (Hsm : size m = S (size (filter (fun kv : string * Time => Sub now kv.2 <= rs_ttl s) (rs_seen s))))
        by (unfold m; rewrite map_size_insert, E; done).
      destruct (Z.ltb_spec maxRecentValues
        (Z.of_nat (S (size (filter (fun kv : string * Time => Sub now kv.2 <= rs_ttl s) (rs_seen s)))))).
      * unfold evictOldest. simpl. fold m. unfold oldest_entry.
        destruct (foldl _ None (iter m)) as [[k t]|] eqn:Eo.
        -- apply foldl_oldest_in in Eo as [|Hin]; [done|]. rewrite Hiter in Hin.
           apply elem_of_map_to_list in Hin. simpl. rewrite map_size_delete, Hin. lia.
        -- exfalso. destruct (iter m) as [|x l] eqn:Ei.
           { assert (size m = 0%nat); [|lia]. rewrite <- length_map_to_list, <- Hiter, Ei. done. }
           simpl in Eo. destruct (foldl_oldest_some l (Some x) ltac:(by eexists)) as [? Hs]. congruence.
      * simpl. fold m. lia.
  - intros _. simpl. rewrite map_lookup_filter. destruct (rs_seen s !! v) as [t|]; [|done]. simpl.
    case_guard; simpl; [done|]. symmetry. apply Z.ltb_lt. lia.
Qed.

Lemma recent_set_bounded_witness :
  let '(novel, s') := observe map_to_list 20 "m2" (observe map_to_list 10 "m1" (newRecentSet Minute)).2 in
  Z.of_nat (size (rs_seen s')) <= maxRecentValues /\ ("m2" <> "" -> novel = true).
Proof.
  apply (recent_set_bounded map_to_list 20 "m2" (observe map_to_list 10 "m1" (newRecentSet Minute)).2).
  - intros m. reflexivity.
  - vm_compute. discriminate.
  - vm_compute. discriminate.
Defined.
