(* ===== verification/Ladder.v ===== *)
(** * internal/modelgateway, quota.go, anomaly.go, policy.go: the response ladder

    Each operation holds its tenant's lock, so it is one step on the tenant's state;
    the clock is read before the lock, so the readings [now] of successive
    operations need not be ordered and nothing below assumes they are.  The texts of
    reasons and details are not modelled: a reason is a constructor.  The map
    iteration order [iter] is an argument. *)

From S2P Require Import Prelude GoStrings GoNet GoFloat Window.
#[local] Open Scope string_scope.
#[local] Open Scope list_scope.
#[local] Open Scope Z_scope.

(** ** Budgets *)

Record QuotaLimits := mkQuota {
  q_Window : Duration;
  q_MaxCalls : Z;
  q_MaxTotalTokens : Z;
  q_MaxOutputTokens : Z;
}.

Definition quota_IsZero (q : QuotaLimits) : bool :=
  (q_MaxCalls q =? 0) && (q_MaxTotalTokens q =? 0) && (q_MaxOutputTokens q =? 0).

Definition quota_normalized (q : QuotaLimits) : QuotaLimits :=
  if q_Window q <=? 0
  then {| q_Window := Minute; q_MaxCalls := q_MaxCalls q; q_MaxTotalTokens := q_MaxTotalTokens q;
          q_MaxOutputTokens := q_MaxOutputTokens q |}
  else q.

Record quotaUsage := mkUsage {
  u_fraction : float64;
  u_exceeded : string;
  u_calls : Z;
  u_tokens : Z;
  u_output : Z;
}.

Definition consider (used limit : Z) (name : string) (u : quotaUsage) : quotaUsage :=
  if limit <=? 0 then u
  else
    let f := fdiv (of_int used) (of_int limit) in
    {| u_fraction := if flt (u_fraction u) f then f else u_fraction u;
       u_exceeded := if (limit <=? used) && String.eqb (u_exceeded u) "" then name else u_exceeded u;
       u_calls := u_calls u; u_tokens := u_tokens u; u_output := u_output u |}.

Definition quota_evaluate (q : QuotaLimits) (c : counts) : quotaUsage :=
  let u := {| u_fraction := 0%Q; u_exceeded := ""; u_calls := calls c; u_tokens := totalTokens c;
              u_output := outputTokens c |} in
  consider (outputTokens c) (q_MaxOutputTokens q) "output_tokens"
    (consider (totalTokens c) (q_MaxTotalTokens q) "total_tokens"
       (consider (calls c) (q_MaxCalls q) "calls" u)).

(** ** Anomaly signals *)

Record AnomalyConfig := mkAnomaly {
  an_Enabled : bool;
  an_BaselineWindow : Duration;
  an_BaselineAlpha : float64;
  an_BaselineMinSamples : Z;
  an_BaselineFactor : float64;
  an_NoveltyTTL : Duration;
  an_ConcurrentSourceNets : Z;
  an_ConcurrentWindow : Duration;
  an_AuthFailureRatio : float64;
  an_AuthFailureMin : Z;
}.

(** A decimal literal of the source. *)
Definition lit (q : Q) : float64 := rnd q.

Definition anomaly_normalized (a : AnomalyConfig) : AnomalyConfig :=
  {| an_Enabled := an_Enabled a;
     an_BaselineWindow := if an_BaselineWindow a <=? 0 then 5 * Minute else an_BaselineWindow a;
     an_BaselineAlpha := if fle (an_BaselineAlpha a) 0%Q || flt 1%Q (an_BaselineAlpha a) then lit (2 # 10)
                         else an_BaselineAlpha a;
     an_BaselineMinSamples := if an_BaselineMinSamples a <=? 0 then 5 else an_BaselineMinSamples a;
     an_BaselineFactor := if fle (an_BaselineFactor a) 1%Q then lit (8 # 1) else an_BaselineFactor a;
     an_NoveltyTTL := if an_NoveltyTTL a <=? 0 then 24 * Hour else an_NoveltyTTL a;
     an_ConcurrentSourceNets := if an_ConcurrentSourceNets a <=? 0 then 3 else an_ConcurrentSourceNets a;
     an_ConcurrentWindow := if an_ConcurrentWindow a <=? 0 then 5 * Minute else an_ConcurrentWindow a;
     an_AuthFailureRatio := if fle (an_AuthFailureRatio a) 0%Q then lit (3 # 10) else an_AuthFailureRatio a;
     an_AuthFailureMin := if an_AuthFailureMin a <=? 0 then 10 else an_AuthFailureMin a |}.

Record Signal := mkSignal { sg_Name : string; sg_Severity : float64 }.

Definition SignalRateBaseline := "rate_baseline".
Definition SignalNewModel := "model_switch".
Definition SignalNewEndpoint := "endpoint_mix".
Definition SignalConcurrentNets := "concurrent_source_nets".
Definition SignalAuthFailureRate := "auth_failure_ratio".

Definition clamp01 (v : float64) : float64 :=
  if flt v 0%Q then 0%Q else if flt 1%Q v then 1%Q else v.

(** ** A tenant's state *)

Abbreviation PolicyState := Z (only parsing).
Definition StateObserve : PolicyState := 0.
Definition StateThrottle : PolicyState := 1.
Definition StateAlert : PolicyState := 2.
Definition StateCircuitBreak : PolicyState := 3.
Definition StateRevoke : PolicyState := 4.

Record tenantState := mkTenant {
  t_rateWindow : rollingWindow;
  t_baseline : ewma;
  t_lastBaselineAt : Time;
  t_models : recentSet;
  t_endpoints : recentSet;
  t_sourceNets : recentSet;
  t_pendingNewModel : string;
  t_pendingNewEndpoint : string;
  t_state : PolicyState;
  t_stateSince : Time;
  t_lastTrigger : Time;
  t_lastAdmitted : Time;
  t_breakUntil : Time;
  t_manualReason : string;
  t_lastScore : float64;
  t_lastQuota : float64;
  t_lastSignals : list Signal;
}.

(** [evaluate]; the second result is the set of source networks after its pruning. *)
Definition anomaly_evaluate (a : AnomalyConfig) (ts : tenantState) (now : Time) : list Signal * recentSet :=
  if negb (an_Enabled a) then ([], t_sourceNets ts)
  else
    let base := ew_value (t_baseline ts) in
    let samples := ew_samples (t_baseline ts) in
    let learning := samples <? an_BaselineMinSamples a in
    let s1 :=
      if (an_BaselineMinSamples a <=? samples) && flt 0%Q base then
        let ratio := fdiv (rate now (t_rateWindow ts)) base in
        if fle (an_BaselineFactor a) ratio
        then [mkSignal SignalRateBaseline
                (clamp01 (fdiv (fsub ratio (an_BaselineFactor a)) (fmul (an_BaselineFactor a) (lit (3 # 1)))))]
        else []
      else [] in
    let s2 := if negb (String.eqb (t_pendingNewModel ts) "") && negb learning
              then [mkSignal SignalNewModel (lit (5 # 10))] else [] in
    let s3 := if negb (String.eqb (t_pendingNewEndpoint ts) "") && negb learning
              then [mkSignal SignalNewEndpoint (lit (4 # 10))] else [] in
    let '(n, nets) := recent_len now (t_sourceNets ts) in
    let s4 := if an_ConcurrentSourceNets a <? n
              then [mkSignal SignalConcurrentNets
                      (clamp01 (fdiv (of_int (n - an_ConcurrentSourceNets a)) (of_int (an_ConcurrentSourceNets a))))]
              else [] in
    let w := sum now (t_rateWindow ts) in
    let total := add64 (calls w) (authDenials w) in
    let s5 := if an_AuthFailureMin a <=? total then
                let ratio := fdiv (of_int (authDenials w)) (of_int total) in
                if fle (an_AuthFailureRatio a) ratio then [mkSignal SignalAuthFailureRate (clamp01 ratio)] else []
              else [] in
    (s1 ++ s2 ++ s3 ++ s4 ++ s5, nets).

Definition score (sigs : list Signal) : float64 :=
  let max := foldl (fun m s => if flt m (sg_Severity s) then sg_Severity s else m) 0%Q sigs in
  let n := Z.of_nat (length sigs) in
  clamp01 (if 1 <? n then fadd max (fmul (lit (1 # 10)) (of_int (n - 1))) else max).

(** ** The ladder *)

Record PolicyConfig := mkConfig {
  c_Quota : QuotaLimits;
  c_Anomaly : AnomalyConfig;
  c_ThrottleAtQuota : float64;
  c_ThrottleMinInterval : Duration;
  c_AlertAt : float64;
  c_BreakAt : float64;
  c_RevokeAt : float64;
  c_CircuitBreakFor : Duration;
  c_Cooldown : Duration;
  c_Alerts : bool;
}.

Definition config_normalized (c : PolicyConfig) : PolicyConfig :=
  {| c_Quota := quota_normalized (c_Quota c);
     c_Anomaly := anomaly_normalized (c_Anomaly c);
     c_ThrottleAtQuota := if fle (c_ThrottleAtQuota c) 0%Q || flt 1%Q (c_ThrottleAtQuota c) then lit (8 # 10)
                          else c_ThrottleAtQuota c;
     c_ThrottleMinInterval := if c_ThrottleMinInterval c <=? 0 then 2 * Second else c_ThrottleMinInterval c;
     c_AlertAt := if fle (c_AlertAt c) 0%Q then lit (3 # 10) else c_AlertAt c;
     c_BreakAt := if fle (c_BreakAt c) 0%Q then lit (6 # 10) else c_BreakAt c;
     c_RevokeAt := c_RevokeAt c;
     c_CircuitBreakFor := if c_CircuitBreakFor c <=? 0 then Minute else c_CircuitBreakFor c;
     c_Cooldown := if c_Cooldown c <=? 0 then 5 * Minute else c_Cooldown c;
     c_Alerts := c_Alerts c |}.

Record RequestInfo := mkInfo {
  i_Tenant : string; i_Skill : string; i_Provider : string;
  i_Model : string; i_Endpoint : string; i_RemoteAddr : string;
}.

Inductive reason :=
| NoReason | QuotaExceeded | ApproachingQuota | AnomalyScore
| BreakElapsed | CooldownElapsed | OperatorRevoked (why : string) | OperatorCleared
| Throttled | CircuitOpen | Revoked (why : string).

Record PolicyEvent := mkEvent {
  ev_Tenant : string; ev_Skill : string; ev_Provider : string;
  ev_From : PolicyState; ev_To : PolicyState;
  ev_Score : float64; ev_Quota : float64;
  ev_Reason : reason; ev_Signals : list Signal; ev_At : Time;
}.

Record Decision := mkDecision {
  d_State : PolicyState;
  d_Allow : bool;
  d_Status : Z;
  d_Reason : reason;
  d_RetryAfter : Duration;
  d_Signals : list Signal;
}.

Definition StatusForbidden : Z := 403.
Definition StatusTooManyRequests : Z := 429.
Definition StatusServiceUnavailable : Z := 503.

Definition emit (cfg : PolicyConfig) (ts : tenantState) (info : RequestInfo) (from to : PolicyState) (r : reason)
  (now : Time) (sigs : list Signal) : list PolicyEvent :=
  if negb (c_Alerts cfg) || (from =? to) then []
  else [{| ev_Tenant := i_Tenant info; ev_Skill := i_Skill info; ev_Provider := i_Provider info;
           ev_From := from; ev_To := to; ev_Score := t_lastScore ts; ev_Quota := t_lastQuota ts;
           ev_Reason := r; ev_Signals := sigs; ev_At := now |}].

(** Updates of the fields a transition and an admission write. *)
Definition set_rung (ts : tenantState) (state : PolicyState) (since lastTrigger breakUntil : Time) : tenantState :=
  {| t_rateWindow := t_rateWindow ts; t_baseline := t_baseline ts; t_lastBaselineAt := t_lastBaselineAt ts;
     t_models := t_models ts; t_endpoints := t_endpoints ts; t_sourceNets := t_sourceNets ts;
     t_pendingNewModel := t_pendingNewModel ts; t_pendingNewEndpoint := t_pendingNewEndpoint ts;
     t_state := state; t_stateSince := since; t_lastTrigger := lastTrigger;
     t_lastAdmitted := t_lastAdmitted ts; t_breakUntil := breakUntil; t_manualReason := t_manualReason ts;
     t_lastScore := t_lastScore ts; t_lastQuota := t_lastQuota ts; t_lastSignals := t_lastSignals ts |}.

Definition set_window (ts : tenantState) (w : rollingWindow) : tenantState :=
  {| t_rateWindow := w; t_baseline := t_baseline ts; t_lastBaselineAt := t_lastBaselineAt ts;
     t_models := t_models ts; t_endpoints := t_endpoints ts; t_sourceNets := t_sourceNets ts;
     t_pendingNewModel := t_pendingNewModel ts; t_pendingNewEndpoint := t_pendingNewEndpoint ts;
     t_state := t_state ts; t_stateSince := t_stateSince ts; t_lastTrigger := t_lastTrigger ts;
     t_lastAdmitted := t_lastAdmitted ts; t_breakUntil := t_breakUntil ts; t_manualReason := t_manualReason ts;
     t_lastScore := t_lastScore ts; t_lastQuota := t_lastQuota ts; t_lastSignals := t_lastSignals ts |}.

Definition set_admitted (ts : tenantState) (now : Time) : tenantState :=
  {| t_rateWindow := t_rateWindow ts; t_baseline := t_baseline ts; t_lastBaselineAt := t_lastBaselineAt ts;
     t_models := t_models ts; t_endpoints := t_endpoints ts; t_sourceNets := t_sourceNets ts;
     t_pendingNewModel := t_pendingNewModel ts; t_pendingNewEndpoint := t_pendingNewEndpoint ts;
     t_state := t_state ts; t_stateSince := t_stateSince ts; t_lastTrigger := t_lastTrigger ts;
     t_lastAdmitted := now; t_breakUntil := t_breakUntil ts; t_manualReason := t_manualReason ts;
     t_lastScore := t_lastScore ts; t_lastQuota := t_lastQuota ts; t_lastSignals := t_lastSignals ts |}.

Definition set_reason (ts : tenantState) (why : string) : tenantState :=
  {| t_rateWindow := t_rateWindow ts; t_baseline := t_baseline ts; t_lastBaselineAt := t_lastBaselineAt ts;
     t_models := t_models ts; t_endpoints := t_endpoints ts; t_sourceNets := t_sourceNets ts;
     t_pendingNewModel := t_pendingNewModel ts; t_pendingNewEndpoint := t_pendingNewEndpoint ts;
     t_state := t_state ts; t_stateSince := t_stateSince ts; t_lastTrigger := t_lastTrigger ts;
     t_lastAdmitted := t_lastAdmitted ts; t_breakUntil := t_breakUntil ts; t_manualReason := why;
     t_lastScore := t_lastScore ts; t_lastQuota := t_lastQuota ts; t_lastSignals := t_lastSignals ts |}.

Definition set_measured (ts : tenantState) (b : ewma) (bAt : Time) (nets : recentSet) (sc q : float64)
  (sigs : list Signal) : tenantState :=
  {| t_rateWindow := t_rateWindow ts; t_baseline := b; t_lastBaselineAt := bAt;
     t_models := t_models ts; t_endpoints := t_endpoints ts; t_sourceNets := nets;
     t_pendingNewModel := t_pendingNewModel ts; t_pendingNewEndpoint := t_pendingNewEndpoint ts;
     t_state := t_state ts; t_stateSince := t_stateSince ts; t_lastTrigger := t_lastTrigger ts;
     t_lastAdmitted := t_lastAdmitted ts; t_breakUntil := t_breakUntil ts; t_manualReason := t_manualReason ts;
     t_lastScore := sc; t_lastQuota := q; t_lastSignals := sigs |}.

Definition set_novelty (ts : tenantState) (m : recentSet) (newModel : string) (e : recentSet)
  (newEndpoint : string) (nets : recentSet) : tenantState :=
  {| t_rateWindow := t_rateWindow ts; t_baseline := t_baseline ts; t_lastBaselineAt := t_lastBaselineAt ts;
     t_models := m; t_endpoints := e; t_sourceNets := nets;
     t_pendingNewModel := newModel; t_pendingNewEndpoint := newEndpoint;
     t_state := t_state ts; t_stateSince := t_stateSince ts; t_lastTrigger := t_lastTrigger ts;
     t_lastAdmitted := t_lastAdmitted ts; t_breakUntil := t_breakUntil ts; t_manualReason := t_manualReason ts;
     t_lastScore := t_lastScore ts; t_lastQuota := t_lastQuota ts; t_lastSignals := t_lastSignals ts |}.

Definition target (cfg : PolicyConfig) (q : quotaUsage) (sc : float64) : PolicyState * reason :=
  let '(state, r) :=
    if negb (quota_IsZero (c_Quota cfg)) then
      if negb (String.eqb (u_exceeded q) "") then (StateCircuitBreak, QuotaExceeded)
      else if fle (c_ThrottleAtQuota cfg) (u_fraction q) then (StateThrottle, ApproachingQuota)
      else (StateObserve, NoReason)
    else (StateObserve, NoReason) in
  if an_Enabled (c_Anomaly cfg) then
    let as_ := if flt 0%Q (c_RevokeAt cfg) && fle (c_RevokeAt cfg) sc then StateRevoke
               else if fle (c_BreakAt cfg) sc then StateCircuitBreak
               else if fle (c_AlertAt cfg) sc then StateAlert
               else StateObserve in
    if state <? as_ then (as_, AnomalyScore) else (state, r)
  else (state, r).

Definition transition (cfg : PolicyConfig) (ts : tenantState) (info : RequestInfo) (want : PolicyState) (r : reason)
  (now : Time) (sigs : list Signal) : tenantState * list PolicyEvent :=
  if t_state ts =? StateRevoke then (ts, [])
  else
    let trig := if StateObserve <? want then now else t_lastTrigger ts in
    let from := t_state ts in
    if from <? want then
      (set_rung ts want now trig (if want =? StateCircuitBreak then now + c_CircuitBreakFor cfg else t_breakUntil ts),
       emit cfg ts info from want r now sigs)
    else if (from =? StateCircuitBreak) && After now (t_breakUntil ts) then
      if StateCircuitBreak <=? want
      then (set_rung ts from (t_stateSince ts) trig (now + c_CircuitBreakFor cfg), [])
      else (set_rung ts StateAlert now trig (t_breakUntil ts), emit cfg ts info from StateAlert BreakElapsed now sigs)
    else if (want <? from) && (c_Cooldown cfg <=? Sub now trig) then
      (set_rung ts (from - 1) now trig (t_breakUntil ts), emit cfg ts info from (from - 1) CooldownElapsed now sigs)
    else (set_rung ts from (t_stateSince ts) trig (t_breakUntil ts), []).

Definition policyDenial : counts := mkCounts 0 0 0 0 0 1.

Definition deny (ts : tenantState) (now : Time) (status : Z) (r : reason) (retry : Duration) (sigs : list Signal)
  : Decision * tenantState :=
  ({| d_State := t_state ts; d_Allow := false; d_Status := status; d_Reason := r; d_RetryAfter := retry;
      d_Signals := sigs |}, set_window ts (add now policyDenial (t_rateWindow ts))).

Definition allow (ts : tenantState) (sigs : list Signal) : Decision :=
  {| d_State := t_state ts; d_Allow := true; d_Status := 0; d_Reason := NoReason; d_RetryAfter := 0;
     d_Signals := sigs |}.

Definition admit_call (cfg : PolicyConfig) (ts : tenantState) (now : Time) (q : quotaUsage) (sigs : list Signal)
  : Decision * tenantState :=
  if t_state ts =? StateObserve then (allow ts sigs, set_admitted ts now)
  else if (t_state ts =? StateThrottle) || (t_state ts =? StateAlert) then
    if negb (String.eqb (u_exceeded q) "")
    then deny ts now StatusTooManyRequests QuotaExceeded (q_Window (c_Quota cfg)) sigs
    else
      let wait := wrap i64 (c_ThrottleMinInterval cfg - Sub now (t_lastAdmitted ts)) in
      if (0 <? wait) && negb (IsZero (t_lastAdmitted ts))
      then deny ts now StatusTooManyRequests Throttled wait sigs
      else (allow ts sigs, set_admitted ts now)
  else if t_state ts =? StateCircuitBreak then
    deny ts now StatusServiceUnavailable CircuitOpen (Z.max 0 (Sub (t_breakUntil ts) now)) sigs
  else if t_state ts =? StateRevoke then
    deny ts now StatusForbidden (Revoked (t_manualReason ts)) 0 sigs
  else (allow ts sigs, ts).

(** The network a peer address is counted under. *)
Definition sourceNet (remoteAddr : string) : string :=
  let host := match SplitHostPort remoteAddr with Some (h, _) => h | None => remoteAddr end in
  match ParseIP host with
  | None => ""
  | Some ip =>
      match To4 ip with
      | Some v4 => String4 (take 3 v4 ++ [0]) +:+ "/24"
      | None => String16 (take 6 ip ++ replicate 10 0) +:+ "/48"
      end
  end.

Example sourceNet_ex : sourceNet "10.1.2.3:555" = "10.1.2.0/24" /\ sourceNet "[2001:db8:7::9]:1" = "2001:db8:7::/48" /\
  sourceNet "::ffff:10.0.0.9" = "10.0.0.0/24" /\ sourceNet "pipe" = "".
Proof. repeat split. Qed.

Section check.
Context (iter : gmap string Time -> list (string * Time)).

(** The novelty observations of [Check]. *)
Definition observe_request (cfg : PolicyConfig) (ts : tenantState) (info : RequestInfo) (now : Time) : tenantState :=
  if an_Enabled (c_Anomaly cfg) then
    let '(nm, models) := if String.eqb (i_Model info) "" then (false, t_models ts)
                         else observe iter now (i_Model info) (t_models ts) in
    let '(ne, endpoints) := if String.eqb (i_Endpoint info) "" then (false, t_endpoints ts)
                            else observe iter now (i_Endpoint info) (t_endpoints ts) in
    let n := sourceNet (i_RemoteAddr info) in
    let nets := if String.eqb n "" then t_sourceNets ts else (observe iter now n (t_sourceNets ts)).2 in
    set_novelty ts models (if nm : bool then i_Model info else "") endpoints (if ne : bool then i_Endpoint info else "") nets
  else set_novelty ts (t_models ts) "" (t_endpoints ts) "" (t_sourceNets ts).

(** The body of [Check] under the tenant's lock. *)
Definition check_tenant (cfg : PolicyConfig) (ts0 : tenantState) (info : RequestInfo) (now : Time)
  : Decision * tenantState * list PolicyEvent :=
  let ts := observe_request cfg ts0 info now in
  let baselineDue := an_Enabled (c_Anomaly cfg) && (an_BaselineWindow (c_Anomaly cfg) <=? Sub now (t_lastBaselineAt ts)) in
  let quota := quota_evaluate (c_Quota cfg) (sum now (t_rateWindow ts)) in
  let '(signals, nets) := anomaly_evaluate (c_Anomaly cfg) ts now in
  let sc := score signals in
  let quiet := (t_state ts =? StateObserve) && match signals with [] => true | _ => false end in
  let b := if baselineDue && quiet then ewma_observe (rate now (t_rateWindow ts)) (t_baseline ts) else t_baseline ts in
  let bAt := if baselineDue then now else t_lastBaselineAt ts in
  let ts1 := set_measured ts b bAt nets sc (u_fraction quota) signals in
  let '(want, r) := target cfg quota sc in
  let '(ts2, events) := transition cfg ts1 info want r now signals in
  let '(d, ts3) := admit_call cfg ts2 now quota signals in
  (d, ts3, events).
End check.

(** ** The policy: all tenants *)

Record Policy := mkPolicy { p_cfg : PolicyConfig; p_tenants : gmap string tenantState }.

Definition NewPolicy (cfg : PolicyConfig) : Policy :=
  {| p_cfg := config_normalized cfg; p_tenants := ∅ |}.

Definition new_tenant (cfg : PolicyConfig) (now : Time) : tenantState :=
  {| t_rateWindow := newRollingWindow (q_Window (c_Quota cfg));
     t_baseline := newEWMA (an_BaselineAlpha (c_Anomaly cfg));
     t_lastBaselineAt := now;
     t_models := newRecentSet (an_NoveltyTTL (c_Anomaly cfg));
     t_endpoints := newRecentSet (an_NoveltyTTL (c_Anomaly cfg));
     t_sourceNets := newRecentSet (an_ConcurrentWindow (c_Anomaly cfg));
     t_pendingNewModel := ""; t_pendingNewEndpoint := "";
     t_state := StateObserve; t_stateSince := now; t_lastTrigger := 0; t_lastAdmitted := 0;
     t_breakUntil := 0; t_manualReason := ""; t_lastScore := 0%Q; t_lastQuota := 0%Q; t_lastSignals := [] |}.

(** [p.state(tenant)]: the tenant's state, created at [now0] if there is none. *)
Definition state_of (p : Policy) (tenant : string) (now0 : Time) : tenantState :=
  match p_tenants p !! tenant with Some ts => ts | None => new_tenant (p_cfg p) now0 end.

Definition put (p : Policy) (tenant : string) (ts : tenantState) : Policy :=
  {| p_cfg := p_cfg p; p_tenants := <[tenant := ts]> (p_tenants p) |}.

Definition Check iter (info : RequestInfo) (now now0 : Time) (p : Policy)
  : Decision * list PolicyEvent * Policy :=
  if String.eqb (i_Tenant info) ""
  then (mkDecision StateObserve true 0 NoReason 0 [], [], p)
  else let '(d, ts, events) := check_tenant iter (p_cfg p) (state_of p (i_Tenant info) now0) info now in
       (d, events, put p (i_Tenant info) ts).

Record Usage := mkUse { us_InputTokens : Z; us_OutputTokens : Z; us_CachedTokens : Z }.

Definition RecordUsage (tenant : string) (u : Usage) (now now0 : Time) (p : Policy) : Policy :=
  if String.eqb tenant "" then p
  else let ts := state_of p tenant now0 in
       put p tenant (set_window ts (add now (mkCounts 1 (us_InputTokens u) (us_OutputTokens u) (us_CachedTokens u) 0 0)
                                      (t_rateWindow ts))).

Definition RecordDenial (tenant : string) (now now0 : Time) (p : Policy) : Policy :=
  if String.eqb tenant "" then p
  else let ts := state_of p tenant now0 in
       put p tenant (set_window ts (add now (mkCounts 0 0 0 0 1 0) (t_rateWindow ts))).

(** [RequestInfo{Tenant: tenant}]. *)
Definition tenant_info (tenant : string) : RequestInfo := mkInfo tenant "" "" "" "" "".

Definition Revoke (tenant why : string) (now now0 : Time) (p : Policy) : list PolicyEvent * Policy :=
  if String.eqb tenant "" then ([], p)
  else let ts := state_of p tenant now0 in
       (emit (p_cfg p) ts (tenant_info tenant) (t_state ts) StateRevoke (OperatorRevoked why) now [],
        put p tenant (set_reason (set_rung ts StateRevoke now (t_lastTrigger ts) (t_breakUntil ts)) why)).

Definition Clear (tenant : string) (now now0 : Time) (p : Policy) : list PolicyEvent * Policy :=
  if String.eqb tenant "" then ([], p)
  else let ts := state_of p tenant now0 in
       (emit (p_cfg p) ts (tenant_info tenant) (t_state ts) StateObserve OperatorCleared now [],
        put p tenant (set_reason (set_rung ts StateObserve now 0 0) "")).

(** ** Lemmas: quota *)

Lemma consider_exceeded used limit name u :
  name <> "" -> (u_exceeded (consider used limit name u) <> "" <->
                 u_exceeded u <> "" \/ (0 < limit /\ limit <= used)).
Proof.
  intros Hn. unfold consider. destruct (Z.leb_spec limit 0); [split; [by left|intros [?|?]; [done|lia]]|]. simpl.
  destruct (Z.leb_spec limit used), (String.eqb_spec (u_exceeded u) ""); simpl;
    intuition (try lia); congruence.
Qed.

(** A tenant is over budget when some configured limit is reached. *)
Definition over_budget (q : QuotaLimits) (c : counts) : Prop :=
  (0 < q_MaxCalls q /\ q_MaxCalls q <= calls c) \/
  (0 < q_MaxTotalTokens q /\ q_MaxTotalTokens q <= totalTokens c) \/
  (0 < q_MaxOutputTokens q /\ q_MaxOutputTokens q <= outputTokens c).

Lemma quota_exceeded_iff q c : u_exceeded (quota_evaluate q c) <> "" <-> over_budget q c.
Proof. unfold quota_evaluate, over_budget. rewrite !consider_exceeded by done. simpl. intuition congruence. Qed.

Lemma over_budget_nonzero q c : over_budget q c -> quota_IsZero q = false.
Proof. unfold over_budget, quota_IsZero. intros H. repeat destruct (Z.eqb_spec _ 0); simpl; lia. Qed.

(** ** Lemmas: the ladder *)

Lemma target_range cfg q sc : 0 <= (target cfg q sc).1 <= 4.
Proof.
  unfold target, StateObserve, StateThrottle, StateAlert, StateCircuitBreak, StateRevoke.
  repeat case_match; simplify_eq; simpl; lia.
Qed.

Lemma target_exceeded cfg q sc :
  quota_IsZero (c_Quota cfg) = false -> u_exceeded q <> "" -> StateCircuitBreak <= (target cfg q sc).1.
Proof.
  intros Hz He. unfold target. rewrite Hz, (proj2 (String.eqb_neq _ _) He). simpl.
  destruct (an_Enabled (c_Anomaly cfg)); [|done].
  destruct (StateCircuitBreak <? _) eqn:E; [|done]. simpl. apply Z.ltb_lt in E. lia.
Qed.

Section properties.
Context (iter : gmap string Time -> list (string * Time)).

(** The rung the measurements of a call justify. *)
Definition wanted (cfg : PolicyConfig) (ts0 : tenantState) (info : RequestInfo) (now : Time) : PolicyState :=
  let ts := observe_request iter cfg ts0 info now in
  (target cfg (quota_evaluate (c_Quota cfg) (sum now (t_rateWindow ts0)))
     (score (anomaly_evaluate (c_Anomaly cfg) ts now).1)).1.

(** What [Check] keeps of a tenant's state until it moves on the ladder. *)
Definition same_rung (ts1 ts0 : tenantState) : Prop :=
  t_state ts1 = t_state ts0 /\ t_lastTrigger ts1 = t_lastTrigger ts0 /\ t_lastAdmitted ts1 = t_lastAdmitted ts0 /\
  t_breakUntil ts1 = t_breakUntil ts0 /\ t_rateWindow ts1 = t_rateWindow ts0.

Lemma observe_request_rung cfg ts info now : same_rung (observe_request iter cfg ts info now) ts.
Proof. unfold observe_request. repeat case_match; done. Qed.

Lemma check_tenant_inv cfg ts0 info now d ts3 ev :
  check_tenant iter cfg ts0 info now = (d, ts3, ev) ->
  exists ts1 ts2 sigs r,
    same_rung ts1 ts0 /\
    transition cfg ts1 info (wanted cfg ts0 info now) r now sigs = (ts2, ev) /\
    admit_call cfg ts2 now (quota_evaluate (c_Quota cfg) (sum now (t_rateWindow ts0))) sigs = (d, ts3).
Proof.
  unfold check_tenant, wanted. destruct (observe_request_rung cfg ts0 info now) as (H1 & H2 & H3 & H4 & H5).
  rewrite H5. destruct (anomaly_evaluate _ _ now) as [signals nets]. simpl.
  set (quota := quota_evaluate _ _). destruct (target cfg quota (score signals)) as [want r]. simpl.
  set (ts1 := set_measured _ _ _ _ _ _ _).
  destruct (transition cfg ts1 info want r now signals) as [ts2 events] eqn:Et.
  destruct (admit_call cfg ts2 now quota signals) as [d' ts3'] eqn:Ea. intros [= <- <- <-].
  exists ts1, ts2, signals, r. split_and!; [|exact Et|exact Ea]. unfold ts1, same_rung. simpl. done.
Qed.

Lemma admit_state cfg ts now q sigs d ts' :
  admit_call cfg ts now q sigs = (d, ts') -> t_state ts' = t_state ts /\ t_manualReason ts' = t_manualReason ts.
Proof. unfold admit_call, deny. repeat case_match; intros [= <- <-]; done. Qed.

(** The step rule of the ladder. *)
Definition ladder_rule (cfg : PolicyConfig) (ts0 : tenantState) (want s' : PolicyState) (now : Time) : Prop :=
  let s := t_state ts0 in
  (s = StateRevoke -> s' = StateRevoke) /\
  (s < want -> s' = want) /\
  (s <> StateRevoke -> want <= s ->
     s' = s \/
     (s' = s - 1 /\ want < s /\
      ((s = StateCircuitBreak /\ t_breakUntil ts0 < now) \/
       c_Cooldown cfg <= Sub now (if StateObserve <? want then now else t_lastTrigger ts0)))).

Lemma rule_stay cfg ts want now : t_state ts <> StateRevoke -> want <= t_state ts -> ladder_rule cfg ts want (t_state ts) now.
Proof. intros. unfold ladder_rule. split_and!; [done|lia|by left]. Qed.

Lemma rule_down cfg ts want now :
  t_state ts <> StateRevoke -> want < t_state ts ->
  (t_state ts = StateCircuitBreak /\ t_breakUntil ts < now) \/
  c_Cooldown cfg <= Sub now (if StateObserve <? want then now else t_lastTrigger ts) ->
  ladder_rule cfg ts want (t_state ts - 1) now.
Proof. intros. unfold ladder_rule. split_and!; [done|lia|by right]. Qed.

Lemma transition_rule cfg ts info want r now sigs ts' ev :
  0 <= t_state ts <= 4 -> 0 <= want <= 4 -> transition cfg ts info want r now sigs = (ts', ev) ->
  ladder_rule cfg ts want (t_state ts') now.
Proof.
  intros Hs Hw. unfold transition, After. destruct (Z.eqb_spec (t_state ts) StateRevoke) as [E|E].
  { intros [= <- <-]. unfold ladder_rule. rewrite E in *. unfold StateRevoke in *. split_and!; [done|lia|done]. }
  set (trig := if StateObserve <? want then now else t_lastTrigger ts).
  destruct (Z.ltb_spec (t_state ts) want).
  { intros [= <- <-]. unfold ladder_rule. simpl. split_and!; [done|done|lia]. }
  assert (Hcool : (if (want <? t_state ts) && (c_Cooldown cfg <=? Sub now trig)
     then (set_rung ts (t_state ts - 1) now trig (t_breakUntil ts), emit cfg ts info (t_state ts) (t_state ts - 1) CooldownElapsed now sigs)
     else (set_rung ts (t_state ts) (t_stateSince ts) trig (t_breakUntil ts), [])) = (ts', ev) ->
     ladder_rule cfg ts want (t_state ts') now).
  { destruct (Z.ltb_spec want (t_state ts)); simpl; [|intros [= <- <-]; simpl; by apply rule_stay].
    destruct (Z.leb_spec (c_Cooldown cfg) (Sub now trig)); intros [= <- <-]; simpl; [|by apply rule_stay].
    apply rule_down; [done..|by right]. }
  destruct (Z.eqb_spec (t_state ts) StateCircuitBreak) as [Eb|Eb]; simpl; [|exact Hcool].
  destruct (Z.ltb_spec (t_breakUntil ts) now); simpl; [|exact Hcool].
  destruct (Z.leb_spec StateCircuitBreak want); intros [= <- <-]; simpl; [by apply rule_stay|].
  assert (StateAlert = t_state ts - 1) as -> by (by rewrite Eb).
  apply rule_down; [done|unfold StateCircuitBreak in *; lia|by left].
Qed.

Lemma check_tenant_rule cfg ts0 info now d ts3 ev :
  0 <= t_state ts0 <= 4 -> check_tenant iter cfg ts0 info now = (d, ts3, ev) ->
  ladder_rule cfg ts0 (wanted cfg ts0 info now) (t_state ts3) now.
Proof.
  intros Hs H. apply check_tenant_inv in H as (ts1 & ts2 & sigs & r & (E1 & E2 & _ & E4 & _) & Ht & Ha).
  apply admit_state in Ha as [-> _]. apply transition_rule in Ht; [|by rewrite E1|apply target_range].
  unfold ladder_rule in *. by rewrite E1, E2, E4 in Ht.
Qed.

Lemma admit_allowed cfg ts now q sigs d ts' :
  0 <= t_state ts <= 4 -> admit_call cfg ts now q sigs = (d, ts') -> d_Allow d = true ->
  t_lastAdmitted ts' = now /\ d_State d = t_state ts /\
  (t_state ts = StateObserve \/
   ((t_state ts = StateThrottle \/ t_state ts = StateAlert) /\ u_exceeded q = "" /\
    (t_lastAdmitted ts = 0 \/ wrap i64 (c_ThrottleMinInterval cfg - Sub now (t_lastAdmitted ts)) <= 0))).
Proof.
  intros Hs. unfold admit_call, deny, IsZero.
  destruct (Z.eqb_spec (t_state ts) StateObserve); [intros [= <- <-] _; auto|].
  destruct (Z.eqb_spec (t_state ts) StateThrottle), (Z.eqb_spec (t_state ts) StateAlert); simpl;
  try (destruct (String.eqb_spec (u_exceeded q) ""); simpl; [|by intros [= <- <-]];
    destruct (Z.ltb_spec 0 (wrap i64 (c_ThrottleMinInterval cfg - Sub now (t_lastAdmitted ts))));
    destruct (Z.eqb_spec (t_lastAdmitted ts) 0); simpl; intros [= <- <-]; try done; intros _; simpl; auto 10).
  destruct (Z.eqb_spec (t_state ts) StateCircuitBreak); [by intros [= <- <-]|].
  destruct (Z.eqb_spec (t_state ts) StateRevoke); [by intros [= <- <-]|].
  unfold StateObserve, StateThrottle, StateAlert, StateCircuitBreak, StateRevoke in *. lia.
Qed.

(** A tenant's rung stays on the ladder. *)
Definition on_ladder (p : Policy) : Prop := forall tenant ts, p_tenants p !! tenant = Some ts -> 0 <= t_state ts <= 4.

Lemma state_of_range p tenant now0 : on_ladder p -> 0 <= t_state (state_of p tenant now0) <= 4.
Proof.
  intros H. unfold state_of. destruct (p_tenants p !! tenant) as [ts|] eqn:E; [by eapply H|].
  simpl. unfold StateObserve. lia.
Qed.

(** ** Operations in sequence *)

Inductive op :=
| OCheck (info : RequestInfo) (now now0 : Time)
| OUsage (tenant : string) (u : Usage) (now now0 : Time)
| ODenial (tenant : string) (now now0 : Time)
| ORevoke (tenant why : string) (now now0 : Time)
| OClear (tenant : string) (now now0 : Time).

Definition apply_op (o : op) (p : Policy) : Policy :=
  match o with
  | OCheck info now now0 => (Check iter info now now0 p).2
  | OUsage tenant u now now0 => RecordUsage tenant u now now0 p
  | ODenial tenant now now0 => RecordDenial tenant now now0 p
  | ORevoke tenant why now now0 => (Revoke tenant why now now0 p).2
  | OClear tenant now now0 => (Clear tenant now now0 p).2
  end.

Definition run (ops : list op) (p : Policy) : Policy := foldl (fun p o => apply_op o p) p ops.

(** The state of one tenant after an operation: a change of that tenant, or nothing. *)
Lemma apply_op_tenant o p tenant ts :
  p_tenants p !! tenant = Some ts ->
  exists ts', p_tenants (apply_op o p) !! tenant = Some ts' /\
    (t_state ts' = t_state ts \/
     (exists info now d ev, check_tenant iter (p_cfg p) ts info now = (d, ts', ev)) \/
     (exists why now now0, o = ORevoke tenant why now now0 /\ t_state ts' = StateRevoke) \/
     (exists now now0, o = OClear tenant now now0)).
Proof.
  intros Hts.
  assert (Hput : forall t ts', <[t := ts']> (p_tenants p) !! tenant = if decide (t = tenant) then Some ts' else Some ts).
  { intros t ts'. destruct (decide (t = tenant)) as [->|]; [apply lookup_insert_eq|by rewrite lookup_insert_ne]. }
  assert (Hso : forall now0, state_of p tenant now0 = ts) by (intros; unfold state_of; by rewrite Hts).
  destruct o as [info now now0|t u now now0|t now now0|t why now now0|t now now0]; simpl;
    unfold Check, RecordUsage, RecordDenial, Revoke, Clear.
  - destruct (String.eqb (i_Tenant info) ""); [by eauto|].
    destruct (check_tenant _ _ _ _ _) as [[d ts'] ev] eqn:E. simpl. rewrite Hput.
    destruct (decide (i_Tenant info = tenant)) as [Ht|]; [|by eauto]. rewrite Ht, Hso in E. eauto 10.
  - destruct (String.eqb t ""); [by eauto|]. simpl. rewrite Hput. destruct (decide (t = tenant)) as [->|]; [|by eauto].
    rewrite Hso. eauto.
  - destruct (String.eqb t ""); [by eauto|]. simpl. rewrite Hput. destruct (decide (t = tenant)) as [->|]; [|by eauto].
    rewrite Hso. eauto.
  - destruct (String.eqb t ""); [by eauto|]. simpl. rewrite Hput. destruct (decide (t = tenant)) as [->|]; [|by eauto].
    rewrite Hso. eauto 10.
  - destruct (String.eqb t ""); [by eauto|]. simpl. rewrite Hput. destruct (decide (t = tenant)) as [->|]; [|by eauto].
    eauto 10.
Qed.

Lemma check_tenant_revoked cfg ts info now d ts' ev :
  t_state ts = StateRevoke -> check_tenant iter cfg ts info now = (d, ts', ev) ->
  t_state ts' = StateRevoke /\ ev = [] /\ d_Allow d = false /\ d_Status d = StatusForbidden.
Proof.
  intros Hs H. apply check_tenant_inv in H as (ts1 & ts2 & sigs & r & (E1 & _) & Ht & Ha).
  unfold transition in Ht. rewrite E1, Hs in Ht. simpl in Ht. injection Ht as <- <-.
  pose proof (admit_state _ _ _ _ _ _ _ Ha) as [-> _]. unfold admit_call in Ha. rewrite E1, Hs in Ha. simpl in Ha.
  injection Ha as <- <-. by rewrite E1.
Qed.

(** ** Properties *)

(** Revocation is sticky.  Once a tenant is on the revoke rung, however it got
    there, any sequence of checks, usage and denial records and revocations, of any
    tenants at any times, leaves it there, and each of its calls is refused with 403;
    only [Clear] of that tenant ends it. *)
Theorem revoke_is_sticky ops p tenant ts info now now0 :
  p_tenants p !! tenant = Some ts -> t_state ts = StateRevoke ->
  (forall n n0, OClear tenant n n0 ∉ ops) -> tenant <> "" -> i_Tenant info = tenant ->
  let '(d, ev, _) := Check iter info now now0 (run ops p) in
  d_Allow d = false /\ d_Status d = StatusForbidden /\ ev = [].
Proof.
  intros Hts Hs Hops Hne Hinfo.
  assert (H : exists ts', p_tenants (run ops p) !! tenant = Some ts' /\ t_state ts' = StateRevoke).
  { revert p ts Hts Hs. induction ops as [|o ops IH]; intros p ts Hts Hs; [by eauto|]. simpl.
    destruct (apply_op_tenant o p tenant ts Hts) as (ts' & Hts' & Hcase).
    apply (IH ltac:(intros n n0 Hin; apply (Hops n n0); by right) (apply_op o p) ts' Hts').
    destruct Hcase as [->|[(i & n & d & ev & Hc)|[(w & n & n0 & _ & Hr)|(n & n0 & ->)]]]; [done| |done|].
    - by apply check_tenant_revoked in Hc as [-> _].
    - destruct (Hops n n0). by left. }
  destruct H as (ts' & Hts' & Hs'). unfold Check. rewrite Hinfo, (proj2 (String.eqb_neq _ _) Hne).
  unfold state_of. rewrite Hts'. destruct (check_tenant _ _ _ _ _) as [[d ts''] ev] eqn:E.
  apply check_tenant_revoked in E as (_ & -> & H1 & H2); done.
Qed.

(** Escalation is immediate and de-escalation is damped.  One check moves a tenant
    straight to a higher rung its measurements justify; otherwise it stays or goes
    down by exactly one rung, and it goes down only when the rung is no longer
    justified and either the cooldown has passed since the last trigger or a
    circuit break has run out. *)
Theorem ladder_step p info now now0 :
  on_ladder p -> i_Tenant info <> "" ->
  let '(d, ev, p') := Check iter info now now0 p in
  let ts0 := state_of p (i_Tenant info) now0 in
  exists ts', p_tenants p' !! i_Tenant info = Some ts' /\ d_State d = t_state ts' /\ 0 <= t_state ts' <= 4 /\
    ladder_rule (p_cfg p) ts0 (wanted (p_cfg p) ts0 info now) (t_state ts') now.
Proof.
  intros Hp Hne. unfold Check. rewrite (proj2 (String.eqb_neq _ _) Hne).
  pose proof (state_of_range p (i_Tenant info) now0 Hp) as Hs.
  destruct (check_tenant _ _ _ _ _) as [[d ts'] ev] eqn:E. exists ts'. split; [apply lookup_insert_eq|].
  pose proof (check_tenant_rule _ _ _ _ _ _ _ Hs E) as Hrule.
  split; [|split; [|exact Hrule]].
  - apply check_tenant_inv in E as (ts1 & ts2 & sigs & r & _ & _ & Ha). unfold admit_call, deny, allow in Ha.
    repeat case_match; injection Ha as <- <-; done.
  - destruct Hrule as (R1 & R2 & R3). set (want := wanted _ _ _ _) in *.
    assert (0 <= want <= 4) by apply target_range.
    destruct (Z.eq_dec (t_state (state_of p (i_Tenant info) now0)) StateRevoke) as [Er|Er]; [rewrite (R1 Er); unfold StateRevoke; lia|].
    destruct (Z.lt_ge_cases (t_state (state_of p (i_Tenant info) now0)) want) as [Hlt|Hge]; [rewrite (R2 Hlt); lia|].
    destruct (R3 Er Hge) as [->|(-> & ? & _)]; lia.
Qed.

(** C40: a call is never admitted over budget.  If any configured limit is reached by the usage the
    window reports, the call is refused, whatever rung the tenant is on. *)
Theorem over_budget_denied p info now now0 :
  on_ladder p -> i_Tenant info <> "" ->
  over_budget (c_Quota (p_cfg p)) (sum now (t_rateWindow (state_of p (i_Tenant info) now0))) ->
  d_Allow (Check iter info now now0 p).1.1 = false.
Proof.
  intros Hp Hne Hover. unfold Check. rewrite (proj2 (String.eqb_neq _ _) Hne).
  pose proof (state_of_range p (i_Tenant info) now0 Hp) as Hs. set (ts0 := state_of _ _ _) in *.
  destruct (check_tenant _ _ _ _ _) as [[d ts'] ev] eqn:E. simpl.
  apply check_tenant_inv in E as (ts1 & ts2 & sigs & r & (E1 & _) & Ht & Ha).
  assert (Hw : StateCircuitBreak <= wanted (p_cfg p) ts0 info now).
  { apply target_exceeded; [by eapply over_budget_nonzero|by apply quota_exceeded_iff]. }
  assert (Hw4 : wanted (p_cfg p) ts0 info now <= 4) by apply target_range.
  apply transition_rule in Ht as (R1 & R2 & R3); [|by rewrite E1|unfold StateCircuitBreak in Hw; lia].
  rewrite E1 in *. unfold StateCircuitBreak, StateRevoke in *.
  assert (3 <= t_state ts2 <= 4).
  { destruct (Z.eq_dec (t_state ts0) 4) as [Er|Er]; [rewrite (R1 Er); lia|].
    destruct (Z.lt_ge_cases (t_state ts0) (wanted (p_cfg p) ts0 info now)) as [Hlt|Hge]; [rewrite (R2 Hlt); lia|].
    destruct (R3 Er Hge) as [->|(-> & ? & _)]; lia. }
  destruct (d_Allow d) eqn:Ed; [|done]. exfalso.
  apply admit_allowed in Ha as (_ & _ & [Ho|[[Ho|Ho] _]]); [..|lia|done];
    unfold StateObserve, StateThrottle, StateAlert in Ho; lia.
Qed.

(** Throttled calls are spaced.  A call admitted on the throttle or the alert rung comes at
    least the configured interval after the previously admitted one (if there was
    one) and is remembered as the latest; clock differences are taken to fit in
    146 years, below which the 64-bit subtraction cannot wrap. *)
Theorem throttle_spacing p info now now0 :
  on_ladder p -> i_Tenant info <> "" ->
  let cfg := p_cfg p in
  let ts0 := state_of p (i_Tenant info) now0 in
  0 <= c_ThrottleMinInterval cfg < 2 ^ 62 -> - 2 ^ 62 < now - t_lastAdmitted ts0 < 2 ^ 62 ->
  let '(d, _, p') := Check iter info now now0 p in
  d_Allow d = true ->
  (t_lastAdmitted <$> p_tenants p' !! i_Tenant info) = Some now /\
  (d_State d = StateThrottle \/ d_State d = StateAlert ->
     t_lastAdmitted ts0 = 0 \/ c_ThrottleMinInterval cfg <= now - t_lastAdmitted ts0).
Proof.
  intros Hp Hne cfg ts0 Hint Hnow. unfold Check. rewrite (proj2 (String.eqb_neq _ _) Hne).
  pose proof (state_of_range p (i_Tenant info) now0 Hp) as Hs. fold ts0 in Hs |- *. fold cfg.
  destruct (check_tenant _ _ _ _ _) as [[d ts'] ev] eqn:E. intros Hallow.
  pose proof (check_tenant_rule _ _ _ _ _ _ _ Hs E) as Hrule.
  apply check_tenant_inv in E as (ts1 & ts2 & sigs & r & (E1 & _ & E3 & _) & Ht & Ha).
  assert (Hla : t_lastAdmitted ts2 = t_lastAdmitted ts0).
  { rewrite <- E3. unfold transition in Ht. repeat case_match; by injection Ht as <- <-. }
  assert (Hs2 : 0 <= t_state ts2 <= 4).
  { apply transition_rule in Ht as (R1 & R2 & R3); [|by rewrite E1|apply target_range].
    set (want := wanted _ _ _ _) in *. assert (0 <= want <= 4) by apply target_range. rewrite E1 in *.
    destruct (Z.eq_dec (t_state ts0) StateRevoke) as [Er|Er]; [rewrite (R1 Er); unfold StateRevoke; lia|].
    destruct (Z.lt_ge_cases (t_state ts0) want) as [Hlt|Hge]; [rewrite (R2 Hlt); lia|].
    destruct (R3 Er Hge) as [->|(-> & ? & _)]; lia. }
  apply admit_allowed in Ha as (HA & HS & Hcase); [|done..].
  split; [simpl; rewrite lookup_insert_eq; simpl; by rewrite HA|]. rewrite HS. intros Hst.
  destruct Hcase as [Ho|(_ & _ & Hw)].
  { unfold StateObserve, StateThrottle, StateAlert in *. lia. }
  rewrite Hla in Hw. destruct Hw as [|Hw]; [by left|right].
  assert (Hsub : Sub now (t_lastAdmitted ts0) = now - t_lastAdmitted ts0).
  { apply Sub_exact. type_bounds. }
  rewrite Hsub, wrap_in_type_id in Hw; [lia|done|type_bounds].
Qed.

(** Everyone is on the observe rung. *)
Definition all_observe (p : Policy) : Prop := forall tenant ts, p_tenants p !! tenant = Some ts -> t_state ts = StateObserve.

Definition revokes (o : op) : bool := match o with ORevoke _ _ _ _ => true | _ => false end.

Lemma wanted_inert cfg ts info now :
  quota_IsZero (c_Quota cfg) = true -> an_Enabled (c_Anomaly cfg) = false -> wanted cfg ts info now = StateObserve.
Proof. intros Hq Ha. unfold wanted, target. by rewrite Hq, Ha. Qed.

Lemma check_tenant_inert cfg ts info now d ts' ev :
  quota_IsZero (c_Quota cfg) = true -> an_Enabled (c_Anomaly cfg) = false -> t_state ts = StateObserve ->
  check_tenant iter cfg ts info now = (d, ts', ev) ->
  t_state ts' = StateObserve /\ d_Allow d = true /\ ev = [].
Proof.
  intros Hq Ha Hs H. apply check_tenant_inv in H as (ts1 & ts2 & sigs & r & (E1 & _) & Ht & Had).
  rewrite wanted_inert in Ht by done. unfold transition in Ht. rewrite E1, Hs in Ht. simpl in Ht.
  injection Ht as <- <-. unfold admit_call in Had. simpl in Had. injection Had as <- <-. done.
Qed.

Definition inert (p : Policy) : Prop :=
  quota_IsZero (c_Quota (p_cfg p)) = true /\ an_Enabled (c_Anomaly (p_cfg p)) = false /\ all_observe p.

Lemma state_of_observe p tenant now0 : all_observe p -> t_state (state_of p tenant now0) = StateObserve.
Proof. intros H. unfold state_of. destruct (p_tenants p !! tenant) as [ts|] eqn:E; [by eapply H|done]. Qed.

Lemma put_inert p tenant ts : inert p -> t_state ts = StateObserve -> inert (put p tenant ts).
Proof.
  intros (Hq & Ha & Ho) Hs. split; [done|]. split; [done|]. intros t ts' Ht. simpl in Ht.
  apply lookup_insert_Some in Ht as [[_ <-]|[_ Ht]]; [done|by eapply Ho].
Qed.

Lemma apply_op_inert o p : revokes o = false -> inert p -> inert (apply_op o p).
Proof.
  intros Ho Hp. pose proof Hp as (Hq & Ha & Hobs).
  destruct o as [info now now0|t u now now0|t now now0|t why now now0|t now now0]; simpl; try done;
    unfold Check, RecordUsage, RecordDenial, Clear.
  - destruct (String.eqb (i_Tenant info) ""); [done|].
    destruct (check_tenant _ _ _ _ _) as [[d ts'] ev] eqn:E.
    apply check_tenant_inert in E as (Hs & _); [by apply put_inert|done..|by apply state_of_observe].
  - destruct (String.eqb t ""); [done|]. apply put_inert; [done|]. by apply state_of_observe.
  - destruct (String.eqb t ""); [done|]. apply put_inert; [done|]. by apply state_of_observe.
  - destruct (String.eqb t ""); [done|]. by apply put_inert.
Qed.

(** A configuration without budgets and without anomaly detection enforces nothing: after
    any sequence of operations other than operator revocations every call is
    admitted and no transition is reported. *)
Theorem inert_policy_allows ops cfg info now now0 :
  quota_IsZero (c_Quota cfg) = true -> an_Enabled (c_Anomaly cfg) = false ->
  forallb (fun o => negb (revokes o)) ops = true ->
  let '(d, ev, _) := Check iter info now now0 (run ops (NewPolicy cfg)) in
  d_Allow d = true /\ ev = [].
Proof.
  intros Hq Ha Hops. assert (Hp : inert (run ops (NewPolicy cfg))).
  { assert (H0 : inert (NewPolicy cfg)).
    { split; [|split; [done|intros t ts Ht; simpl in Ht; by rewrite lookup_empty in Ht]].
      simpl. unfold quota_normalized. by destruct (q_Window (c_Quota cfg) <=? 0). }
    revert H0. generalize (NewPolicy cfg). induction ops as [|o ops IH]; intros p Hp; [done|]. simpl in *.
    apply andb_prop in Hops as [Ho Hops]. apply IH; [done|]. apply apply_op_inert; [by apply negb_true_iff|done]. }
  destruct Hp as (Hq' & Ha' & Ho). unfold Check. destruct (String.eqb (i_Tenant info) ""); [done|].
  destruct (check_tenant _ _ _ _ _) as [[d ts'] ev] eqn:E.
  by apply check_tenant_inert in E as (_ & ? & ?); [..|apply state_of_observe].
Qed.
End properties.

(** ** Concrete runs *)

Definition demo_config : PolicyConfig :=
  config_normalized
    {| c_Quota := {| q_Window := Minute; q_MaxCalls := 2; q_MaxTotalTokens := 0; q_MaxOutputTokens := 0 |};
       c_Anomaly := mkAnomaly false 0 0%Q 0 0%Q 0 0 0 0%Q 0;
       c_ThrottleAtQuota := (1 # 2)%Q; c_ThrottleMinInterval := 2 * Second; c_AlertAt := 0%Q; c_BreakAt := 0%Q;
       c_RevokeAt := 0%Q; c_CircuitBreakFor := Minute; c_Cooldown := 5 * Minute; c_Alerts := true |}.

Definition demo_info : RequestInfo := mkInfo "tenant-a" "" "" "m" "/v1" "10.0.0.1:1".
Definition demo_start : Time := 100 * Hour.
Definition demo_usage_op (n : Z) : op := OUsage "tenant-a" (mkUse 1 1 0) (demo_start + n) (demo_start + n).
Definition demo_run (ops : list op) : Policy := run map_to_list ops (NewPolicy demo_config).

Lemma demo_on_ladder ops :
  bool_decide (map_Forall (fun _ ts => 0 <= t_state ts <= 4) (p_tenants (demo_run ops))) = true -> on_ladder (demo_run ops).
Proof. intros H t ts Ht. apply bool_decide_eq_true in H. exact (H t ts Ht). Qed.

Lemma revoke_is_sticky_witness :
  let p := demo_run [ORevoke "tenant-a" "leak" demo_start demo_start] in
  let '(d, ev, _) := Check map_to_list demo_info (demo_start + 2 * Hour) 0
                       (run map_to_list [OCheck demo_info (demo_start + Hour) 0; demo_usage_op 5] p) in
  d_Allow d = false /\ d_Status d = StatusForbidden /\ ev = [].
Proof.
  apply (revoke_is_sticky map_to_list [OCheck demo_info (demo_start + Hour) 0; demo_usage_op 5]
           (demo_run [ORevoke "tenant-a" "leak" demo_start demo_start]) "tenant-a"
           (default (new_tenant demo_config 0)
              (p_tenants (demo_run [ORevoke "tenant-a" "leak" demo_start demo_start]) !! "tenant-a"))
           demo_info (demo_start + 2 * Hour) 0).
  - vm_compute. reflexivity.
  - vm_compute. reflexivity.
  - intros n n0 Hin. repeat (apply elem_of_cons in Hin as [Hin|Hin]; [discriminate Hin|]). by apply elem_of_nil in Hin.
  - discriminate.
  - reflexivity.
Defined.

(** A second call in the same second, half of the budget used: the tenant moves to the
    throttle rung. *)
Lemma ladder_step_witness :
  let p := demo_run [demo_usage_op 0] in
  let '(d, ev, p') := Check map_to_list demo_info (demo_start + 1) 0 p in
  let ts0 := state_of p "tenant-a" 0 in
  exists ts', p_tenants p' !! "tenant-a" = Some ts' /\ d_State d = t_state ts' /\ 0 <= t_state ts' <= 4 /\
    ladder_rule (p_cfg p) ts0 (wanted map_to_list (p_cfg p) ts0 demo_info (demo_start + 1)) (t_state ts')
      (demo_start + 1).
Proof.
  apply (ladder_step map_to_list (demo_run [demo_usage_op 0]) demo_info (demo_start + 1) 0).
  - apply demo_on_ladder. vm_compute. reflexivity.
  - discriminate.
Defined.

Lemma over_budget_denied_witness :
  d_Allow (Check map_to_list demo_info (demo_start + 2) 0 (demo_run [demo_usage_op 0; demo_usage_op 1])).1.1 = false.
Proof.
  apply (over_budget_denied map_to_list (demo_run [demo_usage_op 0; demo_usage_op 1]) demo_info (demo_start + 2) 0).
  - apply demo_on_ladder. vm_compute. reflexivity.
  - discriminate.
  - left. vm_compute. split; [reflexivity|discriminate].
Defined.

(** Two admitted calls three seconds apart with half of the budget used. *)
Lemma throttle_spacing_witness :
  let p := demo_run [demo_usage_op 0; OCheck demo_info (demo_start + 1) 0] in
  let '(d, _, p') := Check map_to_list demo_info (demo_start + 1 + 3 * Second) 0 p in
  d_Allow d = true /\ (t_lastAdmitted <$> p_tenants p' !! "tenant-a") = Some (demo_start + 1 + 3 * Second) /\
  (d_State d = StateThrottle \/ d_State d = StateAlert ->
     t_lastAdmitted (state_of p "tenant-a" 0) = 0 \/
     c_ThrottleMinInterval demo_config <= demo_start + 1 + 3 * Second - t_lastAdmitted (state_of p "tenant-a" 0)).
Proof.
  pose proof (throttle_spacing map_to_list (demo_run [demo_usage_op 0; OCheck demo_info (demo_start + 1) 0])
           demo_info (demo_start + 1 + 3 * Second) 0) as T.
  assert (Hd : d_Allow (Check map_to_list demo_info (demo_start + 1 + 3 * Second) 0
                 (demo_run [demo_usage_op 0; OCheck demo_info (demo_start + 1) 0])).1.1 = true) by (vm_compute; reflexivity).
  cbv zeta in *. destruct (Check _ _ _ _ _) as [[d ev] p'].
  split; [exact Hd|]. apply T.
  - apply demo_on_ladder. vm_compute. reflexivity.
  - discriminate.
  - vm_compute. split; [discriminate|reflexivity].
  - vm_compute. split; reflexivity.
  - exact Hd.
Defined.

Definition idle_config : PolicyConfig :=
  {| c_Quota := mkQuota 0 0 0 0; c_Anomaly := mkAnomaly false 0 0%Q 0 0%Q 0 0 0 0%Q 0; c_ThrottleAtQuota := 0%Q;
     c_ThrottleMinInterval := 0; c_AlertAt := 0%Q; c_BreakAt := 0%Q; c_RevokeAt := 0%Q; c_CircuitBreakFor := 0;
     c_Cooldown := 0; c_Alerts := true |}.

Lemma inert_policy_allows_witness :
  let '(d, ev, _) := Check map_to_list demo_info (demo_start + 9) 0
                       (run map_to_list [demo_usage_op 0; ODenial "tenant-a" demo_start 0; OCheck demo_info demo_start 0]
                          (NewPolicy idle_config)) in
  d_Allow d = true /\ ev = [].
Proof.
  apply (inert_policy_allows map_to_list [demo_usage_op 0; ODenial "tenant-a" demo_start 0; OCheck demo_info demo_start 0]
           idle_config demo_info (demo_start + 9) 0).
  - reflexivity.
  - reflexivity.
  - reflexivity.
Defined.
