(* ===== verification/Labels.v ===== *)
(** * internal/tracker, policy.go and route.go: labels, globs and the connection's policy

    Which labels a token may write, which of them are the dispatcher's own, and how a
    connection's policy fills in its defaults.  The regular expression [MatchLabelGlob]
    builds is a list of nodes (a literal, or one or more arbitrary runes), matched
    against the whole label. *)

From S2P Require Import Prelude GoStrings GoUtf8.
From Stdlib Require Import Ascii.
#[local] Open Scope string_scope.
#[local] Open Scope list_scope.
#[local] Open Scope Z_scope.

(** ** Label names *)

Definition LabelNeedsApproval := "agent:needs-approval".
Definition LabelAgentQueued := "agent:queued".
Definition LabelAgentRunning := "agent:running".
Definition LabelAgentDone := "agent:done".
Definition LabelAgentFailed := "agent:failed".

Definition ReservedStateLabels : list string :=
  [LabelAgentQueued; LabelAgentRunning; LabelAgentDone; LabelAgentFailed].

Definition ScopeLabelPrefix := "scope:".

Definition DefaultLabelAllowList : list string := ["scope:*"; "model:*"; LabelNeedsApproval].

Definition DefaultMaxDepth : Z := 3.
Definition DefaultMaxChildrenPerRun : Z := 5.
Definition DefaultRunTimeout : Duration := Hour.

(** ** Validation of one label *)

Inductive label_problem := LEmpty | LPadded | LComma | LTooLong | LControl | LFormat.

(** The errors of this file, by cause. *)
Inductive label_error :=
| ErrLabelInvalid (p : label_problem) (label : string)
| ErrStateLabelReserved (label : string)
| ErrLabelNotAllowed (label : string).

Definition MaxLabelLength : Z := 50.

(** The first rune of the label the loop complains about. *)
Fixpoint bad_rune (rs : list Z) : option label_problem :=
  match rs with
  | [] => None
  | r :: rs' => if IsControl r then Some LControl else if IsCf r then Some LFormat else bad_rune rs'
  end.

(** [None] is a nil error. *)
Definition ValidateLabel (label : string) : option label_problem :=
  if String.eqb label "" then Some LEmpty
  else if negb (String.eqb (TrimSpace label) label) then Some LPadded
  else if contains_char "," label then Some LComma
  else if MaxLabelLength <? RuneCountInString label then Some LTooLong
  else bad_rune (runes label).

(** ** Globs *)

Inductive re_node := Lit (rs : list Z) | AnyPlus.

Fixpoint strip_lit (lit rs : list Z) : option (list Z) :=
  match lit, rs with
  | [], _ => Some rs
  | a :: lit', b :: rs' => if a =? b then strip_lit lit' rs' else None
  | _, [] => None
  end.

(** [\A n1 n2 ... \z]. *)
Fixpoint re_match (ns : list re_node) (rs : list Z) : bool :=
  match ns with
  | [] => match rs with [] => true | _ => false end
  | Lit l :: ns' => match strip_lit l rs with Some rest => re_match ns' rest | None => false end
  | AnyPlus :: ns' =>
      (fix any (rs : list Z) : bool :=
         match rs with [] => false | _ :: rest => re_match ns' rest || any rest end) rs
  end.

(** The loop that writes the expression, after the first part. *)
Fixpoint glob_nodes (parts : list string) : list re_node :=
  match parts with
  | [] => []
  | part :: rest => AnyPlus :: Lit (runes part) :: glob_nodes rest
  end.

Definition glob_regexp (parts : list string) : list re_node :=
  match parts with
  | [] => []
  | part :: rest => Lit (runes part) :: glob_nodes rest
  end.

(** [regexp.Compile] refuses an expression that is not valid UTF-8. *)
Definition MatchLabelGlob (pattern label : string) : bool :=
  if negb (contains_char "*" pattern) then String.eqb pattern label
  else if negb (ValidString pattern) then false
  else re_match (glob_regexp (split_char "*" pattern)) (runes label).

(** ** The policy *)

Record Policy := mkPolicy {
  LabelAllowList : list string;
  AutoChain : bool;
  MaxDepth : Z;
  MaxChildrenPerRun : Z;
  RunTimeout : Duration;
}.

(** [pb.TrackerPolicy]'s fields. *)
Record TrackerPolicy := mkTrackerPolicy {
  p_label_allow_list : list string;
  p_auto_chain : bool;
  p_max_depth : Z;
  p_max_children_per_run : Z;
  p_run_timeout_seconds : Z;
}.

Definition PolicyFromProto (p : option TrackerPolicy) : Policy :=
  match p with
  | None => mkPolicy DefaultLabelAllowList false DefaultMaxDepth DefaultMaxChildrenPerRun DefaultRunTimeout
  | Some p =>
      {| LabelAllowList := match p_label_allow_list p with [] => DefaultLabelAllowList | l => l end;
         AutoChain := p_auto_chain p;
         MaxDepth := if 0 <? p_max_depth p then p_max_depth p else DefaultMaxDepth;
         MaxChildrenPerRun := if 0 <? p_max_children_per_run p then p_max_children_per_run p
                              else DefaultMaxChildrenPerRun;
         RunTimeout := if 0 <? p_run_timeout_seconds p
                       then wrap i64 (p_run_timeout_seconds p * Second) else DefaultRunTimeout |}
  end.

Definition IsReservedStateLabel (label : string) : bool :=
  existsb (EqualFold (TrimSpace label)) ReservedStateLabels.

Definition IsGateLabel (label : string) : bool := EqualFold (TrimSpace label) LabelNeedsApproval.

Fixpoint take_bytes (n : nat) (s : string) : string :=
  match n, s with
  | S k, String a s' => String a (take_bytes k s')
  | _, _ => ""
  end.

Definition IsScopeLabel (label : string) : bool :=
  let l := TrimSpace label in
  (String.length ScopeLabelPrefix <=? String.length l)%nat
  && EqualFold (take_bytes (String.length ScopeLabelPrefix) l) ScopeLabelPrefix.

Definition LabelAllowed (p : Policy) (label : string) : bool :=
  match ValidateLabel label with
  | Some _ => false
  | None => existsb (fun pattern => MatchLabelGlob pattern label) (LabelAllowList p)
  end.

Fixpoint CheckLabels (p : Policy) (labels : list string) (runToken : bool) : option label_error :=
  match labels with
  | [] => None
  | label :: rest =>
      match ValidateLabel label with
      | Some e => Some (ErrLabelInvalid e label)
      | None =>
          if runToken && IsReservedStateLabel label then Some (ErrStateLabelReserved label)
          else if negb (LabelAllowed p label) then Some (ErrLabelNotAllowed label)
          else CheckLabels p rest runToken
      end
  end.

Definition DepthAllowed (p : Policy) (depth : Z) : bool := (MaxDepth p <=? 0) || (depth <=? MaxDepth p).
Definition FanoutAllowed (p : Policy) (existing : Z) : bool :=
  (MaxChildrenPerRun p <=? 0) || (existing <? MaxChildrenPerRun p).

(** ** What the dispatcher reads off an issue *)

Definition containsExact (l : list string) (s : string) : bool := existsb (fun v => String.eqb v s) l.

Definition hasAnyLabel (labels want : list string) : bool :=
  existsb (fun l => existsb (EqualFold (TrimSpace l)) want) labels.

(** The loop of [scopeLabels], before sorting. *)
Fixpoint scope_loop (seen : gset string) (labels : list string) : list string :=
  match labels with
  | [] => []
  | l :: rest =>
      if HasPrefix ScopeLabelPrefix l then
        let suffix := TrimPrefix l ScopeLabelPrefix in
        if String.eqb suffix "" || bool_decide (suffix ∈ seen) then scope_loop seen rest
        else suffix :: scope_loop ({[suffix]} ∪ seen) rest
      else scope_loop seen rest
  end.

Definition scopeLabels (labels : list string) : list string := merge_sort String.le (scope_loop ∅ labels).

(** ** Route scopes *)

Definition alnum (a : ascii) : bool :=
  let n := byte_Z a in between 48 57 n || between 65 90 n || between 97 122 n.

(** [^[A-Za-z0-9][A-Za-z0-9._-]{0,63}$]. *)
Definition scope_byte (a : ascii) : bool :=
  alnum a || existsb (Ascii.eqb a) ["."%char; "_"%char; "-"%char].

Fixpoint all_bytes (f : ascii -> bool) (s : string) : bool :=
  match s with "" => true | String a s' => f a && all_bytes f s' end.

Definition routeScopeRe (s : string) : bool :=
  match s with
  | "" => false
  | String a s' => alnum a && all_bytes scope_byte s' && (String.length s' <=? 63)%nat
  end.

Inductive scope_problem := ScopeMissing | ScopeWithPrefix | ScopeInvalid.

Definition ValidateRouteScope (scope : string) : option scope_problem :=
  if String.eqb scope "" then Some ScopeMissing
  else if HasPrefix ScopeLabelPrefix scope then Some ScopeWithPrefix
  else if negb (routeScopeRe scope) then Some ScopeInvalid else None.

(** ** GitLab's wire form, internal/tracker/gitlab/write.go *)

(** [validateWireLabels] over both lists, then one comma-joined string per list; the
    request body's fields, or the refusal. *)
Definition validateWireLabels (lists : list (list string)) : option label_problem :=
  head (omap ValidateLabel (concat lists)).

Definition gitlab_labels (add remove : list string) : label_problem + string * string :=
  match validateWireLabels [add; remove] with
  | Some e => inl e
  | None => inr (join_char "," add, join_char "," remove)
  end.

(** ** What a glob means *)

Definition star : Z := 42.

(** The reference semantics: [*] stands for one or more runes, every other rune for itself. *)
Inductive glob : list Z -> list Z -> Prop :=
| glob_nil : glob [] []
| glob_rune c p s : c <> star -> glob p s -> glob (c :: p) (c :: s)
| glob_star p w s : w <> [] -> glob p s -> glob (star :: p) (w ++ s).

Lemma glob_star_inv p s :
  glob (star :: p) s <-> exists w s', w <> [] /\ s = w ++ s' /\ glob p s'.
Proof.
  split; [|intros (w & s' & Hw & -> & H); by constructor].
  intros H. inversion H as [|c p' s' Hc|p' w s' Hw Hg]; subst; [done|]. by exists w, s'.
Qed.

Lemma strip_lit_spec l rs rest : strip_lit l rs = Some rest <-> rs = l ++ rest.
Proof.
  revert rs. induction l as [|a l IH]; intros rs; simpl; [naive_solver|].
  destruct rs as [|b rs]; [naive_solver|]. destruct (Z.eqb_spec a b) as [->|Hne].
  - rewrite IH. naive_solver.
  - naive_solver.
Qed.

Lemma glob_lit l q rs :
  star ∉ l -> glob (l ++ q) rs <-> exists rest, strip_lit l rs = Some rest /\ glob q rest.
Proof.
  setoid_rewrite strip_lit_spec. revert rs. induction l as [|a l IH]; intros rs Hl; simpl.
  - naive_solver.
  - apply not_elem_of_cons in Hl as [Ha Hl]. split.
    + intros H. inversion H as [|c p s Hc Hg|p w s Hw Hg]; subst; [|done].
      apply IH in Hg as (rest & -> & Hg); [|done]. by exists rest.
    + intros (rest & -> & Hg). constructor; [congruence|]. apply IH; [done|]. by exists rest.
Qed.

Lemma re_match_any ns rs :
  re_match (AnyPlus :: ns) rs = true <-> exists w s, w <> [] /\ rs = w ++ s /\ re_match ns s = true.
Proof.
  induction rs as [|r rs IH]; simpl.
  - split; [done|]. intros ([|? w] & s & Hw & Hs & _); done.
  - rewrite orb_true_iff. simpl in IH. rewrite IH. split.
    + intros [H|(w & s & Hw & -> & H)]; [by exists [r], rs|]. by exists (r :: w), s.
    + intros ([|a w] & s & Hw & Hs & H); [done|]. simplify_eq/=. destruct w as [|b w]; [by left|].
      right. by exists (b :: w), s.
Qed.

(** The pattern's runes, put together from its parts. *)
Definition star_join (parts : list (list Z)) : list Z := concat (map (cons star) parts).

Lemma glob_nodes_spec parts rs :
  Forall (fun part => star ∉ runes part) parts ->
  re_match (glob_nodes parts) rs = true <-> glob (star_join (map runes parts)) rs.
Proof.
  intros Hp. revert rs. induction Hp as [|part parts Hpart _ IH]; intros rs.
  - simpl. destruct rs; split; intros H; try done; [constructor|inversion H].
  - cbn [glob_nodes]. rewrite re_match_any. unfold star_join. simpl.
    rewrite glob_star_inv. fold (star_join (map runes parts)).
    setoid_rewrite glob_lit; [|done]. cbn [re_match].
    do 6 f_equiv. destruct (strip_lit _ _) as [rest|]; [rewrite IH|]; naive_solver.
Qed.

Lemma runes_no_star s : contains_char "*" s = false -> star ∉ runes s.
Proof.
  remember (String.length s) as n eqn:Hn. revert s Hn.
  induction (lt_wf n) as [n _ IH]. intros s -> Hs Hin.
  destruct s as [|a s]; [by inversion Hin|].
  destruct (DecodeRune (String a s)) as [[[r ok] rest]|] eqn:E; [|simpl in E; by repeat case_match].
  unfold runes in Hin. rewrite (decoded_step _ _ _ _ E) in Hin. simpl in Hin.
  pose proof (DecodeRune_short _ _ _ _ E) as Hlen.
  apply elem_of_cons in Hin as [Hr|Hin].
  - apply (DecodeRune_ascii _ _ _ _ "*"%char) in E; [|done..]. injection E as -> ->. done.
  - assert (Hrest : contains_char "*" rest = false); [|by eapply IH].
    assert (Hsuf : exists p, String a s = p +:+ rest).
    { clear -E. simpl in E.
      assert (Hrc : forall n lo hi acc t x u, read_cont n lo hi acc t = Some (x, u) -> exists p, t = p +:+ u).
      { induction n as [|n IHn]; intros lo hi acc t x u Ht; simpl in Ht; [simplify_eq; by exists ""|].
        destruct t as [|b t]; [done|]. destruct (between lo hi (byte_Z b)); [|done].
        destruct (IHn _ _ _ _ _ _ Ht) as [p ->]. by exists (String b p). }
      destruct (seq_shape (byte_Z a)) as [[[n lo] hi]|]; [|simplify_eq; by exists (String a "")].
      destruct (read_cont n lo hi _ s) as [[x u]|] eqn:Er; simplify_eq; [|by exists (String a "")].
      destruct (Hrc _ _ _ _ _ _ _ Er) as [p ->]. by exists (String a p). }
    destruct Hsuf as [p Hp]. rewrite Hp, contains_char_app in Hs. by apply orb_false_iff in Hs as [_ ?].
Qed.

Lemma join_split_char c s : join_char c (split_char c s) = s.
Proof.
  induction s as [|a s IH]; [done|]. simpl. pose proof (split_char_nonempty c s).
  destruct (Ascii.eqb_spec a c) as [->|Hne]; destruct (split_char c s) as [|w ws]; try done.
  - change (join_char c ("" :: w :: ws)) with (String c (join_char c (w :: ws))). by rewrite IH.
  - destruct ws as [|w' ws].
    + change (String a w = String a s). by rewrite <- IH.
    + change (String a (join_char c (w :: w' :: ws)) = String a s). by rewrite IH.
Qed.

Lemma runes_join part parts :
  runes (join_char "*" (part :: parts)) = runes part ++ star_join (map runes parts).
Proof.
  revert part. induction parts as [|q parts IH]; intros part.
  - unfold star_join. simpl. by rewrite app_nil_r.
  - change (join_char "*" (part :: q :: parts)) with (part +:+ String "*" (join_char "*" (q :: parts))).
    rewrite runes_app_ascii by done. rewrite IH. done.
Qed.

(** [MatchLabelGlob] is the glob language of its comment.  A pattern without [*]
    matches itself only; a pattern with [*], if it is valid UTF-8, matches exactly the
    labels that are obtained by replacing each [*] with one or more characters, whatever
    they are; a pattern that is not valid UTF-8 matches nothing. *)
Theorem MatchLabelGlob_language (pattern label : string) :
  MatchLabelGlob pattern label = true <->
  if contains_char "*" pattern
  then ValidString pattern = true /\ glob (runes pattern) (runes label)
  else label = pattern.
Proof.
  unfold MatchLabelGlob. destruct (contains_char "*" pattern) eqn:Ec; simpl.
  - destruct (ValidString pattern); simpl; [|naive_solver].
    pose proof (contains_char_split "*" pattern) as Hparts.
    pose proof (join_split_char "*" pattern) as Hj. pose proof (split_char_nonempty "*" pattern) as Hne.
    destruct (split_char "*" pattern) as [|part parts]; [done|].
    apply Forall_cons in Hparts as [Hpart Hparts].
    rewrite <- Hj, runes_join, glob_lit by (by apply runes_no_star).
    unfold glob_regexp. cbn [re_match].
    destruct (strip_lit (runes part) (runes label)) as [rest|]; [|naive_solver].
    rewrite glob_nodes_spec; [naive_solver|].
    eapply Forall_impl; [exact Hparts|]. intros s Hs. by apply runes_no_star.
  - rewrite String.eqb_eq. naive_solver.
Qed.
