(* ===== verification/TrackerStore.v ===== *)
(** * internal/tracker, store.go, dispatch_store.go, route.go: the tracker's tables

    The rows of the tracker's Postgres schema and the statements the store runs on them, as
    functions on [db].  Each is one statement or one transaction, so it is atomic.  What a
    caller sees of a statement (its result, or an error with or without the effect) is
    in TrackerApi.

    A table is a list in insertion order, so the [seq] column is the position.  Columns
    hold the Go values; the text forms of the enumerations are [dispatchStateToString] and
    its companions.  NULL timestamps are the zero time.  Timestamps are exact; the column
    type rounds them to microseconds. *)

From S2P Require Import Prelude GoStrings Labels.
#[local] Open Scope string_scope.
#[local] Open Scope list_scope.
#[local] Open Scope Z_scope.

(** ** Rows *)

Inductive TrackerDispatchState :=
| DISPATCH_STATE_UNSPECIFIED | DISPATCH_STATE_QUEUED | DISPATCH_STATE_RUNNING
| DISPATCH_STATE_DONE | DISPATCH_STATE_FAILED.

Inductive TrackerDispatchFailure :=
| DISPATCH_FAILURE_UNSPECIFIED | DISPATCH_FAILURE_START_ERROR | DISPATCH_FAILURE_RUN_ERROR
| DISPATCH_FAILURE_TIMEOUT | DISPATCH_FAILURE_LEASE_LOST.

#[export] Instance dispatch_state_eq_dec : EqDecision TrackerDispatchState.
Proof. solve_decision. Defined.
#[export] Instance dispatch_failure_eq_dec : EqDecision TrackerDispatchFailure.
Proof. solve_decision. Defined.

Record Dispatch := mkDispatch {
  d_ID : string;
  d_Username : string;
  d_Connection : string;
  d_IssueNumber : Z;
  d_Scope : string;
  d_SkillID : string;
  d_RunID : string;
  d_Depth : Z;
  d_State : TrackerDispatchState;
  d_FailureReason : string;
  d_Failure : TrackerDispatchFailure;
  d_LabelsPending : bool;
  d_CreatedAt : Time;
  d_StartedAt : Time;
  d_EndedAt : Time;
}.

Record Route := mkRoute { rt_Username : string; rt_Connection : string; rt_Scope : string; rt_SkillID : string }.

Record Lineage := mkLineage {
  l_Username : string;
  l_Connection : string;
  l_ChildNumber : Z;
  l_ParentNumber : Z;
  l_CreatedByRun : string;
  l_Depth : Z;
}.

(** A fan-out slot of a run: [tracker_lineage_reservations]. *)
Record Reservation := mkReservation {
  rv_ID : Z; rv_Username : string; rv_Connection : string; rv_CreatedByRun : string
}.

(** The columns of [tracker_connections] the modelled code reads. *)
Record Connection := mkConnection {
  cn_Username : string;
  cn_Name : string;
  cn_Project : string;
  cn_BaseURL : string;
  cn_CredentialSecret : string;
  cn_Policy : option TrackerPolicy;
}.

Record db := mkDb {
  t_connections : list Connection;
  t_routes : list Route;
  t_dispatches : list Dispatch;
  t_warnings : gset (string * string * Z * string);
  t_lineage : list Lineage;
  t_reservations : list Reservation;
  t_next_reservation : Z;
}.

Definition with_dispatches (rows : list Dispatch) (s : db) : db :=
  mkDb (t_connections s) (t_routes s) rows (t_warnings s) (t_lineage s) (t_reservations s)
    (t_next_reservation s).
Definition with_warnings (ws : gset (string * string * Z * string)) (s : db) : db :=
  mkDb (t_connections s) (t_routes s) (t_dispatches s) ws (t_lineage s) (t_reservations s)
    (t_next_reservation s).
Definition with_lineage (ls : list Lineage) (rs : list Reservation) (next : Z) (s : db) : db :=
  mkDb (t_connections s) (t_routes s) (t_dispatches s) (t_warnings s) ls rs next.

(** ** Text forms *)

Definition dispatchStateToString (s : TrackerDispatchState) : option string :=
  match s with
  | DISPATCH_STATE_QUEUED => Some "queued"
  | DISPATCH_STATE_RUNNING => Some "running"
  | DISPATCH_STATE_DONE => Some "done"
  | DISPATCH_STATE_FAILED => Some "failed"
  | DISPATCH_STATE_UNSPECIFIED => None
  end.

Definition dispatchStateFromString (s : string) : TrackerDispatchState :=
  if String.eqb s "queued" then DISPATCH_STATE_QUEUED
  else if String.eqb s "running" then DISPATCH_STATE_RUNNING
  else if String.eqb s "done" then DISPATCH_STATE_DONE
  else if String.eqb s "failed" then DISPATCH_STATE_FAILED
  else DISPATCH_STATE_UNSPECIFIED.

Definition dispatchFailureToString (f : TrackerDispatchFailure) : option string :=
  match f with
  | DISPATCH_FAILURE_START_ERROR => Some "start_error"
  | DISPATCH_FAILURE_RUN_ERROR => Some "run_error"
  | DISPATCH_FAILURE_TIMEOUT => Some "timeout"
  | DISPATCH_FAILURE_LEASE_LOST => Some "lease_lost"
  | DISPATCH_FAILURE_UNSPECIFIED => None
  end.

Definition dispatchFailureFromString (s : string) : TrackerDispatchFailure :=
  if String.eqb s "start_error" then DISPATCH_FAILURE_START_ERROR
  else if String.eqb s "run_error" then DISPATCH_FAILURE_RUN_ERROR
  else if String.eqb s "timeout" then DISPATCH_FAILURE_TIMEOUT
  else if String.eqb s "lease_lost" then DISPATCH_FAILURE_LEASE_LOST
  else DISPATCH_FAILURE_UNSPECIFIED.

(** Reading a state back from its column. *)
Lemma dispatchState_column s t : dispatchStateToString s = Some t -> dispatchStateFromString t = s.
Proof. destruct s; simpl; intros; simplify_eq; reflexivity. Qed.

Lemma dispatchFailure_column f t : dispatchFailureToString f = Some t -> dispatchFailureFromString t = f.
Proof. destruct f; simpl; intros; simplify_eq; reflexivity. Qed.

Definition validDispatchTransition (from to : TrackerDispatchState) : bool :=
  match from, to with
  | DISPATCH_STATE_QUEUED, (DISPATCH_STATE_RUNNING | DISPATCH_STATE_DONE | DISPATCH_STATE_FAILED) => true
  | DISPATCH_STATE_RUNNING, (DISPATCH_STATE_DONE | DISPATCH_STATE_FAILED) => true
  | _, _ => false
  end.

(** ** Dispatch rows *)

Definition active_state (s : TrackerDispatchState) : bool :=
  match s with DISPATCH_STATE_QUEUED | DISPATCH_STATE_RUNNING => true | _ => false end.
Definition active (d : Dispatch) : bool := active_state (d_State d).

Definition dispatch_key (d : Dispatch) : string * string * Z :=
  (d_Username d, d_Connection d, d_IssueNumber d).

Inductive insert_result :=
| Inserted (d : Dispatch)
| ErrDispatchActive
| ErrNotFound
| InsertErr (msg : string).

(** The row [InsertDispatch] writes: [id] is the fresh UUID, [dbnow] the database clock. *)
Definition new_row (id : string) (dbnow : Time) (d : Dispatch) : Dispatch :=
  {| d_ID := id; d_Username := d_Username d; d_Connection := d_Connection d;
     d_IssueNumber := d_IssueNumber d; d_Scope := d_Scope d; d_SkillID := d_SkillID d;
     d_RunID := d_RunID d; d_Depth := d_Depth d; d_State := DISPATCH_STATE_QUEUED;
     d_FailureReason := ""; d_Failure := DISPATCH_FAILURE_UNSPECIFIED; d_LabelsPending := false;
     d_CreatedAt := if IsZero (d_CreatedAt d) then dbnow else d_CreatedAt d;
     d_StartedAt := 0; d_EndedAt := 0 |}.

(** The constraints of the table: the foreign key, the primary key and the partial unique
    index [tracker_dispatches_active]; both unique violations are SQLSTATE 23505. *)
Definition has_connection (u c : string) (s : db) : bool :=
  existsb (fun x => String.eqb (cn_Username x) u && String.eqb (cn_Name x) c) (t_connections s).

Definition violates_unique (row : Dispatch) (rows : list Dispatch) : bool :=
  existsb (fun r => String.eqb (d_ID r) (d_ID row)
                    || (active r && bool_decide (dispatch_key r = dispatch_key row))) rows.

Definition InsertDispatch (id : string) (dbnow : Time) (d : Dispatch) (s : db) : insert_result * db :=
  if String.eqb (d_Username d) "" then (InsertErr "tracker: username is required", s)
  else if String.eqb (d_Connection d) "" then (InsertErr "tracker: connection is required", s)
  else if d_IssueNumber d <=? 0 then (InsertErr "tracker: issue_number must be positive", s)
  else if String.eqb (d_Scope d) "" then (InsertErr "tracker: scope is required", s)
  else if String.eqb (d_SkillID d) "" then (InsertErr "tracker: skill_id is required", s)
  else
    let row := new_row id dbnow d in
    if violates_unique row (t_dispatches s) then (ErrDispatchActive, s)
    else if negb (has_connection (d_Username d) (d_Connection d) s) then (ErrNotFound, s)
    else (Inserted row, with_dispatches (t_dispatches s ++ [row]) s).

(** [WHERE id = $1 AND state = $2]. *)
Definition row_is (id : string) (st : TrackerDispatchState) (d : Dispatch) : bool :=
  String.eqb (d_ID d) id && bool_decide (d_State d = st).

(** [UPDATE ... SET f WHERE p]: whether exactly one row was affected. *)
Definition update_where (p : Dispatch -> bool) (f : Dispatch -> Dispatch) (rows : list Dispatch)
  : bool * list Dispatch :=
  ((length (filter p rows) =? 1)%nat, map (fun d => if p d then f d else d) rows).

Definition set_state (to : TrackerDispatchState) (reason : string) (at_ : Time) (d : Dispatch) : Dispatch :=
  {| d_ID := d_ID d; d_Username := d_Username d; d_Connection := d_Connection d;
     d_IssueNumber := d_IssueNumber d; d_Scope := d_Scope d; d_SkillID := d_SkillID d;
     d_RunID := d_RunID d; d_Depth := d_Depth d; d_State := to;
     d_FailureReason := if String.eqb reason "" then d_FailureReason d else reason;
     d_Failure := d_Failure d; d_LabelsPending := d_LabelsPending d; d_CreatedAt := d_CreatedAt d;
     d_StartedAt := match to with DISPATCH_STATE_RUNNING => at_ | _ => d_StartedAt d end;
     d_EndedAt := match to with DISPATCH_STATE_DONE | DISPATCH_STATE_FAILED => at_ | _ => d_EndedAt d end |}.

Definition set_failed (failure : TrackerDispatchFailure) (reason : string) (at_ : Time) (d : Dispatch)
  : Dispatch :=
  {| d_ID := d_ID d; d_Username := d_Username d; d_Connection := d_Connection d;
     d_IssueNumber := d_IssueNumber d; d_Scope := d_Scope d; d_SkillID := d_SkillID d;
     d_RunID := d_RunID d; d_Depth := d_Depth d; d_State := DISPATCH_STATE_FAILED;
     d_FailureReason := reason; d_Failure := failure; d_LabelsPending := d_LabelsPending d;
     d_CreatedAt := d_CreatedAt d; d_StartedAt := d_StartedAt d; d_EndedAt := at_ |}.

Definition set_pending (pending : bool) (d : Dispatch) : Dispatch :=
  {| d_ID := d_ID d; d_Username := d_Username d; d_Connection := d_Connection d;
     d_IssueNumber := d_IssueNumber d; d_Scope := d_Scope d; d_SkillID := d_SkillID d;
     d_RunID := d_RunID d; d_Depth := d_Depth d; d_State := d_State d;
     d_FailureReason := d_FailureReason d; d_Failure := d_Failure d; d_LabelsPending := pending;
     d_CreatedAt := d_CreatedAt d; d_StartedAt := d_StartedAt d; d_EndedAt := d_EndedAt d |}.

(** [inl moved] or an error that was found before the statement. *)
Definition TransitionDispatch (id : string) (from to : TrackerDispatchState) (reason : string)
  (at_ : Time) (s : db) : (bool + string) * db :=
  if negb (validDispatchTransition from to)
  then (inr "tracker: invalid dispatch state transition", s)
  else match dispatchStateToString from, dispatchStateToString to with
       | Some _, Some _ =>
           let '(moved, rows) := update_where (row_is id from) (set_state to reason at_) (t_dispatches s) in
           (inl moved, with_dispatches rows s)
       | _, _ => (inr "tracker: unknown dispatch state", s)
       end.

Definition FailDispatch (id : string) (from : TrackerDispatchState) (failure : TrackerDispatchFailure)
  (reason : string) (at_ : Time) (s : db) : (bool + string) * db :=
  if negb (validDispatchTransition from DISPATCH_STATE_FAILED)
  then (inr "tracker: invalid dispatch state transition", s)
  else match dispatchStateToString from, dispatchFailureToString failure with
       | Some _, Some _ =>
           let '(moved, rows) := update_where (row_is id from) (set_failed failure reason at_) (t_dispatches s) in
           (inl moved, with_dispatches rows s)
       | _, _ => (inr "tracker: unknown dispatch state or failure", s)
       end.

Definition SetDispatchLabelsPending (id : string) (pending : bool) (s : db) : option string * db :=
  let p := fun d => String.eqb (d_ID d) id in
  (if existsb p (t_dispatches s) then None else Some "tracker: dispatch not found",
   with_dispatches (map (fun d => if p d then set_pending pending d else d) (t_dispatches s)) s).

Definition GetDispatch (id : string) (s : db) : option Dispatch :=
  find (fun d => String.eqb (d_ID d) id) (t_dispatches s).

(** [ORDER BY seq DESC], the reverse of the order of insertion; [UNSPECIFIED] matches every state. *)
Definition ListDispatches (username connection : string) (state : TrackerDispatchState) (s : db)
  : list Dispatch + string :=
  if String.eqb username "" then inr "tracker: username is required"
  else inl (rev (filter (fun d : Dispatch =>
      String.eqb (d_Username d) username && String.eqb (d_Connection d) connection
      && (bool_decide (state = DISPATCH_STATE_UNSPECIFIED) || bool_decide (d_State d = state)) = true)
      (t_dispatches s))).

Definition DeleteQueuedDispatch (id : string) (s : db) : bool * db :=
  let p := row_is id DISPATCH_STATE_QUEUED in
  (existsb p (t_dispatches s), with_dispatches (filter (fun d => p d = false) (t_dispatches s)) s).

(** ** Warnings and routes *)

(** [inl first], or ErrNotFound from the foreign key. *)
Definition RecordDispatchWarning (u c : string) (issue : Z) (scope : string) (s : db)
  : (bool + string) * db :=
  if bool_decide ((u, c, issue, scope) ∈ t_warnings s) then (inl false, s)
  else if negb (has_connection u c s) then (inr "tracker: connection not found", s)
  else (inl true, with_warnings ({[(u, c, issue, scope)]} ∪ t_warnings s) s).

Definition ForgetDispatchWarning (u c : string) (issue : Z) (scope : string) (s : db) : db :=
  with_warnings (t_warnings s ∖ {[(u, c, issue, scope)]}) s.

(** [ORDER BY scope]. *)
Definition by_scope (a b : Route) : Prop := String.le (rt_Scope a) (rt_Scope b).
#[export] Instance by_scope_dec a b : Decision (by_scope a b).
Proof. unfold by_scope. apply _. Defined.

Definition ListRoutes (u c : string) (s : db) : list Route + string :=
  if String.eqb u "" then inr "tracker: username is required"
  else inl (merge_sort by_scope (filter (fun r : Route =>
              String.eqb (rt_Username r) u && String.eqb (rt_Connection r) c = true) (t_routes s))).

(** Deleting a connection drops its routes, dispatches and warnings ([ON DELETE CASCADE]);
    the lineage tables have no foreign key. *)
Definition Delete (u c : string) (s : db) : bool * db :=
  (has_connection u c s,
   {| t_connections := filter (fun x => String.eqb (cn_Username x) u && String.eqb (cn_Name x) c = false)
                         (t_connections s);
      t_routes := filter (fun r => String.eqb (rt_Username r) u && String.eqb (rt_Connection r) c = false)
                    (t_routes s);
      t_dispatches := filter (fun d => String.eqb (d_Username d) u && String.eqb (d_Connection d) c = false)
                        (t_dispatches s);
      t_warnings := filter (fun w : string * string * Z * string =>
                              String.eqb w.1.1.1 u && String.eqb w.1.1.2 c = false) (t_warnings s);
      t_lineage := t_lineage s; t_reservations := t_reservations s;
      t_next_reservation := t_next_reservation s |}).

Definition Get (u c : string) (s : db) : option Connection :=
  find (fun x => String.eqb (cn_Username x) u && String.eqb (cn_Name x) c) (t_connections s).

(** ** Lineage *)

Definition lineage_is (u c : string) (child : Z) (l : Lineage) : bool :=
  String.eqb (l_Username l) u && String.eqb (l_Connection l) c && (l_ChildNumber l =? child).

Definition issueDepth (u c : string) (number : Z) (s : db) : Z :=
  match find (lineage_is u c number) (t_lineage s) with Some l => l_Depth l | None => 0 end.

Definition run_row (u c runID : string) (d : Dispatch) : bool :=
  String.eqb (d_Username d) u && String.eqb (d_Connection d) c && String.eqb (d_RunID d) runID.

(** [COALESCE(MAX(depth), 0)] over the run's rows. *)
Definition runDispatchDepth (u c runID : string) (s : db) : Z :=
  if String.eqb runID "" then 0
  else match map d_Depth (filter (fun d : Dispatch => run_row u c runID d = true) (t_dispatches s)) with
       | [] => 0
       | d :: ds => foldl Z.max d ds
       end.

Definition lineage_of (u c runID : string) (l : Lineage) : bool :=
  String.eqb (l_Username l) u && String.eqb (l_Connection l) c && String.eqb (l_CreatedByRun l) runID.
Definition reservation_of (u c runID : string) (r : Reservation) : bool :=
  String.eqb (rv_Username r) u && String.eqb (rv_Connection r) c && String.eqb (rv_CreatedByRun r) runID.

Definition childrenCount (u c runID : string) (s : db) : Z :=
  Z.of_nat (length (filter (fun l : Lineage => lineage_of u c runID l = true) (t_lineage s))).
Definition reservedCount (u c runID : string) (s : db) : Z :=
  Z.of_nat (length (filter (fun r : Reservation => reservation_of u c runID r = true) (t_reservations s))).

(** One statement reads both counts. *)
Definition claimedCount (u c runID : string) (s : db) : Z * Z :=
  (childrenCount u c runID s, reservedCount u c runID s).

Definition IssueInRunLineage (u c runID : string) (number : Z) (s : db) : bool :=
  if String.eqb runID "" then false
  else existsb (fun d => run_row u c runID d && (d_IssueNumber d =? number)) (t_dispatches s)
       || existsb (fun l => lineage_of u c runID l && (l_ChildNumber l =? number)) (t_lineage s).

(** The [INSERT] of [reserveChild]: the reservation's id. *)
Definition reserve (u c runID : string) (s : db) : Z * db :=
  (t_next_reservation s,
   with_lineage (t_lineage s) (t_reservations s ++ [mkReservation (t_next_reservation s) u c runID])
     (t_next_reservation s + 1) s).

Definition release (id : Z) (s : db) : db :=
  with_lineage (t_lineage s) (filter (fun r => rv_ID r <> id) (t_reservations s)) (t_next_reservation s) s.

(** [recordReservedChild]: the lineage row in, the reservation out, in one transaction that
    the primary key can refuse. *)
Definition recordReservedChild (l : Lineage) (id : Z) (s : db) : bool * db :=
  if existsb (lineage_is (l_Username l) (l_Connection l) (l_ChildNumber l)) (t_lineage s)
  then (false, s)
  else (true, with_lineage (t_lineage s ++ [l]) (filter (fun r => rv_ID r <> id) (t_reservations s))
                (t_next_reservation s) s).
