(* ===== verification/TrackerApi.v ===== *)
(** * The tracker's interfaces: what its programs call, and what the calls do

    [tcall] has one constructor per method the dispatcher, the run lifecycle, the sweep and
    the write verbs call: the store, the forge adapter (DispatchProvider and
    WriterProvider), the run launcher and the run registry, the clock and the context.
    [ans] gives the type of what comes back.

    [exec] is their effect on the shared world.  The store's statements act on the
    database of TrackerStore and can fail in both ways a database call can: without having
    happened, or after having been committed.  Everything else (the forge, the runs, the
    clock, other daemons) answers arbitrarily.  The world also records every call, with
    its answer, in the order they took effect. *)

From S2P Require Import Prelude Prog GoStrings Labels TrackerStore.
#[local] Open Scope string_scope.
#[local] Open Scope list_scope.
#[local] Open Scope Z_scope.

Inductive TrackerIssueState := ISSUE_STATE_UNSPECIFIED | ISSUE_STATE_OPEN | ISSUE_STATE_CLOSED.
#[export] Instance issue_state_eq_dec : EqDecision TrackerIssueState.
Proof. solve_decision. Defined.

(** The fields of [tracker.Issue] the modelled code reads. *)
Record Issue := mkIssue { is_Number : Z; is_State : TrackerIssueState; is_Labels : list string }.

Record NewIssue := mkNewIssue { ni_Title : string; ni_Body : string; ni_Labels : list string }.

Record StartRunRequest := mkStartRun {
  sr_Username : string;
  sr_Connection : string;
  sr_SkillID : string;
  sr_RunID : string;
  sr_InputJSON : string;
  sr_RepoURL : string;
}.

(** What a [tracker.Dispatcher] is configured with.  [Leases] and [Observer] may be nil. *)
Record Dispatcher := mkDispatcher {
  dp_Policy : option Policy;
  dp_HasLeases : bool;
  dp_LeaseGrace : Duration;
  dp_HasObserver : bool;
  dp_RepoURL : string;
}.

(** One terminal transition, as the metrics see it. *)
Record DispatchEnded := mkEnded {
  de_Scope : string;
  de_State : TrackerDispatchState;
  de_Failure : TrackerDispatchFailure;
  de_Latency : Duration;
}.

(** The run's key in the lineage gates and the advisory lock: [username/connection/run]. *)
Abbreviation run_key := (string * string * string)%type (only parsing).

Inductive tcall :=
(** the dispatch store *)
| CListRoutes (u c : string)
| CListDispatches (u c : string) (state : TrackerDispatchState)
| CInsertDispatch (d : Dispatch)
| CTransitionDispatch (id : string) (from to : TrackerDispatchState) (reason : string) (at_ : Time)
| CFailDispatch (id : string) (from : TrackerDispatchState) (failure : TrackerDispatchFailure)
    (reason : string) (at_ : Time)
| CSetLabelsPending (id : string) (pending : bool)
| CDeleteQueuedDispatch (id : string)
| CRecordWarning (u c : string) (issue : Z) (scope : string)
| CForgetWarning (u c : string) (issue : Z) (scope : string)
| CIssueDepth (u c : string) (number : Z)
(** connections and lineage *)
| CGetConnection (u c : string)
| CIssueInRunLineage (u c run : string) (number : Z)
| CLockRun (k : run_key)
| CTxIssueDepth (u c : string) (number : Z)
| CTxRunDispatchDepth (k : run_key)
| CTxClaimedCount (k : run_key)
| CTxReserve (k : run_key)
| CTxRollback (k : run_key)
| CReleaseReservation (id : Z)
| CRecordReservedChild (l : Lineage) (id : Z)
(** the forge *)
| CListIssues
| CGetIssue (number : Z)
| CSetLabels (number : Z) (add remove : list string)
| CComment (number : Z) (body : string)
(** [Comment] on [row]'s issue with [failureComment row timeout] as the body *)
| CFailureComment (row : Dispatch) (timeout : Duration)
(** [k] is the run that files the issue, if a run does *)
| CCreateIssue (k : option run_key) (i : NewIssue)
(** runs *)
| CRequireDispatchCaller (u : string)
| CBeginSkillRun (req : StartRunRequest)
| CTrack (runID : string)
| CSetLease (runID : string)
| CUntrack (runID : string)
| CEndDispatchedLease (runID : string)
(** [go finishDispatchedRun(...)] for the run of [row] *)
| CLaunch (d : Dispatcher) (runID : string) (row : Dispatch)
| CAgent (runID : string)
| CLive (runID : string)
| CEndLease (runID : string)
| CDispatchEnded (row : Dispatch) (ev : DispatchEnded)
(** the rest *)
| CNow
| CCtxErr
| CNewRunID
| CResolveWriter (cn : Connection)
| CAudit (action u c : string) (number : Z).

(** How the in-box agent's call ended: an artifact, an error, or a panic or Goexit that the
    deferred functions see. *)
Inductive agent_end := AgentArtifact (artifact : string) | AgentErr (msg : string) | AgentUnwound.

Inductive conn_error := EConnNotFound | EConnStore (msg : string).

Definition ans (c : tcall) : Type :=
  match c with
  | CListRoutes _ _ => list Route + string
  | CListDispatches _ _ _ => list Dispatch + string
  | CInsertDispatch _ => insert_result
  | CTransitionDispatch _ _ _ _ _ | CFailDispatch _ _ _ _ _ | CDeleteQueuedDispatch _
  | CRecordWarning _ _ _ _ | CIssueInRunLineage _ _ _ _ => bool + string
  | CSetLabelsPending _ _ | CForgetWarning _ _ _ _ | CLockRun _ | CReleaseReservation _
  | CRecordReservedChild _ _ | CSetLabels _ _ _ | CComment _ _ | CFailureComment _ _
  | CRequireDispatchCaller _ | CCtxErr | CResolveWriter _ => option string
  | CIssueDepth _ _ _ | CTxIssueDepth _ _ _ | CTxRunDispatchDepth _ | CTxReserve _ => Z + string
  | CTxClaimedCount _ => Z * Z + string
  | CGetConnection _ _ => Connection + conn_error
  | CListIssues => list Issue + string
  | CGetIssue _ | CCreateIssue _ _ => Issue + string
  | CBeginSkillRun _ => string + string
  | CAgent _ => agent_end
  | CLive _ | CEndDispatchedLease _ => bool
  | CNow => Time
  | CNewRunID => string
  | CTxRollback _ | CTrack _ | CSetLease _ | CUntrack _ | CLaunch _ _ _ | CEndLease _
  | CDispatchEnded _ _ | CAudit _ _ _ _ => unit
  end.

Abbreviation tprog := (prog ans) (only parsing).
Abbreviation tevent := (event ans) (only parsing).

(** ** The shared world *)

Record world := mkWorld {
  w_db : db;
  (** every UUID that was ever minted for a dispatch *)
  w_ids : gset string;
  (** the runs whose reservation transaction is open *)
  w_locks : gset run_key;
  (** the calls so far, newest first *)
  w_trace : list tevent;
}.

Definition logged (c : tcall) (a : ans c) (w : world) (s : db) (ids : gset string) (locks : gset run_key)
  : world := mkWorld s ids locks (existT c a :: w_trace w).

(** The statement ran and was reported; or an error [e] was reported for a statement that
    did not run, or that did. *)
Inductive outcome {R} (e : R -> Prop) (ok : R) (s s' : db) : R -> db -> Prop :=
| out_ok : outcome e ok s s' ok s'
| out_err r : e r -> outcome e ok s s' r s
| out_lost r : e r -> outcome e ok s s' r s'.

Definition is_err {X} (r : X + string) : Prop := exists m, r = inr m.
Definition is_some {X} (r : option X) : Prop := exists m, r = Some m.
Definition is_insert_err (r : insert_result) : Prop := exists m, r = InsertErr m.

(** Effects on the database of the calls that write to it. *)
Inductive db_exec (w : world) : forall c, ans c -> db -> gset string -> gset run_key -> Prop :=
| ex_insert d id dbnow a s' :
    id ∉ w_ids w ->
    outcome is_insert_err (InsertDispatch id dbnow d (w_db w)).1 (w_db w)
      (InsertDispatch id dbnow d (w_db w)).2 a s' ->
    db_exec w (CInsertDispatch d) a s' ({[id]} ∪ w_ids w) (w_locks w)
| ex_transition id from to reason at_ a s' :
    outcome is_err (TransitionDispatch id from to reason at_ (w_db w)).1 (w_db w)
      (TransitionDispatch id from to reason at_ (w_db w)).2 a s' ->
    db_exec w (CTransitionDispatch id from to reason at_) a s' (w_ids w) (w_locks w)
| ex_fail id from failure reason at_ a s' :
    outcome is_err (FailDispatch id from failure reason at_ (w_db w)).1 (w_db w)
      (FailDispatch id from failure reason at_ (w_db w)).2 a s' ->
    db_exec w (CFailDispatch id from failure reason at_) a s' (w_ids w) (w_locks w)
| ex_pending id pending a s' :
    outcome is_some (SetDispatchLabelsPending id pending (w_db w)).1 (w_db w)
      (SetDispatchLabelsPending id pending (w_db w)).2 a s' ->
    db_exec w (CSetLabelsPending id pending) a s' (w_ids w) (w_locks w)
| ex_delete id a s' :
    outcome is_err (inl (DeleteQueuedDispatch id (w_db w)).1) (w_db w)
      (DeleteQueuedDispatch id (w_db w)).2 a s' ->
    db_exec w (CDeleteQueuedDispatch id) a s' (w_ids w) (w_locks w)
| ex_warn u c issue scope a s' :
    outcome is_err (RecordDispatchWarning u c issue scope (w_db w)).1 (w_db w)
      (RecordDispatchWarning u c issue scope (w_db w)).2 a s' ->
    db_exec w (CRecordWarning u c issue scope) a s' (w_ids w) (w_locks w)
| ex_forget u c issue scope a s' :
    outcome is_some None (w_db w) (ForgetDispatchWarning u c issue scope (w_db w)) a s' ->
    db_exec w (CForgetWarning u c issue scope) a s' (w_ids w) (w_locks w)
(** a lock is granted when nobody holds it; waiting can be cancelled *)
| ex_lock k : k ∉ w_locks w -> db_exec w (CLockRun k) None (w_db w) (w_ids w) ({[k]} ∪ w_locks w)
| ex_lock_err k m : db_exec w (CLockRun k) (Some m) (w_db w) (w_ids w) (w_locks w)
(** the transaction commits, fails, or commits without the caller learning of it *)
| ex_reserve u c r a s' :
    outcome is_err (inl (reserve u c r (w_db w)).1) (w_db w) (reserve u c r (w_db w)).2 a s' ->
    db_exec w (CTxReserve (u, c, r)) a s' (w_ids w) (w_locks w ∖ {[(u, c, r)]})
| ex_rollback k : db_exec w (CTxRollback k) tt (w_db w) (w_ids w) (w_locks w ∖ {[k]})
| ex_release id a s' :
    outcome is_some None (w_db w) (release id (w_db w)) a s' ->
    db_exec w (CReleaseReservation id) a s' (w_ids w) (w_locks w)
| ex_record l id a s' :
    outcome is_some (if (recordReservedChild l id (w_db w)).1 then None else Some "insert issue lineage")
      (w_db w) (recordReservedChild l id (w_db w)).2 a s' ->
    db_exec w (CRecordReservedChild l id) a s' (w_ids w) (w_locks w).

(** What the store's reads answer, when they do not fail. *)
Definition read_result (c : tcall) (s : db) : ans c -> Prop :=
  match c with
  | CListRoutes u k => fun a => a = ListRoutes u k s \/ is_err a
  | CListDispatches u k st => fun a => a = ListDispatches u k st s \/ is_err a
  | CIssueDepth u k n => fun a => a = inl (issueDepth u k n s) \/ is_err a
  | CTxIssueDepth u k n => fun a => a = inl (issueDepth u k n s) \/ is_err a
  | CTxRunDispatchDepth k => fun a => a = inl (runDispatchDepth k.1.1 k.1.2 k.2 s) \/ is_err a
  | CTxClaimedCount k => fun a => a = inl (claimedCount k.1.1 k.1.2 k.2 s) \/ is_err a
  | CGetConnection u k => fun a =>
      a = (match Get u k s with Some cn => inl cn | None => inr EConnNotFound end)
      \/ exists m, a = inr (EConnStore m)
  | CIssueInRunLineage u k r n => fun a => a = inl (IssueInRunLineage u k r n s) \/ is_err a
  | _ => fun _ => True
  end.

(** The calls that only read, or that leave the database alone. *)
Definition writes_db (c : tcall) : bool :=
  match c with
  | CInsertDispatch _ | CTransitionDispatch _ _ _ _ _ | CFailDispatch _ _ _ _ _ | CSetLabelsPending _ _
  | CDeleteQueuedDispatch _ | CRecordWarning _ _ _ _ | CForgetWarning _ _ _ _ | CLockRun _ | CTxReserve _
  | CTxRollback _ | CReleaseReservation _ | CRecordReservedChild _ _ => true
  | _ => false
  end.

Inductive exec (w : world) (c : tcall) (a : ans c) : world -> Prop :=
| exec_write s' ids locks :
    db_exec w c a s' ids locks -> exec w c a (logged c a w s' ids locks)
| exec_other :
    writes_db c = false -> read_result c (w_db w) a ->
    exec w c a (logged c a w (w_db w) (w_ids w) (w_locks w)).
