(* ===== verification/DispatchTable.v ===== *)
(** * The dispatch table as a map of row life cycles

    The abstract view of [tracker_dispatches]: a finite map from the row's id, whose rows
    move along QUEUED, RUNNING, DONE or FAILED and whose active rows have distinct
    issues.  [store_refines_ledger] shows that the statements of TrackerStore implement
    it; the lemmas on single statements are what the proofs about whole programs use. *)

From S2P Require Import Prelude Prog GoStrings Labels TrackerStore TrackerApi.
#[local] Open Scope string_scope.
#[local] Open Scope list_scope.
#[local] Open Scope Z_scope.

Abbreviation ledger := (gmap string Dispatch) (only parsing).

Definition ledger_of (rows : list Dispatch) : ledger :=
  list_to_map ((fun d => (d_ID d, d)) <$> rows).

(** ** The abstract operations *)

Inductive table_op :=
| OInsert (id : string) (dbnow : Time) (d : Dispatch)
| OTransition (id : string) (from to : TrackerDispatchState) (reason : string) (at_ : Time)
| OFail (id : string) (from : TrackerDispatchState) (failure : TrackerDispatchFailure) (reason : string)
    (at_ : Time)
| OPending (id : string) (pending : bool)
| ODelete (id : string).

Inductive table_result :=
| RInsert (r : insert_result)
| RMoved (r : bool + string)
| RPending (r : option string)
| RDeleted (r : bool).

(** The statements. *)
Definition run_op (o : table_op) (s : db) : table_result * db :=
  match o with
  | OInsert id dbnow d => let '(r, s) := InsertDispatch id dbnow d s in (RInsert r, s)
  | OTransition id from to reason at_ =>
      let '(r, s) := TransitionDispatch id from to reason at_ s in (RMoved r, s)
  | OFail id from failure reason at_ =>
      let '(r, s) := FailDispatch id from failure reason at_ s in (RMoved r, s)
  | OPending id pending => let '(r, s) := SetDispatchLabelsPending id pending s in (RPending r, s)
  | ODelete id => let '(r, s) := DeleteQueuedDispatch id s in (RDeleted r, s)
  end.

(** A move succeeds when the row is there in the state it should leave. *)
Definition move (id : string) (from : TrackerDispatchState) (f : Dispatch -> Dispatch) (L : ledger)
  : bool * ledger :=
  match L !! id with
  | Some d => if bool_decide (d_State d = from) then (true, <[id := f d]> L) else (false, L)
  | None => (false, L)
  end.

Definition complete (d : Dispatch) : Prop :=
  d_Username d <> "" /\ d_Connection d <> "" /\ 0 < d_IssueNumber d /\ d_Scope d <> "" /\ d_SkillID d <> "".

(** The id or the issue is taken. *)
Definition taken (id : string) (d : Dispatch) (L : ledger) : Prop :=
  is_Some (L !! id) \/ exists i x, L !! i = Some x /\ active x = true /\ dispatch_key x = dispatch_key d.

(** What each operation promises: result and table after, from the table before.  Only an
    insert of a complete row into a connection's free issue creates; only the edges of
    [validDispatchTransition] move; only a QUEUED row is deleted. *)
Inductive spec_op (connected : string -> string -> bool) (L : ledger) : table_op -> table_result -> ledger -> Prop :=
| sp_inserted id dbnow d :
    complete d -> ~ taken id d L -> connected (d_Username d) (d_Connection d) = true ->
    spec_op connected L (OInsert id dbnow d) (RInsert (Inserted (new_row id dbnow d)))
      (<[id := new_row id dbnow d]> L)
| sp_active id dbnow d :
    complete d -> taken id d L -> spec_op connected L (OInsert id dbnow d) (RInsert ErrDispatchActive) L
| sp_no_connection id dbnow d :
    complete d -> ~ taken id d L -> connected (d_Username d) (d_Connection d) = false ->
    spec_op connected L (OInsert id dbnow d) (RInsert ErrNotFound) L
| sp_incomplete id dbnow d m :
    ~ complete d -> spec_op connected L (OInsert id dbnow d) (RInsert (InsertErr m)) L
| sp_transition id from to reason at_ :
    validDispatchTransition from to = true ->
    spec_op connected L (OTransition id from to reason at_)
      (RMoved (inl (move id from (set_state to reason at_) L).1)) (move id from (set_state to reason at_) L).2
| sp_transition_refused id from to reason at_ m :
    validDispatchTransition from to = false ->
    spec_op connected L (OTransition id from to reason at_) (RMoved (inr m)) L
| sp_fail id from failure reason at_ :
    active_state from = true -> failure <> DISPATCH_FAILURE_UNSPECIFIED ->
    spec_op connected L (OFail id from failure reason at_)
      (RMoved (inl (move id from (set_failed failure reason at_) L).1))
      (move id from (set_failed failure reason at_) L).2
| sp_fail_refused id from failure reason at_ m :
    active_state from = false \/ failure = DISPATCH_FAILURE_UNSPECIFIED ->
    spec_op connected L (OFail id from failure reason at_) (RMoved (inr m)) L
| sp_pending id pending d :
    L !! id = Some d ->
    spec_op connected L (OPending id pending) (RPending None) (<[id := set_pending pending d]> L)
| sp_pending_absent id pending m :
    L !! id = None -> spec_op connected L (OPending id pending) (RPending (Some m)) L
| sp_deleted id d :
    L !! id = Some d -> d_State d = DISPATCH_STATE_QUEUED ->
    spec_op connected L (ODelete id) (RDeleted true) (delete id L)
| sp_not_deleted id :
    (forall d, L !! id = Some d -> d_State d <> DISPATCH_STATE_QUEUED) ->
    spec_op connected L (ODelete id) (RDeleted false) L.

(** Rows sit under their ids, and no two active ones are about the same issue. *)
Record ledger_ok (L : ledger) : Prop := {
  lo_id : forall i d, L !! i = Some d -> d_ID d = i;
  lo_active : forall i j d e, L !! i = Some d -> L !! j = Some e -> active d = true -> active e = true ->
                              dispatch_key d = dispatch_key e -> i = j;
}.

Record table_ok (s : db) : Prop := {
  tk_nodup : NoDup (d_ID <$> t_dispatches s);
  tk_ledger : ledger_ok (ledger_of (t_dispatches s));
}.

(** ** The representation *)

Section Rows.
Implicit Types (rows : list Dispatch) (L : ledger).

Lemma ledger_cons d rows : ledger_of (d :: rows) = <[d_ID d := d]> (ledger_of rows).
Proof. done. Qed.

Lemma ids_fst rows : ((fun d => (d_ID d, d)) <$> rows).*1 = d_ID <$> rows.
Proof. by rewrite <- list_fmap_compose. Qed.

Lemma ledger_lookup rows i d :
  NoDup (d_ID <$> rows) -> ledger_of rows !! i = Some d <-> d ∈ rows /\ d_ID d = i.
Proof.
  intros Hnd. unfold ledger_of. rewrite <- elem_of_list_to_map by by rewrite ids_fst.
  rewrite list_elem_of_fmap. naive_solver.
Qed.

Lemma ledger_fresh rows i : ledger_of rows !! i = None <-> i ∉ (d_ID <$> rows).
Proof. unfold ledger_of. by rewrite <- not_elem_of_list_to_map, ids_fst. Qed.

Lemma ids_update f (p : Dispatch -> bool) rows :
  (forall d, d_ID (f d) = d_ID d) -> d_ID <$> map (fun d => if p d then f d else d) rows = d_ID <$> rows.
Proof.
  intros Hf. induction rows as [|d rows IH]; [done|]. csimpl. rewrite IH. f_equal. by destruct (p d).
Qed.

Lemma row_is_self st d : row_is (d_ID d) st d = bool_decide (d_State d = st).
Proof. unfold row_is. by rewrite String.eqb_refl. Qed.

Lemma row_is_other i st d : d_ID d <> i -> row_is i st d = false.
Proof. intros Hne. unfold row_is. destruct (String.eqb_spec (d_ID d) i); [congruence|done]. Qed.

Lemma no_row rows i st : i ∉ (d_ID <$> rows) -> filter (row_is i st) rows = [].
Proof.
  induction rows as [|d rows IH]; [done|]. intros [Hne Hi]%not_elem_of_cons.
  rewrite filter_cons_False; [by apply IH|]. rewrite row_is_other by done. tauto.
Qed.

Lemma map_no_row rows i st f :
  i ∉ (d_ID <$> rows) -> map (fun d => if row_is i st d then f d else d) rows = rows.
Proof.
  induction rows as [|d rows IH]; [done|]. intros [Hne Hi]%not_elem_of_cons. simpl.
  by rewrite (IH Hi), row_is_other by done.
Qed.

(** [UPDATE ... WHERE id = $1 AND state = $2] is [move]. *)
Lemma update_where_move i st f rows :
  (forall d, d_ID (f d) = d_ID d) -> NoDup (d_ID <$> rows) ->
  (update_where (row_is i st) f rows).1 = (move i st f (ledger_of rows)).1 /\
  ledger_of (update_where (row_is i st) f rows).2 = (move i st f (ledger_of rows)).2.
Proof.
  intros Hf. unfold update_where, move; cbn [fst snd].
  induction rows as [|d rows IH]; [done|]. intros [Hd Hnd]%NoDup_cons. specialize (IH Hnd).
  cbn [map]. rewrite !ledger_cons.
  destruct (decide (d_ID d = i)) as [<-|Hne].
  - rewrite lookup_insert_eq, (map_no_row _ _ _ _ Hd), row_is_self.
    destruct (bool_decide_reflect (d_State d = st)) as [Hst|Hst].
    + rewrite filter_cons_True, (no_row _ _ _ Hd), Hf, insert_insert_eq; [done|].
      rewrite row_is_self. by apply bool_decide_pack.
    + rewrite filter_cons_False, (no_row _ _ _ Hd); [done|].
      rewrite row_is_self. by intros H%bool_decide_unpack.
  - rewrite lookup_insert_ne by done. rewrite (row_is_other i st d) by done.
    rewrite filter_cons_False by (rewrite row_is_other by done; tauto).
    destruct IH as [IH1 IH2].
    destruct (ledger_of rows !! i) as [x|]; [destruct (bool_decide _)|]; simpl in *; rewrite ?IH2;
      (split; [done|]); [by rewrite insert_insert_ne by done|done..].
Qed.
End Rows.

Section Rows2.
Implicit Types (rows : list Dispatch).

Lemma pending_rows i b rows :
  NoDup (d_ID <$> rows) ->
  ledger_of (map (fun d => if String.eqb (d_ID d) i then set_pending b d else d) rows)
  = match ledger_of rows !! i with
    | Some d => <[i := set_pending b d]> (ledger_of rows)
    | None => ledger_of rows
    end.
Proof.
  induction rows as [|d rows IH]; [done|]. intros [Hd Hnd]%NoDup_cons. specialize (IH Hnd).
  cbn [map]. rewrite !ledger_cons, IH. clear IH.
  destruct (String.eqb_spec (d_ID d) i) as [<-|Hne].
  - apply ledger_fresh in Hd. rewrite Hd, lookup_insert_eq, insert_insert_eq. done.
  - rewrite lookup_insert_ne by done. destruct (ledger_of rows !! i); [|done].
    by rewrite insert_insert_ne by done.
Qed.

Lemma delete_rows i st rows :
  NoDup (d_ID <$> rows) ->
  ledger_of (filter (fun d => row_is i st d = false) rows)
  = match ledger_of rows !! i with
    | Some d => if bool_decide (d_State d = st) then delete i (ledger_of rows) else ledger_of rows
    | None => ledger_of rows
    end.
Proof.
  induction rows as [|d rows IH]; [done|]. intros [Hd Hnd]%NoDup_cons. specialize (IH Hnd).
  rewrite ledger_cons. destruct (decide (d_ID d = i)) as [<-|Hne].
  - apply ledger_fresh in Hd. rewrite Hd in IH. rewrite lookup_insert_eq, filter_cons, row_is_self.
    destruct (bool_decide (d_State d = st)).
    + rewrite decide_False by done. rewrite IH, delete_insert_id; done.
    + rewrite decide_True by done. by rewrite ledger_cons, IH.
  - rewrite filter_cons_True by (by apply row_is_other). rewrite ledger_cons, IH, lookup_insert_ne by done.
    destruct (ledger_of rows !! i); [|done]. destruct (bool_decide _); [|done].
    by rewrite delete_insert_ne by done.
Qed.

Lemma exists_row i (p : Dispatch -> bool) rows :
  NoDup (d_ID <$> rows) ->
  existsb (fun d => String.eqb (d_ID d) i && p d) rows
  = match ledger_of rows !! i with Some d => p d | None => false end.
Proof.
  induction rows as [|d rows IH]; [done|]. intros [Hd Hnd]%NoDup_cons. specialize (IH Hnd).
  rewrite ledger_cons. cbn [existsb]. rewrite IH. destruct (String.eqb_spec (d_ID d) i) as [<-|Hne].
  - apply ledger_fresh in Hd. by rewrite Hd, lookup_insert_eq, orb_false_r.
  - by rewrite lookup_insert_ne by done.
Qed.

Lemma exists_id i rows :
  NoDup (d_ID <$> rows) ->
  existsb (fun d => String.eqb (d_ID d) i) rows = bool_decide (is_Some (ledger_of rows !! i)).
Proof.
  intros Hnd. pose proof (exists_row i (fun _ => true) rows Hnd) as Hex.
  transitivity (existsb (fun d => String.eqb (d_ID d) i && true) rows);
    [|rewrite Hex; by destruct (ledger_of rows !! i)].
  clear. induction rows as [|d rows IH]; [done|]. simpl. by rewrite IH, andb_true_r.
Qed.

Lemma violates_taken row rows :
  NoDup (d_ID <$> rows) -> violates_unique row rows = true <-> taken (d_ID row) row (ledger_of rows).
Proof.
  intros Hnd. unfold violates_unique, taken. rewrite existsb_exists. split.
  - intros (x & Hx%list_elem_of_In & [Hid%String.eqb_eq|[Ha Hk%bool_decide_eq_true]%andb_true_iff]%orb_true_iff).
    + left. exists x. by apply ledger_lookup.
    + right. exists (d_ID x), x. split_and!; [by apply ledger_lookup|done..].
  - intros [[x Hx]|(i & x & Hx & Ha & Hk)]; apply ledger_lookup in Hx as [Hx Hid]; try done;
      exists x; (split; [by apply list_elem_of_In|]); apply orb_true_iff.
    + left. by apply String.eqb_eq.
    + right. rewrite Ha. by apply bool_decide_eq_true.
Qed.

Lemma ids_filter (P : Dispatch -> Prop) `{!forall d, Decision (P d)} rows :
  NoDup (d_ID <$> rows) -> NoDup (d_ID <$> filter P rows).
Proof. intros Hnd. eapply sublist_NoDup; [exact Hnd|]. apply fmap_sublist, sublist_filter. Qed.
End Rows2.

(** ** Refinement *)

Definition table_key_kept (f : Dispatch -> Dispatch) : Prop :=
  forall d, d_ID (f d) = d_ID d /\ dispatch_key (f d) = dispatch_key d.

Lemma set_state_kept to reason at_ : table_key_kept (set_state to reason at_).
Proof. done. Qed.
Lemma set_failed_kept failure reason at_ : table_key_kept (set_failed failure reason at_).
Proof. done. Qed.
Lemma set_pending_kept b : table_key_kept (set_pending b).
Proof. done. Qed.
#[local] Hint Resolve set_state_kept set_failed_kept set_pending_kept : core.

(** Changing one row in place, without waking it up, keeps the ledger in order. *)
Lemma ledger_ok_update L i d f :
  ledger_ok L -> L !! i = Some d -> table_key_kept f -> (active (f d) = true -> active d = true) ->
  ledger_ok (<[i := f d]> L).
Proof.
  intros [Hid Hact] Hi Hf Ha. destruct (Hf d) as [Hfid Hfkey]. split.
  - intros j x [[<- <-]|[Hne Hj]]%lookup_insert_Some; [rewrite Hfid|]; eauto.
  - intros j k x y [[<- <-]|[Hne Hj]]%lookup_insert_Some [[<- <-]|[Hne' Hk]]%lookup_insert_Some;
      rewrite ?Hfkey; eauto.
Qed.

Lemma ledger_ok_insert L row :
  ledger_ok L -> ~ taken (d_ID row) row L -> ledger_ok (<[d_ID row := row]> L).
Proof.
  intros [Hid Hact] Hfree. split.
  - intros j x [[<- <-]|[Hne Hj]]%lookup_insert_Some; eauto.
  - intros j k x y [[<- <-]|[Hne Hj]]%lookup_insert_Some [[<- <-]|[Hne' Hk]]%lookup_insert_Some; eauto.
    + intros _ Hy Hkey. destruct Hfree. right. eauto.
    + intros Hx _ Hkey. destruct Hfree. right. eauto.
Qed.

Lemma ledger_ok_delete L i : ledger_ok L -> ledger_ok (delete i L).
Proof.
  intros [Hid Hact]. split; intros *; rewrite ?lookup_delete_Some; [intros [_ ?]; eauto|].
  intros [_ Hj] [_ Hk]. eauto.
Qed.

Lemma ledger_ok_move L i st f :
  ledger_ok L -> table_key_kept f -> (forall d, d_State d = st -> active (f d) = true -> active d = true) ->
  ledger_ok (move i st f L).2.
Proof.
  intros HL Hf Ha. unfold move. destruct (L !! i) as [d|] eqn:Hi; [|done].
  destruct (bool_decide_reflect (d_State d = st)); [|done]. simpl. apply ledger_ok_update; auto.
Qed.

Lemma table_ok_rows s rows :
  NoDup (d_ID <$> rows) -> ledger_ok (ledger_of rows) -> table_ok (with_dispatches rows s).
Proof. done. Qed.

Lemma table_ok_move s i st f :
  table_ok s -> table_key_kept f -> (forall d, d_State d = st -> active (f d) = true -> active d = true) ->
  table_ok (with_dispatches (update_where (row_is i st) f (t_dispatches s)).2 s).
Proof.
  intros [Hnd HL] Hf Ha. apply table_ok_rows.
  - simpl. rewrite ids_update by (intros d; apply Hf). done.
  - rewrite (proj2 (update_where_move _ _ _ _ (fun d => proj1 (Hf d)) Hnd)). by apply ledger_ok_move.
Qed.

Lemma active_from_failed from : validDispatchTransition from DISPATCH_STATE_FAILED = active_state from.
Proof. by destruct from. Qed.

Section Refinement.
Context (s : db) (Hok : table_ok s).
Let L := ledger_of (t_dispatches s).
Let conn := fun u c => has_connection u c s.

(** A result and a table after, as the abstract operation [o] allows them. *)
Let refines (o : table_op) (r : table_result * db) : Prop :=
  spec_op conn L o r.1 (ledger_of (t_dispatches r.2)) /\ table_ok r.2.

Lemma refines_insert id dbnow d : refines (OInsert id dbnow d) (run_op (OInsert id dbnow d) s).
Proof.
  unfold refines, run_op, InsertDispatch. destruct Hok as [Hnd HL].
  destruct (String.eqb_spec (d_Username d) "") as [?|Hu]; [split; [constructor; by intros (?&?)|done]|].
  destruct (String.eqb_spec (d_Connection d) "") as [?|Hc]; [split; [constructor; by intros (?&?&?)|done]|].
  destruct (Z.leb_spec (d_IssueNumber d) 0) as [?|Hn]; [split; [constructor; intros (?&?&?&?); lia|done]|].
  destruct (String.eqb_spec (d_Scope d) "") as [?|Hs]; [split; [constructor; by intros (?&?&?&?&?)|done]|].
  destruct (String.eqb_spec (d_SkillID d) "") as [?|Hk]; [split; [constructor; by intros (?&?&?&?&?)|done]|].
  assert (Hcomp : complete d) by done.
  pose proof (violates_taken (new_row id dbnow d) _ Hnd) as Htaken.
  destruct (violates_unique _ _); [split; [constructor; [done|]; by apply Htaken|done]|].
  assert (Hfree : ~ taken id d L) by (intros Ht; discriminate (proj2 Htaken Ht)).
  destruct (has_connection _ _ s) eqn:Hconn; [|by split; [constructor|]].
  simpl.
  assert (Hnew : ledger_of (t_dispatches s ++ [new_row id dbnow d]) = <[id := new_row id dbnow d]> L).
  { unfold L, ledger_of. rewrite fmap_app, list_to_map_app. symmetry. apply (insert_union_singleton_r _ id).
    apply eq_None_not_Some. intros ?. apply Hfree. by left. }
  split; [rewrite Hnew; by constructor|]. apply table_ok_rows.
  - rewrite fmap_app. apply NoDup_app. split_and!; [done| |apply NoDup_singleton].
    intros i Hi ->%list_elem_of_singleton. apply Hfree. left.
    apply not_eq_None_Some. by intros ?%ledger_fresh.
  - rewrite Hnew. by apply (ledger_ok_insert L (new_row id dbnow d)).
Qed.

Lemma refines_transition id from to reason at_ :
  refines (OTransition id from to reason at_) (run_op (OTransition id from to reason at_) s).
Proof.
  unfold refines, run_op, TransitionDispatch. pose proof Hok as [Hnd HL].
  destruct (validDispatchTransition from to) eqn:Hv; cbn [negb]; [|by split; [constructor|]].
  assert (exists a b, dispatchStateToString from = Some a /\ dispatchStateToString to = Some b)
    as (a & b & -> & ->) by (destruct from, to; simpl in *; naive_solver).
  destruct (update_where_move id from (set_state to reason at_) _ (fun _ => eq_refl) Hnd) as [H1 H2].
  pose proof (table_ok_move s id from (set_state to reason at_) Hok) as Hmove.
  destruct (update_where _ _ _) as [moved rows]. simpl in *. subst moved. rewrite H2. split; [by constructor|].
  apply Hmove; [done|]. intros d Hd _. unfold active. rewrite Hd. by destruct from, to.
Qed.

Lemma refines_fail id from failure reason at_ :
  refines (OFail id from failure reason at_) (run_op (OFail id from failure reason at_) s).
Proof.
  unfold refines, run_op, FailDispatch. pose proof Hok as [Hnd HL]. rewrite active_from_failed.
  destruct (active_state from) eqn:Hv; cbn [negb]; [|split; [constructor; by left|done]].
  assert (exists a, dispatchStateToString from = Some a) as (a & ->) by (destruct from; naive_solver).
  destruct (decide (failure = DISPATCH_FAILURE_UNSPECIFIED)) as [->|Hf]; [split; [constructor; by right|done]|].
  assert (exists b, dispatchFailureToString failure = Some b) as (b & ->) by (destruct failure; naive_solver).
  destruct (update_where_move id from (set_failed failure reason at_) _ (fun _ => eq_refl) Hnd) as [H1 H2].
  pose proof (table_ok_move s id from (set_failed failure reason at_) Hok) as Hmove.
  destruct (update_where _ _ _) as [moved rows]. simpl in *. subst moved. rewrite H2. split; [by constructor|].
  by apply Hmove.
Qed.

Lemma refines_pending id b : refines (OPending id b) (run_op (OPending id b) s).
Proof.
  unfold refines, run_op, SetDispatchLabelsPending. pose proof Hok as [Hnd HL]. simpl.
  rewrite pending_rows by done. fold L.
  rewrite exists_id by done. fold L. assert (Hnd' : NoDup (d_ID <$> map (fun d => if String.eqb (d_ID d) id then set_pending b d else d)
                                           (t_dispatches s))) by (by rewrite ids_update).
  destruct (L !! id) as [d|] eqn:Hi; simpl; (split; [by econstructor|]); (apply table_ok_rows; [done|]);
    rewrite pending_rows by done; fold L; rewrite Hi; [|done].
  by apply ledger_ok_update.
Qed.

Lemma refines_delete id : refines (ODelete id) (run_op (ODelete id) s).
Proof.
  unfold refines, run_op, DeleteQueuedDispatch. pose proof Hok as [Hnd HL]. cbn [fst snd t_dispatches with_dispatches].
  rewrite delete_rows by done. unfold row_is at 1. rewrite exists_row by done. fold L.
  assert (table_ok (with_dispatches (filter (fun d => row_is id DISPATCH_STATE_QUEUED d = false) (t_dispatches s)) s)).
  { apply table_ok_rows; [by apply ids_filter|]. rewrite delete_rows by done. fold L.
    destruct (L !! id); [|done]. destruct (bool_decide _); [by apply ledger_ok_delete|done]. }
  split; [|done]. destruct (L !! id) as [d|] eqn:Hi; [|constructor; naive_solver].
  destruct (bool_decide_reflect (d_State d = DISPATCH_STATE_QUEUED)); [by eapply sp_deleted|].
  constructor. naive_solver.
Qed.
End Refinement.

(** C12: The SQL statements of the dispatch store implement the abstract ledger: from a table
    whose ids are distinct and whose active rows are about distinct issues, each
    statement returns a result and leaves a table that the abstract operation allows
    (insert only into a free issue of an existing connection, move only along QUEUED,
    RUNNING, DONE or FAILED and only from the expected state, delete only a QUEUED row), errors
    included, and the table is again of that form. *)
Theorem store_refines_ledger o s r s' :
  table_ok s -> run_op o s = (r, s') ->
  spec_op (fun u c => has_connection u c s) (ledger_of (t_dispatches s)) o r (ledger_of (t_dispatches s'))
  /\ table_ok s'.
Proof.
  intros Hok Hrun. change r with (r, s').1. change s' with (r, s').2 at 2 3. rewrite <- Hrun.
  destruct o.
  - by apply refines_insert.
  - by apply refines_transition.
  - by apply refines_fail.
  - by apply refines_pending.
  - by apply refines_delete.
Qed.

(** A QUEUED row of a connection is marked RUNNING. *)
Lemma store_refines_ledger_witness :
  let row := mkDispatch "old" "alice" "gh" 5 "dev" "code" "run-0" 0 DISPATCH_STATE_QUEUED "" DISPATCH_FAILURE_UNSPECIFIED
               false 0 0 0 in
  let s := mkDb [mkConnection "alice" "gh" "org/repo" "" "gh-token" None] [] [row] ∅ [] [] 1 in
  let o := OTransition "old" DISPATCH_STATE_QUEUED DISPATCH_STATE_RUNNING "" 9 in
  (run_op o s).1 = RMoved (inl true) /\
  spec_op (fun u c => has_connection u c s) (ledger_of [row]) o (RMoved (inl true))
    (ledger_of (t_dispatches (run_op o s).2)) /\ table_ok (run_op o s).2.
Proof.
  intros row s o. split; [reflexivity|]. apply (store_refines_ledger o s (RMoved (inl true)) (run_op o s).2); [|reflexivity].
  split; [apply NoDup_singleton|]. unfold s, ledger_of. cbn. split.
  - intros i d [[<- <-]|[_ ?]]%lookup_insert_Some; [done|by rewrite lookup_empty in *].
  - intros i j d e [[<- <-]|[_ ?]]%lookup_insert_Some [[<- <-]|[_ ?]]%lookup_insert_Some; try done;
      by rewrite lookup_empty in *.
Defined.
