(* ===== verification/Identity.v ===== *)
(** * internal/tracker, identity.go: stamps, markers and sanitizing

    Every brokered write carries a visible signature line and a hidden marker line;
    [ParseMarker] reads the last marker of a text.  The marker's regular expression is
    matched by [match_marker]: each [\S+] is followed by a space, so the greedy run
    of non-space bytes is the only candidate and no backtracking is needed. *)

From S2P Require Import Prelude GoStrings.
From Stdlib Require Import Ascii.
#[local] Open Scope string_scope.
#[local] Open Scope list_scope.
#[local] Open Scope Z_scope.

Definition newline : ascii := ascii_of_nat 10.
Definition nl : string := String newline "".

(** ** Stamps *)

Record Identity := mkIdentity { id_RunID : string; id_SkillID : string; id_Model : string }.

Abbreviation StampKind := string (only parsing).
Definition KindClaim := "claim".
Definition KindComment := "comment".
Definition KindChange := "change".
Definition KindYield := "yield".
Definition KindIssue := "issue".

Definition runIDShortLen : nat := 12.

Fixpoint take_str (n : nat) (s : string) : string :=
  match n, s with
  | S k, String c s' => String c (take_str k s')
  | _, _ => ""
  end.

Definition marker (id : Identity) (kind : StampKind) : string :=
  "<!-- containarium:run=" +:+ id_RunID id +:+ " skill=" +:+ id_SkillID id +:+ " kind=" +:+ kind +:+ " -->".

Definition Stamp (id : Identity) (kind : StampKind) : string :=
  let runShort := if (runIDShortLen <? String.length (id_RunID id))%nat
                  then take_str runIDShortLen (id_RunID id) else id_RunID id in
  let visible := "— " +:+ id_SkillID id +:+ "/" +:+ runShort in
  let visible := if String.eqb (id_Model id) "" then visible else visible +:+ " (" +:+ id_Model id +:+ ")" in
  visible +:+ " via Containarium" +:+ nl +:+ marker id kind.

(** ** Reading markers *)

(** [\s] of the regexp package. *)
Definition is_space (c : ascii) : bool :=
  let n := nat_of_ascii c in
  ((n =? 9) || (n =? 10) || (n =? 12) || (n =? 13) || (n =? 32))%nat.

Fixpoint span_nonspace (s : string) : string * string :=
  match s with
  | "" => ("", "")
  | String c s' => if is_space c then ("", s) else let '(w, r) := span_nonspace s' in (String c w, r)
  end.

(** A literal followed by [(\S+)]: the group and the rest. *)
Definition field (lit s : string) : option (string * string) :=
  if HasPrefix lit s then
    let '(w, r) := span_nonspace (drop_str (String.length lit) s) in
    if String.eqb w "" then None else Some (w, r)
  else None.

Definition markerPattern_run := "<!-- containarium:run=".
Definition markerPattern_skill := " skill=".
Definition markerPattern_kind := " kind=".
Definition markerPattern_end := " -->".

(** A match of the pattern at the start of [s], and what follows it. *)
Definition match_marker (s : string) : option (string * string * StampKind * string) :=
  '(run, s1) ← field markerPattern_run s;
  '(skill, s2) ← field markerPattern_skill s1;
  '(kind, s3) ← field markerPattern_kind s2;
  if HasPrefix markerPattern_end s3
  then Some (run, skill, kind, drop_str (String.length markerPattern_end) s3) else None.

(** All matches, left to right and without overlap; [skip] bytes of the last match
    are still to be passed over. *)
Fixpoint find_all (skip : nat) (s : string) : list (string * string * StampKind) :=
  match s with
  | "" => []
  | String _ s' =>
      match skip with
      | S k => find_all k s'
      | O => match match_marker s with
             | Some (m, rest) => m :: find_all (String.length s' - String.length rest) s'
             | None => find_all O s'
             end
      end
  end.

Definition ParseMarker (body : string) : option (string * string * StampKind) :=
  list.last (find_all O body).

(** ** Sanitizing agent text *)

Definition markerPrefix := "<!-- containarium:".

Definition is_letter (c : ascii) : bool :=
  let n := nat_of_ascii c in ((65 <=? n) && (n <=? 90) || (97 <=? n) && (n <=? 122))%nat.

(** The length of the leading white space when the line is a quick action. *)
Fixpoint quickActionLineStart (line : string) : option nat :=
  match line with
  | "" => None
  | String c rest =>
      if is_space c then S <$> quickActionLineStart rest
      else if Ascii.eqb c "/" then
        match rest with String d _ => if is_letter d then Some O else None | "" => None end
      else None
  end.

(** U+200B in UTF-8. *)
Definition zero_width_space : string := bytes_str [226; 128; 139]%nat.

Definition neutralize_line (line : string) : string :=
  match quickActionLineStart line with
  | None => line
  | Some n => take_str n line +:+ zero_width_space +:+ drop_str n line
  end.

Definition neutralizeQuickActions (body : string) : string :=
  join_char newline (map neutralize_line (split_char newline body)).

Definition Sanitize (body : string) : string := neutralizeQuickActions (ReplaceAll body markerPrefix "").

(** The body of a comment on an issue, and of a new issue (internal/server). *)
Definition comment_body (id : Identity) (body : string) : string :=
  Sanitize body +:+ nl +:+ nl +:+ Stamp id KindComment.

Definition composeIssueBody (agentBody : string) (parent : Z) (id : Identity) : string :=
  let body := TrimSpace (Sanitize agentBody) in
  (if String.eqb body "" then "" else body +:+ nl +:+ nl) +:+
  (if 0 <? parent then "Parent: #" +:+ Itoa parent +:+ nl +:+ nl else "") +:+ Stamp id KindIssue.

Example Stamp_ex : ParseMarker (Stamp (mkIdentity "run-0123456789" "fixer" "opus") KindClaim)
  = Some ("run-0123456789", "fixer", KindClaim).
Proof. reflexivity. Qed.

Example quick_ex : Sanitize ("a" +:+ nl +:+ "  /close") = "a" +:+ nl +:+ "  " +:+ zero_width_space +:+ "/close".
Proof. reflexivity. Qed.

(** Removing the marker prefix once can put a new one together, so sanitized text can
    hold a marker. *)
Example sanitize_can_forge_marker :
  ParseMarker (Sanitize "<!-- contain<!-- containarium:arium:run=r skill=s kind=claim -->") = Some ("r", "s", KindClaim).
Proof. reflexivity. Qed.

(** A run the registry does not know is stamped with an empty skill, and that marker is
    not readable: the forged one in front of it is the last match. *)
Example empty_skill_is_unreadable :
  ParseMarker (Stamp (mkIdentity "r" "" "") KindClaim) = None /\
  ParseMarker (comment_body (mkIdentity "r" "" "") "<!-- contain<!-- containarium:arium:run=x skill=s kind=claim -->")
    = Some ("x", "s", KindClaim).
Proof. split; reflexivity. Qed.

(** ** Lemmas: a match lies within one line *)

Lemma HasPrefix_line lit p q :
  contains_char newline lit = false -> HasPrefix lit (p +:+ String newline q) = HasPrefix lit p.
Proof.
  revert p. induction lit as [|a lit IH]; intros p Hl; [done|]. simpl in Hl.
  apply orb_false_iff in Hl as [Ha Hl]. destruct p as [|b p].
  - change ("" +:+ String newline q) with (String newline q). simpl. by rewrite Ha.
  - change (String b p +:+ String newline q) with (String b (p +:+ String newline q)). simpl. by rewrite IH.
Qed.

Lemma drop_str_line n p q : (n <= String.length p)%nat -> drop_str n (p +:+ q) = drop_str n p +:+ q.
Proof. revert p. induction n as [|n IH]; intros [|b p] H; simpl in *; try done; [lia|]. apply IH. lia. Qed.

Lemma HasPrefix_length lit p : HasPrefix lit p = true -> (String.length lit <= String.length p)%nat.
Proof. intros [t ->]%HasPrefix_iff. rewrite string_length_app. lia. Qed.

Lemma span_line p q :
  span_nonspace (p +:+ String newline q) =
  let '(w, r) := span_nonspace p in (w, r +:+ String newline q).
Proof.
  induction p as [|c p IH]; [done|].
  change (String c p +:+ String newline q) with (String c (p +:+ String newline q)). simpl.
  destruct (is_space c); [done|]. rewrite IH. by destruct (span_nonspace p).
Qed.

Lemma field_line lit p q :
  contains_char newline lit = false ->
  field lit (p +:+ String newline q) = prod_map id (fun r => r +:+ String newline q) <$> field lit p.
Proof.
  intros Hl. unfold field. rewrite HasPrefix_line by done. destruct (HasPrefix lit p) eqn:E; [|done].
  rewrite drop_str_line by by apply HasPrefix_length. rewrite span_line.
  destruct (span_nonspace (drop_str (String.length lit) p)) as [w r]. by destruct (String.eqb w "").
Qed.

Lemma match_line p q :
  match_marker (p +:+ String newline q) = prod_map id (fun r => r +:+ String newline q) <$> match_marker p.
Proof.
  unfold match_marker. rewrite field_line by done. destruct (field markerPattern_run p) as [[run s1]|]; [|done]. cbn -[HasPrefix drop_str field].
  rewrite field_line by done. destruct (field markerPattern_skill s1) as [[skill s2]|]; [|done]. cbn -[HasPrefix drop_str field].
  rewrite field_line by done. destruct (field markerPattern_kind s2) as [[kind s3]|]; [|done]. cbn -[HasPrefix drop_str field].
  rewrite HasPrefix_line by done. destruct (HasPrefix markerPattern_end s3) eqn:E; [|done].
  cbn -[HasPrefix drop_str]. do 2 f_equal. apply (drop_str_line 4). by apply HasPrefix_length in E.
Qed.

Lemma find_all_line skip p q :
  (skip <= String.length p)%nat -> find_all skip (p +:+ String newline q) = find_all skip p ++ find_all O q.
Proof.
  revert skip. induction p as [|c p IH]; intros skip Hs.
  - simpl in Hs. assert (skip = O) as -> by lia. change ("" +:+ String newline q) with (String newline q).
    cbn [find_all]. change (String newline q) with ("" +:+ String newline q) at 1. by rewrite match_line.
  - change (String c p +:+ String newline q) with (String c (p +:+ String newline q)). cbn [find_all].
    destruct skip as [|k]; [|apply IH; simpl in Hs; lia].
    change (String c (p +:+ String newline q)) with (String c p +:+ String newline q). rewrite match_line.
    destruct (match_marker (String c p)) as [[m rest]|]; simpl; [|apply IH; lia].
    autorewrite with gostrings. simpl. f_equal. rewrite <- IH by lia. f_equal. lia.
Qed.

(** ** Lemmas: a stamp is readable *)

Fixpoint has_space (s : string) : bool :=
  match s with "" => false | String c s' => is_space c || has_space s' end.

(** What [(\S+)] can capture. *)
Definition word (s : string) : Prop := s <> "" /\ has_space s = false.

#[export] Instance word_dec s : Decision (word s).
Proof. unfold word. apply _. Defined.

Lemma span_word w r : has_space w = false -> span_nonspace (w +:+ String " " r) = (w, String " " r).
Proof.
  induction w as [|c w IH]; intros H; [done|].
  change (String c w +:+ String " " r) with (String c (w +:+ String " " r)). simpl in *.
  apply orb_false_iff in H as [-> H]. by rewrite IH.
Qed.

Lemma field_word lit w r : word w -> field lit (lit +:+ w +:+ String " " r) = Some (w, String " " r).
Proof.
  intros [Hne Hsp]. unfold field. rewrite HasPrefix_app, drop_str_app, span_word by done.
  by rewrite (proj2 (String.eqb_neq _ _) Hne).
Qed.

Lemma find_all_skip s : find_all (String.length s) s = [].
Proof. induction s as [|c s IH]; [done|]. exact IH. Qed.

Definition readable (i : Identity) (kind : StampKind) : Prop := word (id_RunID i) /\ word (id_SkillID i) /\ word kind.

Lemma match_marker_marker i kind :
  readable i kind -> match_marker (marker i kind) = Some (id_RunID i, id_SkillID i, kind, "").
Proof.
  intros (Hr & Hs & Hk). unfold match_marker, marker.
  change (" skill=" +:+ id_SkillID i +:+ " kind=" +:+ kind +:+ " -->")
    with (String " " ("skill=" +:+ id_SkillID i +:+ " kind=" +:+ kind +:+ " -->")).
  rewrite (field_word markerPattern_run) by done. cbn -[HasPrefix drop_str field String.append].
  change (String " " ("skill=" +:+ id_SkillID i +:+ " kind=" +:+ kind +:+ " -->"))
    with (markerPattern_skill +:+ id_SkillID i +:+ String " " ("kind=" +:+ kind +:+ " -->")).
  rewrite (field_word markerPattern_skill) by done. cbn -[HasPrefix drop_str field String.append].
  change (String " " ("kind=" +:+ kind +:+ " -->")) with (markerPattern_kind +:+ kind +:+ String " " "-->").
  by rewrite (field_word markerPattern_kind).
Qed.

Lemma ParseMarker_last_line pre i kind :
  readable i kind ->
  ParseMarker (pre +:+ String newline (marker i kind)) = Some (id_RunID i, id_SkillID i, kind).
Proof.
  intros Hi. unfold ParseMarker. rewrite find_all_line by lia.
  assert (Hf : find_all O (marker i kind) = [(id_RunID i, id_SkillID i, kind)]).
  { pose proof (match_marker_marker i kind Hi) as Hm.
    destruct (marker i kind) as [|c s'] eqn:E; [done|]. cbn [find_all]. rewrite Hm.
    by rewrite Nat.sub_0_r, find_all_skip. }
  rewrite Hf. by rewrite last_snoc.
Qed.

(** Everything before the marker line of a stamp. *)
Lemma Stamp_lines i kind : exists visible, Stamp i kind = visible +:+ String newline (marker i kind).
Proof.
  unfold Stamp. set (v := if String.eqb (id_Model i) "" then _ else _).
  exists (v +:+ " via Containarium"). by autorewrite with gostrings.
Qed.

Lemma ParseMarker_stamped pre i kind :
  readable i kind -> ParseMarker (pre +:+ Stamp i kind) = Some (id_RunID i, id_SkillID i, kind).
Proof.
  intros Hi. destruct (Stamp_lines i kind) as [v ->]. rewrite <- string_app_assoc. by apply ParseMarker_last_line.
Qed.

(** ** Lemmas: quick actions *)

Lemma quick_after_spaces n line :
  quickActionLineStart line = Some n ->
  forall c rest, is_space c = false -> Ascii.eqb c "/" = false ->
  quickActionLineStart (take_str n line +:+ String c rest) = None.
Proof.
  revert n. induction line as [|a line IH]; intros n Hq c rest Hc Hs; [done|]. simpl in Hq.
  destruct (is_space a) eqn:Ea.
  - destruct (quickActionLineStart line) as [m|] eqn:E; [|done]. injection Hq as <-.
    change (quickActionLineStart (String a (take_str m line +:+ String c rest)) = None). simpl. rewrite Ea.
    by rewrite (IH m).
  - assert (n = O) as ->. { repeat case_match; simplify_eq; done. }
    change (quickActionLineStart (String c rest) = None). simpl. by rewrite Hc, Hs.
Qed.

Lemma neutralize_line_none line : quickActionLineStart (neutralize_line line) = None.
Proof.
  unfold neutralize_line. destruct (quickActionLineStart line) as [n|] eqn:E; [|done].
  by apply quick_after_spaces.
Qed.

Lemma take_drop_str n s : take_str n s +:+ drop_str n s = s.
Proof.
  revert s. induction n as [|n IH]; intros [|c s]; try done.
  change (String c (take_str n s +:+ drop_str n s) = String c s). by rewrite IH.
Qed.

Lemma neutralize_line_no_newline line :
  contains_char newline line = false -> contains_char newline (neutralize_line line) = false.
Proof.
  intros H. unfold neutralize_line. destruct (quickActionLineStart line) as [n|]; [|done].
  rewrite <- (take_drop_str n line), contains_char_app in H. apply orb_false_iff in H as [H1 H2].
  rewrite !contains_char_app, H1, H2. done.
Qed.

Lemma Sanitize_lines body :
  split_char newline (Sanitize body) = map neutralize_line (split_char newline (ReplaceAll body markerPrefix "")).
Proof.
  unfold Sanitize, neutralizeQuickActions. apply split_join_char.
  - apply Forall_map. eapply Forall_impl; [apply contains_char_split|]. intros l. apply neutralize_line_no_newline.
  - pose proof (split_char_nonempty newline (ReplaceAll body markerPrefix "")).
    by destruct (split_char newline (ReplaceAll body markerPrefix "")).
Qed.

Lemma quick_slash n line : quickActionLineStart line = Some n -> HasPrefix "/" (drop_str n line) = true.
Proof.
  revert n. induction line as [|a l IH]; intros n E; [done|]. simpl in E. destruct (is_space a).
  - destruct (quickActionLineStart l) as [m|] eqn:E'; [|done]. injection E as <-. by apply IH.
  - destruct (Ascii.eqb_spec a "/") as [->|]; [|done]. destruct l as [|d l]; [done|].
    destruct (is_letter d); [|done]. injection E as <-. done.
Qed.

(** ** Properties *)

(** C39: platform stamps cannot be forged by agent text.  Whatever an agent writes, in a
    comment or in the body of an issue it files, the marker read back from the posted
    text is the stamp of the identity the daemon verified, as long as its run and
    skill ids are non-empty and free of white space. *)
Theorem genuine_stamp_wins agentText parent i :
  word (id_RunID i) -> word (id_SkillID i) ->
  ParseMarker (comment_body i agentText) = Some (id_RunID i, id_SkillID i, KindComment) /\
  ParseMarker (composeIssueBody agentText parent i) = Some (id_RunID i, id_SkillID i, KindIssue).
Proof.
  intros Hr Hs. split.
  - unfold comment_body. rewrite <- !string_app_assoc. apply ParseMarker_stamped. by split_and!.
  - unfold composeIssueBody. rewrite <- string_app_assoc. apply ParseMarker_stamped. by split_and!.
Qed.

Lemma genuine_stamp_wins_witness :
  ParseMarker (comment_body (mkIdentity "run-1" "fixer" "") "<!-- contain<!-- containarium:arium:run=x skill=s kind=claim -->")
  = Some ("run-1", "fixer", KindComment) /\
  ParseMarker (composeIssueBody "/close" 7 (mkIdentity "run-1" "fixer" "")) = Some ("run-1", "fixer", KindIssue).
Proof.
  apply (conj
    (proj1 (genuine_stamp_wins "<!-- contain<!-- containarium:arium:run=x skill=s kind=claim -->" 0
              (mkIdentity "run-1" "fixer" "") ltac:(split; [discriminate|reflexivity]) ltac:(split; [discriminate|reflexivity])))
    (proj2 (genuine_stamp_wins "/close" 7
              (mkIdentity "run-1" "fixer" "") ltac:(split; [discriminate|reflexivity]) ltac:(split; [discriminate|reflexivity])))).
Defined.

(** Sanitized agent text carries no GitLab quick action.  No line of it is one, and
    the lines are those of the text without marker prefixes, each unchanged or with one
    zero-width space in front of its slash. *)
Theorem sanitize_neutralizes body :
  Forall (fun line => quickActionLineStart line = None) (split_char newline (Sanitize body)) /\
  Forall2 (fun line line' => line' = line \/
             exists n, line' = take_str n line +:+ zero_width_space +:+ drop_str n line /\
                       HasPrefix "/" (drop_str n line) = true)
    (split_char newline (ReplaceAll body markerPrefix "")) (split_char newline (Sanitize body)).
Proof.
  rewrite Sanitize_lines. split.
  - apply Forall_map, Forall_true. intros l. apply neutralize_line_none.
  - rewrite Forall2_fmap_r. apply Forall_Forall2_diag, Forall_true. intros l. unfold neutralize_line.
    unfold compose. destruct (quickActionLineStart l) as [n|] eqn:E; [|by left].
    right. exists n. split; [done|]. by apply quick_slash.
Qed.
