(* ===== verification/Dispatch.v ===== *)
(** * internal/tracker, dispatch.go, dispatch_lifecycle.go, dispatch_sweep.go, and the run
      starter of internal/server/tracker_dispatch_server.go

    The dispatcher's programs over the interfaces of TrackerApi: one tick, the sweep it
    starts with, the start of a run, and the background half that reports the run's end.
    Error values carry their cause and the underlying text.  A context that is detached
    from the tick's ([bookkeepingContext]) is not cancelled, and its budget shows up as
    an error of the call it bounds; the tick's own context is asked with [CCtxErr], where
    the code asks it. *)

From S2P Require Import Prelude Prog GoStrings GoTime Labels TrackerStore TrackerApi Identity.
#[local] Open Scope string_scope.
#[local] Open Scope list_scope.
#[local] Open Scope Z_scope.

(** ** Results *)

Record TickResult := mkTick {
  tk_Started : list Dispatch;
  tk_Failed : list Dispatch;
  tk_TimedOut : list Dispatch;
  tk_SkippedNeedsApproval : Z;
  tk_SkippedActive : Z;
  tk_SkippedUnrouted : Z;
  tk_SkippedOverDepth : Z;
}.

Definition no_result : TickResult := mkTick [] [] [] 0 0 0 0.

(** The counters are int32. *)
Definition bump (n : Z) : Z := wrap i32 (n + 1).
Definition with_timed_out (l : list Dispatch) (r : TickResult) : TickResult :=
  mkTick (tk_Started r) (tk_Failed r) l (tk_SkippedNeedsApproval r) (tk_SkippedActive r)
    (tk_SkippedUnrouted r) (tk_SkippedOverDepth r).
Definition started_one (d : Dispatch) (r : TickResult) : TickResult :=
  mkTick (tk_Started r ++ [d]) (tk_Failed r) (tk_TimedOut r) (tk_SkippedNeedsApproval r)
    (tk_SkippedActive r) (tk_SkippedUnrouted r) (tk_SkippedOverDepth r).
Definition failed_one (d : Dispatch) (r : TickResult) : TickResult :=
  mkTick (tk_Started r) (tk_Failed r ++ [d]) (tk_TimedOut r) (tk_SkippedNeedsApproval r)
    (tk_SkippedActive r) (tk_SkippedUnrouted r) (tk_SkippedOverDepth r).
Definition skip_approval (r : TickResult) : TickResult :=
  mkTick (tk_Started r) (tk_Failed r) (tk_TimedOut r) (bump (tk_SkippedNeedsApproval r))
    (tk_SkippedActive r) (tk_SkippedUnrouted r) (tk_SkippedOverDepth r).
Definition skip_active (r : TickResult) : TickResult :=
  mkTick (tk_Started r) (tk_Failed r) (tk_TimedOut r) (tk_SkippedNeedsApproval r)
    (bump (tk_SkippedActive r)) (tk_SkippedUnrouted r) (tk_SkippedOverDepth r).
Definition skip_unrouted (r : TickResult) : TickResult :=
  mkTick (tk_Started r) (tk_Failed r) (tk_TimedOut r) (tk_SkippedNeedsApproval r)
    (tk_SkippedActive r) (bump (tk_SkippedUnrouted r)) (tk_SkippedOverDepth r).
Definition skip_over_depth (r : TickResult) : TickResult :=
  mkTick (tk_Started r) (tk_Failed r) (tk_TimedOut r) (tk_SkippedNeedsApproval r)
    (tk_SkippedActive r) (tk_SkippedUnrouted r) (bump (tk_SkippedOverDepth r)).

Inductive tick_error :=
| TListRoutes (m : string)
| TListDispatches (state : TrackerDispatchState) (m : string)
| TFailStuck (issue : Z) (m : string)
| TMarkPending (issue : Z) (m : string)
| TListIssues (m : string)
| TCtx (m : string)
| TRecordWarning (issue : Z) (m : string)
| TForgetWarning (issue : Z) (m : string)
| TReadDepth (issue : Z) (m : string)
| TInsert (issue : Z) (m : string)
| TAbandon (issue : Z) (m : string)
| TFailDispatch (issue : Z) (m : string)
| TEncodeInput (m : string)
| TJoin (e1 e2 : tick_error).

(** The generated [String] method of the enum, as [%v] prints it. *)
Definition state_name (s : TrackerDispatchState) : string :=
  "TRACKER_DISPATCH_STATE_" +:+
  match s with
  | DISPATCH_STATE_UNSPECIFIED => "UNSPECIFIED"
  | DISPATCH_STATE_QUEUED => "QUEUED"
  | DISPATCH_STATE_RUNNING => "RUNNING"
  | DISPATCH_STATE_DONE => "DONE"
  | DISPATCH_STATE_FAILED => "FAILED"
  end.

(** [err.Error()], where it becomes part of a stored reason. *)
Definition issue_text (what : string) (n : Z) (m : string) : string :=
  what +:+ " #" +:+ Itoa n +:+ ": " +:+ m.
Fixpoint error_text (e : tick_error) : string :=
  match e with
  | TListRoutes m => "list routes: " +:+ m
  | TListDispatches st m => "list " +:+ state_name st +:+ " dispatches: " +:+ m
  | TFailStuck n m => issue_text "fail stuck dispatch for" n m
  | TMarkPending n m => issue_text "mark labels pending for" n m
  | TListIssues m => "list issues: " +:+ m
  | TCtx m => m
  | TRecordWarning n m => issue_text "record unrouted warning for" n m
  | TForgetWarning n m => issue_text "forget unrouted warning for" n m
  | TReadDepth n m => issue_text "read depth of" n m
  | TInsert n m => issue_text "insert dispatch for" n m
  | TAbandon n m => issue_text "abandon dispatch for" n m
  | TFailDispatch n m => issue_text "fail dispatch for" n m
  | TEncodeInput m => "encode dispatch input: " +:+ m
  | TJoin e1 e2 => error_text e1 +:+ nl +:+ error_text e2
  end.

(** ** Reporting an end: dispatch_sweep.go *)

Definition DefaultLeaseLostGrace : Duration := 5 * Minute.

Definition effectivePolicy (d : Dispatcher) : Policy :=
  match dp_Policy d with Some p => p | None => PolicyFromProto None end.

Definition dispatcherIdentity (username runID : string) : Identity :=
  mkIdentity (if String.eqb runID "" then username else runID) "dispatcher" "".

Definition failureWhy (row : Dispatch) (timeout : Duration) : string :=
  match d_Failure row with
  | DISPATCH_FAILURE_START_ERROR => "could not be started"
  | DISPATCH_FAILURE_RUN_ERROR => "ended with an error"
  | DISPATCH_FAILURE_TIMEOUT =>
      "timed out after " +:+ DurationString timeout +:+ " (the connection's run timeout) and was marked failed; any result it reports later is ignored"
  | DISPATCH_FAILURE_LEASE_LOST =>
      "was marked failed because it has no live lease on the daemon (the daemon restarted, or the run never reported a start)"
  | DISPATCH_FAILURE_UNSPECIFIED => "failed"
  end.

(** The body of [CFailureComment row timeout]. *)
Definition failureComment (row : Dispatch) (timeout : Duration) : string :=
  Sanitize ("The agent run `" +:+ d_RunID row +:+ "` for `" +:+ ScopeLabelPrefix +:+ d_Scope row +:+ "` "
    +:+ failureWhy row timeout +:+ " (dispatch `" +:+ d_ID row +:+ "`). "
    +:+ "An operator can see the details with `containarium tracker dispatches <username> <connection> --state failed`. "
    +:+ "To retry, remove `" +:+ LabelAgentFailed +:+ "`.")
  +:+ nl +:+ nl +:+ Stamp (dispatcherIdentity (d_Username row) (d_RunID row)) KindComment.

Definition ended_event (row : Dispatch) : DispatchEnded :=
  let latency := Sub (d_EndedAt row) (d_CreatedAt row) in
  mkEnded (d_Scope row) (d_State row) (d_Failure row) (if latency <? 0 then 0 else latency).

Definition observeEnd (d : Dispatcher) (row : Dispatch) : tprog unit :=
  if dp_HasObserver d then call (CDispatchEnded row (ended_event row)) else mret tt.

Definition projectFailure (row : Dispatch) (timeout : Duration) : tprog (bool + tick_error) :=
  labelErr ← call (CSetLabels (d_IssueNumber row) [LabelAgentFailed] [LabelAgentQueued; LabelAgentRunning]);
  commentErr ← call (CFailureComment row timeout);
  match labelErr, commentErr with
  | None, None => mret (inl false)
  | _, _ =>
      err ← call (CSetLabelsPending (d_ID row) true);
      match err with
      | Some m => mret (inr (TMarkPending (d_IssueNumber row) m))
      | None => mret (inl true)
      end
  end.

Definition endLease (d : Dispatcher) (runID : string) : tprog unit :=
  if dp_HasLeases d then call (CEndLease runID) else mret tt.

(** [(row, ok, err)]: whether this call won the compare-and-set. *)
Definition failSwept (d : Dispatcher) (row : Dispatch) (from : TrackerDispatchState)
  (failure : TrackerDispatchFailure) (reason : string) (timeout : Duration)
  : tprog (Dispatch * bool * option tick_error) :=
  now ← call CNow;
  won ← call (CFailDispatch (d_ID row) from failure reason now);
  match won with
  | inr m => mret (row, false, Some (TFailStuck (d_IssueNumber row) m))
  | inl false => mret (row, false, None)
  | inl true =>
      let row := set_failed failure reason now row in
      _ ← endLease d (d_RunID row);
      _ ← observeEnd d row;
      pending ← projectFailure row timeout;
      match pending with
      | inr e => mret (row, true, Some e)
      | inl p => mret (set_pending (d_LabelsPending row || p) row, true, None)
      end
  end.

Definition row_age (state : TrackerDispatchState) (row : Dispatch) (now : Time) : Duration :=
  Sub now (match state with
           | DISPATCH_STATE_RUNNING => if IsZero (d_StartedAt row) then d_CreatedAt row else d_StartedAt row
           | _ => d_CreatedAt row
           end).

(** The verdict on one active row, asking the run registry only when the code does. *)
Definition sweep_verdict (d : Dispatcher) (timeout grace age : Duration) (row : Dispatch)
  : tprog (option (TrackerDispatchFailure * string)) :=
  if timeout <=? age
  then mret (Some (DISPATCH_FAILURE_TIMEOUT, "run exceeded the run timeout of " +:+ DurationString timeout))
  else if dp_HasLeases d && (grace <=? age) then
    live ← call (CLive (d_RunID row));
    mret (if live : bool then None
          else Some (DISPATCH_FAILURE_LEASE_LOST, "no live lease on this daemon after " +:+ DurationString age))
  else mret None.

Fixpoint sweep_rows (d : Dispatcher) (state : TrackerDispatchState) (timeout grace : Duration)
  (rows swept : list Dispatch) : tprog (list Dispatch * option tick_error) :=
  match rows with
  | [] => mret (swept, None)
  | row :: rest =>
      cerr ← call CCtxErr;
      match cerr with
      | Some m => mret (swept, Some (TCtx m))
      | None =>
          now ← call CNow;
          verdict ← sweep_verdict d timeout grace (row_age state row now) row;
          match verdict with
          | None => sweep_rows d state timeout grace rest swept
          | Some (failure, reason) =>
              out ← failSwept d row state failure reason timeout;
              match out with
              | (_, _, Some e) => mret (swept, Some e)
              | (row', true, None) => sweep_rows d state timeout grace rest (swept ++ [row'])
              | (_, false, None) => sweep_rows d state timeout grace rest swept
              end
          end
      end
  end.

Definition sweep_state (d : Dispatcher) (u c : string) (timeout grace : Duration)
  (state : TrackerDispatchState) (swept : list Dispatch) : tprog (list Dispatch * option tick_error) :=
  rows ← call (CListDispatches u c state);
  match rows with
  | inr m => mret (swept, Some (TListDispatches state m))
  | inl rows => sweep_rows d state timeout grace rows swept
  end.

Definition sweep_timeout (d : Dispatcher) : Duration :=
  let t := RunTimeout (effectivePolicy d) in if t <=? 0 then DefaultRunTimeout else t.
Definition sweep_grace (d : Dispatcher) : Duration :=
  if dp_LeaseGrace d <=? 0 then DefaultLeaseLostGrace else dp_LeaseGrace d.

Definition sweep (d : Dispatcher) (u c : string) : tprog (list Dispatch * option tick_error) :=
  running ← sweep_state d u c (sweep_timeout d) (sweep_grace d) DISPATCH_STATE_RUNNING [];
  match running with
  | (swept, Some e) => mret (swept, Some e)
  | (swept, None) => sweep_state d u c (sweep_timeout d) (sweep_grace d) DISPATCH_STATE_QUEUED swept
  end.

(** ** The run's life: dispatch_lifecycle.go *)

Definition markLabelsPending (row : Dispatch) : tprog unit :=
  _ ← call (CSetLabelsPending (d_ID row) true); mret tt.

Definition projectLabels (row : Dispatch) (add remove : list string) : tprog unit :=
  err ← call (CSetLabels (d_IssueNumber row) add remove);
  match err with Some _ => markLabelsPending row | None => mret tt end.

(** [(proceed, r.started)]. *)
Definition RunStarted (row : Dispatch) (started : bool) : tprog (bool * bool) :=
  now ← call CNow;
  ok ← call (CTransitionDispatch (d_ID row) DISPATCH_STATE_QUEUED DISPATCH_STATE_RUNNING "" now);
  match ok with
  | inr _ => mret (true, started)
  | inl false => mret (started, started)
  | inl true =>
      _ ← projectLabels row [LabelAgentRunning] [LabelAgentQueued];
      mret (true, true)
  end.

(** The row as [RunEnded] reports it; [None] is success. *)
Definition ended_row (outcome : option string) (now : Time) (row : Dispatch) : Dispatch :=
  match outcome with
  | None =>
      {| d_ID := d_ID row; d_Username := d_Username row; d_Connection := d_Connection row;
         d_IssueNumber := d_IssueNumber row; d_Scope := d_Scope row; d_SkillID := d_SkillID row;
         d_RunID := d_RunID row; d_Depth := d_Depth row; d_State := DISPATCH_STATE_DONE;
         d_FailureReason := d_FailureReason row; d_Failure := d_Failure row;
         d_LabelsPending := d_LabelsPending row; d_CreatedAt := d_CreatedAt row;
         d_StartedAt := d_StartedAt row; d_EndedAt := now |}
  | Some err => set_failed DISPATCH_FAILURE_RUN_ERROR ("run failed: " +:+ err) now row
  end.

Definition end_call (outcome : option string) (row : Dispatch) (now : Time) (from : TrackerDispatchState)
  : tprog (bool + string) :=
  match outcome with
  | None => call (CTransitionDispatch (d_ID row) from DISPATCH_STATE_DONE "" now)
  | Some _ => call (CFailDispatch (d_ID row) from (d_Failure row) (d_FailureReason row) now)
  end.

(** The loop over RUNNING and QUEUED: [Some moved], or [None] after a store error. *)
Fixpoint end_loop (outcome : option string) (row : Dispatch) (now : Time)
  (froms : list TrackerDispatchState) : tprog (option bool) :=
  match froms with
  | [] => mret (Some false)
  | from :: rest =>
      ok ← end_call outcome row now from;
      match ok with
      | inr _ => mret None
      | inl true => mret (Some true)
      | inl false => end_loop outcome row now rest
      end
  end.

Definition RunEnded (d : Dispatcher) (row : Dispatch) (outcome : option string) : tprog unit :=
  now ← call CNow;
  let row := ended_row outcome now row in
  moved ← end_loop outcome row now [DISPATCH_STATE_RUNNING; DISPATCH_STATE_QUEUED];
  match moved with
  | Some true =>
      _ ← observeEnd d row;
      match outcome with
      | None => projectLabels row [LabelAgentDone]
                  [LabelAgentQueued; LabelAgentRunning; ScopeLabelPrefix +:+ d_Scope row]
      | Some _ => _ ← projectFailure row 0; mret tt
      end
  | _ => mret tt
  end.

(** ** Starting and finishing a run: internal/server/tracker_dispatch_server.go *)

Definition errDispatchedRunDidNotComplete : string := "the dispatched run did not complete".

(** What the background half reports, after the deferred functions have run. *)
Definition run_outcome (e : agent_end) (leaseEnded : bool) : option string :=
  if negb leaseEnded then Some errDispatchedRunDidNotComplete
  else match e with
       | AgentArtifact a => if String.eqb (TrimSpace a) "" then Some "the agent produced no artifact" else None
       | AgentErr m => Some m
       | AgentUnwound => Some errDispatchedRunDidNotComplete
       end.

Definition finishDispatchedRun (d : Dispatcher) (runID : string) (row : Dispatch) : tprog unit :=
  _ ← call (CTrack runID);
  _ ← call (CSetLease runID);
  e ← call (CAgent runID);
  leaseEnded ← call (CEndDispatchedLease runID);
  _ ← RunEnded d row (run_outcome e leaseEnded);
  call (CUntrack runID).

Inductive start_result := StartOk | ErrDispatchEnded | StartErr (m : string).

(** [(launched, lc.started)]. *)
Definition launchDispatchedRun (d : Dispatcher) (runID : string) (row : Dispatch) : tprog (bool * bool) :=
  _ ← call (CTrack runID);
  _ ← call (CSetLease runID);
  '(proceed, started) ← RunStarted row false;
  if proceed : bool then _ ← call (CLaunch d runID row); mret (true, started)
  else
    _ ← call (CEndDispatchedLease runID);
    _ ← call (CUntrack runID);
    mret (false, started).

(** [(error, lc.started)]; the deferred [untrack] runs unless the run was launched. *)
Definition StartRun (d : Dispatcher) (row : Dispatch) (req : StartRunRequest) : tprog (start_result * bool) :=
  caller ← call (CRequireDispatchCaller (sr_Username req));
  match caller with
  | Some m => mret (StartErr m, false)
  | None =>
      _ ← call (CTrack (sr_RunID req));
      begun ← call (CBeginSkillRun req);
      match begun with
      | inr m => _ ← call (CUntrack (sr_RunID req)); mret (StartErr m, false)
      | inl runID =>
          '(launched, started) ← launchDispatchedRun d runID row;
          if launched : bool then mret (StartOk, started)
          else _ ← call (CUntrack (sr_RunID req)); mret (ErrDispatchEnded, started)
      end
  end.

(** ** One tick: dispatch.go *)

Record TrackerDispatchInput := mkInput {
  in_Connection : string;
  in_IssueNumber : Z;
  in_Scope : string;
  in_DispatchId : string;
  in_Depth : Z;
  in_Username : string;
}.

(** The last entry for a scope wins, as in the Go map. *)
Definition skill_for (routes : list Route) : gmap string string :=
  foldl (fun m r => <[rt_Scope r := rt_SkillID r]> m) ∅ routes.

Definition warning_text (scope : string) : string :=
  match ValidateRouteScope scope with
  | Some _ =>
      "No agent is routed for this issue's `scope:` label on this tracker connection, so it will not start a run; the label is not a valid route scope (letters, digits, `.`, `_`, `-`; max 64)."
  | None =>
      "No agent is routed for `" +:+ ScopeLabelPrefix +:+ scope +:+ "` on this tracker connection, so this label will not start a run. An operator can route it with `containarium tracker route set <username> <connection> --scope "
      +:+ scope +:+ " --skill <skill-id>`."
  end.

Definition warnUnrouted (u c : string) (issue : Z) (scope : string) : tprog (option tick_error) :=
  first ← call (CRecordWarning u c issue scope);
  match first with
  | inr m => mret (Some (TRecordWarning issue m))
  | inl false => mret None
  | inl true =>
      err ← call (CComment issue (Sanitize (warning_text scope) +:+ nl +:+ nl
                                  +:+ Stamp (dispatcherIdentity u "") KindComment));
      match err with
      | None => mret None
      | Some _ =>
          ferr ← call (CForgetWarning u c issue scope);
          mret (match ferr with Some m => Some (TForgetWarning issue m) | None => None end)
      end
  end.

(** The loop over the issue's scopes: the routed one, with its skill. *)
Fixpoint route_scopes (u c : string) (skills : gmap string string) (issue : Z) (scopes : list string)
  (found : option (string * string)) : tprog (option (string * string) + tick_error) :=
  match scopes with
  | [] => mret (inl found)
  | sc :: rest =>
      match skills !! sc with
      | Some sk => route_scopes u c skills issue rest (match found with None => Some (sc, sk) | _ => found end)
      | None =>
          err ← warnUnrouted u c issue sc;
          match err with
          | Some e => mret (inr e)
          | None => route_scopes u c skills issue rest found
          end
      end
  end.

Definition abandon (row : Dispatch) : tprog (option tick_error) :=
  r ← call (CDeleteQueuedDispatch (d_ID row));
  mret (match r with inr m => Some (TAbandon (d_IssueNumber row) m) | inl _ => None end).

(** The conditions on the re-read issue. *)
Definition dispatchable (fresh : Issue) (scope : string) : bool :=
  negb (bool_decide (is_State fresh = ISSUE_STATE_CLOSED))
  && containsExact (is_Labels fresh) (ScopeLabelPrefix +:+ scope)
  && negb (hasAnyLabel (is_Labels fresh) [LabelNeedsApproval])
  && negb (hasAnyLabel (is_Labels fresh) ReservedStateLabels).

Definition stillDispatchable (row : Dispatch) (scope : string) : tprog (bool + tick_error) :=
  fresh ← call (CGetIssue (d_IssueNumber row));
  if match fresh with inl i => dispatchable i scope | inr _ => false end then mret (inl true)
  else err ← abandon row; mret (match err with Some e => inr e | None => inl false end).

Definition labelQueued (row : Dispatch) : tprog (Dispatch + tick_error) :=
  err ← call (CSetLabels (d_IssueNumber row) [LabelAgentQueued] []);
  match err with
  | None => mret (inl row)
  | Some _ =>
      perr ← call (CSetLabelsPending (d_ID row) true);
      match perr with
      | Some m => mret (inr (TMarkPending (d_IssueNumber row) m))
      | None => mret (inl (set_pending true row))
      end
  end.

Definition failStart (d : Dispatcher) (row : Dispatch) (startErr : string) : tprog (Dispatch + tick_error) :=
  let reason := "run did not start: " +:+ startErr in
  now ← call CNow;
  moved ← call (CFailDispatch (d_ID row) DISPATCH_STATE_QUEUED DISPATCH_FAILURE_START_ERROR reason now);
  match moved with
  | inr m => mret (inr (TFailDispatch (d_IssueNumber row) m))
  | inl moved =>
      let out := set_failed DISPATCH_FAILURE_START_ERROR reason now row in
      if negb moved then mret (inl out)
      else
        _ ← observeEnd d out;
        pending ← projectFailure out 0;
        mret (match pending with inr e => inr e | inl p => inl (set_pending p out) end)
  end.

Definition failBeforeStart (d : Dispatcher) (row : Dispatch) (cause : tick_error) : tprog tick_error :=
  r ← failStart d row (error_text cause);
  mret (match r with inr e => TJoin cause e | inl _ => cause end).

(** [row.State = RUNNING], on the caller's copy. *)
Definition mark_running (row : Dispatch) : Dispatch :=
  {| d_ID := d_ID row; d_Username := d_Username row; d_Connection := d_Connection row;
     d_IssueNumber := d_IssueNumber row; d_Scope := d_Scope row; d_SkillID := d_SkillID row;
     d_RunID := d_RunID row; d_Depth := d_Depth row; d_State := DISPATCH_STATE_RUNNING;
     d_FailureReason := d_FailureReason row; d_Failure := d_Failure row;
     d_LabelsPending := d_LabelsPending row; d_CreatedAt := d_CreatedAt row;
     d_StartedAt := d_StartedAt row; d_EndedAt := d_EndedAt row |}.

Section Tick.
(** [protojson.Marshal], a library function. *)
Context (Marshal : TrackerDispatchInput -> string + string).
Context (d : Dispatcher) (u c : string).

Definition dispatchInputJSON (row : Dispatch) : string + string :=
  Marshal (mkInput (d_Connection row) (d_IssueNumber row) (d_Scope row) (d_ID row) (d_Depth row)
             (d_Username row)).

(** From the label on: start the run of [row]. *)
Definition start_row (res : TickResult) (skillID : string) (row : Dispatch)
  : tprog (TickResult * option tick_error) :=
  match dispatchInputJSON row with
  | inr m => e ← failBeforeStart d row (TEncodeInput m); mret (res, Some e)
  | inl input =>
      s ← StartRun d row (mkStartRun u c skillID (d_RunID row) input (dp_RepoURL d));
      match s with
      | (ErrDispatchEnded, _) => mret (res, None)
      | (StartErr m, _) =>
          failed ← failStart d row m;
          mret (match failed with inr e => (res, Some e) | inl f => (failed_one f res, None) end)
      | (StartOk, started) =>
          mret (started_one
                  (if started : bool then mark_running row else row)
                  res, None)
      end
  end.

(** From the insert on. *)
Definition dispatch_row (res : TickResult) (scope skillID : string) (row : Dispatch)
  : tprog (TickResult * option tick_error) :=
  cerr ← call CCtxErr;
  match cerr with
  | Some m => err ← abandon row; mret (res, Some (default (TCtx m) err))
  | None =>
      keep ← stillDispatchable row scope;
      match keep with
      | inr e => mret (res, Some e)
      | inl false => mret (skip_active res, None)
      | inl true =>
          labelled ← labelQueued row;
          match labelled with
          | inr e => e ← failBeforeStart d row e; mret (res, Some e)
          | inl row =>
              cerr ← call CCtxErr;
              match cerr with
              | Some m =>
                  failed ← failStart d row m;
                  mret (match failed with
                        | inr e => (res, Some e)
                        | inl f => (failed_one f res, Some (TCtx m))
                        end)
              | None => start_row res skillID row
              end
          end
      end
  end.

Definition to_insert (issue : Z) (scope skillID runID : string) (now : Time) (depth : Z) : Dispatch :=
  mkDispatch "" u c issue scope skillID runID depth DISPATCH_STATE_UNSPECIFIED "" DISPATCH_FAILURE_UNSPECIFIED
    false now 0 0.

Definition insert_row (res : TickResult) (issue : Z) (scope skillID : string) (depth : Z)
  : tprog (TickResult * option tick_error) :=
  runID ← call CNewRunID;
  now ← call CNow;
  r ← call (CInsertDispatch (to_insert issue scope skillID runID now depth));
  match r with
  | TrackerStore.ErrDispatchActive => mret (skip_active res, None)
  | ErrNotFound => mret (res, Some (TInsert issue "tracker: connection not found"))
  | InsertErr m => mret (res, Some (TInsert issue m))
  | Inserted row => dispatch_row res scope skillID row
  end.

(** The loop body for one listed issue; [None] goes on with the next one. *)
Definition tick_issue (skills : gmap string string) (res : TickResult) (issue : Issue)
  : tprog (TickResult * option tick_error) :=
  cerr ← call CCtxErr;
  match cerr with
  | Some m => mret (res, Some (TCtx m))
  | None =>
      match scopeLabels (is_Labels issue) with
      | [] => mret (res, None)
      | scopes =>
          if hasAnyLabel (is_Labels issue) [LabelNeedsApproval] then mret (skip_approval res, None)
          else if hasAnyLabel (is_Labels issue) ReservedStateLabels then mret (skip_active res, None)
          else
            routed ← route_scopes u c skills (is_Number issue) scopes None;
            match routed with
            | inr e => mret (res, Some e)
            | inl None => mret (skip_unrouted res, None)
            | inl (Some (scope, skillID)) =>
                depth ← call (CIssueDepth u c (is_Number issue));
                match depth with
                | inr m => mret (res, Some (TReadDepth (is_Number issue) m))
                | inl depth =>
                    if negb (DepthAllowed (effectivePolicy d) depth) then mret (skip_over_depth res, None)
                    else insert_row res (is_Number issue) scope skillID depth
                end
            end
      end
  end.

Fixpoint tick_loop (skills : gmap string string) (issues : list Issue) (res : TickResult)
  : tprog (TickResult * option tick_error) :=
  match issues with
  | [] => mret (res, None)
  | issue :: rest =>
      r ← tick_issue skills res issue;
      match r with
      | (res, Some e) => mret (res, Some e)
      | (res, None) => tick_loop skills rest res
      end
  end.

Definition Tick : tprog (TickResult * option tick_error) :=
  routes ← call (CListRoutes u c);
  match routes with
  | inr m => mret (no_result, Some (TListRoutes m))
  | inl routes =>
      '(swept, serr) ← sweep d u c;
      let res := with_timed_out swept no_result in
      match serr with
      | Some e => mret (res, Some e)
      | None =>
          issues ← call CListIssues;
          match issues with
          | inr m => mret (res, Some (TListIssues m))
          | inl issues => tick_loop (skill_for routes) issues res
          end
      end
  end.
End Tick.
