(* ===== verification/DispatchProtocol.v ===== *)
(** * What each dispatcher thread may do, and owes

    A monitor over the calls of Dispatch.  A thread holds tokens about rows:
    - [KStart]: it inserted the row and has not reported its start;
    - [KGo]: the start was recorded, or the store could not say; it may launch the run;
    - [KFin]: it is the background half of the row's run;
    - [KObs], [KCmt]: it won the row's last compare-and-set, and may report the end to
      the metrics, and (for a failure) comment on the issue;
    - [KOwe]: the row must leave QUEUED and RUNNING before this thread ends;
    - [KErr]: a statement that moves rows has failed in this thread.

    The lemmas say that a tick and the background half of a run keep to these rules
    whatever they are answered; DispatchSystem draws the conclusions for all of them
    together. *)

From S2P Require Import Prelude Prog GoStrings Labels TrackerStore TrackerApi Dispatch.
#[local] Open Scope string_scope.
#[local] Open Scope list_scope.
#[local] Open Scope Z_scope.

Inductive kind := KStart | KGo | KFin | KObs | KCmt | KOwe | KErr.

#[export] Instance kind_eq_dec : EqDecision kind.
Proof. solve_decision. Defined.

#[export] Instance kind_countable : Countable kind.
Proof.
  refine (inj_countable'
    (fun k => match k with KStart => 0 | KGo => 1 | KFin => 2 | KObs => 3 | KCmt => 4 | KOwe => 5 | KErr => 6 end%nat)
    (fun n => match n with 0 => KStart | 1 => KGo | 2 => KFin | 3 => KObs | 4 => KCmt | 5 => KOwe | _ => KErr end%nat)
    _).
  by intros [].
Defined.

Abbreviation ghost := (gset (kind * string)) (only parsing).

Definition err : kind * string := (KErr, "").

(** The row has been dealt with. *)
Definition settle (id : string) (g : ghost) : ghost := g ∖ {[(KOwe, id)]}.

Definition mon (g : ghost) (c : tcall) : ans c -> ghost :=
  match c with
  | CInsertDispatch _ => fun a =>
      match a with
      | Inserted row => {[(KStart, d_ID row); (KOwe, d_ID row)]} ∪ g
      | InsertErr _ => {[err]} ∪ g
      | _ => g
      end
  | CTransitionDispatch id _ DISPATCH_STATE_RUNNING _ _ => fun a =>
      match a with
      | inl true => {[(KGo, id)]} ∪ g ∖ {[(KStart, id)]}
      | inl false => settle id (g ∖ {[(KStart, id)]})
      | inr _ => {[err; (KGo, id)]} ∪ g ∖ {[(KStart, id)]}
      end
  | CTransitionDispatch id _ _ _ _ => fun a =>
      match a with
      | inl true => {[(KObs, id)]} ∪ settle id g
      | inl false => settle id g
      | inr _ => {[err]} ∪ g
      end
  | CFailDispatch id _ _ _ _ => fun a =>
      match a with
      | inl true => {[(KObs, id); (KCmt, id)]} ∪ settle id g
      | inl false => settle id g
      | inr _ => {[err]} ∪ g
      end
  | CDeleteQueuedDispatch id => fun a => match a with inl _ => settle id g | inr _ => {[err]} ∪ g end
  | CLaunch _ _ row => fun _ => g ∖ {[(KGo, d_ID row); (KOwe, d_ID row)]}
  | CDispatchEnded row _ => fun _ => g ∖ {[(KObs, d_ID row)]}
  | CFailureComment row _ => fun _ => g ∖ {[(KCmt, d_ID row)]}
  | _ => fun _ => g
  end.

(** A thread that owes the row knows that it is not in the other active state. *)
Definition may_settle (g : ghost) (id : string) (from : TrackerDispatchState) : Prop :=
  err ∈ g \/ (KOwe, id) ∉ g
  \/ match from with
     | DISPATCH_STATE_QUEUED => (KStart, id) ∈ g
     | DISPATCH_STATE_RUNNING => (KFin, id) ∈ g
     | _ => False
     end.

Definition pre (g : ghost) (c : tcall) : Prop :=
  match c with
  | CTransitionDispatch id from DISPATCH_STATE_RUNNING _ _ => from = DISPATCH_STATE_QUEUED /\ (KStart, id) ∈ g
  | CTransitionDispatch id from _ _ _ | CFailDispatch id from _ _ _ => may_settle g id from
  | CDeleteQueuedDispatch id => may_settle g id DISPATCH_STATE_QUEUED
  | CLaunch _ _ row => (KGo, d_ID row) ∈ g
  | CDispatchEnded row _ => (KObs, d_ID row) ∈ g
  | CFailureComment row _ => (KCmt, d_ID row) ∈ g
  | _ => True
  end.

(** The background half of a run starts with these. *)
Definition born (c : tcall) (_ : ans c) : ghost :=
  match c with
  | CLaunch _ _ row => {[(KFin, d_ID row); (KOwe, d_ID row)]}
  | _ => ∅
  end.

Definition spawn (c : tcall) (_ : ans c) : option (tprog unit) :=
  match c with
  | CLaunch d runID row => Some (finishDispatchedRun d runID row)
  | _ => None
  end.

(** Nothing is owed. *)
Definition settled (g : ghost) : Prop := err ∈ g \/ forall id, (KOwe, id) ∉ g.
(** Nothing but [id] is owed. *)
Definition owes_only (id : string) (g : ghost) : Prop := err ∈ g \/ forall i, (KOwe, i) ∈ g -> i = id.

Abbreviation safe_wp := (wp (A := ans) (fun _ _ _ => True) mon pre) (only parsing).

(** ** Automation *)

Lemma settled_owes id g : settled g -> owes_only id g.
Proof. intros [?|H]; [by left|right]. intros i Hi. by destruct (H i). Qed.

Lemma owes_settle id g : owes_only id g -> settled (settle id g).
Proof. unfold settle. intros [?|H]; [left; set_solver|right; set_solver]. Qed.

Lemma err_settled g : settled ({[err]} ∪ g).
Proof. left. set_solver. Qed.

Lemma settled_may g id from : settled g -> may_settle g id from.
Proof. intros [?|H]; [by left|right; left; apply H]. Qed.

Lemma settled_settle g id : settled g -> settled (settle id g).
Proof. unfold settle. intros [?|H]; [left|right]; set_solver. Qed.

(** Tokens of the other kinds do not matter for what is owed. *)
Lemma settled_union k id g : k <> KOwe -> settled g -> settled ({[(k, id)]} ∪ g).
Proof. intros Hk [?|H]; [left|right]; set_solver. Qed.

Lemma settled_diff k id g : k <> KErr -> settled g -> settled (g ∖ {[(k, id)]}).
Proof. unfold settled, err. intros Hk [?|H]; [left|right]; set_solver. Qed.

#[export] Hint Resolve settled_owes owes_settle err_settled settled_may settled_settle : tracker.

(** One call of the program in the goal, on every answer. *)
Ltac do_call := apply wp_call_bind; [try exact I|intros ? _; cbn [mon]].

(** The last call of a program. *)
Ltac do_last := split; [try exact I|intros ? _; cbn [wp mon]].

(** ** The pieces *)

(** Reporting the end uses up [KObs] at most. *)
Lemma observeEnd_wp d row g :
  (KObs, d_ID row) ∈ g ->
  safe_wp (observeEnd d row) (fun g' _ => g' = g \/ g' = g ∖ {[(KObs, d_ID row)]}) g.
Proof.
  intros Hg. unfold observeEnd. destruct (dp_HasObserver d); [|by left].
  do_last; [exact Hg|by right].
Qed.

Lemma projectFailure_wp row timeout g :
  (KCmt, d_ID row) ∈ g ->
  safe_wp (projectFailure row timeout) (fun g' _ => g' = g ∖ {[(KCmt, d_ID row)]}) g.
Proof.
  intros Hg. unfold projectFailure. do_call. apply wp_call_bind; [exact Hg|]. intros c _. cbn [mon].
  destruct a as [?|], c as [?|]; try done; do_call; by destruct a.
Qed.

Lemma endLease_wp d runID g : safe_wp (endLease d runID) (fun g' _ => g' = g) g.
Proof. unfold endLease. by destruct (dp_HasLeases d). Qed.

Lemma projectLabels_wp row add remove g : safe_wp (projectLabels row add remove) (fun g' _ => g' = g) g.
Proof. unfold projectLabels. do_call. destruct a; [|done]. unfold markLabelsPending. by do_call. Qed.

(** After a won compare-and-set to FAILED: the observer, then the issue. *)
Lemma report_failure_wp {R} d row timeout (f : bool + tick_error -> tprog R) g post :
  (forall g' r, g' ⊆ g -> settled g' -> safe_wp (f r) post g') -> settled g ->
  (KObs, d_ID row) ∈ g -> (KCmt, d_ID row) ∈ g ->
  safe_wp (_ ← observeEnd d row; r ← projectFailure row timeout; f r) post g.
Proof.
  intros Hf Hs Hobs Hcmt. eapply wp_seq; [by apply observeEnd_wp|]. intros g' ? Hg'.
  assert (settled g' /\ (KCmt, d_ID row) ∈ g') as [Hs' Hin]
    by (destruct Hg' as [->| ->]; split; [done..|by apply settled_diff|set_solver]).
  eapply wp_seq; [by apply projectFailure_wp|]. intros g2 p ->. apply Hf; [set_solver|by apply settled_diff].
Qed.

(** ** The sweep *)

Lemma failSwept_wp d row from failure reason timeout g :
  settled g -> safe_wp (failSwept d row from failure reason timeout) (fun g' _ => settled g') g.
Proof.
  intros Hs. unfold failSwept. do_call. apply wp_call_bind; [by apply settled_may|]. intros [[]|m] _; cbn [mon].
  - set (g1 := _ ∪ _). assert (Hs1 : settled g1).
    { unfold g1. rewrite <- union_assoc_L. apply settled_union, settled_union; auto with tracker. }
    eapply wp_seq; [apply endLease_wp|]. intros g' _ ->.
    apply report_failure_wp; [|done|unfold g1; set_solver..]. by intros g' [e|p] _ Hs'.
  - apply wp_ret. auto with tracker.
  - apply wp_ret. auto with tracker.
Qed.

Lemma sweep_verdict_wp d timeout grace age row g :
  safe_wp (sweep_verdict d timeout grace age row) (fun g' _ => g' = g) g.
Proof.
  unfold sweep_verdict. destruct (timeout <=? age); [done|]. by destruct (dp_HasLeases d && _).
Qed.

Lemma sweep_rows_wp d state timeout grace rows swept g :
  settled g -> safe_wp (sweep_rows d state timeout grace rows swept) (fun g' _ => settled g') g.
Proof.
  revert swept g. induction rows as [|row rows IH]; intros swept g Hs; [done|]. cbn [sweep_rows].
  do_call. destruct a as [m|]; [done|]. do_call.
  eapply wp_seq; [apply sweep_verdict_wp|]. intros g' v ->. destruct v as [[failure reason]|]; [|by apply IH].
  eapply wp_seq; [by apply failSwept_wp|]. intros g' [[row' []] [e|]] Hs'; [done|by apply IH|done|by apply IH].
Qed.

Lemma sweep_wp d u c g : settled g -> safe_wp (sweep d u c) (fun g' _ => settled g') g.
Proof.
  intros Hs. unfold sweep. eapply wp_seq.
  - unfold sweep_state. do_call. destruct a; [by apply sweep_rows_wp|done].
  - intros g' [swept [e|]] Hs'; [done|]. unfold sweep_state. do_call. destruct a; [by apply sweep_rows_wp|done].
Qed.

(** ** The run *)

(** Winning the last compare-and-set earns the right to report it. *)
Definition won (outcome : option string) (row : Dispatch) (g : ghost) : Prop :=
  (KObs, d_ID row) ∈ g /\ (is_Some outcome -> (KCmt, d_ID row) ∈ g).

Lemma end_call_wp outcome row now from g :
  may_settle g (d_ID row) from -> owes_only (d_ID row) g ->
  safe_wp (end_call outcome row now from) (fun g' r => settled g' /\ (r = inl true -> won outcome row g')) g.
Proof.
  intros Hmay Howes. pose proof (owes_settle _ _ Howes) as Hs.
  unfold end_call, won. destruct outcome as [m|]; (do_last; [exact Hmay|]); destruct a as [[]|];
    (split; [|intros ?; try done]); auto with tracker.
  - rewrite <- union_assoc_L. by do 2 (apply settled_union; [done|]).
  - set_solver.
  - by apply settled_union.
  - split; [set_solver|by intros []].
Qed.

Lemma end_loop_settled_wp outcome row now froms g :
  settled g ->
  safe_wp (end_loop outcome row now froms)
    (fun g' r => settled g' /\ (r = Some true -> won outcome row g')) g.
Proof.
  revert g. induction froms as [|from froms IH]; intros g Hs; [done|]. cbn [end_loop].
  eapply wp_seq; [apply end_call_wp; auto with tracker|].
  intros g' [[]|m] [Hs' Hwon]; [by split; auto|by apply IH|done].
Qed.

Lemma end_loop_wp outcome row now g :
  (KFin, d_ID row) ∈ g -> owes_only (d_ID row) g ->
  safe_wp (end_loop outcome row now [DISPATCH_STATE_RUNNING; DISPATCH_STATE_QUEUED])
    (fun g' r => settled g' /\ (r = Some true -> won outcome row g')) g.
Proof.
  intros Hfin Howes. cbn [end_loop]. eapply wp_seq; [apply end_call_wp; [by right; right|done]|].
  intros g' [[]|m] [Hs' Hwon]; [by split; auto|by apply (end_loop_settled_wp _ _ _ [_])|done].
Qed.

Lemma RunEnded_wp d row outcome g :
  (KFin, d_ID row) ∈ g -> owes_only (d_ID row) g ->
  safe_wp (RunEnded d row outcome) (fun g' _ => settled g') g.
Proof.
  intros Hfin Howes. unfold RunEnded. do_call. set (row' := ended_row outcome a row).
  assert (Hid : d_ID row' = d_ID row) by by destruct outcome. rewrite <- Hid in *. clearbody row'. clear row Hid.
  eapply wp_seq; [by apply end_loop_wp|]. intros g1 [[]|] [Hs Hwon]; [|done..].
  destruct (Hwon eq_refl) as [Hobs Hcmt]. destruct outcome as [m|].
  - apply report_failure_wp; [by intros ? ? _ ?|done|done|by apply Hcmt].
  - eapply wp_seq; [by apply observeEnd_wp|]. intros g2 ? Hg2.
    eapply wp_mono; [|apply projectLabels_wp]. intros ? ? ->.
    destruct Hg2 as [->| ->]; [done|by apply settled_diff].
Qed.

Lemma finishDispatchedRun_wp d runID row g :
  (KFin, d_ID row) ∈ g -> owes_only (d_ID row) g ->
  safe_wp (finishDispatchedRun d runID row) (fun g' _ => settled g') g.
Proof.
  intros Hfin Howes. unfold finishDispatchedRun. do 4 do_call.
  eapply wp_seq; [by apply RunEnded_wp|]. intros g' ? Hs. by do_last.
Qed.

Lemma RunStarted_wp row g :
  (KStart, d_ID row) ∈ g -> owes_only (d_ID row) g ->
  safe_wp (RunStarted row false)
    (fun g' r => if r.1 : bool then (KGo, d_ID row) ∈ g' /\ owes_only (d_ID row) g' else settled g') g.
Proof.
  intros Hst Howes. unfold RunStarted. do_call. apply wp_call_bind; [done|]. intros [[]|m] _; cbn [mon].
  - eapply wp_seq; [apply projectLabels_wp|]. intros g' ? ->. apply wp_ret. cbn [fst].
    split; [set_solver|]. destruct Howes as [?|H]; [left|right]; set_solver.
  - apply wp_ret. cbn [fst]. apply owes_settle. destruct Howes as [?|H]; [left|right]; set_solver.
  - apply wp_ret. cbn [fst]. split; [set_solver|left; set_solver].
Qed.

Lemma StartRun_wp d row req g :
  (KStart, d_ID row) ∈ g -> owes_only (d_ID row) g ->
  safe_wp (StartRun d row req)
    (fun g' r => match r.1 with
                 | StartErr _ => g' = g
                 | _ => settled g'
                 end) g.
Proof.
  intros Hst Howes. unfold StartRun. do_call. destruct a as [m|]; [done|]. do 2 do_call.
  destruct a0 as [runID|m]; [|by do_call]. unfold launchDispatchedRun. apply wp_bind. do 2 do_call.
  eapply wp_seq; [by apply RunStarted_wp|]. intros g1 [[] started] Hg1; cbn [fst] in Hg1.
  - destruct Hg1 as [Hgo Ho]. apply wp_call_bind; [exact Hgo|]. intros ? _. cbn [mon].
    apply wp_ret. cbn. destruct Ho as [?|Ho]; [left|right]; set_solver.
  - do 2 do_call. do_call. done.
Qed.

(** ** The tick *)

Section Tick.
Context (Marshal : TrackerDispatchInput -> string + string) (d : Dispatcher) (u c : string).

(** The thread holds the start of [id], and owes nothing else. *)
Definition holds (id : string) (g : ghost) : Prop := (KStart, id) ∈ g /\ owes_only id g.

Lemma holds_may id g : holds id g -> may_settle g id DISPATCH_STATE_QUEUED.
Proof. intros [? _]. by right; right. Qed.

Lemma abandon_wp row g : holds (d_ID row) g -> safe_wp (abandon row) (fun g' _ => settled g') g.
Proof.
  intros Hh. unfold abandon. apply wp_call_bind; [by apply holds_may|]. intros [?|?] _; cbn [mon]; apply wp_ret.
  - apply owes_settle, Hh.
  - apply err_settled.
Qed.

Lemma stillDispatchable_wp row scope g :
  holds (d_ID row) g ->
  safe_wp (stillDispatchable row scope)
    (fun g' r => match r with inl true => holds (d_ID row) g' | _ => settled g' end) g.
Proof.
  intros Hh. unfold stillDispatchable. do_call. destruct (match a with inl _ => _ | inr _ => _ end); [done|].
  eapply wp_seq; [by apply abandon_wp|]. by intros g' [e|] Hs.
Qed.

Lemma failStart_wp row m g : holds (d_ID row) g -> safe_wp (failStart d row m) (fun g' _ => settled g') g.
Proof.
  intros Hh. pose proof (holds_may _ _ Hh) as Hmay. destruct Hh as [_ Howes].
  pose proof (owes_settle _ _ Howes) as Hs. unfold failStart. do_call.
  apply wp_call_bind; [exact Hmay|]. intros [[]|?] _; cbn [mon negb]; [|done|apply err_settled].
  apply report_failure_wp; [by intros ? ? _ ?| |set_solver..].
  rewrite <- union_assoc_L. by do 2 (apply settled_union; [done|]).
Qed.

Lemma failBeforeStart_wp row e g :
  holds (d_ID row) g -> safe_wp (failBeforeStart d row e) (fun g' _ => settled g') g.
Proof.
  intros Hh. unfold failBeforeStart. eapply wp_seq; [by apply failStart_wp|]. by intros g' [?|?] Hs.
Qed.

Lemma labelQueued_wp row g :
  safe_wp (labelQueued row)
    (fun g' r => g' = g /\ forall row', r = inl row' -> d_ID row' = d_ID row) g.
Proof.
  unfold labelQueued. do_call. destruct a; [do_call; destruct a|]; (split; [done|]); intros ? [= <-]; done.
Qed.

Lemma start_row_wp res skillID row g :
  holds (d_ID row) g -> safe_wp (start_row Marshal d u c res skillID row) (fun g' _ => settled g') g.
Proof.
  intros Hh. unfold start_row. destruct (dispatchInputJSON Marshal row) as [input|m].
  - eapply wp_seq; [apply StartRun_wp; apply Hh|]. intros g1 [[| |m] started] Hg1; cbn [fst] in Hg1.
    + done.
    + done.
    + subst g1. eapply wp_seq; [by apply failStart_wp|]. by intros g2 [?|?] Hs.
  - eapply wp_seq; [by apply failBeforeStart_wp|]. by intros g' e Hs.
Qed.

Lemma dispatch_row_wp res scope skillID row g :
  holds (d_ID row) g -> safe_wp (dispatch_row Marshal d u c res scope skillID row) (fun g' _ => settled g') g.
Proof.
  intros Hh. unfold dispatch_row. do_call. destruct a as [m|].
  { eapply wp_seq; [by apply abandon_wp|]. by intros g' e Hs. }
  eapply wp_seq; [by apply stillDispatchable_wp|]. intros g1 [[]|e] Hg1; [|done..].
  eapply wp_seq; [apply labelQueued_wp|]. intros g2 [row'|e] [-> Hid].
  - specialize (Hid _ eq_refl). rewrite <- Hid in Hg1. do_call. destruct a as [m|]; [|by apply start_row_wp].
    eapply wp_seq; [by apply failStart_wp|]. by intros g2 [?|?] Hs.
  - eapply wp_seq; [by apply failBeforeStart_wp|]. by intros g' ? Hs.
Qed.

Lemma warnUnrouted_wp issue scope g : safe_wp (warnUnrouted u c issue scope) (fun g' _ => g' = g) g.
Proof.
  unfold warnUnrouted. do_call. destruct a as [[]|m]; [|done..]. do_call. destruct a; [|done].
  do_call. by destruct a.
Qed.

Lemma route_scopes_wp skills issue scopes found g :
  safe_wp (route_scopes u c skills issue scopes found) (fun g' _ => g' = g) g.
Proof.
  revert found. induction scopes as [|sc scopes IH]; intros found; [done|]. cbn [route_scopes].
  destruct (skills !! sc); [apply IH|]. eapply wp_seq; [apply warnUnrouted_wp|]. intros g' [e|] ->; [done|apply IH].
Qed.

Lemma tick_issue_wp skills res issue g :
  settled g -> safe_wp (tick_issue Marshal d u c skills res issue) (fun g' _ => settled g') g.
Proof.
  intros Hs. unfold tick_issue. do_call. destruct a as [m|]; [done|].
  destruct (scopeLabels _) as [|sc scs]; [done|].
  destruct (hasAnyLabel _ [LabelNeedsApproval]); [done|]. destruct (hasAnyLabel _ ReservedStateLabels); [done|].
  eapply wp_seq; [apply route_scopes_wp|]. intros g' [[[scope skillID]|]|e] ->; [|done..].
  do_call. destruct a as [depth|m]; [|done]. destruct (negb _); [done|].
  unfold insert_row. do 3 do_call. destruct a1 as [row| | |m]; [|done|done|apply err_settled].
  apply dispatch_row_wp. split; [set_solver|]. destruct Hs as [?|H]; [left|right]; set_solver.
Qed.

Lemma tick_loop_wp skills issues res g :
  settled g -> safe_wp (tick_loop Marshal d u c skills issues res) (fun g' _ => settled g') g.
Proof.
  revert res g. induction issues as [|issue issues IH]; intros res g Hs; [done|]. cbn [tick_loop].
  eapply wp_seq; [by apply tick_issue_wp|]. intros g' [res' [e|]] Hs'; [done|by apply IH].
Qed.

Lemma Tick_wp g : settled g -> safe_wp (Tick Marshal d u c) (fun g' _ => settled g') g.
Proof.
  intros Hs. unfold Tick. do_call. destruct a as [routes|m]; [|done].
  eapply wp_seq; [by apply sweep_wp|]. intros g' [swept [e|]] Hs'; [done|].
  do_call. destruct a as [issues|m]; [by apply tick_loop_wp|done].
Qed.
End Tick.
