(* ===== verification/TrackerAlone.v ===== *)
(** * The tracker's programs alone

    A world in which every call works: the store executes, the forge holds a fixed list of
    issues and accepts every write, the clock stands still and the runs answer as given.
    It is one of the behaviours of [exec] ([alone_exec]), so what it computes are
    reachable states; and it is the setting of the theorems that say what a program does
    when nothing fails and nobody interferes. *)

From S2P Require Import Prelude Prog GoStrings Labels TrackerStore TrackerApi Dispatch DispatchProtocol.
#[local] Open Scope string_scope.
#[local] Open Scope list_scope.
#[local] Open Scope Z_scope.

Record outside := mkOutside {
  o_issues : list Issue;
  o_now : Time;
  o_dbnow : Time;
  o_run : string;
  o_agent : agent_end;
  o_live : string -> bool;
}.

Section Alone.
Context (o : outside).

Definition write (c : tcall) (a : ans c) (s : db) (w : world) : ans c * world :=
  (a, logged c a w s (w_ids w) (w_locks w)).
Definition answer (c : tcall) (a : ans c) (w : world) : ans c * world :=
  (a, logged c a w (w_db w) (w_ids w) (w_locks w)).

Definition alone (c : tcall) (w : world) : ans c * world :=
  let s := w_db w in
  match c with
  | CInsertDispatch d =>
      let id := fresh (w_ids w) in
      let '(r, s') := InsertDispatch id (o_dbnow o) d s in
      (r, logged (CInsertDispatch d) r w s' ({[id]} ∪ w_ids w) (w_locks w))
  | CTransitionDispatch id from to reason at_ =>
      let '(r, s') := TransitionDispatch id from to reason at_ s in write (CTransitionDispatch id from to reason at_) r s' w
  | CFailDispatch id from failure reason at_ =>
      let '(r, s') := FailDispatch id from failure reason at_ s in write (CFailDispatch id from failure reason at_) r s' w
  | CSetLabelsPending id b =>
      let '(r, s') := SetDispatchLabelsPending id b s in write (CSetLabelsPending id b) r s' w
  | CDeleteQueuedDispatch id =>
      let '(r, s') := DeleteQueuedDispatch id s in write (CDeleteQueuedDispatch id) (inl r) s' w
  | CRecordWarning u k n sc =>
      let '(r, s') := RecordDispatchWarning u k n sc s in write (CRecordWarning u k n sc) r s' w
  | CForgetWarning u k n sc => write (CForgetWarning u k n sc) None (ForgetDispatchWarning u k n sc s) w
  | CLockRun k =>
      if decide (k ∈ w_locks w)
      then (Some "lock", logged (CLockRun k) (Some "lock") w s (w_ids w) (w_locks w))
      else (None, logged (CLockRun k) None w s (w_ids w) ({[k]} ∪ w_locks w))
  | CTxReserve (u, k, r) =>
      let '(id, s') := reserve u k r s in
      (inl id, logged (CTxReserve (u, k, r)) (inl id) w s' (w_ids w) (w_locks w ∖ {[(u, k, r)]}))
  | CTxRollback k => (tt, logged (CTxRollback k) tt w s (w_ids w) (w_locks w ∖ {[k]}))
  | CReleaseReservation id => write (CReleaseReservation id) None (release id s) w
  | CRecordReservedChild l id =>
      let '(done_, s') := recordReservedChild l id s in
      write (CRecordReservedChild l id) (if done_ then None else Some "insert issue lineage") s' w
  | CListRoutes u k => answer (CListRoutes u k) (ListRoutes u k s) w
  | CListDispatches u k st => answer (CListDispatches u k st) (ListDispatches u k st s) w
  | CIssueDepth u k n => answer (CIssueDepth u k n) (inl (issueDepth u k n s)) w
  | CGetConnection u k =>
      answer (CGetConnection u k) (match Get u k s with Some cn => inl cn | None => inr EConnNotFound end) w
  | CIssueInRunLineage u k r n => answer (CIssueInRunLineage u k r n) (inl (IssueInRunLineage u k r n s)) w
  | CTxIssueDepth u k n => answer (CTxIssueDepth u k n) (inl (issueDepth u k n s)) w
  | CTxRunDispatchDepth k => answer (CTxRunDispatchDepth k) (inl (runDispatchDepth k.1.1 k.1.2 k.2 s)) w
  | CTxClaimedCount k => answer (CTxClaimedCount k) (inl (claimedCount k.1.1 k.1.2 k.2 s)) w
  | CListIssues => answer CListIssues (inl (o_issues o)) w
  | CGetIssue n =>
      answer (CGetIssue n) (match find (fun i => is_Number i =? n) (o_issues o) with
                            | Some i => inl i | None => inr "not found" end) w
  | CSetLabels n add rm => answer (CSetLabels n add rm) None w
  | CComment n body => answer (CComment n body) None w
  | CFailureComment row t => answer (CFailureComment row t) None w
  | CCreateIssue k i =>
      answer (CCreateIssue k i) (inl (mkIssue (100 + Z.of_nat (length (w_trace w))) ISSUE_STATE_OPEN (ni_Labels i))) w
  | CRequireDispatchCaller u => answer (CRequireDispatchCaller u) None w
  | CBeginSkillRun req => answer (CBeginSkillRun req) (inl (sr_RunID req)) w
  | CTrack r => answer (CTrack r) tt w
  | CSetLease r => answer (CSetLease r) tt w
  | CUntrack r => answer (CUntrack r) tt w
  | CEndDispatchedLease r => answer (CEndDispatchedLease r) true w
  | CLaunch d r row => answer (CLaunch d r row) tt w
  | CAgent r => answer (CAgent r) (o_agent o) w
  | CLive r => answer (CLive r) (o_live o r) w
  | CEndLease r => answer (CEndLease r) tt w
  | CDispatchEnded row ev => answer (CDispatchEnded row ev) tt w
  | CNow => answer CNow (o_now o) w
  | CCtxErr => answer CCtxErr None w
  | CNewRunID => answer CNewRunID (o_run o) w
  | CResolveWriter cn => answer (CResolveWriter cn) None w
  | CAudit x u k n => answer (CAudit x u k n) tt w
  end.

Lemma alone_exec c w : exec w c (alone c w).1 (alone c w).2.
Proof.
  destruct c; cbn [alone];
    try (apply exec_other; [done|cbn [read_result answer fst]; auto; done]).
  - destruct (InsertDispatch _ _ _ _) as [r s'] eqn:Hr. apply exec_write. econstructor; [apply is_fresh|].
    rewrite Hr. constructor.
  - destruct (TransitionDispatch _ _ _ _ _ _) as [r s'] eqn:Hr. apply exec_write. constructor. rewrite Hr. constructor.
  - destruct (FailDispatch _ _ _ _ _ _) as [r s'] eqn:Hr. apply exec_write. constructor. rewrite Hr. constructor.
  - destruct (SetDispatchLabelsPending _ _ _) as [r s'] eqn:Hr. apply exec_write. constructor. rewrite Hr. constructor.
  - apply exec_write. constructor. constructor.
  - destruct (RecordDispatchWarning _ _ _ _ _) as [r s'] eqn:Hr. apply exec_write. constructor. rewrite Hr. constructor.
  - apply exec_write. constructor. constructor.
  - destruct (decide _); apply exec_write; by constructor.
  - destruct k as [[u k] r]. apply exec_write. constructor. constructor.
  - apply exec_write. constructor.
  - apply exec_write. constructor. constructor.
  - destruct (recordReservedChild _ _ _) as [r s'] eqn:Hr. apply exec_write. constructor. rewrite Hr. destruct r; constructor.
Qed.

(** [alone] records what it answers. *)
Lemma alone_trace c w : w_trace (alone c w).2 = existT c (alone c w).1 :: w_trace w.
Proof.
  destruct c; cbn [alone]; try done; repeat case_match; done.
Qed.

Lemma alone_runs {R} (P : forall c, ans c -> Prop) (p : tprog R) w r w' :
  (forall c w, P c (alone c w).1) ->
  handle alone p w = (r, w') ->
  exists tr, runs p tr (Ret r) /\ w_trace w' = rev tr ++ w_trace w /\ Forall (fun e => P (projT1 e) (projT2 e)) tr.
Proof.
  intros HP. revert w. induction p as [r0|c k IH]; intros w; simpl.
  - intros [= -> ->]. exists []. by split_and!; [constructor| |constructor].
  - destruct (alone c w) as [a w1] eqn:Ha. intros Hh. destruct (IH _ _ Hh) as (tr & Hr & Htr & HPtr).
    exists (existT c a :: tr). split_and!; [by constructor| |].
    + rewrite Htr. simpl. pose proof (alone_trace c w) as Ht. rewrite Ha in Ht. simpl in Ht.
      rewrite Ht. by rewrite <- app_assoc.
    + constructor; [|done]. simpl. pose proof (HP c w) as Hp. by rewrite Ha in Hp.
Qed.

(** A call that shows up in what was recorded is a call of a run. *)
Lemma alone_event {R} (P : forall c, ans c -> Prop) (f : tcall -> bool) (p : tprog R) w :
  (forall c w, P c (alone c w).1) -> w_trace w = [] -> existsb (fun e => f (projT1 e)) (w_trace (handle alone p w).2) = true ->
  exists before c a after q, runs p (before ++ existT c a :: after) q /\ f c = true /\
    Forall (fun e => P (projT1 e) (projT2 e)) before.
Proof.
  intros HP Hw Hex. destruct (handle alone p w) as [r w'] eqn:Hh.
  destruct (alone_runs P p w r w' HP Hh) as (tr & Hruns & Htr & Hhon).
  apply existsb_exists in Hex as ([c a] & He & Hf). simpl in He. rewrite Htr, Hw, app_nil_r in He.
  apply in_rev, in_split in He as (before & after & ->). apply Forall_app in Hhon as [Hhon _].
  exists before, c, a, after, (Ret r). done.
Qed.

(** The threads it starts on the way, when [spn] says which calls start one. *)
Context (spn : forall c, ans c -> option (tprog unit)).

Fixpoint spawned {R} (p : tprog R) (w : world) : list (tprog unit) :=
  match p with
  | Ret _ => []
  | Do c k => let '(a, w') := alone c w in option_list (spn c a) ++ spawned (k a) w'
  end.

(** One thread runs to its end while the others wait. *)
Lemma alone_pool arrive env T1 (p : tprog unit) T2 w r w' :
  handle alone p w = (r, w') ->
  rtc (pstep exec spn arrive env) (T1 ++ p :: T2, w) (T1 ++ Ret r :: T2 ++ spawned p w, w').
Proof.
  revert T2 w. induction p as [r0|c k IH]; intros T2 w; simpl.
  - intros [= -> ->]. by rewrite app_nil_r.
  - destruct (alone c w) as [a w1] eqn:Ha. intros Hh. eapply rtc_l.
    + apply (pstep_call _ _ _ _ _ _ _ _ _ a w1). pose proof (alone_exec c w) as He. by rewrite Ha in He.
    + rewrite app_assoc. apply IH, Hh.
Qed.
End Alone.

(** ** An example: one connection, one route, one issue *)

Definition ex_db (rows : list Dispatch) : db :=
  mkDb [mkConnection "alice" "gh" "org/repo" "" "gh-token" None] [mkRoute "alice" "gh" "dev" "code"] rows ∅ [] [] 1.
Definition ex_world (rows : list Dispatch) : world :=
  mkWorld (ex_db rows) (list_to_set (d_ID <$> rows)) ∅ [].
Definition ex_outside : outside :=
  mkOutside [mkIssue 7 ISSUE_STATE_OPEN ["scope:dev"; "bug"]] (10 * Hour) (10 * Hour) "run-1" (AgentArtifact "patch")
    (fun _ => false).
Definition ex_dispatcher : Dispatcher := mkDispatcher None true 0 true "https://forge/org/repo.git".
Definition ex_row : Dispatch :=
  mkDispatch "old" "alice" "gh" 5 "dev" "code" "run-0" 0 DISPATCH_STATE_QUEUED "" DISPATCH_FAILURE_UNSPECIFIED false
    (2 * Hour) 0 0.
Definition ex_marshal (_ : TrackerDispatchInput) : string + string := inl "{}".

(** The tick dispatches the issue, and the run it launches ends well. *)
Definition ex_tick : tprog unit := _ ← Tick ex_marshal ex_dispatcher "alice" "gh"; mret tt.
Definition ex_after_tick : world := (handle (alone ex_outside) ex_tick (ex_world [])).2.
Definition ex_threads : list (tprog unit) := spawned ex_outside spawn ex_tick (ex_world []).
Definition ex_after_run : world :=
  match ex_threads with p :: _ => (handle (alone ex_outside) p ex_after_tick).2 | [] => ex_after_tick end.

Example ex_tick_runs :
  map d_State (t_dispatches (w_db ex_after_tick)) = [DISPATCH_STATE_RUNNING] /\ length ex_threads = 1%nat.
Proof. vm_compute. done. Qed.

Example ex_run_done : map d_State (t_dispatches (w_db ex_after_run)) = [DISPATCH_STATE_DONE].
Proof. vm_compute. done. Qed.
