(* ===== verification/TrackerWrite.v ===== *)
(** * The tracker's write verbs and the chain guards

    internal/tracker/store.go, RecordChild and reserveChild: the reservation protocol that
    bounds how many follow-ups a run may file and how deep they may be; and the handlers
    of internal/server/tracker_create_server.go and tracker_write_server.go that file issues and
    set labels.  The handlers' requests are named by their fields.  [now], [st] and [ctx] are the clock, the
    scope counters and the caller's context of package auth (Auth.v); [configured] is
    whether the daemon has a tracker store, and [run_info] the run registry's skill and
    model of a run. *)

From S2P Require Import Prelude Prog GoStrings GoUtf8 Labels TrackerStore TrackerApi Identity Auth.
From S2P Require Import TrackerAlone.
From Stdlib Require Import Ascii.
#[local] Open Scope string_scope.
#[local] Open Scope list_scope.
#[local] Open Scope Z_scope.

(** ** Reservations *)

Inductive child_error :=
| ChMissing (field : string)
| ChDepthExceeded (depth : Z)
| ChFanoutExceeded (claimed : Z)
| ChLock (m : string) | ChRead (m : string) | ChReserve (m : string)
| ChCreate (m : string)
| ChRelease (m : string) (cause : string).

(** The lineage row that was recorded; or LineageRecordError, with the row that is
    missing; or an error before anything was created. *)
Inductive child_result :=
| Recorded (l : Lineage)
| LineageRecordError (l : Lineage) (m : string)
| ChildErr (e : child_error).

Definition with_depth (depth : Z) (l : Lineage) : Lineage :=
  mkLineage (l_Username l) (l_Connection l) (l_ChildNumber l) (l_ParentNumber l) (l_CreatedByRun l) depth.
Definition with_child (n : Z) (l : Lineage) : Lineage :=
  mkLineage (l_Username l) (l_Connection l) n (l_ParentNumber l) (l_CreatedByRun l) (l_Depth l).

Definition lineage_key (l : Lineage) : run_key := (l_Username l, l_Connection l, l_CreatedByRun l).

(** [defer tx.Rollback], on the way out with an error. *)
Definition abort (k : run_key) (e : child_error) : tprog (Z * Lineage + child_error) :=
  _ ← call (CTxRollback k); mret (inr e).

Definition reserveChild (l : Lineage) (maxDepth maxChildren : Z) : tprog (Z * Lineage + child_error) :=
  let k := lineage_key l in
  locked ← call (CLockRun k);
  match locked with
  | Some m => mret (inr (ChLock m))
  | None =>
      parentDepth ← call (CTxIssueDepth (l_Username l) (l_Connection l) (l_ParentNumber l));
      match parentDepth with
      | inr m => abort k (ChRead m)
      | inl parentDepth =>
          runDepth ← call (CTxRunDispatchDepth k);
          match runDepth with
          | inr m => abort k (ChRead m)
          | inl runDepth =>
              let depth := wrap i32 (Z.max parentDepth runDepth + 1) in
              if (0 <? maxDepth) && (maxDepth <? depth) then abort k (ChDepthExceeded depth)
              else
                counts ← call (CTxClaimedCount k);
                match counts with
                | inr m => abort k (ChRead m)
                | inl (recorded, reserved) =>
                    let claimed := wrap i32 (recorded + reserved) in
                    if (0 <? maxChildren) && (maxChildren <=? claimed) then abort k (ChFanoutExceeded claimed)
                    else
                      id ← call (CTxReserve k);
                      mret (match id with
                            | inr m => inr (ChReserve m)
                            | inl id => inl (id, with_depth depth l)
                            end)
                end
          end
      end
  end.

Definition RecordChild (l : Lineage) (maxDepth maxChildren : Z) (issue : NewIssue)
  : tprog (child_result * option Issue) :=
  if String.eqb (l_Username l) "" || String.eqb (l_Connection l) ""
  then mret (ChildErr (ChMissing "username and connection"), None)
  else if l_ParentNumber l <=? 0 then mret (ChildErr (ChMissing "parent_number"), None)
  else if String.eqb (l_CreatedByRun l) "" then mret (ChildErr (ChMissing "created_by_run"), None)
  else
    reserved ← reserveChild l maxDepth maxChildren;
    match reserved with
    | inr e => mret (ChildErr e, None)
    | inl (id, l) =>
        created ← call (CCreateIssue (Some (lineage_key l)) issue);
        match created with
        | inr m =>
            err ← call (CReleaseReservation id);
            mret (ChildErr (match err with Some r => ChRelease r m | None => ChCreate m end), None)
        | inl child =>
            let l := with_child (is_Number child) l in
            err ← call (CRecordReservedChild l id);
            mret (match err with Some m => LineageRecordError l m | None => Recorded l end, Some child)
        end
    end.

(** ** The handlers *)

Inductive rejection :=
| RjAuth (e : auth_error)
| RjUnavailable
| RjInvalid (what : string)
| RjBinding (bound : string)
| RjNotFound
| RjStore (m : string)
| RjLabels (e : label_error)
| RjWriter (m : string)
| RjDepth (max : Z) | RjFanout (max : Z)
| RjUpstream (m : string)
| RjLineage (e : child_error)
| RjLineageCheck (m : string)
| RjOutsideLineage.

Definition replace_byte (b : ascii) (s : string) : string :=
  (fix go (s : string) : string :=
     match s with
     | "" => ""
     | String a s' => String (if Ascii.eqb a b then " "%char else a) (go s')
     end) s.

(** [NewReplacer] with two one-byte patterns. *)
Definition sanitizeIssueTitle (title : string) : string :=
  TrimSpace (Sanitize (replace_byte newline (replace_byte (byte_at 13) title))).

Fixpoint dedupe_from (seen : gset string) (l : list string) : list string :=
  match l with
  | [] => []
  | x :: rest =>
      let x := TrimSpace x in
      if bool_decide (x ∈ seen) then dedupe_from seen rest else x :: dedupe_from ({[x]} ∪ seen) rest
  end.
Definition dedupeLabels (l : list string) : list string := dedupe_from ∅ l.
Definition trimLabels (l : list string) : list string := map TrimSpace l.
Definition appendUniqueLabel (labels : list string) (label : string) : list string :=
  if existsb (String.eqb label) labels then labels else labels ++ [label].

Definition anyScopeLabel (add remove : list string) : bool := existsb IsScopeLabel add || existsb IsScopeLabel remove.
Definition anyGateLabel (labels : list string) : bool := existsb IsGateLabel labels.

Definition ScopeTrackerWrite : string := "tracker:write".

Definition enforceConnectionBinding (ctx : Context) (connectionName : string) : option rejection :=
  let '(bound, present) := TrackerConnFromGRPCContext ctx in
  if negb present then None
  else if negb (String.eqb bound connectionName) then Some (RjBinding bound) else None.

Section Handlers.
Context (now : Time) (st : scope_state) (ctx : Context) (configured : bool) (run_info : string -> string * string).

Definition identityFromContext : Identity :=
  let '(runID, hasRun) := RunIDFromGRPCContext ctx in
  if negb hasRun || String.eqb runID "" then
    let '(username, _, _) := SubjectFromGRPCContext ctx in mkIdentity username "operator" ""
  else mkIdentity runID (run_info runID).1 (run_info runID).2.

(** The calling run, if the caller is one. *)
Definition calling_run : option string :=
  let '(runID, isRun) := RunIDFromGRPCContext ctx in
  if isRun && negb (String.eqb runID "") then Some runID else None.

(** What both handlers check first. *)
Definition may_write (username : string) : option rejection :=
  match (RequireScope now ctx ScopeTrackerWrite st).1 with
  | Some e => Some (RjAuth e)
  | None =>
      if negb configured then Some RjUnavailable
      else if String.eqb username "" then Some (RjInvalid "username")
      else match AuthorizeTenant ctx username with
           | Some e => Some (RjAuth e)
           | None => None
           end
  end.

Definition map_conn_error (e : conn_error) : rejection :=
  match e with EConnNotFound => RjNotFound | EConnStore m => RjStore m end.

(** The back-link and the audit row, and the answer. *)
Definition issue_created (u c : string) (parent : Z) (title : string) (created : Issue) : tprog (Issue + rejection) :=
  (if 0 <? parent then
     _ ← call (CComment parent ("Filed follow-up #" +:+ Itoa (is_Number created) +:+ ": " +:+ title +:+ nl +:+ nl
                                +:+ Stamp identityFromContext KindComment)); mret tt
   else mret tt) ≫= fun _ : unit =>
  _ ← call (CAudit "tracker.issue_created" u c (is_Number created));
  mret (inl created).

Definition CreateTrackerIssue (username connection reqTitle body : string) (parent : Z) (reqLabels : list string)
  : tprog (Issue + rejection) :=
  match may_write username with
  | Some e => mret (inr e)
  | None =>
      let title := sanitizeIssueTitle reqTitle in
      if String.eqb title "" then mret (inr (RjInvalid "title"))
      else if parent <? 0 then mret (inr (RjInvalid "parent_number"))
      else if (match calling_run with Some _ => true | None => false end) && (parent =? 0)
      then mret (inr (RjInvalid "parent_number is required for a run-scoped token"))
      else match enforceConnectionBinding ctx connection with
           | Some e => mret (inr e)
           | None =>
               record ← call (CGetConnection username connection);
               match record with
               | inr e => mret (inr (map_conn_error e))
               | inl record =>
                   let policy := PolicyFromProto (cn_Policy record) in
                   let labels := dedupeLabels reqLabels in
                   match CheckLabels policy labels (match calling_run with Some _ => true | None => false end) with
                   | Some e => mret (inr (RjLabels e))
                   | None =>
                       let labels := match calling_run with
                                     | Some _ => if AutoChain policy then labels
                                                 else appendUniqueLabel labels LabelNeedsApproval
                                     | None => labels
                                     end in
                       writer ← call (CResolveWriter record);
                       match writer with
                       | Some m => mret (inr (RjWriter m))
                       | None =>
                           let issue := mkNewIssue title (composeIssueBody body parent identityFromContext) labels in
                           match calling_run with
                           | Some runID =>
                               r ← RecordChild (mkLineage username connection 0 parent runID 0)
                                     (MaxDepth policy) (MaxChildrenPerRun policy) issue;
                               match r with
                               | (Recorded _, Some created) | (LineageRecordError _ _, Some created) =>
                                   issue_created username connection parent title created
                               | (ChildErr (ChDepthExceeded _), _) => mret (inr (RjDepth (MaxDepth policy)))
                               | (ChildErr (ChFanoutExceeded _), _) =>
                                   mret (inr (RjFanout (MaxChildrenPerRun policy)))
                               | (ChildErr (ChCreate m), _) | (ChildErr (ChRelease _ m), _) => mret (inr (RjUpstream m))
                               | (ChildErr e, _) => mret (inr (RjLineage e))
                               | (_, None) => mret (inr (RjLineage (ChMissing "child")))
                               end
                           | None =>
                               created ← call (CCreateIssue None issue);
                               match created with
                               | inr m => mret (inr (RjUpstream m))
                               | inl created => issue_created username connection parent title created
                               end
                           end
                       end
                   end
               end
           end
  end.

(** From the credential on; [None] is success. *)
Definition send_labels (record : Connection) (username connection : string) (number : Z)
  (add remove : list string) : tprog (option rejection) :=
  writer ← call (CResolveWriter record);
  match writer with
  | Some m => mret (Some (RjWriter m))
  | None =>
      err ← call (CSetLabels number add remove);
      match err with
      | Some m => mret (Some (RjUpstream m))
      | None =>
          _ ← call (CAudit "tracker.set_labels" username connection number);
          mret None
      end
  end.

Definition SetTrackerIssueLabels (username connection : string) (number : Z) (reqAdd reqRemove : list string)
  : tprog (option rejection) :=
  match may_write username with
  | Some e => mret (Some e)
  | None =>
      if match reqAdd, reqRemove with [], [] => true | _, _ => false end then mret (Some (RjInvalid "labels"))
      else match enforceConnectionBinding ctx connection with
           | Some e => mret (Some e)
           | None =>
               record ← call (CGetConnection username connection);
               match record with
               | inr e => mret (Some (map_conn_error e))
               | inl record =>
                   let policy := PolicyFromProto (cn_Policy record) in
                   let add := trimLabels reqAdd in
                   let remove := trimLabels reqRemove in
                   match CheckLabels policy (add ++ remove) (match calling_run with Some _ => true | None => false end) with
                   | Some e => mret (Some (RjLabels e))
                   | None =>
                       refused ← match calling_run with
                                 | Some runID =>
                                     if anyScopeLabel add remove || anyGateLabel remove then
                                       own ← call (CIssueInRunLineage username connection runID number);
                                       mret (match own with
                                             | inr m => Some (RjLineageCheck m)
                                             | inl false => Some RjOutsideLineage
                                             | inl true => None
                                             end)
                                     else mret None
                                 | None => mret None
                                 end;
                       match refused with
                       | Some e => mret (Some e)
                       | None =>
                           send_labels record username connection number add remove
                       end
                   end
               end
           end
  end.
End Handlers.

(** ** What a run's token can write *)

Lemma CheckLabels_ok p labels runToken :
  CheckLabels p labels runToken = None ->
  forall l, l ∈ labels -> ValidateLabel l = None /\ LabelAllowed p l = true /\
                          (runToken = true -> IsReservedStateLabel l = false).
Proof.
  induction labels as [|x labels IH]; cbn [CheckLabels]; intros Hc l Hl; [by apply elem_of_nil in Hl|].
  destruct (ValidateLabel x) eqn:Hv; [done|].
  destruct (runToken && IsReservedStateLabel x) eqn:Hr; [done|].
  destruct (LabelAllowed p x) eqn:Ha; [|done]. cbn [negb] in Hc.
  apply elem_of_cons in Hl as [->|Hl]; [|by apply IH]. split_and!; [done|done|]. intros ->. done.
Qed.

Lemma ValidateLabel_no_comma l : ValidateLabel l = None -> contains_char "," l = false.
Proof.
  unfold ValidateLabel. destruct (String.eqb l ""); [done|]. destruct (negb _); [done|].
  by destruct (contains_char "," l).
Qed.

Lemma validateWireLabels_ok lists :
  (forall l, l ∈ concat lists -> ValidateLabel l = None) -> validateWireLabels lists = None.
Proof.
  unfold validateWireLabels. induction (concat lists) as [|x ls IH]; intros Hall; [done|].
  csimpl. rewrite (Hall x) by by left. apply IH. intros l Hl. apply Hall. by right.
Qed.

(** The label list as it reads on GitLab's side of the wire. *)
Lemma wire_reads_back labels :
  labels <> [] -> (forall l, l ∈ labels -> ValidateLabel l = None) -> split_char "," (join_char "," labels) = labels.
Proof.
  intros Hne Hall. apply split_join_char; [|done]. apply Forall_forall. intros l Hl. by apply ValidateLabel_no_comma, Hall.
Qed.

(** No state label of the dispatcher, in any casing, with any space around it. *)
Definition no_state_label (labels : list string) : Prop :=
  forall l w, l ∈ labels -> w ∈ ReservedStateLabels -> EqualFold (TrimSpace l) w = false.

Section Safety.
Context (now : Time) (st : scope_state) (ctx : Context) (configured : bool).

Abbreviation plain_wp := (wp (A := ans) (fun _ _ _ => True) log) (only parsing).

(** The caller may write to the tenant's connection. *)
Definition entitled (username connection : string) : Prop :=
  (RequireScope now ctx ScopeTrackerWrite st).1 = None /\ AuthorizeTenant ctx username = None /\
  (forall bound, TrackerConnFromGRPCContext ctx = (bound, true) -> bound = connection).

Lemma may_write_None username :
  may_write now st ctx configured username = None ->
  (RequireScope now ctx ScopeTrackerWrite st).1 = None /\ AuthorizeTenant ctx username = None.
Proof. unfold may_write. repeat case_match; naive_solver. Qed.

Lemma binding_None connection bound :
  enforceConnectionBinding ctx connection = None -> TrackerConnFromGRPCContext ctx = (bound, true) -> bound = connection.
Proof.
  unfold enforceConnectionBinding. intros Hb Heq. rewrite Heq in Hb. simpl in Hb.
  by destruct (String.eqb_spec bound connection).
Qed.

(** What the labels of a call stand for: the policy that was read admits each one, and
    what GitLab makes of the joined string is the same list. *)
Definition admitted (p : Policy) (labels : list string) : Prop :=
  (forall l, l ∈ labels -> ValidateLabel l = None /\ existsb (fun g => MatchLabelGlob g l) (LabelAllowList p) = true) /\
  (labels <> [] -> split_char "," (join_char "," labels) = labels).

Lemma CheckLabels_admitted p labels runToken : CheckLabels p labels runToken = None -> admitted p labels.
Proof.
  intros Hc. pose proof (CheckLabels_ok _ _ _ Hc) as Hok. split.
  - intros l Hl. destruct (Hok l Hl) as (Hv & Ha & _). split; [done|]. unfold LabelAllowed in Ha. by rewrite Hv in Ha.
  - intros Hne. apply wire_reads_back; [done|]. intros l Hl. by apply Hok.
Qed.

Lemma CheckLabels_no_state p labels : CheckLabels p labels true = None -> no_state_label labels.
Proof.
  intros Hc l w Hl Hw. destruct (CheckLabels_ok _ _ _ Hc l Hl) as (_ & _ & Hr). specialize (Hr eq_refl).
  unfold IsReservedStateLabel in Hr. apply not_true_iff_false. intros He. rewrite <- not_true_iff_false in Hr.
  apply Hr, existsb_exists. exists w. split; [by apply list_elem_of_In|done].
Qed.

Lemma admitted_app p l1 l2 : admitted p (l1 ++ l2) -> admitted p l1 /\ admitted p l2.
Proof.
  intros [Hall _]. split; split; intros; try (apply Hall, elem_of_app; by auto);
    apply wire_reads_back; try done; intros l Hl; apply Hall, elem_of_app; by auto.
Qed.

(** ** SetTrackerIssueLabels *)

Definition labels_justified (username connection : string) (number : Z) (tr : list tevent) (c : tcall) : Prop :=
  match c with
  | CSetLabels n add remove =>
      n = number /\ entitled username connection /\
      exists record, existT (CGetConnection username connection) (inl record) ∈ tr /\
        admitted (PolicyFromProto (cn_Policy record)) add /\
        admitted (PolicyFromProto (cn_Policy record)) remove /\
        forall runID, calling_run ctx = Some runID ->
          no_state_label (add ++ remove) /\
          ((exists l, l ∈ add ++ remove /\ IsScopeLabel l = true) \/ (exists l, l ∈ remove /\ IsGateLabel l = true) ->
           existT (CIssueInRunLineage username connection runID number) (inl true) ∈ tr)
  | _ => True
  end.

Lemma exists_labels (f : string -> bool) labels : existsb f labels = true <-> exists l, l ∈ labels /\ f l = true.
Proof. rewrite existsb_exists. by setoid_rewrite list_elem_of_In. Qed.

Lemma lineage_needed add remove :
  (exists l, l ∈ add ++ remove /\ IsScopeLabel l = true) \/ (exists l, l ∈ remove /\ IsGateLabel l = true) ->
  anyScopeLabel add remove || anyGateLabel remove = true.
Proof.
  unfold anyScopeLabel, anyGateLabel. rewrite !orb_true_iff, !exists_labels.
  intros [(l & [Hl|Hl]%elem_of_app & Hs)|(l & Hl & Hg)]; eauto 6.
Qed.

Lemma SetTrackerIssueLabels_wp username connection number reqAdd reqRemove :
  plain_wp (labels_justified username connection number)
    (SetTrackerIssueLabels now st ctx configured username connection number reqAdd reqRemove) (fun _ _ => True) [].
Proof.
  unfold SetTrackerIssueLabels. destruct (may_write now st ctx configured username) eqn:Hmay; [done|].
  destruct (match reqAdd with [] => _ | _ => _ end); [done|].
  destruct (enforceConnectionBinding ctx connection) eqn:Hbind; [done|].
  apply wp_call_bind; [done|]. intros [record|e] _; [|done].
  set (add := trimLabels reqAdd). set (remove := trimLabels reqRemove).
  destruct (CheckLabels _ (add ++ remove) _) eqn:Hc; [done|].
  assert (Hent : entitled username connection).
  { destruct (may_write_None _ Hmay) as [? ?]. split_and!; [done|done|]. intros bound. by apply binding_None. }
  pose proof (CheckLabels_admitted _ _ _ Hc) as [Hadd Hrem]%admitted_app.
  assert (Htail : forall tr : list tevent, existT (CGetConnection username connection) (inl record) ∈ tr ->
    (forall runID, calling_run ctx = Some runID -> anyScopeLabel add remove || anyGateLabel remove = true ->
       existT (CIssueInRunLineage username connection runID number) (inl true) ∈ tr) ->
    plain_wp (labels_justified username connection number)
      (send_labels record username connection number add remove) (fun _ _ => True) tr).
  { intros tr Hget Hlin. unfold send_labels. apply wp_call_bind; [done|]. intros [m|] _; [done|].
    apply wp_call_bind.
    - cbn [labels_justified]. split_and!; [done|done|]. exists record.
      split_and!; [apply elem_of_app; by left|done|done|]. intros runID Hrun. rewrite Hrun in Hc. split.
      + by eapply CheckLabels_no_state.
      + intros Hneed. apply elem_of_app. left. apply Hlin; [done|]. by apply lineage_needed.
    - intros [m|] _; [done|]. by apply wp_call_bind. }
  destruct (calling_run ctx) as [runID|] eqn:Hrun.
  - destruct (anyScopeLabel add remove || anyGateLabel remove) eqn:Hneed.
    + apply wp_assoc, wp_call_bind; [done|]. intros [[]|m] _; apply wp_ret_bind; [|done..].
      apply Htail; [apply elem_of_app; left; apply elem_of_app; right; by left|].
      intros r [= <-] _. apply elem_of_app. right. by left.
    + apply wp_ret_bind, Htail; [by left|]. by intros r _ ?.
  - apply wp_ret_bind, Htail; [by left|]. by intros.
Qed.
(** ** CreateTrackerIssue *)

(** The reservation that bounds a run's follow-ups, as the last five calls: the run's lock,
    the two depths and the claims counted under it, and the slot. *)
Definition reserved_under_lock (username connection runID : string) (parent : Z) (p : Policy) (tr : list tevent) : Prop :=
  let k := (username, connection, runID) in
  exists tr0 parentDepth runDepth recorded reserved id,
    tr = tr0 ++ [existT (CLockRun k) None; existT (CTxIssueDepth username connection parent) (inl parentDepth);
                 existT (CTxRunDispatchDepth k) (inl runDepth); existT (CTxClaimedCount k) (inl (recorded, reserved));
                 existT (CTxReserve k) (inl id)] /\
    (0 < MaxDepth p -> wrap i32 (Z.max parentDepth runDepth + 1) <= MaxDepth p) /\
    (0 < MaxChildrenPerRun p -> wrap i32 (recorded + reserved) < MaxChildrenPerRun p).

(** What each call that writes is preceded by. *)
Definition create_justified (username connection : string) (parent : Z) (tr : list tevent) (c : tcall) : Prop :=
  match c with
  | CCreateIssue owner issue =>
      entitled username connection /\ ni_Title issue <> "" /\
      exists record, existT (CGetConnection username connection) (inl record) ∈ tr /\
        let p := PolicyFromProto (cn_Policy record) in
        match calling_run ctx with
        | Some runID =>
            owner = Some (username, connection, runID) /\ 0 < parent /\
            reserved_under_lock username connection runID parent p tr /\
            no_state_label (ni_Labels issue) /\
            (AutoChain p = false -> LabelNeedsApproval ∈ ni_Labels issue) /\
            (forall l, l ∈ ni_Labels issue -> LabelAllowed p l = true \/ AutoChain p = false /\ l = LabelNeedsApproval)
        | None => owner = None /\ (forall l, l ∈ ni_Labels issue -> LabelAllowed p l = true)
        end
  | CComment n _ => n = parent /\ 0 < parent /\ exists owner issue created, existT (CCreateIssue owner issue) (inl created) ∈ tr
  | CRecordReservedChild l _ =>
      exists owner issue created, existT (CCreateIssue owner issue) (inl created) ∈ tr /\ l_ChildNumber l = is_Number created
  | CSetLabels _ _ _ => False
  | _ => True
  end.

Lemma CheckLabels_allowed p labels runToken : CheckLabels p labels runToken = None ->
  forall l, l ∈ labels -> LabelAllowed p l = true.
Proof. intros Hc l Hl. by apply (CheckLabels_ok _ _ _ Hc). Qed.

Lemma elem_of_appendUnique labels x l : l ∈ appendUniqueLabel labels x <-> l ∈ labels \/ l = x.
Proof.
  unfold appendUniqueLabel. destruct (existsb (String.eqb x) labels) eqn:He.
  - apply existsb_exists in He as (y & Hy%list_elem_of_In & <-%String.eqb_eq). naive_solver.
  - rewrite elem_of_app, list_elem_of_singleton. done.
Qed.

Lemma no_state_appendUnique labels : no_state_label labels -> no_state_label (appendUniqueLabel labels LabelNeedsApproval).
Proof.
  intros Hns l w [Hl| ->]%elem_of_appendUnique Hw; [by apply Hns|].
  assert (forallb (fun w => negb (EqualFold (TrimSpace LabelNeedsApproval) w)) ReservedStateLabels = true) as Hall
    by (vm_compute; reflexivity).
  rewrite forallb_forall in Hall. apply negb_true_iff, Hall. by apply list_elem_of_In.
Qed.

Section Create.
Context (run_info : string -> string * string) (username connection : string) (parent : Z).

Abbreviation cwp := (plain_wp (create_justified username connection parent)) (only parsing).

Lemma issue_created_wp title created owner issue tr :
  existT (CCreateIssue owner issue) (inl created) ∈ tr ->
  cwp (issue_created ctx run_info username connection parent title created) (fun _ _ => True) tr.
Proof.
  intros Hin. unfold issue_created. destruct (Z.ltb_spec 0 parent) as [Hp|Hp].
  - apply wp_assoc, wp_call_bind; [cbn; eauto 6|]. intros a _. by apply wp_call_bind.
  - by apply wp_call_bind.
Qed.

(** A slot is only returned with the five calls that justify it. *)
Lemma reserveChild_wp l p tr :
  l_Username l = username -> l_Connection l = connection -> l_ParentNumber l = parent ->
  cwp (reserveChild l (MaxDepth p) (MaxChildrenPerRun p))
    (fun tr' r => tr `prefix_of` tr' /\ forall id l', r = inl (id, l') ->
       reserved_under_lock username connection (l_CreatedByRun l) parent p tr' /\ lineage_key l' = lineage_key l) tr.
Proof.
  intros Hu Hc Hp. unfold reserveChild, lineage_key. rewrite Hu, Hc, Hp.
  set (k := (username, connection, l_CreatedByRun l)). set (mid := fun tr' r => _ /\ _).
  assert (Hfail : forall e es, mid (tr ++ es) (inr e)) by (split; [by eexists|done]).
  assert (Habort : forall e es, cwp (abort k e) mid (tr ++ es)).
  { intros e es. unfold abort. apply wp_call_bind; [done|]. intros a _. unfold log. rewrite <- app_assoc. apply Hfail. }
  apply wp_call_bind; [done|]. intros [m|] _; [apply Hfail|].
  apply wp_call_bind; [done|]. unfold log. intros [pd|m] _; rewrite <- app_assoc; [|apply Habort].
  apply wp_call_bind; [done|]. unfold log. intros [rd|m] _; rewrite <- app_assoc; [|apply Habort].
  destruct (_ && _) eqn:Hd; [apply Habort|].
  apply wp_call_bind; [done|]. unfold log. intros [[rc rs]|m] _; rewrite <- app_assoc; [|apply Habort].
  destruct (_ && (MaxChildrenPerRun p <=? _)) eqn:Hf; [apply Habort|].
  apply wp_call_bind; [done|]. unfold log. intros [id|m] _; rewrite <- app_assoc; [|apply Hfail].
  split; [by eexists|]. intros id' l' [= <- <-]. split; [|by unfold with_depth; cbn; rewrite Hu, Hc].
  exists tr, pd, rd, rc, rs, id. split_and!; [done|lia|lia].
Qed.

(** What a child needs to be filed. *)
Definition child_cleared (runID : string) (p : Policy) (record : Connection) (issue : NewIssue) : Prop :=
  entitled username connection /\ ni_Title issue <> "" /\ calling_run ctx = Some runID /\ 0 < parent /\
  p = PolicyFromProto (cn_Policy record) /\ no_state_label (ni_Labels issue) /\
  (AutoChain p = false -> LabelNeedsApproval ∈ ni_Labels issue) /\
  (forall l, l ∈ ni_Labels issue -> LabelAllowed p l = true \/ AutoChain p = false /\ l = LabelNeedsApproval).

Lemma RecordChild_wp runID p record issue tr :
  child_cleared runID p record issue -> existT (CGetConnection username connection) (inl record) ∈ tr ->
  cwp (RecordChild (mkLineage username connection 0 parent runID 0) (MaxDepth p) (MaxChildrenPerRun p) issue)
    (fun tr' r => forall created, r.2 = Some created -> existT (CCreateIssue (Some (username, connection, runID)) issue) (inl created) ∈ tr') tr.
Proof.
  intros (Hent & Htitle & Hrun & Hpar & Hp & Hns & Hgate & Hall) Hget.
  unfold RecordChild. cbn [l_Username l_Connection l_ParentNumber l_CreatedByRun].
  destruct (_ || _); [done|]. destruct (parent <=? 0); [done|]. destruct (String.eqb runID ""); [done|].
  eapply wp_seq; [by apply reserveChild_wp|]. intros tr' [[id l']|e] [[ext ->] Hres]; [|done].
  destruct (Hres id l' eq_refl) as [Hcalls Hkey]. cbn in Hkey. rewrite Hkey.
  apply wp_call_bind.
  - cbn [create_justified]. split_and!; [done|done|]. exists record. split; [apply elem_of_app; by left|].
    rewrite Hrun, <- Hp. done.
  - intros [created|m] _; [|by apply wp_call_bind; [done|]; intros [?|] _].
    apply wp_call_bind; [cbn [create_justified]; do 3 eexists; split; [apply elem_of_app; right; by left|done]|].
    intros err _ created' Heq. assert (created' = created) as -> by (destruct err; cbn in Heq; congruence).
    apply elem_of_app; left. apply elem_of_app; right. by left.
Qed.

Lemma CreateTrackerIssue_wp reqTitle body reqLabels :
  cwp (CreateTrackerIssue now st ctx configured run_info username connection reqTitle body parent reqLabels)
    (fun _ _ => True) [].
Proof.
  unfold CreateTrackerIssue. destruct (may_write now st ctx configured username) eqn:Hmay; [done|].
  destruct (String.eqb_spec (sanitizeIssueTitle reqTitle) "") as [|Htitle]; [done|].
  destruct (Z.ltb_spec parent 0) as [|Hpos]; [done|].
  destruct (_ && (parent =? 0)) eqn:Hpar; [done|].
  destruct (enforceConnectionBinding ctx connection) eqn:Hbind; [done|].
  apply wp_call_bind; [done|]. intros [record|e] _; [|done].
  set (p := PolicyFromProto (cn_Policy record)).
  destruct (CheckLabels p (dedupeLabels reqLabels) _) eqn:Hc; [done|].
  apply wp_call_bind; [done|]. intros [m|] _; [done|].
  assert (Hent : entitled username connection).
  { destruct (may_write_None _ Hmay) as [? ?]. split_and!; [done|done|]. intros bound. by apply binding_None. }
  destruct (calling_run ctx) as [runID|] eqn:Hrun.
  - eapply wp_seq.
    + apply (RecordChild_wp runID p record); [|apply elem_of_app; left; by left].
      pose proof (CheckLabels_no_state _ _ Hc) as Hns. pose proof (CheckLabels_allowed _ _ _ Hc) as Hall.
      split_and!; [done..|lia|done| | |]; cbn [ni_Labels]; destruct (AutoChain p).
      * done.
      * by apply no_state_appendUnique.
      * done.
      * intros _. apply elem_of_appendUnique. by right.
      * eauto.
      * intros l [Hl| ->]%elem_of_appendUnique; eauto.
    + intros tr' [[l|l m|e] [created|]] Hmade; try done;
        try (destruct e; done);
        eapply issue_created_wp, (Hmade created); reflexivity.
  - apply wp_call_bind.
    + cbn [create_justified]. split_and!; [done|done|]. exists record. split; [apply elem_of_app; left; by left|].
      rewrite Hrun. split; [done|]. exact (CheckLabels_allowed _ _ _ Hc).
    + intros [created|m] _; [|done]. eapply issue_created_wp. apply elem_of_app. right. by left.
Qed.
End Create.
End Safety.


(** C15: What SetTrackerIssueLabels sends to the forge.  The caller holds tracker:write, may act for the
    tenant, and is bound to this connection if it is bound to one.  Every label of both lists
    is valid and admitted by an allow-list entry of the connection's policy as it was read
    in this call, and GitLab's comma-joined form of each list reads back as that list, so
    one label cannot smuggle in another.  For a run's token, moreover, no label is one of the
    dispatcher's state labels in any casing or padding, and if a scope label is touched or
    the approval gate removed, the store has said that the issue is in the run's lineage. *)
Theorem SetTrackerIssueLabels_safe now st ctx configured username connection number reqAdd reqRemove
  before n add remove a after q :
  runs (SetTrackerIssueLabels now st ctx configured username connection number reqAdd reqRemove)
    (before ++ existT (CSetLabels n add remove) a :: after) q ->
  labels_justified now st ctx username connection number before (CSetLabels n add remove).
Proof.
  intros Hruns. eapply (wp_log_before (fun _ _ => True) (labels_justified now st ctx username connection number));
    [apply SetTrackerIssueLabels_wp|exact Hruns|by apply Forall_forall].
Qed.

(** C14: What CreateTrackerIssue does, call by call, whatever it is answered.  An issue is
    created only for a caller that holds tracker:write, may act for the tenant and is bound
    to this connection if to any, with a title, and with labels that the policy read in this
    call admits.  For a run's token, moreover: the parent is named; the five calls before
    are the run's lock, the parent's depth, the run's dispatch depth, the claims counted and
    the reserved slot, and they respect the policy's depth and fan-out; no label is a state label;
    and without auto_chain the approval gate is among the labels.  The back-link and the
    lineage row are written only after the issue exists; labels are never set separately. *)
Theorem CreateTrackerIssue_safe now st ctx configured run_info username connection reqTitle body parent reqLabels
  before c a after q :
  runs (CreateTrackerIssue now st ctx configured run_info username connection reqTitle body parent reqLabels)
    (before ++ existT c a :: after) q ->
  create_justified now st ctx username connection parent before c.
Proof.
  intros Hruns. eapply (wp_log_before (fun _ _ => True) (create_justified now st ctx username connection parent));
    [apply CreateTrackerIssue_wp|exact Hruns|by apply Forall_forall].
Qed.

(** ** A run writes *)

Definition ex_run_ctx : Context :=
  mkContext None (Some "alice") (Some []) (Some (Some ["tracker:write"])) None None (Some "run-1") (Some "gh").
Definition ex_scopes : scope_state := mkScopeState true 0 0.
Definition ex_run_row : Dispatch :=
  mkDispatch "row" "alice" "gh" 7 "dev" "code" "run-1" 0 DISPATCH_STATE_RUNNING "" DISPATCH_FAILURE_UNSPECIFIED false 0 0 0.

Lemma SetTrackerIssueLabels_safe_witness :
  exists before, labels_justified 0 ex_scopes ex_run_ctx "alice" "gh" 7 before (CSetLabels 7 ["scope:dev"] ["scope:qa"]).
Proof.
  set (f := fun c => match c with
                     | CSetLabels n add remove => bool_decide (n = 7 /\ add = ["scope:dev"] /\ remove = ["scope:qa"])
                     | _ => false end).
  destruct (alone_event ex_outside (fun _ _ => True) f
              (SetTrackerIssueLabels 0 ex_scopes ex_run_ctx true "alice" "gh" 7 [" scope:dev"] ["scope:qa"])
              (ex_world [ex_run_row]))
    as (before & c & a & after & q & Hruns & Hf & _); [done|reflexivity|vm_compute; reflexivity|].
  destruct c; try discriminate Hf. apply bool_decide_eq_true in Hf as (-> & -> & ->).
  exists before. exact (SetTrackerIssueLabels_safe _ _ _ _ _ _ _ _ _ _ _ _ _ _ _ _ Hruns).
Defined.

Definition ex_run_info (_ : string) : string * string := ("code", "model-1").

Lemma CreateTrackerIssue_safe_witness :
  exists before issue, ni_Labels issue = ["scope:qa"; LabelNeedsApproval] /\
    create_justified 0 ex_scopes ex_run_ctx "alice" "gh" 7 before (CCreateIssue (Some ("alice", "gh", "run-1")) issue).
Proof.
  set (f := fun c => match c with
                     | CCreateIssue owner issue =>
                         bool_decide (owner = Some ("alice", "gh", "run-1") /\
                                      ni_Labels issue = ["scope:qa"; LabelNeedsApproval])
                     | _ => false end).
  destruct (alone_event ex_outside (fun _ _ => True) f
              (CreateTrackerIssue 0 ex_scopes ex_run_ctx true ex_run_info "alice" "gh" "follow up" "body" 7 ["scope:qa"])
              (ex_world [ex_run_row]))
    as (before & c & a & after & q & Hruns & Hf & _); [done|reflexivity|vm_compute; reflexivity|].
  destruct c; try discriminate Hf. apply bool_decide_eq_true in Hf as (-> & Hl).
  exists before, i. split; [exact Hl|]. exact (CreateTrackerIssue_safe _ _ _ _ _ _ _ _ _ _ _ _ _ _ _ _ Hruns).
Defined.
