(* ===== verification/DispatchGate.v ===== *)
(** * When a run may begin

    A tick starts a run only for a row that it has just inserted, after it has read the
    issue again and found it open, routed and without any state or gate label, and only
    within the depth the policy allows.  The monitor is the trace of the tick itself. *)

From S2P Require Import Prelude Prog GoStrings GoUtf8 Labels TrackerStore TrackerApi Dispatch DispatchProtocol TrackerAlone.
#[local] Open Scope string_scope.
#[local] Open Scope list_scope.
#[local] Open Scope Z_scope.

(** The store hands back the row it inserted. *)
Definition honest (c : tcall) : ans c -> Prop :=
  match c with
  | CInsertDispatch d0 => fun a => forall row, a = Inserted row -> exists id now, row = new_row id now d0
  | _ => fun _ => True
  end.

Lemma exec_honest w c a w' : exec w c a w' -> honest c a.
Proof.
  intros [s' ids locks Hdb|Hw Hread]; [|by destruct c].
  destruct Hdb as [d id dbnow a s' Hid Hout| | | | | | | | | | | |]; try done. intros row ->.
  assert (Hins : forall r s1, InsertDispatch id dbnow d (w_db w) = (r, s1) ->
                   r = Inserted row -> exists id now, row = new_row id now d).
  { unfold InsertDispatch. intros r s1 Hi ->. repeat case_match; simplify_eq/=; eauto. }
  inversion Hout as [Hr|? [m ?]|? [m ?]]; subst; [|congruence..].
  destruct (InsertDispatch id dbnow d (w_db w)) as [r s1] eqn:Hi. simpl in *. eauto.
Qed.

(** ** The evidence for a start *)

(** No label of the issue is [w], in any casing and with any surrounding space. *)
Definition unmarked (w : string) (labels : list string) : Prop :=
  forall l, l ∈ labels -> EqualFold (TrimSpace l) w = false.

Definition startable (i : Issue) (scope : string) : Prop :=
  is_State i <> ISSUE_STATE_CLOSED /\ ScopeLabelPrefix +:+ scope ∈ is_Labels i /\
  forall w, w ∈ LabelNeedsApproval :: ReservedStateLabels -> unmarked w (is_Labels i).

(** In this order in the trace: the routes; the issue's depth; the new row; the issue as
    read after that. *)
Definition cleared (d : Dispatcher) (u c : string) (tr : list tevent) (req : StartRunRequest) : Prop :=
  exists routes depth d0 row fresh scope before after,
    tr = before ++ existT (CInsertDispatch d0) (Inserted row) :: after /\
    existT (CListRoutes u c) (inl routes) ∈ before /\
    existT (CIssueDepth u c (d_IssueNumber d0)) (inl depth) ∈ before /\
    existT (CGetIssue (d_IssueNumber d0)) (inl fresh) ∈ after /\
    DepthAllowed (effectivePolicy d) depth = true /\
    startable fresh scope /\
    skill_for routes !! scope = Some (sr_SkillID req) /\
    sr_RunID req = d_RunID row.

Lemma containsExact_spec l s : containsExact l s = true <-> s ∈ l.
Proof.
  unfold containsExact. rewrite existsb_exists. split.
  - intros (x & Hx & ->%String.eqb_eq). by apply list_elem_of_In.
  - intros Hs. exists s. split; [by apply list_elem_of_In|apply String.eqb_refl].
Qed.

Lemma hasAnyLabel_false labels want :
  hasAnyLabel labels want = false <-> forall w, w ∈ want -> unmarked w labels.
Proof.
  unfold hasAnyLabel, unmarked. rewrite <- not_true_iff_false, existsb_exists. split.
  - intros Hno w Hw l Hl. apply not_true_iff_false. intros He. apply Hno. exists l.
    split; [by apply list_elem_of_In|]. apply existsb_exists. exists w. split; [by apply list_elem_of_In|done].
  - intros Hno (l & Hl%list_elem_of_In & (w & Hw%list_elem_of_In & He)%existsb_exists).
    by rewrite (Hno w Hw l Hl) in He.
Qed.

Lemma dispatchable_startable i scope : dispatchable i scope = true <-> startable i scope.
Proof.
  unfold dispatchable, startable.
  rewrite !andb_true_iff, !negb_true_iff, bool_decide_eq_false, containsExact_spec, !hasAnyLabel_false.
  split.
  - intros (((Hst & Hx) & Hg) & Hr). split_and!; [done|done|]. intros w [->|Hw]%elem_of_cons; [apply Hg; by left|by apply Hr].
  - intros (Hst & Hx & Hno). refine (conj (conj (conj Hst Hx) _) _).
    + intros w ->%list_elem_of_singleton. apply Hno. by left.
    + intros w Hw. apply Hno. by right.
Qed.

Lemma cleared_mono d u c req tr tr' : tr `prefix_of` tr' -> cleared d u c tr req -> cleared d u c tr' req.
Proof.
  intros [ext ->] (routes & depth & d0 & row & fresh & scope & before & after & -> & H1 & H2 & H3 & H4).
  exists routes, depth, d0, row, fresh, scope, before, (after ++ ext).
  refine (conj _ (conj H1 (conj H2 (conj _ H4)))); [by rewrite <- app_assoc|]. apply elem_of_app. by left.
Qed.

(** ** The pieces that start nothing *)

Definition begins (c : tcall) : Prop := match c with CBeginSkillRun _ => True | _ => False end.

Definition gate_pre (d : Dispatcher) (u c : string) (tr : list tevent) (k : tcall) : Prop :=
  match k with CBeginSkillRun req => cleared d u c tr req | _ => True end.

Lemma gate_pre_other d u c tr k : ~ begins k -> gate_pre d u c tr k.
Proof. by destruct k. Qed.

Create HintDb starts_nothing.

(** Walk through a program that makes no [begins] call. *)
Ltac avoid :=
  repeat first
    [ exact I
    | solve [auto 2 with starts_nothing]
    | progress intros
    | apply avoids_bind
    | (split; [by intros []|])
    | case_match ].

Lemma projectFailure_avoids row t : avoids begins (projectFailure row t).
Proof. unfold projectFailure. avoid. Qed.
Lemma observeEnd_avoids d row : avoids begins (observeEnd d row).
Proof. unfold observeEnd. avoid. Qed.
Lemma endLease_avoids d r : avoids begins (endLease d r).
Proof. unfold endLease. avoid. Qed.
#[local] Hint Resolve projectFailure_avoids observeEnd_avoids endLease_avoids : starts_nothing.

Lemma failSwept_avoids d row from failure reason t : avoids begins (failSwept d row from failure reason t).
Proof. unfold failSwept. avoid. Qed.
Lemma sweep_verdict_avoids d t gr age row : avoids begins (sweep_verdict d t gr age row).
Proof. unfold sweep_verdict. avoid. Qed.
#[local] Hint Resolve failSwept_avoids sweep_verdict_avoids : starts_nothing.

Lemma sweep_rows_avoids d st t gr rows swept : avoids begins (sweep_rows d st t gr rows swept).
Proof. revert swept. induction rows as [|row rows IH]; intros swept; cbn [sweep_rows]; avoid. Qed.
#[local] Hint Resolve sweep_rows_avoids : starts_nothing.
Lemma sweep_avoids d u c : avoids begins (sweep d u c).
Proof. unfold sweep, sweep_state. avoid. Qed.

Lemma warnUnrouted_avoids u c issue sc : avoids begins (warnUnrouted u c issue sc).
Proof. unfold warnUnrouted. avoid. Qed.
#[local] Hint Resolve warnUnrouted_avoids : starts_nothing.

Lemma abandon_avoids row : avoids begins (abandon row).
Proof. unfold abandon. avoid. Qed.
Lemma labelQueued_avoids row : avoids begins (labelQueued row).
Proof. unfold labelQueued. avoid. Qed.
Lemma failStart_avoids d row m : avoids begins (failStart d row m).
Proof. unfold failStart. avoid. Qed.
#[local] Hint Resolve abandon_avoids labelQueued_avoids failStart_avoids : starts_nothing.
Lemma failBeforeStart_avoids d row e : avoids begins (failBeforeStart d row e).
Proof. unfold failBeforeStart. avoid. Qed.
Lemma launch_avoids d runID row : avoids begins (launchDispatchedRun d runID row).
Proof. unfold launchDispatchedRun, RunStarted, projectLabels, markLabelsPending. avoid. Qed.
#[local] Hint Resolve failBeforeStart_avoids launch_avoids : starts_nothing.

(** ** The tick *)

Section Gate.
Context (Marshal : TrackerDispatchInput -> string + string) (d : Dispatcher) (u c : string).

Abbreviation gwp := (wp (A := ans) (fun _ => honest) log (gate_pre d u c)) (only parsing).
(** What a piece guarantees: the trace only grows. *)
Let grows {R} (tr : list tevent) : list tevent -> R -> Prop := fun tr' _ => tr `prefix_of` tr'.

Lemma gate_avoids {R} (p : tprog R) tr : avoids begins p -> gwp p (grows tr) tr.
Proof. intros Hp. eapply avoids_wp; [exact Hp|]. intros. by apply gate_pre_other. Qed.

(** Sequencing. *)
Lemma gate_seq {R Q} (p : tprog R) (f : R -> tprog Q) tr :
  gwp p (grows tr) tr -> (forall tr' r, tr `prefix_of` tr' -> gwp (f r) (grows tr') tr') -> gwp (p ≫= f) (grows tr) tr.
Proof.
  intros Hp Hf. eapply wp_seq; [exact Hp|]. intros tr' r Htr. eapply wp_mono; [|by apply Hf].
  intros tr2 r2 Htr2. unfold grows in *. by etransitivity.
Qed.

Lemma gate_mid {R Q} (p : tprog R) (f : R -> tprog Q) (mid : R -> Prop) tr :
  gwp p (fun tr' r => tr `prefix_of` tr' /\ mid r) tr ->
  (forall tr' r, tr `prefix_of` tr' -> mid r -> gwp (f r) (grows tr') tr') -> gwp (p ≫= f) (grows tr) tr.
Proof.
  intros Hp Hf. eapply wp_seq; [exact Hp|]. intros tr' r [Htr Hm]. eapply wp_mono; [|by apply Hf].
  intros tr2 r2 Htr2. unfold grows in *. by etransitivity.
Qed.

Lemma gate_call {R} k (f : ans k -> tprog R) tr :
  gate_pre d u c tr k -> (forall a, honest k a -> gwp (f a) (grows (tr ++ [existT k a])) (tr ++ [existT k a])) ->
  gwp (call k ≫= f) (grows tr) tr.
Proof.
  intros Hpre Hf. apply wp_call_bind; [done|]. intros a Ha. eapply wp_mono; [|by apply Hf].
  intros tr2 r2 Htr2. unfold grows in *. etransitivity; [|exact Htr2]. by eexists.
Qed.

Lemma StartRun_gate row req tr :
  cleared d u c tr req -> gwp (StartRun d row req) (grows tr) tr.
Proof.
  intros Hcl. unfold StartRun. apply gate_call; [done|]. intros [m|] _; [apply gate_avoids; avoid|].
  apply gate_call; [done|]. intros ? _. apply gate_call.
  - cbn [gate_pre]. eapply cleared_mono; [|exact Hcl]. etransitivity; by eexists.
  - intros a3 _. apply gate_avoids. avoid.
Qed.
(** The row keeps its run. *)
Lemma labelQueued_gate row tr :
  gwp (labelQueued row)
    (fun tr' r => tr `prefix_of` tr' /\ forall row', r = inl row' -> d_RunID row' = d_RunID row) tr.
Proof.
  unfold labelQueued. split; [done|]. intros [m|] _; cbn [wp]; [split; [done|]; intros [?|] _; cbn|];
    (split; [|by intros ? [= <-] || done]); unfold log; rewrite <- ?app_assoc; by eexists.
Qed.

Section Row.
(** The row has been inserted, and the issue has not been read again. *)
Context (routes : list Route) (depth : Z) (d0 row : Dispatch) (scope skillID : string) (tr0 : list tevent).
Hypothesis (Hroutes : existT (CListRoutes u c) (inl routes) ∈ tr0).
Hypothesis (Hdepth : existT (CIssueDepth u c (d_IssueNumber d0)) (inl depth) ∈ tr0).
Hypothesis (Hmax : DepthAllowed (effectivePolicy d) depth = true).
Hypothesis (Hskill : skill_for routes !! scope = Some skillID).
Hypothesis (Hissue : d_IssueNumber row = d_IssueNumber d0).

Definition inserted (tr : list tevent) (after : list tevent) : Prop :=
  tr = tr0 ++ existT (CInsertDispatch d0) (Inserted row) :: after.

Lemma start_row_gate res row' fresh tr after :
  inserted tr after -> d_RunID row' = d_RunID row ->
  existT (CGetIssue (d_IssueNumber d0)) (inl fresh) ∈ after -> startable fresh scope ->
  gwp (start_row Marshal d u c res skillID row') (grows tr) tr.
Proof.
  intros Htr Hrun Hget Hst. unfold start_row. destruct (dispatchInputJSON Marshal row') as [input|m];
    [|apply gate_avoids; avoid].
  apply gate_seq.
  - apply StartRun_gate. exists routes, depth, d0, row, fresh, scope, tr0, after. done.
  - intros tr' r _. apply gate_avoids. avoid.
Qed.

Lemma inserted_grows tr after tr' :
  inserted tr after -> tr `prefix_of` tr' -> exists ext, inserted tr' (after ++ ext).
Proof. intros -> [ext ->]. exists ext. unfold inserted. by rewrite <- app_assoc. Qed.

Lemma dispatch_row_gate res tr after :
  inserted tr after -> gwp (dispatch_row Marshal d u c res scope skillID row) (grows tr) tr.
Proof.
  intros Htr. unfold dispatch_row. apply gate_call; [done|]. intros [m|] _; [apply gate_avoids; avoid|].
  unfold stillDispatchable. apply wp_assoc. apply gate_call; [done|]. intros fresh _.
  set (tr1 := _ ++ _). assert (exists ext, inserted tr1 (after ++ ext) /\
    existT (CGetIssue (d_IssueNumber row)) fresh ∈ after ++ ext) as (ext & Htr1 & Hget).
  { eexists [_; _]. split; [unfold tr1; rewrite Htr; unfold inserted; by rewrite <- !app_assoc|].
    apply elem_of_app. right. right. by left. }
  clearbody tr1. destruct (match fresh with inl i => dispatchable i scope | inr _ => false end) eqn:Hf.
  2: { apply wp_assoc, gate_seq; [apply gate_avoids, abandon_avoids|].
       intros tr' [e|] _; apply wp_ret_bind, gate_avoids; avoid. }
  destruct fresh as [fresh|]; [|done]. apply dispatchable_startable in Hf. rewrite Hissue in Hget.
  apply wp_ret_bind. eapply gate_mid; [apply labelQueued_gate|]. intros tr2 labelled Hpre Hrun.
  destruct labelled as [row'|e]; [|apply gate_avoids; avoid].
  apply gate_call; [done|]. intros [m|] _; [apply gate_avoids; avoid|].
  destruct (inserted_grows tr1 (after ++ ext) (tr2 ++ [existT CCtxErr None])) as [ext' Htr2]; [done| |].
  { etransitivity; [exact Hpre|]. by eexists. }
  eapply start_row_gate; [exact Htr2|by apply Hrun|apply elem_of_app; by left|done].
Qed.
End Row.

(** ** From the list to the row *)

Lemma insert_row_gate routes res issue scope skillID depth tr :
  existT (CListRoutes u c) (inl routes) ∈ tr -> existT (CIssueDepth u c issue) (inl depth) ∈ tr ->
  DepthAllowed (effectivePolicy d) depth = true -> skill_for routes !! scope = Some skillID ->
  gwp (insert_row Marshal d u c res issue scope skillID depth) (grows tr) tr.
Proof.
  intros Hroutes Hdepth Hmax Hskill. unfold insert_row. apply gate_call; [done|]. intros runID _.
  apply gate_call; [done|]. intros now _. apply gate_call; [done|]. intros r Hr.
  destruct r as [row| | |m]; [|apply gate_avoids; avoid..].
  destruct (Hr row eq_refl) as (id & dbnow & Hrow).
  eapply (dispatch_row_gate routes depth (to_insert u c issue scope skillID runID now depth) row); [..|reflexivity].
  - apply elem_of_app; left. apply elem_of_app; by left.
  - apply elem_of_app; left. apply elem_of_app; by left.
  - done.
  - done.
  - by rewrite Hrow.
Qed.

Lemma route_scopes_avoids skills issue scopes found : avoids begins (route_scopes u c skills issue scopes found).
Proof. revert found. induction scopes as [|sc scopes IH]; intros found; cbn [route_scopes]; avoid. Qed.

(** The routed scope comes with its skill. *)
Lemma route_scopes_skill skills issue scopes found tr :
  (forall sc sk, found = Some (sc, sk) -> skills !! sc = Some sk) ->
  gwp (route_scopes u c skills issue scopes found)
    (fun tr' r => tr `prefix_of` tr' /\ forall sc sk, r = inl (Some (sc, sk)) -> skills !! sc = Some sk) tr.
Proof.
  revert found tr. induction scopes as [|sc scopes IH]; intros found tr Hfound; cbn [route_scopes].
  { split; [done|]. intros ? ? [= ->]. by apply Hfound. }
  destruct (skills !! sc) as [sk|] eqn:Hsk.
  - apply IH. intros sc' sk' Heq. destruct found as [[? ?]|]; simplify_eq; auto.
  - eapply wp_seq; [apply gate_avoids, warnUnrouted_avoids|]. intros tr' [e|] Htr'.
    + split; [done|]. by intros.
    + eapply wp_mono; [|by apply IH]. intros tr2 r [? ?]. split; [by etransitivity|done].
Qed.

Lemma tick_issue_gate routes res issue tr :
  existT (CListRoutes u c) (inl routes) ∈ tr ->
  gwp (tick_issue Marshal d u c (skill_for routes) res issue) (grows tr) tr.
Proof.
  intros Hroutes. unfold tick_issue. apply gate_call; [done|]. intros [m|] _; [apply gate_avoids; avoid|].
  destruct (scopeLabels _) as [|sc scs]; [apply gate_avoids; avoid|].
  destruct (hasAnyLabel _ [LabelNeedsApproval]); [apply gate_avoids; avoid|].
  destruct (hasAnyLabel _ ReservedStateLabels); [apply gate_avoids; avoid|].
  eapply gate_mid; [by apply route_scopes_skill|]. intros tr' [[[scope skillID]|]|e] Hpre Hsk;
    [|apply gate_avoids; avoid..].
  apply gate_call; [done|]. intros [depth|m] _; [|apply gate_avoids; avoid].
  destruct (DepthAllowed (effectivePolicy d) depth) eqn:Hmax; cbn [negb]; [|apply gate_avoids; avoid].
  apply (insert_row_gate routes); [|apply elem_of_app; right; by left|done|by apply Hsk].
  apply elem_of_app; left. destruct Hpre as [ext ->]. apply elem_of_app; left. apply elem_of_app; by left.
Qed.

Lemma tick_loop_gate routes issues res tr :
  existT (CListRoutes u c) (inl routes) ∈ tr ->
  gwp (tick_loop Marshal d u c (skill_for routes) issues res) (grows tr) tr.
Proof.
  revert res tr. induction issues as [|issue issues IH]; intros res tr Hroutes; cbn [tick_loop];
    [apply gate_avoids; avoid|].
  apply gate_seq; [by apply tick_issue_gate|]. intros tr' [res' [e|]] [ext ->]; [apply gate_avoids; avoid|].
  apply IH, elem_of_app. by left.
Qed.

Lemma Tick_gate : gwp (Tick Marshal d u c) (grows []) [].
Proof.
  unfold Tick. apply gate_call; [done|]. intros [routes|m] _; [|apply gate_avoids; avoid].
  apply gate_seq; [apply gate_avoids, sweep_avoids|]. intros tr' [swept [e|]] [ext ->]; [apply gate_avoids; avoid|].
  apply gate_call; [done|]. intros [issues|m] _; [|apply gate_avoids; avoid].
  apply tick_loop_gate. apply elem_of_app; left. apply elem_of_app; left. by left.
Qed.
End Gate.

(** C13: A tick asks for a run only on fresh evidence: it has inserted the row in this tick, after
    reading the routes and the issue's recorded lineage depth, which is within the policy's
    maximum; it has read the issue again after the insert, and found it not closed, with
    the routed scope label, and without [agent:needs-approval] or any state label in any
    casing; and the run that is asked for is the row's, with the skill that the scope is
    routed to.  This holds for all answers of the forge, the runs and the contexts, and of
    a store that returns the row it inserted (as [exec_honest] shows of the model of it). *)
Theorem Tick_starts_on_fresh_evidence Marshal d u c before req a after q :
  runs (Tick Marshal d u c) (before ++ existT (CBeginSkillRun req) a :: after) q ->
  Forall (fun e => honest (projT1 e) (projT2 e)) before ->
  cleared d u c before req.
Proof. intros Hruns Hhon. exact (wp_log_before _ _ _ _ _ _ _ _ _ (Tick_gate Marshal d u c) Hruns Hhon). Qed.

Definition ex_plain_tick : tprog (TickResult * option tick_error) := Tick ex_marshal ex_dispatcher "alice" "gh".

Lemma Tick_starts_on_fresh_evidence_witness :
  exists before req, sr_RunID req = "run-1" /\ cleared ex_dispatcher "alice" "gh" before req.
Proof.
  set (f := fun c => match c with CBeginSkillRun req => String.eqb (sr_RunID req) "run-1" | _ => false end).
  destruct (alone_event ex_outside honest f ex_plain_tick (ex_world []))
    as (before & c & a & after & q & Hruns & Hf & Hhon);
    [intros; eapply exec_honest, alone_exec|reflexivity|vm_compute; reflexivity|].
  destruct c; try discriminate Hf. exists before, req. split; [by apply String.eqb_eq|].
  exact (Tick_starts_on_fresh_evidence _ _ _ _ _ _ _ _ _ Hruns Hhon).
Defined.
