(* ===== verification/Lineage.v ===== *)
(** * Fan-out under concurrency

    Any number of RecordChild calls, of any runs, interleaved call by call on one
    database: each run's follow-ups, recorded, reserved or confirmed by the forge, never
    exceed the cap, because the count is read and the reservation taken under the run's
    lock, and a reservation is only given up when the forge answered with an error.  Such an
    answer does not say that nothing was filed: the cap is exceeded by as many issues
    as the forge files while its answer is lost ([timeout_frees_the_slot]).

    [phase] is where a thread is in the protocol; [inv] ties the phases to the tables, the locks
    and the trace. *)

From S2P Require Import Prelude Prog GoStrings Labels TrackerStore TrackerApi TrackerWrite TrackerAlone.
#[local] Open Scope string_scope.
#[local] Open Scope list_scope.
#[local] Open Scope Z_scope.

(** A request of the run [k] that the forge file a follow-up, whatever the answer: the forge may carry it out and the
    caller still see an error, a timeout or an unreadable response. *)
Definition attempts (k : run_key) (e : tevent) : Prop :=
  match e with existT (CCreateIssue (Some k') _) _ => k' = k | _ => False end.
#[export] Instance attempts_dec k e : Decision (attempts k e).
Proof. destruct e as [[] a]; try (right; tauto). destruct k0 as [k'|]; [|right; tauto]. apply (decide (k' = k)). Defined.

(** One that was answered with the issue, and one that was answered with an error. *)
Definition confirms (k : run_key) (e : tevent) : Prop :=
  match e with
  | existT (CCreateIssue (Some k') _) a => k' = k /\ exists i, a = inl i
  | _ => False
  end.
#[export] Instance confirms_dec k e : Decision (confirms k e).
Proof.
  destruct e as [[] a]; try (right; tauto). destruct k0 as [k'|]; [|right; tauto].
  destruct (decide (k' = k)) as [->|Hne]; [|right; intros [Hk _]; done].
  destruct a as [x|m]; [left; split; [done|by exists x]|right; intros [_ [x Hx]]; done].
Defined.

Definition confirmed (k : run_key) (w : world) : nat := length (filter (confirms k) (w_trace w)).

(** What the forge carried out is some of what it was asked for. *)
Definition filed_by (k : run_key) (w : world) (F : list tevent) : Prop := F `sublist_of` filter (attempts k) (w_trace w).

Lemma sublist_filter_mono {A} (P : A -> Prop) `{!forall x, Decision (P x)} l1 l2 :
  l1 `sublist_of` l2 -> filter P l1 `sublist_of` filter P l2.
Proof.
  induction 1 as [|x l1 l2 _ IH|x l1 l2 _ IH]; [done|..]; rewrite !filter_cons; case_decide; try done; by constructor.
Qed.

Lemma filed_confirmed k w F :
  filed_by k w F -> (length F <= confirmed k w + length (filter (fun e => ~ confirms k e) F))%nat.
Proof.
  intros HF. assert (Hsub : filter (confirms k) F `sublist_of` filter (confirms k) (w_trace w)).
  { etrans; [by apply sublist_filter_mono|]. apply sublist_filter_mono, sublist_filter. }
  apply sublist_length in Hsub. unfold confirmed. clear HF.
  enough (length F = length (filter (confirms k) F) + length (filter (fun e => ~ confirms k e) F))%nat by lia.
  clear Hsub. induction F as [|e F IH]; [done|]. rewrite !filter_cons. destruct (decide (confirms k e)) as [Hc|Hc].
  - rewrite decide_False by tauto. cbn. lia.
  - rewrite decide_True by done. cbn. lia.
Qed.

(** The fan-out slots a run has taken. *)
Definition claims (k : run_key) (s : db) : nat :=
  (length (filter (fun l : Lineage => lineage_of k.1.1 k.1.2 k.2 l = true) (t_lineage s))
   + length (filter (fun r : Reservation => reservation_of k.1.1 k.1.2 k.2 r = true) (t_reservations s)))%nat.

Lemma claims_count k s :
  let '(recorded, reserved) := claimedCount k.1.1 k.1.2 k.2 s in recorded + reserved = Z.of_nat (claims k s).
Proof. unfold claimedCount, childrenCount, reservedCount, claims. lia. Qed.

(** ** The protocol of one thread *)

Inductive phase :=
| Idle
| Locked (k : run_key)
| Counted (k : run_key) (n : Z)
| Held (k : run_key) (id : Z)
| Made (k : run_key) (id : Z)
| Freeing (k : run_key) (id : Z).

Definition mon (p : phase) (c : tcall) : ans c -> phase :=
  match c with
  | CLockRun k => fun a => match a with None => Locked k | Some _ => p end
  | CTxClaimedCount k => fun a => match a with inl (a1, a2) => Counted k (wrap i32 (a1 + a2)) | inr _ => p end
  | CTxReserve k => fun a => match a with inl id => Held k id | inr _ => Idle end
  | CTxRollback k => fun _ => Idle
  | CCreateIssue (Some k) _ => fun a =>
      match p with
      | Held k' id => match a with inl _ => Made k' id | inr _ => Freeing k' id end
      | _ => p
      end
  | CReleaseReservation _ | CRecordReservedChild _ _ => fun _ => Idle
  | _ => fun _ => p
  end.

Section Fanout.
Context (M D : Z).
Hypothesis (HM : 0 < M < 2 ^ 31) (HD : 0 < D < 2 ^ 31 - 1).

Definition pre (p : phase) (c : tcall) : Prop :=
  match c with
  | CLockRun _ => p = Idle
  | CTxClaimedCount k => p = Locked k
  | CTxReserve k => exists n, p = Counted k n /\ n < M
  | CTxRollback k => p = Locked k \/ exists n, p = Counted k n
  | CCreateIssue (Some k) _ => exists id, p = Held k id
  | CReleaseReservation id => exists k, p = Freeing k id
  | CRecordReservedChild l id => p = Made (lineage_key l) id /\ 1 <= l_Depth l <= D
  | CTxIssueDepth _ _ _ | CTxRunDispatchDepth _ => True
  | _ => False
  end.

Lemma lineage_key_depth d l : lineage_key (with_depth d l) = lineage_key l.
Proof. done. Qed.

(** Depths come from the tables. *)
Definition honest_read (c : tcall) : ans c -> Prop :=
  match c with
  | CTxIssueDepth _ _ _ | CTxRunDispatchDepth _ => fun a => forall n, a = inl n -> 0 <= n < 2 ^ 31 - 1
  | _ => fun _ => True
  end.

Abbreviation safe_wp := (wp (A := ans) (fun _ => honest_read) mon pre) (only parsing).

Lemma reserveChild_phase_wp l maxDepth maxChildren :
  0 < maxChildren <= M -> 0 < maxDepth <= D ->
  safe_wp (reserveChild l maxDepth maxChildren)
    (fun p r => match r with
                | inl (id, l') => p = Held (lineage_key l) id /\ lineage_key l' = lineage_key l /\ 1 <= l_Depth l' <= D
                | inr _ => p = Idle
                end) Idle.
Proof.
  intros Hc Hd. unfold reserveChild. apply wp_call_bind; [done|]. intros [m|] _; [done|]. cbn [mon].
  assert (Habort : forall e p, (p = Locked (lineage_key l) \/ exists n, p = Counted (lineage_key l) n) ->
    safe_wp (abort (lineage_key l) e)
      (fun p r => match r with
                  | inl (id, l') => p = Held (lineage_key l) id /\ lineage_key l' = lineage_key l /\ 1 <= l_Depth l' <= D
                  | inr _ => p = Idle
                  end) p).
  { intros e p Hp. unfold abort. by apply wp_call_bind. }
  apply wp_call_bind; [done|]. intros [pd|m] Hpd; cbn [mon]; [|apply Habort; by left].
  apply wp_call_bind; [done|]. intros [rd|m] Hrd; cbn [mon]; [|apply Habort; by left].
  destruct ((0 <? maxDepth) && (maxDepth <? _)) eqn:Hdepth; [apply Habort; by left|].
  apply wp_call_bind; [done|]. intros [[a1 a2]|m] _; cbn [mon]; [|apply Habort; by left].
  destruct ((0 <? maxChildren) && (maxChildren <=? _)) eqn:Hfan; [apply Habort; right; eauto|].
  apply wp_call_bind.
  { eexists. split; [done|]. apply andb_false_iff in Hfan as [?%Z.ltb_ge|?%Z.leb_gt]; lia. }
  intros [id|m] _; cbn [mon]; [|done].
  apply wp_ret. split; [done|split; [done|]].
  specialize (Hpd pd eq_refl). specialize (Hrd rd eq_refl). cbn [l_Depth with_depth].
  apply andb_false_iff in Hdepth as [?%Z.ltb_ge|Hle%Z.ltb_ge]; [lia|].
  assert (Hw : wrap i32 (Z.max pd rd + 1) = Z.max pd rd + 1).
  { apply wrap_in_type_id; [done|]. unfold in_type, it_min, it_max. cbn. lia. }
  rewrite Hw in *. lia.
Qed.

Lemma RecordChild_phase_wp l maxDepth maxChildren issue :
  0 < maxChildren <= M -> 0 < maxDepth <= D ->
  safe_wp (RecordChild l maxDepth maxChildren issue) (fun _ _ => True) Idle.
Proof.
  intros Hc Hd. unfold RecordChild. destruct (String.eqb (l_Username l) "" || _); [done|].
  destruct (l_ParentNumber l <=? 0); [done|]. destruct (String.eqb (l_CreatedByRun l) ""); [done|].
  eapply wp_seq; [by apply reserveChild_phase_wp|]. intros p [[id l']|e]; [|by intros _].
  intros (-> & Hk & Hdep). apply wp_call_bind; [rewrite Hk; by exists id|]. intros [i|m] _; cbn [mon].
  - apply wp_call_bind; [split; [by rewrite <- Hk|done]|]. done.
  - apply wp_call_bind; [by eexists|]. done.
Qed.
(** ** The invariant *)

Definition locks_run (k : run_key) (p : phase) : nat :=
  match p with Locked k' | Counted k' _ => if decide (k' = k) then 1 else 0 | _ => 0 end%nat.
Definition holds_slot (id : Z) (p : phase) : nat :=
  match p with Held _ id' | Made _ id' | Freeing _ id' => if decide (id' = id) then 1 else 0 | _ => 0 end%nat.
(** A reservation that stands for nothing on the forge. *)
Definition unused_slot (k : run_key) (p : phase) : nat :=
  match p with Held k' _ | Freeing k' _ => if decide (k' = k) then 1 else 0 | _ => 0 end%nat.
Definition slot (p : phase) : option Reservation :=
  match p with
  | Held k id | Made k id | Freeing k id => Some (mkReservation id k.1.1 k.1.2 k.2)
  | _ => None
  end.

Definition tot (f : phase -> nat) (G : list phase) : nat := sum_list (f <$> G).

Lemma tot_app f G1 G2 : tot f (G1 ++ G2) = (tot f G1 + tot f G2)%nat.
Proof. unfold tot. induction G1; csimpl; lia. Qed.
Lemma tot_mid f G1 p G2 : tot f (G1 ++ p :: G2) = (tot f (G1 ++ G2) + f p)%nat.
Proof. rewrite !tot_app. unfold tot. csimpl. lia. Qed.
Lemma tot_in f p G : p ∈ G -> (f p <= tot f G)%nat.
Proof. induction 1; unfold tot in *; csimpl; lia. Qed.

Definition one (b : bool) : nat := if b then 1 else 0.

Record linv (s : db) (locks : gset run_key) (nc : run_key -> nat) (G : list phase) : Prop := {
  li_ids : NoDup (rv_ID <$> t_reservations s);
  li_next : forall r, r ∈ t_reservations s -> rv_ID r < t_next_reservation s;
  li_lock : forall k, (tot (locks_run k) G <= one (bool_decide (k ∈ locks)))%nat;
  li_count : forall k n, Counted k n ∈ G -> Z.of_nat (claims k s) <= n;
  li_slot : forall p r, p ∈ G -> slot p = Some r -> r ∈ t_reservations s;
  li_hold : forall id, (tot (holds_slot id) G <= 1)%nat;
  li_cap : forall k, Z.of_nat (claims k s) <= M;
  li_made : forall k, (nc k + tot (unused_slot k) G <= claims k s)%nat;
  li_lineage : forall l, l ∈ t_lineage s -> 1 <= l_Depth l <= D;
  li_dispatch : forall d, d ∈ t_dispatches s -> 0 <= d_Depth d <= D;
}.

Definition LInv (w : world) (G : list phase) : Prop := linv (w_db w) (w_locks w) (fun k => confirmed k w) G.

(** What the reads answer. *)
Lemma issueDepth_range s locks nc G u c n : linv s locks nc G -> 0 <= issueDepth u c n s < 2 ^ 31 - 1.
Proof.
  intros HI. unfold issueDepth. destruct (find _ (t_lineage s)) as [l|] eqn:Hf; [|lia].
  apply find_some in Hf as [Hl%list_elem_of_In _]. pose proof (li_lineage _ _ _ _ HI l Hl). lia.
Qed.

Lemma runDispatchDepth_range s locks nc G u c r : linv s locks nc G -> 0 <= runDispatchDepth u c r s < 2 ^ 31 - 1.
Proof.
  intros HI. unfold runDispatchDepth. destruct (String.eqb r ""); [lia|].
  set (rows := filter _ _). assert (Hall : Forall (fun z => 0 <= z <= D) (map d_Depth rows)).
  { apply Forall_forall. intros z (d & -> & Hd)%list_elem_of_fmap. apply list_elem_of_filter in Hd as [_ Hd].
    by apply (li_dispatch _ _ _ _ HI). }
  destruct (map d_Depth rows) as [|z zs]; [lia|]. apply Forall_cons in Hall as [Hz Hzs].
  assert (0 <= foldl Z.max z zs <= D); [|lia].
  clear rows. revert z Hz. induction Hzs as [|y ys Hy Hys IH]; intros z Hz; simpl; [done|]. apply IH. lia.
Qed.

Lemma exec_honest_read w c a w' G : LInv w G -> exec w c a w' -> honest_read c a.
Proof.
  intros HI [s' ids locks Hdb|Hw Hread]; [by destruct Hdb|]. destruct c; try done; cbn in *; intros x ->.
  - destruct Hread as [[= ->]|[m ?]]; [|done]. by eapply issueDepth_range.
  - destruct Hread as [[= ->]|[m ?]]; [|done]. by eapply runDispatchDepth_range.
Qed.
(** ** Steps *)

Lemma mem_mid (G1 G2 : list phase) p q : q ∈ G1 ++ p :: G2 -> q = p \/ q ∈ G1 ++ G2.
Proof. rewrite !elem_of_app, elem_of_cons. tauto. Qed.
Lemma mem_rest (G1 G2 : list phase) p q : q ∈ G1 ++ G2 -> q ∈ G1 ++ p :: G2.
Proof. rewrite !elem_of_app, elem_of_cons. tauto. Qed.
Lemma mem_here (G1 G2 : list phase) p : p ∈ G1 ++ p :: G2.
Proof. apply elem_of_app. right. by left. Qed.

(** Only the thread's phase, the locks and the trace change. *)
Lemma linv_phase s locks locks' nc nc' G1 p p' G2 :
  linv s locks nc (G1 ++ p :: G2) ->
  (forall k, locks_run k p' + one (bool_decide (k ∈ locks)) <= locks_run k p + one (bool_decide (k ∈ locks')))%nat ->
  (forall id, holds_slot id p' <= holds_slot id p)%nat ->
  (forall k, nc' k + unused_slot k p' <= nc k + unused_slot k p)%nat ->
  (forall r, slot p' = Some r -> slot p = Some r) ->
  (forall k n, p' = Counted k n -> Z.of_nat (claims k s) <= n) ->
  linv s locks' nc' (G1 ++ p' :: G2).
Proof.
  intros [Hids Hnext Hlock Hcount Hslot Hhold Hcap Hmade Hl Hd] HL HH HU HS HC. split; try done.
  - intros k. specialize (Hlock k). specialize (HL k). rewrite tot_mid in *. lia.
  - intros k n [Heq|Hin]%mem_mid; [by apply HC|]. apply Hcount. by apply mem_rest.
  - intros q r [->|Hin]%mem_mid Hr; [apply (Hslot p); [apply mem_here|by apply HS]|].
    eapply Hslot; [by apply mem_rest|done].
  - intros id. specialize (Hhold id). specialize (HH id). rewrite tot_mid in *. lia.
  - intros k. specialize (Hmade k). specialize (HU k). rewrite tot_mid in *. lia.
Qed.

Lemma reservation_of_mk u c r id u' c' r' :
  reservation_of u c r (mkReservation id u' c' r') = bool_decide ((u, c, r) = (u', c', r')).
Proof.
  unfold reservation_of. cbn. apply Bool.eq_true_iff_eq.
  rewrite !andb_true_iff, !String.eqb_eq, bool_decide_eq_true. naive_solver.
Qed.

Lemma claims_reserve u c r k s :
  claims k (reserve u c r s).2 = (claims k s + if decide (k = (u, c, r)) then 1 else 0)%nat.
Proof.
  destruct k as [[u' c'] r']. unfold claims, reserve. cbn [fst snd t_lineage t_reservations with_lineage].
  rewrite filter_app, length_app, filter_cons, reservation_of_mk.
  destruct (decide ((u', c', r') = (u, c, r))) as [Heq|Hne].
  - rewrite decide_True by by apply bool_decide_eq_true. cbn. lia.
  - rewrite decide_False by (by rewrite bool_decide_eq_true). cbn. lia.
Qed.

Lemma linv_reserve s locks nc G1 p p' G2 u c r n :
  linv s locks nc (G1 ++ p :: G2) -> p = Counted (u, c, r) n -> n < M ->
  p' = Held (u, c, r) (t_next_reservation s) \/ p' = Idle ->
  linv (reserve u c r s).2 (locks ∖ {[(u, c, r)]}) nc (G1 ++ p' :: G2).
Proof.
  intros HI -> Hn Hp'. pose proof HI as [Hids Hnext Hlock Hcount Hslot Hhold Hcap Hmade Hl Hd].
  assert (Hcl : Z.of_nat (claims (u, c, r) s) <= n) by (apply Hcount, mem_here).
  assert (Hlk : locks_run (u, c, r) (Counted (u, c, r) n) = 1%nat) by (cbn; by rewrite decide_True).
  assert (Hfree : forall q, q ∈ G1 ++ G2 -> locks_run (u, c, r) q = 0%nat).
  { intros q Hq. pose proof (Hlock (u, c, r)) as Hk. rewrite tot_mid, Hlk in Hk.
    pose proof (tot_in (locks_run (u, c, r)) q _ Hq). destruct (bool_decide _); cbn [one] in Hk; lia. }
  assert (Hnoid : forall q, q ∈ G1 ++ G2 -> holds_slot (t_next_reservation s) q = 0%nat).
  { intros q Hq. destruct (slot q) as [x|] eqn:Hx; [|by destruct q].
    pose proof (Hnext x (Hslot q x (mem_rest _ _ _ _ Hq) Hx)) as Hlt.
    destruct q; try done; cbn in *; simplify_eq/=; rewrite decide_False by lia; done. }
  split; cbn [reserve snd t_reservations t_lineage t_dispatches t_next_reservation with_lineage].
  - rewrite fmap_app. apply NoDup_app. split_and!; [done| |apply NoDup_singleton].
    intros id (x & -> & Hx)%list_elem_of_fmap Heq%list_elem_of_singleton. simpl in Heq. specialize (Hnext x Hx). lia.
  - intros x [Hx| ->%list_elem_of_singleton]%elem_of_app; [specialize (Hnext x Hx); lia|simpl; lia].
  - intros k. specialize (Hlock k). rewrite tot_mid in *. assert (locks_run k p' = 0%nat) as -> by by destruct Hp' as [->| ->].
    destruct (decide (k = (u, c, r))) as [->|Hne].
    + rewrite Hlk in Hlock. destruct (bool_decide (_ ∈ locks)); cbn [one] in Hlock; lia.
    + etransitivity; [|etransitivity; [exact Hlock|]]; [lia|].
      rewrite (bool_decide_ext (k ∈ locks) (k ∈ locks ∖ {[(u, c, r)]})); [done|set_solver].
  - intros k m [Heq|Hin]%mem_mid; [by destruct Hp' as [->| ->]|].
    pose proof (Hcount k m (mem_rest _ _ _ _ Hin)) as Hm. pose proof (claims_reserve u c r k s) as Hcr. cbn [snd reserve] in Hcr.
    rewrite Hcr. destruct (decide (k = (u, c, r))) as [->|]; [|lia].
    specialize (Hfree _ Hin). cbn in Hfree. by rewrite decide_True in Hfree.
  - intros q x [->|Hin]%mem_mid Hx; apply elem_of_app.
    + destruct Hp' as [->| ->]; [|done]. simpl in Hx. simplify_eq. right. by left.
    + left. eapply Hslot; [by apply mem_rest|done].
  - intros id. specialize (Hhold id). rewrite tot_mid in *. destruct Hp' as [->| ->]; cbn in *; [|lia].
    destruct (decide (t_next_reservation s = id)) as [<-|]; [|lia].
    assert (tot (holds_slot (t_next_reservation s)) (G1 ++ G2) = 0)%nat; [|lia].
    clear -Hnoid. induction (G1 ++ G2) as [|q G IH]; [done|]. unfold tot in *. csimpl.
    rewrite Hnoid by by left. apply IH. intros; apply Hnoid; by right.
  - intros k. pose proof (claims_reserve u c r k s) as Hcr. cbn [snd reserve] in Hcr. rewrite Hcr.
    specialize (Hcap k). destruct (decide (k = (u, c, r))) as [->|]; lia.
  - intros k. pose proof (claims_reserve u c r k s) as Hcr. cbn [snd reserve] in Hcr. rewrite Hcr.
    specialize (Hmade k). rewrite tot_mid in *. cbn [unused_slot] in Hmade.
    destruct Hp' as [->| ->]; cbn [unused_slot]; [|lia]. repeat destruct (decide _); try lia; congruence.
  - done.
  - done.
Qed.
Definition reserved_by (k : run_key) (rs : list Reservation) : nat :=
  length (filter (fun r : Reservation => reservation_of k.1.1 k.1.2 k.2 r = true) rs).

Lemma keep_others id (rs : list Reservation) :
  id ∉ (rv_ID <$> rs) -> filter (fun r => rv_ID r <> id) rs = rs.
Proof.
  induction rs as [|x rs IH]; [done|]. intros [Hne Hin]%not_elem_of_cons.
  rewrite filter_cons_True by congruence. by rewrite IH.
Qed.

Lemma reserved_release k r (rs : list Reservation) :
  NoDup (rv_ID <$> rs) -> r ∈ rs ->
  (reserved_by k (filter (fun x => rv_ID x <> rv_ID r) rs)
   + one (reservation_of k.1.1 k.1.2 k.2 r))%nat = reserved_by k rs.
Proof.
  unfold reserved_by. induction rs as [|x rs IH]; [by intros _ ?%elem_of_nil|].
  intros [Hx Hnd]%NoDup_cons [->|Hr]%elem_of_cons.
  - rewrite filter_cons_False by tauto. rewrite keep_others by done. rewrite (filter_cons _ x).
    destruct (reservation_of _ _ _ x) eqn:E; cbn [one].
    + rewrite decide_True by done. cbn. lia.
    + rewrite decide_False by done. lia.
  - rewrite filter_cons_True by (intros Heq; apply Hx; rewrite Heq; by apply list_elem_of_fmap_2).
    rewrite !(filter_cons _ x). specialize (IH Hnd Hr). repeat case_decide; cbn; lia.
Qed.

Lemma slot_reservation k id r : slot (Freeing k id) = Some r -> rv_ID r = id /\ forall k',
  one (reservation_of k'.1.1 k'.1.2 k'.2 r) = if decide (k = k') then 1%nat else 0%nat.
Proof.
  cbn. intros [= <-]. split; [done|]. intros k'. rewrite reservation_of_mk.
  destruct k as [[u c] r], k' as [[u' c'] r']. cbn. destruct (decide _) as [->|Hne].
  - by rewrite bool_decide_true.
  - rewrite bool_decide_false by congruence. done.
Qed.

(** The rows that stay when one reservation goes. *)
Lemma linv_without s locks nc G1 p G2 (s' : db) id k :
  linv s locks nc (G1 ++ p :: G2) -> (p = Made k id \/ p = Freeing k id) ->
  t_reservations s' = filter (fun r => rv_ID r <> id) (t_reservations s) ->
  t_next_reservation s' = t_next_reservation s -> t_dispatches s' = t_dispatches s ->
  (forall l, l ∈ t_lineage s' -> 1 <= l_Depth l <= D) ->
  (forall k', claims k' s' + unused_slot k' p = claims k' s)%nat ->
  linv s' locks nc (G1 ++ Idle :: G2).
Proof.
  intros [Hids Hnext Hlock Hcount Hslot Hhold Hcap Hmade Hl Hd] Hp Hr Hn Hds Hlin Hcl.
  assert (Hone : holds_slot id p = 1%nat) by (destruct Hp as [->| ->]; cbn; by rewrite decide_True).
  assert (Hother : forall q, q ∈ G1 ++ G2 -> holds_slot id q = 0%nat).
  { intros q Hq. pose proof (Hhold id) as Hh. rewrite tot_mid, Hone in Hh.
    pose proof (tot_in (holds_slot id) q _ Hq). lia. }
  split.
  - rewrite Hr. eapply sublist_NoDup; [exact Hids|]. apply fmap_sublist, sublist_filter.
  - intros r Hin. rewrite Hr in Hin. rewrite Hn. apply Hnext. by apply list_elem_of_filter in Hin as [_ ?].
  - intros k'. specialize (Hlock k'). rewrite tot_mid in *. cbn. lia.
  - intros k' n [?|Hin]%mem_mid; [done|]. pose proof (Hcount k' n (mem_rest _ _ _ _ Hin)). specialize (Hcl k'). lia.
  - intros q r [->|Hin]%mem_mid Hq; [done|]. rewrite Hr. apply list_elem_of_filter.
    split; [|eapply Hslot; [by apply mem_rest|done]].
    specialize (Hother q Hin). intros Heq. destruct q; try done; cbn in *; simplify_eq/=;
      rewrite decide_True in Hother by done; done.
  - intros id'. specialize (Hhold id'). rewrite tot_mid in *. cbn. lia.
  - intros k'. specialize (Hcap k'). specialize (Hcl k'). lia.
  - intros k'. specialize (Hmade k'). specialize (Hcl k'). rewrite tot_mid in *. cbn. lia.
  - done.
  - by rewrite Hds.
Qed.

Lemma linv_release s locks nc G1 G2 k id :
  linv s locks nc (G1 ++ Freeing k id :: G2) -> linv (release id s) locks nc (G1 ++ Idle :: G2).
Proof.
  intros HI. pose proof (li_slot _ _ _ _ HI _ _ (mem_here _ _ _) eq_refl) as Hr.
  eapply (linv_without _ _ _ _ _ _ _ id k); [exact HI|by right|done..|by apply HI|].
  intros k'. destruct (slot_reservation k id _ eq_refl) as [Hrid Hk]. cbn [unused_slot].
  pose proof (reserved_release k' _ _ (li_ids _ _ _ _ HI) Hr) as Hrel.
  rewrite Hk in Hrel. unfold claims, release. cbn [t_lineage t_reservations with_lineage].
  unfold reserved_by in Hrel. cbn [rv_ID] in Hrel. lia.
Qed.

Lemma linv_record s locks nc G1 G2 l id :
  linv s locks nc (G1 ++ Made (lineage_key l) id :: G2) -> 1 <= l_Depth l <= D ->
  (recordReservedChild l id s).1 = true ->
  linv (recordReservedChild l id s).2 locks nc (G1 ++ Idle :: G2).
Proof.
  intros HI Hdep Hok. pose proof (li_slot _ _ _ _ HI _ _ (mem_here _ _ _) eq_refl) as Hr.
  unfold recordReservedChild in *. destruct (existsb _ _); [done|]. clear Hok. cbn [fst snd].
  eapply (linv_without _ _ _ _ _ _ _ id (lineage_key l)); [exact HI|by left|done..| |].
  - cbn. intros x [Hx| ->%list_elem_of_singleton]%elem_of_app; [by apply (li_lineage _ _ _ _ HI)|done].
  - intros k'. destruct (slot_reservation (lineage_key l) id _ eq_refl) as [Hrid Hk]. cbn [unused_slot].
    pose proof (reserved_release k' _ _ (li_ids _ _ _ _ HI) Hr) as Hrel. rewrite Hk in Hrel.
    unfold claims. cbn [t_lineage t_reservations with_lineage]. unfold reserved_by in Hrel. cbn [rv_ID] in Hrel.
    rewrite filter_app, length_app, filter_cons.
    assert (Hlk : lineage_of k'.1.1 k'.1.2 k'.2 l = bool_decide (lineage_key l = k')).
    { destruct k' as [[u c] r]. unfold lineage_of, lineage_key. cbn. apply Bool.eq_true_iff_eq.
      rewrite !andb_true_iff, !String.eqb_eq, bool_decide_eq_true. naive_solver. }
    rewrite Hlk. destruct (decide (lineage_key l = k')) as [Heq|Hne].
    + rewrite decide_True by by apply bool_decide_eq_true. cbn. lia.
    + rewrite decide_False by (by rewrite bool_decide_eq_true). cbn. lia.
Qed.
(** ** Calls *)

Lemma confirmed_logged k c a w s' ids locks :
  confirmed k (logged c a w s' ids locks)
  = ((if decide (confirms k (existT c a)) then 1 else 0) + confirmed k w)%nat.
Proof. unfold confirmed, logged. cbn [w_trace]. rewrite filter_cons. by destruct (decide _). Qed.

(** A call whose only trace is the phase and the locks. *)
Lemma LInv_phase c a w s' ids locks G1 p p' G2 :
  LInv w (G1 ++ p :: G2) -> (forall k, ~ confirms k (existT c a)) ->
  linv s' locks (fun k => confirmed k w) (G1 ++ p' :: G2) ->
  LInv (logged c a w s' ids locks) (G1 ++ p' :: G2).
Proof.
  intros _ Hc HI. unfold LInv. cbn [logged w_db w_locks]. destruct HI as [? ? ? ? ? ? ? Hmade ? ?]. split; try done.
  intros k. rewrite confirmed_logged, decide_False by apply Hc. apply Hmade.
Qed.

Lemma LInv_call w G1 p G2 c a w' :
  LInv w (G1 ++ p :: G2) -> pre p c -> exec w c a w' -> LInv w' (G1 ++ mon p c a :: G2).
Proof.
  intros HI Hpre Hexec. pose proof (exec_honest_read _ _ _ _ _ HI Hexec) as Hhon.
  destruct Hexec as [s' ids locks Hdb|Hw Hread].
  - revert Hpre. destruct Hdb; intros Hpre; try done; cbn [mon].
    + cbn in Hpre. subst p. apply (LInv_phase _ _ _ _ _ _ _ Idle); [done|by intros k' ?|].
      eapply linv_phase; [exact HI|..]; try done.
      intros k'. cbn. destruct (decide (k = k')) as [<-|Hne].
      * rewrite (bool_decide_false (k ∈ w_locks w)), bool_decide_true by set_solver. cbn. lia.
      * rewrite (bool_decide_ext (k' ∈ w_locks w) (k' ∈ {[k]} ∪ w_locks w)); [lia|set_solver].
    + destruct Hpre as (n & -> & Hn). apply (LInv_phase _ _ _ _ _ _ _ (Counted (u, c, r) n)); [done|by intros k' ?|].
      destruct (reserve u c r (w_db w)) as [i0 s1] eqn:Hres. cbn [fst snd] in *.
      assert (Hi0 : i0 = t_next_reservation (w_db w)) by (unfold reserve in Hres; congruence).
      assert (Hs1 : s1 = (reserve u c r (w_db w)).2) by by rewrite Hres.
      destruct H as [|a [m ->]|a [m ->]].
      * rewrite Hs1. eapply linv_reserve; [exact HI|done|done|left; congruence].
      * eapply linv_phase; [exact HI|..]; try done; try (intros; cbn; lia).
        intros k'. cbn. destruct (decide ((u, c, r) = k')) as [<-|Hne].
        -- destruct (bool_decide (_ ∈ w_locks w)); cbn; lia.
        -- rewrite (bool_decide_ext (k' ∈ w_locks w) (k' ∈ w_locks w ∖ {[(u, c, r)]})); [lia|set_solver].
      * rewrite Hs1. eapply linv_reserve; [exact HI|done|done|by right].
    + apply (LInv_phase _ _ _ _ _ _ _ p); [done|by intros k' ?|].
      assert (Hp : locks_run k p = 1%nat /\ forall k', k <> k' -> locks_run k' p = 0%nat).
      { destruct Hpre as [->|[n ->]]; cbn; (split; [by rewrite decide_True|intros; by rewrite decide_False]). }
      assert (Hu : forall k', unused_slot k' p = 0%nat) by (by destruct Hpre as [->|[n ->]]).
      eapply linv_phase; [exact HI|..]; try done; try (intros; cbn; lia).
      intros k'. cbn [locks_run]. destruct (decide (k = k')) as [<-|Hne].
      * rewrite (proj1 Hp). destruct (bool_decide (k ∈ w_locks w)); cbn; lia.
      * rewrite (proj2 Hp k' Hne), (bool_decide_ext (k' ∈ w_locks w) (k' ∈ w_locks w ∖ {[k]})); [lia|set_solver].
    + destruct Hpre as [k ->]. apply (LInv_phase _ _ _ _ _ _ _ (Freeing k id)); [done|by intros k' ?|].
      assert (Herr : linv (w_db w) (w_locks w) (fun k => confirmed k w) (G1 ++ Idle :: G2)).
      { eapply linv_phase; [exact HI|..]; try done; intros; cbn; lia. }
      destruct H; [by eapply linv_release|exact Herr|by eapply linv_release].
    + destruct Hpre as [-> Hdep]. apply (LInv_phase _ _ _ _ _ _ _ (Made (lineage_key l) id)); [done|by intros k' ?|].
      assert (Herr : linv (w_db w) (w_locks w) (fun k => confirmed k w) (G1 ++ Idle :: G2)).
      { eapply linv_phase; [exact HI|..]; try done; intros; cbn; lia. }
      assert (Hrec : linv (recordReservedChild l id (w_db w)).2 (w_locks w) (fun k => confirmed k w) (G1 ++ Idle :: G2)).
      { destruct (recordReservedChild l id (w_db w)).1 eqn:Hb; [by apply linv_record|].
        unfold recordReservedChild in *. by destruct (existsb _ _). }
      by destruct H.
  - destruct c; try done; cbn [mon].
    + cbn in Hpre. subst p. apply (LInv_phase _ _ _ _ _ _ _ (Locked k)); [done|by intros k' ?|].
      destruct a as [[a1 a2]|m]; [|exact HI]. destruct Hread as [[= Hc1 Hc2]|[m ?]]; [|done].
      eapply linv_phase; [exact HI|..]; try done.
      intros k' n [= <- <-]. pose proof (claims_count k (w_db w)) as Hcc. unfold claimedCount in Hcc.
      rewrite <- Hc1, <- Hc2 in Hcc. rewrite Hcc. pose proof (li_cap _ _ _ _ HI k).
      rewrite wrap_in_type_id; [done|done|]. unfold in_type, it_min, it_max. cbn. lia.
    + destruct k as [k|]; [|done]. destruct Hpre as [id ->]. unfold LInv. cbn [logged w_db w_locks mon].
      destruct a as [i'|m].
      * eapply linv_phase; [exact HI|..]; try done. intros k'. rewrite confirmed_logged. cbn [unused_slot].
        destruct (decide (k = k')) as [<-|Hne].
        -- rewrite decide_True by (split; [done|by exists i']). lia.
        -- rewrite decide_False; [lia|]. by intros [? _].
      * eapply linv_phase; [exact HI|..]; try done. intros k'. rewrite confirmed_logged, decide_False; [done|].
        intros [_ [x Hx]]. done.
Qed.

(** ** The system *)

(** RecordChild calls under policies within the caps. *)
Definition filings (p : tprog unit) : Prop :=
  exists l maxDepth maxChildren issue, 0 < maxChildren <= M /\ 0 < maxDepth <= D /\
    p = (_ ← RecordChild l maxDepth maxChildren issue; mret tt).

(** Everything else leaves the lineage tables alone, and dispatches within the depth. *)
Definition elsewhere (w w' : world) : Prop :=
  w_trace w' = w_trace w /\ w_locks w' = w_locks w /\
  t_lineage (w_db w') = t_lineage (w_db w) /\ t_reservations (w_db w') = t_reservations (w_db w) /\
  t_next_reservation (w_db w') = t_next_reservation (w_db w) /\
  forall d, d ∈ t_dispatches (w_db w') -> 0 <= d_Depth d <= D.

Definition lineage_reach (w0 : world) : list (tprog unit) * world -> Prop :=
  preach exec (fun _ _ => None) filings elsewhere w0.

(** Nobody is filing, no run is over the cap, and no follow-up has been filed in the trace. *)
Definition lineage_boot (w0 : world) : Prop := linv (w_db w0) (w_locks w0) (fun _ => 0%nat) [] /\ w_trace w0 = [].

Lemma lineage_inv w0 T w :
  lineage_boot w0 -> lineage_reach w0 (T, w) -> exists G, LInv w G.
Proof.
  intros [Hboot Htr] Hreach.
  destruct (pool_invariant exec (fun _ _ => None) filings elsewhere mon pre (fun _ => honest_read)
              (fun _ _ => Idle) Idle (fun _ _ => True) LInv w0 T w) as (G & _ & HI); [..|exact Hreach|by exists G].
  - unfold LInv, confirmed. destruct Hboot as [? ? ? ? ? ? ? Hmade ? ?]. split; try done. intros k. rewrite Htr. apply Hmade.
  - intros p (l & md & mc & issue & Hc & Hd & ->). eapply wp_seq; [by apply RecordChild_phase_wp|]. done.
  - done.
  - intros w1 G [Hids Hnext Hlock Hcount Hslot Hhold Hcap Hmade Hl Hd].
    assert (Htot : forall f, f Idle = 0%nat -> tot f (G ++ [Idle]) = tot f G).
    { intros f Hf. rewrite tot_app. unfold tot at 2. csimpl. lia. }
    split; try done.
    + intros k. by rewrite Htot.
    + intros k n [?|?%list_elem_of_singleton]%elem_of_app; [by apply Hcount|done].
    + intros p r [?| ->%list_elem_of_singleton]%elem_of_app; [by apply Hslot|done].
    + intros id. by rewrite Htot.
    + intros k. by rewrite Htot.
  - intros w1 w2 G (Ht & Hl & Hlin & Hres & Hn & Hd) [Hids Hnext Hlock Hcount Hslot Hhold Hcap Hmade Hll Hdd].
    unfold LInv, confirmed. rewrite Ht, Hl.
    assert (Hcl : forall k, claims k (w_db w2) = claims k (w_db w1)) by (intros k; unfold claims; by rewrite Hlin, Hres).
    split; rewrite ?Hlin, ?Hres, ?Hn; try done; intros k; rewrite Hcl; [apply Hcount|apply Hcap|apply Hmade].
  - intros w1 G1 p G2 c a w2 HI Hpre Hexec. split; [by eapply exec_honest_read|].
    cbn. rewrite app_nil_r. by eapply LInv_call.
Qed.
End Fanout.

(** C11: Fan-out and depth of follow-ups.  Whatever number of RecordChild calls run
    concurrently, with limits of at most M children and depth D (both positive, and D below
    the largest int32), and whatever the store and the forge answer: the forge has confirmed at most
    M issues of a run, the run's lineage rows and live reservations are at most M, and every recorded lineage
    row has a depth between 1 and D.  The forge may file an issue and the caller still see an error, upon which the slot is
    free again; so whichever of a run's requests the forge carried out, they are at most M and one
    more for each of them that was answered with an error. *)
Theorem chain_guards_hold M D w0 T w k :
  0 < M < 2 ^ 31 -> 0 < D < 2 ^ 31 - 1 -> lineage_boot M D w0 -> lineage_reach M D w0 (T, w) ->
  Z.of_nat (confirmed k w) <= M /\ Z.of_nat (claims k (w_db w)) <= M /\
  (forall l, l ∈ t_lineage (w_db w) -> 1 <= l_Depth l <= D) /\
  (forall F, filed_by k w F -> Z.of_nat (length F) <= M + Z.of_nat (length (filter (fun e => ~ confirms k e) F))).
Proof.
  intros HM HD Hboot Hreach. destruct (lineage_inv M D HM HD _ _ _ Hboot Hreach) as [G HI].
  pose proof (li_made _ _ _ _ _ _ HI k). pose proof (li_cap _ _ _ _ _ _ HI k).
  split_and!; [lia|lia|apply HI|]. intros F HF%filed_confirmed. lia.
Qed.

Definition ex_filing : tprog unit :=
  _ ← RecordChild (mkLineage "alice" "gh" 0 7 "run-1" 0) 3 5 (mkNewIssue "t" "b" ["scope:dev"]); mret tt.

Lemma ex_lineage_boot : lineage_boot 5 3 (ex_world []).
Proof.
  split; [|done]. split; try done; [apply NoDup_nil_2| | | | | |].
  all: try (intros ? Hx; exfalso; exact (proj1 (elem_of_nil _) Hx)).
  all: try (intros ? ? Hx; exfalso; exact (proj1 (elem_of_nil _) Hx)).
  all: intros; apply Nat.le_0_l.
Qed.

(** One run files one follow-up. *)
Definition ex_filed : world := (handle (alone ex_outside) ex_filing (ex_world [])).2.

Lemma chain_guards_hold_witness :
  map l_Depth (t_lineage (w_db ex_filed)) = [1] /\ Z.of_nat (confirmed ("alice", "gh", "run-1") ex_filed) <= 5.
Proof.
  split; [vm_compute; reflexivity|].
  refine (proj1 (chain_guards_hold 5 3 (ex_world []) [Ret tt] ex_filed ("alice", "gh", "run-1") _ _ ex_lineage_boot _)).
  - lia.
  - lia.
  - eapply rtc_l.
    { apply (pstep_arrive _ _ _ _ [] ex_filing). exists (mkLineage "alice" "gh" 0 7 "run-1" 0), 3, 5, (mkNewIssue "t" "b" ["scope:dev"]).
      split; [lia|split; [lia|reflexivity]]. }
    assert (Hsp : spawned ex_outside (fun _ _ => None) ex_filing (ex_world []) = []) by (vm_compute; reflexivity).
    pose proof (alone_pool ex_outside (fun _ _ => None) (filings 5 3) (elsewhere 3) [] ex_filing [] (ex_world []) tt ex_filed) as Hrun.
    rewrite Hsp in Hrun. apply Hrun. unfold ex_filed. destruct (handle _ _ _) as [[] w]. reflexivity.
Defined.

(** The forge files the follow-up and its answer is lost. *)
Definition lost_answer (c : tcall) (w : world) : ans c * world :=
  match c with
  | CCreateIssue k i => answer (CCreateIssue k i) (inr "unreachable") w
  | c => alone ex_outside c w
  end.

(** One follow-up is allowed.  The first is filed and its answer lost, the slot is free again, and the second is filed: two issues, of which
    the store counts one. *)
Example timeout_frees_the_slot :
  let k := ("alice", "gh", "run-1") in
  let file := RecordChild (mkLineage "alice" "gh" 0 7 "run-1" 0) 3 1 (mkNewIssue "t" "b" ["scope:dev"]) in
  let '(r1, w1) := handle lost_answer file (ex_world []) in
  let '(r2, w2) := handle (alone ex_outside) file w1 in
  (exists e, r1 = (ChildErr e, None)) /\ (exists l i, r2 = (Recorded l, Some i)) /\
  length (filter (attempts k) (w_trace w2)) = 2%nat /\ claims k (w_db w2) = 1%nat.
Proof. vm_compute. split; [by eexists|]. split; [by do 2 eexists|done]. Qed.
