(* ===== verification/DispatchSweep.v ===== *)
(** * The sweep, when nothing fails

    Alone, the sweep fails exactly the stuck rows of its connection, for the reason that
    applies, reports each of them on its issue, and touches nothing else. *)

From S2P Require Import Prelude Prog GoStrings GoTime Labels TrackerStore TrackerApi DispatchTable Dispatch.
From S2P Require Import DispatchProtocol TrackerAlone.
#[local] Open Scope string_scope.
#[local] Open Scope list_scope.
#[local] Open Scope Z_scope.

Lemma elem_of_rev {A} (x : A) l : x ∈ rev l <-> x ∈ l.
Proof. by rewrite !list_elem_of_In, <- in_rev. Qed.

Section Sweep.
Context (o : outside) (d : Dispatcher) (u c : string).

(** Why a row of age [age] is given up, if it is. *)
Definition cause (row : Dispatch) : option (TrackerDispatchFailure * string) :=
  let age := row_age (d_State row) row (o_now o) in
  if sweep_timeout d <=? age
  then Some (DISPATCH_FAILURE_TIMEOUT, "run exceeded the run timeout of " +:+ DurationString (sweep_timeout d))
  else if dp_HasLeases d && (sweep_grace d <=? age) && negb (o_live o (d_RunID row))
  then Some (DISPATCH_FAILURE_LEASE_LOST, "no live lease on this daemon after " +:+ DurationString age)
  else None.

Definition given_up (row : Dispatch) : Dispatch :=
  match cause row with
  | Some (failure, reason) => set_failed failure reason (o_now o) row
  | None => row
  end.

Definition stuck (row : Dispatch) : bool := match cause row with Some _ => true | None => false end.

Definition watched (row : Dispatch) : bool :=
  String.eqb (d_Username row) u && String.eqb (d_Connection row) c && active row.

(** The table without one row's old value. *)
Definition replace (row row' : Dispatch) (rows : list Dispatch) : list Dispatch :=
  map (fun x => if String.eqb (d_ID x) (d_ID row) then row' else x) rows.

Lemma same_row rows (x row : Dispatch) :
  NoDup (d_ID <$> rows) -> x ∈ rows -> row ∈ rows -> d_ID x = d_ID row -> x = row.
Proof.
  intros Hnd Hx Hrow Hid. pose proof (proj2 (ledger_lookup rows (d_ID row) x Hnd) (conj Hx Hid)) as H1.
  pose proof (proj2 (ledger_lookup rows (d_ID row) row Hnd) (conj Hrow eq_refl)) as H2. congruence.
Qed.

Lemma fail_row s row failure reason now :
  NoDup (d_ID <$> t_dispatches s) -> row ∈ t_dispatches s -> active row = true ->
  failure <> DISPATCH_FAILURE_UNSPECIFIED ->
  FailDispatch (d_ID row) (d_State row) failure reason now s
  = (inl true, with_dispatches (replace row (set_failed failure reason now row) (t_dispatches s)) s).
Proof.
  intros Hnd Hrow Ha Hf. unfold FailDispatch.
  rewrite active_from_failed. change (active_state (d_State row)) with (active row). rewrite Ha. cbn [negb].
  assert (exists a, dispatchStateToString (d_State row) = Some a) as [a ->].
  { unfold active in Ha. destruct (d_State row); naive_solver. }
  assert (exists b, dispatchFailureToString failure = Some b) as [b ->] by (destruct failure; naive_solver).
  destruct (update_where_move (d_ID row) (d_State row) (set_failed failure reason now) _ (fun _ => eq_refl) Hnd)
    as [H1 _].
  destruct (update_where _ _ _) as [moved rows] eqn:Hu. simpl in H1. f_equal.
  - f_equal. rewrite H1. unfold move.
    rewrite (proj2 (ledger_lookup _ (d_ID row) row Hnd)) by done. by rewrite bool_decide_true.
  - f_equal. unfold update_where in Hu. injection Hu as _ <-. apply map_ext_in. intros x Hx%list_elem_of_In.
    unfold row_is. destruct (String.eqb_spec (d_ID x) (d_ID row)) as [Hid|]; [|done].
    rewrite (same_row _ _ _ Hnd Hx Hrow Hid). by rewrite bool_decide_true.
Qed.
(** Take the next call. *)
Ltac alone_call :=
  match goal with
  | |- context [handle (alone o) (@mbind _ _ _ ?Q ?f (call ?k)) ?w] =>
      change (handle (alone o) (mbind f (call k)) w)
        with (let '(a, w') := alone o k w in handle (alone o) (f a) w')
  end; cbn [alone answer]; cbv beta iota.

(** The row was given up in [w] before [w'], and its issue says so. *)
Definition reported (w' : world) (row : Dispatch) : Prop :=
  existT (CSetLabels (d_IssueNumber row) [LabelAgentFailed] [LabelAgentQueued; LabelAgentRunning]) None ∈ w_trace w'
  /\ existT (CFailureComment row (sweep_timeout d)) None ∈ w_trace w'.

Lemma pending_same row : set_pending (d_LabelsPending row || false) row = row.
Proof. destruct row. unfold set_pending. simpl. by rewrite orb_false_r. Qed.

Lemma failSwept_alone row failure reason w :
  NoDup (d_ID <$> t_dispatches (w_db w)) -> row ∈ t_dispatches (w_db w) -> active row = true ->
  failure <> DISPATCH_FAILURE_UNSPECIFIED ->
  exists w', handle (alone o) (failSwept d row (d_State row) failure reason (sweep_timeout d)) w
             = ((set_failed failure reason (o_now o) row, true, None), w')
    /\ t_dispatches (w_db w') = replace row (set_failed failure reason (o_now o) row) (t_dispatches (w_db w))
    /\ reported w' (set_failed failure reason (o_now o) row) /\ (exists ext, w_trace w' = ext ++ w_trace w).
Proof.
  intros Hnd Hrow Ha Hf. unfold failSwept. do 2 alone_call. cbn [w_db logged].
  rewrite (fail_row (w_db w) row failure reason (o_now o)) by done. cbv beta iota delta [write].
  set (row' := set_failed _ _ _ _). pose proof (pending_same row') as Hsame.
  unfold endLease, observeEnd, projectFailure.
  destruct (dp_HasLeases d), (dp_HasObserver d); cbn -[row' set_pending]; rewrite Hsame; eexists; (split; [reflexivity|]); cbn;
    (split; [done|]); unfold reported; cbn [w_trace logged]; (split; [split; set_solver|]).
  - by eexists [_; _; _; _; _; _].
  - by eexists [_; _; _; _; _].
  - by eexists [_; _; _; _; _].
  - by eexists [_; _; _; _].
Qed.

(** ** The rows of one state *)

Definition listed (todo : list Dispatch) (x : Dispatch) : bool :=
  existsb (fun r => String.eqb (d_ID r) (d_ID x)) todo.

Definition given_up_all (todo rows : list Dispatch) : list Dispatch :=
  map (fun x => if listed todo x then given_up x else x) rows.

Lemma given_up_id row : d_ID (given_up row) = d_ID row.
Proof. unfold given_up. by destruct (cause row) as [[? ?]|]. Qed.

Lemma replace_ids row row' rows : d_ID row' = d_ID row -> d_ID <$> replace row row' rows = d_ID <$> rows.
Proof.
  intros Hid. induction rows as [|x rows IH]; [done|]. csimpl. rewrite IH. f_equal.
  destruct (String.eqb_spec (d_ID x) (d_ID row)); congruence.
Qed.

Lemma replace_same row rows :
  NoDup (d_ID <$> rows) -> row ∈ rows -> replace row row rows = rows.
Proof.
  intros Hnd Hrow. rewrite <- (map_id rows) at 2. apply map_ext_in. intros x Hx%list_elem_of_In.
  destruct (String.eqb_spec (d_ID x) (d_ID row)) as [Hid|]; [|done]. by rewrite (same_row rows x row).
Qed.

Lemma replace_keeps row row' rows x : x ∈ rows -> d_ID x <> d_ID row -> x ∈ replace row row' rows.
Proof.
  intros Hx Hne. apply list_elem_of_In, in_map_iff. exists x. split; [|by apply list_elem_of_In].
  destruct (String.eqb_spec (d_ID x) (d_ID row)); [done|done].
Qed.

Lemma given_up_all_cons row todo rows :
  NoDup (d_ID <$> rows) -> NoDup (d_ID <$> row :: todo) -> row ∈ rows ->
  given_up_all (row :: todo) rows = given_up_all todo (replace row (given_up row) rows).
Proof.
  intros Hnd [Hnot _]%NoDup_cons Hrow. unfold given_up_all, replace. rewrite map_map. apply map_ext_in.
  intros x Hx%list_elem_of_In. unfold listed at 1. cbn [existsb]. rewrite (String.eqb_sym (d_ID row)).
  destruct (String.eqb_spec (d_ID x) (d_ID row)) as [Hid|]; [|done]. cbn [orb].
  rewrite (same_row rows x row) by done.
  assert (listed todo (given_up row) = false) as ->; [|done].
  apply not_true_is_false. unfold listed. rewrite existsb_exists. intros (r & Hr & Heq%String.eqb_eq).
  apply Hnot. rewrite given_up_id in Heq. rewrite <- Heq. apply list_elem_of_fmap_2. by apply list_elem_of_In.
Qed.

Lemma verdict_alone row w :
  exists w', handle (alone o) (sweep_verdict d (sweep_timeout d) (sweep_grace d)
                                 (row_age (d_State row) row (o_now o)) row) w = (cause row, w')
    /\ w_db w' = w_db w /\ exists ext, w_trace w' = ext ++ w_trace w.
Proof.
  unfold sweep_verdict, cause. cbv zeta. destruct (sweep_timeout d <=? _); [exists w; split_and!; [done..|by exists []]|].
  destruct (dp_HasLeases d && (sweep_grace d <=? _)); cbn [andb]; [|exists w; split_and!; [done..|by exists []]].
  alone_call. eexists. split; [cbn [handle mret prog_mret]; apply (f_equal2 pair); [by destruct (o_live o _)|reflexivity]|].
  split; [done|by eexists [_]].
Qed.

Lemma reported_grows w w' row : (exists ext, w_trace w' = ext ++ w_trace w) -> reported w row -> reported w' row.
Proof.
  intros [ext Htr] [H1 H2]. unfold reported. rewrite Htr. split; apply elem_of_app; by right.
Qed.

Lemma ext_trans (t1 t2 t3 : list tevent) :
  (exists e, t2 = e ++ t1) -> (exists e, t3 = e ++ t2) -> exists e, t3 = e ++ t1.
Proof. intros [e1 ->] [e2 ->]. exists (e2 ++ e1). by rewrite app_assoc. Qed.

Lemma cause_specified row failure reason : cause row = Some (failure, reason) -> failure <> DISPATCH_FAILURE_UNSPECIFIED.
Proof. unfold cause. repeat case_match; intros; simplify_eq; done. Qed.

Lemma sweep_rows_alone st todo swept w :
  active_state st = true -> NoDup (d_ID <$> t_dispatches (w_db w)) -> NoDup (d_ID <$> todo) ->
  (forall row, row ∈ todo -> row ∈ t_dispatches (w_db w) /\ d_State row = st) ->
  exists w', handle (alone o) (sweep_rows d st (sweep_timeout d) (sweep_grace d) todo swept) w
             = ((swept ++ map given_up (filter (fun r => stuck r = true) todo), None), w')
    /\ t_dispatches (w_db w') = given_up_all todo (t_dispatches (w_db w))
    /\ (forall row, row ∈ todo -> stuck row = true -> reported w' (given_up row))
    /\ (exists ext, w_trace w' = ext ++ w_trace w).
Proof.
  intros Hst. revert swept w. induction todo as [|row todo IH]; intros swept w Hnd Hnt Htodo.
  { eexists. split_and!; [simpl; by rewrite app_nil_r|symmetry; apply map_id| |by exists []].
    by intros ? ?%elem_of_nil. }
  destruct (Htodo row ltac:(by left)) as [Hrow Hstate].
  assert (Ha : active row = true) by (unfold active; congruence).
  pose proof Hnt as [Hnot Hnt']%NoDup_cons.
  cbn [sweep_rows]. do 2 alone_call. rewrite handle_bind, <- Hstate.
  set (w0 := logged CNow _ _ _ _ _).
  assert (Hw0 : exists e, w_trace w0 = e ++ w_trace w) by (by eexists [_; _]).
  destruct (verdict_alone row w0) as (w1 & -> & Hdb & He1). cbv beta iota.
  assert (Hkeep : forall w2, t_dispatches (w_db w2) = replace row (given_up row) (t_dispatches (w_db w)) ->
    NoDup (d_ID <$> t_dispatches (w_db w2)) /\
    (forall r, r ∈ todo -> r ∈ t_dispatches (w_db w2) /\ d_State r = st)).
  { intros w2 Hw2. rewrite Hw2, replace_ids by apply given_up_id. split; [done|]. intros r Hr.
    destruct (Htodo r ltac:(by right)) as [Hin Hs]. split; [|done]. apply replace_keeps; [done|].
    intros Hid. apply Hnot. rewrite <- Hid. by apply list_elem_of_fmap_2. }
  destruct (cause row) as [[failure reason]|] eqn:Hc.
  - assert (Hgu : given_up row = set_failed failure reason (o_now o) row) by (unfold given_up; by rewrite Hc).
    assert (Hsk : stuck row = true) by (unfold stuck; by rewrite Hc).
    rewrite handle_bind.
    destruct (failSwept_alone row failure reason w1) as (w2 & -> & Hw2 & Hrep & He2);
      [by rewrite Hdb|by rewrite Hdb|done|by eapply cause_specified|].
    cbv beta iota. rewrite <- Hgu, Hdb in Hw2. destruct (Hkeep w2 Hw2) as [Hnd2 Htodo2].
    destruct (IH (swept ++ [given_up row]) w2 Hnd2 Hnt' Htodo2) as (w3 & Hrun & Hw3 & Hrep3 & He3).
    rewrite <- Hstate, Hgu in Hrun. exists w3. rewrite Hrun. split_and!.
    + rewrite filter_cons_True by done. cbn [map]. by rewrite Hgu, <- app_assoc.
    + rewrite Hw3, given_up_all_cons by done. by rewrite Hw2.
    + intros r [->|Hr]%elem_of_cons Hs; [|by apply Hrep3]. rewrite Hgu. by eapply reported_grows.
    + eapply ext_trans; [exact Hw0|]. eapply ext_trans; [exact He1|]. by eapply ext_trans.
  - assert (Hgu : given_up row = row) by (unfold given_up; by rewrite Hc).
    assert (Hsk : stuck row = false) by (unfold stuck; by rewrite Hc).
    assert (Hw1 : t_dispatches (w_db w1) = replace row (given_up row) (t_dispatches (w_db w))).
    { rewrite Hdb, Hgu. symmetry. by apply replace_same. }
    destruct (Hkeep w1 Hw1) as [Hnd2 Htodo2].
    destruct (IH swept w1 Hnd2 Hnt' Htodo2) as (w3 & Hrun & Hw3 & Hrep3 & He3).
    rewrite <- Hstate in Hrun. exists w3. rewrite Hrun. split_and!.
    + by rewrite filter_cons_False by congruence.
    + rewrite Hw3, given_up_all_cons by done. by rewrite Hw1.
    + intros r [->|Hr]%elem_of_cons Hs; [congruence|by apply Hrep3].
    + eapply ext_trans; [exact Hw0|]. by eapply ext_trans.
Qed.
(** ** Both states *)

(** The rows of the connection in one state, newest first. *)
Definition rows_in (st : TrackerDispatchState) (s : db) : list Dispatch :=
  match ListDispatches u c st s with inl rows => rows | inr _ => [] end.

Hypothesis (Hu : u <> "").

Lemma rows_in_spec st s row :
  active_state st = true ->
  row ∈ rows_in st s <->
  row ∈ t_dispatches s /\ String.eqb (d_Username row) u && String.eqb (d_Connection row) c = true /\ d_State row = st.
Proof.
  intros Hst. unfold rows_in, ListDispatches. destruct (String.eqb_spec u ""); [done|].
  assert (bool_decide (st = DISPATCH_STATE_UNSPECIFIED) = false) as -> by by destruct st.
  rewrite elem_of_rev, list_elem_of_filter. cbn [orb].
  rewrite andb_true_iff, bool_decide_eq_true. tauto.
Qed.

Lemma list_rows st s : ListDispatches u c st s = inl (rows_in st s).
Proof. unfold rows_in, ListDispatches. by destruct (String.eqb_spec u ""). Qed.

Lemma rows_in_nodup st s : NoDup (d_ID <$> t_dispatches s) -> NoDup (d_ID <$> rows_in st s).
Proof.
  intros Hnd. unfold rows_in, ListDispatches. destruct (String.eqb u ""); [constructor|].
  rewrite <- Permutation_rev. by apply ids_filter.
Qed.

(** One state's worth of sweeping changes the rows of that state. *)
Definition sweep_table (st : TrackerDispatchState) (rows : list Dispatch) : list Dispatch :=
  map (fun x => if watched x && bool_decide (d_State x = st) then given_up x else x) rows.

Lemma given_up_all_table st s :
  active_state st = true -> NoDup (d_ID <$> t_dispatches s) ->
  given_up_all (rows_in st s) (t_dispatches s) = sweep_table st (t_dispatches s).
Proof.
  intros Hst Hnd. apply map_ext_in. intros x Hx%list_elem_of_In.
  assert (listed (rows_in st s) x = watched x && bool_decide (d_State x = st)) as ->; [|done].
  apply Bool.eq_true_iff_eq. unfold listed, watched. rewrite existsb_exists, !andb_true_iff, bool_decide_eq_true. split.
  - intros (r & Hr%list_elem_of_In & Hid%String.eqb_eq). apply rows_in_spec in Hr as (Hr & Huc & Hs); [|done].
    rewrite <- (same_row _ _ _ Hnd Hr Hx Hid). apply andb_true_iff in Huc. unfold active. by rewrite Hs.
  - intros ((Huc & Ha) & Hs). exists x. split; [|apply String.eqb_refl]. apply list_elem_of_In, rows_in_spec; [done|].
    split_and!; [done|by apply andb_true_iff|done].
Qed.

Lemma sweep_state_alone st swept w :
  active_state st = true -> NoDup (d_ID <$> t_dispatches (w_db w)) ->
  exists w', handle (alone o) (sweep_state d u c (sweep_timeout d) (sweep_grace d) st swept) w
             = ((swept ++ map given_up (filter (fun r => stuck r = true) (rows_in st (w_db w))), None), w')
    /\ t_dispatches (w_db w') = sweep_table st (t_dispatches (w_db w))
    /\ (forall row, row ∈ rows_in st (w_db w) -> stuck row = true -> reported w' (given_up row))
    /\ (exists ext, w_trace w' = ext ++ w_trace w).
Proof.
  intros Hst Hnd. unfold sweep_state. alone_call. rewrite list_rows. set (w0 := logged _ _ _ _ _ _).
  destruct (sweep_rows_alone st (rows_in st (w_db w)) swept w0) as (w' & Hrun & Hw' & Hrep & He); [done|done|..].
  - by apply rows_in_nodup.
  - intros row Hrow. apply rows_in_spec in Hrow as (? & _ & ?); done.
  - exists w'. rewrite Hrun. split_and!; [done| |done|].
    + rewrite Hw'. by apply given_up_all_table.
    + eapply ext_trans; [|exact He]. by eexists [_].
Qed.

Lemma given_up_state row : d_State (given_up row) = d_State row \/ d_State (given_up row) = DISPATCH_STATE_FAILED.
Proof. unfold given_up. destruct (cause row) as [[? ?]|]; auto. Qed.

Lemma sweep_table_ids st rows : d_ID <$> sweep_table st rows = d_ID <$> rows.
Proof.
  induction rows as [|x rows IH]; [done|]. csimpl. rewrite IH. f_equal. case_match; [apply given_up_id|done].
Qed.

Lemma rows_in_filter st s :
  rows_in st s = rev (filter (fun r : Dispatch => String.eqb (d_Username r) u && String.eqb (d_Connection r) c
    && (bool_decide (st = DISPATCH_STATE_UNSPECIFIED) || bool_decide (d_State r = st)) = true) (t_dispatches s)).
Proof. unfold rows_in, ListDispatches. by destruct (String.eqb_spec u ""). Qed.

(** The queued rows are still there after the running ones were swept. *)
Lemma queued_after_running s s' :
  t_dispatches s' = sweep_table DISPATCH_STATE_RUNNING (t_dispatches s) ->
  rows_in DISPATCH_STATE_QUEUED s' = rows_in DISPATCH_STATE_QUEUED s.
Proof.
  intros Hs'. rewrite !rows_in_filter, Hs'. f_equal. clear Hs'. induction (t_dispatches s) as [|x rows IH]; [done|].
  cbn [sweep_table map]. rewrite !filter_cons. fold (sweep_table DISPATCH_STATE_RUNNING rows). rewrite IH. clear IH.
  destruct (watched x && bool_decide (d_State x = DISPATCH_STATE_RUNNING)) eqn:Hx; [|done].
  apply andb_true_iff in Hx as [_ Hx%bool_decide_eq_true].
  rewrite !decide_False; [done|..]; rewrite !andb_true_iff; cbn [orb bool_decide decide_rel];
    intros [_ Hq]; apply orb_true_iff in Hq as [Hq|Hq]; apply bool_decide_eq_true in Hq; try done.
  - congruence.
  - destruct (given_up_state x); congruence.
Qed.

Lemma sweep_tables rows :
  sweep_table DISPATCH_STATE_QUEUED (sweep_table DISPATCH_STATE_RUNNING rows)
  = map (fun x => if watched x then given_up x else x) rows.
Proof.
  unfold sweep_table. rewrite map_map. apply map_ext. intros x.
  destruct (watched x) eqn:Hx; cbn [andb]; [|by rewrite Hx].
  destruct (bool_decide_reflect (d_State x = DISPATCH_STATE_RUNNING)) as [Hr|Hr].
  - rewrite (bool_decide_false (d_State (given_up x) = _)), andb_false_r; [done|].
    destruct (given_up_state x); congruence.
  - rewrite Hx. cbn [andb]. rewrite bool_decide_true; [done|].
    unfold watched, active, active_state in Hx. destruct (d_State x); rewrite ?andb_false_r in Hx; done.
Qed.
End Sweep.

(** The sweep makes progress.  When nothing fails and nobody interferes, one sweep of a
    connection returns without error, and fails exactly the rows of that connection, QUEUED
    and RUNNING, whose age has reached the run timeout or which have no live lease after the
    grace period, with the cause that applies (timeout before lease loss); it changes no other
    row; and each failed row has been reported on its issue: failure comment and labels. *)
Theorem sweep_fails_stuck_rows o d u c w :
  u <> "" -> NoDup (d_ID <$> t_dispatches (w_db w)) ->
  exists w', handle (alone o) (sweep d u c) w
             = ((map (given_up o d) (filter (fun r => stuck o d r = true)
                   (rows_in u c DISPATCH_STATE_RUNNING (w_db w) ++ rows_in u c DISPATCH_STATE_QUEUED (w_db w))), None), w')
    /\ t_dispatches (w_db w') = map (fun row => if watched u c row then given_up o d row else row) (t_dispatches (w_db w))
    /\ (forall row, row ∈ t_dispatches (w_db w) -> watched u c row = true -> stuck o d row = true ->
          reported d w' (given_up o d row)).
Proof.
  intros Hu Hnd. unfold sweep. rewrite handle_bind.
  destruct (sweep_state_alone o d u c Hu DISPATCH_STATE_RUNNING [] w) as (w1 & -> & Hw1 & Hr1 & He1); [done|done|].
  cbv beta iota.
  destruct (sweep_state_alone o d u c Hu DISPATCH_STATE_QUEUED
              ([] ++ map (given_up o d) (filter (fun r => stuck o d r = true) (rows_in u c DISPATCH_STATE_RUNNING (w_db w)))) w1)
    as (w2 & -> & Hw2 & Hr2 & He2); [done|by rewrite Hw1, sweep_table_ids|].
  exists w2. rewrite (queued_after_running o d u c Hu _ _ Hw1) in *. split_and!.
  - by rewrite filter_app, map_app.
  - by rewrite Hw2, Hw1, sweep_tables.
  - intros row Hrow Hwatch Hst. unfold watched in Hwatch. apply andb_true_iff in Hwatch as [Huc Ha].
    unfold active in Ha. destruct (d_State row) eqn:Hs; try done.
    + apply Hr2; [|done]. by apply rows_in_spec.
    + eapply reported_grows; [exact He2|]. apply Hr1; [|done]. by apply rows_in_spec.
Qed.

Lemma sweep_fails_stuck_rows_witness :
  map d_Failure (t_dispatches (w_db (handle (alone ex_outside) (sweep ex_dispatcher "alice" "gh") (ex_world [ex_row])).2))
  = [DISPATCH_FAILURE_TIMEOUT] /\
  exists w', handle (alone ex_outside) (sweep ex_dispatcher "alice" "gh") (ex_world [ex_row])
             = (([given_up ex_outside ex_dispatcher ex_row], None), w').
Proof.
  split; [vm_compute; reflexivity|].
  destruct (sweep_fails_stuck_rows ex_outside ex_dispatcher "alice" "gh" (ex_world [ex_row])) as (w' & Hrun & _).
  - discriminate.
  - apply NoDup_singleton.
  - exists w'. rewrite Hrun. vm_compute. reflexivity.
Defined.
