(* ===== verification/DispatchInv.v ===== *)
(** * The dispatch invariant

    What ties the tokens that the dispatcher threads hold (DispatchProtocol) to the table
    (DispatchTable) and to the numbers of launches and reports per row, and the rule that
    preserves it: a call of one thread touches one row, so only the conditions on that row
    have to be checked. *)

From S2P Require Import Prelude Prog GoStrings Labels TrackerStore TrackerApi DispatchTable Dispatch DispatchProtocol.
#[local] Open Scope string_scope.
#[local] Open Scope list_scope.
#[local] Open Scope nat_scope.

Definition has (t : kind * string) (g : gset (kind * string)) : nat := if decide (t ∈ g) then 1 else 0.
Definition total (t : kind * string) (G : list (gset (kind * string))) : nat := sum_list (has t <$> G).

Lemma has_le t g : has t g <= 1.
Proof. unfold has. destruct (decide _); lia. Qed.
Lemma has_pos t g : t ∈ g <-> has t g = 1.
Proof. unfold has. destruct (decide _); naive_solver. Qed.
Lemma has_union_ne t X g : t ∉ X -> has t (X ∪ g) = has t g.
Proof. intros Ht. unfold has. repeat destruct (decide _); set_solver. Qed.
Lemma has_diff_ne t X g : t ∉ X -> has t (g ∖ X) = has t g.
Proof. intros Ht. unfold has. repeat destruct (decide _); set_solver. Qed.
Lemma has_diff_in t X g : t ∈ X -> has t (g ∖ X) = 0.
Proof. intros Ht. unfold has. repeat destruct (decide _); set_solver. Qed.
Lemma has_union_in t X g : t ∈ X -> has t (X ∪ g) = 1.
Proof. intros Ht. unfold has. repeat destruct (decide _); set_solver. Qed.

(** Membership of a token in a small set of tokens. *)
Ltac tok := rewrite ?elem_of_union, ?elem_of_difference, ?elem_of_singleton; unfold err in *; naive_solver.
Ltac has_simp :=
  repeat match goal with
  | |- context [has ?t (?X ∪ ?g)] => rewrite (has_union_ne t X g) by tok
  | |- context [has ?t (?X ∪ ?g)] => rewrite (has_union_in t X g) by tok
  | |- context [has ?t (?g ∖ ?X)] => rewrite (has_diff_ne t X g) by tok
  | |- context [has ?t (?g ∖ ?X)] => rewrite (has_diff_in t X g) by tok
  end.

Lemma token_total_app t G1 G2 : total t (G1 ++ G2) = total t G1 + total t G2.
Proof. unfold total. induction G1; csimpl; lia. Qed.
Lemma total_in t g G : g ∈ G -> t ∈ g -> 1 <= total t G.
Proof.
  intros Hg Ht%has_pos. induction Hg as [g G|g h G Hg IH]; unfold total in *; csimpl; [lia|specialize (IH Ht); lia].
Qed.

Lemma total_empty t : total t [∅] = 0.
Proof. unfold total, has. csimpl. by rewrite decide_False by apply not_elem_of_empty. Qed.
Lemma in_old (t : kind * string) (g : gset (kind * string))
  (G : list (gset (kind * string))) : g ∈ G ++ [∅] -> t ∈ g -> g ∈ G.
Proof. intros [?| ->%list_elem_of_singleton]%elem_of_app; [done|]. by intros ?%not_elem_of_empty. Qed.

Section Invariant.
(** The rows that were there before. *)
Context (ids0 : gset string).

Definition row_active (L : ledger) (i : string) : Prop := exists d, L !! i = Some d /\ active d = true.
Definition row_state (L : ledger) (i : string) : option TrackerDispatchState := d_State <$> L !! i.
#[export] Instance row_active_dec L i : Decision (row_active L i).
Proof.
  refine (match L !! i as o return L !! i = o -> _ with
          | Some d => fun H => if decide (active d = true) then left _ else right _
          | None => fun H => right _
          end eq_refl); unfold row_active; naive_solver.
Defined.

Definition minted (ids : gset string) (i : string) : nat := if decide (i ∈ ids /\ i ∉ ids0) then 1 else 0.
Definition over (L : ledger) (ids : gset string) (i : string) : nat :=
  if decide (i ∈ ids /\ ~ row_active L i) then 1 else 0.
Definition failed (L : ledger) (ids : gset string) (i : string) : nat :=
  if decide (i ∈ ids /\ (L !! i = None \/ row_state L i = Some DISPATCH_STATE_FAILED)) then 1 else 0.

Record inv (L : ledger) (ids : gset string) (nl ne nc : string -> nat) (E : Prop)
  (G : list (gset (kind * string))) : Prop := {
  i_ids : forall i, is_Some (L !! i) -> i ∈ ids;
  i_old : forall i, i ∈ ids0 -> i ∈ ids;
  i_start : forall i, total (KStart, i) G + total (KGo, i) G + nl i <= minted ids i;
  i_obs : forall i, total (KObs, i) G + ne i <= over L ids i;
  i_cmt : forall i, total (KCmt, i) G + nc i <= failed L ids i;
  i_run : forall i g, g ∈ G -> (KStart, i) ∈ g -> row_state L i <> Some DISPATCH_STATE_RUNNING;
  i_fin : forall i g, g ∈ G -> (KFin, i) ∈ g -> i ∈ ids;
  i_queue : forall i g, g ∈ G -> (KGo, i) ∈ g \/ (KFin, i) ∈ g ->
                        E \/ row_state L i <> Some DISPATCH_STATE_QUEUED;
  i_owe : forall i, i ∉ ids0 -> row_active L i -> E \/ exists g, g ∈ G /\ (KOwe, i) ∈ g;
  i_err : forall g, g ∈ G -> err ∈ g -> E;
}.

Lemma inv_error L ids nl ne nc (E E' : Prop) G : (E -> E') -> inv L ids nl ne nc E G -> inv L ids nl ne nc E' G.
Proof.
  intros HE [? ? ? ? ? ? ? Hq Ho He]. split; try done.
  - intros i g Hg Hi. destruct (Hq i g Hg Hi); auto.
  - intros i Hi Ha. destruct (Ho i Hi Ha); auto.
  - eauto.
Qed.

(** A thread that starts, or rows that a connection takes with it. *)
Lemma inv_fresh L ids nl ne nc E G : inv L ids nl ne nc E G -> inv L ids nl ne nc E (G ++ [∅]).
Proof.
  intros [? ? Hs Hob Hcm Hr Hfi Hq Ho He]. split; try done; try (intros i; rewrite !token_total_app, !total_empty, !Nat.add_0_r; auto).
  - intros i g Hg Hi. eauto using in_old.
  - intros i g Hg Hi. eauto using in_old.
  - intros i g Hg Hi. eapply Hq; [destruct Hi; by eapply in_old|done].
  - intros i Hi Ha. destruct (Ho i Hi Ha) as [?|(g & ? & ?)]; [by left|right].
    exists g. split; [apply elem_of_app; by left|done].
  - eauto using in_old.
Qed.

Lemma inv_cascade L L' ids nl ne nc E G : L' ⊆ L -> inv L ids nl ne nc E G -> inv L' ids nl ne nc E G.
Proof.
  intros HL [Hid ? Hs Hob Hcm Hr Hfi Hq Ho He].
  assert (Hst : forall i x, row_state L' i = Some x -> row_state L i = Some x).
  { unfold row_state. intros i x (d & Hd & ->)%fmap_Some. by rewrite (lookup_weaken _ _ _ _ Hd HL). }
  assert (Hact : forall i, row_active L' i -> row_active L i).
  { intros i (d & Hd & Ha). exists d. split; [by eapply lookup_weaken|done]. }
  split; try done.
  - intros i [d Hd]. apply Hid. exists d. by eapply lookup_weaken.
  - intros i. etransitivity; [apply Hob|]. unfold over. repeat destruct (decide _); naive_solver.
  - intros i. etransitivity; [apply Hcm|]. unfold failed.
    destruct (decide (i ∈ ids /\ (L !! i = None \/ _))) as [[Hi Hf]|]; [|lia].
    rewrite decide_True; [done|]. split; [done|]. destruct (L' !! i) as [d|] eqn:Hd; [right|by left].
    pose proof (lookup_weaken _ _ _ _ Hd HL) as Hd'. destruct Hf as [Hf|Hf]; [congruence|].
    unfold row_state in *. by rewrite Hd' in Hf; rewrite Hd.
  - intros i g Hg Hi ?%Hst. by eapply Hr.
  - intros i g Hg Hi. destruct (Hq i g Hg Hi); [by left|right]. intros ?%Hst. done.
  - intros i Hi Ha%Hact. by apply Ho.
Qed.

(** One call of one thread, which touches row [x] only: the conditions that are left are
    about [x]. *)
Section Step.
Context (x : string) (L L' : ledger) (ids ids' : gset string) (nl nl' ne ne' nc nc' : string -> nat)
  (E E' : Prop) (G1 G2 N : list (gset (kind * string))) (g g' : gset (kind * string)).

Record untouched (i : string) : Prop := {
  un_row : L' !! i = L !! i;
  un_ids : i ∈ ids' <-> i ∈ ids;
  un_nl : nl' i = nl i;
  un_ne : ne' i = ne i;
  un_nc : nc' i = nc i;
  un_g : forall k, k <> KErr -> (k, i) ∈ g' <-> (k, i) ∈ g;
}.

Lemma un_active i : untouched i -> row_active L' i <-> row_active L i.
Proof. intros Hu. unfold row_active. by rewrite (un_row _ Hu). Qed.

Lemma total_mid t : total t (G1 ++ g :: G2) = total t (G1 ++ G2) + has t g.
Proof. rewrite !token_total_app. unfold total. csimpl. lia. Qed.
Lemma total_mid' t : total t (G1 ++ g' :: G2 ++ N) = total t (G1 ++ G2) + has t g' + total t N.
Proof.
  rewrite app_comm_cons, app_assoc, token_total_app, token_total_app, (token_total_app _ G1 G2). unfold total. csimpl. lia.
Qed.

Lemma row_inv_step :
  inv L ids nl ne nc E (G1 ++ g :: G2) -> (E -> E') ->
  (forall h k i, h ∈ N -> (k, i) ∈ h -> i = x /\ (k = KFin \/ k = KOwe)) ->
  (forall i, i <> x -> untouched i) ->
  (is_Some (L' !! x) -> x ∈ ids') -> (x ∈ ids -> x ∈ ids') ->
  has (KStart, x) g' + has (KGo, x) g' + nl' x + minted ids x
    <= has (KStart, x) g + has (KGo, x) g + nl x + minted ids' x ->
  has (KObs, x) g' + ne' x + over L ids x <= has (KObs, x) g + ne x + over L' ids' x ->
  has (KCmt, x) g' + nc' x + failed L ids x <= has (KCmt, x) g + nc x + failed L' ids' x ->
  (forall h, h ∈ G1 ++ g' :: G2 -> (KStart, x) ∈ h -> row_state L' x <> Some DISPATCH_STATE_RUNNING) ->
  (forall h, h ∈ G1 ++ g' :: G2 ++ N -> (KFin, x) ∈ h -> x ∈ ids') ->
  (forall h, h ∈ G1 ++ g' :: G2 ++ N -> (KGo, x) ∈ h \/ (KFin, x) ∈ h ->
             E' \/ row_state L' x <> Some DISPATCH_STATE_QUEUED) ->
  (x ∉ ids0 -> row_active L' x -> E' \/ exists h, h ∈ G1 ++ g' :: G2 ++ N /\ (KOwe, x) ∈ h) ->
  (err ∈ g' -> err ∈ g \/ E') ->
  inv L' ids' nl' ne' nc' E' (G1 ++ g' :: G2 ++ N).
Proof.
  intros [Hid Hold Hs Hob Hcm Hr Hfi Hq Ho He] HE HN Hun Hid' Hold' Hs' Hob' Hcm' Hr' Hfi' Hq' Ho' He'.
  assert (HN0 : forall k i, k <> KFin -> k <> KOwe -> total (k, i) N = 0).
  { intros k i Hk Hk'. clear -HN Hk Hk'. induction N as [|h M IH]; [done|]. unfold total in *. csimpl.
    rewrite IH by (intros; eapply HN; [by right|done]). unfold has. rewrite decide_False; [done|].
    intros Hh. by destruct (HN h k i ltac:(by left) Hh) as [_ [?|?]]. }
  assert (Hhas : forall i k, i <> x -> k <> KErr -> has (k, i) g' = has (k, i) g).
  { intros i k Hi Hk. unfold has. pose proof (un_g _ (Hun i Hi) k Hk). repeat destruct (decide _); tauto. }
  assert (Hmem : forall h i k, i <> x -> k <> KErr -> h ∈ G1 ++ g' :: G2 ++ N -> (k, i) ∈ h ->
                   exists h', h' ∈ G1 ++ g :: G2 /\ (k, i) ∈ h').
  { intros h i k Hi Hk [Hh|[->|[Hh|Hh]%elem_of_app]%elem_of_cons]%elem_of_app Hh'.
    - exists h. split; [apply elem_of_app; by left|done].
    - exists g. split; [apply elem_of_app; right; by left|by apply (un_g _ (Hun i Hi))].
    - exists h. split; [apply elem_of_app; right; by right|done].
    - by destruct (HN _ _ _ Hh Hh'). }
  assert (Hback : forall h i k, i <> x -> k <> KErr -> h ∈ G1 ++ g :: G2 -> (k, i) ∈ h ->
                   exists h', h' ∈ G1 ++ g' :: G2 ++ N /\ (k, i) ∈ h').
  { intros h i k Hi Hk [Hh|[->|Hh]%elem_of_cons]%elem_of_app Hh'.
    - exists h. split; [apply elem_of_app; by left|done].
    - exists g'. split; [apply elem_of_app; right; by left|by apply (un_g _ (Hun i Hi))].
    - exists h. split; [apply elem_of_app; right; right; apply elem_of_app; by left|done]. }
  assert (HnoN : forall h, h ∈ N -> (KStart, x) ∉ h).
  { intros h Hh Hk. by destruct (HN _ _ _ Hh Hk) as [_ [?|?]]. }
  split.
  - intros i Hi. destruct (decide (i = x)) as [->|Hne]; [auto|].
    apply (un_ids _ (Hun i Hne)), Hid. by rewrite <- (un_row _ (Hun i Hne)).
  - intros i Hi. destruct (decide (i = x)) as [->|Hne]; [auto|]. apply (un_ids _ (Hun i Hne)); auto.
  - intros i. specialize (Hs i). rewrite !total_mid in Hs. rewrite !total_mid', !HN0 by done.
    destruct (decide (i = x)) as [->|Hne]; [lia|].
    rewrite !Hhas, (un_nl _ (Hun i Hne)) by done. unfold minted in *. pose proof (un_ids _ (Hun i Hne)).
    repeat destruct (decide _); try tauto; lia.
  - intros i. specialize (Hob i). rewrite !total_mid in Hob. rewrite !total_mid', !HN0 by done.
    destruct (decide (i = x)) as [->|Hne]; [lia|].
    rewrite !Hhas, (un_ne _ (Hun i Hne)) by done. unfold over in *.
    pose proof (un_ids _ (Hun i Hne)). pose proof (un_active _ (Hun i Hne)). repeat destruct (decide _); try tauto; lia.
  - intros i. specialize (Hcm i). rewrite !total_mid in Hcm. rewrite !total_mid', !HN0 by done.
    destruct (decide (i = x)) as [->|Hne]; [lia|].
    rewrite !Hhas, (un_nc _ (Hun i Hne)) by done. unfold failed, row_state in *.
    pose proof (un_ids _ (Hun i Hne)). rewrite <- (un_row _ (Hun i Hne)) in Hcm. repeat destruct (decide _); try tauto; lia.
  - intros i h Hh Hk. destruct (decide (i = x)) as [->|Hne].
    + apply (Hr' h); [|done]. rewrite app_comm_cons, app_assoc in Hh.
      apply elem_of_app in Hh as [?|Hh]; [done|]. by destruct (HnoN h Hh).
    + destruct (Hmem h i KStart Hne ltac:(done) Hh Hk) as (h' & Hh' & Hk').
      unfold row_state. rewrite (un_row _ (Hun i Hne)). by eapply Hr.
  - intros i h Hh Hk. destruct (decide (i = x)) as [->|Hne]; [eauto|].
    destruct (Hmem h i KFin Hne ltac:(done) Hh Hk) as (h' & Hh' & Hk').
    apply (un_ids _ (Hun i Hne)). by eapply Hfi.
  - intros i h Hh Hk. destruct (decide (i = x)) as [->|Hne].
    + by apply (Hq' h).
    + assert (exists h', h' ∈ G1 ++ g :: G2 /\ ((KGo, i) ∈ h' \/ (KFin, i) ∈ h')) as (h' & Hh' & Hk').
      { destruct Hk as [Hk|Hk]; eapply Hmem in Hk as (h' & Hh' & Hk'); eauto. }
      unfold row_state. rewrite (un_row _ (Hun i Hne)). destruct (Hq i h' Hh' Hk'); [left; auto|by right].
  - intros i Hi Ha. destruct (decide (i = x)) as [->|Hne].
    + by apply Ho'.
    + unfold row_active in Ha. rewrite (un_row _ (Hun i Hne)) in Ha.
      destruct (Ho i Hi Ha) as [?|(h & Hh & Hk)]; [left; auto|right]. by eapply Hback.
  - intros h Hh Hk. apply elem_of_app in Hh as [Hh|[->|[Hh|Hh]%elem_of_app]%elem_of_cons].
    + apply HE, (He h); [apply elem_of_app; by left|done].
    + destruct (He' Hk); [|done]. apply HE, (He g); [apply elem_of_app; right; by left|done].
    + apply HE, (He h); [apply elem_of_app; right; by right|done].
    + by destruct (HN _ _ _ Hh Hk) as [_ [?|?]].
Qed.
End Step.

(** Only the values of the counters matter. *)
Lemma inv_ext L ids nl nl' ne ne' nc nc' E G :
  (forall i, nl' i = nl i) -> (forall i, ne' i = ne i) -> (forall i, nc' i = nc i) ->
  inv L ids nl ne nc E G -> inv L ids nl' ne' nc' E G.
Proof. intros Hl He Hc []. split; try done; intros i; rewrite ?Hl, ?He, ?Hc; auto. Qed.

(** A call that leaves the table alone, and at most drops tokens. *)
Lemma inv_drop L ids nl ne nc (E E' : Prop) G1 g g' G2 :
  inv L ids nl ne nc E (G1 ++ g :: G2) -> (E -> E') ->
  (forall k i, k <> KErr -> (k, i) ∈ g' -> (k, i) ∈ g) ->
  (forall i, (KOwe, i) ∈ g -> (KOwe, i) ∈ g' \/ E' \/ ~ row_active L i) ->
  (err ∈ g' -> err ∈ g \/ E') ->
  inv L ids nl ne nc E' (G1 ++ g' :: G2).
Proof.
  intros [Hid Hold Hs Hob Hcm Hr Hfi Hq Ho He] HE Hg HO Herr.
  assert (Hle : forall k i, k <> KErr -> total (k, i) (G1 ++ g' :: G2) <= total (k, i) (G1 ++ g :: G2)).
  { intros k i Hk. rewrite !total_mid. unfold has. pose proof (Hg k i Hk). repeat destruct (decide _); try tauto; lia. }
  assert (Hin : forall h k i, k <> KErr -> h ∈ G1 ++ g' :: G2 -> (k, i) ∈ h ->
                  exists h', h' ∈ G1 ++ g :: G2 /\ (k, i) ∈ h').
  { intros h k i Hk [Hh|[->|Hh]%elem_of_cons]%elem_of_app Hi.
    - exists h. split; [apply elem_of_app; by left|done].
    - exists g. split; [apply elem_of_app; right; by left|by apply Hg].
    - exists h. split; [apply elem_of_app; right; by right|done]. }
  split; try done.
  - intros i. pose proof (Hle KStart i ltac:(done)). pose proof (Hle KGo i ltac:(done)). specialize (Hs i). lia.
  - intros i. pose proof (Hle KObs i ltac:(done)). specialize (Hob i). lia.
  - intros i. pose proof (Hle KCmt i ltac:(done)). specialize (Hcm i). lia.
  - intros i h Hh Hi. destruct (Hin h KStart i ltac:(done) Hh Hi) as (h' & Hh' & Hi'). eauto.
  - intros i h Hh Hi. destruct (Hin h KFin i ltac:(done) Hh Hi) as (h' & Hh' & Hi'). eauto.
  - intros i h Hh Hi. assert (exists h', h' ∈ G1 ++ g :: G2 /\ ((KGo, i) ∈ h' \/ (KFin, i) ∈ h')) as (h' & Hh' & Hi').
    { destruct Hi as [Hi|Hi]; eapply Hin in Hi as (h' & ? & ?); eauto. }
    destruct (Hq i h' Hh' Hi'); auto.
  - intros i Hi Ha. destruct (Ho i Hi Ha) as [?|(h & Hh & Hi')]; [auto|].
    apply elem_of_app in Hh as [Hh|[->|Hh]%elem_of_cons].
    + right. exists h. split; [apply elem_of_app; by left|done].
    + destruct (HO i Hi') as [?|[?|?]]; [right|by left|done].
      exists g'. split; [apply elem_of_app; right; by left|done].
    + right. exists h. split; [apply elem_of_app; right; by right|done].
  - intros h Hh Hi. apply elem_of_app in Hh as [Hh|[->|Hh]%elem_of_cons].
    + apply HE, (He h); [apply elem_of_app; by left|done].
    + destruct (Herr Hi) as [Hi'|?]; [|done]. apply HE, (He g); [apply elem_of_app; right; by left|done].
    + apply HE, (He h); [apply elem_of_app; right; by right|done].
Qed.
End Invariant.

(** What a move does to the row, when it is one of the table's. *)
Lemma move_cases id from f (L : ledger) :
  (exists d, L !! id = Some d /\ d_State d = from /\ move id from f L = (true, <[id := f d]> L))
  \/ (row_state L id <> Some from /\ move id from f L = (false, L)).
Proof.
  unfold move, row_state. destruct (L !! id) as [d|] eqn:Hd; [|by right].
  destruct (bool_decide_reflect (d_State d = from)); [left; eauto|right]. split; [|done]. by intros [= ?].
Qed.

(** The state that an active row is in. *)
Lemma active_cases L i :
  row_active L i <-> row_state L i = Some DISPATCH_STATE_QUEUED \/ row_state L i = Some DISPATCH_STATE_RUNNING.
Proof.
  unfold row_active, row_state, active. split.
  - intros (d & -> & Ha). simpl. destruct (d_State d); try done; [by left|by right].
  - intros [(d & -> & Hd)%fmap_Some|(d & -> & Hd)%fmap_Some]; exists d; by rewrite <- Hd.
Qed.
