(* ===== verification/DispatchMoves.v ===== *)
(** * The dispatch invariant, move by move

    Each change that a statement makes to a row, with the tokens that go with it, keeps
    the invariant of DispatchInv. *)

From S2P Require Import Prelude Prog GoStrings Labels TrackerStore TrackerApi DispatchTable Dispatch DispatchProtocol.
From S2P Require Import DispatchInv.
#[local] Open Scope string_scope.
#[local] Open Scope list_scope.
#[local] Open Scope nat_scope.

Lemma state_insert (L : ledger) x d : row_state (<[x := d]> L) x = Some (d_State d).
Proof. unfold row_state. by rewrite lookup_insert_eq. Qed.

Lemma active_insert (L : ledger) x d : row_active (<[x := d]> L) x <-> active d = true.
Proof. unfold row_active. rewrite lookup_insert_eq. naive_solver. Qed.

Lemma over_active (L : ledger) ids x : row_active L x -> over L ids x = 0.
Proof. intros Ha. unfold over. rewrite decide_False; naive_solver. Qed.

Lemma over_done (L : ledger) ids x : x ∈ ids -> ~ row_active L x -> over L ids x = 1.
Proof. intros Hx Ha. unfold over. by rewrite decide_True. Qed.

Lemma failed_other (L : ledger) ids x st :
  row_state L x = Some st -> st <> DISPATCH_STATE_FAILED -> failed L ids x = 0.
Proof.
  unfold failed, row_state. intros Hst Hne. rewrite decide_False; [done|].
  intros [_ [HN|Hs]]; [by rewrite HN in Hst|congruence].
Qed.

Lemma failed_is (L : ledger) ids x :
  x ∈ ids -> row_state L x = Some DISPATCH_STATE_FAILED -> failed L ids x = 1.
Proof. intros Hx Hs. unfold failed. rewrite decide_True; [done|]. split; [done|by right]. Qed.

Lemma failed_active (L : ledger) ids x : row_active L x -> failed L ids x = 0.
Proof. intros [Hs|Hs]%active_cases; by eapply failed_other. Qed.

Section Moves.
Context (ids0 : gset string) (x : string) (L : ledger) (ids : gset string) (nl ne nc : string -> nat).
Context (E E' : Prop) (G1 G2 : list (gset (kind * string))) (g : gset (kind * string)).
Hypothesis (HI : inv ids0 L ids nl ne nc E (G1 ++ g :: G2)) (HE : E -> E').

(** [x]'s row changes to [d'], and the tokens to [g'], which differs from [g] at most in
    tokens of [x]. *)
Context (d d' : Dispatch) (g' : gset (kind * string)).
Hypothesis (Hd : L !! x = Some d).
Hypothesis (Hg' : forall k i, i <> x -> k <> KErr -> (k, i) ∈ g' <-> (k, i) ∈ g).
Hypothesis (Herr : err ∈ g' -> err ∈ g \/ E').

Lemma x_minted : x ∈ ids.
Proof. apply (i_ids _ _ _ _ _ _ _ _ HI). by exists d. Qed.
Lemma untouched_insert i : i <> x -> untouched L (<[x := d']> L) ids ids nl nl ne ne nc nc g g' i.
Proof. intros Hi. split; try done; [by apply lookup_insert_ne|]. intros k. by apply Hg'. Qed.

(** [d'] in the place of [d]: what is left to check. *)
Lemma inv_row :
  has (KStart, x) g' + has (KGo, x) g' <= has (KStart, x) g + has (KGo, x) g ->
  has (KObs, x) g' + over L ids x <= has (KObs, x) g + over (<[x := d']> L) ids x ->
  has (KCmt, x) g' + failed L ids x <= has (KCmt, x) g + failed (<[x := d']> L) ids x ->
  (forall h, h ∈ G1 ++ g' :: G2 -> (KStart, x) ∈ h -> d_State d' <> DISPATCH_STATE_RUNNING) ->
  (forall h, h ∈ G1 ++ g' :: G2 -> (KGo, x) ∈ h \/ (KFin, x) ∈ h ->
             E' \/ d_State d' <> DISPATCH_STATE_QUEUED) ->
  (x ∉ ids0 -> active d' = true -> E' \/ exists h, h ∈ G1 ++ g' :: G2 /\ (KOwe, x) ∈ h) ->
  inv ids0 (<[x := d']> L) ids nl ne nc E' (G1 ++ g' :: G2).
Proof.
  intros Hs Ho Hc Hr Hq Hw. rewrite <- (app_nil_r G2) at 1. apply (row_inv_step ids0 x L _ ids _ nl _ ne _ nc _ E _ _ _ _ g).
  - exact HI.
  - exact HE.
  - by intros h k i ?%elem_of_nil.
  - apply untouched_insert.
  - intros _. exact x_minted.
  - done.
  - lia.
  - lia.
  - lia.
  - intros h Hh Hk. rewrite state_insert. specialize (Hr h Hh Hk). congruence.
  - intros h Hh Hk. exact x_minted.
  - intros h. rewrite app_nil_r, state_insert. intros Hh Hk. destruct (Hq h Hh Hk); [by left|right; congruence].
  - by rewrite app_nil_r, active_insert.
  - exact Herr.
Qed.
End Moves.

Section MoveCases.
Context (ids0 : gset string) (x : string) (L : ledger) (ids : gset string) (nl ne nc : string -> nat).
Context (E E' : Prop) (G1 G2 : list (gset (kind * string))) (g : gset (kind * string)).
Hypothesis (HI : inv ids0 L ids nl ne nc E (G1 ++ g :: G2)) (HE : E -> E').

Let I' (L' : ledger) (g' : gset (kind * string)) : Prop := inv ids0 L' ids nl ne nc E' (G1 ++ g' :: G2).

(** Nothing happens to the thread's tokens. *)
Lemma inv_same : I' L g.
Proof. apply (inv_drop _ _ _ _ _ _ E _ _ g); naive_solver. Qed.

Lemma inv_noted : E' -> I' L ({[err]} ∪ g).
Proof.
  intros HE'. apply (inv_drop _ _ _ _ _ _ E _ _ g); [done|done| |by auto..].
  intros k i Hk [Hx%elem_of_singleton|?]%elem_of_union; [|done]. unfold err in Hx. congruence.
Qed.

Lemma inv_settled : (~ row_active L x \/ err ∈ g \/ (KOwe, x) ∉ g) -> I' L (settle x g).
Proof.
  intros Hwhy. unfold settle. apply (inv_drop _ _ _ _ _ _ E _ _ g); [done|done| | |]; [set_solver| |set_solver].
  intros i Hi. destruct (decide (i = x)) as [->|Hne].
  - destruct Hwhy as [?|[He|?]]; [by auto|right; left|done].
    apply HE, (i_err _ _ _ _ _ _ _ _ HI g); [apply elem_of_app; right; by left|done].
  - left. apply elem_of_difference. split; [done|]. rewrite elem_of_singleton. congruence.
Qed.

Lemma err_now : err ∈ g -> E'.
Proof. intros He. apply HE, (i_err _ _ _ _ _ _ _ _ HI g); [apply elem_of_app; right; by left|done]. Qed.

(** What the tokens of the thread say of the row. *)
Lemma start_not_running : (KStart, x) ∈ g -> row_state L x <> Some DISPATCH_STATE_RUNNING.
Proof. apply (i_run _ _ _ _ _ _ _ _ HI x g). apply elem_of_app. right. by left. Qed.

Lemma fin_not_queued : (KFin, x) ∈ g -> E' \/ row_state L x <> Some DISPATCH_STATE_QUEUED.
Proof.
  intros Hk. destruct (i_queue _ _ _ _ _ _ _ _ HI x g) as [?|?]; [apply elem_of_app; right; by left|by right|auto|auto].
Qed.

(** A thread that may settle and finds the row out of [from] knows that it is not active. *)
Lemma missed_inactive from :
  may_settle g x from -> row_state L x <> Some from ->
  E' \/ (KOwe, x) ∉ g \/ ~ row_active L x.
Proof.
  intros [He|[Ho|Hk]] Hst; [left; by apply err_now|by auto|].
  destruct from; try done.
  - right. right. intros [?|?]%active_cases; [done|]. by apply start_not_running in Hk.
  - destruct (fin_not_queued Hk) as [?|Hq]; [by left|right; right]. by intros [?|?]%active_cases.
Qed.

Lemma inv_missed from : may_settle g x from -> row_state L x <> Some from -> I' L (settle x g).
Proof.
  intros Hmay Hst. destruct (missed_inactive from Hmay Hst) as [He|[Ho|Ha]]; [|apply inv_settled; auto..].
  unfold settle. apply (inv_drop _ _ _ _ _ _ E _ _ g); [done|done|set_solver|auto|set_solver].
Qed.

(** [labels_pending] is not part of the life cycle. *)
Lemma inv_pending d b : L !! x = Some d -> I' (<[x := set_pending b d]> L) g.
Proof.
  intros Hd. assert (Hst : row_state (<[x := set_pending b d]> L) x = row_state L x).
  { unfold row_state. by rewrite lookup_insert_eq, Hd. }
  assert (Hact : row_active (<[x := set_pending b d]> L) x <-> row_active L x).
  { etransitivity; [apply active_cases|]. rewrite Hst. symmetry. apply active_cases. }
  assert (Hstd : row_state L x = Some (d_State d)) by (unfold row_state; by rewrite Hd).
  apply (inv_row ids0 x L ids nl ne nc E E' G1 G2 g HI HE d (set_pending b d) g Hd); try done; auto.
  - unfold over. repeat destruct (decide _); try tauto; lia.
  - unfold failed. rewrite Hst, lookup_insert_eq, Hd.
    destruct (decide (_ /\ (Some d = _ \/ _))) as [[? [?|?]]|]; [done| |lia]. by rewrite decide_True by auto.
  - intros h Hh Hk Hr. eapply (i_run _ _ _ _ _ _ _ _ HI x h Hh Hk). rewrite Hstd. simpl in Hr. congruence.
  - intros h Hh Hk. destruct (i_queue _ _ _ _ _ _ _ _ HI x h Hh Hk) as [?|Hq]; [auto|right].
    intros Hr. apply Hq. rewrite Hstd. simpl in Hr. congruence.
  - intros Hx Ha. destruct (i_owe _ _ _ _ _ _ _ _ HI x Hx) as [?|?]; [|by auto..]. by exists d.
Qed.

(** The row ends, reported or not. *)
Lemma row_inv_end d f to toks :
  L !! x = Some d -> active d = true -> d_State (f d) = to -> active_state to = false ->
  toks = {[(KObs, x)]} \/ toks = {[(KObs, x); (KCmt, x)]} /\ to = DISPATCH_STATE_FAILED ->
  I' (<[x := f d]> L) (toks ∪ settle x g) /\ (E' -> I' (<[x := f d]> L) ({[err]} ∪ g)).
Proof.
  intros Hd Ha Hf Hto Htoks.
  assert (Hx : x ∈ ids) by (apply (i_ids _ _ _ _ _ _ _ _ HI); by exists d).
  assert (Hact : row_active L x) by by exists d.
  assert (Hna : active (f d) = false) by (unfold active; congruence).
  assert (Ho : over L ids x = 0) by by apply over_active.
  assert (Ho' : over (<[x := f d]> L) ids x = 1) by (apply over_done; [done|]; rewrite active_insert; congruence).
  assert (Hfa : failed L ids x = 0) by by apply failed_active.
  assert (Hfa' : to = DISPATCH_STATE_FAILED -> failed (<[x := f d]> L) ids x = 1).
  { intros Hto'. apply failed_is; [done|]. rewrite state_insert. congruence. }
  assert (Hrow : forall g',
    (forall k i, i <> x -> k <> KErr -> (k, i) ∈ g' <-> (k, i) ∈ g) -> (err ∈ g' -> err ∈ g \/ E') ->
    has (KStart, x) g' + has (KGo, x) g' <= has (KStart, x) g + has (KGo, x) g ->
    has (KCmt, x) g' <= has (KCmt, x) g + failed (<[x := f d]> L) ids x -> I' (<[x := f d]> L) g').
  { intros g' Hg' He' Hs Hc.
    apply (inv_row ids0 x L ids nl ne nc E E' G1 G2 g HI HE d (f d) g' Hd); try done.
    - pose proof (has_le (KObs, x) g'). lia.
    - lia.
    - intros _ _ _ Hr. by rewrite <- Hf, Hr in Hto.
    - intros _ _ _. right. intros Hr. by rewrite <- Hf, Hr in Hto.
    - intros _ ?. congruence. }
  split.
  - apply Hrow.
    + unfold settle. intros k i Hi Hk. destruct Htoks as [->|[-> _]]; set_solver.
    + unfold settle, err. destruct Htoks as [->|[-> _]]; set_solver.
    + unfold settle. destruct Htoks as [->|[-> _]]; has_simp; lia.
    + unfold settle. destruct Htoks as [->|[-> Hf']]; has_simp; [lia|]. rewrite Hfa' by done. lia.
  - intros HE'. apply Hrow.
    + intros k i Hi Hk. unfold err. set_solver.
    + auto.
    + has_simp. lia.
    + has_simp. lia.
Qed.

(** Only this thread can start the row. *)
Lemma start_unique h : (KStart, x) ∈ g -> h ∈ G1 ++ G2 -> (KStart, x) ∈ h -> False.
Proof.
  intros Hg Hh Hk. pose proof (i_start _ _ _ _ _ _ _ _ HI x) as Hs.
  rewrite total_mid in Hs. pose proof (total_in _ _ _ Hh Hk). apply has_pos in Hg.
  assert (minted ids0 ids x <= 1) by (unfold minted; destruct (decide _); lia). lia.
Qed.

(** The row starts to run, reported or not. *)
Lemma inv_start d f toks :
  (KStart, x) ∈ g -> L !! x = Some d -> d_State (f d) = DISPATCH_STATE_RUNNING -> active d = true ->
  (toks = {[(KGo, x)]} \/ toks = {[err; (KGo, x)]} /\ E') ->
  I' (<[x := f d]> L) (toks ∪ g ∖ {[(KStart, x)]}).
Proof.
  intros Hk Hd Hf Ha Htoks.
  assert (Hact : row_active L x) by by exists d.
  assert (Hact' : row_active (<[x := f d]> L) x) by (apply active_insert; unfold active; by rewrite Hf).
  set (g' := toks ∪ _).
  assert (Hsub : forall k i, k <> KErr -> (k, i) <> (KGo, x) -> (k, i) <> (KStart, x) -> (k, i) ∈ g' <-> (k, i) ∈ g).
  { intros k i Hk1 Hk2 Hk3. unfold g', err in *. destruct Htoks as [->|[-> _]]; set_solver. }
  apply (inv_row ids0 x L ids nl ne nc E E' G1 G2 g HI HE d (f d) g' Hd).
  - intros k i Hi Hk1. apply Hsub; congruence.
  - unfold g', err. destruct Htoks as [->|[-> ?]]; set_solver.
  - assert (has (KStart, x) g' = 0) as ->.
    { unfold g'. destruct Htoks as [->|[-> ?]]; rewrite has_union_ne by (unfold err; set_solver);
        apply has_diff_in; set_solver. }
    apply has_pos in Hk. pose proof (has_le (KGo, x) g'). lia.
  - assert (has (KObs, x) g' = has (KObs, x) g) as -> by (unfold has; pose proof (Hsub KObs x); repeat destruct (decide _); naive_solver).
    rewrite !over_active by done. lia.
  - assert (has (KCmt, x) g' = has (KCmt, x) g) as -> by (unfold has; pose proof (Hsub KCmt x); repeat destruct (decide _); naive_solver).
    rewrite failed_active by done. lia.
  - intros h Hh Hkh _. apply elem_of_app in Hh as [Hh|[->|Hh]%elem_of_cons].
    + apply (start_unique h); [done|apply elem_of_app; by left|done].
    + unfold g', err in Hkh. destruct Htoks as [->|[-> ?]]; set_solver.
    + apply (start_unique h); [done|apply elem_of_app; by right|done].
  - intros _ _ _. right. by rewrite Hf.
  - intros Hx _. destruct (i_owe _ _ _ _ _ _ _ _ HI x Hx) as [?|(h & Hh & Ho)]; [done|auto|right].
    apply elem_of_app in Hh as [Hh|[->|Hh]%elem_of_cons].
    + exists h. split; [apply elem_of_app; by left|done].
    + exists g'. split; [apply elem_of_app; right; by left|]. by apply Hsub.
    + exists h. split; [apply elem_of_app; right; by right|done].
Qed.

(** The start is refused. *)
Lemma inv_not_started :
  (KStart, x) ∈ g -> row_state L x <> Some DISPATCH_STATE_QUEUED ->
  I' L (settle x (g ∖ {[(KStart, x)]})).
Proof.
  intros Hk Hq.
  apply (inv_drop _ _ _ _ _ _ E _ _ g); [done|done|unfold settle; set_solver| |unfold settle; set_solver].
  intros i Hi. destruct (decide (i = x)) as [->|Hne]; [right; right|left; unfold settle; set_solver].
  intros [?|?]%active_cases; [done|]. by apply start_not_running in Hk.
Qed.
(** The store cannot say whether the run was started. *)
Lemma inv_start_unknown :
  (KStart, x) ∈ g -> E' -> I' L ({[err; (KGo, x)]} ∪ g ∖ {[(KStart, x)]}).
Proof.
  intros Hk HE'. set (g' := _ ∪ _).
  assert (Hsub : forall k i, k <> KErr -> (k, i) <> (KGo, x) -> (k, i) <> (KStart, x) -> (k, i) ∈ g' <-> (k, i) ∈ g).
  { intros k i Hk1 Hk2 Hk3. unfold g', err in *. set_solver. }
  unfold I'. rewrite <- (app_nil_r G2). apply (row_inv_step ids0 x L _ ids _ nl _ ne _ nc _ E _ _ _ _ g); try done.
  - by intros h k i ?%elem_of_nil.
  - intros i Hi. split; try done. intros k Hk1. apply Hsub; congruence.
  - apply (i_ids _ _ _ _ _ _ _ _ HI).
  - assert (has (KStart, x) g' = 0) as ->.
    { unfold g'. rewrite has_union_ne by (unfold err; set_solver). apply has_diff_in. set_solver. }
    apply has_pos in Hk. pose proof (has_le (KGo, x) g'). lia.
  - assert (has (KObs, x) g' = has (KObs, x) g) as -> by (unfold has; pose proof (Hsub KObs x); repeat destruct (decide _); naive_solver).
    lia.
  - assert (has (KCmt, x) g' = has (KCmt, x) g) as -> by (unfold has; pose proof (Hsub KCmt x); repeat destruct (decide _); naive_solver).
    lia.
  - intros h _ _. by apply start_not_running.
  - intros h Hh Hf. rewrite app_nil_r in Hh. apply elem_of_app in Hh as [Hh|[->|Hh]%elem_of_cons].
    + apply (i_fin _ _ _ _ _ _ _ _ HI x h); [apply elem_of_app; by left|done].
    + apply (i_fin _ _ _ _ _ _ _ _ HI x g); [apply elem_of_app; right; by left|]. by apply Hsub.
    + apply (i_fin _ _ _ _ _ _ _ _ HI x h); [apply elem_of_app; right; by right|done].
  - by left.
  - by left.
  - by right.
Qed.
End MoveCases.

Lemma elem_of_new (x : string) (X : gset string) : x ∈ {[x]} ∪ X.
Proof. set_solver. Qed.

Lemma fresh_unheld ids0 L ids nl ne nc E G x :
  inv ids0 L ids nl ne nc E G -> x ∉ ids ->
  forall g, g ∈ G -> (KGo, x) ∉ g /\ (KFin, x) ∉ g.
Proof.
  intros HI Hx g Hg. split; intros Hk.
  - pose proof (i_start _ _ _ _ _ _ _ _ HI x) as Hs. pose proof (total_in _ _ _ Hg Hk).
    unfold minted in Hs. rewrite decide_False in Hs by tauto. lia.
  - by apply Hx, (i_fin _ _ _ _ _ _ _ _ HI x g).
Qed.

(** A new row, for the thread that was told of it or for nobody. *)
Lemma inv_insert ids0 x L ids nl ne nc (E E' : Prop) G1 g g' G2 row :
  inv ids0 L ids nl ne nc E (G1 ++ g :: G2) -> (E -> E') -> x ∉ ids -> d_State row = DISPATCH_STATE_QUEUED ->
  g' = {[(KStart, x); (KOwe, x)]} ∪ g \/ (g' = {[err]} ∪ g /\ E') ->
  inv ids0 (<[x := row]> L) ({[x]} ∪ ids) nl ne nc E' (G1 ++ g' :: G2).
Proof.
  intros HI HE Hx Hq Hg'. rewrite <- (app_nil_r G2).
  assert (Hx0 : x ∉ ids0) by (intros ?; by apply Hx, (i_old _ _ _ _ _ _ _ _ HI)).
  assert (Hin : forall h, h ∈ G1 ++ g' :: G2 ++ [] -> h = g' \/ h ∈ G1 ++ g :: G2).
  { intros h. rewrite app_nil_r. rewrite !elem_of_app, !elem_of_cons. naive_solver. }
  pose proof (fresh_unheld _ _ _ _ _ _ _ _ _ HI Hx) as Hun.
  assert (Hg : g ∈ G1 ++ g :: G2) by (apply elem_of_app; right; by left).
  assert (Hkeep : forall k, k <> KErr -> k <> KStart -> k <> KOwe -> (k, x) ∈ g' <-> (k, x) ∈ g).
  { clear -Hg'. intros k Hk1 Hk2 Hk3. unfold err in *. destruct Hg' as [->|[-> _]]; set_solver. }
  assert (Hnone : forall h, h ∈ G1 ++ g' :: G2 ++ [] -> (KGo, x) ∉ h /\ (KFin, x) ∉ h).
  { intros h [->|Hh]%Hin; [|by apply Hun]. rewrite !Hkeep by done. by apply Hun. }
  apply (row_inv_step ids0 x L _ ids _ nl _ ne _ nc _ E _ _ _ _ g); try done.
  - by intros h k i ?%elem_of_nil.
  - intros i Hi. split; try done; [by apply lookup_insert_ne|by rewrite elem_of_union, elem_of_singleton; tauto|].
    clear -Hg' Hi. intros k Hk. unfold err in *. destruct Hg' as [->|[-> _]]; set_solver.
  - intros _. apply elem_of_new.
  - assert (minted ids0 ids x = 0) as -> by (unfold minted; rewrite decide_False; tauto).
    assert (minted ids0 ({[x]} ∪ ids) x = 1) as ->
      by (unfold minted; rewrite decide_True; [done|split; [apply elem_of_new|done]]).
    assert (has (KGo, x) g' = has (KGo, x) g) as -> by (unfold has; pose proof (Hkeep KGo); repeat destruct (decide _); naive_solver).
    pose proof (has_le (KStart, x) g'). lia.
  - assert (has (KObs, x) g' = has (KObs, x) g) as -> by (unfold has; pose proof (Hkeep KObs); repeat destruct (decide _); naive_solver).
    assert (over L ids x = 0) as -> by (unfold over; rewrite decide_False; tauto). lia.
  - assert (has (KCmt, x) g' = has (KCmt, x) g) as -> by (unfold has; pose proof (Hkeep KCmt); repeat destruct (decide _); naive_solver).
    assert (failed L ids x = 0) as -> by (unfold failed; rewrite decide_False; tauto). lia.
  - intros h _ _. rewrite state_insert. congruence.
  - intros h Hh Hf. by destruct (Hnone h Hh) as [_ []].
  - intros h Hh Hk. destruct (Hnone h Hh) as [? ?]. tauto.
  - intros _ _. destruct Hg' as [->|[_ ?]]; [right|by left].
    eexists. split; [apply elem_of_app; right; by left|clear; set_solver].
  - intros H. destruct Hg' as [->|[_ ?]]; [left; clear -H; unfold err in *; set_solver|by right].
Qed.

(** The id is used up, but no row appeared. *)
Lemma inv_burn ids0 x L ids nl ne nc (E E' : Prop) G1 g g' G2 :
  inv ids0 L ids nl ne nc E (G1 ++ g :: G2) -> (E -> E') -> x ∉ ids ->
  g' = g \/ (g' = {[err]} ∪ g /\ E') ->
  inv ids0 L ({[x]} ∪ ids) nl ne nc E' (G1 ++ g' :: G2).
Proof.
  intros HI HE Hx Hg'.
  assert (HI' : inv ids0 L ids nl ne nc E' (G1 ++ g' :: G2)).
  { destruct Hg' as [->|[-> ?]]; [by eapply inv_same|by eapply inv_noted]. }
  clear HI HE Hg'. destruct HI' as [Hid Hold Hs Hob Hcm Hr Hfi Hq Ho He]. split; try done.
  - intros i Hi. apply elem_of_union. auto.
  - intros i Hi. apply elem_of_union. auto.
  - intros i. etransitivity; [apply Hs|]. unfold minted.
    repeat destruct (decide _); try lia. rewrite elem_of_union in *. tauto.
  - intros i. etransitivity; [apply Hob|]. unfold over.
    repeat destruct (decide _); try lia. rewrite elem_of_union in *. tauto.
  - intros i. etransitivity; [apply Hcm|]. unfold failed.
    repeat destruct (decide _); try lia. rewrite elem_of_union in *. tauto.
  - intros i h Hh Hk. apply elem_of_union. eauto.
Qed.

(** The launch passes the row on to the new thread. *)
Lemma inv_launch ids0 x L ids nl ne nc (E E' : Prop) G1 g G2 nl' :
  inv ids0 L ids nl ne nc E (G1 ++ g :: G2) -> (E -> E') -> (KGo, x) ∈ g ->
  nl' x = S (nl x) -> (forall i, i <> x -> nl' i = nl i) ->
  inv ids0 L ids nl' ne nc E' (G1 ++ (g ∖ {[(KGo, x); (KOwe, x)]}) :: G2 ++ [{[(KFin, x); (KOwe, x)]}]).
Proof.
  intros HI HE Hgo Hnl Hnl'. assert (Hg : g ∈ G1 ++ g :: G2) by (apply elem_of_app; right; by left).
  assert (Hids : x ∈ ids).
  { pose proof (i_start _ _ _ _ _ _ _ _ HI x) as Hs. pose proof (total_in _ _ _ Hg Hgo).
    unfold minted in Hs. destruct (decide _) as [[? _]|]; [done|lia]. }
  apply (row_inv_step ids0 x L _ ids _ nl _ ne _ nc _ E _ _ _ _ g); try done.
  - intros h k i ->%list_elem_of_singleton. rewrite elem_of_union, !elem_of_singleton. naive_solver.
  - intros i Hi. split; try done; [by apply Hnl'|]. clear -Hi. set_solver.
  - rewrite has_diff_ne by set_solver. rewrite has_diff_in by set_solver. apply has_pos in Hgo. lia.
  - rewrite has_diff_ne by set_solver. lia.
  - rewrite has_diff_ne by set_solver. lia.
  - intros h Hh Hk. assert (h ∈ G1 ++ G2 \/ (KStart, x) ∈ g) as [Hh'|Hk'].
    { rewrite !elem_of_app, elem_of_cons in Hh. rewrite elem_of_app. destruct Hh as [?|[->|?]]; [by auto| |by auto].
      right. clear -Hk. set_solver. }
    + apply (i_run _ _ _ _ _ _ _ _ HI x h); [|done]. rewrite !elem_of_app, elem_of_cons in *. tauto.
    + by apply (i_run _ _ _ _ _ _ _ _ HI x g).
  - intros h _ _. destruct (i_queue _ _ _ _ _ _ _ _ HI x g Hg (or_introl Hgo)); auto.
  - intros Hx Ha. right. eexists. split; [apply elem_of_app; right; right; apply elem_of_app; right; by left|clear; set_solver].
  - clear. set_solver.
Qed.

(** A token is spent on an event of the trace. *)
Lemma inv_spend ids0 x k L ids nl ne nc (E E' : Prop) G1 g G2 ne' nc' :
  inv ids0 L ids nl ne nc E (G1 ++ g :: G2) -> (E -> E') -> (k, x) ∈ g ->
  (forall i, i <> x -> ne' i = ne i /\ nc' i = nc i) ->
  (k = KObs /\ ne' x = S (ne x) /\ nc' x = nc x) \/ (k = KCmt /\ ne' x = ne x /\ nc' x = S (nc x)) ->
  inv ids0 L ids nl ne' nc' E' (G1 ++ (g ∖ {[(k, x)]}) :: G2).
Proof.
  intros HI HE Hg Hother Hk.
  assert (HI' : inv ids0 L ids nl ne nc E' (G1 ++ (g ∖ {[(k, x)]}) :: G2)).
  { apply (inv_drop _ _ _ _ _ _ E _ _ g); [done|done|clear; set_solver| |clear; set_solver].
    intros i Hi. left. destruct Hk as [[-> _]|[-> _]]; clear -Hi; set_solver. }
  destruct HI' as [? ? ? Hob Hcm ? ? ? ? ?]. split; try done; intros i.
  - specialize (Hob i). pose proof (i_obs _ _ _ _ _ _ _ _ HI i) as Hob0. rewrite total_mid in *.
    destruct (decide (i = x)) as [->|Hi]; [|by rewrite (proj1 (Hother i Hi))].
    destruct Hk as [(-> & -> & _)|(_ & -> & _)]; [|done].
    rewrite has_diff_in by set_solver. apply has_pos in Hg. lia.
  - specialize (Hcm i). pose proof (i_cmt _ _ _ _ _ _ _ _ HI i) as Hcm0. rewrite total_mid in *.
    destruct (decide (i = x)) as [->|Hi]; [|by rewrite (proj2 (Hother i Hi))].
    destruct Hk as [(_ & _ & ->)|(-> & _ & ->)]; [done|].
    rewrite has_diff_in by set_solver. apply has_pos in Hg. lia.
Qed.
