(* ===== verification/DispatchSystem.v ===== *)
(** * Every interleaving of ticks and runs

    The dispatcher threads over one shared store: any number of ticks, with any
    configuration, arriving at any time; the background half of every run they launch;
    and operators who delete connections.  Calls of different threads interleave, the
    store's statements fail with and without effect, and the forge, the runs, the
    contexts and the clock answer anything.

    The invariant links the tokens of DispatchProtocol to the table and to the trace. *)

From S2P Require Import Prelude Prog GoStrings Labels TrackerStore TrackerApi DispatchTable Dispatch DispatchProtocol.
From S2P Require Import DispatchInv DispatchMoves TrackerAlone.
#[local] Open Scope string_scope.
#[local] Open Scope list_scope.
#[local] Open Scope nat_scope.

(** ** The trace *)

Definition launches_row (id : string) (e : tevent) : Prop :=
  match projT1 e with CLaunch _ _ row => d_ID row = id | _ => False end.
Definition reports_end (id : string) (e : tevent) : Prop :=
  match projT1 e with CDispatchEnded row _ => d_ID row = id | _ => False end.
Definition comments_failure (id : string) (e : tevent) : Prop :=
  match projT1 e with CFailureComment row _ => d_ID row = id | _ => False end.

#[export] Instance launches_row_dec id e : Decision (launches_row id e).
Proof. unfold launches_row. destruct (projT1 e); apply _. Defined.
#[export] Instance reports_end_dec id e : Decision (reports_end id e).
Proof. unfold reports_end. destruct (projT1 e); apply _. Defined.
#[export] Instance comments_failure_dec id e : Decision (comments_failure id e).
Proof. unfold comments_failure. destruct (projT1 e); apply _. Defined.

Definition count (P : tevent -> Prop) `{!forall e, Decision (P e)} (w : world) : nat :=
  length (filter P (w_trace w)).

(** A statement that moves rows reported an error. *)
Definition statement_error (c : tcall) : ans c -> Prop :=
  match c with
  | CInsertDispatch _ => is_insert_err
  | CTransitionDispatch _ _ _ _ _ | CFailDispatch _ _ _ _ _ | CDeleteQueuedDispatch _ => is_err
  | _ => fun _ => False
  end.

(** The same as a test, for examples. *)
Definition statement_errorb (c : tcall) : ans c -> bool :=
  match c with
  | CInsertDispatch _ => fun a => match a with InsertErr _ => true | _ => false end
  | CTransitionDispatch _ _ _ _ _ | CFailDispatch _ _ _ _ _ | CDeleteQueuedDispatch _ =>
      fun a => match a with inr _ => true | inl _ => false end
  | _ => fun _ => false
  end.

Lemma statement_errorb_spec c a : statement_error c a -> statement_errorb c a = true.
Proof. destruct c; try done; by intros [m ->]. Qed.

Definition store_error (w : world) : Prop := exists e, e ∈ w_trace w /\ statement_error (projT1 e) (projT2 e).

(** ** The system *)

Definition Inv (ids0 : gset string) (w : world) (G : list (gset (kind * string))) : Prop :=
  table_ok (w_db w) /\
  inv ids0 (ledger_of (t_dispatches (w_db w))) (w_ids w)
    (fun i => count (launches_row i) w) (fun i => count (reports_end i) w)
    (fun i => count (comments_failure i) w) (store_error w) G.

Lemma store_error_logged c a w s ids locks : store_error w -> store_error (logged c a w s ids locks).
Proof. intros (e & He & Herr). exists e. split; [by right|done]. Qed.

Lemma store_error_now c a w s ids locks : statement_error c a -> store_error (logged c a w s ids locks).
Proof. intros He. exists (existT c a). split; [by left|done]. Qed.

(** The calls that are counted. *)
Definition counted (c : tcall) : bool :=
  match c with CLaunch _ _ _ | CDispatchEnded _ _ | CFailureComment _ _ => true | _ => false end.

Lemma count_logged c a w s ids locks (P : tevent -> Prop) `{!forall e, Decision (P e)} :
  count P (logged c a w s ids locks) = (if decide (P (existT c a)) then 1 else 0) + count P w.
Proof. unfold count, logged. cbn [w_trace]. rewrite filter_cons. by destruct (decide _). Qed.

Lemma count_quiet c a w s ids locks i :
  counted c = false ->
  count (launches_row i) (logged c a w s ids locks) = count (launches_row i) w /\
  count (reports_end i) (logged c a w s ids locks) = count (reports_end i) w /\
  count (comments_failure i) (logged c a w s ids locks) = count (comments_failure i) w.
Proof. intros Hc. rewrite !count_logged. by destruct c. Qed.

(** ** What the statements do, by their answers *)

Section Cases.
Context (s : db) (Hok : table_ok s).
Let L := ledger_of (t_dispatches s).

Lemma insert_cases id dbnow d r s' :
  InsertDispatch id dbnow d s = (r, s') ->
  table_ok s' /\
  ((r = Inserted (new_row id dbnow d) /\ ledger_of (t_dispatches s') = <[id := new_row id dbnow d]> L)
   \/ (ledger_of (t_dispatches s') = L /\ forall row, r <> Inserted row)).
Proof.
  intros Hi. pose proof (refines_insert s Hok id dbnow d) as [Hsp Hok']. unfold run_op in *. rewrite Hi in *.
  simpl in *. split; [done|]. inversion Hsp; simplify_eq; auto.
Qed.

Lemma transition_cases id from to reason at_ r s' :
  TransitionDispatch id from to reason at_ s = (r, s') ->
  table_ok s' /\
  ((validDispatchTransition from to = true /\ r = inl (move id from (set_state to reason at_) L).1
    /\ ledger_of (t_dispatches s') = (move id from (set_state to reason at_) L).2)
   \/ (validDispatchTransition from to = false /\ ledger_of (t_dispatches s') = L /\ is_err r)).
Proof.
  intros Hi. pose proof (refines_transition s Hok id from to reason at_) as [Hsp Hok'].
  unfold run_op in *. rewrite Hi in *. simpl in *. split; [done|].
  inversion Hsp; simplify_eq; [by left|right]. split_and!; [done|done|by eexists].
Qed.

Lemma fail_cases id from failure reason at_ r s' :
  FailDispatch id from failure reason at_ s = (r, s') ->
  table_ok s' /\
  ((active_state from = true /\ r = inl (move id from (set_failed failure reason at_) L).1
    /\ ledger_of (t_dispatches s') = (move id from (set_failed failure reason at_) L).2)
   \/ (ledger_of (t_dispatches s') = L /\ is_err r)).
Proof.
  intros Hi. pose proof (refines_fail s Hok id from failure reason at_) as [Hsp Hok'].
  unfold run_op in *. rewrite Hi in *. simpl in *. split; [done|].
  inversion Hsp; simplify_eq; [by left|right]. split; [done|by eexists].
Qed.

Lemma pending_cases id b r s' :
  SetDispatchLabelsPending id b s = (r, s') ->
  table_ok s' /\
  ((exists d, L !! id = Some d /\ ledger_of (t_dispatches s') = <[id := set_pending b d]> L)
   \/ ledger_of (t_dispatches s') = L).
Proof.
  intros Hi. pose proof (refines_pending s Hok id b) as [Hsp Hok']. unfold run_op in *. rewrite Hi in *.
  simpl in *. split; [done|]. inversion Hsp; simplify_eq; [left; eauto|by right].
Qed.

Lemma delete_cases id r s' :
  DeleteQueuedDispatch id s = (r, s') ->
  table_ok s' /\
  (ledger_of (t_dispatches s') = delete id L
   \/ (ledger_of (t_dispatches s') = L /\ row_state L id <> Some DISPATCH_STATE_QUEUED)).
Proof.
  intros Hi. pose proof (refines_delete s Hok id) as [Hsp Hok']. unfold run_op in *. rewrite Hi in *.
  simpl in *. split; [done|]. inversion Hsp as [| | | | | | | | | | ? d Hd Hst|? Hno]; simplify_eq; [by left|right].
  split; [done|]. by intros (d & Hd & Hst)%fmap_Some; destruct (Hno d).
Qed.
End Cases.

Lemma table_ok_same s s' : t_dispatches s' = t_dispatches s -> table_ok s -> table_ok s'.
Proof. intros Hs [? ?]. split; by rewrite Hs. Qed.

(** ** Every call preserves the invariant *)

Section Calls.
Context (ids0 : gset string) (w : world) (G1 G2 : list (gset (kind * string))) (g : gset (kind * string)).
Hypothesis (HI : Inv ids0 w (G1 ++ g :: G2)).
Let L := ledger_of (t_dispatches (w_db w)).

Lemma call_inv : inv ids0 L (w_ids w) (fun i => count (launches_row i) w) (fun i => count (reports_end i) w)
  (fun i => count (comments_failure i) w) (store_error w) (G1 ++ g :: G2).
Proof. apply HI. Qed.

(** The counters stand still. *)
Lemma Inv_uncounted c a s ids locks L' g' :
  counted c = false -> table_ok s -> ledger_of (t_dispatches s) = L' ->
  inv ids0 L' ids (fun i => count (launches_row i) w) (fun i => count (reports_end i) w)
    (fun i => count (comments_failure i) w) (store_error (logged c a w s ids locks)) (G1 ++ g' :: G2) ->
  Inv ids0 (logged c a w s ids locks) (G1 ++ g' :: G2).
Proof.
  intros Hc Hok <- Hinv. split; [done|]. cbn [logged w_db w_ids].
  eapply inv_ext; [..|exact Hinv]; intros i; by destruct (count_quiet c a w s ids locks i Hc) as (? & ? & ?).
Qed.

(** A call that is not about dispatch rows. *)
Lemma Inv_quiet c a s ids locks :
  counted c = false -> t_dispatches s = t_dispatches (w_db w) -> ids = w_ids w ->
  Inv ids0 (logged c a w s ids locks) (G1 ++ g :: G2).
Proof.
  intros Hc Hs ->. apply (Inv_uncounted _ _ _ _ _ L); [done| |by rewrite Hs|].
  - eapply table_ok_same; [done|apply HI].
  - eapply inv_same; [exact call_inv|apply store_error_logged].
Qed.

Lemma Inv_insert d id dbnow a s' locks :
  id ∉ w_ids w ->
  outcome is_insert_err (InsertDispatch id dbnow d (w_db w)).1 (w_db w)
    (InsertDispatch id dbnow d (w_db w)).2 a s' ->
  Inv ids0 (logged (CInsertDispatch d) a w s' ({[id]} ∪ w_ids w) locks) (G1 ++ mon g (CInsertDispatch d) a :: G2).
Proof.
  intros Hid Hout. destruct (InsertDispatch id dbnow d (w_db w)) as [r s1] eqn:Hins. cbn [fst snd] in Hout.
  pose proof (insert_cases _ (proj1 HI) _ _ _ _ _ Hins) as [Hok Hcase].
  pose proof call_inv as Hinv. pose proof (proj1 HI) as Hok0.
  assert (Herr : forall r, is_insert_err r -> mon g (CInsertDispatch d) r = {[err]} ∪ g) by (by intros ? [m ->]).
  destruct Hout as [|a Ha|a Ha].
  - destruct Hcase as [[-> HL]|[HL Hno]].
    + eapply Inv_uncounted; [done|done|exact HL|].
      eapply inv_insert; [exact Hinv|apply store_error_logged|done|done|by left].
    + eapply Inv_uncounted; [done|done|exact HL|].
      destruct r as [row| | |m]; [by destruct (Hno row)|..];
        (eapply inv_burn; [exact Hinv|apply store_error_logged|done|]); [by left..|right].
      split; [done|]. apply store_error_now. by exists m.
  - rewrite Herr by done. eapply Inv_uncounted; [done|done|done|].
    eapply inv_burn; [exact Hinv|apply store_error_logged|done|right]. split; [done|by apply store_error_now].
  - rewrite Herr by done. assert (store_error (logged (CInsertDispatch d) a w s1 ({[id]} ∪ w_ids w) locks))
      by by apply store_error_now.
    destruct Hcase as [[-> HL]|[HL Hno]]; (eapply Inv_uncounted; [done|done|exact HL|]).
    + eapply inv_insert; [exact Hinv|apply store_error_logged|done|done|by right].
    + eapply inv_burn; [exact Hinv|apply store_error_logged|done|by right].
Qed.

(** A statement that ends rows: [r] and [s1] are what it does when it works. *)
Lemma Inv_end c id from f to toks r s1 a s' ids locks :
  counted c = false -> ids = w_ids w -> may_settle g id from -> active_state from = true ->
  (forall d, d_State (f d) = to) -> active_state to = false ->
  toks = {[(KObs, id)]} \/ toks = {[(KObs, id); (KCmt, id)]} /\ to = DISPATCH_STATE_FAILED ->
  table_ok s1 -> r = inl (move id from f L).1 -> ledger_of (t_dispatches s1) = (move id from f L).2 ->
  forall (an : ans c) (g' : gset (kind * string)),
  (is_err a -> statement_error c an) ->
  outcome is_err r (w_db w) s1 a s' ->
  g' = match a with inl true => toks ∪ settle id g | inl false => settle id g | inr _ => {[err]} ∪ g end ->
  Inv ids0 (logged c an w s' ids locks) (G1 ++ g' :: G2).
Proof.
  intros Hc -> Hmay Hact Hf Hto Htoks Hok Hr HL an g' Han Hout ->.
  pose proof call_inv as Hinv. pose proof (proj1 HI) as Hok0.
  assert (HE : store_error w -> store_error (logged c an w s' (w_ids w) locks)) by apply store_error_logged.
  assert (Herr : is_err a -> store_error (logged c an w s' (w_ids w) locks)).
  { intros Ha. apply store_error_now. auto. }
  destruct (move_cases id from f L) as [(d & Hd & Hst & Hmv)|[Hst Hmv]]; rewrite Hmv in *; cbn [fst snd] in *.
  - assert (Ha : active d = true) by (unfold active; congruence).
    destruct (row_inv_end _ _ _ _ _ _ _ _ _ _ _ _ Hinv HE d f to toks Hd Ha (Hf d) Hto Htoks) as [Hrep Hlost].
    destruct Hout as [|a Ha'|a Ha']; subst.
    + by eapply Inv_uncounted.
    + destruct Ha' as [m ->]. apply (Inv_uncounted _ _ _ _ _ L); [done..|]. eapply inv_noted; [exact Hinv|done|by apply Herr; eexists].
    + destruct Ha' as [m ->]. eapply Inv_uncounted; [done..|exact HL|]. apply Hlost, Herr. by eexists.
  - destruct Hout as [|a Ha'|a Ha']; subst.
    + apply (Inv_uncounted _ _ _ _ _ L); [done..|]. by eapply inv_missed.
    + destruct Ha' as [m ->]. apply (Inv_uncounted _ _ _ _ _ L); [done..|]. eapply inv_noted; [exact Hinv|done|by apply Herr; eexists].
    + destruct Ha' as [m ->]. apply (Inv_uncounted _ _ _ _ _ L); [done..|]. eapply inv_noted; [exact Hinv|done|by apply Herr; eexists].
Qed.
(** A statement that is refused before it runs, or one that fails without effect. *)
Lemma Inv_noted c (a : ans c) s' ids locks :
  counted c = false -> ids = w_ids w -> statement_error c a -> table_ok s' ->
  ledger_of (t_dispatches s') = L -> Inv ids0 (logged c a w s' ids locks) (G1 ++ ({[err]} ∪ g) :: G2).
Proof.
  intros Hc -> Ha Hok HL. eapply Inv_uncounted; [done|done|exact HL|].
  eapply inv_noted; [exact call_inv|apply store_error_logged|by apply store_error_now].
Qed.

Lemma Inv_fail id from failure reason at_ a s' ids locks :
  ids = w_ids w -> may_settle g id from ->
  outcome is_err (FailDispatch id from failure reason at_ (w_db w)).1 (w_db w)
    (FailDispatch id from failure reason at_ (w_db w)).2 a s' ->
  Inv ids0 (logged (CFailDispatch id from failure reason at_) a w s' ids locks)
    (G1 ++ mon g (CFailDispatch id from failure reason at_) a :: G2).
Proof.
  intros Hids Hmay Hout. destruct (FailDispatch _ _ _ _ _ _) as [r s1] eqn:Hrun. cbn [fst snd] in Hout.
  pose proof (fail_cases _ (proj1 HI) _ _ _ _ _ _ _ Hrun) as [Hok [(Hact & Hr & HL)|[HL Herr]]].
  - apply (Inv_end (CFailDispatch id from failure reason at_) id from (set_failed failure reason at_)
             DISPATCH_STATE_FAILED {[(KObs, id); (KCmt, id)]} r s1 a); try done. by right.
  - assert (is_err a /\ table_ok s' /\ ledger_of (t_dispatches s') = L) as ([m ->] & Hok' & HL').
    { destruct Hout; split_and!; try done; apply HI. }
    apply Inv_noted; try done. by exists m.
Qed.

Lemma Inv_transition id from to reason at_ a s' ids locks :
  ids = w_ids w -> pre g (CTransitionDispatch id from to reason at_) ->
  outcome is_err (TransitionDispatch id from to reason at_ (w_db w)).1 (w_db w)
    (TransitionDispatch id from to reason at_ (w_db w)).2 a s' ->
  Inv ids0 (logged (CTransitionDispatch id from to reason at_) a w s' ids locks)
    (G1 ++ mon g (CTransitionDispatch id from to reason at_) a :: G2).
Proof.
  intros Hids Hpre Hout. destruct (TransitionDispatch _ _ _ _ _ _) as [r s1] eqn:Hrun. cbn [fst snd] in Hout.
  pose proof (transition_cases _ (proj1 HI) _ _ _ _ _ _ _ Hrun) as [Hok Hcase].
  destruct (decide (to = DISPATCH_STATE_RUNNING)) as [->|Hto].
  - destruct Hpre as [-> Hk]. destruct Hcase as [(_ & Hr & HL)|[? _]]; [|done].
    subst ids. pose proof call_inv as Hinv. pose proof (proj1 HI) as Hok0.
    set (c := CTransitionDispatch id DISPATCH_STATE_QUEUED DISPATCH_STATE_RUNNING reason at_).
    assert (HE : forall a : ans c, store_error w -> store_error (logged c a w s' (w_ids w) locks))
      by (intros; by apply store_error_logged).
    assert (Herr : forall m, store_error (logged c (inr m) w s' (w_ids w) locks))
      by (intros m; apply store_error_now; by exists m).
    destruct (move_cases id DISPATCH_STATE_QUEUED (set_state DISPATCH_STATE_RUNNING reason at_) L)
      as [(d & Hd & Hst & Hmv)|[Hst Hmv]]; fold L in Hr, HL; rewrite Hmv in Hr, HL; cbn [fst snd] in *;
      (destruct Hout as [|a [m ->]|a [m ->]]; [subst r|..]).
    + eapply (Inv_uncounted c); [done..|]. eapply inv_start; [exact Hinv|apply HE|done|exact Hd|done| |by left].
      unfold active. by rewrite Hst.
    + apply (Inv_uncounted c _ _ _ _ L); [done..|]. eapply inv_start_unknown; [exact Hinv|apply HE|done|apply Herr].
    + eapply (Inv_uncounted c); [done..|exact HL|].
      eapply inv_start; [exact Hinv|apply HE|done|exact Hd|done| |right; split; [done|apply Herr]].
      unfold active. by rewrite Hst.
    + apply (Inv_uncounted c _ _ _ _ L); [done..|]. by eapply inv_not_started; [exact Hinv|apply HE|..].
    + apply (Inv_uncounted c _ _ _ _ L); [done..|]. eapply inv_start_unknown; [exact Hinv|apply HE|done|apply Herr].
    + apply (Inv_uncounted c _ _ _ _ L); [done..|]. eapply inv_start_unknown; [exact Hinv|apply HE|done|apply Herr].
  - assert (Hmay : may_settle g id from) by (destruct to; done).
    assert (Hmon : mon g (CTransitionDispatch id from to reason at_) a
                   = match a with inl true => {[(KObs, id)]} ∪ settle id g | inl false => settle id g
                             | inr _ => {[err]} ∪ g end) by (destruct to; done).
    destruct Hcase as [(Hv & Hr & HL)|(_ & HL & Herr)].
    + assert (active_state from = true) by by destruct from.
      assert (active_state to = false) by (destruct from, to; try done).
      apply (Inv_end (CTransitionDispatch id from to reason at_) id from (set_state to reason at_) to
               {[(KObs, id)]} r s1 a); try done; by left.
    + assert (is_err a /\ table_ok s' /\ ledger_of (t_dispatches s') = L) as ([m ->] & Hok' & HL').
      { destruct Hout; split_and!; try done; apply HI. }
      rewrite Hmon. apply Inv_noted; try done. by exists m.
Qed.

Lemma Inv_delete id a s' ids locks :
  ids = w_ids w -> may_settle g id DISPATCH_STATE_QUEUED ->
  outcome is_err (inl (DeleteQueuedDispatch id (w_db w)).1) (w_db w) (DeleteQueuedDispatch id (w_db w)).2 a s' ->
  Inv ids0 (logged (CDeleteQueuedDispatch id) a w s' ids locks) (G1 ++ mon g (CDeleteQueuedDispatch id) a :: G2).
Proof.
  intros -> Hmay Hout. destruct (DeleteQueuedDispatch _ _) as [r s1] eqn:Hrun. cbn [fst snd] in Hout.
  pose proof (delete_cases _ (proj1 HI) _ _ _ Hrun) as [Hok Hcase].
  set (c := CDeleteQueuedDispatch id). pose proof call_inv as Hinv.
  assert (HE : forall a : ans c, store_error w -> store_error (logged c a w s' (w_ids w) locks))
    by (intros; by apply store_error_logged).
  assert (Herr : forall m, store_error (logged c (inr m) w s' (w_ids w) locks))
    by (intros m; apply store_error_now; by exists m).
  assert (Hdel : forall (E : Prop) g', inv ids0 L (w_ids w) (fun i => count (launches_row i) w)
      (fun i => count (reports_end i) w) (fun i => count (comments_failure i) w) E (G1 ++ g' :: G2) ->
    inv ids0 (delete id L) (w_ids w) (fun i => count (launches_row i) w)
      (fun i => count (reports_end i) w) (fun i => count (comments_failure i) w) E (G1 ++ g' :: G2)).
  { intros E g'. apply inv_cascade, delete_subseteq. }
  destruct Hout as [|a [m ->]|a [m ->]].
  - destruct Hcase as [HL|[HL Hst]]; (eapply (Inv_uncounted c); [done..|exact HL|]).
    + eapply inv_settled; [by apply Hdel, Hinv|apply HE|left]. intros (d & Hd & _). by rewrite lookup_delete_eq in Hd.
    + by eapply inv_missed; [exact Hinv|apply HE|..].
  - apply (Inv_noted c); [done..|by exists m|apply HI|done].
  - destruct Hcase as [HL|[HL Hst]]; (eapply (Inv_uncounted c); [done..|exact HL|]); [apply Hdel|];
      (eapply inv_noted; [exact Hinv|apply HE|apply Herr]).
Qed.

Lemma Inv_pending id b a s' ids locks :
  ids = w_ids w ->
  outcome is_some (SetDispatchLabelsPending id b (w_db w)).1 (w_db w)
    (SetDispatchLabelsPending id b (w_db w)).2 a s' ->
  Inv ids0 (logged (CSetLabelsPending id b) a w s' ids locks) (G1 ++ g :: G2).
Proof.
  intros -> Hout. destruct (SetDispatchLabelsPending _ _ _) as [r s1] eqn:Hrun. cbn [fst snd] in Hout.
  pose proof (pending_cases _ (proj1 HI) _ _ _ _ Hrun) as [Hok Hcase].
  assert (s' = w_db w \/ s' = s1) as [->| ->] by (destruct Hout; auto); [by apply Inv_quiet|].
  destruct Hcase as [(d & Hd & HL)|HL]; (eapply Inv_uncounted; [done..|exact HL|]).
  - eapply inv_pending; [exact call_inv|apply store_error_logged|done].
  - eapply inv_same; [exact call_inv|apply store_error_logged].
Qed.

Lemma Inv_launch d runID row a :
  (KGo, d_ID row) ∈ g ->
  Inv ids0 (logged (CLaunch d runID row) a w (w_db w) (w_ids w) (w_locks w))
    (G1 ++ (g ∖ {[(KGo, d_ID row); (KOwe, d_ID row)]}) :: G2 ++ [{[(KFin, d_ID row); (KOwe, d_ID row)]}]).
Proof.
  intros Hgo. split; [apply HI|].
  set (w' := logged (CLaunch d runID row) a w (w_db w) (w_ids w) (w_locks w)).
  apply (inv_ext _ _ _ (fun i => count (launches_row i) w') _ (fun i => count (reports_end i) w) _
           (fun i => count (comments_failure i) w)); [done|intros i; unfold w'; by rewrite count_logged..|].
  eapply inv_launch; [exact call_inv|apply store_error_logged|exact Hgo|..]; cbn beta; unfold w'.
  - rewrite count_logged, decide_True by done. lia.
  - intros i Hi. rewrite count_logged, decide_False; [lia|]. unfold launches_row. simpl. congruence.
Qed.

Lemma Inv_observe row ev a :
  (KObs, d_ID row) ∈ g ->
  Inv ids0 (logged (CDispatchEnded row ev) a w (w_db w) (w_ids w) (w_locks w))
    (G1 ++ (g ∖ {[(KObs, d_ID row)]}) :: G2).
Proof.
  intros Hobs. split; [apply HI|].
  set (w' := logged (CDispatchEnded row ev) a w (w_db w) (w_ids w) (w_locks w)).
  assert (Hne : forall i, i <> d_ID row -> count (reports_end i) w' = count (reports_end i) w).
  { intros i Hi. unfold w'. rewrite count_logged, decide_False; [lia|]. unfold reports_end. simpl. congruence. }
  apply (inv_ext _ _ _ (fun i => count (launches_row i) w) _ (fun i => count (reports_end i) w') _
           (fun i => count (comments_failure i) w')); [intros i; unfold w'; by rewrite count_logged|done|done|].
  eapply inv_spend; [exact call_inv|apply store_error_logged|exact Hobs| |left]; cbn beta.
  - intros i Hi. split; [by apply Hne|]. unfold w'. by rewrite count_logged.
  - split_and!; [done| |]; unfold w'; rewrite count_logged; [rewrite decide_True by done; lia|done].
Qed.

Lemma Inv_comment row timeout a :
  (KCmt, d_ID row) ∈ g ->
  Inv ids0 (logged (CFailureComment row timeout) a w (w_db w) (w_ids w) (w_locks w))
    (G1 ++ (g ∖ {[(KCmt, d_ID row)]}) :: G2).
Proof.
  intros Hcmt. split; [apply HI|].
  set (w' := logged (CFailureComment row timeout) a w (w_db w) (w_ids w) (w_locks w)).
  assert (Hnc : forall i, i <> d_ID row -> count (comments_failure i) w' = count (comments_failure i) w).
  { intros i Hi. unfold w'. rewrite count_logged, decide_False; [lia|]. unfold comments_failure. simpl. congruence. }
  apply (inv_ext _ _ _ (fun i => count (launches_row i) w) _ (fun i => count (reports_end i) w') _
           (fun i => count (comments_failure i) w')); [intros i; unfold w'; by rewrite count_logged|done|done|].
  eapply inv_spend; [exact call_inv|apply store_error_logged|exact Hcmt| |right]; cbn beta.
  - intros i Hi. split; [|by apply Hnc]. unfold w'. by rewrite count_logged.
  - split_and!; [done| |]; unfold w'; rewrite count_logged; [done|rewrite decide_True by done; lia].
Qed.

Lemma Inv_call c a w' :
  pre g c -> exec w c a w' ->
  Inv ids0 w' (G1 ++ mon g c a :: G2 ++ option_list ((fun _ => born c a) <$> spawn c a)).
Proof.
  intros Hpre Hexec. destruct Hexec as [s' ids locks Hdb|Hw Hread].
  - revert Hpre. destruct Hdb; intros Hpre; cbn [spawn option_fmap option_map fmap option_list]; rewrite app_nil_r.
    + by eapply Inv_insert.
    + by apply Inv_transition.
    + by apply Inv_fail.
    + by apply Inv_pending.
    + by apply Inv_delete.
    + apply Inv_quiet; [done| |done]. unfold RecordDispatchWarning in *.
      destruct H; [|done|]; repeat case_match; done.
    + apply Inv_quiet; [done| |done]. by destruct H.
    + by apply Inv_quiet.
    + by apply Inv_quiet.
    + apply Inv_quiet; [done| |done]. by destruct H.
    + by apply Inv_quiet.
    + apply Inv_quiet; [done| |done]. by destruct H.
    + apply Inv_quiet; [done| |done]. unfold recordReservedChild in *. destruct H; [|done|]; by case_match.
  - pose proof call_inv as Hinv. destruct c; try done; cbn [spawn option_fmap option_map fmap option_list];
      rewrite ?app_nil_r; try by apply Inv_quiet.
    + by apply Inv_comment.
    + by apply Inv_launch.
    + by apply Inv_observe.
Qed.
End Calls.

(** ** The system *)

(** What arrives: ticks, for any connection, with any configuration. *)
Definition ticks (p : tprog unit) : Prop :=
  exists Marshal d u c, p = (_ ← Tick Marshal d u c; mret tt).

(** What others may do: connections and routes change, and a connection that is deleted
    takes its rows with it. *)
Definition operator (w w' : world) : Prop :=
  w_ids w' = w_ids w /\ w_trace w' = w_trace w /\
  (t_dispatches (w_db w') = t_dispatches (w_db w)
   \/ exists u c, t_dispatches (w_db w') = t_dispatches (Delete u c (w_db w)).2).

Definition dispatch_reach (w0 : world) : list (tprog unit) * world -> Prop :=
  preach exec spawn ticks operator w0.

(** A daemon that has just started on the table of [w0]. *)
Record boot (w0 : world) : Prop := {
  bt_table : table_ok (w_db w0);
  bt_ids : forall d, d ∈ t_dispatches (w_db w0) -> d_ID d ∈ w_ids w0;
  bt_trace : w_trace w0 = [];
}.

Lemma boot_inv w0 : boot w0 -> Inv (w_ids w0) w0 [].
Proof.
  intros [Hok Hids Htr]. split; [done|].
  assert (Hc : forall (P : tevent -> Prop) `{!forall e, Decision (P e)}, count P w0 = 0)
    by (intros; unfold count; by rewrite Htr).
  split; try by intros *; rewrite ?elem_of_nil.
  - intros i [d Hd]. apply ledger_lookup in Hd as [Hd <-]; [by apply Hids|apply Hok].
  - intros i. rewrite Hc. unfold total. simpl. lia.
  - intros i. rewrite Hc. unfold total. simpl. lia.
  - intros i. rewrite Hc. unfold total. simpl. lia.
  - intros i Hi (d & Hd & _). destruct Hi.
    apply ledger_lookup in Hd as [Hd <-]; [by apply Hids|apply Hok].
Qed.

Lemma env_inv ids0 w w' G : operator w w' -> Inv ids0 w G -> Inv ids0 w' G.
Proof.
  intros (Hids & Htr & Hrows) [Hok Hinv].
  assert (Hc : forall (P : tevent -> Prop) `{!forall e, Decision (P e)}, count P w' = count P w)
    by (intros; unfold count; by rewrite Htr).
  assert (Herr : store_error w -> store_error w') by (unfold store_error; by rewrite Htr).
  assert (table_ok (w_db w') /\ ledger_of (t_dispatches (w_db w')) ⊆ ledger_of (t_dispatches (w_db w))) as [Hok' HL].
  { destruct Hrows as [Hs|(u & c & Hs)].
    - split; [by eapply table_ok_same|by rewrite Hs].
    - destruct Hok as [Hnd Hlok]. set (rows := t_dispatches (w_db w)) in *.
      assert (Hnd' : NoDup (d_ID <$> t_dispatches (w_db w'))) by (rewrite Hs; by apply ids_filter).
      assert (HL : ledger_of (t_dispatches (w_db w')) ⊆ ledger_of rows).
      { apply map_subseteq_spec. intros i d Hd. apply ledger_lookup in Hd as [Hd Hi]; [|done].
        apply ledger_lookup; [done|]. split; [|done]. rewrite Hs in Hd.
        by apply list_elem_of_filter in Hd as [_ Hd]. }
      split; [|done]. split; [done|]. destruct Hlok as [H1 H2]. split.
      + intros i d Hd. eapply H1, lookup_weaken; done.
      + intros i j d e Hd He. eapply H2; by eapply lookup_weaken. }
  split; [done|]. rewrite Hids. eapply inv_ext; [intros i; apply Hc|intros i; apply Hc|intros i; apply Hc|].
  eapply inv_cascade; [done|]. by eapply inv_error.
Qed.

Lemma reach_inv w0 T w :
  boot w0 -> dispatch_reach w0 (T, w) ->
  exists G, Forall2 (safe mon pre (fun _ _ _ => True) (fun g _ => settled g)) T G /\ Inv (w_ids w0) w G.
Proof.
  intros Hboot. apply (pool_invariant _ _ _ _ mon pre _ born ∅).
  - by apply boot_inv.
  - intros p (Marshal & d & u & c & ->). eapply wp_seq; [apply Tick_wp; right; set_solver|]. by intros g r Hg.
  - intros c a p Hsp. destruct c; try done. simplify_eq/=.
    apply finishDispatchedRun_wp; [set_solver|right; set_solver].
  - intros w1 G [Hok Hinv]. split; [done|]. by apply inv_fresh.
  - intros w1 w2 G. apply env_inv.
  - intros w1 G1 g G2 c a w2 HI Hpre Hexec. split; [done|]. by eapply Inv_call.
Qed.

(** C9: Exactly-once effects of a dispatch, in every reachable state of any number of ticks,
    background runs and operators deleting connections, whose calls interleave and whose
    statements may fail with or without having taken effect.  For every dispatch row id:
    its run is launched at most once, its end is reported to the metrics at most once, and
    the failure comment is posted at most once; an end is reported only when the row has left
    QUEUED and RUNNING, and a failure is commented on only when the row is FAILED; and the
    table has at most one active row per issue. *)
Theorem dispatch_at_most_once w0 T w id :
  boot w0 -> dispatch_reach w0 (T, w) ->
  count (launches_row id) w <= 1 /\ count (reports_end id) w <= 1 /\ count (comments_failure id) w <= 1 /\
  (forall d, d ∈ t_dispatches (w_db w) -> d_ID d = id ->
     (0 < count (reports_end id) w -> active d = false) /\
     (0 < count (comments_failure id) w -> d_State d = DISPATCH_STATE_FAILED)) /\
  table_ok (w_db w).
Proof.
  intros Hboot Hreach. destruct (reach_inv _ _ _ Hboot Hreach) as (G & _ & Hok & Hinv).
  pose proof (i_start _ _ _ _ _ _ _ _ Hinv id) as Hs. pose proof (i_obs _ _ _ _ _ _ _ _ Hinv id) as Ho.
  pose proof (i_cmt _ _ _ _ _ _ _ _ Hinv id) as Hc. cbn beta in *. unfold minted, over, failed in *.
  split_and!; [repeat case_decide; lia..| |done]. intros d Hd Hid.
  assert (HL : ledger_of (t_dispatches (w_db w)) !! id = Some d) by (apply ledger_lookup; [apply Hok|done]).
  split; intros Hpos.
  - clear Hs Hc. case_decide as Hna; [|lia]. destruct Hna as [_ Hna]. apply not_true_is_false. intros Ha. apply Hna. by exists d.
  - clear Hs Ho. case_decide as Hf; [|lia]. destruct Hf as [_ [HN|Hf]]; [congruence|].
    unfold row_state in Hf. rewrite HL in Hf. by simplify_eq/=.
Qed.

(** C10: No issue stays locked.  Once every thread has ended, and if no statement that moves
    rows has reported an error, no row that was inserted is QUEUED or RUNNING: whatever
    the forge, the run starter, the agent, the contexts and the other threads did (agent panics and
    cancelled ticks included), somebody has finished, failed or removed it, so that the
    issue can be dispatched again. *)
Theorem dispatch_settles w0 T w d :
  boot w0 -> dispatch_reach w0 (T, w) -> quiescent T -> ~ store_error w ->
  d ∈ t_dispatches (w_db w) -> d_ID d ∉ w_ids w0 -> active d = false.
Proof.
  intros Hboot Hreach HT Herr Hd Hnew. destruct (reach_inv _ _ _ Hboot Hreach) as (G & Hsafe & Hok & Hinv).
  pose proof (quiescent_post _ _ _ _ _ _ HT Hsafe) as Hpost. apply not_true_is_false. intros Ha.
  destruct (i_owe _ _ _ _ _ _ _ _ Hinv (d_ID d) Hnew) as [?|(g & Hg & Ho)]; [|done|].
  - exists d. split; [|done]. apply ledger_lookup; [apply Hok|done].
  - rewrite Forall_forall in Hpost. destruct (Hpost g Hg) as [He|Hno]; [|by destruct (Hno (d_ID d))].
    by apply Herr, (i_err _ _ _ _ _ _ _ _ Hinv g).
Qed.

(** ** The example system *)

Lemma ex_boot : boot (ex_world []).
Proof. split; [split; [constructor|split; by intros *; rewrite ?lookup_empty]|by intros ? ?%elem_of_nil|done]. Qed.

(** The run that the tick launched. *)
Definition ex_run : tprog unit := match ex_threads with p :: _ => p | [] => Ret tt end.

Lemma ex_one_thread : ex_threads = [ex_run].
Proof.
  assert (Hlen : length ex_threads = 1%nat) by (vm_compute; reflexivity).
  unfold ex_run. by destruct ex_threads as [|p [|]].
Qed.

(** The tick arrives and runs, then the run it launched: everybody has finished. *)
Lemma ex_reach : dispatch_reach (ex_world []) ([Ret tt; Ret tt], ex_after_run).
Proof.
  eapply rtc_l.
  { apply (pstep_arrive _ _ _ _ [] ex_tick). by eexists _, _, _, _. }
  etransitivity.
  { apply (alone_pool ex_outside spawn _ _ [] ex_tick [] (ex_world []) tt ex_after_tick).
    unfold ex_after_tick. by destruct (handle _ _ _) as [[] w]. }
  cbn [app]. change (spawned ex_outside spawn ex_tick (ex_world [])) with ex_threads. rewrite ex_one_thread.
  assert (Hsp : spawned ex_outside spawn ex_run ex_after_tick = []).
  { apply nil_length_inv. vm_compute. reflexivity. }
  pose proof (alone_pool ex_outside spawn ticks operator [Ret tt] ex_run [] ex_after_tick tt ex_after_run) as Hrun.
  rewrite Hsp in Hrun. apply Hrun.
  unfold ex_after_run. rewrite ex_one_thread. by destruct (handle _ _ _) as [[] w].
Qed.

Lemma dispatch_at_most_once_witness :
  count (launches_row "0") ex_after_run = 1 /\
  (count (launches_row "0") ex_after_run <= 1 /\ count (reports_end "0") ex_after_run <= 1).
Proof.
  split; [vm_compute; reflexivity|].
  destruct (dispatch_at_most_once (ex_world []) [Ret tt; Ret tt] ex_after_run "0" ex_boot ex_reach) as (H1 & H2 & _).
  split; assumption.
Defined.

Lemma dispatch_settles_witness :
  exists d, d ∈ t_dispatches (w_db ex_after_run) /\ active d = false.
Proof.
  destruct (t_dispatches (w_db ex_after_run)) as [|d rows] eqn:Hrows.
  { apply (f_equal length) in Hrows. vm_compute in Hrows. discriminate Hrows. }
  exists d. split; [by left|].
  apply (dispatch_settles (ex_world []) [Ret tt; Ret tt] ex_after_run d ex_boot ex_reach).
  - repeat constructor.
  - intros Herr. assert (Hno : forallb (fun e : tevent => negb (statement_errorb (projT1 e) (projT2 e))) (w_trace ex_after_run) = true)
      by (vm_compute; reflexivity).
    destruct Herr as (e & He & Hse). rewrite forallb_forall in Hno.
    specialize (Hno e (proj1 (list_elem_of_In _ _) He)). apply statement_errorb_spec in Hse. 
    assert (Hno' : negb (statement_errorb (projT1 e) (projT2 e)) = true) by exact Hno.
    rewrite Hse in Hno'. discriminate Hno'.
  - rewrite Hrows. by left.
  - apply not_elem_of_empty.
Defined.
