(* ===== verification/Claim.v ===== *)
(** * internal/tracker, claim.go: claiming an issue through its comment thread

    [ClaimTrackerIssue] talks to the tracker between its decisions, so it is a machine:
    the constructors of [claim_pc] are its points between provider calls and
    [claim_step] runs it to the next one.  The comment thread is the state the runs share;
    what the provider, the clock and the run registry answer in a step is the record
    [answers].  A provider call that reports an error may still have posted
    ([a_posted]). *)

From S2P Require Import Prelude GoStrings Identity.
From Stdlib Require Import Ascii.
#[local] Open Scope string_scope.
#[local] Open Scope list_scope.
#[local] Open Scope Z_scope.

Record Comment := mkComment { c_Author : string; c_CreatedAt : Time; c_Body : string }.

Definition DefaultStaleAfter : Duration := 2 * Hour.

(** ** Per-issue locks *)

(** [locks] maps a key to its mutex; [next] is the next fresh one. *)
Record ClaimLocks := mkLocks { locks : gmap string nat; next_lock : nat }.

Definition NewClaimLocks : ClaimLocks := mkLocks ∅ 0.

Definition lock_key (username connection : string) (number : Z) : string :=
  username +:+ "/" +:+ connection +:+ "#" +:+ Itoa number.

Definition Lock (username connection : string) (number : Z) (c : ClaimLocks) : nat * ClaimLocks :=
  let key := lock_key username connection number in
  match locks c !! key with
  | Some l => (l, c)
  | None => (next_lock c, mkLocks (<[key := next_lock c]> (locks c)) (S (next_lock c)))
  end.

(** ** Scanning a thread *)

(** [latestClaim]'s loop, over the newest comment first. *)
Fixpoint latest_from (brokerAuthor : string) (voided : gset string) (newest_first : list Comment)
  : option (string * Time) :=
  match newest_first with
  | [] => None
  | c :: rest =>
      if negb (String.eqb (c_Author c) brokerAuthor) then latest_from brokerAuthor voided rest
      else match ParseMarker (c_Body c) with
           | None => latest_from brokerAuthor voided rest
           | Some (runID, _, kind) =>
               if String.eqb kind KindYield then latest_from brokerAuthor ({[runID]} ∪ voided) rest
               else if String.eqb kind KindClaim then
                 if decide (runID ∈ voided) then latest_from brokerAuthor voided rest
                 else Some (runID, c_CreatedAt c)
               else latest_from brokerAuthor voided rest
           end
  end.

Definition latestClaim (comments : list Comment) (brokerAuthor : string) : option (string * Time) :=
  latest_from brokerAuthor ∅ (rev comments).

Fixpoint earliestForeignClaimBefore (comments : list Comment) (myRunID : string) (before : Time)
  (brokerAuthor : string) : option (string * Time) :=
  match comments with
  | [] => None
  | c :: rest =>
      if negb (String.eqb (c_Author c) brokerAuthor)
      then earliestForeignClaimBefore rest myRunID before brokerAuthor
      else match ParseMarker (c_Body c) with
           | None => earliestForeignClaimBefore rest myRunID before brokerAuthor
           | Some (runID, _, kind) =>
               if negb (String.eqb kind KindClaim) || String.eqb runID myRunID
               then earliestForeignClaimBefore rest myRunID before brokerAuthor
               else if Before (c_CreatedAt c) before then Some (runID, c_CreatedAt c)
               else earliestForeignClaimBefore rest myRunID before brokerAuthor
           end
  end.

(** ** [ClaimTrackerIssue] *)

Record ClaimResult := mkResult { r_Claimed : bool; r_AlreadyClaimedByRunID : string; r_Assigned : bool }.

Inductive claim_error := EResolveIdentity | EReadIssue | EPostClaim | EAssign | EReread.

Inductive claim_pc :=
| CWhoAmI
| CRead (brokerAuthor : string)
| CPost (brokerAuthor : string)
| CAssign (brokerAuthor : string) (created : Time)
| CReread (brokerAuthor : string) (created : Time) (assigned : bool)
| CYield (brokerAuthor : string) (holder : string)
| CDone (res : ClaimResult)
| CErr (e : claim_error).

Record answers := mkAnswers {
  a_err : bool;
  a_posted : bool;
  a_author : string;
  a_created : Time;
  a_assigned : bool;
  a_live : string -> bool;
  a_now : Time;
}.

Definition effective_stale (staleAfter : Duration) : Duration :=
  if staleAfter <=? 0 then DefaultStaleAfter else staleAfter.

(** A claim that is honored: its run is live or the marker is fresh. *)
Definition held (staleAfter : Duration) (a : answers) (holder : string) (when : Time) : bool :=
  a_live a holder || (Sub (a_now a) when <? effective_stale staleAfter).

Definition lost (holder : string) : ClaimResult := mkResult false holder false.

Definition yield_body (id : Identity) (holder : string) : string :=
  "Yielding to an earlier claim by " +:+ holder +:+ "." +:+ nl +:+ nl +:+ Stamp id KindYield.

(** A comment posted through the connection; it may land although the call fails. *)
Definition post (a : answers) (body : string) (thread : list Comment) : list Comment :=
  if negb (a_err a) || a_posted a then thread ++ [mkComment (a_author a) (a_created a) body] else thread.

Definition claim_step (id : Identity) (staleAfter : Duration) (a : answers) (pc : claim_pc)
  (thread : list Comment) : claim_pc * list Comment :=
  match pc with
  | CWhoAmI => if a_err a then (CErr EResolveIdentity, thread) else (CRead (a_author a), thread)
  | CRead b =>
      if a_err a then (CErr EReadIssue, thread)
      else match latestClaim thread b with
           | Some (holder, when) =>
               if String.eqb holder (id_RunID id) then (CDone (mkResult true "" false), thread)
               else if held staleAfter a holder when then (CDone (lost holder), thread)
               else (CPost b, thread)
           | None => (CPost b, thread)
           end
  | CPost b =>
      let thread' := post a (Stamp id KindClaim) thread in
      if a_err a then (CErr EPostClaim, thread') else (CAssign b (a_created a), thread')
  | CAssign b created => if a_err a then (CErr EAssign, thread) else (CReread b created (a_assigned a), thread)
  | CReread b created assigned =>
      if a_err a then (CErr EReread, thread)
      else match earliestForeignClaimBefore thread (id_RunID id) created b with
           | Some (holder, when) =>
               if held staleAfter a holder when then (CYield b holder, thread)
               else (CDone (mkResult true "" assigned), thread)
           | None => (CDone (mkResult true "" assigned), thread)
           end
  | CYield b holder => (CDone (lost holder), post a (yield_body id holder) thread)
  | CDone _ | CErr _ => (pc, thread)
  end.

(** One call on its own: at most six steps. *)
Definition ClaimTrackerIssue (id : Identity) (staleAfter : Duration) (answers_of : nat -> answers)
  (thread : list Comment) : claim_pc * list Comment :=
  foldl (fun st k => claim_step id staleAfter (answers_of k) st.1 st.2) (CWhoAmI, thread) (seq 0 6).

(** ** Many runs on one thread *)

(** What a comment means to the algorithm: a run and the kind of its marker. *)
Definition marked (author : string) (c : Comment) : option (string * StampKind) :=
  if String.eqb (c_Author c) author
  then match ParseMarker (c_Body c) with Some (run, _, kind) => Some (run, kind) | None => None end
  else None.

Definition is_claim (author : string) (c : Comment) : bool :=
  match marked author c with Some (_, kind) => String.eqb kind KindClaim | None => false end.

(** No claim on the thread is stale. *)
Definition all_held (author : string) (staleAfter : Duration) (a : answers) (thread : list Comment) : bool :=
  forallb (fun c => match marked author c with
                    | Some (run, kind) => negb (String.eqb kind KindClaim) || held staleAfter a run (c_CreatedAt c)
                    | None => true
                    end) thread.

Definition later (thread : list Comment) (t : Time) : bool := forallb (fun c => Before (c_CreatedAt c) t) thread.

(** The assumptions under which claims exclude each other: every call uses the connection's
    one account, the tracker gives a claim a timestamp after all earlier
    comments', no claim is stale, and once a claim is posted the provider answers. *)
Definition good (author : string) (staleAfter : Duration) (thread : list Comment) (pc : claim_pc) (a : answers) : bool :=
  String.eqb (a_author a) author &&
  match pc with
  | CRead _ => all_held author staleAfter a thread
  | CPost _ => later thread (a_created a) && (negb (a_err a) || negb (a_posted a))
  | CAssign _ _ | CYield _ _ => negb (a_err a)
  | CReread _ _ _ => negb (a_err a) && all_held author staleAfter a thread
  | _ => true
  end.

(** [s_calls] holds the call each run is making (a run's calls are serialized), [s_done]
    the results so far. *)
Record sys := mkSys { s_thread : list Comment; s_calls : gmap string claim_pc; s_done : list (string * ClaimResult) }.

Section system.
Context (author : string) (ids : string -> Identity) (staleAfter : Duration).

Definition settle (run : string) (pc : claim_pc) (thread : list Comment) (s : sys) : sys :=
  match pc with
  | CDone res => mkSys thread (delete run (s_calls s)) (s_done s ++ [(run, res)])
  | CErr _ => mkSys thread (delete run (s_calls s)) (s_done s)
  | _ => mkSys thread (<[run := pc]> (s_calls s)) (s_done s)
  end.

Inductive step : sys -> sys -> Prop :=
| step_call s run :
    s_calls s !! run = None -> word run -> word (id_SkillID (ids run)) -> step s (mkSys (s_thread s) (<[run := CWhoAmI]> (s_calls s)) (s_done s))
| step_run s run pc a :
    s_calls s !! run = Some pc -> good author staleAfter (s_thread s) pc a = true ->
    step s (let '(pc', thread') := claim_step (ids run) staleAfter a pc (s_thread s) in settle run pc' thread' s)
| step_comment s c :
    match marked author c with Some (_, kind) => negb (String.eqb kind KindClaim || String.eqb kind KindYield) | None => true end = true ->
    step s (mkSys (s_thread s ++ [c]) (s_calls s) (s_done s)).

(** A thread without claims, and no calls yet. *)
Definition initial (s : sys) : Prop := forallb (fun c => negb (is_claim author c)) (s_thread s) = true /\ s_calls s = ∅ /\ s_done s = [].

Definition reachable (s : sys) : Prop := exists s0, initial s0 /\ rtc step s0 s.

(** ** Lemmas: scanning *)

Fixpoint first_claim (thread : list Comment) : option (string * Time) :=
  match thread with
  | [] => None
  | c :: rest => match marked author c with
                 | Some (run, kind) => if String.eqb kind KindClaim then Some (run, c_CreatedAt c) else first_claim rest
                 | None => first_claim rest
                 end
  end.

(** The kind of a run's latest claim or yield, over the newest comment first. *)
Fixpoint newest (run : string) (newest_first : list Comment) : option StampKind :=
  match newest_first with
  | [] => None
  | c :: rest => match marked author c with
                 | Some (r, kind) => if String.eqb r run && (String.eqb kind KindClaim || String.eqb kind KindYield)
                                     then Some kind else newest run rest
                 | None => newest run rest
                 end
  end.

Lemma first_claim_app t1 t2 :
  first_claim (t1 ++ t2) = match first_claim t1 with Some x => Some x | None => first_claim t2 end.
Proof.
  induction t1 as [|c t1 IH]; simpl; [done|]. destruct (marked author c) as [[r k]|]; [|done].
  by destruct (String.eqb k KindClaim).
Qed.

Lemma first_claim_time thread w t : first_claim thread = Some (w, t) -> exists c, c ∈ thread /\ c_CreatedAt c = t /\ exists k, marked author c = Some (w, k) /\ k = KindClaim.
Proof.
  induction thread as [|c rest IH]; simpl; [done|]. intros H.
  assert (Hr : first_claim rest = Some (w, t) -> exists c0, c0 ∈ c :: rest /\ c_CreatedAt c0 = t /\ exists k, marked author c0 = Some (w, k) /\ k = KindClaim).
  { intros Hf. destruct (IH Hf) as (c0 & ? & ?). exists c0. split; [by right|done]. }
  destruct (marked author c) as [[r k]|] eqn:E; [|by apply Hr].
  destruct (String.eqb_spec k KindClaim) as [->|]; [|by apply Hr]. injection H as <- <-.
  exists c. split; [by left|]. split; [done|]. by exists KindClaim.
Qed.

Lemma latest_from_newest voided l run t :
  latest_from author voided l = Some (run, t) -> run ∉ voided /\ newest run l = Some KindClaim.
Proof.
  revert voided. induction l as [|c l IH]; intros voided; simpl; [done|]. unfold marked.
  destruct (String.eqb (c_Author c) author); simpl; [|apply IH].
  destruct (ParseMarker (c_Body c)) as [[[r sk] k]|]; [|apply IH].
  destruct (String.eqb_spec k KindYield) as [->|].
  { intros H. apply IH in H as [Hv Hn]. split; [set_solver|].
    rewrite (proj2 (String.eqb_neq r run)) by set_solver. done. }
  destruct (String.eqb_spec k KindClaim) as [->|].
  - destruct (decide (r ∈ voided)) as [Hin|Hin].
    + intros H. apply IH in H as [Hv Hn]. split; [done|]. by rewrite (proj2 (String.eqb_neq r run)) by set_solver.
    + intros [= -> <-]. split; [done|]. by rewrite String.eqb_refl.
  - intros H. apply IH in H as [Hv Hn]. split; [done|]. by rewrite andb_false_r.
Qed.

Lemma latestClaim_newest thread run t : latestClaim thread author = Some (run, t) -> newest run (rev thread) = Some KindClaim.
Proof. intros H. by apply latest_from_newest in H as [_ H]. Qed.

(** An earlier claim of another run is found, and what is found is a claim on the thread. *)
Lemma earliest_found thread run before w t :
  first_claim thread = Some (w, t) -> w <> run -> t < before ->
  exists holder when c, earliestForeignClaimBefore thread run before author = Some (holder, when) /\
    c ∈ thread /\ marked author c = Some (holder, KindClaim) /\ c_CreatedAt c = when.
Proof.
  intros Hf Hw Ht. induction thread as [|c rest IH]; simpl in *; [done|]. unfold marked in *.
  assert (Hc : forall P, (exists h x c0, P h x /\ c0 ∈ rest /\ marked author c0 = Some (h, KindClaim) /\ c_CreatedAt c0 = x) ->
    exists h x c0, P h x /\ c0 ∈ c :: rest /\ marked author c0 = Some (h, KindClaim) /\ c_CreatedAt c0 = x).
  { intros P (h & x & c0 & ? & ? & ?). exists h, x, c0. split; [done|]. split; [by right|done]. }
  destruct (String.eqb_spec (c_Author c) author) as [Ea|]; simpl; [|by apply (Hc (fun h x => _ = Some (h, x))), IH].
  destruct (ParseMarker (c_Body c)) as [[[r sk] k]|] eqn:Ep; [|by apply (Hc (fun h x => _ = Some (h, x))), IH].
  destruct (String.eqb_spec k KindClaim) as [->|]; simpl; [|by apply (Hc (fun h x => _ = Some (h, x))), IH].
  injection Hf as -> <-. rewrite (proj2 (String.eqb_neq w run) Hw). unfold Before.
  rewrite (proj2 (Z.ltb_lt _ _) Ht). exists w, (c_CreatedAt c), c. split; [done|]. split; [by left|].
  rewrite (proj2 (String.eqb_eq _ _) Ea), Ep. done.
Qed.

Lemma all_held_claim a thread c run :
  all_held author staleAfter a thread = true -> c ∈ thread -> marked author c = Some (run, KindClaim) ->
  held staleAfter a run (c_CreatedAt c) = true.
Proof.
  intros H Hin Hm. unfold all_held in H. rewrite forallb_forall in H. apply list_elem_of_In in Hin.
  specialize (H c Hin). by rewrite Hm in H.
Qed.

(** ** Lemmas: the invariant *)

(** A call that has posted its claim. *)
Definition posted (pc : claim_pc) : Prop :=
  match pc with CAssign _ _ | CReread _ _ _ | CYield _ _ => True | _ => False end.

(** What is known in each state of a call. *)
Definition call_ok (thread : list Comment) (run : string) (pc : claim_pc) : Prop :=
  (word run /\ word (id_SkillID (ids run))) /\
  match pc with
  | CWhoAmI => True
  | CRead b | CPost b | CYield b _ => b = author
  | CAssign b created | CReread b created _ =>
      b = author /\ exists w t, first_claim thread = Some (w, t) /\ (w = run \/ t < created)
  | CDone _ | CErr _ => False
  end.

Definition inv (s : sys) : Prop :=
  (forall run res, (run, res) ∈ s_done s -> r_Claimed res = true -> exists t, first_claim (s_thread s) = Some (run, t)) /\
  (forall run pc, s_calls s !! run = Some pc -> call_ok (s_thread s) run pc) /\
  (forall run, newest run (rev (s_thread s)) = Some KindClaim ->
     (exists t, first_claim (s_thread s) = Some (run, t)) \/
     exists pc, s_calls s !! run = Some pc /\ posted pc).

Lemma first_claim_mono thread ext x : first_claim thread = Some x -> first_claim (thread ++ ext) = Some x.
Proof. intros H. by rewrite first_claim_app, H. Qed.

Lemma call_ok_mono thread ext run pc : call_ok thread run pc -> call_ok (thread ++ ext) run pc.
Proof.
  intros [Hid H]. split; [exact Hid|]. destruct pc; simpl in *; try done;
    destruct H as (-> & w & t & Hf & H); (split; [done|]); exists w, t; (split; [by apply first_claim_mono|done]).
Qed.

Lemma newest_snoc run thread c :
  newest run (rev (thread ++ [c])) =
  match marked author c with
  | Some (r, kind) => if String.eqb r run && (String.eqb kind KindClaim || String.eqb kind KindYield)
                      then Some kind else newest run (rev thread)
  | None => newest run (rev thread)
  end.
Proof. by rewrite rev_unit. Qed.

Lemma initial_inv s : initial s -> inv s.
Proof.
  intros (Hc & Hcalls & Hdone). unfold inv. rewrite Hcalls, Hdone. split_and!; [set_solver|by intros ??; rewrite lookup_empty|].
  intros run. assert (Hn : forall l, forallb (fun c => negb (is_claim author c)) l = true -> newest run l <> Some KindClaim).
  { induction l as [|c l IH]; intros Hl; simpl in *; [done|]. apply andb_prop in Hl as [H1 H2]. unfold is_claim in H1.
    destruct (marked author c) as [[r k]|]; [|by apply IH]. apply negb_true_iff in H1. rewrite H1. simpl.
    destruct (String.eqb r run && String.eqb k KindYield); [|by apply IH]. intros [= ->]. done. }
  intros H. destruct (Hn (rev (s_thread s))); [|done]. rewrite forallb_forall in *. intros c Hin. apply Hc.
  by apply in_rev.
Qed.

(** The conditions on a comment that posts nothing relevant for other runs. *)
Lemma inv_comment s c :
  inv s -> match marked author c with Some (_, kind) => negb (String.eqb kind KindClaim || String.eqb kind KindYield) | None => true end = true ->
  inv (mkSys (s_thread s ++ [c]) (s_calls s) (s_done s)).
Proof.
  intros (HD & HC & HN) Hc. split_and!; simpl.
  - intros run res Hin Hr. destruct (HD run res Hin Hr) as [t Ht]. exists t. by apply first_claim_mono.
  - intros run pc Hp. by apply call_ok_mono, HC.
  - intros run. rewrite newest_snoc. intros Hn.
    assert (Hn' : newest run (rev (s_thread s)) = Some KindClaim).
    { destruct (marked author c) as [[r k]|]; [|done]. apply negb_true_iff in Hc. rewrite Hc, andb_false_r in Hn. done. }
    destruct (HN run Hn') as [[t Ht]|]; [left; exists t; by apply first_claim_mono|by right].
Qed.

(** Moving one call without touching the thread. *)
Lemma inv_move s run pc :
  inv s -> call_ok (s_thread s) run pc ->
  (newest run (rev (s_thread s)) = Some KindClaim -> (exists t, first_claim (s_thread s) = Some (run, t)) \/ posted pc) ->
  inv (mkSys (s_thread s) (<[run := pc]> (s_calls s)) (s_done s)).
Proof.
  intros (HD & HC & HN) Hok Hrun. split_and!; simpl; [done| |].
  - intros r p. rewrite lookup_insert_Some. intros [[<- <-]|[_ Hp]]; [done|by apply HC].
  - intros r Hn. destruct (decide (run = r)) as [<-|Hne].
    + destruct (Hrun Hn) as [?|?]; [by left|right; exists pc; by rewrite lookup_insert_eq].
    + rewrite lookup_insert_ne by done. by apply HN.
Qed.

(** Ending a call without touching the thread. *)
Lemma inv_end s run done_ :
  inv s ->
  (newest run (rev (s_thread s)) = Some KindClaim -> exists t, first_claim (s_thread s) = Some (run, t)) ->
  (forall r res, (r, res) ∈ done_ -> r_Claimed res = true -> exists t, first_claim (s_thread s) = Some (r, t)) ->
  inv (mkSys (s_thread s) (delete run (s_calls s)) done_).
Proof.
  intros (HD & HC & HN) Hrun Hdone. split_and!; simpl; [done| |].
  - intros r p. rewrite lookup_delete_Some. intros [_ Hp]. by apply HC.
  - intros r Hn. destruct (decide (run = r)) as [<-|Hne]; [left; by apply Hrun|].
    rewrite lookup_delete_ne by done. by apply HN.
Qed.

(** Appending a comment of [run] marked [kind]. *)
Lemma inv_post s run c kind :
  inv s -> marked author c = Some (run, kind) -> kind = KindClaim \/ kind = KindYield ->
  forall done_ calls, done_ = s_done s ->
  (forall r, r <> run -> calls !! r = s_calls s !! r) ->
  (forall pc, calls !! run = Some pc -> call_ok (s_thread s ++ [c]) run pc) ->
  (kind = KindClaim -> (exists t, first_claim (s_thread s ++ [c]) = Some (run, t)) \/ exists pc, calls !! run = Some pc /\ posted pc) ->
  inv (mkSys (s_thread s ++ [c]) calls done_).
Proof.
  intros (HD & HC & HN) Hm Hk done_ calls -> Hother Hrun Hpost. split_and!; simpl.
  - intros r res Hin Hr. destruct (HD r res Hin Hr) as [t Ht]. exists t. by apply first_claim_mono.
  - intros r pc Hp. destruct (decide (r = run)) as [->|Hne]; [by apply Hrun|].
    rewrite Hother in Hp by done. by apply call_ok_mono, HC.
  - intros r. rewrite newest_snoc, Hm. destruct (String.eqb_spec run r) as [<-|Hne]; simpl.
    + assert (Hkind : (String.eqb kind KindClaim || String.eqb kind KindYield) = true) by (by destruct Hk as [-> | ->]).
      rewrite Hkind. intros [= ->]. by apply Hpost.
    + intros Hn. rewrite Hother by done. destruct (HN r Hn) as [[t Ht]|]; [left; exists t; by apply first_claim_mono|by right].
Qed.

Hypothesis ids_run : forall run, id_RunID (ids run) = run.

Lemma marked_stamp run t pre kind :
  word run -> word (id_SkillID (ids run)) -> word kind ->
  marked author (mkComment author t (pre +:+ Stamp (ids run) kind)) = Some (run, kind).
Proof.
  intros Hr Hs Hk. unfold marked. simpl. rewrite String.eqb_refl, ParseMarker_stamped by (unfold readable; by rewrite ids_run).
  by rewrite ids_run.
Qed.

Lemma marked_claim run t :
  word run -> word (id_SkillID (ids run)) ->
  marked author (mkComment author t (Stamp (ids run) KindClaim)) = Some (run, KindClaim).
Proof. intros. apply (marked_stamp run t ""); done. Qed.

Lemma marked_yield run t holder :
  word run -> word (id_SkillID (ids run)) ->
  marked author (mkComment author t (yield_body (ids run) holder)) = Some (run, KindYield).
Proof. intros. unfold yield_body. rewrite <- !string_app_assoc. by apply marked_stamp. Qed.

Lemma later_elem thread t c : later thread t = true -> c ∈ thread -> c_CreatedAt c < t.
Proof.
  intros H Hin. unfold later in H. rewrite forallb_forall in H. apply list_elem_of_In in Hin.
  apply Z.ltb_lt. by apply H.
Qed.

(** A claim by [run] that a scan reports as the holder's is the first claim, unless
    its call is still under way. *)
Lemma newest_is_first s run pc :
  inv s -> s_calls s !! run = Some pc -> ~ posted pc -> newest run (rev (s_thread s)) = Some KindClaim ->
  exists t, first_claim (s_thread s) = Some (run, t).
Proof.
  intros (_ & _ & HN) Hp Hpc Hn. destruct (HN run Hn) as [?|(pc' & Hp' & Hpost)]; [done|].
  rewrite Hp in Hp'. by injection Hp' as <-.
Qed.

Lemma done_snoc s run res :
  inv s -> (r_Claimed res = true -> exists t, first_claim (s_thread s) = Some (run, t)) ->
  forall r res', (r, res') ∈ s_done s ++ [(run, res)] -> r_Claimed res' = true ->
    exists t, first_claim (s_thread s) = Some (r, t).
Proof.
  intros (HD & _) Hr r res' [Hin|Hin]%elem_of_app Hc; [by eapply HD|].
  apply list_elem_of_singleton in Hin as [= -> ->]. by apply Hr.
Qed.

(** Ending a call that has not posted a claim. *)
Lemma end_quiet s run pc done_ :
  inv s -> s_calls s !! run = Some pc -> ~ posted pc ->
  (forall r res, (r, res) ∈ done_ -> r_Claimed res = true -> exists t, first_claim (s_thread s) = Some (r, t)) ->
  inv (mkSys (s_thread s) (delete run (s_calls s)) done_).
Proof. intros Hinv Hp Hpc Hd. apply inv_end; [done| |done]. by eapply newest_is_first. Qed.

Lemma inv_done s : inv s -> forall r res, (r, res) ∈ s_done s -> r_Claimed res = true -> exists t, first_claim (s_thread s) = Some (r, t).
Proof. by intros (HD & _). Qed.

Abbreviation run_step s run pc a :=
  (let '(pc', thread') := claim_step (ids run) staleAfter a pc (s_thread s) in settle run pc' thread' s).

Lemma inv_step_read s run b a :
  inv s -> s_calls s !! run = Some (CRead b) -> good author staleAfter (s_thread s) (CRead b) a = true ->
  inv (run_step s run (CRead b) a).
Proof.
  intros Hinv Hp [Ha Hh]%andb_prop. pose proof Hinv as (_ & HC & _). destruct (HC _ _ Hp) as [Hid ->]. simpl.
  assert (Hq : ~ posted (CRead author)) by (by intros []).
  assert (Hlost : forall h, inv (settle run (CDone (lost h)) (s_thread s) s)).
  { intros h. simpl. eapply end_quiet; [done..|]. by apply done_snoc. }
  assert (Hpost : inv (settle run (CPost author) (s_thread s) s)).
  { simpl. apply inv_move; [done|by split|]. intros Hn. left. by eapply newest_is_first. }
  destruct (a_err a); [simpl; eapply end_quiet; [done..|by apply inv_done]|].
  destruct (latestClaim (s_thread s) author) as [[holder when]|] eqn:El; [|exact Hpost].
  destruct (String.eqb_spec holder (id_RunID (ids run))) as [->|].
  - simpl. eapply end_quiet; [done..|]. apply done_snoc; [done|]. intros _. eapply newest_is_first; [done..|].
    rewrite <- (ids_run run) at 1. by eapply latestClaim_newest.
  - destruct (held staleAfter a holder when); [apply Hlost|exact Hpost].
Qed.

Lemma inv_step_post s run b a :
  inv s -> s_calls s !! run = Some (CPost b) -> good author staleAfter (s_thread s) (CPost b) a = true ->
  inv (run_step s run (CPost b) a).
Proof.
  intros Hinv Hp [Ha Hh]%andb_prop. pose proof Hinv as (_ & HC & _). destruct (HC _ _ Hp) as [[Hw Hsk] ->].
  apply String.eqb_eq in Ha. apply andb_prop in Hh as [Hlater Hnp].
  simpl. unfold post. destruct (a_err a); simpl in *.
  { apply negb_true_iff in Hnp as ->. eapply end_quiet; [done..|by intros []|by apply inv_done]. }
  rewrite Ha. set (c := mkComment _ _ _). assert (Hm : marked author c = Some (run, KindClaim)) by (by apply marked_claim).
  assert (Hok : exists w t, first_claim (s_thread s ++ [c]) = Some (w, t) /\ (w = run \/ t < a_created a)).
  { rewrite first_claim_app. destruct (first_claim (s_thread s)) as [[w t]|] eqn:Ef.
    - exists w, t. split; [done|]. right. destruct (first_claim_time _ _ _ Ef) as (c' & Hin & <- & _). by eapply later_elem.
    - simpl. rewrite Hm. simpl. by eauto. }
  eapply (inv_post s run c KindClaim); [done..|by left|done| | |].
  - intros r Hr. by rewrite lookup_insert_ne.
  - intros pc. rewrite lookup_insert_eq. intros [= <-]. split; [done|]. by split.
  - intros _. right. eexists. rewrite lookup_insert_eq. split; [done|exact I].
Qed.

Lemma inv_step_assign s run b created a :
  inv s -> s_calls s !! run = Some (CAssign b created) ->
  good author staleAfter (s_thread s) (CAssign b created) a = true -> inv (run_step s run (CAssign b created) a).
Proof.
  intros Hinv Hp [Ha Hh]%andb_prop. pose proof Hinv as (_ & HC & _). pose proof (HC _ _ Hp) as Hok.
  apply negb_true_iff in Hh. simpl. rewrite Hh. simpl. apply inv_move; [done|exact Hok|]. intros _. right. exact I.
Qed.

Lemma inv_step_reread s run b created assigned a :
  inv s -> s_calls s !! run = Some (CReread b created assigned) ->
  good author staleAfter (s_thread s) (CReread b created assigned) a = true ->
  inv (run_step s run (CReread b created assigned) a).
Proof.
  intros Hinv Hp [Ha Hh]%andb_prop. pose proof Hinv as (_ & HC & HN).
  destruct (HC _ _ Hp) as [Hid (-> & w & t & Hf & Hwt)]. apply andb_prop in Hh as [He Hheld].
  apply negb_true_iff in He. simpl. rewrite He, ids_run.
  destruct (decide (w = run)) as [->|Hne].
  - assert (Hdone : forall assigned', inv (settle run (CDone (mkResult true "" assigned')) (s_thread s) s)).
    { intros a'. simpl. apply inv_end; [done|by eauto|]. apply done_snoc; [done|by eauto]. }
    destruct (earliestForeignClaimBefore _ _ _ _) as [[h x]|]; [|apply Hdone].
    destruct (held staleAfter a h x); [|apply Hdone]. simpl. apply inv_move; [done|by split|]. intros _. right. exact I.
  - destruct Hwt as [|Ht]; [done|].
    destruct (earliest_found _ run created w t Hf Hne Ht) as (h & x & c & -> & Hin & Hm & <-).
    rewrite (all_held_claim a _ c h Hheld Hin Hm). simpl. apply inv_move; [done|by split|]. intros _. right. exact I.
Qed.

Lemma inv_step_yield s run b holder a :
  inv s -> s_calls s !! run = Some (CYield b holder) ->
  good author staleAfter (s_thread s) (CYield b holder) a = true -> inv (run_step s run (CYield b holder) a).
Proof.
  intros Hinv Hp [Ha Hh]%andb_prop. pose proof Hinv as (_ & HC & _). destruct (HC _ _ Hp) as [[Hw Hsk] ->].
  apply String.eqb_eq in Ha. simpl. unfold post. rewrite Hh, Ha. simpl. set (c := mkComment _ _ _).
  assert (Hm : marked author c = Some (run, KindYield)) by (by apply marked_yield).
  assert (Hpost : inv (mkSys (s_thread s ++ [c]) (delete run (s_calls s)) (s_done s))).
  { eapply (inv_post s run c KindYield); [done..|by right|done| | |done].
    - intros r Hr. by rewrite lookup_delete_ne.
    - intros pc. by rewrite lookup_delete_eq. }
  destruct Hpost as (HD' & HC' & HN'). split_and!; [|done..].
  by apply (done_snoc (mkSys (s_thread s ++ [c]) (delete run (s_calls s)) (s_done s))).
Qed.

Lemma inv_step s s' : inv s -> step s s' -> inv s'.
Proof.
  intros Hinv Hs. destruct Hs as [s run Hn Hw Hsk|s run pc a Hp Hg|s c Hc].
  - apply inv_move; [done|by split|]. intros H. destruct Hinv as (_ & _ & HN).
    destruct (HN run H) as [?|(pc & Hp & _)]; [by left|]. by rewrite Hn in Hp.
  - pose proof Hinv as (_ & HC & _). destruct pc.
    + simpl. destruct (a_err a); simpl; [eapply end_quiet; [done..|by intros []|by apply inv_done]|].
      apply andb_prop in Hg as [Hg _]. apply String.eqb_eq in Hg. destruct (HC _ _ Hp) as [Hid _].
      apply inv_move; [done|by split|]. intros H. left. eapply newest_is_first; [done..|by intros []|done].
    + by apply inv_step_read.
    + by apply inv_step_post.
    + by apply inv_step_assign.
    + by apply inv_step_reread.
    + by apply inv_step_yield.
    + by destruct (HC _ _ Hp).
    + by destruct (HC _ _ Hp).
  - by apply inv_comment.
Qed.

(** ** Properties *)

(** C34: claims exclude each other.  However many runs claim one issue at once, from
    whichever daemons, and however their provider calls interleave with each other
    and with other comments, all calls that report the issue as claimed are of one run: on a
    thread that starts without claims, as long as the run and skill ids of every claiming run are non-empty, free of
    whitespace and the same in all its calls, a run makes one call at a time, all write through one account, no claim goes
    stale, a claim whose post fails did not land, and the tracker
    orders claims by their timestamps and answers once a claim is posted.  A run the registry
    does not know is stamped with an empty skill: its claim is seen by nobody ([unknown_run_claims_unseen]). *)
Theorem claim_exclusive s run1 run2 res1 res2 :
  reachable s -> (run1, res1) ∈ s_done s -> (run2, res2) ∈ s_done s ->
  r_Claimed res1 = true -> r_Claimed res2 = true -> run1 = run2.
Proof.
  intros (s0 & H0 & Hr) H1 H2 C1 C2. assert (Hinv : inv s).
  { apply initial_inv in H0. induction Hr as [|s0 s1 s2 Hst _ IH]; [done|]. apply IH; [by eapply inv_step|done..]. }
  destruct Hinv as (HD & _). destruct (HD _ _ H1 C1) as [t1 E1]. destruct (HD _ _ H2 C2) as [t2 E2]. congruence.
Qed.
End system.

(** ** Concrete races *)

Section play.
Context (author : string) (ids : string -> Identity) (staleAfter : Duration).

(** One step of [run]'s call, which is started when there is none. *)
Definition play_one (s : sys) (ra : string * answers) : sys :=
  let '(run, a) := ra in
  let s1 := match s_calls s !! run with
            | Some _ => s
            | None => mkSys (s_thread s) (<[run := CWhoAmI]> (s_calls s)) (s_done s)
            end in
  let '(pc', thread') := claim_step (ids run) staleAfter a (default CWhoAmI (s_calls s !! run)) (s_thread s) in
  settle run pc' thread' s1.

Definition play (ls : list (string * answers)) (s : sys) : sys := foldl play_one s ls.

Fixpoint play_ok (ls : list (string * answers)) (s : sys) : bool :=
  match ls with
  | [] => true
  | (run, a) :: rest =>
      good author staleAfter (s_thread s) (default CWhoAmI (s_calls s !! run)) a &&
      bool_decide (word run) && bool_decide (word (id_SkillID (ids run))) && play_ok rest (play_one s (run, a))
  end.

Lemma play_steps ls s : play_ok ls s = true -> rtc (step author ids staleAfter) s (play ls s).
Proof.
  revert s. induction ls as [|[run a] ls IH]; intros s; simpl play_ok; [by intros; apply rtc_refl|].
  intros [[[Hg Hw]%andb_prop Hs]%andb_prop Hr]%andb_prop. apply bool_decide_eq_true in Hw, Hs.
  transitivity (play_one s (run, a)); [|by apply IH].
  unfold play_one. destruct (s_calls s !! run) as [pc|] eqn:E; simpl in Hg |- *.
  - apply rtc_once. by apply (step_run author ids staleAfter s run pc a).
  - eapply rtc_l; [by apply (step_call author ids staleAfter s run)|]. apply rtc_once.
    refine (step_run author ids staleAfter (mkSys (s_thread s) (<[run := CWhoAmI]> (s_calls s)) (s_done s)) run CWhoAmI a _ _); [apply lookup_insert_eq|done].
Qed.
End play.

Definition demo_id (run : string) : Identity := mkIdentity run "fixer" "".
Definition demo_ans (t : Time) : answers := mkAnswers false false "bot" t true (fun _ => true) t.
Definition demo_fail (t : Time) : answers := mkAnswers true false "bot" t true (fun _ => true) t.
Definition demo_play := play demo_id Hour.
Definition demo_empty : sys := mkSys [] ∅ [].

(** Both runs read the thread before either posts; later run-1 claims again. *)
Definition demo_race : list (string * answers) :=
  [("run-1", demo_ans 1); ("run-2", demo_ans 1); ("run-1", demo_ans 2); ("run-2", demo_ans 2);
   ("run-1", demo_ans 3); ("run-2", demo_ans 4); ("run-2", demo_ans 5); ("run-1", demo_ans 5);
   ("run-2", demo_ans 6); ("run-1", demo_ans 6); ("run-2", demo_ans 7); ("run-1", demo_ans 8); ("run-1", demo_ans 9)].

Example demo_race_results :
  s_done (demo_play demo_race demo_empty) =
    [("run-1", mkResult true "" true); ("run-2", lost "run-1"); ("run-1", mkResult true "" false)].
Proof. vm_compute. reflexivity. Qed.

Lemma claim_exclusive_witness :
  reachable "bot" demo_id Hour (demo_play demo_race demo_empty) /\
  forall run res, (run, res) ∈ s_done (demo_play demo_race demo_empty) -> r_Claimed res = true -> run = "run-1".
Proof.
  assert (Hr : reachable "bot" demo_id Hour (demo_play demo_race demo_empty)).
  { exists demo_empty. split; [by split|]. apply play_steps. vm_compute. reflexivity. }
  split; [exact Hr|]. intros run res Hin Hc.
  apply (claim_exclusive "bot" demo_id Hour ltac:(done) (demo_play demo_race demo_empty) run "run-1" res
           (mkResult true "" true) Hr Hin).
  - vm_compute. apply list_elem_of_here.
  - exact Hc.
  - reflexivity.
Defined.

(** Each assumption is needed.  With two claims in the same clock tick of the tracker,
    both runs hold the issue. *)
Example equal_timestamps_claim_twice :
  map fst (filter (fun d => Is_true (r_Claimed d.2)) (s_done (demo_play
    [("run-1", demo_ans 1); ("run-2", demo_ans 1); ("run-1", demo_ans 2); ("run-2", demo_ans 2);
     ("run-1", demo_ans 3); ("run-2", demo_ans 3); ("run-2", demo_ans 5); ("run-1", demo_ans 5);
     ("run-2", demo_ans 6); ("run-1", demo_ans 6)] demo_empty))) = ["run-2"; "run-1"].
Proof. vm_compute. reflexivity. Qed.

(** A run that the registry does not know has no skill; no other run sees its claim. *)
Example unknown_run_claims_unseen :
  let ids run := mkIdentity run (if String.eqb run "run-1" then "" else "fixer") "" in
  map fst (filter (fun d => Is_true (r_Claimed d.2)) (s_done (play ids Hour
    [("run-1", demo_ans 1); ("run-1", demo_ans 2); ("run-1", demo_ans 3); ("run-1", demo_ans 4); ("run-1", demo_ans 5);
     ("run-2", demo_ans 6); ("run-2", demo_ans 7); ("run-2", demo_ans 8); ("run-2", demo_ans 9); ("run-2", demo_ans 10)] demo_empty)))
  = ["run-1"; "run-2"].
Proof. vm_compute. reflexivity. Qed.

(** A claim that lost the race but whose call failed after posting is taken for the run's own
    on the next call. *)
Example failed_assign_claims_twice :
  map fst (filter (fun d => Is_true (r_Claimed d.2)) (s_done (demo_play
    [("run-1", demo_ans 1); ("run-2", demo_ans 1); ("run-1", demo_ans 2); ("run-2", demo_ans 2);
     ("run-1", demo_ans 3); ("run-2", demo_ans 4); ("run-1", demo_ans 5); ("run-1", demo_ans 6); ("run-2", demo_fail 5);
     ("run-2", demo_ans 7); ("run-2", demo_ans 8)] demo_empty))) = ["run-1"; "run-2"].
Proof. vm_compute. reflexivity. Qed.

(** Two runs take over an abandoned claim at once: the re-read looks only at the oldest
    foreign claim, which is the abandoned one. *)
Definition demo_takeover (t : Time) : answers :=
  mkAnswers false false "bot" t true (fun run => negb (String.eqb run "run-0")) t.

Example abandoned_claim_claims_twice :
  map fst (filter (fun d => Is_true (r_Claimed d.2)) (s_done (demo_play
    (map (fun x => (x.1, demo_takeover (3 * Hour + x.2)))
       [("run-1", 1); ("run-2", 1); ("run-1", 2); ("run-2", 2); ("run-1", 3); ("run-2", 4); ("run-1", 5); ("run-2", 5);
        ("run-1", 6); ("run-2", 6)])
    (mkSys [mkComment "bot" 1 (Stamp (demo_id "run-0") KindClaim)] ∅ [])))) = ["run-1"; "run-2"].
Proof. vm_compute. reflexivity. Qed.
