(* ===== verification/Capacity.v ===== *)
(** * internal/capacity: advertised headroom and the drain that reclaims it

    [Compute] derives the spare figures a host offers, [Store] holds what is
    advertised, [DrainCandidates] and [Drain] take the guests back.  The local hour of an
    instant is an argument.  The stopper is an interface of the source: it acts on a world
    [W] and its outcome within the budget it is given is the argument
    [StopWorkload], so the goroutine and its timer are one call. *)

From S2P Require Import Prelude GoFloat Incus.
#[local] Open Scope string_scope.
#[local] Open Scope list_scope.
#[local] Open Scope Z_scope.

(** ** Policy and host state *)

Definition WorkloadClassLabel := "user.containarium.workload_class".

Record Policy := mkPolicy {
  p_WindowStartHour : Z;
  p_WindowEndHour : Z;
  p_ExcludedWorkloadClasses : list string;
  p_ReserveFraction : float64;
}.

Definition WindowOpen (hour : Time -> Z) (p : Policy) (now : Time) : bool :=
  if p_WindowStartHour p =? p_WindowEndHour p then true
  else
    let h := hour now in
    let start := p_WindowStartHour p in
    let end_ := p_WindowEndHour p in
    if start <? end_ then (start <=? h) && (h <? end_) else (start <=? h) || (h <? end_).

Definition excludes (p : Policy) (class : string) : bool :=
  if String.eqb class "" then false else existsb (String.eqb class) (p_ExcludedWorkloadClasses p).

Record HostState := mkHost {
  hs_AvailableCPUs : Z;
  hs_AvailableMemoryBytes : Z;
  hs_AvailableDiskBytes : Z;
  hs_Containers : list ContainerInfo;
  hs_Now : Time;
}.

Record Headroom := mkHeadroom {
  hr_Advertised : bool;
  hr_SpareCPUs : Z;
  hr_SpareMemoryBytes : Z;
  hr_SpareDiskBytes : Z;
  hr_IdleFraction : float64;
  hr_AdvertisedAt : Time;
  hr_Policy : Policy;
}.

(** [c.Labels[key]]: the empty string when there is no such label. *)
Definition label (c : ContainerInfo) (key : string) : string := default "" (ci_Labels c !! key).

Definition idle_threshold (c : ContainerInfo) : Duration :=
  let threshold := wrap i64 (ci_IdleThresholdMinutes c * Minute) in
  if threshold <=? 0 then 15 * Minute else threshold.

Fixpoint idle_loop (p : Policy) (now : Time) (cs : list ContainerInfo) (idle considered : Z) : Z * Z :=
  match cs with
  | [] => (idle, considered)
  | c :: rest =>
      if IsCoreRole (ci_Role c) then idle_loop p now rest idle considered
      else if negb (String.eqb (ci_State c) "Running") then idle_loop p now rest idle considered
      else if excludes p (label c WorkloadClassLabel) then idle_loop p now rest idle considered
      else
        let considered := considered + 1 in
        if IsZero (ci_LastStartedAt c) then idle_loop p now rest idle considered
        else if idle_threshold c <=? Sub now (ci_LastStartedAt c)
        then idle_loop p now rest (idle + 1) considered
        else idle_loop p now rest idle considered
  end.

Definition hostIdle (p : Policy) (st : HostState) : Z * Z := idle_loop p (hs_Now st) (hs_Containers st) 0 0.

(** ** The advertisement *)

(** [int32(float64(available) * keep)] and its int64 twin, when the result is in range. *)
Definition spare (available : Z) (keep : float64) : Z :=
  if 0 <? available then trunc (fmul (of_int available) keep) else 0.

Definition keep_of (p : Policy) : float64 :=
  let keep := fsub 1%Q (p_ReserveFraction p) in
  let keep := if flt keep 0%Q then 0%Q else keep in
  if flt 1%Q keep then 1%Q else keep.

Definition idle_fraction (idleN userN : Z) : float64 :=
  if 0 <? userN then fdiv (of_int idleN) (of_int userN) else 0%Q.

Definition Compute (hour : Time -> Z) (p : Policy) (st : HostState) : Headroom :=
  let '(idleN, userN) := hostIdle p st in
  let fraction := idle_fraction idleN userN in
  if negb (WindowOpen hour p (hs_Now st)) then mkHeadroom false 0 0 0 fraction 0 p
  else
    let keep := keep_of p in
    mkHeadroom false (spare (hs_AvailableCPUs st) keep) (spare (hs_AvailableMemoryBytes st) keep)
      (spare (hs_AvailableDiskBytes st) keep) fraction 0 p.

Definition advertised_at (h : Headroom) (at_ : Time) : Headroom :=
  mkHeadroom true (hr_SpareCPUs h) (hr_SpareMemoryBytes h) (hr_SpareDiskBytes h) (hr_IdleFraction h) at_ (hr_Policy h).

Definition withdrawn (p : Policy) : Headroom := mkHeadroom false 0 0 0 0%Q 0 p.

(** ** The store: each method holds the lock for its one access *)

Record Store := mkStore { s_advertised : bool; s_policy : Policy; s_advertisedAt : Time }.

Definition NewStore : Store := mkStore false (mkPolicy 0 0 [] 0%Q) 0.

Definition Advertise (hour : Time -> Z) (p : Policy) (st : HostState) (s : Store) : Headroom * Store :=
  (advertised_at (Compute hour p st) (hs_Now st), mkStore true p (hs_Now st)).

Definition Withdraw (s : Store) : Headroom * Store :=
  (withdrawn (s_policy s), mkStore false (s_policy s) 0).

Definition Current (hour : Time -> Z) (st : HostState) (s : Store) : Headroom :=
  if negb (s_advertised s) then withdrawn (s_policy s)
  else advertised_at (Compute hour (s_policy s) st) (s_advertisedAt s).

Definition StorePolicy (s : Store) : Policy := s_policy s.

(** ** Draining *)

Record DrainCandidate := mkCandidate { dc_ContainerName : string; dc_Username : string }.

Record DrainResult := mkDrain {
  dr_Drained : list string;
  dr_ForceStopped : list string;
  dr_Failed : gmap string string;
  dr_WindowExceeded : bool;
  dr_Elapsed : Duration;
}.

Definition forceStopBudget : Duration := 15 * Second.
Definition DefaultDrainWindow : Duration := 120 * Second.

Fixpoint candidates_loop (p : Policy) (now : Time) (cs : list ContainerInfo) (out : list DrainCandidate)
  : list DrainCandidate :=
  match cs with
  | [] => out
  | c :: rest =>
      if IsCoreRole (ci_Role c) then candidates_loop p now rest out
      else if negb (String.eqb (ci_State c) "Running") then candidates_loop p now rest out
      else if excludes p (label c WorkloadClassLabel) then candidates_loop p now rest out
      else if IsZero (ci_LastStartedAt c) || (Sub now (ci_LastStartedAt c) <? idle_threshold c)
      then candidates_loop p now rest out
      else
        let username := if String.eqb (ci_Username c) "" then ci_Name c else ci_Username c in
        candidates_loop p now rest (out ++ [mkCandidate (ci_Name c) username])
  end.

Definition DrainCandidates (p : Policy) (st : HostState) : list DrainCandidate :=
  candidates_loop p (hs_Now st) (hs_Containers st) [].

Section drain.
Context {W : Type}.
(** [StopWorkload user force budget w]: [None] when it outlives the budget, otherwise
    its error, if any. *)
Context (StopWorkload : string -> bool -> Duration -> W -> option (option string) * W).
Context (clock : W -> Time) (cancelled : W -> bool).

Definition errStopTimedOut := "capacity: stop exceeded its budget".

Definition stopWithBudget (username : string) (force : bool) (budget : Duration) (w : W) : option string * W :=
  let budget := if budget <=? 0 then forceStopBudget else budget in
  let '(r, w') := StopWorkload username force budget w in
  (match r with Some err => err | None => Some errStopTimedOut end, w').

Definition res_failed (name err : string) (r : DrainResult) : DrainResult :=
  mkDrain (dr_Drained r) (dr_ForceStopped r) (<[name := err]> (dr_Failed r)) (dr_WindowExceeded r) (dr_Elapsed r).
Definition res_forced (name : string) (r : DrainResult) : DrainResult :=
  mkDrain (dr_Drained r) (dr_ForceStopped r ++ [name]) (dr_Failed r) (dr_WindowExceeded r) (dr_Elapsed r).
Definition res_drained (name : string) (r : DrainResult) : DrainResult :=
  mkDrain (dr_Drained r ++ [name]) (dr_ForceStopped r) (dr_Failed r) (dr_WindowExceeded r) (dr_Elapsed r).
Definition res_window (exceeded : bool) (r : DrainResult) : DrainResult :=
  mkDrain (dr_Drained r) (dr_ForceStopped r) (dr_Failed r) (dr_WindowExceeded r || exceeded) (dr_Elapsed r).

(** The loop's body: the result, the world, and whether the loop goes on to the
    cancellation check (a failed stop continues without it). *)
Definition drain_one (deadline : Time) (c : DrainCandidate) (r : DrainResult) (w : W) : DrainResult * W * bool :=
  let remaining := Sub deadline (clock w) in
  let forced := remaining <=? 0 in
  let r := res_window forced r in
  let '(err, w1) := stopWithBudget (dc_Username c) forced (if forced then forceStopBudget else remaining) w in
  match err with
  | Some e =>
      if negb forced then
        let '(ferr, w2) := stopWithBudget (dc_Username c) true forceStopBudget w1 in
        match ferr with
        | Some fe => (res_failed (dc_ContainerName c) fe r, w2, false)
        | None => (res_forced (dc_ContainerName c) r, w2, false)
        end
      else (res_failed (dc_ContainerName c) e r, w1, false)
  | None => ((if forced then res_forced else res_drained) (dc_ContainerName c) r, w1, true)
  end.

Fixpoint drain_loop (deadline : Time) (cs : list DrainCandidate) (r : DrainResult) (w : W) : DrainResult * W :=
  match cs with
  | [] => (r, w)
  | c :: rest =>
      let '(r', w', check) := drain_one deadline c r w in
      if check && cancelled w' then (r', w') else drain_loop deadline rest r' w'
  end.

(** [draining] is the drainer's flag; the result is [None] when the drain was skipped. *)
Definition Drain (draining : bool) (candidates : list DrainCandidate) (window : Duration) (w : W)
  : option DrainResult * W :=
  if draining then (None, w)
  else
    let window := if window <=? 0 then DefaultDrainWindow else window in
    let start := clock w in
    let '(r, w') := drain_loop (Add start window) candidates (mkDrain [] [] ∅ false 0) w in
    (Some (mkDrain (dr_Drained r) (dr_ForceStopped r) (dr_Failed r) (dr_WindowExceeded r) (Sub (clock w') start)), w').
End drain.

(** ** Lemmas: spare figures *)

Lemma keep_range p : (0 <= keep_of p /\ keep_of p <= 1)%Q.
Proof.
  unfold keep_of. set (k := fsub _ _). destruct (flt k 0%Q) eqn:E0.
  - assert (flt 1 0 = false) as -> by done. split; [apply Qle_refl|done].
  - assert (Hk : (0 <= k)%Q). { apply Qnot_lt_le. intros H%flt_spec. congruence. }
    destruct (flt 1%Q k) eqn:E1; [by split|]. split; [done|]. apply Qnot_lt_le. intros H%flt_spec. congruence.
Qed.

Lemma trunc_between x z : (0 <= x)%Q -> (x <= inject_Z z)%Q -> 0 <= trunc x <= z.
Proof.
  intros H0 Hz. unfold trunc. rewrite (proj2 (Qle_bool_iff 0 x) H0). apply Qfloor_resp_le in H0, Hz.
  rewrite Qfloor_Z in Hz. change (Qfloor 0) with 0 in H0. lia.
Qed.

Lemma spare_bounded available keep :
  (0 <= keep /\ keep <= 1)%Q -> 0 <= available < 2 ^ 53 -> 0 <= spare available keep <= available.
Proof.
  intros [H0 H1] Hb. unfold spare. destruct (Z.ltb_spec 0 available); [|lia].
  assert (Ha : (of_int available == inject_Z available)%Q) by (apply of_int_exact; lia).
  assert (Hpos : (0 <= inject_Z available)%Q) by (change 0%Q with (inject_Z 0); rewrite <- Zle_Qle; lia).
  apply trunc_between; unfold fmul.
  - change 0%Q with (rnd 0). apply rnd_mono. rewrite Ha. by apply Qmult_le_0_compat.
  - rewrite <- (rnd_Z available) by lia. apply rnd_mono. rewrite Ha, (Qmult_comm _ keep).
    pose proof (Qmult_le_compat_r _ _ _ H1 Hpos) as Hle. by rewrite Qmult_1_l in Hle.
Qed.

(** ** Lemmas: who is idle *)

(** A running guest the policy does not protect. *)
Definition considered (p : Policy) (c : ContainerInfo) : bool :=
  negb (IsCoreRole (ci_Role c)) && String.eqb (ci_State c) "Running" && negb (excludes p (label c WorkloadClassLabel)).

(** One that has been up for its idle threshold. *)
Definition reclaimable (p : Policy) (now : Time) (c : ContainerInfo) : bool :=
  considered p c && negb (IsZero (ci_LastStartedAt c)) && (idle_threshold c <=? Sub now (ci_LastStartedAt c)).

Definition candidate_of (c : ContainerInfo) : DrainCandidate :=
  mkCandidate (ci_Name c) (if String.eqb (ci_Username c) "" then ci_Name c else ci_Username c).

(** The three guards both loops start with. *)
Lemma guards_considered {A} p c (skip keep : A) :
  (if IsCoreRole (ci_Role c) then skip
   else if negb (String.eqb (ci_State c) "Running") then skip
   else if excludes p (label c WorkloadClassLabel) then skip else keep) = if considered p c then keep else skip.
Proof.
  unfold considered. destruct (IsCoreRole (ci_Role c)), (String.eqb (ci_State c) "Running"),
    (excludes p (label c WorkloadClassLabel)); done.
Qed.

Lemma idle_loop_spec p now cs i n :
  idle_loop p now cs i n =
  (i + Z.of_nat (length (List.filter (reclaimable p now) cs)), n + Z.of_nat (length (List.filter (considered p) cs))).
Proof.
  revert i n. induction cs as [|c cs IH]; intros i n; simpl; [f_equal; lia|].
  rewrite guards_considered. unfold reclaimable at 1. destruct (considered p c); simpl; [|apply IH].
  destruct (IsZero (ci_LastStartedAt c)); simpl; [rewrite IH; f_equal; lia|].
  destruct (idle_threshold c <=? Sub now (ci_LastStartedAt c)); simpl; rewrite IH; f_equal; lia.
Qed.

Lemma candidates_loop_spec p now cs out :
  candidates_loop p now cs out = out ++ map candidate_of (List.filter (reclaimable p now) cs).
Proof.
  revert out. induction cs as [|c cs IH]; intros out; simpl; [by rewrite app_nil_r|].
  rewrite guards_considered. unfold reclaimable at 1. destruct (considered p c); simpl; [|apply IH].
  destruct (IsZero (ci_LastStartedAt c)); simpl; [apply IH|].
  rewrite Z.ltb_antisym. destruct (idle_threshold c <=? Sub now (ci_LastStartedAt c)); simpl; [|apply IH].
  rewrite IH, <- app_assoc. done.
Qed.

Lemma reclaimable_considered p now cs :
  (length (List.filter (reclaimable p now) cs) <= length (List.filter (considered p) cs))%nat.
Proof.
  induction cs as [|c cs IH]; simpl; [done|]. unfold reclaimable at 1.
  destruct (considered p c); simpl; [|done].
  destruct (negb (IsZero (ci_LastStartedAt c)) && (idle_threshold c <=? Sub now (ci_LastStartedAt c))); simpl; lia.
Qed.

(** A fraction of two counts, the first at most the second. *)
Lemma idle_fraction_range a b : 0 <= a <= b -> b < 2 ^ 53 -> (0 <= idle_fraction a b /\ idle_fraction a b <= 1)%Q.
Proof.
  intros Ha Hb. unfold idle_fraction, fdiv. destruct (Z.ltb_spec 0 b); [|by split].
  assert (Ea : (of_int a == inject_Z a)%Q) by (apply of_int_exact; lia).
  assert (Eb : (of_int b == inject_Z b)%Q) by (apply of_int_exact; lia).
  assert (Hb0 : (0 < inject_Z b)%Q) by (change 0%Q with (inject_Z 0); rewrite <- Zlt_Qlt; lia).
  split.
  - change 0%Q with (rnd 0). apply rnd_mono. rewrite Ea, Eb. apply Qle_shift_div_l; [done|].
    rewrite Qmult_0_l. change 0%Q with (inject_Z 0). rewrite <- Zle_Qle. lia.
  - change 1%Q with (rnd (inject_Z 1)). apply rnd_mono. rewrite Ea, Eb. apply Qle_shift_div_r; [done|].
    rewrite Qmult_1_l. rewrite <- Zle_Qle. lia.
Qed.

(** ** Lemmas: draining *)

Section drain_lemmas.
Context {W : Type} (StopWorkload : string -> bool -> Duration -> W -> option (option string) * W).
Context (clock : W -> Time) (cancelled : W -> bool).

(** The stop requests, logged in front of the world. *)
Definition logged (user : string) (force : bool) (budget : Duration) (lw : list (string * bool) * W)
  : option (option string) * (list (string * bool) * W) :=
  let '(r, w) := StopWorkload user force budget lw.2 in (r, (lw.1 ++ [(user, force)], w)).

Definition reported (r : DrainResult) : list string :=
  dr_Drained r ++ dr_ForceStopped r ++ (map_to_list (dr_Failed r)).*1.

Abbreviation one := (drain_one logged (fun lw => clock lw.2)).
Abbreviation loop := (drain_loop logged (fun lw => clock lw.2) (fun lw => cancelled lw.2)).

Lemma stop_logged user force budget lw :
  (stopWithBudget logged user force budget lw).2.1 = lw.1 ++ [(user, force)].
Proof. unfold stopWithBudget, logged. by destruct (StopWorkload _ _ _ _). Qed.

Lemma reported_window e r : reported (res_window e r) = reported r.
Proof. done. Qed.

Lemma reported_failed name err r : name ∉ reported r -> reported (res_failed name err r) ≡ₚ name :: reported r.
Proof.
  intros Hn. unfold reported in *. simpl. rewrite map_to_list_insert.
  - simpl. by rewrite <- !Permutation_middle.
  - destruct (dr_Failed r !! name) as [e|] eqn:E; [|done]. destruct Hn. rewrite !elem_of_app. right; right.
    apply list_elem_of_fmap. exists (name, e). split; [done|]. by apply elem_of_map_to_list.
Qed.

Lemma reported_forced name r : reported (res_forced name r) ≡ₚ name :: reported r.
Proof. unfold reported. simpl. rewrite <- app_assoc. simpl. by rewrite <- !Permutation_middle. Qed.

Lemma reported_drained name r : reported (res_drained name r) ≡ₚ name :: reported r.
Proof. unfold reported. simpl. rewrite <- app_assoc. simpl. by rewrite <- Permutation_middle. Qed.

(** One candidate is reported once, and unless it drained a forced stop was sent to it. *)
Lemma drain_one_spec deadline c r lw :
  dc_ContainerName c ∉ reported r ->
  let '(r', lw', _) := one deadline c r lw in
  reported r' ≡ₚ dc_ContainerName c :: reported r /\ (exists ext, lw'.1 = lw.1 ++ ext /\
    (dc_ContainerName c ∈ dr_Drained r' \/ (dc_Username c, true) ∈ ext)) /\
  (exists d, dr_Drained r' = dr_Drained r ++ d).
Proof.
  intros Hn. unfold drain_one. set (remaining := Sub deadline _). set (r0 := res_window _ r).
  change (reported r) with (reported r0) in *. change (dr_Drained r) with (dr_Drained r0). clearbody r0.
  destruct (stopWithBudget _ _ (remaining <=? 0) _ lw) as [err lw1] eqn:E1.
  pose proof (stop_logged (dc_Username c) (remaining <=? 0) (if remaining <=? 0 then forceStopBudget else remaining) lw) as L1.
  rewrite E1 in L1. simpl in L1.
  destruct err as [e|].
  - destruct (remaining <=? 0) eqn:Ef; simpl.
    + split_and!; [by apply reported_failed| |by exists []; rewrite app_nil_r]. exists [(dc_Username c, true)].
      split; [done|right; by left].
    + destruct (stopWithBudget _ _ true forceStopBudget lw1) as [ferr lw2] eqn:E2.
      pose proof (stop_logged (dc_Username c) true forceStopBudget lw1) as L2. rewrite E2 in L2. simpl in L2.
      assert (Hext : lw2.1 = lw.1 ++ [(dc_Username c, false); (dc_Username c, true)]) by (by rewrite L2, L1, <- app_assoc).
      destruct ferr as [fe|]; (split_and!; [| |by exists []; rewrite app_nil_r]).
      * by apply reported_failed.
      * exists [(dc_Username c, false); (dc_Username c, true)]. split; [done|right; right; by left].
      * apply reported_forced.
      * exists [(dc_Username c, false); (dc_Username c, true)]. split; [done|right; right; by left].
  - destruct (remaining <=? 0) eqn:Ef; split_and!.
    + apply reported_forced.
    + exists [(dc_Username c, true)]. split; [done|right; by left].
    + by exists []; rewrite app_nil_r.
    + apply reported_drained.
    + exists [(dc_Username c, false)]. split; [done|left]. simpl. apply elem_of_app. right. by left.
    + by exists [dc_ContainerName c].
Qed.

Lemma drain_loop_spec deadline cs r lw :
  (forall w, cancelled w = false) -> NoDup (map dc_ContainerName cs ++ reported r) ->
  let '(r', lw') := loop deadline cs r lw in
  reported r' ≡ₚ map dc_ContainerName cs ++ reported r /\ (exists ext, lw'.1 = lw.1 ++ ext /\
    Forall (fun c => dc_ContainerName c ∈ dr_Drained r' \/ (dc_Username c, true) ∈ ext) cs) /\
  (exists d, dr_Drained r' = dr_Drained r ++ d).
Proof.
  intros Hcan. revert r lw. induction cs as [|c cs IH]; intros r lw Hnd; simpl.
  { split_and!; [done| |by exists []; rewrite app_nil_r]. exists []. by rewrite app_nil_r. }
  apply NoDup_cons in Hnd as [Hn Hnd].
  pose proof (drain_one_spec deadline c r lw ltac:(set_solver)) as H1.
  destruct (one deadline c r lw) as [[r1 lw1] chk]. destruct H1 as (P1 & (e1 & L1 & C1) & (d1 & D1)).
  rewrite Hcan, andb_false_r.
  assert (Hnd1 : NoDup (map dc_ContainerName cs ++ reported r1)).
  { rewrite P1, <- Permutation_middle. by constructor. }
  specialize (IH r1 lw1 Hnd1). destruct (loop deadline cs r1 lw1) as [r2 lw2].
  destruct IH as (P2 & (e2 & L2 & C2) & (d2 & D2)). split_and!.
  - rewrite P2, P1. by rewrite <- Permutation_middle.
  - exists (e1 ++ e2). rewrite L2, L1, app_assoc. split; [done|]. constructor.
    + destruct C1 as [C1|C1]; [left; rewrite D2; set_solver|right; set_solver].
    + eapply Forall_impl; [exact C2|]. simpl. intros x [?|?]; [by left|right; set_solver].
  - exists (d1 ++ d2). by rewrite D2, D1, app_assoc.
Qed.
End drain_lemmas.

(** ** Properties *)

(** An advertisement is never larger than the host and never leaks out of its window.
    Whatever was advertised and withdrawn before, the spare figures of [Current] are
    between zero and what the host has available (below 2^53 of each), they are zero when
    nothing is advertised or the policy's window is closed, and the idle fraction is
    between 0 and 1. *)
Theorem headroom_sound hour st s :
  Forall (fun available => 0 <= available < 2 ^ 53)
    [hs_AvailableCPUs st; hs_AvailableMemoryBytes st; hs_AvailableDiskBytes st] ->
  Z.of_nat (length (hs_Containers st)) < 2 ^ 53 ->
  let h := Current hour st s in
  Forall2 (fun spare available => 0 <= spare <= available)
    [hr_SpareCPUs h; hr_SpareMemoryBytes h; hr_SpareDiskBytes h]
    [hs_AvailableCPUs st; hs_AvailableMemoryBytes st; hs_AvailableDiskBytes st] /\
  (hr_Advertised h = false \/ WindowOpen hour (s_policy s) (hs_Now st) = false ->
     hr_SpareCPUs h = 0 /\ hr_SpareMemoryBytes h = 0 /\ hr_SpareDiskBytes h = 0) /\
  (0 <= hr_IdleFraction h /\ hr_IdleFraction h <= 1)%Q /\ hr_Advertised h = s_advertised s.
Proof.
  intros Hav Hlen. decompose_Forall_hyps. unfold Current.
  destruct (s_advertised s); simpl; [|split_and!; [repeat constructor; lia|done|by apply Qle_refl|done|done]].
  unfold Compute, hostIdle. rewrite idle_loop_spec. simpl.
  pose proof (reclaimable_considered (s_policy s) (hs_Now st) (hs_Containers st)).
  pose proof (filter_length_le (considered (s_policy s)) (hs_Containers st)).
  destruct (idle_fraction_range (Z.of_nat (length (List.filter (reclaimable (s_policy s) (hs_Now st)) (hs_Containers st))))
    (Z.of_nat (length (List.filter (considered (s_policy s)) (hs_Containers st))))) as [Hf0 Hf1]; [lia..|].
  pose proof (keep_range (s_policy s)) as Hk.
  destruct (WindowOpen hour (s_policy s) (hs_Now st)); simpl.
  - split_and!; [|by intros [|]|done|done|done].
    constructor; [by apply spare_bounded|]. constructor; [by apply spare_bounded|]. constructor; [by apply spare_bounded|]. constructor.
  - split_and!; [repeat constructor; lia|done|done|done|done].
Qed.

(** A withdraw reclaims exactly what was advertised as idle.  The drain candidates are, in
    listing order, the running guest containers the policy does not exclude that
    have been up for their idle threshold, as many as [hostIdle] counted; and a drain
    that is not cancelled reports each of them exactly once, as drained, force-stopped or
    failed, having sent a forced stop to every one that did not drain in the
    window. *)
Theorem drain_reclaims_the_idle {W} StopWorkload clock cancelled p st window (w : W) :
  (forall w, cancelled w = false) -> NoDup (map dc_ContainerName (DrainCandidates p st)) ->
  let candidates := DrainCandidates p st in
  let '(res, lw) := Drain (logged StopWorkload) (fun lw => clock lw.2) (fun lw => cancelled lw.2) false candidates window ([], w) in
  candidates = map candidate_of (List.filter (reclaimable p (hs_Now st)) (hs_Containers st)) /\
  Z.of_nat (length candidates) = (hostIdle p st).1 /\
  exists r, res = Some r /\ reported r ≡ₚ map dc_ContainerName candidates /\
    Forall (fun c => dc_ContainerName c ∈ dr_Drained r \/ (dc_Username c, true) ∈ lw.1) candidates.
Proof.
  intros Hcan Hnd candidates. unfold Drain. set (deadline := Add _ _). set (r0 := mkDrain _ _ _ _ _).
  assert (Hr0 : reported r0 = []) by (unfold reported; simpl; by rewrite map_to_list_empty).
  pose proof (drain_loop_spec StopWorkload clock cancelled deadline candidates r0 ([], w) Hcan) as H.
  rewrite Hr0, app_nil_r in H. specialize (H Hnd).
  destruct (drain_loop _ _ _ deadline candidates r0 ([], w)) as [r' lw']. destruct H as (HP & (ext & HL & HF) & _).
  split; [|split].
  - unfold candidates, DrainCandidates. by rewrite candidates_loop_spec.
  - unfold candidates, DrainCandidates, hostIdle. rewrite candidates_loop_spec, idle_loop_spec. simpl.
    rewrite length_map. lia.
  - eexists. split; [done|]. simpl in HL. rewrite HL. by split.
Qed.

(** ** A concrete host *)

Definition demo_box (name user class : string) (role : string) (threshold started : Z) : ContainerInfo :=
  {| ci_Name := name; ci_Username := user; ci_State := "Running"; ci_Labels := {[WorkloadClassLabel := class]};
     ci_Role := role; ci_AutoSleepEnabled := false; ci_IdleThresholdMinutes := threshold; ci_LastStartedAt := started |}.

Definition demo_now : Time := 1000 * Hour.

(** Postgres, a protected node, a box started just now, and two idle boxes. *)
Definition demo_host : HostState :=
  mkHost 7 (8 * 2 ^ 30) (100 * 2 ^ 30)
    [demo_box "core-postgres" "" "" RolePostgres 15 1; demo_box "k8s-1" "k8s-1" "k8s-node" RoleNone 15 1;
     demo_box "new-container" "new" "" RoleNone 15 (demo_now - Minute);
     demo_box "alice-container" "alice" "" RoleNone 0 1; demo_box "bob-container" "" "" RoleNone 30 1] demo_now.

Definition demo_policy : Policy := mkPolicy 22 6 ["k8s-node"] (1 # 4)%Q.

(** The graceful stop of one box outlives its budget. *)
Definition demo_stop (user : string) (force : bool) (_ : Duration) (w : unit) : option (option string) * unit :=
  (if String.eqb user "alice" && negb force then None else Some None, w).

Example demo_current :
  let h := Current (fun _ => 23) demo_host (Advertise (fun _ => 23) demo_policy demo_host NewStore).2 in
  hr_SpareCPUs h = 5 /\ hr_SpareMemoryBytes h = 6 * 2 ^ 30 /\ hr_Advertised h = true.
Proof. vm_compute. split_and!; reflexivity. Qed.

Lemma headroom_sound_witness :
  let h := Current (fun _ => 12) demo_host (Advertise (fun _ => 23) demo_policy demo_host NewStore).2 in
  hr_SpareCPUs h = 0 /\ hr_SpareMemoryBytes h = 0 /\ hr_SpareDiskBytes h = 0.
Proof.
  refine (proj1 (proj2 (headroom_sound (fun _ => 12) demo_host (Advertise (fun _ => 23) demo_policy demo_host NewStore).2 _ _)) _).
  - repeat constructor; vm_compute; congruence.
  - vm_compute. reflexivity.
  - right. vm_compute. reflexivity.
Defined.

Lemma drain_reclaims_the_idle_witness : exists r,
  (Drain (logged demo_stop) (fun _ => demo_now) (fun _ => false) false (DrainCandidates demo_policy demo_host) 0 ([], tt)).1 = Some r /\
  reported r ≡ₚ ["alice-container"; "bob-container"].
Proof.
  pose proof (drain_reclaims_the_idle demo_stop (fun _ => demo_now) (fun _ => false) demo_policy demo_host 0 tt
    (fun _ => eq_refl) ltac:(decided)) as H. cbv zeta in H.
  destruct (Drain _ _ _ _ _ _ _) as [res lw]. destruct H as (_ & _ & r & -> & HP & _). exists r. split; [reflexivity|].
  rewrite HP. vm_compute. reflexivity.
Defined.
