(* ===== verification/CoreGuard.v ===== *)
(** * internal/coreguard, policy.go: who may reach the core containers

    A netip.Addr is [AddrInvalid], an IPv4 address as the integer it denotes, or an IPv6
    address; a netip.Prefix is an address and a length.  Rules carry text, as the
    Incus API does; [covers] and [port_in] read a rule's source and ports back, so that
    the theorems are about what a rule admits.  The two iterations over the map of
    core containers take their orders as arguments. *)

From S2P Require Import Prelude GoStrings GoNet Incus.
From Stdlib Require Import Ascii.
#[local] Open Scope string_scope.
#[local] Open Scope list_scope.
#[local] Open Scope Z_scope.

(** ** netip *)

Inductive Addr :=
| AddrInvalid
| Addr4 (v : Z)
| Addr6 (v : Z) (zone : string).

#[export] Instance Addr_eq : EqDecision Addr.
Proof. solve_decision. Defined.

Record Prefix := mkPrefix { px_addr : Addr; px_bits : Z }.

Definition AddrIsValid (a : Addr) : bool := match a with AddrInvalid => false | _ => true end.
Definition Is4 (a : Addr) : bool := match a with Addr4 _ => true | _ => false end.

Definition PrefixIsValid (p : Prefix) : bool :=
  match px_addr p with
  | AddrInvalid => false
  | Addr4 _ => (0 <=? px_bits p) && (px_bits p <=? 32)
  | Addr6 _ _ => (0 <=? px_bits p) && (px_bits p <=? 128)
  end.

(** The network part of an IPv4 address. *)
Definition network (v bits : Z) : Z := v / 2 ^ (32 - bits).

Definition Masked (p : Prefix) : Prefix :=
  match px_addr p with
  | Addr4 v => mkPrefix (Addr4 (network v (px_bits p) * 2 ^ (32 - px_bits p))) (px_bits p)
  | _ => p
  end.

Definition Contains (p : Prefix) (a : Addr) : bool :=
  match px_addr p, a with
  | Addr4 v, Addr4 w => PrefixIsValid p && (network v (px_bits p) =? network w (px_bits p))
  | _, _ => false
  end.

Definition v4_string (v : Z) : string :=
  octets_string (v / 2 ^ 24 mod 256) (v / 2 ^ 16 mod 256) (v / 2 ^ 8 mod 256) (v mod 256).

(** [Prefix.String] of an IPv4 prefix (the only kind a rule is made from). *)
Definition PrefixString (p : Prefix) : string :=
  match px_addr p with
  | Addr4 v => v4_string v +:+ "/" +:+ Itoa (px_bits p)
  | _ => "invalid Prefix"
  end.

(** ** Inputs, rules and policy *)

Record Inputs := mkInputs {
  in_BridgeCIDR : Prefix;
  in_HostGateway : Addr;
  in_Core : gmap string Addr;
  in_ControlPlane : list Addr;
}.

Record ACLRule := mkRule {
  rl_Action : string;
  rl_Source : string;
  rl_Protocol : string;
  rl_DestinationPort : string;
  rl_Description : string;
}.

Record ACLConfig := mkACL { acl_Name : string; acl_Description : string; acl_IngressRules : list ACLRule }.

Record Policy := mkPolicy { pol_ACLs : gmap string ACLConfig; pol_UnknownRoles : list string }.

Definition ACLName (role : string) : string := "containarium-core-guard-" +:+ TrimPrefix role "core-".

(** ** The table *)

Inductive source := fromHost | fromBridge | fromControlPlane | fromCore (role : string).

Record listener := mkListener { ln_ports : string; ln_from : list source }.

Definition table (role : string) : option (list listener) :=
  if String.eqb role RolePostgres then
    Some [mkListener "5432" [fromHost; fromCore RoleVictoriaMetrics]]
  else if String.eqb role RoleVictoriaMetrics then
    Some [mkListener "8428,8880,9093,9094" [fromHost; fromControlPlane];
          mkListener "3000" [fromHost; fromCore RoleCaddy]]
  else if String.eqb role RoleOTelCollector then
    Some [mkListener "4317,4318" [fromBridge]; mkListener "13133,8888" [fromHost]]
  else if String.eqb role RoleCaddy then
    Some [mkListener "80,443" [fromBridge]; mkListener "2019" [fromHost]]
  else if String.eqb role RoleSecurity then Some []
  else if String.eqb role RoleGuacamole then
    Some [mkListener "8080" [fromHost; fromCore RoleCaddy]]
  else None.

(** ** [Compute] *)

Inductive guard_error :=
| BridgeNotSet | BridgeNotIPv4 | NoAddress (what : string) | NotIPv4 (what : string) | OutsideBridge (what : string)
| GatewayAddress (role : string).

Definition inBridge (what : string) (a : Addr) (bridge : Prefix) : option guard_error :=
  if negb (AddrIsValid a) then Some (NoAddress what)
  else if negb (Is4 a) then Some (NotIPv4 what)
  else if negb (Contains bridge a) then Some (OutsideBridge what)
  else None.

(** The first error of a sequence of checks. *)
Fixpoint first_error (checks : list (option guard_error)) : option guard_error :=
  match checks with [] => None | Some e :: _ => Some e | None :: rest => first_error rest end.

Definition check_core (bridge : Prefix) (gateway : Addr) (ra : string * Addr) : list (option guard_error) :=
  [inBridge ra.1 ra.2 bridge; if decide (ra.2 = gateway) then Some (GatewayAddress ra.1) else None].

Definition check_control (bridge : Prefix) (i : nat) (a : Addr) : option guard_error :=
  inBridge ("control plane[" +:+ Itoa (Z.of_nat i) +:+ "]") a bridge.

Definition validate (order : list (string * Addr)) (inp : Inputs) : option guard_error :=
  if negb (PrefixIsValid (in_BridgeCIDR inp)) then Some BridgeNotSet
  else if negb (Is4 (px_addr (in_BridgeCIDR inp))) then Some BridgeNotIPv4
  else
    let bridge := Masked (in_BridgeCIDR inp) in
    first_error (inBridge "host gateway" (in_HostGateway inp) bridge ::
                 concat (map (check_core bridge (in_HostGateway inp)) order) ++
                 imap (check_control bridge) (in_ControlPlane inp)).

Definition host32 (a : Addr) : string := PrefixString (mkPrefix a 32).

Definition resolve (src : source) (inp : Inputs) (bridge : Prefix) : list string :=
  match src with
  | fromHost => [host32 (in_HostGateway inp)]
  | fromBridge => [PrefixString bridge]
  | fromControlPlane => map host32 (in_ControlPlane inp)
  | fromCore role => match in_Core inp !! role with Some a => [host32 a] | None => [] end
  end.

Definition describe (src : source) : string :=
  match src with
  | fromHost => "host gateway"
  | fromBridge => "tenant bridge"
  | fromControlPlane => "control plane"
  | fromCore role => role
  end.

Definition rules_of (role : string) (inp : Inputs) (bridge : Prefix) (l : listener) : list ACLRule :=
  concat (map (fun src =>
    map (fun cidr => mkRule "allow" cidr "tcp" (ln_ports l) (role +:+ ": " +:+ ln_ports l +:+ " from " +:+ describe src))
      (resolve src inp bridge)) (ln_from l)).

Definition rule_less (a b : ACLRule) : bool :=
  if negb (String.eqb (rl_DestinationPort a) (rl_DestinationPort b))
  then String.ltb (rl_DestinationPort a) (rl_DestinationPort b)
  else String.ltb (rl_Source a) (rl_Source b).

(** [sort.SliceStable]: a rule goes behind the rules that are less than it. *)
Fixpoint insert_rule (x : ACLRule) (l : list ACLRule) : list ACLRule :=
  match l with
  | [] => [x]
  | y :: l' => if rule_less y x then y :: insert_rule x l' else x :: l
  end.

Definition stable_sort (l : list ACLRule) : list ACLRule := foldr insert_rule [] l.

Definition acl_for (role : string) (inp : Inputs) (bridge : Prefix) : ACLConfig :=
  let rows := default [] (table role) in
  mkACL (ACLName role)
    ("containarium core-infra guard for " +:+ role +:+ " — managed by containariumd, do not edit")
    (stable_sort (concat (map (rules_of role inp bridge) rows))).

(** The body of the loop over the core roles. *)
Definition guard_role (inp : Inputs) (bridge : Prefix) (pol : Policy) (ra : string * Addr) : Policy :=
  let role := ra.1 in
  if String.eqb role RoleControlPlane then pol
  else
    let unknown := match table role with Some _ => pol_UnknownRoles pol | None => pol_UnknownRoles pol ++ [role] end in
    mkPolicy (<[role := acl_for role inp bridge]> (pol_ACLs pol)) unknown.

Definition Compute (order_v order_c : list (string * Addr)) (inp : Inputs) : guard_error + Policy :=
  match validate order_v inp with
  | Some e => inl e
  | None =>
      let bridge := Masked (in_BridgeCIDR inp) in
      let pol := foldl (guard_role inp bridge) (mkPolicy ∅ []) order_c in
      inr (mkPolicy (pol_ACLs pol) (merge_sort String.le (pol_UnknownRoles pol)))
  end.

(** ** What a rule admits *)

Definition octets_value (os : list Z) : option Z :=
  match os with [a; b; c; d] => Some (((a * 256 + b) * 256 + c) * 256 + d) | _ => None end.

Definition bits_of (s : string) : option Z :=
  List.find (fun b => String.eqb (Itoa b) s) (map Z.of_nat (seq 0 33)).

(** [src] is a CIDR that contains the IPv4 address [ip]. *)
Definition covers (src : string) (ip : Z) : bool :=
  match split_char "/" src with
  | [a; n] =>
      match parse_v4 a ≫= octets_value, bits_of n with
      | Some v, Some b => network v b =? network ip b
      | _, _ => false
      end
  | _ => false
  end.

Definition port_in (ports : string) (port : Z) : bool := existsb (String.eqb (Itoa port)) (split_char "," ports).

(** A guarded container drops every connection that no rule allows. *)
Definition admits (acl : ACLConfig) (ip port : Z) : bool :=
  existsb (fun r => String.eqb (rl_Action r) "allow" && covers (rl_Source r) ip && port_in (rl_DestinationPort r) port)
    (acl_IngressRules acl).

(** ** Lemmas: reading a rule back *)

Definition wf_addr (a : Addr) : Prop := match a with Addr4 v => 0 <= v < 2 ^ 32 | _ => True end.

Lemma octet_no_slash z : octet z -> contains_char "/" (Itoa z) = false.
Proof.
  intros Hz. unfold octet in Hz.
  assert (H : forallb (fun n => negb (contains_char "/" (Itoa (Z.of_nat n)))) (seq 0 256) = true) by (vm_compute; reflexivity).
  rewrite forallb_forall in H. specialize (H (Z.to_nat z)). rewrite Z2Nat.id in H by lia.
  apply negb_true_iff, H, in_seq. lia.
Qed.

Lemma mod256_octet x : octet (x mod 256).
Proof. unfold octet. pose proof (Z.mod_pos_bound x 256). lia. Qed.

Lemma v4_string_no_slash v : contains_char "/" (v4_string v) = false.
Proof.
  unfold v4_string, octets_string. rewrite !contains_char_app, !octet_no_slash by apply mod256_octet. done.
Qed.

Lemma v4_string_value v : 0 <= v < 2 ^ 32 -> parse_v4 (v4_string v) ≫= octets_value = Some v.
Proof.
  intros Hv. unfold v4_string. rewrite parse_v4_octets by apply mod256_octet. cbn [mbind option_bind octets_value].
  f_equal. change (2 ^ 24) with (256 * 256 * 256). change (2 ^ 16) with (256 * 256). change (2 ^ 8) with 256.
  rewrite <- !Z.div_div by lia.
  pose proof (Z.div_mod v 256). pose proof (Z.div_mod (v / 256) 256). pose proof (Z.div_mod (v / 256 / 256) 256).
  assert (v / 256 / 256 / 256 mod 256 = v / 256 / 256 / 256) as ->; [|lia].
  rewrite !Z.div_div by lia. apply Z.mod_small. change (256 * 256 * 256) with (2 ^ 24).
  split; [apply Z.div_pos; lia|apply Z.div_lt_upper_bound; lia].
Qed.

Lemma bits_of_Itoa b : 0 <= b <= 32 -> bits_of (Itoa b) = Some b.
Proof.
  intros Hb. assert (H : forallb (fun n => bool_decide (bits_of (Itoa (Z.of_nat n)) = Some (Z.of_nat n))) (seq 0 33) = true)
    by (vm_compute; reflexivity).
  rewrite forallb_forall in H. specialize (H (Z.to_nat b)). rewrite Z2Nat.id in H by lia.
  eapply bool_decide_eq_true, H, in_seq. lia.
Qed.

Lemma covers_prefix v b ip :
  0 <= v < 2 ^ 32 -> 0 <= b <= 32 -> covers (PrefixString (mkPrefix (Addr4 v) b)) ip = (network v b =? network ip b).
Proof.
  intros Hv Hb. unfold covers.
  assert (PrefixString (mkPrefix (Addr4 v) b) = v4_string v +:+ String "/"%char (Itoa b)) as -> by done.
  rewrite split_char_app by apply v4_string_no_slash.
  rewrite split_char_none by (apply octet_no_slash; unfold octet; lia).
  by rewrite v4_string_value, bits_of_Itoa.
Qed.

Lemma covers_host v ip : 0 <= v < 2 ^ 32 -> covers (host32 (Addr4 v)) ip = (v =? ip).
Proof.
  intros Hv. unfold host32. rewrite covers_prefix by lia. unfold network. change (2 ^ (32 - 32)) with 1.
  by rewrite !Z.div_1_r.
Qed.

Lemma network_masked v b : 0 <= b <= 32 -> network (network v b * 2 ^ (32 - b)) b = network v b.
Proof. intros Hb. unfold network. apply Z.div_mul. apply Z.pow_nonzero; lia. Qed.

Lemma masked_range v b : 0 <= v < 2 ^ 32 -> 0 <= b <= 32 -> 0 <= network v b * 2 ^ (32 - b) < 2 ^ 32.
Proof.
  intros Hv Hb. unfold network. assert (0 < 2 ^ (32 - b)) by (apply Z.pow_pos_nonneg; lia).
  pose proof (Z.div_mod v (2 ^ (32 - b))). pose proof (Z.mod_pos_bound v (2 ^ (32 - b))).
  pose proof (Z.div_pos v (2 ^ (32 - b))). nia.
Qed.

Lemma port_in_80_443 port : port_in "80,443" port = true <-> port = 80 \/ port = 443.
Proof.
  unfold port_in. simpl. rewrite !orb_true_iff, !String.eqb_eq. change "80" with (Itoa 80). change "443" with (Itoa 443).
  split; [intros [->%Itoa_inj|[->%Itoa_inj|]]; auto|intros [-> | ->]; auto]. done.
Qed.

Lemma port_in_otlp port : port_in "4317,4318" port = true <-> port = 4317 \/ port = 4318.
Proof.
  unfold port_in. simpl. rewrite !orb_true_iff, !String.eqb_eq. change "4317" with (Itoa 4317). change "4318" with (Itoa 4318).
  split; [intros [->%Itoa_inj|[->%Itoa_inj|]]; auto|intros [-> | ->]; auto]. done.
Qed.

(** ** Lemmas: validation *)

Lemma first_error_none checks : first_error checks = None <-> Forall (fun c => c = None) checks.
Proof.
  induction checks as [|[e|] checks IH]; simpl; [done| |].
  - split; [done|by intros [? _]%Forall_cons].
  - rewrite IH. split; [by constructor|by intros [_ ?]%Forall_cons].
Qed.

(** The addresses a rule can be made from. *)
Definition on_bridge (inp : Inputs) (a : Addr) : Prop :=
  exists v, a = Addr4 v /\ Contains (Masked (in_BridgeCIDR inp)) (Addr4 v) = true.

Lemma inBridge_none what a inp : inBridge what a (Masked (in_BridgeCIDR inp)) = None -> on_bridge inp a.
Proof.
  unfold inBridge. destruct a as [|v|v z]; simpl; [done| |done]. destruct (Contains _ (Addr4 v)) eqn:E; [|done].
  intros _. by exists v.
Qed.

Lemma validate_none order inp :
  order ≡ₚ map_to_list (in_Core inp) -> validate order inp = None ->
  (exists v b, in_BridgeCIDR inp = mkPrefix (Addr4 v) b /\ 0 <= b <= 32) /\
  on_bridge inp (in_HostGateway inp) /\
  (forall role a, in_Core inp !! role = Some a -> on_bridge inp a) /\
  (forall a, a ∈ in_ControlPlane inp -> on_bridge inp a).
Proof.
  intros Hord. unfold validate. destruct (PrefixIsValid (in_BridgeCIDR inp)) eqn:Ev; simpl; [|done].
  destruct (in_BridgeCIDR inp) as [[|v|] b] eqn:Eb; simpl; try done. intros Hv.
  unfold PrefixIsValid in Ev. simpl in Ev.
  destruct (inBridge "host gateway" _ _) eqn:Eg; [done|]. apply first_error_none, Forall_app in Hv as [Hcore Hctl].
  change (mkPrefix (Addr4 (network v b * 2 ^ (32 - b))) b) with (Masked (mkPrefix (Addr4 v) b)) in *. rewrite <- Eb in *.
  split; [exists v, b; split; [done|lia]|]. split; [by eapply inBridge_none|]. rewrite Forall_forall in Hcore, Hctl. split.
  - intros role a Ha. apply (inBridge_none role). apply Hcore, list_elem_of_In, in_concat.
    exists (check_core (Masked (in_BridgeCIDR inp)) (in_HostGateway inp) (role, a)). split; [|by left].
    apply in_map, list_elem_of_In. rewrite Hord. by apply elem_of_map_to_list.
  - intros a Ha. apply list_elem_of_lookup in Ha as [i Hi].
    apply (inBridge_none ("control plane[" +:+ Itoa (Z.of_nat i) +:+ "]")). apply Hctl.
    apply list_elem_of_lookup. exists i. by rewrite list_lookup_imap, Hi.
Qed.

Lemma validate_order order order' inp : order ≡ₚ order' -> validate order inp = None -> validate order' inp = None.
Proof.
  intros Hord. unfold validate. do 2 (destruct (negb _); [done|]).
  rewrite !first_error_none. by rewrite Hord.
Qed.

(** ** Lemmas: what an ACL admits *)

Lemma insert_rule_perm x l : insert_rule x l ≡ₚ x :: l.
Proof.
  induction l as [|y l IH]; simpl; [done|]. destruct (rule_less y x); [|done]. rewrite IH. apply Permutation_swap.
Qed.

Lemma stable_sort_perm l : stable_sort l ≡ₚ l.
Proof. induction l as [|x l IH]; simpl; [done|]. by rewrite insert_rule_perm, IH. Qed.

(** Reference: who is a source. *)
Definition source_is (inp : Inputs) (src : source) (ip : Z) : Prop :=
  match src with
  | fromHost => in_HostGateway inp = Addr4 ip
  | fromBridge => Contains (in_BridgeCIDR inp) (Addr4 ip) = true
  | fromControlPlane => Addr4 ip ∈ in_ControlPlane inp
  | fromCore role => in_Core inp !! role = Some (Addr4 ip)
  end.

(** Reference: a row of the role's table admits [ip] to [port]. *)
Definition table_admits (inp : Inputs) (role : string) (ip port : Z) : Prop :=
  exists l src, l ∈ default [] (table role) /\ port_in (ln_ports l) port = true /\ src ∈ ln_from l /\ source_is inp src ip.

Definition wf_inputs (inp : Inputs) : Prop :=
  wf_addr (px_addr (in_BridgeCIDR inp)) /\ wf_addr (in_HostGateway inp) /\
  (forall role a, in_Core inp !! role = Some a -> wf_addr a) /\ Forall wf_addr (in_ControlPlane inp).

Lemma covers_on_bridge inp a ip : wf_addr a -> on_bridge inp a -> covers (host32 a) ip = true <-> a = Addr4 ip.
Proof. intros Hwf (v & -> & _). rewrite covers_host, Z.eqb_eq by done. split; [by intros ->|by intros [=]]. Qed.

Section valid.
Context (inp : Inputs) (v b : Z).
Hypothesis wf : wf_inputs inp.
Hypothesis bridge : in_BridgeCIDR inp = mkPrefix (Addr4 v) b.
Hypothesis bits : 0 <= b <= 32.
Hypothesis gateway_ok : on_bridge inp (in_HostGateway inp).
Hypothesis core_ok : forall role a, in_Core inp !! role = Some a -> on_bridge inp a.
Hypothesis control_ok : forall a, a ∈ in_ControlPlane inp -> on_bridge inp a.

Lemma Contains_masked ip : Contains (Masked (in_BridgeCIDR inp)) (Addr4 ip) = Contains (in_BridgeCIDR inp) (Addr4 ip).
Proof using bridge bits. rewrite bridge. unfold Contains, Masked, PrefixIsValid. simpl. by rewrite network_masked. Qed.

Lemma resolve_source src ip :
  (exists cidr, cidr ∈ resolve src inp (Masked (in_BridgeCIDR inp)) /\ covers cidr ip = true) <-> source_is inp src ip.
Proof using All.
  destruct wf as (Hb & Hg & Hc & Hctl). rewrite Forall_forall in Hctl. destruct src as [| | |role]; simpl.
  - setoid_rewrite list_elem_of_singleton. rewrite <- (covers_on_bridge inp) by done. naive_solver.
  - setoid_rewrite list_elem_of_singleton. rewrite bridge in *. simpl in Hb. unfold Masked, Contains, PrefixIsValid. simpl.
    assert ((0 <=? b) && (b <=? 32) = true) as -> by lia. simpl.
    assert (Hcov : covers (PrefixString (mkPrefix (Addr4 (network v b * 2 ^ (32 - b))) b)) ip = (network v b =? network ip b)).
    { rewrite covers_prefix by (done || by apply masked_range). by rewrite network_masked. }
    rewrite <- Hcov. naive_solver.
  - split.
    + intros (cidr & Hin & Hcov). apply list_elem_of_In, in_map_iff in Hin as (a & <- & Hin%list_elem_of_In).
      apply (covers_on_bridge inp) in Hcov as ->; [done|by apply Hctl|by apply control_ok].
    + intros Hin. exists (host32 (Addr4 ip)). split; [by apply list_elem_of_In, in_map, list_elem_of_In|].
      apply (covers_on_bridge inp); [by apply Hctl|by apply control_ok|done].
  - destruct (in_Core inp !! role) as [a|] eqn:E.
    + setoid_rewrite list_elem_of_singleton.
      assert (Hcov : covers (host32 a) ip = true <-> a = Addr4 ip) by (apply (covers_on_bridge inp); [by eapply Hc|by eapply core_ok]).
      naive_solver.
    + split; [|done]. intros (? & Hin & _). by apply elem_of_nil in Hin.
Qed.

Lemma acl_admits role ip port :
  admits (acl_for role inp (Masked (in_BridgeCIDR inp))) ip port = true <-> table_admits inp role ip port.
Proof using All.
  unfold admits, acl_for. simpl. rewrite existsb_exists. split.
  - intros (r & Hin & Hadm). apply list_elem_of_In in Hin. rewrite stable_sort_perm in Hin.
    apply list_elem_of_In, in_concat in Hin as (rs & Hrs & Hr). apply in_map_iff in Hrs as (l & <- & Hl%list_elem_of_In).
    apply in_concat in Hr as (rs & Hrs & Hr). apply in_map_iff in Hrs as (src & <- & Hsrc%list_elem_of_In).
    apply in_map_iff in Hr as (cidr & <- & Hcidr%list_elem_of_In). simpl in Hadm. apply andb_prop in Hadm as [Hcov Hport].
    exists l, src. split_and!; [done..|]. apply resolve_source. by exists cidr.
  - intros (l & src & Hl & Hport & Hsrc & Hs). apply resolve_source in Hs as (cidr & Hcidr & Hcov).
    set (r := mkRule "allow" cidr "tcp" (ln_ports l) (role +:+ ": " +:+ ln_ports l +:+ " from " +:+ describe src)).
    exists r. split; [|by unfold r; simpl; rewrite Hcov, Hport]. apply list_elem_of_In. rewrite stable_sort_perm.
    apply list_elem_of_In, in_concat. exists (rules_of role inp (Masked (in_BridgeCIDR inp)) l).
    split; [by apply in_map, list_elem_of_In|]. unfold rules_of. apply in_concat. eexists.
    split; [apply in_map_iff; exists src; split; [reflexivity|by apply list_elem_of_In]|].
    apply in_map_iff. exists cidr. split; [done|by apply list_elem_of_In].
Qed.

(** Every source is on the bridge. *)
Lemma source_on_bridge src ip : source_is inp src ip -> Contains (in_BridgeCIDR inp) (Addr4 ip) = true.
Proof using All.
  assert (H : on_bridge inp (Addr4 ip) -> Contains (in_BridgeCIDR inp) (Addr4 ip) = true).
  { intros (w & [= <-] & Hc). by rewrite Contains_masked in Hc. }
  destruct src; simpl; [intros E; apply H; by rewrite <- E|done|intros E; by apply H, control_ok|intros E; by eapply H, core_ok].
Qed.
End valid.

(** A tenant: on the bridge, and none of the platform's addresses. *)
Definition tenant (inp : Inputs) (ip : Z) : Prop :=
  Contains (in_BridgeCIDR inp) (Addr4 ip) = true /\ in_HostGateway inp <> Addr4 ip /\
  (forall role, in_Core inp !! role <> Some (Addr4 ip)) /\ Addr4 ip ∉ in_ControlPlane inp.

(** The ports tenants are meant to reach. *)
Definition tenant_port (role : string) (port : Z) : Prop :=
  (role = RoleOTelCollector /\ (port = 4317 \/ port = 4318)) \/ (role = RoleCaddy /\ (port = 80 \/ port = 443)).

Lemma tenant_source inp src ip : tenant inp ip -> source_is inp src ip <-> src = fromBridge.
Proof.
  intros (Hb & Hg & Hc & Hctl). destruct src; simpl; split; try done. intros E. by apply Hc in E.
Qed.

(** The rows of the table that name the bridge. *)
Lemma table_bridge role port :
  (exists l, l ∈ default [] (table role) /\ port_in (ln_ports l) port = true /\ fromBridge ∈ ln_from l) <-> tenant_port role port.
Proof.
  assert (Hrow : forall ports from rest, (exists l, l ∈ mkListener ports from :: rest /\ port_in (ln_ports l) port = true /\ fromBridge ∈ ln_from l) <->
    (port_in ports port = true /\ fromBridge ∈ from) \/ (exists l, l ∈ rest /\ port_in (ln_ports l) port = true /\ fromBridge ∈ ln_from l)).
  { intros. setoid_rewrite elem_of_cons. split; [intros (l & [->|] & ?)|]; naive_solver. }
  assert (Hnil : (exists l, l ∈ @nil listener /\ port_in (ln_ports l) port = true /\ fromBridge ∈ ln_from l) <-> False).
  { split; [|done]. intros (l & Hl & _). by apply elem_of_nil in Hl. }
  unfold table, tenant_port.
  repeat match goal with |- context [String.eqb role ?r] => destruct (String.eqb_spec role r) as [->|] end;
    simpl; rewrite ?Hrow, ?Hnil, ?port_in_80_443, ?port_in_otlp, ?elem_of_cons, ?elem_of_nil;
    unfold RolePostgres, RoleVictoriaMetrics, RoleSecurity, RoleGuacamole, RoleOTelCollector, RoleCaddy in *;
    intuition congruence.
Qed.

Lemma tenant_admits inp role ip port : tenant inp ip -> table_admits inp role ip port <-> tenant_port role port.
Proof.
  intros Ht. rewrite <- table_bridge. unfold table_admits. split.
  - intros (l & src & Hl & Hp & Hs & Hsrc). apply tenant_source in Hsrc as ->; [|done]. by exists l.
  - intros (l & Hl & Hp & Hs). exists l, fromBridge. split_and!; [done..|]. by apply tenant_source.
Qed.

(** ** Lemmas: the loop over the roles *)

Lemma guard_ACLs inp bridge order pol role :
  pol_ACLs (foldl (guard_role inp bridge) pol order) !! role =
  if decide (role <> RoleControlPlane /\ role ∈ order.*1) then Some (acl_for role inp bridge) else pol_ACLs pol !! role.
Proof.
  revert pol. induction order as [|[r a] order IH]; intros pol.
  { simpl. rewrite decide_False; [done|]. set_solver. }
  cbn [foldl]. rewrite IH. unfold guard_role. cbn [fst].
  destruct (decide (role <> RoleControlPlane /\ role ∈ order.*1)) as [[Hne Hin]|Hn].
  { rewrite decide_True; [done|]. set_solver. }
  destruct (String.eqb_spec r RoleControlPlane) as [->|Hr].
  - destruct (decide _) as [[? Hin]|]; [|done]. exfalso. set_solver.
  - simpl pol_ACLs. destruct (decide (r = role)) as [->|Hne].
    + rewrite lookup_insert_eq, decide_True; [done|]. set_solver.
    + rewrite lookup_insert_ne by done. destruct (decide _) as [[? Hin]|]; [|done]. exfalso. set_solver.
Qed.

Definition is_unknown (role : string) : bool :=
  negb (String.eqb role RoleControlPlane) && match table role with Some _ => false | None => true end.

Lemma guard_unknown inp bridge order pol :
  pol_UnknownRoles (foldl (guard_role inp bridge) pol order) = pol_UnknownRoles pol ++ List.filter is_unknown order.*1.
Proof.
  revert pol. induction order as [|[r a] order IH]; intros pol; [by rewrite app_nil_r|].
  cbn [foldl]. rewrite IH. unfold guard_role. cbn [fst fmap list_fmap List.filter]. unfold is_unknown at 2.
  destruct (String.eqb r RoleControlPlane); simpl; [done|]. destruct (table r); simpl; [done|]. by rewrite <- app_assoc.
Qed.

Lemma filter_perm {A} (f : A -> bool) l l' : l ≡ₚ l' -> List.filter f l ≡ₚ List.filter f l'.
Proof. induction 1; simpl; repeat case_match; eauto using Permutation. Qed.

Lemma guard_order inp bridge order order' :
  order ≡ₚ order' ->
  let pol := foldl (guard_role inp bridge) (mkPolicy ∅ []) order in
  let pol' := foldl (guard_role inp bridge) (mkPolicy ∅ []) order' in
  pol_ACLs pol = pol_ACLs pol' /\
  merge_sort String.le (pol_UnknownRoles pol) = merge_sort String.le (pol_UnknownRoles pol').
Proof.
  intros Hord pol pol'. split.
  - apply map_eq. intros role. unfold pol, pol'. rewrite !guard_ACLs.
    destruct (decide (role <> RoleControlPlane /\ role ∈ order.*1)) as [H|H], (decide (role <> RoleControlPlane /\ role ∈ order'.*1)) as [H'|H'];
      try done; exfalso; rewrite Hord in H; done.
  - apply (StronglySorted_unique String.le).
    + apply Sorted_StronglySorted; [apply _|]. apply Sorted_merge_sort, _.
    + apply Sorted_StronglySorted; [apply _|]. apply Sorted_merge_sort, _.
    + rewrite !merge_sort_Permutation. unfold pol, pol'. rewrite !guard_unknown. simpl. by apply filter_perm, fmap_Permutation.
Qed.

(** ** Properties *)

(** C36: the guard isolates the core containers.  When [Compute] succeeds, every core container except
    the control planes has an ACL; it admits a connection exactly when a row of the table
    names the caller; so a tenant reaches nothing but OTLP on the collector and HTTP on
    Caddy, and an address off the bridge reaches nothing at all.  The policy does not
    depend on the orders in which the map of core containers is iterated. *)
Theorem core_guard_isolates inp order_v order_c pol :
  wf_inputs inp -> order_v ≡ₚ map_to_list (in_Core inp) -> order_c ≡ₚ map_to_list (in_Core inp) ->
  Compute order_v order_c inp = inr pol ->
  (forall role, is_Some (pol_ACLs pol !! role) <-> role <> RoleControlPlane /\ is_Some (in_Core inp !! role)) /\
  (forall role acl ip port, pol_ACLs pol !! role = Some acl ->
     (admits acl ip port = true <-> table_admits inp role ip port) /\
     (tenant inp ip -> admits acl ip port = true <-> tenant_port role port) /\
     (Contains (in_BridgeCIDR inp) (Addr4 ip) = false -> admits acl ip port = false)) /\
  (forall order_v' order_c', order_v' ≡ₚ order_v -> order_c' ≡ₚ order_c -> Compute order_v' order_c' inp = inr pol).
Proof.
  intros Hwf Hv Hc HC. unfold Compute in HC. destruct (validate order_v inp) eqn:Ev; [done|]. injection HC as <-.
  destruct (validate_none order_v inp Hv Ev) as ((v & b & Hb & Hbits) & Hg & Hcore & Hctl).
  split; [|split].
  - intros role. simpl. rewrite guard_ACLs. cbn [pol_ACLs]. rewrite lookup_empty.
    assert (Hdom : role ∈ order_c.*1 <-> is_Some (in_Core inp !! role)).
    { rewrite Hc, list_elem_of_fmap. split.
      - intros ([r a] & -> & Hin). apply elem_of_map_to_list in Hin. by exists a.
      - intros [a Ha]. exists (role, a). split; [done|]. by apply elem_of_map_to_list. }
    destruct (decide _) as [H|H]; rewrite Hdom in H; [split; [done|by eexists]|]. split; [by intros [? [=]]|done].
  - intros role acl ip port. simpl. rewrite guard_ACLs. cbn [pol_ACLs]. rewrite lookup_empty. destruct (decide _); [|done]. intros [= <-].
    assert (Hadm := acl_admits inp v b Hwf Hb Hbits Hg Hcore Hctl role ip port). split; [exact Hadm|]. split.
    + intros Ht. rewrite Hadm. by apply tenant_admits.
    + intros Hout. apply not_true_is_false. rewrite Hadm. intros (l & src & _ & _ & _ & Hs).
      apply (source_on_bridge inp v b) in Hs; [congruence|done..].
  - intros order_v' order_c' Hv' Hc'. unfold Compute. rewrite (validate_order order_v order_v') by done.
    destruct (guard_order inp (Masked (in_BridgeCIDR inp)) _ _ Hc') as [E1 E2]. cbv zeta in *. by rewrite E1, E2.
Qed.

(** 10.100.0.0/24 with postgres, caddy and a control plane. *)
Definition demo_base : Z := 10 * 2 ^ 24 + 100 * 2 ^ 16.

Definition demo_inputs : Inputs :=
  mkInputs (mkPrefix (Addr4 demo_base) 24) (Addr4 (demo_base + 1))
    {[RolePostgres := Addr4 (demo_base + 2); RoleCaddy := Addr4 (demo_base + 3)]} [Addr4 (demo_base + 4)].

Definition demo_policy : Policy :=
  match Compute (map_to_list (in_Core demo_inputs)) (map_to_list (in_Core demo_inputs)) demo_inputs with
  | inr pol => pol
  | inl _ => mkPolicy ∅ []
  end.

Example demo_rules : map rl_Source (default [] (acl_IngressRules <$> pol_ACLs demo_policy !! RoleCaddy)) =
  ["10.100.0.1/32"; "10.100.0.0/24"].
Proof. vm_compute. reflexivity. Qed.

(** A tenant at 10.100.0.77 reaches Caddy's port 80. *)
Lemma core_guard_isolates_witness : exists acl,
  pol_ACLs demo_policy !! RoleCaddy = Some acl /\ (admits acl (demo_base + 77) 80 = true <-> tenant_port RoleCaddy 80).
Proof.
  assert (Hwf : wf_inputs demo_inputs).
  { split; [vm_compute; by split|]. split; [vm_compute; by split|]. split.
    - intros role a Ha. cbn [demo_inputs in_Core] in Ha. apply lookup_insert_Some in Ha as [[_ <-]|[_ Ha]]; [vm_compute; by split|].
      apply lookup_singleton_Some in Ha as [_ <-]. vm_compute; by split.
    - constructor; [vm_compute; by split|constructor]. }
  destruct (core_guard_isolates demo_inputs (map_to_list (in_Core demo_inputs)) (map_to_list (in_Core demo_inputs)) demo_policy
    Hwf ltac:(done) ltac:(done) ltac:(vm_compute; reflexivity)) as (_ & H & _).
  exists (acl_for RoleCaddy demo_inputs (Masked (in_BridgeCIDR demo_inputs))).
  assert (E : pol_ACLs demo_policy !! RoleCaddy = Some (acl_for RoleCaddy demo_inputs (Masked (in_BridgeCIDR demo_inputs))))
    by (vm_compute; reflexivity).
  split; [exact E|]. apply (H RoleCaddy _ (demo_base + 77) 80 E). split; [vm_compute; reflexivity|].
  split; [discriminate|]. split.
  - intros role Hr. cbn [demo_inputs in_Core] in Hr. apply lookup_insert_Some in Hr as [[_ Hr]|[_ Hr]]; [discriminate Hr|].
    apply lookup_singleton_Some in Hr as [_ Hr]. discriminate Hr.
  - intros Hin. apply list_elem_of_singleton in Hin. discriminate Hin.
Defined.
