(* ===== verification/Cluster.v ===== *)
(** * Managed clusters: records, names, validation and the operator's gates

    internal/cluster/cluster.go, pkg/core/cluster/spec.go, and the two create-time gates of
    internal/server: cluster_caps.go (ceilings on size) and cluster_isolation.go (the
    opt-in for nodes that share the host's kernel).  Error values carry their cause. *)

From S2P Require Import Prelude GoStrings GoStrconv.
From Stdlib Require Import Ascii.
#[local] Open Scope string_scope.
#[local] Open Scope list_scope.
#[local] Open Scope Z_scope.

(** ** Records *)

Inductive State := StateProvisioning | StateReady | StateDegraded | StateDeleting | StateError.
Inductive EventKind := EventScaleUp | EventScaleDown | EventRefused | EventNodeReplaced.
Inductive NodeState := NodeStateProvisioning | NodeStateReady | NodeStateDraining.

#[export] Instance state_eq_dec : EqDecision State.
Proof. solve_decision. Defined.
#[export] Instance node_state_eq_dec : EqDecision NodeState.
Proof. solve_decision. Defined.

(** Isolation classes and roles are text, as they are stored. *)
Definition IsolationVM := "vm".
Definition IsolationContainer := "container".
Definition RoleControlPlane := "control-plane".
Definition RoleWorker := "worker".

Definition OrDefault (i : string) : string := if String.eqb i "" then IsolationVM else i.

Record Size := mkSize { CPU : string; Memory : string; Disk : string }.

Record NodeGroup := mkGroup {
  g_Name : string;
  g_Size : Size;
  MinNodes : Z;
  MaxNodes : Z;
  TargetNodes : Z;
}.

Definition EffectiveTarget (g : NodeGroup) : Z :=
  let t := TargetNodes g in
  let t := if t <? MinNodes g then MinNodes g else t in
  if MaxNodes g <? t then MaxNodes g else t.

Record Cluster := mkCluster {
  c_ID : string;
  c_Owner : string;
  c_Name : string;
  c_State : State;
  c_StateReason : string;
  c_K3sVersion : string;
  c_APIEndpoint : string;
  c_NodeGroups : list NodeGroup;
  c_NodeIsolation : string;
  c_CreatedAt : Time;
  c_UpdatedAt : Time;
}.

Record Node := mkNode {
  n_Owner : string;
  n_Cluster : string;
  n_VMName : string;
  n_Role : string;
  n_Group : string;
  n_State : NodeState;
  n_CreatedAt : Time;
}.

Record Event := mkEvent { e_At : Time; e_Kind : EventKind; e_Group : string; e_Reason : string }.

Definition DefaultNodeGroups : list NodeGroup :=
  [mkGroup "small" (mkSize "2" "4GB" "40GB") 1 3 0;
   mkGroup "medium" (mkSize "4" "8GB" "80GB") 0 2 0;
   mkGroup "large" (mkSize "8" "16GB" "160GB") 0 1 0].

(** ** Validation *)

Definition lower_alnum (a : ascii) : bool :=
  let n := nat_of_ascii a in ((48 <=? n) && (n <=? 57) || (97 <=? n) && (n <=? 122))%nat.

(** [^[a-z0-9]([a-z0-9-]{0,18}[a-z0-9])?$]: up to 20 bytes, alphanumeric at both ends. *)
Definition nameRE (s : string) : bool :=
  match String.list_ascii_of_string s with
  | [] => false
  | a :: rest =>
      lower_alnum a && forallb (fun b => lower_alnum b || Ascii.eqb b "-") rest
      && lower_alnum (List.last rest a) && (length rest <=? 19)%nat
  end.

Definition is_digit (a : ascii) : bool := match digit_of a with Some _ => true | None => false end.
Definition all_digits (s : string) : bool := forallb is_digit (String.list_ascii_of_string s).

(** [[1-9][0-9]*]. *)
Definition positive_digits (s : string) : bool :=
  match s with
  | "" => false
  | String a s' => is_digit a && negb (Ascii.eqb a "0") && all_digits s'
  end.

Definition size_units : list (string * Z) := [("MB", 1000000); ("GB", 1000000000); ("TB", 1000000000000)].

(** The submatches of [sizeBytesRE], a positive number followed by MB, GB or TB: the
    digits, and the unit's bytes. *)
Definition size_match (s : string) : option (string * Z) :=
  head (omap (fun '(suffix, bytes) =>
                let digits := TrimSuffix s suffix in
                if HasSuffix suffix s && positive_digits digits then Some (digits, bytes) else None) size_units).

Definition sizeRE (s : string) : bool := match size_match s with Some _ => true | None => false end.

(** [None] is an error: the text does not match, or the number does not fit int64.  The
    product wraps. *)
Definition ParseSizeBytes (s : string) : option Z :=
  match size_match s with
  | None => None
  | Some (digits, bytes) =>
      match ParseInt 64 digits with Some n => Some (wrap i64 (n * bytes)) | None => None end
  end.

Inductive group_error :=
| NoGroups | BadName (name : string) | DuplicateName (name : string) | BadCPU (group cpu : string)
| BadMemory (group mem : string) | BadDisk (group disk : string) | NegativeMin (group : string) (n : Z)
| MaxBelowMin (group : string) | NoCapacity.

Definition ValidateName (name : string) : bool := nameRE name.

(** One iteration of the loop. *)
Definition validate_group (seen : gset string) (g : NodeGroup) : option group_error :=
  if negb (ValidateName (g_Name g)) then Some (BadName (g_Name g))
  else if bool_decide (g_Name g ∈ seen) then Some (DuplicateName (g_Name g))
  else if match Atoi (CPU (g_Size g)) with Some n => n <=? 0 | None => true end
  then Some (BadCPU (g_Name g) (CPU (g_Size g)))
  else if negb (sizeRE (Memory (g_Size g))) then Some (BadMemory (g_Name g) (Memory (g_Size g)))
  else if negb (sizeRE (Disk (g_Size g))) then Some (BadDisk (g_Name g) (Disk (g_Size g)))
  else if MinNodes g <? 0 then Some (NegativeMin (g_Name g) (MinNodes g))
  else if MaxNodes g <? MinNodes g then Some (MaxBelowMin (g_Name g))
  else None.

Fixpoint validate_groups (seen : gset string) (totalMax : Z) (groups : list NodeGroup) : option group_error :=
  match groups with
  | [] => if totalMax <? 1 then Some NoCapacity else None
  | g :: rest =>
      match validate_group seen g with
      | Some e => Some e
      | None => validate_groups ({[g_Name g]} ∪ seen) (wrap i64 (totalMax + MaxNodes g)) rest
      end
  end.

(** [None] is a nil error. *)
Definition ValidateNodeGroups (groups : list NodeGroup) : option group_error :=
  match groups with [] => Some NoGroups | _ => validate_groups ∅ 0 groups end.

(** ** Names *)

Definition nameInfix := "-k8s-".

Definition CPName (tenant clusterName : string) : string := tenant +:+ nameInfix +:+ clusterName +:+ "-cp".

Definition WorkerName (tenant clusterName group : string) (n : Z) : string :=
  tenant +:+ nameInfix +:+ clusterName +:+ "-" +:+ group +:+ "-" +:+ Itoa n.

(** ** Ceilings: cluster_caps.go *)

Record clusterCaps := mkCaps {
  configErr : option string;
  maxNodes : Z;
  maxCPU : Z;
  maxMemoryBytes : Z;
  maxDiskBytes : Z;
}.

Inductive caps_error :=
| CapsMisconfigured (m : string) | TooManyNodes (total : Z) | TooMuchCPU (group : string)
| TooMuchMemory (group : string) | TooMuchDisk (group : string).

(** The int32 sum of the loop. *)
Definition total_max (groups : list NodeGroup) : Z :=
  foldl (fun total g => wrap i32 (total + MaxNodes g)) 0 groups.

Definition check_size (c : clusterCaps) (g : NodeGroup) : option caps_error :=
  if (0 <? maxCPU c) && (maxCPU c <? Atoi_value (CPU (g_Size g))) then Some (TooMuchCPU (g_Name g))
  else if (0 <? maxMemoryBytes c)
          && match ParseSizeBytes (Memory (g_Size g)) with Some b => maxMemoryBytes c <? b | None => false end
  then Some (TooMuchMemory (g_Name g))
  else if (0 <? maxDiskBytes c)
          && match ParseSizeBytes (Disk (g_Size g)) with Some b => maxDiskBytes c <? b | None => false end
  then Some (TooMuchDisk (g_Name g))
  else None.

Definition caps_check (c : clusterCaps) (groups : list NodeGroup) : option caps_error :=
  match configErr c with
  | Some m => Some (CapsMisconfigured m)
  | None =>
      if (0 <? maxNodes c) && (maxNodes c <? total_max groups) then Some (TooManyNodes (total_max groups))
      else head (omap (check_size c) groups)
  end.

(** [strings.Cut]: the parts around the first separator. *)
Fixpoint Cut (c : ascii) (s : string) : string * string * bool :=
  match s with
  | "" => ("", "", false)
  | String a s' =>
      if Ascii.eqb a c then ("", s', true)
      else let '(before, after, found) := Cut c s' in (String a before, after, found)
  end.

Definition no_caps : clusterCaps := mkCaps None 0 0 0 0.

(** One key of CONTAINARIUM_CLUSTER_MAX_NODE_SIZE; [None] is a startup error. *)
Definition parse_cap (caps : clusterCaps) (kv : string) : option clusterCaps :=
  let '(k, v, ok) := Cut "=" (TrimSpace kv) in
  if negb ok then None
  else if String.eqb k "cpu" then
    match Atoi v with
    | Some n => if n <? 1 then None
                else Some (mkCaps (configErr caps) (maxNodes caps) n (maxMemoryBytes caps) (maxDiskBytes caps))
    | None => None
    end
  else if String.eqb k "memory" then
    match ParseSizeBytes v with
    | Some b => Some (mkCaps (configErr caps) (maxNodes caps) (maxCPU caps) b (maxDiskBytes caps))
    | None => None
    end
  else if String.eqb k "disk" then
    match ParseSizeBytes v with
    | Some b => Some (mkCaps (configErr caps) (maxNodes caps) (maxCPU caps) (maxMemoryBytes caps) b)
    | None => None
    end
  else None.

Definition parseClusterCaps (max_nodes max_node_size : string) : option clusterCaps :=
  let nodes := if String.eqb max_nodes "" then Some 0
               else match ParseInt 32 max_nodes with Some n => if n <? 1 then None else Some n | None => None end in
  match nodes with
  | None => None
  | Some n =>
      let caps := mkCaps None n 0 0 0 in
      if String.eqb max_node_size "" then Some caps
      else foldl (fun acc kv => match acc with Some c => parse_cap c kv | None => None end) (Some caps)
             (split_char "," max_node_size)
  end.

(** ** The isolation gate: cluster_isolation.go *)

Record isolationGate := mkGate { allowContainer : bool; gate_configErr : option string }.

(** [strconv.ParseBool]. *)
Definition ParseBool (s : string) : option bool :=
  if bool_decide (s ∈ ["1"; "t"; "T"; "TRUE"; "true"; "True"]) then Some true
  else if bool_decide (s ∈ ["0"; "f"; "F"; "FALSE"; "false"; "False"]) then Some false
  else None.

(** [SetIsolationGateFromEnv]: an unset variable refuses, and so does one that does not
    parse, which it remembers. *)
Definition parseIsolationGate (v : string) : isolationGate :=
  if String.eqb v "" then mkGate false None
  else match ParseBool v with
       | Some allow => mkGate allow None
       | None => mkGate false (Some (v +:+ ": want true or false"))
       end.

Inductive isolation_error := UnknownIsolation (v : Z) | GateMisconfigured (m : string) | NotPermitted.

(** The numbers of [pb.NodeIsolation]. *)
Definition isolationFromProto (v : Z) : string + isolation_error :=
  if (v =? 0) || (v =? 1) then inl IsolationVM
  else if v =? 2 then inl IsolationContainer
  else inr (UnknownIsolation v).

Definition gate_check (g : isolationGate) (iso : string) : option isolation_error :=
  if negb (String.eqb iso IsolationContainer) then None
  else match gate_configErr g with
       | Some m => Some (GateMisconfigured m)
       | None => if allowContainer g then None else Some NotPermitted
       end.

Definition enforceIsolation (g : isolationGate) (v : Z) : string + isolation_error :=
  match isolationFromProto v with
  | inr e => inr e
  | inl iso => match gate_check g iso with Some e => inr e | None => inl iso end
  end.

(** [coreIsolation]: what the provisioner branches on. *)
Definition coreIsolation (i : string) : string :=
  if String.eqb (OrDefault i) IsolationContainer then IsolationContainer else IsolationVM.

(** ** Lemmas *)

Definition with_target (t : Z) (g : NodeGroup) : NodeGroup :=
  mkGroup (g_Name g) (g_Size g) (MinNodes g) (MaxNodes g) t.

Lemma EffectiveTarget_bounds g : MinNodes g <= MaxNodes g -> MinNodes g <= EffectiveTarget g <= MaxNodes g.
Proof. unfold EffectiveTarget. cases_Z; lia. Qed.

Lemma EffectiveTarget_le g : EffectiveTarget g <= MaxNodes g.
Proof. unfold EffectiveTarget. cases_Z; lia. Qed.

Definition max_sum (groups : list NodeGroup) : Z := foldr (fun g z => MaxNodes g + z) 0 groups.

Lemma total_max_exact acc groups :
  0 <= acc -> Forall (fun g => 0 <= MaxNodes g) groups -> acc + max_sum groups < 2 ^ 31 ->
  foldl (fun total g => wrap i32 (total + MaxNodes g)) acc groups = acc + max_sum groups.
Proof.
  revert acc. induction groups as [|g groups IH]; intros acc Hacc Hall Hsum; simpl in *; [lia|].
  apply Forall_cons in Hall as [Hg Hall].
  assert (0 <= max_sum groups) by (clear -Hall; induction Hall; simpl; lia).
  rewrite wrap_in_type_id by (try done; type_bounds). rewrite IH by (try done; lia). lia.
Qed.

Lemma validate_group_None seen g :
  validate_group seen g = None ->
  ValidateName (g_Name g) = true /\ g_Name g ∉ seen /\ 0 <= MinNodes g <= MaxNodes g /\
  (exists n, Atoi (CPU (g_Size g)) = Some n /\ 0 < n) /\ sizeRE (Memory (g_Size g)) = true /\
  sizeRE (Disk (g_Size g)) = true.
Proof.
  unfold validate_group. destruct (ValidateName _); simpl; [|done]. case_bool_decide; [done|].
  destruct (Atoi _) as [n|]; [|done]. destruct (Z.leb_spec n 0); [done|].
  destruct (sizeRE (Memory _)); simpl; [|done]. destruct (sizeRE (Disk _)); simpl; [|done].
  destruct (Z.ltb_spec (MinNodes g) 0); [done|]. destruct (Z.ltb_spec (MaxNodes g) (MinNodes g)); [done|].
  intros _. split_and!; try done; try lia. exists n. split; [done|lia].
Qed.

(** Names of valid groups are distinct, and each group is well formed. *)
Lemma validate_groups_None seen totalMax groups :
  validate_groups seen totalMax groups = None ->
  NoDup (g_Name <$> groups) /\ Forall (fun g => g_Name g ∉ seen /\ validate_group ∅ g = None) groups.
Proof.
  revert seen totalMax. induction groups as [|g groups IH]; intros seen t Hv; simpl in *; [by split; constructor|].
  destruct (validate_group seen g) eqn:Hg; [done|]. apply IH in Hv as [Hnd Hall].
  pose proof (validate_group_None _ _ Hg) as (_ & Hn & _). csimpl. split.
  - constructor; [|done]. intros (x & Hx & Hin)%list_elem_of_fmap. rewrite Forall_forall in Hall.
    destruct (Hall x Hin) as [Hns _]. set_solver.
  - constructor.
    + split; [done|]. revert Hg. unfold validate_group. repeat case_match; try done; case_bool_decide; set_solver.
    + eapply Forall_impl; [exact Hall|]. intros x [? ?]. split; [set_solver|done].
Qed.

Lemma omap_head_none {A B} (f : A -> option B) l : head (omap f l) = None -> Forall (fun x => f x = None) l.
Proof.
  induction l as [|x l IH]; csimpl; [constructor|]. destruct (f x) eqn:E; [done|]. intros H. constructor; auto.
Qed.

Lemma check_size_None c g :
  check_size c g = None ->
  (0 < maxCPU c -> Atoi_value (CPU (g_Size g)) <= maxCPU c) /\
  (0 < maxMemoryBytes c -> forall b, ParseSizeBytes (Memory (g_Size g)) = Some b -> b <= maxMemoryBytes c) /\
  (0 < maxDiskBytes c -> forall b, ParseSizeBytes (Disk (g_Size g)) = Some b -> b <= maxDiskBytes c).
Proof.
  unfold check_size.
  destruct (Z.ltb_spec 0 (maxCPU c)), (Z.ltb_spec 0 (maxMemoryBytes c)), (Z.ltb_spec 0 (maxDiskBytes c)); simpl;
    repeat match goal with |- context [?a <? ?b] => destruct (Z.ltb_spec a b) end; try done;
    repeat case_match; try done; intros _; split_and!; intros; simplify_eq/=; lia.
Qed.

(** The bytes a size text denotes, without the wrap of the code. *)
Definition size_bytes (s : string) : option Z :=
  match size_match s with
  | Some (digits, bytes) => match ParseInt 64 digits with Some n => Some (n * bytes) | None => None end
  | None => None
  end.

Lemma ParseSizeBytes_exact s b : size_bytes s = Some b -> 0 <= b < 2 ^ 63 -> ParseSizeBytes s = Some b.
Proof.
  unfold size_bytes, ParseSizeBytes. destruct (size_match s) as [[d u]|]; [|done].
  destruct (ParseInt 64 d) as [n|]; [|done]. intros [= <-] Hb. f_equal. apply wrap_in_type_id; [done|type_bounds].
Qed.

(** The bytes of a size, where the code's arithmetic is exact. *)
Definition fits (s : string) (b : Z) : Prop := size_bytes s = Some b /\ 0 <= b < 2 ^ 63.

(** C26: The operator's ceilings hold for what passes the gate.  For groups that are valid and whose
    maximal sizes sum to less than 2^31, a passed check means that the ceilings are well
    configured, and, for each ceiling that is set: however the autoscaler chooses the targets, the
    cluster has at most [maxNodes] nodes; every node has a CPU count of at most [maxCPU];
    and every memory and disk size that fits int64 in bytes is at most the ceiling.  The
    bounds are needed, see [caps_sum_wraps] and [caps_memory_skipped]. *)
Theorem caps_enforced c groups targets :
  ValidateNodeGroups groups = None -> caps_check c groups = None -> max_sum groups < 2 ^ 31 ->
  configErr c = None /\
  (0 < maxNodes c ->
     foldr (fun '(t, g) z => EffectiveTarget (with_target t g) + z) 0 (zip targets groups) <= maxNodes c) /\
  forall g, g ∈ groups ->
    (0 < maxCPU c -> exists n, Atoi (CPU (g_Size g)) = Some n /\ 0 < n <= maxCPU c) /\
    (0 < maxMemoryBytes c -> forall b, fits (Memory (g_Size g)) b -> b <= maxMemoryBytes c) /\
    (0 < maxDiskBytes c -> forall b, fits (Disk (g_Size g)) b -> b <= maxDiskBytes c).
Proof.
  intros Hv Hc Hsum.
  assert (Hall : Forall (fun g => validate_group ∅ g = None) groups).
  { destruct groups as [|g groups]; [done|]. apply validate_groups_None in Hv as [_ Hall].
    eapply Forall_impl; [exact Hall|]. by intros x [_ ?]. }
  unfold caps_check in Hc. destruct (configErr c); [done|].
  destruct ((0 <? maxNodes c) && (maxNodes c <? total_max groups)) eqn:Hn; [done|].
  apply omap_head_none in Hc. split_and!; [done| |].
  - intros Hpos. apply Z.ltb_lt in Hpos. rewrite Hpos in Hn. apply Z.ltb_ge in Hn.
    unfold total_max in Hn. rewrite total_max_exact in Hn; [|done| |done].
    2: { eapply Forall_impl; [exact Hall|]. intros x (_ & _ & ? & _)%validate_group_None. lia. }
    enough (foldr (fun '(t, g) z => EffectiveTarget (with_target t g) + z) 0 (zip targets groups) <= max_sum groups) by lia.
    clear -Hall. revert targets. induction Hall as [|g groups Hg Hall IH]; intros [|t targets]; simpl; try done.
    + apply validate_group_None in Hg as (_ & _ & ? & _). specialize (IH []). simpl in IH. lia.
    + pose proof (EffectiveTarget_le (with_target t g)). simpl in *. specialize (IH targets). lia.
  - intros g Hg. rewrite Forall_forall in Hall, Hc. specialize (Hall g Hg). specialize (Hc g Hg).
    apply check_size_None in Hc as (H1 & H2 & H3). apply validate_group_None in Hall as (_ & _ & _ & (n & Hcpu & Hn') & _).
    split_and!.
    + intros Hp. specialize (H1 Hp). rewrite (Atoi_value_Some _ _ Hcpu) in H1. eauto.
    + intros Hp b [Hb Hr]. apply H2; [done|]. by apply ParseSizeBytes_exact.
    + intros Hp b [Hb Hr]. apply H3; [done|]. by apply ParseSizeBytes_exact.
Qed.

Definition ex_caps : clusterCaps := mkCaps None 8 8 16000000000 200000000000.

Example ex_caps_parsed : parseClusterCaps "8" "cpu=8,memory=16GB,disk=200GB" = Some ex_caps.
Proof. vm_compute. reflexivity. Qed.

Lemma caps_enforced_witness :
  foldr (fun '(t, g) z => EffectiveTarget (with_target t g) + z) 0 (zip [9; 9; 9] DefaultNodeGroups) <= 8.
Proof.
  destruct (caps_enforced ex_caps DefaultNodeGroups [9; 9; 9]) as (_ & H & _);
    [vm_compute; reflexivity|vm_compute; reflexivity|vm_compute; reflexivity|]. apply H. vm_compute. reflexivity.
Defined.

(** Two groups of 2^31 - 1 nodes each pass a ceiling of eight nodes. *)
Example caps_sum_wraps :
  let g name := mkGroup name (mkSize "2" "4GB" "40GB") 0 (2 ^ 31 - 1) 0 in
  ValidateNodeGroups [g "a"; g "b"] = None /\ caps_check ex_caps [g "a"; g "b"] = None /\
  max_sum [g "a"; g "b"] = 2 ^ 32 - 2.
Proof. vm_compute. done. Qed.

(** A memory size whose number does not fit int64, and one whose bytes do not, pass a
    ceiling of 16GB. *)
Example caps_memory_skipped :
  let g memory := mkGroup "a" (mkSize "2" memory "40GB") 0 1 0 in
  Forall (fun memory => ValidateNodeGroups [g memory] = None /\ caps_check ex_caps [g memory] = None)
    ["99999999999999999999GB"; "10000000TB"].
Proof. apply Forall_cons; split; [vm_compute; done|]. apply Forall_singleton. vm_compute. done. Qed.
