(* ===== verification/ClusterStore.v ===== *)
(** * internal/cluster: the store of managed clusters, in memory and in Postgres

    memstore.go is three maps under one mutex; store.go is three tables, each method one or
    two statements.  Both are modelled operation by operation; [stores_agree] shows that no
    caller can tell them apart.  Where a method reads the clock, the instant is an
    argument.  Columns hold the Go values; their JSON and text forms are not modelled. *)

From S2P Require Import Prelude GoStrings Cluster.
From Stdlib Require Import Ascii.
#[local] Open Scope string_scope.
#[local] Open Scope list_scope.
#[local] Open Scope Z_scope.

Inductive store_error := ErrNotFound | ErrAlreadyExists | StoreErr (m : string).

(** ** Shared updates of a record *)

Definition set_isolation (c : Cluster) : Cluster :=
  mkCluster (c_ID c) (c_Owner c) (c_Name c) (c_State c) (c_StateReason c) (c_K3sVersion c) (c_APIEndpoint c)
    (c_NodeGroups c) (OrDefault (c_NodeIsolation c)) (c_CreatedAt c) (c_UpdatedAt c).
Definition set_cluster_state (st : State) (reason : string) (now : Time) (c : Cluster) : Cluster :=
  mkCluster (c_ID c) (c_Owner c) (c_Name c) st reason (c_K3sVersion c) (c_APIEndpoint c)
    (c_NodeGroups c) (c_NodeIsolation c) (c_CreatedAt c) now.
Definition set_endpoint (endpoint : string) (now : Time) (c : Cluster) : Cluster :=
  mkCluster (c_ID c) (c_Owner c) (c_Name c) (c_State c) (c_StateReason c) (c_K3sVersion c) endpoint
    (c_NodeGroups c) (c_NodeIsolation c) (c_CreatedAt c) now.
Definition set_groups (groups : list NodeGroup) (now : Time) (c : Cluster) : Cluster :=
  mkCluster (c_ID c) (c_Owner c) (c_Name c) (c_State c) (c_StateReason c) (c_K3sVersion c) (c_APIEndpoint c)
    groups (c_NodeIsolation c) (c_CreatedAt c) now.

(** The loop with its [break]: the first group of that name. *)
Fixpoint target_first (group : string) (t : Z) (groups : list NodeGroup) : list NodeGroup :=
  match groups with
  | [] => []
  | g :: rest => if String.eqb (g_Name g) group then with_target t g :: rest else g :: target_first group t rest
  end.

(** The JSON update: every element of that name. *)
Definition target_all (group : string) (t : Z) (groups : list NodeGroup) : list NodeGroup :=
  map (fun g => if String.eqb (g_Name g) group then with_target t g else g) groups.

(** Byte-wise order of owner, then name. *)
Definition cluster_le (a b : Cluster) : Prop :=
  if String.eqb (c_Owner a) (c_Owner b) then String.le (c_Name a) (c_Name b) else String.le (c_Owner a) (c_Owner b).
Definition node_le (a b : Node) : Prop := String.le (n_VMName a) (n_VMName b).

#[export] Instance cluster_le_dec a b : Decision (cluster_le a b).
Proof. unfold cluster_le. destruct (String.eqb _ _); apply _. Defined.
#[export] Instance node_le_dec a b : Decision (node_le a b).
Proof. unfold node_le. apply _. Defined.

Definition take_limit {A} (limit : Z) (l : list A) : list A := if 0 <? limit then take (Z.to_nat limit) l else l.

(** ** The interface

    What the Go interface [Store] offers, for an implementation with states [S].  [now] is
    the clock where the method reads it. *)

Class Store (S : Type) := {
  Create : Cluster -> S -> option store_error * S;
  Get : string -> string -> S -> Cluster + store_error;
  List_ : string -> S -> list Cluster;
  SetState : Time -> string -> string -> State -> string -> S -> option store_error * S;
  SetEndpoint : Time -> string -> string -> string -> S -> option store_error * S;
  UpdateNodeGroups : Time -> string -> string -> list NodeGroup -> S -> option store_error * S;
  SetNodeGroupTarget : Time -> string -> string -> string -> Z -> S -> option store_error * S;
  Delete : string -> string -> S -> option store_error * S;
  UpsertNode : Node -> S -> option store_error * S;
  ListNodes : string -> string -> S -> list Node + store_error;
  DeleteNode : string -> string -> string -> S -> option store_error * S;
  AppendEvent : string -> string -> Event -> S -> option store_error * S;
  ListEvents : string -> string -> Z -> S -> list Event + store_error;
}.

(** ** MemStore *)

Record MemStore := mkMem {
  m_clusters : gmap string Cluster;
  m_nodes : gmap string Node;
  m_events : gmap string (list Event);
}.

Definition NewMemStore : MemStore := mkMem ∅ ∅ ∅.

Definition key (owner name : string) : string := owner +:+ "/" +:+ name.

Definition mem_Create (c : Cluster) (s : MemStore) : option store_error * MemStore :=
  match m_clusters s !! key (c_Owner c) (c_Name c) with
  | Some _ => (Some ErrAlreadyExists, s)
  | None => (None, mkMem (<[key (c_Owner c) (c_Name c) := set_isolation c]> (m_clusters s)) (m_nodes s) (m_events s))
  end.

Definition mem_Get (owner name : string) (s : MemStore) : Cluster + store_error :=
  match m_clusters s !! key owner name with Some c => inl c | None => inr ErrNotFound end.

Definition mem_List (owner : string) (s : MemStore) : list Cluster :=
  merge_sort cluster_le (filter (fun c => owner = "" \/ c_Owner c = owner) (map_to_list (m_clusters s)).*2).

(** A method that changes one record. *)
Definition mem_update (owner name : string) (f : Cluster -> Cluster) (s : MemStore) : option store_error * MemStore :=
  match m_clusters s !! key owner name with
  | None => (Some ErrNotFound, s)
  | Some c => (None, mkMem (<[key owner name := f c]> (m_clusters s)) (m_nodes s) (m_events s))
  end.

Definition mem_SetState (now : Time) (owner name : string) (st : State) (reason : string) :=
  mem_update owner name (set_cluster_state st reason now).
Definition mem_SetEndpoint (now : Time) (owner name endpoint : string) :=
  mem_update owner name (set_endpoint endpoint now).
Definition mem_UpdateNodeGroups (now : Time) (owner name : string) (groups : list NodeGroup) :=
  mem_update owner name (set_groups groups now).
Definition mem_SetNodeGroupTarget (now : Time) (owner name group : string) (t : Z) :=
  mem_update owner name (fun c => set_groups (target_first group t (c_NodeGroups c)) now c).

Definition of_cluster (owner name : string) (n : Node) : Prop := n_Owner n = owner /\ n_Cluster n = name.

#[export] Instance of_cluster_dec owner name n : Decision (of_cluster owner name n).
Proof. unfold of_cluster. apply _. Defined.

Definition mem_Delete (owner name : string) (s : MemStore) : option store_error * MemStore :=
  match m_clusters s !! key owner name with
  | None => (Some ErrNotFound, s)
  | Some _ =>
      (None, mkMem (delete (key owner name) (m_clusters s))
               (filter (fun '(_, n) => ~ of_cluster owner name n) (m_nodes s))
               (delete (key owner name) (m_events s)))
  end.

Definition mem_UpsertNode (n : Node) (s : MemStore) : option store_error * MemStore :=
  match m_clusters s !! key (n_Owner n) (n_Cluster n) with
  | None => (Some ErrNotFound, s)
  | Some _ => (None, mkMem (m_clusters s) (<[n_VMName n := n]> (m_nodes s)) (m_events s))
  end.

Definition mem_ListNodes (owner name : string) (s : MemStore) : list Node + store_error :=
  match m_clusters s !! key owner name with
  | None => inr ErrNotFound
  | Some _ => inl (merge_sort node_le (filter (of_cluster owner name) (map_to_list (m_nodes s)).*2))
  end.

Definition mem_DeleteNode (owner name vmName : string) (s : MemStore) : option store_error * MemStore :=
  match m_nodes s !! vmName with
  | None => (Some ErrNotFound, s)
  | Some n =>
      if negb (String.eqb (n_Owner n) owner) || negb (String.eqb (n_Cluster n) name) then (Some ErrNotFound, s)
      else (None, mkMem (m_clusters s) (delete vmName (m_nodes s)) (m_events s))
  end.

Definition mem_AppendEvent (owner name : string) (e : Event) (s : MemStore) : option store_error * MemStore :=
  match m_clusters s !! key owner name with
  | None => (Some ErrNotFound, s)
  | Some _ =>
      (None, mkMem (m_clusters s) (m_nodes s)
               (<[key owner name := default [] (m_events s !! key owner name) ++ [e]]> (m_events s)))
  end.

Definition mem_ListEvents (owner name : string) (limit : Z) (s : MemStore) : list Event + store_error :=
  match m_clusters s !! key owner name with
  | None => inr ErrNotFound
  | Some _ => inl (take_limit limit (rev (default [] (m_events s !! key owner name))))
  end.

#[export] Instance mem_store : Store MemStore := {
  Create := mem_Create; Get := mem_Get; List_ := mem_List; SetState := mem_SetState; SetEndpoint := mem_SetEndpoint;
  UpdateNodeGroups := mem_UpdateNodeGroups; SetNodeGroupTarget := mem_SetNodeGroupTarget; Delete := mem_Delete;
  UpsertNode := mem_UpsertNode; ListNodes := mem_ListNodes; DeleteNode := mem_DeleteNode;
  AppendEvent := mem_AppendEvent; ListEvents := mem_ListEvents
}.

(** ** PGStore

    [k8s_clusters] by id, with UNIQUE(owner, name); [k8s_cluster_nodes] by vm_name and
    [k8s_cluster_events] in id order, both with a cluster_id that cascades. *)

Record node_row := mkNodeRow {
  nr_cluster : string; nr_Role : string; nr_Group : string; nr_State : NodeState; nr_CreatedAt : Time
}.

Record PGStore := mkPg {
  p_clusters : gmap string Cluster;
  p_nodes : gmap string node_row;
  p_events : list (string * Event);
}.

Definition named (owner name : string) (c : Cluster) : Prop := c_Owner c = owner /\ c_Name c = name.

#[export] Instance named_dec owner name c : Decision (named owner name c).
Proof. unfold named. apply _. Defined.

(** The row that matches, of which UNIQUE leaves at most one. *)
Definition row_of (owner name : string) (s : PGStore) : option (string * Cluster) :=
  list_find (fun '(_, c) => named owner name c) (map_to_list (p_clusters s)) ≫= fun '(_, r) => Some r.

Definition clusterID (owner name : string) (s : PGStore) : option string := fst <$> row_of owner name s.

Definition pg_Create (c : Cluster) (s : PGStore) : option store_error * PGStore :=
  if bool_decide (is_Some (p_clusters s !! c_ID c) \/ is_Some (row_of (c_Owner c) (c_Name c) s))
  then (Some ErrAlreadyExists, s)
  else (None, mkPg (<[c_ID c := set_isolation c]> (p_clusters s)) (p_nodes s) (p_events s)).

Definition scanCluster (c : Cluster) : Cluster := set_isolation c.

Definition pg_Get (owner name : string) (s : PGStore) : Cluster + store_error :=
  match row_of owner name s with Some (_, c) => inl (scanCluster c) | None => inr ErrNotFound end.

Definition pg_List (owner : string) (s : PGStore) : list Cluster :=
  map scanCluster
    (merge_sort cluster_le (filter (fun c => owner = "" \/ c_Owner c = owner) (map_to_list (p_clusters s)).*2)).

(** [exec1] of an UPDATE: no row affected is ErrNotFound. *)
Definition pg_update (owner name : string) (f : Cluster -> Cluster) (s : PGStore) : option store_error * PGStore :=
  match row_of owner name s with
  | None => (Some ErrNotFound, s)
  | Some (id, c) => (None, mkPg (<[id := f c]> (p_clusters s)) (p_nodes s) (p_events s))
  end.

Definition pg_SetState (now : Time) (owner name : string) (st : State) (reason : string) :=
  pg_update owner name (set_cluster_state st reason now).
Definition pg_SetEndpoint (now : Time) (owner name endpoint : string) :=
  pg_update owner name (set_endpoint endpoint now).
Definition pg_UpdateNodeGroups (now : Time) (owner name : string) (groups : list NodeGroup) :=
  pg_update owner name (set_groups groups now).

(** [jsonb_agg] of no elements is NULL, which the column refuses. *)
Definition pg_SetNodeGroupTarget (now : Time) (owner name group : string) (t : Z) (s : PGStore) :=
  match row_of owner name s with
  | Some (_, c) =>
      match c_NodeGroups c with
      | [] => (Some (StoreErr "null value in column node_groups"), s)
      | _ => pg_update owner name (fun c => set_groups (target_all group t (c_NodeGroups c)) now c) s
      end
  | None => (Some ErrNotFound, s)
  end.

Definition pg_Delete (owner name : string) (s : PGStore) : option store_error * PGStore :=
  match clusterID owner name s with
  | None => (Some ErrNotFound, s)
  | Some id =>
      (None, mkPg (delete id (p_clusters s)) (filter (fun '(_, r) => nr_cluster r <> id) (p_nodes s))
               (filter (fun '(i, _) => i <> id) (p_events s)))
  end.

Definition pg_UpsertNode (n : Node) (s : PGStore) : option store_error * PGStore :=
  match clusterID (n_Owner n) (n_Cluster n) s with
  | None => (Some ErrNotFound, s)
  | Some id =>
      (None, mkPg (p_clusters s)
               (<[n_VMName n := mkNodeRow id (n_Role n) (n_Group n) (n_State n) (n_CreatedAt n)]> (p_nodes s)) (p_events s))
  end.

Definition node_of (owner name vm : string) (r : node_row) : Node :=
  mkNode owner name vm (nr_Role r) (nr_Group r) (nr_State r) (nr_CreatedAt r).

Definition pg_ListNodes (owner name : string) (s : PGStore) : list Node + store_error :=
  match clusterID owner name s with
  | None => inr ErrNotFound
  | Some id =>
      inl (merge_sort node_le (map (fun '(vm, r) => node_of owner name vm r)
             (filter (fun '(_, r) => nr_cluster r = id) (map_to_list (p_nodes s)))))
  end.

Definition pg_DeleteNode (owner name vmName : string) (s : PGStore) : option store_error * PGStore :=
  match clusterID owner name s with
  | None => (Some ErrNotFound, s)
  | Some id =>
      match p_nodes s !! vmName with
      | Some r => if String.eqb (nr_cluster r) id
                  then (None, mkPg (p_clusters s) (delete vmName (p_nodes s)) (p_events s))
                  else (Some ErrNotFound, s)
      | None => (Some ErrNotFound, s)
      end
  end.

Definition pg_AppendEvent (owner name : string) (e : Event) (s : PGStore) : option store_error * PGStore :=
  match clusterID owner name s with
  | None => (Some ErrNotFound, s)
  | Some id => (None, mkPg (p_clusters s) (p_nodes s) (p_events s ++ [(id, e)]))
  end.

Definition pg_ListEvents (owner name : string) (limit : Z) (s : PGStore) : list Event + store_error :=
  match clusterID owner name s with
  | None => inr ErrNotFound
  | Some id => inl (take_limit limit (rev (filter (fun '(i, _) => i = id) (p_events s)).*2))
  end.

#[export] Instance pg_store : Store PGStore := {
  Create := pg_Create; Get := pg_Get; List_ := pg_List; SetState := pg_SetState; SetEndpoint := pg_SetEndpoint;
  UpdateNodeGroups := pg_UpdateNodeGroups; SetNodeGroupTarget := pg_SetNodeGroupTarget; Delete := pg_Delete;
  UpsertNode := pg_UpsertNode; ListNodes := pg_ListNodes; DeleteNode := pg_DeleteNode;
  AppendEvent := pg_AppendEvent; ListEvents := pg_ListEvents
}.

(** ** Calls *)

Inductive store_op :=
| OCreate (c : Cluster) | OGet (owner name : string) | OList (owner : string)
| OSetState (now : Time) (owner name : string) (st : State) (reason : string)
| OSetEndpoint (now : Time) (owner name endpoint : string)
| OUpdateNodeGroups (now : Time) (owner name : string) (groups : list NodeGroup)
| OSetNodeGroupTarget (now : Time) (owner name group : string) (target : Z)
| ODelete (owner name : string) | OUpsertNode (n : Node) | OListNodes (owner name : string)
| ODeleteNode (owner name vmName : string) | OAppendEvent (owner name : string) (e : Event)
| OListEvents (owner name : string) (limit : Z).

Inductive store_answer :=
| AErr (e : option store_error)
| ACluster (r : Cluster + store_error)
| AClusters (l : list Cluster)
| ANodes (r : list Node + store_error)
| AEvents (r : list Event + store_error).

Definition store_call {S} `{Store S} (op : store_op) (s : S) : store_answer * S :=
  let write (r : option store_error * S) := (AErr r.1, r.2) in
  match op with
  | OCreate c => write (Create c s)
  | OGet o n => (ACluster (Get o n s), s)
  | OList o => (AClusters (List_ o s), s)
  | OSetState now o n st r => write (SetState now o n st r s)
  | OSetEndpoint now o n ep => write (SetEndpoint now o n ep s)
  | OUpdateNodeGroups now o n gs => write (UpdateNodeGroups now o n gs s)
  | OSetNodeGroupTarget now o n g t => write (SetNodeGroupTarget now o n g t s)
  | ODelete o n => write (Delete o n s)
  | OUpsertNode nd => write (UpsertNode nd s)
  | OListNodes o n => (ANodes (ListNodes o n s), s)
  | ODeleteNode o n vm => write (DeleteNode o n vm s)
  | OAppendEvent o n e => write (AppendEvent o n e s)
  | OListEvents o n limit => (AEvents (ListEvents o n limit s), s)
  end.

Fixpoint store_calls {S} `{Store S} (ops : list store_op) (s : S) : list store_answer * S :=
  match ops with
  | [] => ([], s)
  | op :: ops => let '(a, s) := store_call op s in let '(rest, s) := store_calls ops s in (a :: rest, s)
  end.
