(* ===== verification/ClusterStoreAgree.v ===== *)
(** * The two cluster stores are one

    [agree] relates a MemStore and a PGStore that hold the same clusters, nodes and events;
    every call answers alike on related states and leaves related states. *)

From S2P Require Import Prelude GoStrings GoSort Cluster ClusterStore.
From Stdlib Require Import Ascii.
#[local] Open Scope string_scope.
#[local] Open Scope list_scope.
#[local] Open Scope Z_scope.

(** ** Keys *)

Definition no_slash (s : string) : Prop := contains_char "/" s = false.

Lemma key_inj owner name owner' name' :
  no_slash owner -> no_slash name -> key owner name = key owner' name' -> owner = owner' /\ name = name'.
Proof.
  unfold no_slash, key. intros Ho Hn. revert owner' Ho.
  assert (Hcons : forall c x y, String c x +:+ y = String c (x +:+ y)) by done.
  assert (Hnil : forall y, "" +:+ y = y) by done.
  induction owner as [|a o IH]; intros [|b o'] Ho Heq; rewrite ?Hcons, ?Hnil in Heq.
  - by injection Heq.
  - exfalso. injection Heq as <- Heq. rewrite Heq, contains_char_app in Hn. simpl in Hn. by rewrite orb_true_r in Hn.
  - exfalso. injection Heq as -> _. by simpl in Ho.
  - injection Heq as <- Heq. simpl in Ho. apply orb_false_iff in Ho as [_ Ho]. destruct (IH o' Ho Heq) as [-> ->]. done.
Qed.

(** What the API lets into the store. *)
Definition groups_ok (groups : list NodeGroup) : Prop := groups <> [] /\ NoDup (g_Name <$> groups).
Definition plain (c : Cluster) : Prop := no_slash (c_Owner c) /\ no_slash (c_Name c) /\ groups_ok (c_NodeGroups c).

Record agree (m : MemStore) (p : PGStore) : Prop := {
  ag_row : forall i c, p_clusters p !! i = Some c -> c_ID c = i /\ plain c /\ set_isolation c = c;
  ag_unique : forall i j c d, p_clusters p !! i = Some c -> p_clusters p !! j = Some d ->
    c_Owner c = c_Owner d -> c_Name c = c_Name d -> i = j;
  ag_cluster : forall k c, m_clusters m !! k = Some c <->
    k = key (c_Owner c) (c_Name c) /\ p_clusters p !! c_ID c = Some c;
  ag_node : forall vm n, m_nodes m !! vm = Some n <->
    exists r c, p_nodes p !! vm = Some r /\ p_clusters p !! nr_cluster r = Some c /\
                n = node_of (c_Owner c) (c_Name c) vm r;
  ag_fk : forall vm r, p_nodes p !! vm = Some r -> is_Some (p_clusters p !! nr_cluster r);
  ag_event_fk : forall i e, (i, e) ∈ p_events p -> is_Some (p_clusters p !! i);
  ag_event : forall i c, p_clusters p !! i = Some c ->
    default [] (m_events m !! key (c_Owner c) (c_Name c)) = (filter (fun '(j, _) => j = i) (p_events p)).*2;
  ag_event_key : forall k, is_Some (m_events m !! k) -> is_Some (m_clusters m !! k);
}.

(** ** Finding the row *)

Section Rows.
Context (m : MemStore) (p : PGStore) (Hag : agree m p).

Lemma row_of_Some owner name i c :
  row_of owner name p = Some (i, c) <-> p_clusters p !! i = Some c /\ named owner name c.
Proof.
  unfold row_of. split.
  - intros Hr. apply bind_Some in Hr as ([k [j d]] & Hf & [= -> ->]). apply list_find_Some in Hf as (Hl & Hn & _).
    split; [|done]. apply elem_of_map_to_list. by eapply list_elem_of_lookup_2.
  - intros [Hi Hn]. destruct (list_find _ _) as [[k [j d]]|] eqn:Hf.
    + simpl. apply list_find_Some in Hf as (Hl & [Ho Hname] & _).
      assert (Hj : p_clusters p !! j = Some d) by (apply elem_of_map_to_list; by eapply list_elem_of_lookup_2).
      destruct Hn as [Ho' Hname']. assert (j = i) as -> by (eapply (ag_unique _ _ Hag); try done; congruence).
      congruence.
    + exfalso. apply list_find_None in Hf. rewrite Forall_forall in Hf.
      apply (Hf (i, c)); [by apply elem_of_map_to_list|done].
Qed.

Lemma row_of_None owner name : row_of owner name p = None -> m_clusters m !! key owner name = None.
Proof.
  intros Hn. destruct (m_clusters m !! key owner name) as [c|] eqn:Hc; [exfalso|done].
  apply (ag_cluster _ _ Hag) in Hc as [Hk Hi]. destruct (ag_row _ _ Hag _ _ Hi) as (_ & (Ho & Hnm & _) & _).
  symmetry in Hk. apply key_inj in Hk as [<- <-]; [|done..].
  assert (row_of (c_Owner c) (c_Name c) p = Some (c_ID c, c)); [|congruence]. by apply row_of_Some.
Qed.

(** The row of Postgres is the record in memory. *)
Lemma row_of_cases owner name :
  match row_of owner name p with
  | Some (i, c) => m_clusters m !! key owner name = Some c /\ p_clusters p !! i = Some c /\ c_ID c = i /\
                   c_Owner c = owner /\ c_Name c = name
  | None => m_clusters m !! key owner name = None
  end.
Proof.
  destruct (row_of owner name p) as [[i c]|] eqn:Hr; [|by apply row_of_None].
  apply row_of_Some in Hr as [Hi [<- <-]]. destruct (ag_row _ _ Hag _ _ Hi) as (<- & _). split_and!; try done.
  by apply (ag_cluster _ _ Hag).
Qed.
End Rows.

(** ** Updates of one record *)

(** Fields that updates leave alone. *)
Definition keeps (f : Cluster -> Cluster) : Prop :=
  forall c, c_ID (f c) = c_ID c /\ c_Owner (f c) = c_Owner c /\ c_Name (f c) = c_Name c /\
    (groups_ok (c_NodeGroups c) -> groups_ok (c_NodeGroups (f c))) /\ c_NodeIsolation (f c) = c_NodeIsolation c.

Lemma set_isolation_id c : set_isolation c = c <-> OrDefault (c_NodeIsolation c) = c_NodeIsolation c.
Proof. destruct c. unfold set_isolation. simpl. split; [by intros [=]|by intros ->]. Qed.

Lemma agree_update m p i c f :
  agree m p -> p_clusters p !! i = Some c -> keeps f ->
  agree (mkMem (<[key (c_Owner c) (c_Name c) := f c]> (m_clusters m)) (m_nodes m) (m_events m))
        (mkPg (<[i := f c]> (p_clusters p)) (p_nodes p) (p_events p)).
Proof.
  intros Hag Hi Hf. destruct (Hf c) as (Hid & Ho & Hn & Hg & Hiso).
  destruct (ag_row _ _ Hag _ _ Hi) as (Hci & (Hso & Hsn & Hgs) & His).
  assert (Hsame : forall j d, (<[i := f c]> (p_clusters p)) !! j = Some d ->
            exists d', p_clusters p !! j = Some d' /\ c_Owner d = c_Owner d' /\ c_Name d = c_Name d').
  { intros j d [[<- <-]|[_ Hd]]%lookup_insert_Some; eauto. }
  assert (Hsome : forall j d, p_clusters p !! j = Some d ->
            exists d', (<[i := f c]> (p_clusters p)) !! j = Some d' /\ c_Owner d' = c_Owner d /\ c_Name d' = c_Name d).
  { intros j d Hd. destruct (decide (i = j)) as [<-|Hne].
    - rewrite lookup_insert_eq. simplify_eq. eauto.
    - rewrite lookup_insert_ne by done. eauto. }
  split; cbn.
  - intros j d [[<- <-]|[_ Hd]]%lookup_insert_Some; [|by eapply ag_row].
    split; [congruence|]. split; [unfold plain; rewrite Ho, Hn; auto|].
    rewrite set_isolation_id in *. congruence.
  - intros j k d e Hd He Heo Hen. destruct (Hsame j d Hd) as (d' & Hd' & Hdo & Hdn).
    destruct (Hsame k e He) as (e' & He' & ? & ?). eapply (ag_unique _ _ Hag); [exact Hd'|exact He'|congruence|congruence].
  - intros k d. split.
    + intros [[<- <-]|[Hne Hd]]%lookup_insert_Some; [split; [congruence|]; rewrite Hid, Hci; apply lookup_insert_eq|].
      apply (ag_cluster _ _ Hag) in Hd as [-> Hd]. split; [done|]. rewrite lookup_insert_ne; [done|].
      intros ->. rewrite Hi in Hd. by simplify_eq.
    + intros [-> [[He <-]|[Hne Hd]]%lookup_insert_Some].
      * rewrite Ho, Hn. apply lookup_insert_eq.
      * rewrite lookup_insert_ne; [by apply (ag_cluster _ _ Hag)|]. intros Hk%key_inj; [|done..].
        destruct Hk. apply Hne. by eapply (ag_unique _ _ Hag).
  - intros vm n. rewrite (ag_node _ _ Hag). split.
    + intros (r & d & Hr & Hd & ->). destruct (Hsome _ _ Hd) as (d' & Hd' & Hdo & Hdn). exists r, d'. by rewrite Hdo, Hdn.
    + intros (r & d & Hr & Hd & ->). destruct (Hsame _ _ Hd) as (d' & Hd' & Hdo & Hdn). exists r, d'. by rewrite Hdo, Hdn.
  - intros vm r Hr. destruct (ag_fk _ _ Hag _ _ Hr) as [d Hd]. destruct (Hsome _ _ Hd) as (d' & -> & _). eauto.
  - intros j e Hr. destruct (ag_event_fk _ _ Hag _ _ Hr) as [d Hd]. destruct (Hsome _ _ Hd) as (d' & -> & _). eauto.
  - intros j d Hd. destruct (Hsame _ _ Hd) as (d' & Hd' & -> & ->). by apply (ag_event _ _ Hag).
  - intros k Hk. destruct (ag_event_key _ _ Hag k Hk) as [d Hd]. apply lookup_insert_is_Some. destruct (decide (key (c_Owner c) (c_Name c) = k)); eauto.
Qed.

(** ** The other changes *)

Lemma OrDefault_idem s : OrDefault (OrDefault s) = OrDefault s.
Proof. unfold OrDefault. destruct (String.eqb s "") eqn:E; [done|]. by rewrite E. Qed.

Lemma agree_create m p c :
  agree m p -> no_slash (c_Owner c) -> no_slash (c_Name c) -> groups_ok (c_NodeGroups c) ->
  p_clusters p !! c_ID c = None -> m_clusters m !! key (c_Owner c) (c_Name c) = None ->
  row_of (c_Owner c) (c_Name c) p = None ->
  agree (mkMem (<[key (c_Owner c) (c_Name c) := set_isolation c]> (m_clusters m)) (m_nodes m) (m_events m))
        (mkPg (<[c_ID c := set_isolation c]> (p_clusters p)) (p_nodes p) (p_events p)).
Proof.
  intros Hag Hso Hsn Hg Hid Hkey Hrow.
  assert (Hnew : forall j d, p_clusters p !! j = Some d -> (<[c_ID c := set_isolation c]> (p_clusters p)) !! j = Some d).
  { intros j d Hd. rewrite lookup_insert_ne; [done|]. intros <-. congruence. }
  assert (Hfree : forall j d, p_clusters p !! j = Some d -> ~ named (c_Owner c) (c_Name c) d).
  { intros j d Hd Hn. assert (row_of (c_Owner c) (c_Name c) p = Some (j, d)) by (by apply (row_of_Some m p Hag)). congruence. }
  split; cbn.
  - intros j d [[<- <-]|[_ Hd]]%lookup_insert_Some; [|by eapply ag_row].
    split; [done|]. split; [unfold plain; by cbn|]. apply set_isolation_id, OrDefault_idem.
  - intros j k d e [[<- <-]|[_ Hd]]%lookup_insert_Some [[<- <-]|[_ He]]%lookup_insert_Some Ho Hn; try done.
    + exfalso. apply (Hfree k e He). by split.
    + exfalso. apply (Hfree j d Hd). by split.
    + by eapply (ag_unique _ _ Hag).
  - intros k d. split.
    + intros [[<- <-]|[Hne Hd]]%lookup_insert_Some; [split; [done|]; cbn; apply lookup_insert_eq|].
      apply (ag_cluster _ _ Hag) in Hd as [-> Hd]. split; [done|by apply Hnew].
    + intros [-> [[He <-]|[Hne Hd]]%lookup_insert_Some]; [apply lookup_insert_eq|].
      rewrite lookup_insert_ne; [by apply (ag_cluster _ _ Hag)|]. intros [Ho Hn]%key_inj; [|done..].
      by apply (Hfree _ _ Hd).
  - intros vm n. rewrite (ag_node _ _ Hag). split.
    + intros (r & d & Hr & Hd & ->). exists r, d. by rewrite (Hnew _ _ Hd).
    + intros (r & d & Hr & Hd & ->). exists r, d. destruct (ag_fk _ _ Hag _ _ Hr) as [d' Hd'].
      rewrite (Hnew _ _ Hd') in Hd. by simplify_eq.
  - intros vm r Hr. destruct (ag_fk _ _ Hag _ _ Hr) as [d Hd]. rewrite (Hnew _ _ Hd). eauto.
  - intros j e Hr. destruct (ag_event_fk _ _ Hag _ _ Hr) as [d Hd]. rewrite (Hnew _ _ Hd). eauto.
  - intros j d [[<- <-]|[_ Hd]]%lookup_insert_Some; [|by apply (ag_event _ _ Hag)]. cbn.
    destruct (m_events m !! key (c_Owner c) (c_Name c)) eqn:He.
    { destruct (ag_event_key _ _ Hag (key (c_Owner c) (c_Name c))) as [d Hd]; [by eexists|]. congruence. }
    assert (Hnone : forall x, x ∈ p_events p -> x.1 <> c_ID c).
    { intros [j e] Hx Hj. simpl in Hj. subst j. destruct (ag_event_fk _ _ Hag _ _ Hx) as [? ?]. congruence. }
    clear -Hnone. cbn. induction (p_events p) as [|[j e] l IH]; [done|]. rewrite filter_cons_False.
    + apply IH. intros x Hx. apply Hnone. by right.
    + intros ->. by apply (Hnone (c_ID c, e)); [left|].
  - intros k Hk. destruct (ag_event_key _ _ Hag k Hk) as [d Hd]. apply lookup_insert_is_Some.
    destruct (decide (key (c_Owner c) (c_Name c) = k)); eauto.
Qed.

(** Rows of other clusters have other keys. *)
Lemma other_key m p i j c d :
  agree m p -> p_clusters p !! i = Some c -> p_clusters p !! j = Some d -> i <> j ->
  key (c_Owner c) (c_Name c) <> key (c_Owner d) (c_Name d) /\ ~ (c_Owner d = c_Owner c /\ c_Name d = c_Name c).
Proof.
  intros Hag Hi Hj Hne. destruct (ag_row _ _ Hag _ _ Hi) as (_ & (Ho & Hn & _) & _).
  split; [intros [? ?]%key_inj; [|done..]|intros [? ?]]; apply Hne; by eapply (ag_unique _ _ Hag).
Qed.

Lemma agree_delete m p i c :
  agree m p -> p_clusters p !! i = Some c ->
  agree (mkMem (delete (key (c_Owner c) (c_Name c)) (m_clusters m))
               (filter (fun '(_, n) => ~ of_cluster (c_Owner c) (c_Name c) n) (m_nodes m))
               (delete (key (c_Owner c) (c_Name c)) (m_events m)))
        (mkPg (delete i (p_clusters p)) (filter (fun '(_, r) => nr_cluster r <> i) (p_nodes p))
              (filter (fun '(j, _) => j <> i) (p_events p))).
Proof.
  intros Hag Hi. destruct (ag_row _ _ Hag _ _ Hi) as (Hci & (Hso & Hsn & _) & _). split; cbn.
  - intros j d [_ Hd]%lookup_delete_Some. by eapply ag_row.
  - intros j k d e [_ Hd]%lookup_delete_Some [_ He]%lookup_delete_Some. by eapply (ag_unique _ _ Hag).
  - intros k d. rewrite !lookup_delete_Some, (ag_cluster _ _ Hag). split.
    + intros [Hne [-> Hd]]. split; [done|]. split; [|done]. intros ->. by simplify_eq.
    + intros [-> [Hne Hd]]. split; [|done]. by apply (other_key m p i (c_ID d) c d).
  - intros vm n. rewrite map_lookup_filter_Some, (ag_node _ _ Hag). split.
    + intros [(r & d & Hr & Hd & ->) Hn]. exists r, d. split; [|split; [|done]].
      * apply map_lookup_filter_Some. split; [done|]. intros He. apply Hn. rewrite He in Hd. by simplify_eq.
      * apply lookup_delete_Some. split; [|done]. intros He. apply Hn. rewrite <- He in Hd. by simplify_eq.
    + intros (r & d & [Hr Hne]%map_lookup_filter_Some & [_ Hd]%lookup_delete_Some & ->). split; [eauto|].
      unfold of_cluster. cbn. by apply (other_key m p i (nr_cluster r) c d).
  - intros vm r [Hr Hne]%map_lookup_filter_Some. destruct (ag_fk _ _ Hag _ _ Hr) as [d Hd].
    exists d. by apply lookup_delete_Some.
  - intros j e [Hne Hr]%list_elem_of_filter. destruct (ag_event_fk _ _ Hag _ _ Hr) as [d Hd].
    exists d. by apply lookup_delete_Some.
  - intros j d [Hne Hd]%lookup_delete_Some. destruct (other_key m p i j c d) as [Hk _]; [done..|].
    rewrite lookup_delete_ne by done. rewrite (ag_event _ _ Hag _ _ Hd). f_equal.
    clear -Hne. induction (p_events p) as [|[k e] l IH]; [done|]. rewrite !filter_cons.
    repeat case_decide; subst; rewrite ?filter_cons; repeat case_decide; simplify_eq/=; solve [exact IH | by rewrite IH | tauto].
  - intros k [d Hk]. apply lookup_delete_Some in Hk as [Hne Hk].
    destruct (ag_event_key _ _ Hag k) as [x Hx]; [by eexists|]. exists x. by apply lookup_delete_Some.
Qed.

Lemma agree_upsert m p i c n :
  agree m p -> p_clusters p !! i = Some c -> n_Owner n = c_Owner c -> n_Cluster n = c_Name c ->
  agree (mkMem (m_clusters m) (<[n_VMName n := n]> (m_nodes m)) (m_events m))
        (mkPg (p_clusters p)
           (<[n_VMName n := mkNodeRow i (n_Role n) (n_Group n) (n_State n) (n_CreatedAt n)]> (p_nodes p)) (p_events p)).
Proof.
  intros Hag Hi Ho Hn. split; cbn; try apply Hag.
  - intros vm x. split.
    + intros [[<- <-]|[Hne Hx]]%lookup_insert_Some.
      * eexists _, c. rewrite lookup_insert_eq. split; [done|]. split; [done|]. rewrite <- Ho, <- Hn. by destruct n.
      * apply (ag_node _ _ Hag) in Hx as (r & d & Hr & Hd). exists r, d. by rewrite lookup_insert_ne.
    + intros (r & d & [[<- <-]|[Hne Hr]]%lookup_insert_Some & Hd & ->).
      * rewrite lookup_insert_eq. cbn in Hd. simplify_eq. rewrite <- Ho, <- Hn. by destruct n.
      * rewrite lookup_insert_ne by done. apply (ag_node _ _ Hag). eauto.
  - intros vm r [[<- <-]|[_ Hr]]%lookup_insert_Some; [cbn; eauto|]. by eapply ag_fk.
Qed.

Lemma agree_delete_node m p vm :
  agree m p -> agree (mkMem (m_clusters m) (delete vm (m_nodes m)) (m_events m))
                     (mkPg (p_clusters p) (delete vm (p_nodes p)) (p_events p)).
Proof.
  intros Hag. split; cbn; try apply Hag.
  - intros x n. rewrite lookup_delete_Some, (ag_node _ _ Hag). setoid_rewrite lookup_delete_Some. naive_solver.
  - intros x r [_ Hr]%lookup_delete_Some. by eapply ag_fk.
Qed.

Lemma agree_event m p i c e :
  agree m p -> p_clusters p !! i = Some c ->
  agree (mkMem (m_clusters m) (m_nodes m)
           (<[key (c_Owner c) (c_Name c) := default [] (m_events m !! key (c_Owner c) (c_Name c)) ++ [e]]> (m_events m)))
        (mkPg (p_clusters p) (p_nodes p) (p_events p ++ [(i, e)])).
Proof.
  intros Hag Hi. destruct (ag_row _ _ Hag _ _ Hi) as (Hci & _). split; cbn; try apply Hag.
  - intros j x [Hj|[= -> ->]%list_elem_of_singleton]%elem_of_app; [by eapply ag_event_fk|eauto].
  - intros j d Hd. rewrite filter_app, fmap_app, filter_cons. destruct (decide (i = j)) as [<-|Hne].
    + simplify_eq. rewrite lookup_insert_eq. cbn. by rewrite (ag_event _ _ Hag _ _ Hi).
    + destruct (other_key m p i j c d) as [Hk _]; [done..|]. rewrite lookup_insert_ne by done. cbn.
      by rewrite app_nil_r, (ag_event _ _ Hag _ _ Hd).
  - intros k Hk. apply lookup_insert_is_Some' in Hk as [<-|Hk]; [|by apply (ag_event_key _ _ Hag)].
    exists c. apply (ag_cluster _ _ Hag). by rewrite Hci.
Qed.

(** ** The orders of the listings *)

#[export] Instance cluster_le_total : Total cluster_le.
Proof.
  intros a b. unfold cluster_le. rewrite (String.eqb_sym (c_Owner b)).
  destruct (String.eqb _ _); apply string_le_total.
Qed.
#[export] Instance cluster_le_trans : Transitive cluster_le.
Proof.
  intros a b c. unfold cluster_le.
  destruct (String.eqb_spec (c_Owner a) (c_Owner b)) as [Hab|Hab];
    destruct (String.eqb_spec (c_Owner b) (c_Owner c)) as [Hbc|Hbc];
    destruct (String.eqb_spec (c_Owner a) (c_Owner c)) as [Hac|Hac]; intros Hle Hle'; try congruence; try by etrans.
  exfalso. rewrite <- Hac in Hle'. apply Hab. by apply (anti_symm String.le).
Qed.
#[export] Instance node_le_total : Total node_le.
Proof. intros a b. apply string_le_total. Qed.
#[export] Instance node_le_trans : Transitive node_le.
Proof. intros a b c. unfold node_le. intros; by etrans. Qed.

(** The values of a map whose keys they carry, without repetition. *)
Lemma NoDup_values {A} (g : gmap string A) (key_of : A -> string) :
  (forall k x, g !! k = Some x -> key_of x = k) -> NoDup (map_to_list g).*2.
Proof.
  intros Hk. apply NoDup_fmap_2_strong; [|apply NoDup_map_to_list].
  intros [k x] [k' x'] Hx%elem_of_map_to_list Hx'%elem_of_map_to_list Heq. simpl in Heq. subst x'. f_equal.
  transitivity (key_of x); [symmetry|]; eauto.
Qed.

Lemma elem_of_map_values {A} (g : gmap string A) x : x ∈ (map_to_list g).*2 <-> exists k, g !! k = Some x.
Proof.
  rewrite list_elem_of_fmap. split.
  - intros ([k y] & -> & Hy%elem_of_map_to_list). eauto.
  - intros [k Hk]. exists (k, x). split; [done|by apply elem_of_map_to_list].
Qed.

Section Reads.
Context (m : MemStore) (p : PGStore) (Hag : agree m p).

Lemma values_agree : (map_to_list (m_clusters m)).*2 ≡ₚ (map_to_list (p_clusters p)).*2.
Proof.
  apply NoDup_Permutation.
  - apply (NoDup_values _ (fun c => key (c_Owner c) (c_Name c))). intros k c Hc. by apply (ag_cluster _ _ Hag) in Hc as [-> _].
  - apply (NoDup_values _ c_ID). intros k c Hc. by apply (ag_row _ _ Hag) in Hc as [? _].
  - intros c. rewrite !elem_of_map_values. split.
    + intros [k Hc]. apply (ag_cluster _ _ Hag) in Hc as [_ Hc]. eauto.
    + intros [i Hi]. destruct (ag_row _ _ Hag _ _ Hi) as [<- _]. eexists. by apply (ag_cluster _ _ Hag).
Qed.

Lemma cluster_le_separates c d : c ∈ (map_to_list (m_clusters m)).*2 -> d ∈ (map_to_list (m_clusters m)).*2 ->
  cluster_le c d -> cluster_le d c -> c = d.
Proof.
  rewrite !elem_of_map_values. intros [k Hc] [k' Hd] Hle Hle'.
  assert (c_Owner c = c_Owner d /\ c_Name c = c_Name d) as [Ho Hn].
  { unfold cluster_le in *. rewrite (String.eqb_sym (c_Owner d)) in Hle'.
    destruct (String.eqb_spec (c_Owner c) (c_Owner d)) as [Heq|Hne];
      [split; [done|]|exfalso; apply Hne]; by apply (anti_symm String.le). }
  apply (ag_cluster _ _ Hag) in Hc as [_ Hc]. apply (ag_cluster _ _ Hag) in Hd as [_ Hd].
  assert (c_ID c = c_ID d) by (by eapply (ag_unique _ _ Hag)). congruence.
Qed.

Lemma list_agree owner : mem_List owner m = pg_List owner p.
Proof.
  unfold mem_List, pg_List, scanCluster. set (P := fun c => owner = "" \/ c_Owner c = owner).
  assert (Hsort : merge_sort cluster_le (filter P (map_to_list (m_clusters m)).*2) =
                  merge_sort cluster_le (filter P (map_to_list (p_clusters p)).*2)).
  { apply (merge_sort_agree _); [|by rewrite values_agree].
    intros c d [_ Hc]%list_elem_of_filter [_ Hd]%list_elem_of_filter. by apply cluster_le_separates. }
  rewrite Hsort. symmetry. rewrite <- (map_id (merge_sort _ _)) at 2. apply map_ext_in. intros c Hc.
  apply list_elem_of_In in Hc. rewrite merge_sort_Permutation in Hc. apply list_elem_of_filter in Hc as [_ Hc].
  apply elem_of_map_values in Hc as [i Hi]. by destruct (ag_row _ _ Hag _ _ Hi) as (_ & _ & ?).
Qed.

Lemma nodes_agree i c : p_clusters p !! i = Some c ->
  merge_sort node_le (filter (of_cluster (c_Owner c) (c_Name c)) (map_to_list (m_nodes m)).*2) =
  merge_sort node_le (map (fun '(vm, r) => node_of (c_Owner c) (c_Name c) vm r)
    (filter (fun '(_, r) => nr_cluster r = i) (map_to_list (p_nodes p)))).
Proof.
  intros Hi.
  assert (Hkey : forall vm n, m_nodes m !! vm = Some n -> n_VMName n = vm).
  { intros vm n Hn. by apply (ag_node _ _ Hag) in Hn as (r & d & _ & _ & ->). }
  apply (merge_sort_agree _).
  - intros x y [_ Hx]%list_elem_of_filter [_ Hy]%list_elem_of_filter Hle Hle'.
    apply elem_of_map_values in Hx as [vm Hx], Hy as [vm' Hy].
    assert (n_VMName x = n_VMName y) by (by apply (anti_symm String.le)).
    rewrite (Hkey _ _ Hx), (Hkey _ _ Hy) in *. congruence.
  - apply NoDup_Permutation.
    + by apply NoDup_filter, (NoDup_values _ n_VMName).
    + apply (NoDup_fmap_2_strong _ (filter _ _)); [|apply NoDup_filter, NoDup_map_to_list].
      intros [vm r] [vm' r'] [Hr _]%list_elem_of_filter [Hr' _]%list_elem_of_filter [= -> ? ? ? ?].
      destruct r, r'. simpl in *. congruence.
    + intros n. rewrite list_elem_of_filter, elem_of_map_values. setoid_rewrite (ag_node _ _ Hag). split.
      * intros ([Ho Hn] & vm & r & d & Hr & Hd & ->). cbn in Ho, Hn. apply list_elem_of_fmap. exists (vm, r).
        split; [by rewrite Ho, Hn|]. apply list_elem_of_filter. split; [|by apply elem_of_map_to_list].
        by eapply (ag_unique _ _ Hag).
      * intros ([vm r] & -> & [Hr Hin%elem_of_map_to_list]%list_elem_of_filter)%list_elem_of_fmap. subst i.
        split; [by split|]. exists vm, r, c. done.
Qed.
End Reads.

(** ** Calls *)

Lemma targets_agree group t groups : NoDup (g_Name <$> groups) -> target_first group t groups = target_all group t groups.
Proof.
  induction groups as [|g gs IH]; [done|]. cbn. intros [Hg Hnd]%NoDup_cons.
  destruct (String.eqb_spec (g_Name g) group) as [<-|Hne]; [|by rewrite IH].
  f_equal. clear -Hg. induction gs as [|h gs IH]; [done|]. cbn in *. apply not_elem_of_cons in Hg as [Hne Hg].
  destruct (String.eqb_spec (g_Name h) (g_Name g)) as [Heq|]; [congruence|]. by rewrite <- IH.
Qed.

Lemma target_all_names group t groups : g_Name <$> target_all group t groups = g_Name <$> groups.
Proof. induction groups as [|g gs IH]; [done|]. cbn. f_equal; [by destruct (String.eqb _ _)|done]. Qed.

(** What the callers of the store guarantee: names without a slash, groups present and
    distinct (ValidateName and ValidateNodeGroups), a fresh UUID. *)
Definition acceptable (op : store_op) (p : PGStore) : Prop :=
  match op with
  | OCreate c => plain c /\ p_clusters p !! c_ID c = None
  | OUpdateNodeGroups _ _ _ groups => groups_ok groups
  | _ => True
  end.

Fixpoint acceptable_all (ops : list store_op) (p : PGStore) : Prop :=
  match ops with [] => True | op :: ops => acceptable op p /\ acceptable_all ops (store_call op p).2 end.

Definition updates_agree (f f' : Cluster -> Cluster) : Prop :=
  keeps f /\ forall c, plain c -> f c = f' c.

Lemma keeps_fields c d : c_ID d = c_ID c -> c_Owner d = c_Owner c -> c_Name d = c_Name c ->
  c_NodeGroups d = c_NodeGroups c -> c_NodeIsolation d = c_NodeIsolation c ->
  c_ID d = c_ID c /\ c_Owner d = c_Owner c /\ c_Name d = c_Name c /\
    (groups_ok (c_NodeGroups c) -> groups_ok (c_NodeGroups d)) /\ c_NodeIsolation d = c_NodeIsolation c.
Proof. intros ? ? ? -> ?. done. Qed.

Lemma groups_ok_target group t groups : groups_ok groups -> groups_ok (target_first group t groups).
Proof.
  intros [Hne Hnd]. rewrite targets_agree by done. split; [by destruct groups|]. by rewrite target_all_names.
Qed.

(** The two lookups of [owner]/[name], side by side. *)
Ltac row_cases m p Hag owner name :=
  let Hr := fresh "Hr" in
  unfold clusterID; pose proof (row_of_cases m p Hag owner name) as Hr;
  destruct (row_of owner name p) as [[i c]|];
  [let Hm := fresh "Hm" in destruct Hr as (Hm & Hi & Hid & Ho & Hn); rewrite Hm|rewrite Hr]; cbn.

Definition same_effect (m' : option store_error * MemStore) (p' : option store_error * PGStore) : Prop :=
  m'.1 = p'.1 /\ agree m'.2 p'.2.

Lemma create_agree m p c :
  agree m p -> plain c -> p_clusters p !! c_ID c = None -> same_effect (mem_Create c m) (pg_Create c p).
Proof.
  intros Hag (Ho & Hn & Hg) Hid. unfold mem_Create, pg_Create.
  pose proof (row_of_cases m p Hag (c_Owner c) (c_Name c)) as Hr.
  destruct (row_of _ _ p) as [[i d]|] eqn:Hrow.
  - destruct Hr as (-> & _). rewrite bool_decide_true by (right; eauto). done.
  - rewrite Hr, bool_decide_false by (rewrite Hid; intros [[? ?]|[? ?]]; done). split; [done|]. by apply agree_create.
Qed.

Lemma update_agree m p owner name f f' :
  agree m p -> updates_agree f f' -> same_effect (mem_update owner name f m) (pg_update owner name f' p).
Proof.
  intros Hag [Hk Hf]. unfold mem_update, pg_update. row_cases m p Hag owner name; [|done].
  subst owner name. split; [done|]. cbn.
  destruct (ag_row _ _ Hag _ _ Hi) as (_ & Hp & _). rewrite <- (Hf c Hp). by apply agree_update.
Qed.

Lemma target_agree now m p owner name group t :
  agree m p ->
  same_effect (mem_SetNodeGroupTarget now owner name group t m) (pg_SetNodeGroupTarget now owner name group t p).
Proof.
  intros Hag. unfold mem_SetNodeGroupTarget, pg_SetNodeGroupTarget.
  assert (Hu : updates_agree (fun c => set_groups (target_first group t (c_NodeGroups c)) now c)
                 (fun c => set_groups (target_all group t (c_NodeGroups c)) now c)).
  { split; [intros c; cbn; split_and!; try done; apply groups_ok_target|].
    intros c (_ & _ & _ & Hnd). by rewrite targets_agree. }
  pose proof (update_agree m p owner name _ _ Hag Hu) as Hsame.
  pose proof (row_of_cases m p Hag owner name) as Hr. destruct (row_of owner name p) as [[i c]|] eqn:Hrow.
  - destruct Hr as (_ & Hi & _). destruct (ag_row _ _ Hag _ _ Hi) as (_ & (_ & _ & Hne & _) & _).
    by destruct (c_NodeGroups c) eqn:Hgs.
  - unfold mem_update. by rewrite Hr.
Qed.

Lemma delete_node_agree m p owner name vmName :
  agree m p -> same_effect (mem_DeleteNode owner name vmName m) (pg_DeleteNode owner name vmName p).
Proof.
  intros Hag. unfold mem_DeleteNode, pg_DeleteNode, clusterID. pose proof (row_of_cases m p Hag owner name) as Hr.
  destruct (m_nodes m !! vmName) as [n|] eqn:Hn.
  - apply (ag_node _ _ Hag) in Hn as (r & d & Hnr & Hd & ->). cbn.
    destruct (row_of _ _ p) as [[i c]|]; cbn.
    + destruct Hr as (_ & Hi & _ & <- & <-). rewrite Hnr. destruct (String.eqb_spec (nr_cluster r) i) as [<-|Hne].
      { simplify_eq. rewrite !String.eqb_refl. split; [done|]. by apply agree_delete_node. }
      assert (~ (c_Owner d = c_Owner c /\ c_Name d = c_Name c)) by (by apply (other_key m p i (nr_cluster r))).
      destruct (String.eqb_spec (c_Owner d) (c_Owner c)), (String.eqb_spec (c_Name d) (c_Name c)); try done. tauto.
    + destruct (String.eqb_spec (c_Owner d) owner) as [<-|]; [|done].
      destruct (String.eqb_spec (c_Name d) name) as [<-|]; [|done]. exfalso.
      assert (m_clusters m !! key (c_Owner d) (c_Name d) = Some d); [|congruence].
      apply (ag_cluster _ _ Hag). split; [done|]. by destruct (ag_row _ _ Hag _ _ Hd) as [-> _].
  - destruct (row_of _ _ p) as [[i c]|]; [cbn|done]. destruct (p_nodes p !! vmName) as [r|] eqn:Hnr; [|done].
    exfalso. destruct (ag_fk _ _ Hag _ _ Hnr) as [d Hd].
    assert (m_nodes m !! vmName = Some (node_of (c_Owner d) (c_Name d) vmName r)); [|congruence].
    apply (ag_node _ _ Hag). eauto.
Qed.

(** One call: the same answer, and states that still agree. *)
Definition call_agrees (op : store_op) (m : MemStore) (p : PGStore) : Prop :=
  (store_call op m).1 = (store_call op p).1 /\ agree (store_call op m).2 (store_call op p).2.

Lemma write_agrees op m p m' p' :
  same_effect m' p' -> store_call op m = (AErr m'.1, m'.2) -> store_call op p = (AErr p'.1, p'.2) -> call_agrees op m p.
Proof. intros [H1 H2] Hm Hp. unfold call_agrees. rewrite Hm, Hp. cbn. by rewrite H1. Qed.

Lemma call_agree op m p : agree m p -> acceptable op p -> call_agrees op m p.
Proof.
  intros Hag Hok.
  destruct op; try (eapply write_agrees; [|reflexivity..]; cbn -[mem_update pg_update]).
  - destruct Hok as [Hp Hid]. by apply create_agree.
  - (* Get *)
    split; [|done]. cbn. f_equal. unfold mem_Get, pg_Get. row_cases m p Hag owner name; [|done].
    destruct (ag_row _ _ Hag _ _ Hi) as (_ & _ & His). unfold scanCluster. by rewrite His.
  - split; [|done]. cbn. f_equal. by apply list_agree.
  - apply update_agree; [done|]. split; [|done]. intros d. by apply keeps_fields.
  - apply update_agree; [done|]. split; [|done]. intros d. by apply keeps_fields.
  - apply update_agree; [done|]. split; [|done]. by intros d.
  - by apply target_agree.
  - unfold mem_Delete, pg_Delete. row_cases m p Hag owner name; [|done]. subst. split; [done|]. by apply agree_delete.
  - unfold mem_UpsertNode, pg_UpsertNode. row_cases m p Hag (n_Owner n) (n_Cluster n); [|done].
    split; [done|]. by eapply agree_upsert.
  - (* ListNodes *)
    split; [|done]. cbn. f_equal. unfold mem_ListNodes, pg_ListNodes. row_cases m p Hag owner name; [|done].
    subst. f_equal. by apply nodes_agree.
  - by apply delete_node_agree.
  - unfold mem_AppendEvent, pg_AppendEvent. row_cases m p Hag owner name; [|done]. subst. split; [done|]. by apply agree_event.
  - (* ListEvents *)
    split; [|done]. cbn. f_equal. unfold mem_ListEvents, pg_ListEvents. row_cases m p Hag owner name; [|done].
    subst. by rewrite (ag_event _ _ Hag _ _ Hi).
Qed.

Lemma empty_agree : agree NewMemStore (mkPg ∅ ∅ []).
Proof.
  split; cbn.
  - intros i c Hc. by rewrite lookup_empty in Hc.
  - intros i j c d Hc. by rewrite lookup_empty in Hc.
  - intros k c. rewrite !lookup_empty. naive_solver.
  - intros vm n. rewrite lookup_empty. split; [done|]. intros (r & c & Hr & _). by rewrite lookup_empty in Hr.
  - intros vm r Hr. by rewrite lookup_empty in Hr.
  - intros i e Hin. by apply elem_of_nil in Hin.
  - intros i c Hc. by rewrite lookup_empty in Hc.
  - intros k [x Hx]. by rewrite lookup_empty in Hx.
Qed.

Lemma calls_agree ops m p :
  agree m p -> acceptable_all ops p -> (store_calls ops m).1 = (store_calls ops p).1.
Proof.
  revert m p. induction ops as [|op ops IH]; intros m p Hag; [done|]. intros [Hok Hops]. cbn.
  destruct (call_agree op m p Hag Hok) as [Ha Hst]. specialize (IH _ _ Hst Hops).
  destruct (store_call op m) as [a m'], (store_call op p) as [b p']. cbn in *.
  destruct (store_calls ops m'), (store_calls ops p'). cbn in *. by subst.
Qed.

(** ** The theorem *)

(** The in-memory cluster store and the Postgres one cannot be told apart: over any
    sequence of calls in which created clusters have slash-free names, distinct node groups
    and a fresh id, they give the same answers, errors, lists and their orders included;
    deletion cascades, an upsert replaces the whole node, and the target of a group is set
    by the loop exactly as by the JSON update. *)
Theorem stores_agree (ops : list store_op) :
  acceptable_all ops (mkPg ∅ ∅ []) ->
  (store_calls ops NewMemStore).1 = (store_calls ops (mkPg ∅ ∅ [])).1.
Proof. apply calls_agree, empty_agree. Qed.

Definition demo_group (name : string) : NodeGroup := mkGroup name (mkSize "2" "4GB" "20GB") 1 3 0.
Definition demo_cluster (id owner name : string) : Cluster :=
  mkCluster id owner name StateProvisioning "" "v1" "" [demo_group "small"; demo_group "big"] "" 0 0.
Definition demo_node (owner name vm : string) : Node := mkNode owner name vm RoleWorker "small" NodeStateReady 0.

Definition demo_ops : list store_op :=
  [OCreate (demo_cluster "2" "bob" "b"); OCreate (demo_cluster "1" "alice" "a");
   OUpsertNode (demo_node "alice" "a" "vm2"); OUpsertNode (demo_node "alice" "a" "vm1");
   OSetNodeGroupTarget 5 "alice" "a" "big" 3; OAppendEvent "alice" "a" (mkEvent 1 EventScaleUp "big" "r");
   OGet "alice" "a"; OList ""; OListNodes "alice" "a"; ODelete "alice" "a"; OListNodes "alice" "a"; OList ""].

Lemma stores_agree_witness :
  (store_calls demo_ops NewMemStore).1 = (store_calls demo_ops (mkPg ∅ ∅ [])).1 /\
  (store_calls demo_ops NewMemStore).1 !! 8%nat =
    Some (ANodes (inl [demo_node "alice" "a" "vm1"; demo_node "alice" "a" "vm2"])) /\
  (store_calls demo_ops NewMemStore).1 !! 10%nat = Some (ANodes (inr ErrNotFound)).
Proof.
  split; [|split; vm_compute; reflexivity]. apply stores_agree.
  assert (Hg : groups_ok [demo_group "small"; demo_group "big"]) by (split; [done|by apply (bool_decide_unpack _)]).
  assert (Hb : plain (demo_cluster "2" "bob" "b")) by (split; [|split]; [reflexivity..|exact Hg]).
  assert (Ha : plain (demo_cluster "1" "alice" "a")) by (split; [|split]; [reflexivity..|exact Hg]).
  cbn [acceptable_all demo_ops acceptable]. split; [split; [exact Hb|vm_compute; reflexivity]|].
  split; [split; [exact Ha|vm_compute; reflexivity]|]. tauto.
Defined.
