(* ===== verification/ClusterDecide.v ===== *)
(** * pkg/core/cluster/reconcile.go: what one pass should do

    [Decide] compares a cluster's desired shape with the VMs on the host.  The second
    half says what repeated passes lead to on a host that carries out every action. *)

From S2P Require Import Prelude GoStrings GoStrconv Cluster.
From Stdlib Require Import Ascii.
#[local] Open Scope string_scope.
#[local] Open Scope list_scope.
#[local] Open Scope Z_scope.

Record DesiredGroup := mkDesiredGroup {
  dg_Name : string; dg_Min : Z; dg_Max : Z; dg_CPU : string; dg_Memory : string; dg_Disk : string
}.

Record Desired := mkDesired {
  ds_Tenant : string; ds_Cluster : string; ds_Deleting : bool; ds_Groups : list DesiredGroup
}.

Record ObservedVM := mkVM { vm_Name : string; vm_Running : bool }.

Record Observed := mkObserved { ob_CP : option ObservedVM; ob_Workers : gmap string (list ObservedVM) }.

Inductive ActionKind := ActionCreateCP | ActionStartVM | ActionCreateWorker | ActionDeleteVM.

#[export] Instance action_kind_eq_dec : EqDecision ActionKind.
Proof. solve_decision. Defined.

Record Action := mkAction { a_Kind : ActionKind; a_Group : string; a_Name : string }.

(** A missing key reads as nil. *)
Definition workers (o : Observed) (group : string) : list ObservedVM := default [] (ob_Workers o !! group).

Definition sortedKeys (m : gmap string (list ObservedVM)) : list string := merge_sort String.le (elements (dom m)).

(** The loop that tries [n], [n+1], ... until enough workers are alive. *)
Fixpoint create_loop (fuel : nat) (tenant clusterName group : string) (min : Z) (inUse : gset string)
  (alive n : Z) : list Action :=
  match fuel with
  | O => []
  | S fuel =>
      if alive <? min then
        let name := WorkerName tenant clusterName group n in
        if bool_decide (name ∈ inUse) then create_loop fuel tenant clusterName group min inUse alive (n + 1)
        else mkAction ActionCreateWorker group name
             :: create_loop fuel tenant clusterName group min ({[name]} ∪ inUse) (alive + 1) (n + 1)
      else []
  end.

(** Every round of the loop creates a worker or passes over an observed name. *)
Definition create_fuel (min : Z) (observed : list ObservedVM) : nat := Z.to_nat min + length observed.

Definition decide_group (tenant clusterName : string) (o : Observed) (g : DesiredGroup) : list Action :=
  let observed := workers o (dg_Name g) in
  map (fun w => mkAction ActionStartVM (dg_Name g) (vm_Name w)) (filter (fun w => vm_Running w = false) observed)
  ++ create_loop (create_fuel (dg_Min g) observed) tenant clusterName (dg_Name g) (dg_Min g)
       (list_to_set (vm_Name <$> observed)) (Z.of_nat (length observed)) 1.

Definition Decide (d : Desired) (o : Observed) : list Action :=
  if ds_Deleting d then
    concat (map (fun g => map (fun w => mkAction ActionDeleteVM g (vm_Name w)) (workers o g)) (sortedKeys (ob_Workers o)))
    ++ match ob_CP o with Some cp => [mkAction ActionDeleteVM "" (vm_Name cp)] | None => [] end
  else
    match ob_CP o with
    | None => [mkAction ActionCreateCP "" (CPName (ds_Tenant d) (ds_Cluster d))]
    | Some cp =>
        if negb (vm_Running cp) then [mkAction ActionStartVM "" (vm_Name cp)]
        else concat (map (decide_group (ds_Tenant d) (ds_Cluster d) o) (ds_Groups d))
    end.

(** ** Worker names *)

Lemma WorkerName_inj tenant clusterName group n m :
  WorkerName tenant clusterName group n = WorkerName tenant clusterName group m -> n = m.
Proof. unfold WorkerName. intros H. repeat apply string_app_inj_l in H. by apply Itoa_inj. Qed.

(** The names of two clusters of one tenant can be the same. *)
Example worker_names_collide :
  Forall (fun n => ValidateName n = true) ["c"; "c-a"; "a-b"; "b"] /\
  WorkerName "t" "c" "a-b" 1 = WorkerName "t" "c-a" "b" 1.
Proof. split; [repeat constructor|]; vm_compute; reflexivity. Qed.

(** ** The creation loop *)

Section Loop.
Context (tenant clusterName group : string) (min : Z).

Abbreviation name := (WorkerName tenant clusterName group) (only parsing).

(** The names observed with a number of at least [n]. *)
Definition ahead (inUse : gset string) (n : Z) (k : nat) : Prop :=
  forall l : list Z, NoDup l -> Forall (fun m => n <= m /\ name m ∈ inUse) l -> (length l <= k)%nat.

Lemma ahead_next inUse n k : ahead inUse n k -> ahead inUse (n + 1) k.
Proof. intros H l Hnd Hl. apply H; [done|]. eapply Forall_impl; [exact Hl|]. intros m [? ?]. split; [lia|done]. Qed.

Lemma ahead_skip inUse n k : name n ∈ inUse -> ahead inUse n k -> exists k', k = S k' /\ ahead inUse (n + 1) k'.
Proof.
  intros Hn H.
  assert (forall l, NoDup l -> Forall (fun m => n + 1 <= m /\ name m ∈ inUse) l -> (S (length l) <= k)%nat) as Hs.
  { intros l Hnd Hl. apply (H (n :: l)).
    - constructor; [|done]. intros Hin. rewrite Forall_forall in Hl. specialize (Hl n Hin). lia.
    - constructor; [split; [lia|done]|]. eapply Forall_impl; [exact Hl|]. intros m [? ?]. split; [lia|done]. }
  destruct k as [|k]; [exfalso; specialize (Hs [] (NoDup_nil_2) (Forall_nil_2 _)); lia|].
  exists k. split; [done|]. intros l Hnd Hl. specialize (Hs l Hnd Hl). lia.
Qed.

Lemma ahead_new inUse n k : ahead inUse n k -> ahead ({[name n]} ∪ inUse) (n + 1) k.
Proof.
  intros H l Hnd Hl. apply H; [done|]. eapply Forall_impl; [exact Hl|].
  intros m [? [->%elem_of_singleton%WorkerName_inj|?]%elem_of_union]; [lia|]. split; [lia|done].
Qed.

(** With enough fuel the loop creates what is missing, under distinct unused names. *)
Lemma create_loop_spec fuel inUse alive n k :
  ahead inUse n k -> (Z.to_nat (min - alive) + k <= fuel)%nat ->
  exists ns, create_loop fuel tenant clusterName group min inUse alive n
               = map (fun m => mkAction ActionCreateWorker group (name m)) ns /\
    length ns = Z.to_nat (min - alive) /\ NoDup ns /\ Forall (fun m => n <= m /\ name m ∉ inUse) ns.
Proof.
  revert inUse alive n k. induction fuel as [|fuel IH]; intros inUse alive n k Ha Hf; simpl.
  - exists []. split_and!; try constructor. simpl. lia.
  - destruct (Z.ltb_spec alive min) as [Hlt|Hge].
    + case_bool_decide as Hin.
      * destruct (ahead_skip _ _ _ Hin Ha) as (k' & -> & Ha').
        destruct (IH inUse alive (n + 1) k' Ha' ltac:(lia)) as (ns & -> & Hl & Hnd & Hall).
        exists ns. split_and!; try done. eapply Forall_impl; [exact Hall|]. intros m [? ?]. split; [lia|done].
      * destruct (IH ({[name n]} ∪ inUse) (alive + 1) (n + 1) k (ahead_new _ _ _ Ha) ltac:(lia))
          as (ns & -> & Hl & Hnd & Hall).
        exists (n :: ns). split_and!; simpl; [done|lia| |].
        -- constructor; [|done]. intros Hn. rewrite Forall_forall in Hall. specialize (Hall n Hn). lia.
        -- constructor; [split; [lia|done]|]. eapply Forall_impl; [exact Hall|]. intros m [? ?]. split; [lia|set_solver].
    + exists []. split_and!; try constructor. simpl. lia.
Qed.

Lemma ahead_start (observed : list ObservedVM) n :
  ahead (list_to_set (vm_Name <$> observed)) n (length observed).
Proof.
  intros l Hnd Hl. rewrite <- (length_fmap vm_Name), <- (length_fmap name l). apply submseteq_length, NoDup_submseteq.
  - apply NoDup_fmap_2; [|done]. intros x y. apply WorkerName_inj.
  - intros x (m & -> & Hm)%list_elem_of_fmap. rewrite Forall_forall in Hl. destruct (Hl m Hm) as [_ Hin].
    by apply elem_of_list_to_set in Hin.
Qed.
End Loop.

(** ** One group *)

Definition stopped (w : ObservedVM) : Prop := vm_Running w = false.

#[export] Instance stopped_dec w : Decision (stopped w).
Proof. unfold stopped. apply _. Defined.

(** The numbers of the workers that a group is missing. *)
Definition creates (tenant clusterName : string) (g : DesiredGroup) (observed : list ObservedVM) (ns : list Z) : Prop :=
  length ns = Z.to_nat (dg_Min g - Z.of_nat (length observed)) /\ NoDup ns /\
  Forall (fun n => 1 <= n /\ WorkerName tenant clusterName (dg_Name g) n ∉ (vm_Name <$> observed)) ns.

Lemma decide_group_spec tenant clusterName o g :
  exists ns, creates tenant clusterName g (workers o (dg_Name g)) ns /\
    decide_group tenant clusterName o g =
      map (fun w => mkAction ActionStartVM (dg_Name g) (vm_Name w)) (filter stopped (workers o (dg_Name g)))
      ++ map (fun n => mkAction ActionCreateWorker (dg_Name g) (WorkerName tenant clusterName (dg_Name g) n)) ns.
Proof.
  set (observed := workers o (dg_Name g)).
  destruct (create_loop_spec tenant clusterName (dg_Name g) (dg_Min g) (create_fuel (dg_Min g) observed)
              (list_to_set (vm_Name <$> observed)) (Z.of_nat (length observed)) 1 (length observed)
              (ahead_start _ _ _ _ _)) as (ns & Heq & Hlen & Hnd & Hall); [unfold create_fuel; lia|].
  exists ns. split.
  - split_and!; [done|done|]. eapply Forall_impl; [exact Hall|]. intros n [? Hn]. split; [done|].
    by rewrite elem_of_list_to_set in Hn.
  - unfold decide_group. fold observed. by rewrite Heq.
Qed.

(** What [Decide] does, case by case. *)
Definition tears_down (o : Observed) (acts : list Action) : Prop :=
  Forall (fun a => a_Kind a = ActionDeleteVM) acts /\
  (forall g w, w ∈ workers o g -> mkAction ActionDeleteVM g (vm_Name w) ∈ acts) /\
  (forall a, a ∈ acts -> (exists w, w ∈ workers o (a_Group a) /\ vm_Name w = a_Name a) \/
                         (exists cp, ob_CP o = Some cp /\ a = mkAction ActionDeleteVM "" (vm_Name cp))) /\
  (forall cp, ob_CP o = Some cp -> last acts = Some (mkAction ActionDeleteVM "" (vm_Name cp))).

Lemma tear_down o d : ds_Deleting d = true -> tears_down o (Decide d o).
Proof.
  intros Hd. unfold Decide. rewrite Hd. set (ws := concat _).
  assert (Hws : forall a, a ∈ ws <-> exists g w, w ∈ workers o g /\ a = mkAction ActionDeleteVM g (vm_Name w)).
  { intros a. unfold ws. rewrite list_elem_of_In, in_concat. split.
    - intros (l & Hl & Ha). apply in_map_iff in Hl as (g & <- & _). apply in_map_iff in Ha as (w & <- & Hw).
      exists g, w. split; [by apply list_elem_of_In|done].
    - intros (g & w & Hw & ->). exists (map (fun w => mkAction ActionDeleteVM g (vm_Name w)) (workers o g)). split.
      + apply in_map_iff. exists g. split; [done|]. apply list_elem_of_In.
        unfold sortedKeys. rewrite (merge_sort_Permutation String.le). apply elem_of_elements, elem_of_dom.
        unfold workers in Hw. destruct (_ !! g); [done|]. by apply elem_of_nil in Hw.
      + apply in_map_iff. exists w. split; [done|]. by apply list_elem_of_In. }
  split_and!.
  - apply Forall_app. split.
    + apply Forall_forall. by intros a (g & w & _ & ->)%Hws.
    + destruct (ob_CP o); repeat constructor.
  - intros g w Hw. apply elem_of_app. left. apply Hws. eauto.
  - intros a [(g & w & Hw & ->)%Hws|Ha]%elem_of_app; [left; eauto|]. right. destruct (ob_CP o) as [cp|].
    + exists cp. by apply list_elem_of_singleton in Ha.
    + by apply elem_of_nil in Ha.
  - intros cp ->. by rewrite last_snoc.
Qed.

(** The decision of one pass, for every desired shape and observation.
    (1) A deleting cluster: only deletions, every worker among them, nothing but observed VMs,
    and the control plane last.
    (2) No control plane: it is created, and nothing else is done, so that no worker is created before it.
    (3) A stopped control plane: it is started, and nothing else is done.
    (4) A running one: group by group, exactly the stopped workers are started and exactly
    the workers missing to the group's minimum are created, under distinct numbered names that no
    observed worker of the group has.  Nothing is deleted, and a group above its minimum
    is left alone. *)
Theorem Decide_reconciles d o :
  if ds_Deleting d then tears_down o (Decide d o)
  else match ob_CP o with
       | None => Decide d o = [mkAction ActionCreateCP "" (CPName (ds_Tenant d) (ds_Cluster d))]
       | Some (mkVM cp false) => Decide d o = [mkAction ActionStartVM "" cp]
       | Some (mkVM _ true) =>
           exists nss : list (list Z),
             Forall2 (fun g ns => creates (ds_Tenant d) (ds_Cluster d) g (workers o (dg_Name g)) ns) (ds_Groups d) nss /\
             Decide d o = concat (zip_with (fun g ns =>
               map (fun w => mkAction ActionStartVM (dg_Name g) (vm_Name w)) (filter stopped (workers o (dg_Name g)))
               ++ map (fun n => mkAction ActionCreateWorker (dg_Name g)
                                  (WorkerName (ds_Tenant d) (ds_Cluster d) (dg_Name g) n)) ns) (ds_Groups d) nss)
       end.
Proof.
  destruct (ds_Deleting d) eqn:Hd; [by apply tear_down|].
  unfold Decide. rewrite Hd. destruct (ob_CP o) as [[cp []]|]; [|done|done]. cbn [negb vm_Running].
  induction (ds_Groups d) as [|g gs (nss & Hnss & Heq)]; [by exists []|].
  destruct (decide_group_spec (ds_Tenant d) (ds_Cluster d) o g) as (ns & Hns & Hg).
  exists (ns :: nss). split; [by constructor|]. cbn [map concat zip_with]. by rewrite Hg, Heq.
Qed.

(** ** Repeated passes

    A host that carries out every action of a pass: a created VM runs, a started one
    runs, a deleted one is gone. *)

Definition runs_as (n : string) (w : ObservedVM) : ObservedVM :=
  if String.eqb (vm_Name w) n then mkVM (vm_Name w) true else w.

Definition perform (o : Observed) (a : Action) : Observed :=
  match a_Kind a with
  | ActionCreateCP => mkObserved (Some (mkVM (a_Name a) true)) (ob_Workers o)
  | ActionStartVM => mkObserved (runs_as (a_Name a) <$> ob_CP o) (map (runs_as (a_Name a)) <$> ob_Workers o)
  | ActionCreateWorker =>
      mkObserved (ob_CP o) (<[a_Group a := workers o (a_Group a) ++ [mkVM (a_Name a) true]]> (ob_Workers o))
  | ActionDeleteVM =>
      mkObserved (ob_CP o ≫= fun cp => if String.eqb (vm_Name cp) (a_Name a) then None else Some cp)
        (filter (fun w => vm_Name w <> a_Name a) <$> ob_Workers o)
  end.

Definition pass (d : Desired) (o : Observed) : Observed := foldl perform o (Decide d o).

(** The cluster is as desired. *)
Definition settled_as (d : Desired) (o : Observed) : Prop :=
  if ds_Deleting d then ob_CP o = None /\ forall g, workers o g = []
  else (exists cp, ob_CP o = Some cp /\ vm_Running cp = true) /\
       forall g, g ∈ ds_Groups d ->
         Forall (fun w => vm_Running w = true) (workers o (dg_Name g)) /\
         dg_Min g <= Z.of_nat (length (workers o (dg_Name g))).

Definition builds (a : Action) : Prop := a_Kind a = ActionStartVM \/ a_Kind a = ActionCreateWorker.

Lemma workers_start o n g :
  workers (mkObserved (runs_as n <$> ob_CP o) (map (runs_as n) <$> ob_Workers o)) g = map (runs_as n) (workers o g).
Proof. unfold workers. cbn. rewrite lookup_fmap. by destruct (ob_Workers o !! g). Qed.

Lemma perform_workers o a g :
  builds a ->
  workers (perform o a) g
  = (if decide (a_Kind a = ActionStartVM) then map (runs_as (a_Name a)) (workers o g) else workers o g)
    ++ (if decide (a_Kind a = ActionCreateWorker /\ a_Group a = g) then [mkVM (a_Name a) true] else []).
Proof.
  intros Hb. unfold perform. destruct a as [k ga n]. cbn. destruct Hb as [Hk|Hk]; cbn in Hk; subst k.
  - rewrite workers_start, app_nil_r. by rewrite decide_True.
  - rewrite decide_False by done. unfold workers at 1. cbn. destruct (decide (ga = g)) as [->|Hne].
    + rewrite lookup_insert_eq, decide_True by done. done.
    + rewrite lookup_insert_ne, decide_False by naive_solver. by rewrite app_nil_r.
Qed.

Definition created_in (g : string) (a : Action) : Prop := a_Kind a = ActionCreateWorker /\ a_Group a = g.

#[export] Instance created_in_dec g a : Decision (created_in g a).
Proof. unfold created_in. apply _. Defined.

Lemma built_length acts o g :
  Forall builds acts ->
  length (workers (foldl perform o acts) g) = (length (workers o g) + length (filter (created_in g) acts))%nat.
Proof.
  intros Hb. revert o. induction Hb as [|a acts Ha Hb IH]; intros o; cbn [foldl]; [cbn; lia|].
  rewrite IH, perform_workers, length_app by done. rewrite (filter_cons _ a).
  destruct (decide (created_in g a)) as [Hc|Hc]; [rewrite (decide_True (P := _ /\ _)) by exact Hc|
    rewrite (decide_False (P := _ /\ _)) by exact Hc];
    destruct (decide (a_Kind a = ActionStartVM)) as [Hs|Hs]; rewrite ?length_map; cbn; lia.
Qed.

(** A VM that is stopped after the pass was stopped before, and nobody started it. *)
Lemma built_stopped acts o g w :
  Forall builds acts -> w ∈ workers (foldl perform o acts) g -> stopped w ->
  w ∈ workers o g /\ forall a, a ∈ acts -> a_Kind a = ActionStartVM -> a_Name a <> vm_Name w.
Proof.
  intros Hb. revert o. induction Hb as [|a acts Ha Hb IH]; intros o Hw Hs; cbn [foldl] in Hw.
  { split; [done|]. by intros a ?%elem_of_nil. }
  destruct (IH _ Hw Hs) as [Hin Hnone]. rewrite perform_workers in Hin by done.
  apply elem_of_app in Hin as [Hin|Hin].
  2: { case_decide; [|by apply elem_of_nil in Hin]. apply list_elem_of_singleton in Hin as ->. done. }
  case_decide as Hk.
  - apply list_elem_of_fmap in Hin as (x & -> & Hx). unfold runs_as in *.
    destruct (String.eqb_spec (vm_Name x) (a_Name a)) as [He|Hne]; [done|].
    split; [done|]. intros b [->|Hbn]%elem_of_cons Hbk; [congruence|by apply Hnone].
  - split; [done|]. intros b [->|Hbn]%elem_of_cons Hbk; [done|by apply Hnone].
Qed.

Lemma built_CP acts o cp :
  Forall builds acts -> ob_CP o = Some cp -> vm_Running cp = true ->
  exists cp', ob_CP (foldl perform o acts) = Some cp' /\ vm_Running cp' = true.
Proof.
  intros Hb. revert o cp. induction Hb as [|a acts Ha Hb IH]; intros o cp Hcp Hr; cbn [foldl]; [eauto|].
  assert (exists cp', ob_CP (perform o a) = Some cp' /\ vm_Running cp' = true) as (cp' & ? & ?); [|by eapply IH].
  unfold perform. destruct Ha as [Hk|Hk]; rewrite Hk; cbn; rewrite Hcp; cbn; [|eauto].
  unfold runs_as. destruct (String.eqb _ _); eauto.
Qed.

(** ** Convergence *)

Lemma decide_builds d o cp :
  ds_Deleting d = false -> ob_CP o = Some cp -> vm_Running cp = true -> Forall builds (Decide d o).
Proof.
  intros Hd Hcp Hr. unfold Decide. rewrite Hd, Hcp, Hr. cbn. apply Forall_forall. intros a Ha.
  apply list_elem_of_In, in_concat in Ha as (l & Hl & Ha). apply in_map_iff in Hl as (g & <- & _).
  destruct (decide_group_spec (ds_Tenant d) (ds_Cluster d) o g) as (ns & _ & Hg). rewrite Hg in Ha.
  apply list_elem_of_In, elem_of_app in Ha as [(w & -> & _)%list_elem_of_fmap|(n & -> & _)%list_elem_of_fmap];
    [by left|by right].
Qed.

(** What the pass does for one of the desired groups. *)
Lemma decide_group_in d o cp g a :
  ds_Deleting d = false -> ob_CP o = Some cp -> vm_Running cp = true -> g ∈ ds_Groups d ->
  a ∈ decide_group (ds_Tenant d) (ds_Cluster d) o g -> a ∈ Decide d o.
Proof.
  intros Hd Hcp Hr Hg Ha. unfold Decide. rewrite Hd, Hcp, Hr. cbn.
  apply list_elem_of_In, in_concat. eexists. split; [apply in_map, list_elem_of_In, Hg|by apply list_elem_of_In].
Qed.

Lemma decide_created d o cp g :
  ds_Deleting d = false -> ob_CP o = Some cp -> vm_Running cp = true -> g ∈ ds_Groups d ->
  (Z.to_nat (dg_Min g - Z.of_nat (length (workers o (dg_Name g))))
   <= length (filter (created_in (dg_Name g)) (Decide d o)))%nat.
Proof.
  intros Hd Hcp Hr Hg. unfold Decide. rewrite Hd, Hcp, Hr. cbn.
  destruct (decide_group_spec (ds_Tenant d) (ds_Cluster d) o g) as (ns & (Hlen & _) & Heq).
  rewrite <- Hlen. clear Hlen. induction Hg as [g gs|g g' gs Hg IH]; cbn [map concat]; rewrite filter_app, length_app;
    [|specialize (IH Heq); lia].
  enough (length ns <= length (filter (created_in (dg_Name g)) (decide_group (ds_Tenant d) (ds_Cluster d) o g)))%nat by lia.
  rewrite Heq, filter_app, length_app. etransitivity; [|apply Nat.le_add_l]. clear.
  induction ns as [|n ns IH]; [done|]. cbn [map]. rewrite filter_cons_True by done. cbn. lia.
Qed.

(** With the control plane running, one pass is enough. *)
Lemma pass_settles d o cp :
  ds_Deleting d = false -> ob_CP o = Some cp -> vm_Running cp = true -> settled_as d (pass d o).
Proof.
  intros Hd Hcp Hr. unfold settled_as, pass. rewrite Hd.
  pose proof (decide_builds d o cp Hd Hcp Hr) as Hb. split; [by eapply built_CP|].
  intros g Hg. split.
  - apply Forall_forall. intros w Hw. destruct (vm_Running w) eqn:Hs; [done|exfalso].
    destruct (built_stopped _ _ _ _ Hb Hw Hs) as [Hin Hnone].
    apply (Hnone (mkAction ActionStartVM (dg_Name g) (vm_Name w))); [|done|done].
    eapply decide_group_in; [done..|].
    destruct (decide_group_spec (ds_Tenant d) (ds_Cluster d) o g) as (ns & _ & ->). apply elem_of_app. left.
    apply (list_elem_of_fmap_2 (fun w => mkAction ActionStartVM (dg_Name g) (vm_Name w))), list_elem_of_filter. done.
  - rewrite built_length by done. pose proof (decide_created d o cp g Hd Hcp Hr Hg). lia.
Qed.

Lemma settled_done d o : settled_as d o -> Decide d o = [].
Proof.
  unfold settled_as, Decide. destruct (ds_Deleting d).
  - intros [-> Hw]. rewrite app_nil_r. induction (sortedKeys _) as [|g gs IH]; [done|]. cbn. by rewrite Hw, IH.
  - intros [(cp & -> & ->) Hg]. cbn. induction (ds_Groups d) as [|g gs IH]; [done|]. cbn [map concat].
    rewrite IH by (intros x Hx; apply Hg; by right). rewrite app_nil_r.
    destruct (Hg g ltac:(by left)) as [Hall Hmin].
    destruct (decide_group_spec (ds_Tenant d) (ds_Cluster d) o g) as (ns & (Hlen & _) & ->).
    assert (filter stopped (workers o (dg_Name g)) = []) as ->.
    { clear -Hall. induction Hall as [|w l Hw Hall IH]; [done|]. by rewrite filter_cons_False by (unfold stopped; congruence). }
    destruct ns; [done|]. cbn in Hlen. lia.
Qed.

Lemma pass_deletes d o : ds_Deleting d = true -> settled_as d (pass d o).
Proof.
  intros Hd. unfold settled_as, pass. rewrite Hd. pose proof (tear_down o d Hd) as (Hdel & Hall & _ & Hlast).
  assert (Hgone : forall acts o, Forall (fun a => a_Kind a = ActionDeleteVM) acts ->
    (forall cp, ob_CP (foldl perform o acts) = Some cp ->
       ob_CP o = Some cp /\ forall a, a ∈ acts -> a_Name a <> vm_Name cp) /\
    (forall g w, w ∈ workers (foldl perform o acts) g -> w ∈ workers o g /\ forall a, a ∈ acts -> a_Name a <> vm_Name w)).
  { clear. intros acts o Hacts. revert o. induction Hacts as [|a acts Ha Hacts IH]; intros o; cbn [foldl].
    { split; [intros cp ->|]; intros; (split; [done|]); by intros ? ?%elem_of_nil. }
    destruct (IH (perform o a)) as [IH1 IH2]. unfold perform in IH1, IH2. unfold perform. rewrite Ha in *. split.
    - intros cp [Hcp Hn]%IH1. cbn in Hcp. destruct (ob_CP o) as [cp'|]; [|done]. cbn in Hcp.
      destruct (String.eqb_spec (vm_Name cp') (a_Name a)); [done|]. simplify_eq. split; [done|].
      intros b [->|Hb]%elem_of_cons; [congruence|by apply Hn].
    - intros g w [Hw Hn]%IH2. unfold workers in *. cbn in Hw. rewrite lookup_fmap in Hw.
      destruct (ob_Workers o !! g) as [l|]; cbn in Hw; [|by apply elem_of_nil in Hw].
      apply list_elem_of_filter in Hw as [Hne Hw]. split; [done|].
      intros b [->|Hb]%elem_of_cons; [congruence|by apply Hn]. }
  destruct (Hgone _ o Hdel) as [Hcp Hws]. split.
  - destruct (ob_CP (foldl perform o (Decide d o))) as [cp|] eqn:He; [|done]. exfalso.
    destruct (Hcp cp eq_refl) as [Ho Hn]. specialize (Hlast cp Ho).
    apply last_Some_elem_of in Hlast. by apply (Hn _ Hlast).
  - intros g. destruct (workers (foldl perform o (Decide d o)) g) as [|w l] eqn:He; [done|]. exfalso.
    destruct (Hws g w) as [Ho Hn]; [rewrite He; by left|]. by eapply (Hn _ (Hall g w Ho)).
Qed.

(** C27: The reconciler converges.  On a host that carries out the actions of each pass, two
    passes bring any observed cluster to the desired shape, whatever was on the host: a
    deleting cluster has no VM left; any other has a running control plane, and in
    each group every worker runs and there are at least as many as the minimum.  From then on
    [Decide] has nothing to do.  The creation loop is bounded by the group's minimum
    and the number of observed workers, and this bound is enough. *)
Theorem decide_converges d o :
  settled_as d (pass d (pass d o)) /\ Decide d (pass d (pass d o)) = [].
Proof.
  enough (settled_as d (pass d (pass d o))) by (split; [done|by apply settled_done]).
  destruct (ds_Deleting d) eqn:Hd; [by apply pass_deletes|].
  assert (exists cp, ob_CP (pass d o) = Some cp /\ vm_Running cp = true) as (cp & Hcp & Hr); [|by eapply pass_settles].
  destruct (ob_CP o) as [[cp []]|] eqn:Ho.
  - pose proof (pass_settles d o (mkVM cp true) Hd Ho eq_refl) as Hs. unfold settled_as in Hs. rewrite Hd in Hs. apply Hs.
  - unfold pass, Decide. rewrite Hd, Ho. cbn. rewrite Ho. cbn. unfold runs_as. cbn. rewrite String.eqb_refl. eauto.
  - unfold pass, Decide. rewrite Hd, Ho. cbn. eauto.
Qed.
