(* ===== verification/ClusterCapacity.v ===== *)
(** * pkg/core/cluster/capacity.go: truthful node sizes

    A container node observes its host's processors and memory.  What kubelet must
    reserve so that the rest is the size that was asked for, how a /proc is read, and the
    containerd template of container nodes. *)

From S2P Require Import Prelude GoStrings GoStrconv Cluster.
From Stdlib Require Import Ascii.
#[local] Open Scope string_scope.
#[local] Open Scope list_scope.
#[local] Open Scope Z_scope.

Record NodeSpec := mkSpec {
  sp_Name : string;
  sp_CPU : string;
  sp_Memory : string;
  sp_Disk : string;
  sp_Labels : gmap string string;
}.

Record Reserved := mkReserved { rs_CPU : Z; rs_MemoryBytes : Z }.

Definition Reserved_Zero (r : Reserved) : bool := (rs_CPU r =? 0) && (rs_MemoryBytes r =? 0).

Inductive capacity_error := BadNodeCPU | BadNodeMemory | HostTooSmall.

(** The size that was asked for. *)
Definition wanted (spec : NodeSpec) : Z * Z + capacity_error :=
  match Atoi (sp_CPU spec) with
  | None => inr BadNodeCPU
  | Some cpu => match ParseSizeBytes (sp_Memory spec) with None => inr BadNodeMemory | Some mem => inl (cpu, mem) end
  end.

Definition ReservedResources (observedCPU observedMemBytes : Z) (spec : NodeSpec) : Reserved + capacity_error :=
  match wanted spec with
  | inr e => inr e
  | inl (wantCPU, wantMem) =>
      if (observedCPU <? wantCPU) || (observedMemBytes <? wantMem) then inr HostTooSmall
      else inl (mkReserved (wrap i64 (observedCPU - wantCPU)) (wrap i64 (observedMemBytes - wantMem)))
  end.

Definition NodeReservation (observedCPU observedMemBytes : Z) (spec : NodeSpec) : Reserved + capacity_error :=
  match wanted spec with
  | inr e => inr e
  | inl (wantCPU, wantMem) =>
      inl (mkReserved (if wantCPU <? observedCPU then wrap i64 (observedCPU - wantCPU) else 0)
                      (if wantMem <? observedMemBytes then wrap i64 (observedMemBytes - wantMem) else 0))
  end.

Definition KubeletReservedArgs (r : Reserved) : list string :=
  if Reserved_Zero r then []
  else ["--kubelet-arg=system-reserved=cpu=" +:+ Itoa (rs_CPU r) +:+ ",memory=" +:+ Itoa (rs_MemoryBytes r);
        "--kubelet-arg=enforce-node-allocatable=pods"].

Definition ContainerKubeletArgs (extra : list string) : list string :=
  "--kubelet-arg=feature-gates=KubeletInUserNamespace=true" :: extra.

Definition CheckNodeCapacity (observedCPU observedMemBytes : Z) (spec : NodeSpec) : option capacity_error :=
  match ReservedResources observedCPU observedMemBytes spec with inr e => Some e | inl _ => None end.

(** ** Reading /proc *)

(** [strings.Fields]: the text between runs of white space.  [cur] is the field in progress,
    last byte first; each round consumes at least a byte. *)
Fixpoint fields_from (fuel : nat) (cur s : string) : list string :=
  let flush rest := match cur with "" => rest | _ => reverse cur :: rest end in
  match fuel, s with
  | O, _ | _, "" => flush []
  | S fuel, String a s' =>
      match strip_one space_runes s with
      | Some rest => flush (fields_from fuel "" rest)
      | None => fields_from fuel (String a cur) s'
      end
  end.
Definition Fields (s : string) : list string := fields_from (String.length s) "" s.

Example Fields_ex : Fields "MemTotal:       16384 kB" = ["MemTotal:"; "16384"; "kB"] /\ Fields "  " = [].
Proof. vm_compute. done. Qed.

Inductive proc_error := NoProcessors | BadMemTotal (s : string) | NoMemTotal.

Definition newline : ascii := byte_at 10.

(** The scan for MemTotal; [cpu] is only handed through. *)
Fixpoint mem_total (cpu : Z) (lines : list string) : Z * Z + proc_error :=
  match lines with
  | [] => inr NoMemTotal
  | line :: rest =>
      if HasPrefix "MemTotal:" line then
        match Fields line with
        | _ :: kb :: _ => match ParseInt 64 kb with
                          | Some kb => inl (cpu, wrap i64 (kb * 1024))
                          | None => inr (BadMemTotal kb)
                          end
        | _ => inr NoMemTotal
        end
      else mem_total cpu rest
  end.

Definition ParseProcCapacity (cpuinfo meminfo : string) : Z * Z + proc_error :=
  let cpu := Z.of_nat (length (filter (fun line => HasPrefix "processor" line = true) (split_char newline cpuinfo))) in
  if cpu =? 0 then inr NoProcessors else mem_total cpu (split_char newline meminfo).

(** ** The containerd template *)

Definition containerdUnprivilegedToggles : list string := ["enable_unprivileged_ports"; "enable_unprivileged_icmp"].

(** [strings.Contains]. *)
Fixpoint Contains (sub s : string) : bool :=
  HasPrefix sub s || match s with "" => false | String _ s' => Contains sub s' end.

(** One round of the loop over the toggles; [None] is the error. *)
Definition disable_toggle (out : option string) (key : string) : option string :=
  match out with
  | None => None
  | Some out =>
      let enabled := key +:+ " = true" in
      let disabled := key +:+ " = false" in
      if Contains enabled out then Some (ReplaceAll out enabled disabled)
      else if Contains disabled out then Some out else None
  end.

Definition DeriveContainerdTemplate (generated : string) : option string :=
  foldl disable_toggle (Some generated) containerdUnprivilegedToggles.

Example derive_ex :
  DeriveContainerdTemplate "a = 1; enable_unprivileged_ports = true; enable_unprivileged_icmp = false"
  = Some "a = 1; enable_unprivileged_ports = false; enable_unprivileged_icmp = false"
  /\ DeriveContainerdTemplate "enable_unprivileged_ports = true" = None.
Proof. vm_compute. done. Qed.

(** ** Truthful sizes *)

(** Reservations make the advertised size truthful.  For a size that parses and does not
    overflow, and a node that observes [cpu] processors and [mem] bytes: the reservation
    computed after boot leaves exactly the smaller of observed and wanted in each dimension,
    is never negative, and renders no kubelet flag exactly when the node claims no more
    than its size; the create-time check refuses exactly the hosts that observe less
    than the size in some dimension, and where it accepts, what is left is the size. *)
Theorem reservation_truthful cpu mem spec wantCPU wantMem :
  wanted spec = inl (wantCPU, wantMem) -> 0 <= wantCPU -> 0 <= wantMem ->
  0 <= cpu < 2 ^ 63 -> 0 <= mem < 2 ^ 63 ->
  (exists r, NodeReservation cpu mem spec = inl r /\
     cpu - rs_CPU r = Z.min cpu wantCPU /\ mem - rs_MemoryBytes r = Z.min mem wantMem /\
     0 <= rs_CPU r /\ 0 <= rs_MemoryBytes r /\
     (KubeletReservedArgs r = [] <-> cpu <= wantCPU /\ mem <= wantMem)) /\
  (CheckNodeCapacity cpu mem spec = None <-> wantCPU <= cpu /\ wantMem <= mem) /\
  (forall r, ReservedResources cpu mem spec = inl r -> cpu - rs_CPU r = wantCPU /\ mem - rs_MemoryBytes r = wantMem).
Proof.
  intros Hw H1 H2 H3 H4. unfold CheckNodeCapacity, NodeReservation, ReservedResources. rewrite Hw.
  assert (Hwrap : forall a b, 0 <= b -> b <= a -> a < 2 ^ 63 -> wrap i64 (a - b) = a - b)
    by (intros; apply wrap_in_type_id; [done|type_bounds]).
  split_and!.
  - eexists. split; [reflexivity|]. unfold KubeletReservedArgs, Reserved_Zero. cbn [rs_CPU rs_MemoryBytes].
    destruct (Z.ltb_spec wantCPU cpu), (Z.ltb_spec wantMem mem); rewrite ?Hwrap by lia;
      repeat match goal with |- context [?a =? ?b] => destruct (Z.eqb_spec a b) end; cbn [andb];
      split_and!; try lia; split; intros; try done; try lia.
  - destruct (Z.ltb_spec cpu wantCPU), (Z.ltb_spec mem wantMem); cbn [orb]; split; intros; try done; lia.
  - destruct (Z.ltb_spec cpu wantCPU), (Z.ltb_spec mem wantMem); cbn [orb]; intros r; try done; intros [= <-];
      cbn [rs_CPU rs_MemoryBytes]; rewrite !Hwrap by lia; lia.
Qed.

(** A node of 2 processors and 4GB that observes its host's 8 and 16GB. *)
Lemma reservation_truthful_witness :
  let spec := mkSpec "n" "2" "4GB" "40GB" ∅ in
  NodeReservation 8 16000000000 spec = inl (mkReserved 6 12000000000) /\ 8 - 6 = Z.min 8 2.
Proof.
  intros spec.
  destruct (reservation_truthful 8 16000000000 spec 2 4000000000) as ((r & Hr & Hc & _) & _);
    [vm_compute; reflexivity|done|done|done|done|].
  assert (Heq : NodeReservation 8 16000000000 spec = inl (mkReserved 6 12000000000)) by (vm_compute; reflexivity).
  split; [exact Heq|]. rewrite Heq in Hr. injection Hr as <-. exact Hc.
Defined.
