(* ===== verification/ClusterBootstrap.v ===== *)
(** * pkg/core/cluster/bootstrap.go, spec.go, containerprofile.go, vpa.go: what a node is given

    The labels and the Incus configuration of a node, the probe of a host for container
    nodes, and the scripts and files that are pushed into a node, byte for byte. *)

From S2P Require Import Prelude GoStrings GoStrconv GoUtf8 GoBytes Incus Cluster ClusterDecide ClusterCapacity.
From Stdlib Require Import Ascii.
#[local] Open Scope string_scope.
#[local] Open Scope list_scope.
#[local] Open Scope Z_scope.

(** ** Text *)

Definition dq : string := String (byte_at 34) "".

(** Lines, each with its line feed. *)
Definition text (ls : list string) : string := foldr (fun l s => l +:+ String newline s) "" ls.

(** [strings.Join]. *)
Fixpoint Join (sep : string) (l : list string) : string :=
  match l with [] => "" | [x] => x | x :: rest => x +:+ sep +:+ Join sep rest end.

(** [%q], exact on ASCII; other bytes are passed through. *)
Definition quote_byte (a : ascii) : string :=
  let n := nat_of_ascii a in
  let esc c := String (byte_at 92) (String c "") in
  if (n =? 34)%nat || (n =? 92)%nat then esc a
  else if (n =? 7)%nat then esc "a"%char else if (n =? 8)%nat then esc "b"%char
  else if (n =? 9)%nat then esc "t"%char else if (n =? 10)%nat then esc "n"%char
  else if (n =? 11)%nat then esc "v"%char else if (n =? 12)%nat then esc "f"%char
  else if (n =? 13)%nat then esc "r"%char
  else if (n <? 32)%nat || (n =? 127)%nat then esc "x"%char +:+ hexEncode [Z.of_nat n]
  else String a "".

Definition Quote (s : string) : string := dq +:+ foldr (fun a t => quote_byte a +:+ t) "" (String.list_ascii_of_string s) +:+ dq.

(** ** Labels *)

Definition LabelCluster := "user.containarium.cluster".
Definition LabelClusterOwner := "user.containarium.cluster_owner".
Definition LabelClusterRole := "user.containarium.cluster_role".
Definition LabelNodeGroup := "user.containarium.node_group".
Definition LabelWorkloadClass := "user.containarium.workload_class".
Definition WorkloadClassK8sNode := "k8s-node".

Definition VMLabels (tenant clusterName role group : string) : gmap string string :=
  let l := <[LabelWorkloadClass := WorkloadClassK8sNode]> (<[LabelClusterRole := role]>
             (<[LabelClusterOwner := tenant]> {[LabelCluster := clusterName]})) in
  if String.eqb group "" then l else <[LabelNodeGroup := group]> l.

(** ** incushost.go *)

Definition InstanceTypeVM := "virtual-machine".
Definition InstanceTypeContainer := "container".

Record DiskDevice := mkDisk { dd_Path : string; dd_Pool : string; dd_Size : string }.

Record ContainerConfig := mkConfig {
  cc_Name : string; cc_Image : string; cc_CPU : string; cc_Memory : string; cc_InstanceType : string;
  cc_AutoStart : bool; cc_ExtraConfig : gmap string string; cc_Disk : option DiskDevice
}.

Definition ContainerNodeConfig : gmap string string := {["security.nesting" := "true"]}.

Definition nodeContainerConfig (spec : NodeSpec) (isolation pool : string) : ContainerConfig :=
  let container := String.eqb isolation IsolationContainer in
  mkConfig (sp_Name spec) "images:ubuntu/24.04" (sp_CPU spec) (sp_Memory spec)
    (if container then InstanceTypeContainer else InstanceTypeVM) true
    (if container then ContainerNodeConfig else ∅)
    (if String.eqb (sp_Disk spec) "" then None else Some (mkDisk "/" pool (sp_Disk spec))).

(** A label that is not set reads as "". *)
Definition label (c : ContainerInfo) (key : string) : string := default "" (ci_Labels c !! key).

Definition observe (o : Observed) (c : ContainerInfo) : Observed :=
  let vm := mkVM (ci_Name c) (EqualFold (ci_State c) "running") in
  if String.eqb (label c LabelClusterRole) RoleControlPlane then mkObserved (Some vm) (ob_Workers o)
  else if String.eqb (label c LabelClusterRole) RoleWorker then
    let g := label c LabelNodeGroup in
    mkObserved (ob_CP o) (<[g := workers o g ++ [vm]]> (ob_Workers o))
  else o.

Definition labelled (tenant clusterName : string) (c : ContainerInfo) : Prop :=
  label c LabelCluster = clusterName /\ label c LabelClusterOwner = tenant.

#[export] Instance labelled_dec tenant clusterName c : Decision (labelled tenant clusterName c).
Proof. unfold labelled. apply _. Defined.

Definition ClusterVMs (tenant clusterName : string) (all : list ContainerInfo) : Observed :=
  foldl observe (mkObserved None ∅) (filter (labelled tenant clusterName) all).

(** ** containerprofile.go: the probe *)

Inductive ProbeState := ProbeOK | ProbeMissing | ProbeUnknown.

Record Probe := mkProbe { pb_State : ProbeState; pb_Detail : string }.

Record ContainerNodeFacts := mkFacts { Nesting : Probe; CgroupV2 : Probe; BrNetfilter : Probe; Overlay : Probe }.

Definition ErrContainerNodesUnsupported := "this backend cannot run container nodes".

Definition problem (name : string) (p : Probe) : list string :=
  match pb_State p with
  | ProbeOK => []
  | ProbeMissing => [name +:+ ": " +:+ pb_Detail p]
  | ProbeUnknown => [name +:+ ": could not be verified (" +:+ pb_Detail p +:+ ")"]
  end.

Definition CheckContainerNodeFacts (f : ContainerNodeFacts) : option string :=
  match problem "nesting" (Nesting f) ++ problem "cgroup v2" (CgroupV2 f)
        ++ problem "br_netfilter" (BrNetfilter f) ++ problem "overlay" (Overlay f) with
  | [] => None
  | problems => Some (ErrContainerNodesUnsupported +:+ ": " +:+ Join "; " problems)
  end.

(** ** Paths *)

Definition K3sBinaryPath := "/usr/local/bin/k3s".
Definition AgentTokenPath := "/etc/containarium/k3s-agent-token".
Definition KubeconfigPath := "/etc/rancher/k3s/k3s.yaml".
Definition NodeTokenPath := "/var/lib/rancher/k3s/server/node-token".
Definition ContainerdConfigTemplatePath := "/var/lib/rancher/k3s/agent/etc/containerd/config-v3.toml.tmpl".
Definition ContainerdGeneratedConfigPath := "/var/lib/rancher/k3s/agent/etc/containerd/config.toml".
Definition CACredDir := "/etc/containarium/ca".
Definition CAClientCertPath := CACredDir +:+ "/client.crt".
Definition CAClientKeyPath := CACredDir +:+ "/client.key".
Definition CACACertPath := CACredDir +:+ "/ca.crt".
Definition CACloudConfigPath := CACredDir +:+ "/cloud-config.yaml".
Definition VPAManifestPath := "/var/lib/rancher/k3s/server/manifests/containarium-vpa.yaml".
Definition VPACertsPath := "/var/lib/rancher/k3s/server/manifests/containarium-vpa-certs.yaml".
Definition CAImage := "registry.k8s.io/autoscaling/cluster-autoscaler:v1.33.0@sha256:6ef10d108e0e45ecd883e074682330bbd4a3403e767ad56804800f2f4ee816da".

(** ** Bootstrap scripts *)

Definition KmsgShimCommand := "/bin/sh -c '[ -e /dev/kmsg ] || ln -s /dev/console /dev/kmsg'".

Definition kmsgShimUnitLine (iso : string) : string :=
  if negb (String.eqb iso IsolationContainer) then "" else "ExecStartPre=" +:+ KmsgShimCommand +:+ String newline "".

Definition kubeletArgsSuffix (args : list string) : string :=
  match args with [] => "" | _ => " " +:+ Join " " args end.

Definition workerContainerdNote (iso : string) : string :=
  if negb (String.eqb iso IsolationContainer) then ""
  else text [""; "# containerd template was pushed by the daemon before boot (#1448)."].

Definition ContainerdDeriveTemplateSedArgs : list (string * string) :=
  map (fun key => ("-e", "s/" +:+ key +:+ " = true/" +:+ key +:+ " = false/")) containerdUnprivilegedToggles.

Definition toggle_guard (key : string) : string :=
  "grep -q '" +:+ key +:+ " = false' " +:+ ContainerdConfigTemplatePath +:+ " || { echo " +:+ dq
  +:+ "derived containerd template does not disable " +:+ key +:+ dq +:+ " >&2; exit 1; }" +:+ String newline "".

Definition containerdTemplateStanza (iso service : string) : string :=
  if negb (String.eqb iso IsolationContainer) then "" else
  let seds := foldr (fun '(flag, arg) s => " " +:+ flag +:+ " '" +:+ arg +:+ "'" +:+ s) "" ContainerdDeriveTemplateSedArgs in
  let guards := foldr (fun key s => toggle_guard key +:+ s) "" containerdUnprivilegedToggles in
  text
    ["";
     "# containerd's CRI plugin makes runc write sysctls an unprivileged";
     "# container may not touch, killing every pod sandbox. Derive the config";
     "# template from the config k3s just generated, with the two toggles";
     "# flipped -- a hand-written template would re-declare a table the base";
     "# template already emits, which is invalid TOML (#1444).";
     "i=0";
     "until [ -s " +:+ ContainerdGeneratedConfigPath +:+ " ]; do";
     "  i=$((i+1))";
     "  [ " +:+ dq +:+ "$i" +:+ dq +:+ " -gt 120 ] && { echo " +:+ dq +:+ "containerd config " +:+ ContainerdGeneratedConfigPath +:+ " was never generated" +:+ dq +:+ " >&2; exit 1; }";
     "  sleep 2";
     "done";
     "sed" +:+ seds +:+ " " +:+ ContainerdGeneratedConfigPath +:+ " > " +:+ ContainerdConfigTemplatePath;
     guards +:+ "systemctl restart " +:+ service].

Record ServerBootstrap := mkServer { sb_TLSSANs : list string; sb_Isolation : string; sb_KubeletArgs : list string }.

Definition RenderServerScript (b : ServerBootstrap) : string :=
  let sanFlags := foldr (fun s t => " --tls-san " +:+ s +:+ t) "" (merge_sort String.le (sb_TLSSANs b)) in
  let shim := kmsgShimUnitLine (sb_Isolation b) in
  let stanza := containerdTemplateStanza (sb_Isolation b) "k3s.service" in
  let args := kubeletArgsSuffix (sb_KubeletArgs b) in
  text
    ["#!/bin/sh";
     "# containarium managed-cluster control-plane bootstrap (#1414).";
     "# The k3s binary is pre-pushed; this script only wires and starts it.";
     "set -eu";
     "";
     "chmod 0755 " +:+ K3sBinaryPath;
     "";
     "cat > /etc/systemd/system/k3s.service <<'UNIT'";
     "[Unit]";
     "Description=containarium managed k3s server";
     "After=network-online.target";
     "Wants=network-online.target";
     "";
     "[Service]";
     "Type=notify";
     shim +:+ "ExecStart=" +:+ K3sBinaryPath +:+ " server --disable traefik --node-taint node-role.kubernetes.io/control-plane=:NoSchedule --write-kubeconfig-mode 0600" +:+ sanFlags +:+ args;
     "Restart=always";
     "RestartSec=5";
     "# A node legitimately takes longer than systemd's default 90s to signal";
     "# readiness -- an agent waits for the server to finish coming up -- and a";
     "# Type=notify unit that has not signalled by then is killed mid-start,";
     "# restarted, and never joins (#1450). Upstream k3s's unit does the same.";
     "TimeoutStartSec=0";
     "LimitNOFILE=1048576";
     "";
     "[Install]";
     "WantedBy=multi-user.target";
     "UNIT";
     "";
     "systemctl daemon-reload";
     "systemctl enable --now k3s.service";
     stanza;
     "# Bootstrap is done when the admin kubeconfig and the join token exist.";
     "i=0";
     "until [ -s " +:+ KubeconfigPath +:+ " ] && [ -s " +:+ NodeTokenPath +:+ " ]; do";
     "  i=$((i+1))";
     "  [ " +:+ dq +:+ "$i" +:+ dq +:+ " -gt 120 ] && { echo " +:+ dq +:+ "k3s server did not come up" +:+ dq +:+ " >&2; exit 1; }";
     "  sleep 2";
     "done"].

Record AgentBootstrap := mkAgent { ab_ServerURL : string; ab_Isolation : string; ab_KubeletArgs : list string }.

Definition RenderAgentScript (b : AgentBootstrap) : string :=
  let shim := kmsgShimUnitLine (ab_Isolation b) in
  let args := kubeletArgsSuffix (ab_KubeletArgs b) in
  text
    ["#!/bin/sh";
     "# containarium managed-cluster worker bootstrap (#1414).";
     "# The k3s binary and the join token are pre-pushed.";
     "set -eu";
     "";
     "chmod 0755 " +:+ K3sBinaryPath;
     "chmod 0600 " +:+ AgentTokenPath;
     "";
     "cat > /etc/systemd/system/k3s-agent.service <<'UNIT'";
     "[Unit]";
     "Description=containarium managed k3s agent";
     "After=network-online.target";
     "Wants=network-online.target";
     "";
     "[Service]";
     "Type=notify";
     shim +:+ "ExecStart=" +:+ K3sBinaryPath +:+ " agent --server " +:+ ab_ServerURL b +:+ " --token-file " +:+ AgentTokenPath +:+ args;
     "Restart=always";
     "RestartSec=5";
     "# A node legitimately takes longer than systemd's default 90s to signal";
     "# readiness -- an agent waits for the server to finish coming up -- and a";
     "# Type=notify unit that has not signalled by then is killed mid-start,";
     "# restarted, and never joins (#1450). Upstream k3s's unit does the same.";
     "TimeoutStartSec=0";
     "LimitNOFILE=1048576";
     "";
     "[Install]";
     "WantedBy=multi-user.target";
     "UNIT";
     "";
     "systemctl daemon-reload";
     "systemctl enable --now k3s-agent.service"]
  +:+ workerContainerdNote (ab_Isolation b).

(** ** The kubeconfig *)

Definition space_tab : list string := [" "; String (byte_at 9) ""].

Definition rewrite_line (endpoint l : string) : string :=
  if HasPrefix "server:" (TrimSpace l)
  then String.substring 0 (String.length l - String.length (trim_left_with space_tab l)) l
       +:+ "server: https://" +:+ endpoint
  else l.

Definition RewriteKubeconfigServer (kubeconfig endpoint : string) : string :=
  join_char newline (map (rewrite_line endpoint) (split_char newline kubeconfig)).

(** ** The autoscaler's files *)

Record CADeploy := mkCADeploy { ProviderAddr : string }.

Definition RenderCACloudConfig (d : CADeploy) : string :=
  text ["address: " +:+ Quote (ProviderAddr d); "key: " +:+ Quote CAClientKeyPath;
        "cert: " +:+ Quote CAClientCertPath; "cacert: " +:+ Quote CACACertPath].

Definition RenderCAUnitScript (d : CADeploy) : string :=
  text
    ["#!/bin/sh";
     "# containarium managed-cluster autoscaler bootstrap (#1415).";
     "# Stock cluster-autoscaler, digest-pinned, as a containerd task —";
     "# outside the tenant-visible Kubernetes API surface.";
     "set -eu";
     "";
     "cat > /etc/systemd/system/k3s-cluster-autoscaler.service <<'UNIT'";
     "[Unit]";
     "Description=containarium managed-cluster autoscaler (externalgrpc)";
     "After=k3s.service";
     "Requires=k3s.service";
     "";
     "[Service]";
     "ExecStartPre=" +:+ K3sBinaryPath +:+ " ctr images pull " +:+ CAImage;
     "ExecStartPre=-" +:+ K3sBinaryPath +:+ " ctr task kill --signal SIGKILL cluster-autoscaler";
     "ExecStartPre=-" +:+ K3sBinaryPath +:+ " ctr container rm cluster-autoscaler";
     "ExecStart=" +:+ K3sBinaryPath +:+ " ctr run --rm --net-host --user 0 \";
     "  --mount type=bind,src=" +:+ CACredDir +:+ ",dst=" +:+ CACredDir +:+ ",options=rbind:ro \";
     "  --mount type=bind,src=/etc/rancher/k3s/k3s.yaml,dst=/etc/kubeconfig,options=rbind:ro \";
     "  " +:+ CAImage +:+ " cluster-autoscaler \";
     "  /cluster-autoscaler \";
     "  --cloud-provider=externalgrpc \";
     "  --cloud-config=" +:+ CACloudConfigPath +:+ " \";
     "  --kubeconfig=/etc/kubeconfig \";
     "  --stderrthreshold=info";
     "Restart=always";
     "RestartSec=10";
     "";
     "[Install]";
     "WantedBy=multi-user.target";
     "UNIT";
     "";
     "systemctl daemon-reload";
     "systemctl enable --now k3s-cluster-autoscaler.service"].

(** ** vpa.go *)

Definition VPAManifestSHA256 := "a74ea4c0e47561d4fd0bb9003a5e005dd5eb43fe173161b7dd86ff97ffebecd4".

(** [embedded] is the file the build embeds. *)
Definition VPAManifests (embedded : string) : string + string :=
  let got := hexEncode (sha256 (bytes_of_string embedded)) in
  if negb (String.eqb got VPAManifestSHA256)
  then inr ("embedded VPA manifests hash " +:+ got +:+ " does not match the pin " +:+ VPAManifestSHA256)
  else inl embedded.

(** The Secret around three freshly generated PEM blocks. *)
Definition vpa_secret (caPEM srvPEM keyPEM : string) : string :=
  let b64 s := string_of_bytes (StdEncode (bytes_of_string s)) in
  text ["# Generated per cluster by containarium (#1416). The admission";
        "# webhook's serving certs — never shared across clusters.";
        "apiVersion: v1"; "kind: Secret"; "metadata:"; "  name: vpa-tls-certs"; "  namespace: kube-system";
        "type: Opaque"; "data:"; "  caCert.pem: " +:+ b64 caPEM; "  serverCert.pem: " +:+ b64 srvPEM;
        "  serverKey.pem: " +:+ b64 keyPEM].

(** ** The reviewed renderings

    The digests of the files of pkg/core/cluster/testdata that pin these scripts. *)

Definition digest (s : string) : string := hexEncode (sha256 (bytes_of_string s)).

Example server_golden :
  digest (RenderServerScript (mkServer ["203.0.113.10"; "10.166.11.5"] "" []))
    = "c26a73ce3dd54304a67e4a17904c2ec528ed41dd7a65b1ea695b17794f3f9db0" /\
  digest (RenderServerScript (mkServer ["203.0.113.10"; "10.166.11.5"] IsolationContainer []))
    = "229672bd6bac3a23c44a362def3b72b4b751a9c1b12a72efecc65c4f0d43fa15".
Proof. split; vm_compute; reflexivity. Qed.

Example agent_golden :
  digest (RenderAgentScript (mkAgent "https://10.166.11.5:6443" "" []))
    = "c779137ddc94c27ec5d79efa68b967aae97bc53bb3878c80b1c000f5838e3784" /\
  digest (RenderAgentScript (mkAgent "https://10.166.11.5:6443" IsolationContainer []))
    = "4cda1bb2d767ce845766ec587f85ca6b2354884672c47030e961f5acb2af105f".
Proof. split; vm_compute; reflexivity. Qed.

Example autoscaler_golden :
  digest (RenderCAUnitScript (mkCADeploy "10.0.0.1:36442"))
    = "b9bcf557ca701da9e88d4007c779c1dc29f4c4e93e1f12b0d36913d3c855babc" /\
  digest (RenderCACloudConfig (mkCADeploy "10.0.0.1:36442"))
    = "d6bc020e88ef4663a8e7fac87bd8585834650f003ad2da7c60ff0863a062bb21".
Proof. split; vm_compute; reflexivity. Qed.

Example kubeconfig_ex :
  RewriteKubeconfigServer (text ["clusters:"; "- cluster:"; "    server: https://127.0.0.1:6443"; "  name: default"])
    "203.0.113.10:30443"
  = text ["clusters:"; "- cluster:"; "    server: https://203.0.113.10:30443"; "  name: default"].
Proof. vm_compute. reflexivity. Qed.
