(* ===== verification/ClusterApi.v ===== *)
(** * The cluster orchestration's interfaces

    pkg/core/cluster/manager.go drives a host through [VMHost];
    internal/server/cluster_reconciler.go and ca_provider_server.go drive the manager, the
    store and the seams of admission and publishing.  A [ccall] is one call of either
    kind.  A [cprog] is a program over them, an [eprog] one that may fail. *)

From S2P Require Import Prelude Prog Cluster ClusterStore ClusterDecide ClusterCapacity ClusterBootstrap.
#[local] Open Scope string_scope.
#[local] Open Scope list_scope.
#[local] Open Scope Z_scope.

Record CACredentials := mkCreds { ClientCertPEM : string; ClientKeyPEM : string; CACertPEM : string }.

Inductive ccall :=
(** the store *)
| CStore (op : store_op)
(** VMHost *)
| HVMCapable | HContainerNodeCapable | HNodeCapacityCapable (spec : NodeSpec)
| HCreateNode (spec : NodeSpec) (isolation : string)
| HStart (name : string) | HStop (name : string) | HDelete (name : string)
| HWaitReady (name : string) (timeout : Duration)
| HPush (name path content mode : string)
| HRead (name path : string)
| HExec (name : string) (cmd : list string)
| HClusterVMs (tenant clusterName : string)
(** the loader of the k3s binary, and the keys of the VPA webhook: CA, certificate, key *)
| CBinary | CWebhookCerts
(** the reconciler's seams; [CRelease] calls the function the last [CAdmit] returned *)
| CAdmit (owner cpu : string) | CRelease
| CPublish (c : Cluster) (cpIP : string) | CUnpublish (c : Cluster)
| CMintCACert (owner name : string)
(** the rest *)
| CNow | CNewID | CSleep (d : Duration).

(** What a store answers, by operation. *)
Definition op_ans (op : store_op) : Type :=
  match op with
  | OGet _ _ => Cluster + store_error
  | OList _ => list Cluster + store_error
  | OListNodes _ _ => list Node + store_error
  | OListEvents _ _ _ => list Event + store_error
  | _ => option store_error
  end.

Definition cans (c : ccall) : Type :=
  match c with
  | CStore op => op_ans op
  | HVMCapable | HContainerNodeCapable | HNodeCapacityCapable _ | HCreateNode _ _ | HStart _ | HStop _ | HDelete _
  | HPush _ _ _ _ | CAdmit _ _ | CUnpublish _ => option string
  | HWaitReady _ _ | HRead _ _ | HExec _ _ | CBinary | CPublish _ _ => string + string
  | HClusterVMs _ _ => Observed + string
  | CWebhookCerts => string * string * string + string
  | CMintCACert _ _ => CACredentials + string
  | CNow => Time
  | CNewID => string
  | CRelease | CSleep _ => unit
  end.

Abbreviation cprog := (prog cans) (only parsing).
Abbreviation cevent := (event cans) (only parsing).

(** A working store's answer. *)
Definition store_ans {S} `{Store S} (op : store_op) (s : S) : op_ans op * S :=
  match op with
  | OCreate c => Create c s
  | OGet o n => (Get o n s, s)
  | OList o => (inl (List_ o s), s)
  | OSetState now o n st r => SetState now o n st r s
  | OSetEndpoint now o n ep => SetEndpoint now o n ep s
  | OUpdateNodeGroups now o n gs => UpdateNodeGroups now o n gs s
  | OSetNodeGroupTarget now o n g t => SetNodeGroupTarget now o n g t s
  | ODelete o n => Delete o n s
  | OUpsertNode nd => UpsertNode nd s
  | OListNodes o n => (ListNodes o n s, s)
  | ODeleteNode o n vm => DeleteNode o n vm s
  | OAppendEvent o n e => AppendEvent o n e s
  | OListEvents o n limit => (ListEvents o n limit s, s)
  end.

(** ** Errors *)

(** An error and the contexts it was wrapped in. *)
Inductive cl_error :=
| HostErr (m : string)
| StoreError (e : store_error)
| CapacityErr (e : capacity_error)
| ProcErr (e : proc_error)
| TemplateErr
| PasswordNotCleared (m : string)
| Wrap (context : string) (e : cl_error).

(** [errors.Is(err, ErrNodePasswordNotCleared)]. *)
Fixpoint is_password (e : cl_error) : bool :=
  match e with PasswordNotCleared _ => true | Wrap _ e => is_password e | _ => false end.

Abbreviation eprog R := (prog cans (R + cl_error)) (only parsing).

(** [if err != nil { return on_err(err) }]. *)
Definition guard {A B} (on_err : cl_error -> eprog B) (p : eprog A) (k : A -> eprog B) : eprog B :=
  p ≫= fun r => match r with inl a => k a | inr e => on_err e end.

Notation "x <- p 'orelse' h ;; k" := (guard h p (fun x => k))
  (at level 100, p at level 99, h at level 99, k at level 200, right associativity).

(** A host call that answers an error or nothing, and one that answers a value. *)
Definition done_or (c : ccall) (f : cans c -> option string) : eprog unit :=
  a ← call c; mret (match f a with None => inl tt | Some m => inr (HostErr m) end).
Definition value_or {A} (c : ccall) (f : cans c -> A + string) : eprog A :=
  a ← call c; mret (match f a with inl v => inl v | inr m => inr (HostErr m) end).

Definition store_do (op : store_op) (f : op_ans op -> option store_error) : eprog unit :=
  a ← call (CStore op); mret (match f a with None => inl tt | Some e => inr (StoreError e) end).

Definition fail {B} (context : string) (e : cl_error) : eprog B := mret (inr (Wrap context e)).
Definition return_err {B} (e : cl_error) : eprog B := mret (inr e).
Definition lift {B} (r : B + cl_error) : eprog B := mret r.
