(* ===== verification/ClusterManager.v ===== *)
(** * pkg/core/cluster/manager.go, vpa.go: sequences on the host

    [Manager] is stateless; its methods are programs over the host.  The timeouts are the
    production ones.  Messages that are only logged are left out. *)

From S2P Require Import Prelude Prog GoStrings GoPath Cluster ClusterStore ClusterDecide ClusterCapacity ClusterBootstrap ClusterApi.
From Stdlib Require Import Ascii.
#[local] Open Scope string_scope.
#[local] Open Scope list_scope.
#[local] Open Scope Z_scope.

Definition waitReadyTimeout : Duration := 3 * Minute.
Definition deleteRetries : nat := 3.
Definition deleteRetryDelayDefault : Duration := 2 * Second.

Definition Observe (tenant clusterName : string) : eprog Observed :=
  value_or (HClusterVMs tenant clusterName) id.

Definition StartVM (name : string) : eprog unit := done_or (HStart name) id.

(** The loop of [DeleteVM], with [n] attempts to go. *)
Fixpoint delete_attempts (n : nat) (name : string) (err : option string) : cprog (option string) :=
  match n with
  | O => mret err
  | S n =>
      err ← call (HDelete name);
      match err with
      | None => mret None
      | Some m =>
          match n with
          | O => mret (Some m)
          | S _ => _ ← call (CSleep deleteRetryDelayDefault); delete_attempts n name (Some m)
          end
      end
  end.

Definition DeleteVM (name : string) : eprog unit :=
  _ ← call (HStop name);
  err ← delete_attempts deleteRetries name None;
  mret (match err with None => inl tt | Some m => inr (HostErr m) end).

(** The deletion's own error is logged. *)
Definition abandon {B} (name : string) (cause : cl_error) : eprog B :=
  _ ← DeleteVM name; return_err cause.

Definition abandon_with {B} (name context : string) (e : cl_error) : eprog B := abandon name (Wrap context e).

Definition NodePasswordSecret (node : string) : string := node +:+ ".node-password.k3s".

Definition forget_cmd (vmName : string) : list string :=
  [K3sBinaryPath; "kubectl"; "delete"; "secret"; NodePasswordSecret vmName; "-n"; "kube-system"; "--ignore-not-found"].

Definition ForgetNode (tenant clusterName vmName : string) : eprog unit :=
  _ <- DeleteVM vmName orelse return_err ;;
  a ← call (HExec (CPName tenant clusterName) (forget_cmd vmName));
  mret (match a with
        | inl _ => inl tt
        | inr m => inr (Wrap (CPName tenant clusterName) (PasswordNotCleared m))
        end).

Definition bootstrapScriptPath := "/root/containarium-bootstrap.sh".

Definition pushFile (name path content mode : string) : eprog unit :=
  let dir := Dir path in
  _ <- (if negb (String.eqb dir "") && negb (String.eqb dir "/") && negb (String.eqb dir ".")
        then value_or (HExec name ["mkdir"; "-p"; dir]) id else mret (inl "")) orelse fail ("create " +:+ dir) ;;
  done_or (HPush name path content mode) id.

Definition ProcCPUInfoPath := "/proc/cpuinfo".
Definition ProcMemInfoPath := "/proc/meminfo".

Definition observedNodeCapacity (name : string) : eprog (Z * Z) :=
  cpuinfo <- value_or (HExec name ["cat"; ProcCPUInfoPath]) id orelse fail ("read " +:+ ProcCPUInfoPath +:+ " on " +:+ name) ;;
  meminfo <- value_or (HExec name ["cat"; ProcMemInfoPath]) id orelse fail ("read " +:+ ProcMemInfoPath +:+ " on " +:+ name) ;;
  lift (match ParseProcCapacity cpuinfo meminfo with inl r => inl r | inr e => inr (ProcErr e) end).

Definition containerKubeletArgs (iso : string) (spec : NodeSpec) : eprog (list string) :=
  if negb (String.eqb iso IsolationContainer) then mret (inl [])
  else
    c <- observedNodeCapacity (sp_Name spec) orelse fail ("cannot establish " +:+ sp_Name spec +:+ "'s observed capacity, so its allocatable cannot be made truthful") ;;
    match NodeReservation c.1 c.2 spec with
    | inr e => fail ("node " +:+ sp_Name spec) (CapacityErr e)
    | inl reserved => mret (inl (ContainerKubeletArgs (KubeletReservedArgs reserved)))
    end.

Definition run_bootstrap (name : string) : ccall := HExec name ["sh"; bootstrapScriptPath].

Definition cp_spec (tenant clusterName : string) (cpSize : DesiredGroup) : NodeSpec :=
  mkSpec (CPName tenant clusterName) (dg_CPU cpSize) (dg_Memory cpSize) (dg_Disk cpSize)
    (VMLabels tenant clusterName RoleControlPlane "").

Definition ProvisionCP (tenant clusterName iso : string) (cpSize : DesiredGroup) (tlsSANs : list string) : eprog string :=
  let name := CPName tenant clusterName in
  let spec := cp_spec tenant clusterName cpSize in
  _ <- done_or (HCreateNode spec iso) id orelse fail "create control-plane node" ;;
  ip <- value_or (HWaitReady name waitReadyTimeout) id orelse abandon_with name ("control-plane VM " +:+ name +:+ " not ready") ;;
  bin <- value_or CBinary id orelse abandon name ;;
  _ <- pushFile name K3sBinaryPath bin "0755" orelse abandon_with name "push k3s binary" ;;
  kubeletArgs <- containerKubeletArgs iso spec orelse abandon_with name "control-plane kubelet args" ;;
  let script := RenderServerScript (mkServer (ip :: tlsSANs) iso kubeletArgs) in
  _ <- pushFile name bootstrapScriptPath script "0755" orelse abandon_with name "push bootstrap script" ;;
  _ <- value_or (run_bootstrap name) id orelse abandon_with name "control-plane bootstrap" ;;
  mret (inl ip).

Definition worker_spec (tenant clusterName : string) (g : DesiredGroup) (vmName : string) : NodeSpec :=
  mkSpec vmName (dg_CPU g) (dg_Memory g) (dg_Disk g) (VMLabels tenant clusterName RoleWorker (dg_Name g)).

(** A container worker's containerd template, derived from the control plane's.  Its
    error paths have abandoned the node when they return. *)
Definition worker_template (iso cp vmName : string) : eprog unit :=
  if String.eqb iso IsolationContainer then
    generated <- value_or (HRead cp ContainerdGeneratedConfigPath) id orelse abandon_with vmName ("read containerd config from " +:+ cp) ;;
    tmpl <- lift (match DeriveContainerdTemplate generated with Some t => inl t | None => inr TemplateErr end)
      orelse abandon_with vmName "derive containerd template" ;;
    _ <- pushFile vmName ContainerdConfigTemplatePath tmpl "0644" orelse abandon_with vmName "push containerd template" ;;
    mret (inl tt)
  else mret (inl tt).

Definition ProvisionWorker (tenant clusterName iso : string) (g : DesiredGroup) (vmName cpIP : string) : eprog unit :=
  let cp := CPName tenant clusterName in
  token <- value_or (HRead cp NodeTokenPath) id orelse fail ("read join token from " +:+ cp) ;;
  let spec := worker_spec tenant clusterName g vmName in
  _ <- (if String.eqb iso IsolationContainer then done_or (HNodeCapacityCapable spec) id else mret (inl tt))
    orelse fail "worker node capacity" ;;
  _ <- done_or (HCreateNode spec iso) id orelse fail "create worker node" ;;
  _ <- value_or (HWaitReady vmName waitReadyTimeout) id orelse abandon_with vmName ("worker VM " +:+ vmName +:+ " not ready") ;;
  bin <- value_or CBinary id orelse return_err ;;
  _ <- pushFile vmName K3sBinaryPath bin "0755" orelse abandon_with vmName "push k3s binary" ;;
  _ <- pushFile vmName AgentTokenPath token "0600" orelse abandon_with vmName "push join token" ;;
  _ <- worker_template iso cp vmName orelse return_err ;;
  kubeletArgs <- containerKubeletArgs iso spec orelse abandon_with vmName "worker kubelet args" ;;
  let script := RenderAgentScript (mkAgent ("https://" +:+ cpIP +:+ ":6443") iso kubeletArgs) in
  _ <- pushFile vmName bootstrapScriptPath script "0755" orelse abandon_with vmName "push bootstrap script" ;;
  _ <- value_or (run_bootstrap vmName) id orelse abandon_with vmName "worker bootstrap" ;;
  mret (inl tt).

Definition Kubeconfig (tenant clusterName endpoint : string) : eprog string :=
  raw <- value_or (HRead (CPName tenant clusterName) KubeconfigPath) id orelse fail "read kubeconfig" ;;
  mret (inl (if String.eqb endpoint "" then raw else RewriteKubeconfigServer raw endpoint)).

Definition CPIP (tenant clusterName : string) : eprog string :=
  value_or (HWaitReady (CPName tenant clusterName) (30 * Second)) id.

Definition ready_line (line : string) : bool :=
  match Fields line with _ :: status :: _ => String.eqb status "Ready" | _ => false end.

Definition ReadyNodes (tenant clusterName : string) : eprog Z :=
  out <- value_or (HExec (CPName tenant clusterName) [K3sBinaryPath; "kubectl"; "get"; "nodes"; "--no-headers"]) id
    orelse fail "kubectl get nodes" ;;
  mret (inl (Z.of_nat (length (filter (fun line => ready_line line = true) (split_char newline out))))).

Definition ca_files (d : CADeploy) (creds : CACredentials) : list (string * string * string) :=
  [(CAClientCertPath, ClientCertPEM creds, "0644"); (CAClientKeyPath, ClientKeyPEM creds, "0600");
   (CACACertPath, CACertPEM creds, "0644"); (CACloudConfigPath, RenderCACloudConfig d, "0644")].

Fixpoint push_files (cp : string) (files : list (string * string * string)) : eprog unit :=
  match files with
  | [] => mret (inl tt)
  | (path, content, mode) :: files =>
      _ <- pushFile cp path content mode orelse fail ("push " +:+ path) ;; push_files cp files
  end.

Definition caScriptPath := "/root/containarium-ca-bootstrap.sh".

Definition DeployCA (tenant clusterName : string) (d : CADeploy) (creds : CACredentials) : eprog unit :=
  let cp := CPName tenant clusterName in
  _ <- push_files cp (ca_files d creds) orelse return_err ;;
  _ <- pushFile cp caScriptPath (RenderCAUnitScript d) "0755" orelse fail "push CA bootstrap" ;;
  _ <- value_or (HExec cp ["sh"; caScriptPath]) id orelse fail "CA bootstrap" ;;
  mret (inl tt).

(** [embedded] is the vendored manifest bundle. *)
Definition DeployVPA (embedded tenant clusterName : string) : eprog unit :=
  let cp := CPName tenant clusterName in
  present ← call (HRead cp VPACertsPath);
  match present with
  | inl _ => mret (inl tt)
  | inr _ =>
      manifests <- lift (match VPAManifests embedded with inl m => inl m | inr m => inr (HostErr m) end) orelse return_err ;;
      keys <- value_or CWebhookCerts id orelse fail "generate VPA webhook certs" ;;
      _ <- pushFile cp VPACertsPath (vpa_secret keys.1.1 keys.1.2 keys.2) "0600" orelse fail "push VPA certs manifest" ;;
      _ <- pushFile cp VPAManifestPath manifests "0644" orelse fail "push VPA manifests" ;;
      mret (inl tt)
  end.
