(* ===== verification/ClusterReconciler.v ===== *)
(** * internal/server/cluster_reconciler.go: converging a cluster

    One pass lists the clusters and brings each a step closer to its record.  [error_text] is
    [Error()] of an error, whose message is not modelled; the seams that may be nil are
    options or booleans of [reconciler]. *)

From S2P Require Import Prelude Prog GoStrings GoStrconv GoNet Cluster ClusterStore ClusterDecide ClusterCapacity ClusterBootstrap.
From S2P Require Import ClusterApi ClusterManager.
From Stdlib Require Import Ascii.
#[local] Open Scope string_scope.
#[local] Open Scope list_scope.
#[local] Open Scope Z_scope.

Record ClusterReconciler := mkReconciler {
  r_admit : bool;          (** the admission gate is wired *)
  r_publish : bool;        (** the endpoint publisher is wired *)
  r_advertiseHost : string;
  r_vpaDisabled : bool;
  r_caAddr : string;
  r_mintCACert : bool;     (** the autoscaler is deployed *)
  r_vpaManifests : string; (** the embedded bundle *)
}.

Definition desired_group (g : NodeGroup) : DesiredGroup :=
  mkDesiredGroup (g_Name g) (EffectiveTarget g) (MaxNodes g) (CPU (g_Size g)) (Memory (g_Size g)) (Disk (g_Size g)).

Definition desiredFrom (c : Cluster) : Desired :=
  mkDesired (c_Owner c) (c_Name c) (bool_decide (c_State c = StateDeleting)) (map desired_group (c_NodeGroups c)).

Definition cpSize : DesiredGroup := mkDesiredGroup "" 0 0 "2" "4GB" "40GB".

(** [groupByName] of the actions: a later group of the same name wins, a missing one is the
    zero value. *)
Definition group_named (groups : list DesiredGroup) (name : string) : DesiredGroup :=
  default (mkDesiredGroup "" 0 0 "" "" "") (last (filter (fun g => dg_Name g = name) groups)).

Section Reconciler.
Context (r : ClusterReconciler) (error_text : cl_error -> string).

Definition controlPlaneSANs : list string := if String.eqb (r_advertiseHost r) "" then [] else [r_advertiseHost r].

(** A store call whose error is dropped. *)
Definition best_effort (op : store_op) : cprog unit := _ ← call (CStore op); mret tt.

(** [None] is admission; the release function of a gate that is not wired does nothing. *)
Definition admitSize (c : Cluster) (g : DesiredGroup) (what : string) : cprog (option string) :=
  if negb (r_admit r) then mret None
  else
    refused ← call (CAdmit (c_Owner c) (dg_CPU g));
    match refused with
    | None => mret None
    | Some m =>
        now ← call CNow;
        _ ← best_effort (OAppendEvent (c_Owner c) (c_Name c)
              (mkEvent now EventRefused what ("admission refused " +:+ what +:+ " cpu=" +:+ dg_CPU g +:+ ": " +:+ m)));
        mret (Some m)
    end.

Definition release : cprog unit := if r_admit r then call CRelease else mret tt.

(** The actions of a pass.  [inl true] is a return with nil: an admission was refused. *)
Definition create_cp (c : Cluster) (iso name : string) : eprog bool :=
  refused ← admitSize c cpSize "control-plane";
  match refused with
  | Some _ => mret (inl true)
  | None =>
      up ← ProvisionCP (c_Owner c) (c_Name c) iso cpSize controlPlaneSANs;
      _ ← release;
      match up with
      | inr e => fail "provision control plane" e
      | inl _ =>
          now ← call CNow;
          _ ← best_effort (OUpsertNode (mkNode (c_Owner c) (c_Name c) name RoleControlPlane "" NodeStateReady now));
          mret (inl false)
      end
  end.

Definition create_worker (c : Cluster) (iso : string) (g : DesiredGroup) (group name : string) : eprog bool :=
  refused ← admitSize c g group;
  match refused with
  | Some _ => mret (inl true)
  | None =>
      cpIP ← CPIP (c_Owner c) (c_Name c);
      match cpIP with
      | inr e => _ ← release; fail "control-plane IP" e
      | inl cpIP =>
          joined ← ProvisionWorker (c_Owner c) (c_Name c) iso g name cpIP;
          _ ← release;
          match joined with
          | inr e => fail ("provision worker " +:+ name) e
          | inl _ =>
              now ← call CNow;
              _ ← best_effort (OUpsertNode (mkNode (c_Owner c) (c_Name c) name RoleWorker group NodeStateProvisioning now));
              now ← call CNow;
              _ ← best_effort (OAppendEvent (c_Owner c) (c_Name c)
                    (mkEvent now EventScaleUp group "reconciler: group below min_nodes"));
              mret (inl false)
          end
      end
  end.

Definition perform_action (c : Cluster) (iso : string) (groups : list DesiredGroup) (act : Action) : eprog bool :=
  let name := a_Name act in
  match a_Kind act with
  | ActionCreateCP => create_cp c iso name
  | ActionCreateWorker => create_worker c iso (group_named groups (a_Group act)) (a_Group act) name
  | ActionStartVM => _ <- StartVM name orelse fail ("start " +:+ name) ;; mret (inl false)
  | ActionDeleteVM =>
      _ <- DeleteVM name orelse fail ("delete " +:+ name) ;;
      _ ← best_effort (ODeleteNode (c_Owner c) (c_Name c) name);
      mret (inl false)
  end.

Fixpoint perform_actions (c : Cluster) (iso : string) (groups : list DesiredGroup) (acts : list Action) : eprog bool :=
  match acts with
  | [] => mret (inl false)
  | act :: acts =>
      refused <- perform_action c iso groups act orelse return_err ;;
      if refused : bool then mret (inl true) else perform_actions c iso groups acts
  end.

(** The tail of a pass over a cluster that is being deleted. *)
Definition finish_delete (c : Cluster) : eprog unit :=
  observed <- Observe (c_Owner c) (c_Name c) orelse fail "observe after teardown" ;;
  if bool_decide (ob_CP observed = None) && bool_decide (ob_Workers observed = ∅) then
    _ <- (if r_publish r then done_or (CUnpublish c) id else mret (inl tt)) orelse fail "unpublish endpoint" ;;
    _ <- store_do (ODelete (c_Owner c) (c_Name c)) id orelse fail "delete record" ;;
    mret (inl tt)
  else mret (inl tt).

(** The rows of a cluster that has become ready. *)
Fixpoint mark_ready (nodes : list Node) : cprog unit :=
  match nodes with
  | [] => mret tt
  | n :: nodes =>
      _ ← (if bool_decide (n_State n = NodeStateReady) then mret tt
           else best_effort (OUpsertNode (mkNode (n_Owner n) (n_Cluster n) (n_VMName n) (n_Role n) (n_Group n) NodeStateReady (n_CreatedAt n))));
      mark_ready nodes
  end.

(** The endpoint, recorded once the control plane is up. *)
Definition settle_endpoint (c : Cluster) : eprog unit :=
  if negb (String.eqb (c_APIEndpoint c) "") then mret (inl tt)
  else
    cpIP <- CPIP (c_Owner c) (c_Name c) orelse fail "control-plane IP" ;;
    endpoint <- (if r_publish r then value_or (CPublish c cpIP) id else mret (inl (cpIP +:+ ":6443")))
      orelse fail "publish endpoint" ;;
    now ← call CNow;
    store_do (OSetEndpoint now (c_Owner c) (c_Name c) endpoint) id ≫= fun r =>
    match r with inl _ => mret (inl tt) | inr e => fail "record endpoint" e end.

Definition deploy_ca (c : Cluster) : eprog unit :=
  creds <- value_or (CMintCACert (c_Owner c) (c_Name c)) id orelse fail "mint autoscaler credential" ;;
  _ <- DeployCA (c_Owner c) (c_Name c) (mkCADeploy (r_caAddr r)) creds orelse fail "deploy autoscaler" ;;
  mret (inl tt).

Definition set_state (c : Cluster) (st : State) (reason : string) : eprog unit :=
  now ← call CNow; store_do (OSetState now (c_Owner c) (c_Name c) st reason) id.

(** READY when every expected node is, DEGRADED when a ready cluster falls short. *)
Definition settle_ready (c : Cluster) (ready expected : Z) : eprog unit :=
  if (expected <=? ready) && negb (bool_decide (c_State c = StateReady)) then
    _ <- set_state c StateReady "" orelse return_err ;;
    nodes ← call (CStore (OListNodes (c_Owner c) (c_Name c)));
    _ ← mark_ready (match nodes with inl l => l | inr _ => [] end);
    mret (inl tt)
  else if (ready <? expected) && bool_decide (c_State c = StateReady) then
    set_state c StateDegraded (Itoa ready +:+ " of " +:+ Itoa expected +:+ " expected nodes Ready")
  else mret (inl tt).

Definition expected_nodes (c : Cluster) : Z := foldl (fun z g => wrap i64 (z + EffectiveTarget g)) 1 (c_NodeGroups c).

Definition settleState (c : Cluster) : eprog unit :=
  observed <- Observe (c_Owner c) (c_Name c) orelse fail "observe" ;;
  match ob_CP observed with
  | None => mret (inl tt)
  | Some cp =>
      if negb (vm_Running cp) then mret (inl tt)
      else
        let settled := bool_decide (c_State c = StateReady) in
        _ <- settle_endpoint c orelse return_err ;;
        _ <- (if r_vpaDisabled r || settled then mret (inl tt) else DeployVPA (r_vpaManifests r) (c_Owner c) (c_Name c))
          orelse fail "deploy VPA" ;;
        _ <- (if negb (r_mintCACert r) || settled then mret (inl tt) else deploy_ca c) orelse return_err ;;
        ready ← ReadyNodes (c_Owner c) (c_Name c);
        match ready with
        | inr _ => mret (inl tt)
        | inl ready => settle_ready c ready (expected_nodes c)
        end
  end.

Definition reconcileCluster (snapshot : Cluster) : eprog unit :=
  observed <- Observe (c_Owner snapshot) (c_Name snapshot) orelse fail "observe" ;;
  fresh ← call (CStore (OGet (c_Owner snapshot) (c_Name snapshot)));
  let c := match fresh with inl c => c | inr _ => snapshot end in
  let desired := desiredFrom c in
  refused <- perform_actions c (coreIsolation (c_NodeIsolation c)) (ds_Groups desired) (Decide desired observed) orelse return_err ;;
  if refused : bool then mret (inl tt)
  else if ds_Deleting desired then finish_delete c else settleState c.

Fixpoint reconcile_all (clusters : list Cluster) : cprog unit :=
  match clusters with
  | [] => mret tt
  | c :: clusters =>
      res ← reconcileCluster c;
      _ ← match res with
          | inl _ => mret tt
          | inr e => now ← call CNow; best_effort (OSetState now (c_Owner c) (c_Name c) StateError (error_text e))
          end;
      reconcile_all clusters
  end.

Definition ReconcileOnce : cprog unit :=
  clusters ← call (CStore (OList ""));
  match clusters with inr _ => mret tt | inl clusters => reconcile_all clusters end.

(** [NodeCapable], [ReadKubeconfig]: what the API server asks of the reconciler. *)
Definition NodeCapable (iso : string) : eprog unit :=
  if String.eqb (coreIsolation iso) IsolationContainer then done_or HContainerNodeCapable id else done_or HVMCapable id.

Definition ReadKubeconfig (c : Cluster) : eprog string := Kubeconfig (c_Owner c) (c_Name c) (c_APIEndpoint c).
End Reconciler.
