(* ===== verification/ClusterCA.v ===== *)
(** * internal/server/ca_provider_server.go: the autoscaler's provider

    The calls of a cluster's own autoscaler.  [now], [st] and [ctx] are the clock, the scope
    counters and the caller's context of package auth; a request is named by its fields. *)

From S2P Require Import Prelude Prog GoStrings Auth Cluster ClusterStore ClusterDecide ClusterCapacity ClusterBootstrap.
From S2P Require Import ClusterApi ClusterManager.
From Stdlib Require Import Ascii.
#[local] Open Scope string_scope.
#[local] Open Scope list_scope.
#[local] Open Scope Z_scope.

Definition CASubjectPrefix := "k8s-cluster:".
Definition CASubject (owner name : string) : string := CASubjectPrefix +:+ owner +:+ "/" +:+ name.
Definition ScopeClustersScale := "clusters:scale".

(** A status code with its cause. *)
Inductive ca_error :=
| CaAuth (e : auth_error) | CaNotMachine | CaMalformed | CaForeign (id : string)
| CaStore (e : store_error) | CaNoGroup (id : string) | CaBadDelta (delta : Z) | CaExceedsMax (target max : Z)
| CaUnobserved (node : string) (m : string) | CaStillOnHost (node : string) | CaDelete (node : string) (e : cl_error)
| CaBelowExisting (existing : Z).

Definition groupID (owner name group : string) : string := owner +:+ "/" +:+ name +:+ "/" +:+ group.

Inductive InstanceState := InstanceRunning | InstanceCreating | InstanceDeleting.

Definition providerIDPrefix := "containarium://".

Abbreviation caprog R := (prog cans (R + ca_error)) (only parsing).

Section Provider.
Context (now : Time) (st : scope_state) (ctx : Context).

Definition caIdentity : (string * string) + ca_error :=
  match (RequireScope now ctx ScopeClustersScale st).1 with
  | Some e => inr (CaAuth e)
  | None =>
      let '(subject, _, ok) := SubjectFromGRPCContext ctx in
      if negb ok || negb (HasPrefix CASubjectPrefix subject) then inr CaNotMachine
      else
        let '(owner, name, ok) := Cut "/" (TrimPrefix subject CASubjectPrefix) in
        if negb ok || String.eqb owner "" || String.eqb name "" then inr CaMalformed else inl (owner, name)
  end.

Definition groupFromID (id : string) : caprog (string * string * NodeGroup) :=
  match caIdentity with
  | inr e => mret (inr e)
  | inl (owner, name) =>
      match split_char "/" id with
      | [p0; p1; p2] =>
          if negb (String.eqb p0 owner) || negb (String.eqb p1 name) then mret (inr (CaForeign id))
          else
            c ← call (CStore (OGet owner name));
            mret (match c with
                  | inr e => inr (CaStore e)
                  | inl c => match filter (fun g => g_Name g = p2) (c_NodeGroups c) with
                             | g :: _ => inl (owner, name, g)
                             | [] => inr (CaNoGroup id)
                             end
                  end)
      | _ => mret (inr (CaForeign id))
      end
  end.

(** [NodeGroups]: id, minimum and maximum of each group. *)
Definition NodeGroups : caprog (list (string * Z * Z)) :=
  match caIdentity with
  | inr e => mret (inr e)
  | inl (owner, name) =>
      c ← call (CStore (OGet owner name));
      mret (match c with
            | inr e => inr (CaStore e)
            | inl c => inl (map (fun g => (groupID owner name (g_Name g), MinNodes g, MaxNodes g)) (c_NodeGroups c))
            end)
  end.

Definition NodeGroupForNode (nodeName : string) : caprog string :=
  match caIdentity with
  | inr e => mret (inr e)
  | inl (owner, name) =>
      nodes ← call (CStore (OListNodes owner name));
      mret (match nodes with
            | inr e => inr (CaStore e)
            | inl nodes =>
                match filter (fun n => n_VMName n = nodeName /\ n_Role n = RoleWorker) nodes with
                | n :: _ => inl (groupID owner name (n_Group n))
                | [] => inl ""
                end
            end)
  end.

Definition NodeGroupTargetSize (id : string) : caprog Z :=
  g ← groupFromID id;
  mret (match g with inr e => inr e | inl (_, _, g) => inl (EffectiveTarget g) end).

(** The time of the store's own clock goes with the call. *)
Definition setTarget (owner name group : string) (target : Z) : caprog unit :=
  now ← call CNow;
  err ← call (CStore (OSetNodeGroupTarget now owner name group target));
  mret (match err with None => inl tt | Some e => inr (CaStore e) end).

Definition record (owner name : string) (kind : EventKind) (group reason : string) : cprog unit :=
  now ← call CNow; _ ← call (CStore (OAppendEvent owner name (mkEvent now kind group reason))); mret tt.

Definition NodeGroupIncreaseSize (id : string) (delta : Z) : caprog unit :=
  g ← groupFromID id;
  match g with
  | inr e => mret (inr e)
  | inl (owner, name, g) =>
      if delta <=? 0 then mret (inr (CaBadDelta delta))
      else
        let target := wrap i32 (EffectiveTarget g + delta) in
        if MaxNodes g <? target then
          _ ← record owner name EventRefused (g_Name g)
                ("autoscaler asked for " +:+ Itoa target +:+ " nodes; max_nodes is " +:+ Itoa (MaxNodes g));
          mret (inr (CaExceedsMax target (MaxNodes g)))
        else
          done ← setTarget owner name (g_Name g) target;
          match done with
          | inr e => mret (inr e)
          | inl _ =>
              _ ← record owner name EventScaleUp (g_Name g)
                    ("autoscaler raised target to " +:+ Itoa target +:+ " (pending pods)");
              mret (inl tt)
          end
  end.

Definition in_group (g : NodeGroup) (rows : list Node) : list string := n_VMName <$> filter (fun n => n_Group n = g_Name g) rows.

Definition host_names (o : Observed) : list string :=
  match ob_CP o with Some cp => [vm_Name cp] | None => [] end
  ++ (vm_Name <$> concat (map_to_list (ob_Workers o)).*2).

(** The nodes of the request there is something to do about. *)
Fixpoint to_delete (group : list string) (host : Observed + string) (nodes : list string) : list string + ca_error :=
  match nodes with
  | [] => inl []
  | n :: nodes =>
      let rest := to_delete group host nodes in
      if bool_decide (n ∈ group) then match rest with inl l => inl (n :: l) | inr e => inr e end
      else match host with
           | inr m => inr (CaUnobserved n m)
           | inl o => if bool_decide (n ∈ host_names o) then inr (CaStillOnHost n) else rest
           end
  end.

(** The loop that removes the nodes; the result names those whose secret stayed. *)
Fixpoint remove_nodes (owner name : string) (nodes : list string) : caprog (list string) :=
  match nodes with
  | [] => mret (inl [])
  | n :: nodes =>
      gone ← ForgetNode owner name n;
      match gone with
      | inr e =>
          if negb (is_password e) then mret (inr (CaDelete n e))
          else
            _ ← call (CStore (ODeleteNode owner name n));
            rest ← remove_nodes owner name nodes;
            mret (match rest with inl l => inl (n :: l) | inr e => inr e end)
      | inl _ =>
          _ ← call (CStore (ODeleteNode owner name n));
          remove_nodes owner name nodes
      end
  end.

Definition removed_reason (count : nat) (target : Z) (stale : list string) : string :=
  "autoscaler removed " +:+ Itoa (Z.of_nat count) +:+ " drained node(s); target now " +:+ Itoa target
  +:+ match stale with
      | [] => ""
      | _ => "; WARNING: node-password secret still present for " +:+ Join ", " stale
             +:+ " — a future node of that name will be refused until it is removed"
      end.

(** What the group keeps: its rows without the batch, at least the minimum.  Counters and
    batch length are int32. *)
Definition target_after (g : NodeGroup) (rows : list Node) (batch : list string) : Z :=
  let target := wrap i32 (wrap i32 (Z.of_nat (length (in_group g rows))) - wrap i32 (Z.of_nat (length batch))) in
  if target <? MinNodes g then MinNodes g else target.

Definition NodeGroupDeleteNodes (id : string) (nodes : list string) : caprog unit :=
  g ← groupFromID id;
  match g with
  | inr e => mret (inr e)
  | inl (owner, name, g) =>
      rows ← call (CStore (OListNodes owner name));
      match rows with
      | inr e => mret (inr (CaStore e))
      | inl rows =>
          host ← call (HClusterVMs owner name);
          match to_delete (in_group g rows) host nodes with
          | inr e => mret (inr e)
          | inl batch =>
              let target := target_after g rows batch in
              lowered ← setTarget owner name (g_Name g) target;
              match lowered with
              | inr e => mret (inr e)
              | inl _ =>
                  stale ← remove_nodes owner name batch;
                  match stale with
                  | inr e => mret (inr e)
                  | inl stale =>
                      match batch with
                      | [] => mret (inl tt)
                      | _ =>
                          _ ← record owner name EventScaleDown (g_Name g) (removed_reason (length batch) target stale);
                          mret (inl tt)
                      end
                  end
              end
          end
      end
  end.

Definition NodeGroupDecreaseTargetSize (id : string) (delta : Z) : caprog unit :=
  g ← groupFromID id;
  match g with
  | inr e => mret (inr e)
  | inl (owner, name, g) =>
      if 0 <=? delta then mret (inr (CaBadDelta delta))
      else
        rows ← call (CStore (OListNodes owner name));
        match rows with
        | inr e => mret (inr (CaStore e))
        | inl rows =>
            let existing := wrap i32 (Z.of_nat (length (in_group g rows))) in
            let target := wrap i32 (EffectiveTarget g + delta) in
            if target <? existing then mret (inr (CaBelowExisting existing))
            else setTarget owner name (g_Name g) (if target <? MinNodes g then MinNodes g else target)
        end
  end.

Definition instance_state (s : NodeState) : InstanceState :=
  match s with
  | NodeStateProvisioning => InstanceCreating
  | NodeStateDraining => InstanceDeleting
  | NodeStateReady => InstanceRunning
  end.

Definition NodeGroupNodes (id : string) : caprog (list (string * InstanceState)) :=
  g ← groupFromID id;
  match g with
  | inr e => mret (inr e)
  | inl (owner, name, g) =>
      rows ← call (CStore (OListNodes owner name));
      mret (match rows with
            | inr e => inr (CaStore e)
            | inl rows => inl (map (fun n => (providerIDPrefix +:+ n_VMName n, instance_state (n_State n)))
                                 (filter (fun n => n_Group n = g_Name g) rows))
            end)
  end.

(** The quantities of a size; Kubernetes has no "GB". *)
Definition sizeToResourceList (s : Size) : gmap string string :=
  <["pods" := Itoa 110]> (<["memory" := TrimSuffix (Memory s) "B"]> {["cpu" := CPU s]}).

(** The template node: its name and its quantities, as capacity and as allocatable. *)
Definition NodeGroupTemplateNodeInfo (id : string) : caprog (string * gmap string string) :=
  g ← groupFromID id;
  mret (match g with
        | inr e => inr e
        | inl (owner, name, g) => inl (WorkerName owner name (g_Name g) 0, sizeToResourceList (g_Size g))
        end).
End Provider.

(** What [to_delete] selects. *)
Lemma to_delete_filter group host ns batch : to_delete group host ns = inl batch -> batch = filter (fun n => n ∈ group) ns.
Proof.
  revert batch. induction ns as [|n ns IH]; intros batch; cbn [to_delete]; [by intros [= <-]|]. rewrite filter_cons.
  unfold bool_decide.
  destruct (decide_rel _ n group) as [Hin|Hin]; [rewrite decide_True by done|rewrite decide_False by done].
  - destruct (to_delete group host ns) as [l|e]; [|done]. intros [= <-]. f_equal. by apply IH.
  - destruct host as [o|m]; [|done]. case_match; [done|]. apply IH.
Qed.
