(* ===== verification/ClusterRpc.v ===== *)
(** * internal/server/cluster_server.go: the API of managed clusters

    Handlers check the caller, validate the request and change the record; the reconciler
    does the rest.  Messages are named by their fields; conversions to protobuf are left
    out except for the groups of a request. *)

From S2P Require Import Prelude Prog GoStrings Auth Cluster ClusterStore ClusterDecide ClusterCapacity ClusterBootstrap.
From S2P Require Import ClusterApi ClusterManager ClusterReconciler.
From Stdlib Require Import Ascii.
#[local] Open Scope string_scope.
#[local] Open Scope list_scope.
#[local] Open Scope Z_scope.

Definition ScopeClustersRead := "clusters:read".
Definition ScopeClustersWrite := "clusters:write".

Record ResourceLimits := mkLimits {
  rl_Cpu : string; rl_Memory : string; rl_Disk : string; rl_Gpu : string; rl_Gpus : list string; rl_StorageClass : string
}.

Record pb_NodeGroup := mkPbGroup { pg_Name : string; pg_Size : option ResourceLimits; pg_MinNodes : Z; pg_MaxNodes : Z }.

Record ClusterServer := mkServer {
  s_reconciler : bool;  (** [SetReconciler] was called: kubeconfig, probe and asynchronous deletion *)
  s_caps : clusterCaps;
  s_isolation : isolationGate;
}.

Inductive request_error := SizeRequired (g : string) | GpuUnsupported (g : string) | StorageClass (g : string).

Inductive cluster_rejection :=
| CrAuth (e : auth_error) | CrStore (e : store_error) | CrName | CrGroups (e : group_error) | CrRequest (e : request_error)
| CrIsolation (e : isolation_error) | CrIncapable (e : cl_error) | CrCaps (e : caps_error)
| CrNotReady (st : State) | CrUnimplemented | CrKubeconfig (e : cl_error).

Definition group_from_proto (g : pb_NodeGroup) : NodeGroup + request_error :=
  match pg_Size g with
  | None => inr (SizeRequired (pg_Name g))
  | Some s =>
      if negb (String.eqb (rl_Gpu s) "") || (0 <? Z.of_nat (length (rl_Gpus s))) then inr (GpuUnsupported (pg_Name g))
      else if negb (String.eqb (rl_StorageClass s) "") then inr (StorageClass (pg_Name g))
      else inl (mkGroup (pg_Name g) (mkSize (rl_Cpu s) (rl_Memory s) (rl_Disk s)) (pg_MinNodes g) (pg_MaxNodes g) 0)
  end.

Fixpoint groupsFromProto (groups : list pb_NodeGroup) : list NodeGroup + request_error :=
  match groups with
  | [] => inl []
  | g :: groups =>
      match group_from_proto g with
      | inr e => inr e
      | inl g => match groupsFromProto groups with inl gs => inl (g :: gs) | inr e => inr e end
      end
  end.

Definition defaultEventsLimit : Z := 20.
Definition maxEventsLimit : Z := 1000.
Definition clampEventsLimit (v : Z) : Z :=
  if v <=? 0 then defaultEventsLimit else if maxEventsLimit <? v then maxEventsLimit else v.

Abbreviation rpc R := (prog cans (R + cluster_rejection)) (only parsing).

Section Server.
Context (s : ClusterServer) (caps_text : caps_error -> string) (now : Time) (st : scope_state) (ctx : Context).

Definition resolveOwner (reqOwner : string) : string + auth_error :=
  let owner := if String.eqb reqOwner "" then
                 let '(username, _, ok) := SubjectFromGRPCContext ctx in if ok then inl username else inr NoSubject
               else inl reqOwner in
  match owner with
  | inr e => inr e
  | inl owner => match AuthorizeTenant ctx owner with Some e => inr e | None => inl owner end
  end.

(** What every handler on one cluster checks first. *)
Definition caller_owner (scope reqOwner : string) : string + cluster_rejection :=
  match (RequireScope now ctx scope st).1 with
  | Some e => inr (CrAuth e)
  | None => match resolveOwner reqOwner with inr e => inr (CrAuth e) | inl owner => inl owner end
  end.

(** The refusal, recorded on the cluster's history when it has one. *)
Definition enforceCaps (owner name : string) (groups : list NodeGroup) (recordEvent : bool) : rpc unit :=
  match caps_check (s_caps s) groups with
  | None => mret (inl tt)
  | Some e =>
      _ ← (if recordEvent : bool then
             at_ ← call CNow; _ ← call (CStore (OAppendEvent owner name (mkEvent at_ EventRefused "" (caps_text e)))); mret tt
           else mret tt);
      mret (inr (CrCaps e))
  end.

Definition CreateCluster (reqOwner name : string) (reqIsolation : Z) (reqGroups : list pb_NodeGroup) : rpc Cluster :=
  match caller_owner ScopeClustersWrite reqOwner with
  | inr e => mret (inr e)
  | inl owner =>
      if negb (ValidateName name) then mret (inr CrName)
      else match enforceIsolation (s_isolation s) reqIsolation with
           | inr e => mret (inr (CrIsolation e))
           | inl isolation =>
               capable ← (if s_reconciler s then NodeCapable isolation else mret (inl tt));
               match capable with
               | inr e => mret (inr (CrIncapable e))
               | inl _ =>
                   match groupsFromProto reqGroups with
                   | inr e => mret (inr (CrRequest e))
                   | inl groups =>
                       let groups := match groups with [] => DefaultNodeGroups | _ => groups end in
                       match ValidateNodeGroups groups with
                       | Some e => mret (inr (CrGroups e))
                       | None =>
                           fits ← enforceCaps owner name groups false;
                           match fits with
                           | inr e => mret (inr e)
                           | inl _ =>
                               at_ ← call CNow;
                               id ← call CNewID;
                               let c := mkCluster id owner name StateProvisioning "" "" "" groups isolation at_ at_ in
                               err ← call (CStore (OCreate c));
                               mret (match err with Some e => inr (CrStore e) | None => inl c end)
                           end
                       end
                   end
               end
           end
  end.

Definition ListClusters (reqOwner : string) : rpc (list Cluster) :=
  match (RequireScope now ctx ScopeClustersRead st).1 with
  | Some e => mret (inr (CrAuth e))
  | None =>
      let owner :=
        if negb (String.eqb reqOwner "") then
          match AuthorizeTenant ctx reqOwner with Some e => inr e | None => inl reqOwner end
        else
          let '(username, roles, ok) := SubjectFromGRPCContext ctx in
          if negb ok then inr NoSubject else inl (if HasRole roles RoleAdmin then "" else username) in
      match owner with
      | inr e => mret (inr (CrAuth e))
      | inl owner =>
          l ← call (CStore (OList owner));
          mret (match l with inl l => inl l | inr e => inr (CrStore e) end)
      end
  end.

Definition GetCluster (reqOwner name : string) : rpc Cluster :=
  match caller_owner ScopeClustersRead reqOwner with
  | inr e => mret (inr e)
  | inl owner =>
      c ← call (CStore (OGet owner name));
      mret (match c with inl c => inl c | inr e => inr (CrStore e) end)
  end.

Definition DeleteCluster (reqOwner name : string) : rpc unit :=
  match caller_owner ScopeClustersWrite reqOwner with
  | inr e => mret (inr e)
  | inl owner =>
      if s_reconciler s then
        c ← call (CStore (OGet owner name));
        match c with
        | inr e => mret (inr (CrStore e))
        | inl _ =>
            at_ ← call CNow;
            err ← call (CStore (OSetState at_ owner name StateDeleting ""));
            mret (match err with Some e => inr (CrStore e) | None => inl tt end)
        end
      else
        err ← call (CStore (ODelete owner name));
        mret (match err with Some e => inr (CrStore e) | None => inl tt end)
  end.

Definition GetClusterKubeconfig (reqOwner name : string) : rpc string :=
  match caller_owner ScopeClustersWrite reqOwner with
  | inr e => mret (inr e)
  | inl owner =>
      c ← call (CStore (OGet owner name));
      match c with
      | inr e => mret (inr (CrStore e))
      | inl c =>
          if negb (bool_decide (c_State c = StateReady)) then mret (inr (CrNotReady (c_State c)))
          else if negb (s_reconciler s) then mret (inr CrUnimplemented)
          else kc ← ReadKubeconfig c; mret (match kc with inl kc => inl kc | inr e => inr (CrKubeconfig e) end)
      end
  end.

(** The counts of the status: nodes of each group. *)
Definition current_nodes (nodes : list Node) (group : string) : Z :=
  if String.eqb group "" then 0 else wrap i32 (Z.of_nat (length (filter (fun n => n_Group n = group) nodes))).

Definition GetClusterStatus (reqOwner name : string) (eventsLimit : Z)
  : rpc (Cluster * list Node * list (NodeGroup * Z) * list Event) :=
  match caller_owner ScopeClustersRead reqOwner with
  | inr e => mret (inr e)
  | inl owner =>
      c ← call (CStore (OGet owner name));
      match c with
      | inr e => mret (inr (CrStore e))
      | inl c =>
          nodes ← call (CStore (OListNodes owner name));
          match nodes with
          | inr e => mret (inr (CrStore e))
          | inl nodes =>
              events ← call (CStore (OListEvents owner name (clampEventsLimit eventsLimit)));
              mret (match events with
                    | inr e => inr (CrStore e)
                    | inl events =>
                        inl (c, nodes, map (fun g => (g, current_nodes nodes (g_Name g))) (c_NodeGroups c), events)
                    end)
          end
      end
  end.

Definition UpdateClusterNodePool (reqOwner name : string) (reqGroups : list pb_NodeGroup) : rpc Cluster :=
  match caller_owner ScopeClustersWrite reqOwner with
  | inr e => mret (inr e)
  | inl owner =>
      match groupsFromProto reqGroups with
      | inr e => mret (inr (CrRequest e))
      | inl groups =>
          match ValidateNodeGroups groups with
          | Some e => mret (inr (CrGroups e))
          | None =>
              fits ← enforceCaps owner name groups true;
              match fits with
              | inr e => mret (inr e)
              | inl _ =>
                  at_ ← call CNow;
                  err ← call (CStore (OUpdateNodeGroups at_ owner name groups));
                  match err with
                  | Some e => mret (inr (CrStore e))
                  | None =>
                      c ← call (CStore (OGet owner name));
                      mret (match c with inl c => inl c | inr e => inr (CrStore e) end)
                  end
              end
          end
      end
  end.
End Server.
