(* ===== verification/ClusterWorld.v ===== *)
(** * The world of the cluster orchestration

    A store in memory and the instances of a host.  [exec] is what a call may do and
    answer: the store works, the host and the other seams may fail at every call.  A call that
    creates an instance may fail half-way (IncusHost.CreateNode creates, labels and starts),
    and a deletion may have taken effect although it answers an error. *)

From S2P Require Import Prelude Prog GoStrings GoUtf8 Incus Cluster ClusterStore ClusterDecide ClusterCapacity ClusterBootstrap.
From S2P Require Import ClusterApi ClusterManager.
From Stdlib Require Import Ascii.
#[local] Open Scope string_scope.
#[local] Open Scope list_scope.
#[local] Open Scope Z_scope.

Record cworld := mkWorld { w_store : MemStore; w_host : gmap string ContainerInfo }.

Definition instance (name state : string) (labels : gmap string string) : ContainerInfo :=
  mkInfo name "" state labels "" false 15 0.

(** IncusHost.CreateNode. *)
Definition creates_node (spec : NodeSpec) (a : option string) (h h' : gmap string ContainerInfo) : Prop :=
  let name := sp_Name spec in
  match a with
  | None => h !! name = None /\ h' = <[name := instance name "Running" (sp_Labels spec)]> h
  | Some _ =>
      h' = h \/ h !! name = None /\ (h' = <[name := instance name "Stopped" ∅]> h \/
                                      h' = <[name := instance name "Stopped" (sp_Labels spec)]> h)
  end.

(** Starting and stopping change the state only. *)
Definition set_run (state : string) (c : ContainerInfo) : ContainerInfo :=
  mkInfo (ci_Name c) (ci_Username c) state (ci_Labels c) (ci_Role c) (ci_AutoSleepEnabled c)
    (ci_IdleThresholdMinutes c) (ci_LastStartedAt c).

Definition runs (name : string) (h h' : gmap string ContainerInfo) : Prop :=
  exists state, h' = alter (set_run state) name h.

Definition deletes_node (name : string) (a : option string) (h h' : gmap string ContainerInfo) : Prop :=
  match a with
  | None => is_Some (h !! name) /\ h' = delete name h
  | Some _ => h' = h \/ h' = delete name h
  end.

Definition instances (w : cworld) : list ContainerInfo := (map_to_list (w_host w)).*2.

Definition exec (w : cworld) (c : ccall) : cans c -> cworld -> Prop :=
  match c return cans c -> cworld -> Prop with
  | CStore op => fun a w' => store_ans op (w_store w) = (a, w_store w') /\ w_host w' = w_host w
  | HCreateNode spec _ => fun a w' => w_store w' = w_store w /\ creates_node spec a (w_host w) (w_host w')
  | HStart name | HStop name => fun a w' => w_store w' = w_store w /\ runs name (w_host w) (w_host w')
  | HDelete name => fun a w' => w_store w' = w_store w /\ deletes_node name a (w_host w) (w_host w')
  | HClusterVMs t n => fun a w' => w' = w /\ (a = inl (ClusterVMs t n (instances w)) \/ exists m, a = inr m)
  | _ => fun _ w' => w' = w
  end.

(** ** What the host shows of a cluster *)

Definition worker_of (tenant clusterName group : string) (c : ContainerInfo) : Prop :=
  labelled tenant clusterName c /\ label c LabelClusterRole = RoleWorker /\ label c LabelNodeGroup = group.

#[export] Instance worker_of_dec t n g c : Decision (worker_of t n g c).
Proof. unfold worker_of. apply _. Defined.

Definition vm_of (c : ContainerInfo) : ObservedVM := mkVM (ci_Name c) (EqualFold (ci_State c) "running").

Lemma observe_workers o c g :
  workers (observe o c) g =
    workers o g ++ (if bool_decide (label c LabelClusterRole = RoleWorker /\ label c LabelNodeGroup = g) then [vm_of c] else []).
Proof.
  unfold observe. destruct (String.eqb_spec (label c LabelClusterRole) RoleControlPlane) as [Hcp|Hcp].
  - rewrite bool_decide_false, app_nil_r; [done|]. by intros [Hw _]; rewrite Hw in Hcp.
  - destruct (String.eqb_spec (label c LabelClusterRole) RoleWorker) as [Hw|Hw].
    + unfold workers at 1. cbn. destruct (decide (label c LabelNodeGroup = g)) as [<-|Hne].
      * rewrite lookup_insert_eq, bool_decide_true by done. done.
      * rewrite lookup_insert_ne, bool_decide_false by (try done; tauto). by rewrite app_nil_r.
    + rewrite bool_decide_false, app_nil_r by tauto. done.
Qed.

Lemma ClusterVMs_workers t n g all : workers (ClusterVMs t n all) g = vm_of <$> filter (worker_of t n g) all.
Proof.
  unfold ClusterVMs. set (o := mkObserved None ∅).
  assert (Hgen : forall o, workers (foldl observe o (filter (labelled t n) all)) g
                           = workers o g ++ (vm_of <$> filter (worker_of t n g) all)).
  { clear o. induction all as [|c all IH]; intros o; [by rewrite app_nil_r|]. rewrite !filter_cons.
    destruct (decide (labelled t n c)) as [Hl|Hl].
    - cbn. rewrite IH, observe_workers, <- app_assoc. f_equal.
      case_bool_decide as Hw; [rewrite decide_True by (by split)|rewrite decide_False by (by intros [_ ?])]; done.
    - rewrite decide_False by (by intros [? _]). apply IH. }
  by rewrite Hgen.
Qed.

(** The instances of a group, by name. *)
Definition group_instances (t n g : string) (h : gmap string ContainerInfo) : gset string :=
  dom (filter (fun '(_, c) => worker_of t n g c) h).

Lemma elem_of_group_instances t n g h vm :
  vm ∈ group_instances t n g h <-> exists c, h !! vm = Some c /\ worker_of t n g c.
Proof.
  unfold group_instances. rewrite elem_of_dom. split.
  - intros [c [Hc Hw]%map_lookup_filter_Some]. eauto.
  - intros (c & Hc & Hw). exists c. by apply map_lookup_filter_Some.
Qed.

Lemma filter_values_length {A} (P : A -> Prop) `{!forall x, Decision (P x)} (h : gmap string A) :
  length (filter P (map_to_list h).*2) = size (filter (fun '(_, c) => P c) h).
Proof.
  induction h as [|k c h Hk IH] using map_ind; [by rewrite map_to_list_empty, map_filter_empty, map_size_empty|].
  rewrite (map_to_list_insert h k c Hk), fmap_cons, filter_cons. cbn [snd]. rewrite map_filter_insert.
  destruct (decide (P c)) as [Hc|Hc]; cbn [length].
  - rewrite IH, map_size_insert_None; [done|]. by apply map_lookup_filter_None; left.
  - rewrite IH. f_equal. by rewrite delete_id.
Qed.

Lemma observed_count t n g w :
  length (workers (ClusterVMs t n (instances w)) g) = size (group_instances t n g (w_host w)).
Proof.
  rewrite ClusterVMs_workers, length_fmap. unfold group_instances, instances.
  by rewrite size_dom, filter_values_length.
Qed.

(** ** A host on which every call works *)

Definition working_creates (spec : NodeSpec) (h : gmap string ContainerInfo) : option string * gmap string ContainerInfo :=
  let name := sp_Name spec in
  match h !! name with
  | Some _ => (Some "exists", h)
  | None => (None, <[name := instance name "Running" (sp_Labels spec)]> h)
  end.

Definition working_deletes (name : string) (h : gmap string ContainerInfo) : option string * gmap string ContainerInfo :=
  match h !! name with Some _ => (None, delete name h) | None => (Some "not found", h) end.

Definition working (c : ccall) (w : cworld) : cans c * cworld :=
  let on_host {A} (r : A * gmap string ContainerInfo) : A * cworld := (r.1, mkWorld (w_store w) r.2) in
  match c return cans c * cworld with
  | CStore op => let '(a, s) := store_ans op (w_store w) in (a, mkWorld s (w_host w))
  | HCreateNode spec _ => on_host (working_creates spec (w_host w))
  | HDelete name => on_host (working_deletes name (w_host w))
  | HStart name => on_host (None, alter (set_run "Running") name (w_host w))
  | HStop name => on_host (None, alter (set_run "Stopped") name (w_host w))
  | HClusterVMs t n => (inl (ClusterVMs t n (instances w)), w)
  | HWaitReady _ _ => (inl "10.0.0.2", w)
  | HRead _ _ | HExec _ _ | CBinary => (inl "text", w)
  | CPublish _ _ => (inl "1.2.3.4:6443", w)
  | CWebhookCerts => (inl ("ca", "cert", "key"), w)
  | CMintCACert _ _ => (inl (mkCreds "cert" "key" "ca"), w)
  | CNow => (0, w)
  | CNewID => ("id", w)
  | CRelease | CSleep _ => (tt, w)
  | HVMCapable | HContainerNodeCapable | HNodeCapacityCapable _ | HPush _ _ _ _ | CAdmit _ _ | CUnpublish _ => (None, w)
  end.

Lemma working_exec c w : exec w c (working c w).1 (working c w).2.
Proof.
  destruct c; try done; cbn -[store_ans].
  - by destruct (store_ans op (w_store w)).
  - split; [done|]. unfold working_creates. destruct (w_host w !! sp_Name spec) eqn:E; cbn; [by left|by split].
  - split; [done|]. by eexists.
  - split; [done|]. by eexists.
  - split; [done|]. unfold working_deletes. destruct (w_host w !! name) eqn:E; cbn; [by split; [eexists|]|by left].
  - split; [done|]. by left.
Qed.
