(* ===== verification/ClusterCalls.v ===== *)
(** * Which calls the cluster programs make

    The rules of the error monad, and for each method of the manager and each step of the
    reconciler: it makes only calls of a given kind [P], if [P] admits the few calls that matter
    there.  [quiet] calls change neither the store nor the set of instances. *)

From S2P Require Import Prelude Prog GoStrings GoPath Cluster ClusterStore ClusterDecide ClusterCapacity ClusterBootstrap.
From S2P Require Import ClusterApi ClusterManager ClusterReconciler.
#[local] Open Scope string_scope.
#[local] Open Scope list_scope.
#[local] Open Scope Z_scope.

(** ** Failing programs *)

Section Guard.
Context {S : Type} (allow : S -> forall c, cans c -> Prop) (mon : S -> forall c, cans c -> S) (pre : S -> ccall -> Prop).

Lemma wp_guard {A B} (h : cl_error -> eprog B) (p : eprog A) (k : A -> eprog B) post s :
  wp allow mon pre p (fun s r => match r with inl a => wp allow mon pre (k a) post s | inr e => wp allow mon pre (h e) post s end) s ->
  wp allow mon pre (guard h p k) post s.
Proof. intros Hp. unfold guard. apply wp_bind. eapply wp_mono; [|exact Hp]. by intros s' [a|e]. Qed.

(** A call that does not change the state, with every answer. *)
Lemma wp_value {A} c (f : cans c -> A + string) post s :
  pre s c -> (forall a, mon s c a = s) -> (forall v, post s (inl v)) -> (forall m, post s (inr (HostErr m))) ->
  wp allow mon pre (value_or c f) post s.
Proof. intros Hc Hm Hv He. split; [done|]. intros a _. simpl. rewrite Hm. by destruct (f a). Qed.

Lemma wp_done c (f : cans c -> option string) post s :
  pre s c -> (forall a, mon s c a = s) -> post s (inl tt) -> (forall m, post s (inr (HostErr m))) ->
  wp allow mon pre (done_or c f) post s.
Proof. intros Hc Hm Hv He. split; [done|]. intros a _. simpl. rewrite Hm. by destruct (f a). Qed.
End Guard.

(** ** Quiet calls *)

Definition quiet (c : ccall) : Prop :=
  match c with CStore _ | HCreateNode _ _ | HDelete _ | HClusterVMs _ _ => False | _ => True end.

Section Calls.
Context (al : forall c, cans c -> Prop) (P : ccall -> Prop) (Hquiet : forall c, quiet c -> P c).

Definition only {A} (p : cprog A) : Prop := makes al P p (fun _ => True).

Lemma only_ret {A} (r : A) : only (mret r).
Proof. done. Qed.

Lemma only_bind {A B} (p : cprog A) (k : A -> cprog B) : only p -> (forall a, only (k a)) -> only (p ≫= k).
Proof. intros Hp Hk. eapply makes_bind; [exact Hp|]. intros a _. apply Hk. Qed.

Lemma only_call {A} c (k : cans c -> cprog A) : P c -> (forall a, al c a -> only (k a)) -> only (call c ≫= k).
Proof. apply makes_call. Qed.

Lemma only_guard {A B} h (p : eprog A) (k : A -> eprog B) :
  only p -> (forall a, only (k a)) -> (forall e, only (h e)) -> only (guard h p k).
Proof. intros Hp Hk Hh. apply only_bind; [done|]. by intros [a|e]. Qed.

Lemma only_value {A} c (f : cans c -> A + string) : P c -> only (value_or c f).
Proof. intros Hc. by apply only_call. Qed.

Lemma only_done c (f : cans c -> option string) : P c -> only (done_or c f).
Proof. intros Hc. by apply only_call. Qed.

Lemma only_store op (f : op_ans op -> option store_error) : P (CStore op) -> only (store_do op f).
Proof. intros Hc. by apply only_call. Qed.

Lemma only_best_effort op : P (CStore op) -> only (best_effort op).
Proof. intros Hc. by apply only_call. Qed.

(** ** The manager *)

Lemma only_delete_attempts k name err : P (HDelete name) -> only (delete_attempts k name err).
Proof.
  intros Hd. revert err. induction k as [|k IH]; intros err; [done|]. simpl. apply only_call; [done|].
  intros [m|] _; [|done]. destruct k as [|k]; [done|]. apply only_call; [by apply Hquiet|]. intros _ _. apply IH.
Qed.

Lemma only_DeleteVM name : P (HDelete name) -> only (DeleteVM name).
Proof.
  intros Hd. apply only_call; [by apply Hquiet|]. intros _ _. apply only_bind; [by apply only_delete_attempts|done].
Qed.

Lemma only_abandon {B} name cause : P (HDelete name) -> only (abandon (B := B) name cause).
Proof. intros Hd. apply only_bind; [by apply only_DeleteVM|done]. Qed.

Lemma only_ForgetNode t cn vm : P (HDelete vm) -> only (ForgetNode t cn vm).
Proof.
  intros Hd. apply only_guard; [by apply only_DeleteVM|intros _|done]. apply only_call; [by apply Hquiet|done].
Qed.

(** Calls whose kind is admitted as they stand. *)
Ltac quietly := by apply Hquiet.
Ltac only_steps :=
  repeat lazymatch goal with
    | |- only (mret _) => apply only_ret
    | |- only (fail _ _) => apply only_ret
    | |- only (return_err _) => apply only_ret
    | |- only (lift _) => apply only_ret
    | |- only (guard _ _ _) => apply only_guard; [|intros ?|intros ?]
    | |- only (value_or _ _) => apply only_value; first [done|quietly]
    | |- only (done_or _ _) => apply only_done; first [done|quietly]
    | |- only (abandon _ _) => by apply only_abandon
    | |- only (abandon_with _ _ _) => by apply only_abandon
    | |- only (if _ then _ else _) => case_match
    | |- only (match _ with _ => _ end) => case_match
    end.

Lemma only_pushFile name path content mode : only (pushFile name path content mode).
Proof. unfold pushFile. only_steps. Qed.

Lemma only_kubelet iso spec : only (containerKubeletArgs iso spec).
Proof.
  unfold containerKubeletArgs, observedNodeCapacity. only_steps.
Qed.

Lemma only_ProvisionCP t cn iso size sans :
  P (HCreateNode (cp_spec t cn size) iso) -> P (HDelete (CPName t cn)) -> only (ProvisionCP t cn iso size sans).
Proof.
  intros Hc Hd. unfold ProvisionCP, run_bootstrap. only_steps; first [apply only_pushFile | apply only_kubelet].
Qed.

Lemma only_template iso cp name : P (HDelete name) -> only (worker_template iso cp name).
Proof.
  intros Hd. unfold worker_template. only_steps; apply only_pushFile.
Qed.

Lemma only_ProvisionWorker t cn iso g name cpIP :
  P (HCreateNode (worker_spec t cn g name) iso) -> P (HDelete name) -> only (ProvisionWorker t cn iso g name cpIP).
Proof.
  intros Hc Hd. unfold ProvisionWorker, run_bootstrap.
  only_steps; first [apply only_pushFile | apply only_kubelet | by apply only_template].
Qed.

Lemma only_push_files cp files : only (push_files cp files).
Proof. induction files as [|[[p c] m] files IH]; simpl; only_steps; [apply only_pushFile|apply IH]. Qed.

Lemma only_DeployCA t cn d creds : only (DeployCA t cn d creds).
Proof. unfold DeployCA. only_steps; first [apply only_push_files|apply only_pushFile]. Qed.

Lemma only_DeployVPA embedded t cn : only (DeployVPA embedded t cn).
Proof.
  apply only_call; [quietly|]. intros [v|m] _; [done|]. only_steps; apply only_pushFile.
Qed.

(** ** The reconciler *)

Context (r : ClusterReconciler).

Lemma only_admitSize c g what :
  (forall e, P (CStore (OAppendEvent (c_Owner c) (c_Name c) e))) -> only (admitSize r c g what).
Proof.
  intros He. unfold admitSize. destruct (negb _); [done|]. apply only_call; [quietly|]. intros [m|] _; [|done].
  apply only_call; [quietly|]. intros now _. apply only_bind; [by apply only_best_effort|done].
Qed.

Lemma only_release : only (release r).
Proof. unfold release. destruct (r_admit r); [|done]. split; [quietly|done]. Qed.

Lemma only_create_cp c iso name :
  (forall e, P (CStore (OAppendEvent (c_Owner c) (c_Name c) e))) ->
  P (HCreateNode (cp_spec (c_Owner c) (c_Name c) cpSize) iso) -> P (HDelete (CPName (c_Owner c) (c_Name c))) ->
  (forall now, P (CStore (OUpsertNode (mkNode (c_Owner c) (c_Name c) name RoleControlPlane "" NodeStateReady now)))) ->
  only (create_cp r c iso name).
Proof.
  intros He Hc Hd Hu. apply only_bind; [by apply only_admitSize|]. intros [m|]; [done|].
  apply only_bind; [by apply only_ProvisionCP|]. intros up. apply only_bind; [apply only_release|]. intros _.
  destruct up; [|done]. apply only_call; [quietly|]. intros now _. apply only_bind; [by apply only_best_effort|done].
Qed.

Lemma only_create_worker c iso g group name :
  (forall e, P (CStore (OAppendEvent (c_Owner c) (c_Name c) e))) ->
  P (HCreateNode (worker_spec (c_Owner c) (c_Name c) g name) iso) -> P (HDelete name) ->
  (forall now, P (CStore (OUpsertNode (mkNode (c_Owner c) (c_Name c) name RoleWorker group NodeStateProvisioning now)))) ->
  only (create_worker r c iso g group name).
Proof.
  intros He Hc Hd Hu. apply only_bind; [by apply only_admitSize|]. intros [m|]; [done|].
  apply only_bind; [by apply only_value, Hquiet|]. intros [ip|e].
  - apply only_bind; [by apply only_ProvisionWorker|]. intros joined. apply only_bind; [apply only_release|]. intros _.
    destruct joined; [|done]. apply only_call; [quietly|]. intros now _.
    apply only_bind; [by apply only_best_effort|]. intros _. apply only_call; [quietly|]. intros now' _.
    apply only_bind; [by apply only_best_effort|done].
  - apply only_bind; [apply only_release|done].
Qed.

Lemma only_perform c iso groups acts :
  Forall (fun act => only (perform_action r c iso groups act)) acts -> only (perform_actions r c iso groups acts).
Proof.
  induction 1 as [|act acts Ha Hacts IH]; [done|]. simpl. apply only_guard; [done| |done]. by intros [].
Qed.

Lemma only_mark_ready nodes :
  Forall (fun nd => P (CStore (OUpsertNode (mkNode (n_Owner nd) (n_Cluster nd) (n_VMName nd) (n_Role nd) (n_Group nd)
                                              NodeStateReady (n_CreatedAt nd))))) nodes ->
  only (mark_ready nodes).
Proof.
  induction 1 as [|nd nodes Hn Hnodes IH]; [done|]. simpl. apply only_bind; [|done].
  destruct (bool_decide _); [done|by apply only_best_effort].
Qed.

Lemma only_set_state c st reason :
  (forall now, P (CStore (OSetState now (c_Owner c) (c_Name c) st reason))) -> only (set_state c st reason).
Proof. intros Hs. apply only_call; [quietly|]. intros now _. by apply only_store. Qed.

Lemma only_settle_endpoint c :
  (forall now ep, P (CStore (OSetEndpoint now (c_Owner c) (c_Name c) ep))) -> only (settle_endpoint r c).
Proof.
  intros Hs. unfold settle_endpoint, CPIP. only_steps.
  apply only_call; [quietly|]. intros now _. apply only_bind; [by apply only_store|]. by intros [].
Qed.

Lemma only_settle_ready c ready expected :
  (forall now st reason, st = StateReady \/ st = StateDegraded -> P (CStore (OSetState now (c_Owner c) (c_Name c) st reason))) ->
  P (CStore (OListNodes (c_Owner c) (c_Name c))) ->
  (forall rows, al (CStore (OListNodes (c_Owner c) (c_Name c))) (inl rows) ->
     Forall (fun nd => P (CStore (OUpsertNode (mkNode (n_Owner nd) (n_Cluster nd) (n_VMName nd) (n_Role nd) (n_Group nd)
                                                 NodeStateReady (n_CreatedAt nd))))) rows) ->
  only (settle_ready c ready expected).
Proof.
  intros Hs Hl Hr. unfold settle_ready. destruct (_ && _).
  - apply only_guard; [apply only_set_state; intros; apply Hs; by left|intros _|done].
    apply only_call; [done|]. intros [rows|e] Ha; (apply only_bind; [apply only_mark_ready|done]); [by apply Hr|constructor].
  - destruct (_ && _); [|done]. apply only_set_state. intros. apply Hs. by right.
Qed.

Lemma only_settleState c :
  P (HClusterVMs (c_Owner c) (c_Name c)) ->
  (forall now ep, P (CStore (OSetEndpoint now (c_Owner c) (c_Name c) ep))) ->
  (forall now st reason, st = StateReady \/ st = StateDegraded -> P (CStore (OSetState now (c_Owner c) (c_Name c) st reason))) ->
  P (CStore (OListNodes (c_Owner c) (c_Name c))) ->
  (forall rows, al (CStore (OListNodes (c_Owner c) (c_Name c))) (inl rows) ->
     Forall (fun nd => P (CStore (OUpsertNode (mkNode (n_Owner nd) (n_Cluster nd) (n_VMName nd) (n_Role nd) (n_Group nd)
                                                 NodeStateReady (n_CreatedAt nd))))) rows) ->
  only (settleState r c).
Proof.
  intros Ho He Hs Hl Hr. apply only_guard; [by apply only_value| |done]. intros ob.
  destruct (ob_CP ob) as [cp|]; [|done]. destruct (negb _); [done|]. cbv zeta.
  apply only_guard; [by apply only_settle_endpoint|intros _|done].
  apply only_guard; [destruct (_ || _); [done|apply only_DeployVPA]|intros _|done].
  apply only_guard; [|intros _|done].
  { destruct (_ || _); [done|]. unfold deploy_ca. only_steps. apply only_DeployCA. }
  apply only_bind; [unfold ReadyNodes; only_steps|]. intros [ready|e]; [|done]. by apply only_settle_ready.
Qed.
End Calls.
