(* ===== verification/ClusterProvision.v ===== *)
(** * What provisioning leaves behind

    [node] follows one instance through the calls of a program: created, perhaps created, stopped, the
    attempts to delete it, deleted.  IncusHost.CreateNode creates the instance, labels it and
    starts it, so a call that fails may leave it behind ([Unsure]).  The rules of [may] are what a program that provisions
    the instance may do to the host. *)

From S2P Require Import Prelude Prog GoStrings GoPath Cluster ClusterStore ClusterDecide ClusterCapacity ClusterBootstrap.
From S2P Require Import ClusterApi ClusterManager ClusterCalls.
#[local] Open Scope string_scope.
#[local] Open Scope list_scope.
#[local] Open Scope Z_scope.

(** ** One instance *)

Inductive node := Absent | Unsure | Present | Removing (stopped : bool) (failed : nat) | Gone.

Section Provision.
Context (name : string).

Definition follow (s : node) (c : ccall) : cans c -> node :=
  match c return cans c -> node with
  | HCreateNode spec _ => fun a => if String.eqb (sp_Name spec) name then match a with None => Present | Some _ => Unsure end else s
  | HStop n => fun _ => if String.eqb n name then Removing true 0 else s
  | HDelete n => fun a =>
      if String.eqb n name then
        match s, a with
        | Removing b k, Some _ => Removing b (S k)
        | _, Some _ => Removing false 1
        | _, None => Gone
        end
      else s
  | _ => fun _ => s
  end.

(** Only this instance is created, stopped, deleted or written to; it is used while it
    exists, and deleted after it was stopped. *)
Definition may (s : node) (c : ccall) : Prop :=
  match c with
  | HCreateNode spec _ => sp_Name spec = name /\ s = Absent
  | HPush n _ _ _ | HExec n _ => n = name /\ s = Present
  | HStop n => n = name /\ s = Present
  | HDelete n => n = name /\ exists k, s = Removing true k /\ (k < deleteRetries)%nat
  | HStart _ | CStore _ => False
  | _ => True
  end.

Abbreviation wpn := (wp (fun _ _ _ => True) follow may) (only parsing).

(** Deletion: the instance is gone, or every attempt failed. *)
Definition removed (s : node) : Prop := s = Gone \/ s = Removing true deleteRetries.

Lemma wp_delete_attempts n k err (post : node -> option string -> Prop) :
  (n + k = deleteRetries)%nat -> (n = 0%nat -> err <> None) ->
  (forall s r, removed s -> (r = None <-> s = Gone) -> post s r) ->
  wpn (delete_attempts n name err) post (Removing true k).
Proof.
  revert k err. induction n as [|n IH]; intros k err Hn Herr Hpost; simpl.
  - apply Hpost; [right; by rewrite <- Hn|]. split; [|done]. intros ->. by destruct Herr.
  - split; [split; [done|]; exists k; split; [done|]; lia|]. intros [m|] _; rewrite String.eqb_refl; simpl.
    + destruct n as [|n]; simpl.
      * apply Hpost; [right; f_equal; lia|done].
      * split; [done|]. intros _ _. apply (IH (S k) (Some m)); [lia|done|done].
    + apply Hpost; [by left|done].
Qed.

Lemma wp_DeleteVM (post : node -> unit + cl_error -> Prop) :
  (post Gone (inl tt)) -> (forall m, post (Removing true deleteRetries) (inr (HostErr m))) ->
  wpn (DeleteVM name) post Present.
Proof.
  intros Hgone Hleft. unfold DeleteVM. apply wp_call_bind; [done|]. intros a _. cbn [follow].
  rewrite String.eqb_refl. apply wp_bind.
  apply wp_delete_attempts; [done|done|]. intros s r [->| ->] Hr; simpl.
  - by rewrite (proj2 Hr).
  - destruct r as [m|]; [done|]. by destruct (proj1 Hr eq_refl).
Qed.

Lemma wp_abandon {B} cause (post : node -> B + cl_error -> Prop) :
  (forall s e, removed s -> post s (inr e)) -> wpn (abandon name cause) post Present.
Proof. intros H. apply wp_bind, wp_DeleteVM; intros; apply H; [by left|by right]. Qed.

(** ** Steps on the instance *)

(** Succeed or fail, and leave the instance alone. *)
Definition steps {A} (p : eprog A) : Prop :=
  forall post, (forall r, post Present r) -> wpn p post Present.

Lemma steps_guard {A B} h (p : eprog A) (k : A -> eprog B) :
  steps p -> (forall a, steps (k a)) -> (forall e, steps (h e)) -> steps (guard h p k).
Proof. intros Hp Hk Hh post Hpost. apply wp_guard, Hp. intros [a|e]; [by apply Hk|by apply Hh]. Qed.

Lemma steps_ret {A} (r : A + cl_error) : steps (mret r).
Proof. intros post Hpost. apply Hpost. Qed.

Lemma steps_value {A} c (f : cans c -> A + string) :
  may Present c -> (forall a, follow Present c a = Present) -> steps (value_or c f).
Proof. intros Hc Hm post Hpost. by apply wp_value. Qed.

Lemma steps_done c (f : cans c -> option string) :
  may Present c -> (forall a, follow Present c a = Present) -> steps (done_or c f).
Proof. intros Hc Hm post Hpost. by apply wp_done. Qed.

Lemma steps_pushFile path content mode : steps (pushFile name path content mode).
Proof.
  apply steps_guard; [|intros _; by apply steps_done|intros e; apply steps_ret].
  destruct (_ && _ && _); [by apply steps_value|apply steps_ret].
Qed.

Lemma steps_containerKubeletArgs iso spec : sp_Name spec = name -> steps (containerKubeletArgs iso spec).
Proof.
  intros Hn. unfold containerKubeletArgs. destruct (negb _); [apply steps_ret|]. rewrite Hn.
  apply steps_guard; [|intros c; destruct (NodeReservation _ _ _); apply steps_ret|intros e; apply steps_ret].
  repeat (apply steps_guard; [by apply steps_value|intros ?|intros e; apply steps_ret]).
  unfold lift. destruct (ParseProcCapacity _ _); apply steps_ret.
Qed.

(** A step whose failure abandons the instance, then the rest. *)
Definition provisions {A} (p : eprog A) : Prop :=
  forall post, (forall a, post Present (inl a)) -> (forall s e, removed s -> post s (inr e)) -> wpn p post Present.

Lemma provisions_step {A B} context (p : eprog A) (k : A -> eprog B) :
  steps p -> (forall a, provisions (k a)) -> provisions (guard (abandon_with name context) p k).
Proof.
  intros Hp Hk post Hok Herr. apply wp_guard, Hp. intros [a|e]; [by apply Hk|]. by apply wp_abandon.
Qed.

Lemma provisions_step' {A B} (p : eprog A) (k : A -> eprog B) :
  steps p -> (forall a, provisions (k a)) -> provisions (guard (abandon name) p k).
Proof. intros Hp Hk post Hok Herr. apply wp_guard, Hp. intros [a|e]; [by apply Hk|]. by apply wp_abandon. Qed.

Lemma provisions_then {A B} (p : eprog A) (k : A -> eprog B) :
  provisions p -> (forall a, provisions (k a)) -> provisions (guard return_err p k).
Proof. intros Hp Hk post Hok Herr. apply wp_guard, Hp; [intros a; by apply Hk|]. intros s e Hs. by apply Herr. Qed.

Lemma provisions_ret {A} (a : A) : provisions (mret (inl a)).
Proof. intros post Hok _. apply Hok. Qed.
End Provision.

(** ** The two programs *)

(** The error a worker's provisioning returns when the k3s binary cannot be loaded: of the exits after the
    creation the one that abandons nothing. *)
Definition stranded (s : node) (e : cl_error) : Prop := s = Present /\ exists m, e = HostErr m.

Definition leaves {A} (exception : node -> cl_error -> Prop) (s : node) (r : A + cl_error) : Prop :=
  match r with
  | inl _ => s = Present
  | inr e => s = Absent \/ s = Unsure \/ removed s \/ exception s e
  end.

Lemma wp_create {A} name spec iso context (k : eprog A) (post : node -> A + cl_error -> Prop) :
  sp_Name spec = name -> (forall e, post Unsure (inr e)) ->
  wp (fun _ _ _ => True) (follow name) (may name) k post Present ->
  wp (fun _ _ _ => True) (follow name) (may name)
    (guard (fail context) (done_or (HCreateNode spec iso) id) (fun _ => k)) post Absent.
Proof.
  intros Hn Herr Hk. apply wp_guard. split; [done|]. intros [m|] _; simpl; rewrite Hn, String.eqb_refl; [apply Herr|done].
Qed.

Ltac provision :=
  repeat first
    [ apply provisions_step; [|intros ?]
    | apply provisions_step'; [|intros ?]
    | apply provisions_ret
    | by apply steps_value | by apply steps_done | apply steps_pushFile | by apply steps_containerKubeletArgs ].

Lemma provisions_template name iso cp : provisions name (worker_template iso cp name).
Proof.
  unfold worker_template. destruct (String.eqb iso IsolationContainer); [|apply provisions_ret].
  apply provisions_step; [by apply steps_value|]. intros generated.
  apply provisions_step; [unfold lift; destruct (DeriveContainerdTemplate _); apply steps_ret|]. intros tmpl. provision.
Qed.

(** What follows the creation of a control plane. *)
Lemma provision_cp_leaves tenant clusterName iso size sans :
  let name := CPName tenant clusterName in
  wp (fun _ _ _ => True) (follow name) (may name) (ProvisionCP tenant clusterName iso size sans)
     (leaves (fun _ _ => False)) Absent.
Proof.
  intros name. apply wp_create; [done|by right; left|].
  enough (H : forall p : eprog string, provisions name p ->
            wp (fun _ _ _ => True) (follow name) (may name) p (leaves (fun _ _ => False)) Present) by (apply H; provision).
  intros p Hp. apply Hp; [done|]. intros s e Hs. by right; right; left.
Qed.

(** A step before the instance is created. *)
Lemma absent_step {A B} name context (p : eprog A) (k : A -> eprog B) (post : node -> B + cl_error -> Prop) :
  (forall Q : node -> A + cl_error -> Prop, (forall r, Q Absent r) -> wp (fun _ _ _ => True) (follow name) (may name) p Q Absent) ->
  (forall e, post Absent (inr e)) ->
  (forall a, wp (fun _ _ _ => True) (follow name) (may name) (k a) post Absent) ->
  wp (fun _ _ _ => True) (follow name) (may name) (guard (fail context) p k) post Absent.
Proof. intros Hp Herr Hk. apply wp_guard, Hp. intros [a|e]; [apply Hk|apply Herr]. Qed.

Lemma provision_worker_leaves tenant clusterName iso g name cpIP :
  wp (fun _ _ _ => True) (follow name) (may name) (ProvisionWorker tenant clusterName iso g name cpIP)
     (leaves stranded) Absent.
Proof.
  apply absent_step; [intros Q HQ; by apply wp_value|by left|]. intros token.
  apply absent_step; [intros Q HQ; destruct (String.eqb _ _); [by apply wp_done|apply HQ]|by left|]. intros _.
  apply wp_create; [done|by right; left|].
  assert (Hok : forall p : eprog unit, provisions name p ->
            wp (fun _ _ _ => True) (follow name) (may name) p (leaves stranded) Present).
  { intros p Hp. apply Hp; [done|]. intros s e Hs. by right; right; left. }
  apply wp_guard, (steps_value name); [done|done|].
  intros [ip|e]; [|apply wp_abandon; intros s e' Hs; by right; right; left].
  apply wp_guard, wp_value; [done|done| |intros m; by right; right; right; split; [|exists m]].
  intros bin. apply Hok. provision. apply provisions_then; [apply provisions_template|intros ?]. provision.
Qed.

(** ** The theorem *)

Definition after (name : string) (tr : list cevent) : node := foldl (mon_event (follow name)) Absent tr.

Definition obeys (name : string) (tr : list cevent) : Prop :=
  forall tr1 e tr2, tr = tr1 ++ e :: tr2 -> may name (after name tr1) (projT1 e).

(** C25: What provisioning leaves behind when it fails.  In every run of ProvisionCP and of
    ProvisionWorker, whatever the host answers, the program asks at most once for a creation, of the one instance
    it was asked for, pushes to and executes in nothing else and only after that creation succeeded,
    and deletes it only after stopping it.  A run that succeeds ends with the instance in
    place.  A run that fails either never asked for the instance; or the creation itself failed, after which it
    removes nothing, so what a half-finished creation made stays; or it stopped the instance and deleted it; or it
    stopped it and was refused all three attempts; or, a worker whose k3s binary could not be loaded, it leaves
    the instance in place. *)
Theorem provision_outcomes tenant clusterName iso size sans g vmName cpIP trc ip trw res :
  runs (ProvisionCP tenant clusterName iso size sans) trc (Ret ip) ->
  runs (ProvisionWorker tenant clusterName iso g vmName cpIP) trw (Ret res) ->
  (leaves (fun _ _ => False) (after (CPName tenant clusterName) trc) ip /\ obeys (CPName tenant clusterName) trc) /\
  (leaves stranded (after vmName trw) res /\ obeys vmName trw).
Proof.
  intros Hc Hw. split; [exact (wp_obeys _ _ _ _ _ _ _ (provision_cp_leaves tenant clusterName iso size sans) Hc)|].
  exact (wp_obeys _ _ _ _ _ _ _ (provision_worker_leaves tenant clusterName iso g vmName cpIP) Hw).
Qed.

(** A host on which everything works except what [broken] names. *)
Definition host_with (broken : ccall -> bool) (c : ccall) (u : unit) : cans c * unit :=
  (match c return cans c with
   | CStore op => match op return op_ans op with
                  | OGet _ _ => inr ErrNotFound | OList _ => inl [] | OListNodes _ _ => inl [] | OListEvents _ _ _ => inl []
                  | _ => None
                  end
   | HClusterVMs _ _ => inl (mkObserved None ∅)
   | CWebhookCerts => inl ("", "", "")
   | CMintCACert _ _ => inl (mkCreds "" "" "")
   | CNow => 0 | CNewID => "id" | CRelease => tt | CSleep _ => tt
   | HVMCapable => None | HContainerNodeCapable => None
   | HNodeCapacityCapable s => None
   | HCreateNode s i => if broken (HCreateNode s i) then Some "create" else None
   | HStart n => None | HStop n => None
   | HDelete n => if broken (HDelete n) then Some "delete" else None
   | HPush n p x m => if broken (HPush n p x m) then Some "push" else None
   | CAdmit _ _ => None | CUnpublish _ => None
   | HWaitReady n d => inl "10.0.0.2"
   | HRead n p => inl "token"
   | HExec n cmd => if broken (HExec n cmd) then inr "exec" else inl ""
   | CBinary => if broken CBinary then inr "binary" else inl "k3s"
   | CPublish _ _ => inl "1.2.3.4:36443"
   end, u).

Definition ex_group : DesiredGroup := mkDesiredGroup "g" 1 3 "2" "4GB" "40GB".

Lemma provision_outcomes_witness :
  let cp_tr := (play (host_with (fun c => match c with HExec _ ["sh"; _] => true | _ => false end))
                  (ProvisionCP "t" "c" IsolationVM ex_group []) tt).1 in
  let w_tr := (play (host_with (fun c => match c with HPush _ _ _ _ => true | HDelete _ => true | _ => false end))
                 (ProvisionWorker "t" "c" IsolationVM ex_group "t-k8s-c-g-1" "10.0.0.1") tt).1 in
  after (CPName "t" "c") cp_tr = Gone /\ after "t-k8s-c-g-1" w_tr = Removing true 3 /\
  obeys (CPName "t" "c") cp_tr /\ obeys "t-k8s-c-g-1" w_tr.
Proof.
  intros cp_tr w_tr. split; [vm_compute; reflexivity|]. split; [vm_compute; reflexivity|].
  destruct (provision_outcomes "t" "c" IsolationVM ex_group [] ex_group "t-k8s-c-g-1" "10.0.0.1" cp_tr
              (play (host_with (fun c => match c with HExec _ ["sh"; _] => true | _ => false end))
                  (ProvisionCP "t" "c" IsolationVM ex_group []) tt).2 w_tr
              (play (host_with (fun c => match c with HPush _ _ _ _ => true | HDelete _ => true | _ => false end))
                 (ProvisionWorker "t" "c" IsolationVM ex_group "t-k8s-c-g-1" "10.0.0.1") tt).2) as [[_ H1] [_ H2]];
    [apply play_runs|apply play_runs|]. by split.
Defined.

(** The exception: the worker whose binary cannot be loaded runs on, without a row. *)
Example worker_stranded :
  let '(tr, r) := play (host_with (fun c => match c with CBinary => true | _ => false end))
                    (ProvisionWorker "t" "c" IsolationVM ex_group "w" "10.0.0.1") tt in
  r = inr (HostErr "binary") /\ after "w" tr = Present.
Proof. vm_compute. done. Qed.

(** A creation that fails, and may have left the instance, is the last that the host hears of it. *)
Example half_created_stays :
  let '(tr, r) := play (host_with (fun c => match c with HCreateNode _ _ => true | _ => false end))
                    (ProvisionCP "t" "c" IsolationVM ex_group []) tt in
  (exists e, r = inr e) /\ after (CPName "t" "c") tr = Unsure /\ length tr = 1%nat.
Proof. vm_compute. split; [by eexists|done]. Qed.
