(* ===== verification/ClusterDrain.v ===== *)
(** * A drained node is not rebuilt

    cluster_reconciler.go and ca_provider_server.go run concurrently on one cluster: the
    autoscaler removes nodes with NodeGroupDeleteNodes while the reconciler counts instances
    and builds what is missing.  The comments of both promise that the interleaving never
    rebuilds a node that was removed, because the target is lowered before anything is
    destroyed and read after the instances are counted.  This file proves it. *)

From S2P Require Import Prelude Prog GoStrings Incus Auth Cluster ClusterStore ClusterStoreAgree ClusterDecide ClusterCapacity.
From S2P Require Import ClusterBootstrap ClusterApi ClusterManager ClusterReconciler ClusterCalls ClusterCA ClusterWorld.
From Stdlib Require Import Ascii.
#[local] Open Scope string_scope.
#[local] Open Scope list_scope.
#[local] Open Scope Z_scope.

Section Drain.
(** The cluster, the group of the request and its nodes. *)
Context (owner name gname : string) (nodes : list string).
(** The instances of each group, and the groups' names and bounds, at the start. *)
Context (start : string -> gset string) (bounds : list (string * Z * Z)).

Definition shape (g : NodeGroup) : string * Z * Z := (g_Name g, MinNodes g, MaxNodes g).

(** The instances that stay: all of them until the target is lowered, then those that the
    request does not name. *)
Definition kept (lowered : bool) (g : string) : gset string :=
  if lowered && String.eqb g gname then start g ∖ list_to_set nodes else start g.

Lemma kept_lowered l g : kept true g ⊆ kept l g.
Proof. unfold kept. destruct l, (String.eqb g gname); simpl; set_solver. Qed.

Lemma kept_start l g : kept l g ⊆ start g.
Proof. unfold kept. destruct (_ && _); set_solver. Qed.

(** No group wants more than what stays of it. *)
Definition record_ok (l : bool) (c : Cluster) : Prop :=
  c_Owner c = owner /\ c_Name c = name /\ c_State c <> StateDeleting /\ map shape (c_NodeGroups c) = bounds /\
  Forall (fun g => EffectiveTarget g <= Z.of_nat (size (kept l (g_Name g)))) (c_NodeGroups c).

Definition row_ok (nd : Node) : Prop := n_Group nd = gname -> n_VMName nd ∈ start gname.

Record world_ok (l : bool) (w : cworld) : Prop := {
  ok_record : exists c, m_clusters (w_store w) !! key owner name = Some c /\ record_ok l c;
  ok_host : forall g vm, vm ∈ kept l g -> exists c, w_host w !! vm = Some c /\ worker_of owner name g c;
  ok_rows : forall vm nd, m_nodes (w_store w) !! vm = Some nd -> of_cluster owner name nd -> n_VMName nd = vm /\ row_ok nd;
}.

(** ** Threads *)

(** The request, before and after it lowered the target; a pass, with what it observed last. *)
Inductive ghost := GD (lowered : bool) | GR (seen : option Observed).

Definition follow (s : ghost) (c : ccall) : cans c -> ghost :=
  match c return cans c -> ghost with
  | CStore op => fun _ => match op, s with OSetNodeGroupTarget _ _ _ _ _, GD _ => GD true | _, _ => s end
  | HClusterVMs _ _ => fun a => match s, a with GR _, inl o => GR (Some o) | GR _, inr _ => GR None | GD l, _ => GD l end
  | _ => fun _ => s
  end.

(** What a pass may call: it creates no worker. *)
Definition pass_may (c : ccall) : Prop :=
  match c with
  | CStore op =>
      match op with
      | OGet _ _ | OList _ | OListNodes _ _ | OListEvents _ _ _ | OSetEndpoint _ _ _ _ | OAppendEvent _ _ _ => True
      | OSetState _ _ _ st _ => st <> StateDeleting
      | OUpsertNode nd => row_ok nd
      | _ => False
      end
  | HCreateNode spec _ => sp_Labels spec !! LabelClusterRole = Some RoleControlPlane
  | HDelete vm => vm = CPName owner name
  | HClusterVMs t n => t = owner /\ n = name
  | _ => True
  end.

Definition request_may (lowered : bool) (c : ccall) : Prop :=
  match c with
  | CStore op =>
      match op with
      | OGet _ _ | OListNodes _ _ | OAppendEvent _ _ _ | ODeleteNode _ _ _ => True
      | OSetNodeGroupTarget _ o n g t => o = owner /\ n = name /\ g = gname /\ t <= Z.of_nat (size (start gname ∖ list_to_set nodes))
      | _ => False
      end
  | HCreateNode _ _ => False
  | HDelete vm => lowered = true /\ vm ∈ nodes /\ vm ∈ start gname
  | _ => True
  end.

Definition may (s : ghost) (c : ccall) : Prop := match s with GD l => request_may l c | GR _ => pass_may c end.

(** What the answers are known to say. *)
Definition seen_ok (s : ghost) (c : Cluster) : Prop :=
  c_Owner c = owner /\ c_Name c = name /\ c_State c <> StateDeleting /\ map shape (c_NodeGroups c) = bounds /\
  match s with
  | GR (Some o) => Forall (fun g => EffectiveTarget g <= Z.of_nat (length (workers o (g_Name g)))) (c_NodeGroups c)
  | _ => True
  end.

Definition rows_seen (rows : list Node) : Prop := NoDup (n_VMName <$> rows) /\ Forall row_ok rows.

Definition answers (s : ghost) (c : ccall) : cans c -> Prop :=
  match c return cans c -> Prop with
  | CStore op =>
      match op return op_ans op -> Prop with
      | OGet o n => fun a => o = owner -> n = name -> match a with inl c => seen_ok s c | inr _ => False end
      | OListNodes o n => fun a => o = owner -> n = name -> match a with inl rows => rows_seen rows | inr _ => True end
      | _ => fun _ => True
      end
  | _ => fun _ => True
  end.

(** What a thread's ghost state says of the world. *)
Definition ghost_ok (l : bool) (s : ghost) : Prop :=
  match s with
  | GD l' => l' = l
  | GR (Some o) => forall g, Z.of_nat (size (kept l g)) <= Z.of_nat (length (workers o g))
  | GR None => True
  end.

Definition is_request (s : ghost) : bool := match s with GD _ => true | GR _ => false end.

Definition Inv (w : cworld) (G : list ghost) : Prop :=
  exists l, world_ok l w /\ Forall (ghost_ok l) G /\ (length (filter (fun s => is_request s = true) G) <= 1)%nat.

(** ** Steps of the world *)

(** What the request leaves. *)
Abbreviation remaining := (Z.of_nat (size (start gname ∖ list_to_set nodes))) (only parsing).

Context (Hnames : NoDup (map (fun b => b.1.1) bounds)).
Context (Hcp : forall g, CPName owner name ∉ start g).
Context (Hdisjoint : forall g h vm, vm ∈ start g -> vm ∈ start h -> g = h).
(** The request leaves the group's minimum. *)
Context (Hmin : forall mn mx, (gname, mn, mx) ∈ bounds -> mn <= remaining).

Definition keeps_host (l : bool) (h h' : gmap string ContainerInfo) : Prop :=
  forall g vm c, vm ∈ kept l g -> h !! vm = Some c -> worker_of owner name g c ->
    exists c', h' !! vm = Some c' /\ worker_of owner name g c'.

Lemma keeps_create l spec a h h' : creates_node spec a h h' -> keeps_host l h h'.
Proof.
  intros Hc g vm c _ Hvm Hw. exists c. split; [|done].
  assert (Hins : forall x, h !! sp_Name spec = None -> <[sp_Name spec := x]> h !! vm = Some c).
  { intros x Hn. rewrite lookup_insert_ne; [done|congruence]. }
  unfold creates_node in Hc. destruct a as [m|]; [destruct Hc as [->|[Hn [->| ->]]]|destruct Hc as [Hn ->]]; auto.
Qed.

Lemma keeps_runs l vm h h' : runs vm h h' -> keeps_host l h h'.
Proof.
  intros [st ->] g vm' c _ Hvm Hw. destruct (decide (vm = vm')) as [->|Hne].
  - exists (set_run st c). by rewrite lookup_alter_eq, Hvm.
  - exists c. by rewrite lookup_alter_ne.
Qed.

Lemma keeps_delete l vm a h h' : deletes_node vm a h h' -> (forall g, vm ∉ kept l g) -> keeps_host l h h'.
Proof.
  intros Hd Hvm g vm' c Hk Hl Hw.
  assert (Hdel : delete vm h !! vm' = Some c) by (rewrite lookup_delete_ne; [done|]; intros ->; by apply (Hvm g)).
  exists c. split; [|done]. destruct a; [destruct Hd as [->| ->]|destruct Hd as [_ ->]]; done.
Qed.

Lemma world_host l w w' : world_ok l w -> w_store w' = w_store w -> keeps_host l (w_host w) (w_host w') -> world_ok l w'.
Proof.
  intros [Hr Hh Hn] Hs Hk. split; rewrite ?Hs; [done| |done].
  intros g vm Hvm. destruct (Hh g vm Hvm) as (c & Hc & Hw). by eapply Hk.
Qed.

(** A change of records that keeps the groups and does not delete. *)
Lemma world_update l w w' o n f :
  world_ok l w -> w_store w' = (mem_update o n f (w_store w)).2 -> w_host w' = w_host w ->
  (forall c, record_ok l c -> record_ok l (f c)) -> world_ok l w'.
Proof.
  intros [(c & Hc & Hr) Hh Hn] Hs Hw Hf. unfold mem_update in Hs. split; [|by rewrite Hw|].
  - rewrite Hs. destruct (m_clusters (w_store w) !! key o n) as [d|] eqn:Hd; [|by exists c]. cbn.
    destruct (decide (key o n = key owner name)) as [Hk|Hk].
    + rewrite Hk in *. exists (f c). rewrite lookup_insert_eq. split; [congruence|]. by apply Hf.
    + exists c. by rewrite lookup_insert_ne.
  - intros vm nd. rewrite Hs. destruct (m_clusters (w_store w) !! key o n); cbn; apply Hn.
Qed.

Lemma world_nodes l w w' :
  world_ok l w -> m_clusters (w_store w') = m_clusters (w_store w) -> w_host w' = w_host w ->
  (forall vm nd, m_nodes (w_store w') !! vm = Some nd -> m_nodes (w_store w) !! vm = Some nd \/ n_VMName nd = vm /\ row_ok nd) ->
  world_ok l w'.
Proof.
  intros [Hr Hh Hn] Hc Hw Hrows. split; rewrite ?Hc, ?Hw; [done|done|]. intros vm nd Hvm Hof.
  destruct (Hrows vm nd Hvm) as [Hold|Hnew]; [by apply Hn|done].
Qed.

Lemma world_same l w w' : world_ok l w -> w_store w' = w_store w -> w_host w' = w_host w -> world_ok l w'.
Proof. intros H Hs Hh. apply (world_host l w); [done..|]. rewrite Hh. intros g vm c. eauto. Qed.

(** Lowering the target. *)
Lemma EffectiveTarget_le_max g t : EffectiveTarget (with_target t g) <= Z.max t (MinNodes g).
Proof. unfold EffectiveTarget. simpl. repeat case_match; lia. Qed.

Lemma record_lowered l c t now :
  record_ok l c -> t <= remaining ->
  record_ok true (set_groups (target_first gname t (c_NodeGroups c)) now c).
Proof.
  intros (Ho & Hn & Hst & Hb & Hg) Ht. assert (Hnd : NoDup (g_Name <$> c_NodeGroups c)).
  { rewrite <- Hb in Hnames. unfold shape in Hnames. rewrite map_map in Hnames. exact Hnames. }
  rewrite targets_agree by done. split_and!; try done; cbn.
  - rewrite <- Hb. unfold target_all. rewrite map_map. apply map_ext. intros g. by destruct (String.eqb _ _).
  - unfold target_all. apply Forall_map, Forall_forall. intros g Hin.
    assert (Hs : (g_Name g, MinNodes g, MaxNodes g) ∈ bounds) by (rewrite <- Hb; by apply (list_elem_of_fmap_2 shape)).
    rewrite Forall_forall in Hg. specialize (Hg g Hin). unfold kept.
    destruct (String.eqb_spec (g_Name g) gname) as [Heq|Hne].
    + cbn [g_Name with_target]. rewrite (proj2 (String.eqb_eq _ _) Heq). simpl. rewrite Heq in *.
      etrans; [apply EffectiveTarget_le_max|]. specialize (Hmin _ _ Hs). lia.
    + rewrite (proj2 (String.eqb_neq _ _) Hne). simpl. etrans; [exact Hg|].
      unfold kept. rewrite (proj2 (String.eqb_neq _ _) Hne), andb_false_r. done.
Qed.

(** ** What a thread learns *)

Lemma filter_values {A B} (P : B -> Prop) `{!forall x, Decision (P x)} (l : list (A * B)) :
  filter P l.*2 = (filter (fun x => P x.2) l).*2.
Proof. induction l as [|[a b] l IH]; [done|]. csimpl. rewrite !filter_cons. cbn [snd]. case_decide; csimpl; by rewrite IH. Qed.


Lemma seen_get s l w o n :
  world_ok l w -> ghost_ok l s -> answers s (CStore (OGet o n)) (mem_Get o n (w_store w)).
Proof.
  intros [(c & Hc & Ho & Hn & Hst & Hb & Hg) _ _] Hs -> ->. unfold mem_Get. rewrite Hc.
  split_and!; try done. destruct s as [|[ob|]]; try done. eapply Forall_impl; [exact Hg|].
  intros g Hle. etrans; [exact Hle|]. apply Hs.
Qed.

Lemma seen_rows s l w o n : world_ok l w -> answers s (CStore (OListNodes o n)) (mem_ListNodes o n (w_store w)).
Proof.
  intros [_ _ Hrows] -> ->. unfold mem_ListNodes. destruct (m_clusters (w_store w) !! key owner name); [|done].
  assert (Hin : forall nd, nd ∈ filter (of_cluster owner name) (map_to_list (m_nodes (w_store w))).*2 ->
            m_nodes (w_store w) !! n_VMName nd = Some nd /\ row_ok nd).
  { intros nd [Hof [vm Hvm]%elem_of_map_values]%list_elem_of_filter. destruct (Hrows vm nd Hvm Hof) as [-> ?]. done. }
  split.
  - rewrite (merge_sort_Permutation node_le), filter_values. rewrite <- list_fmap_compose. apply NoDup_fmap_2_strong.
    + intros [k x] [k' y] [Hx Hk%elem_of_map_to_list]%list_elem_of_filter [Hy Hk'%elem_of_map_to_list]%list_elem_of_filter.
      cbn in *. intros Heq. destruct (Hrows k x Hk Hx) as [<- _], (Hrows k' y Hk' Hy) as [<- _]. rewrite Heq in *. congruence.
    + apply NoDup_filter, NoDup_map_to_list.
  - apply Forall_forall. intros nd Hnd. rewrite (merge_sort_Permutation node_le) in Hnd. by apply Hin.
Qed.

(** ** Steps of threads *)

Lemma update_step l w w' o n f a :
  world_ok l w -> mem_update o n f (w_store w) = (a, w_store w') -> w_host w' = w_host w ->
  (forall c, record_ok l c -> record_ok l (f c)) -> world_ok l w'.
Proof. intros Hok Hs Hh Hf. eapply world_update; [done| |done|exact Hf]. by rewrite Hs. Qed.

Lemma event_step l w w' o n e a :
  world_ok l w -> mem_AppendEvent o n e (w_store w) = (a, w_store w') -> w_host w' = w_host w -> world_ok l w'.
Proof.
  unfold mem_AppendEvent. intros Hok Hs Hh. apply (world_nodes l w); [done| |done|];
    destruct (m_clusters _ !! _); injection Hs as <- <-; [done..|by left|by left].
Qed.

Lemma delete_row_step l w w' o n vm a :
  world_ok l w -> mem_DeleteNode o n vm (w_store w) = (a, w_store w') -> w_host w' = w_host w -> world_ok l w'.
Proof.
  unfold mem_DeleteNode. intros Hok Hs Hh. apply (world_nodes l w); [done| |done|];
    (destruct (m_nodes _ !! vm); [destruct (_ || _)|]); injection Hs as <- <-; cbn; try done; try by left.
  intros vm' nd [_ Hd]%lookup_delete_Some. by left.
Qed.

Lemma upsert_step l w w' nd a :
  world_ok l w -> mem_UpsertNode nd (w_store w) = (a, w_store w') -> w_host w' = w_host w -> row_ok nd -> world_ok l w'.
Proof.
  unfold mem_UpsertNode. intros Hok Hs Hh Hrow. apply (world_nodes l w); [done| |done|];
    destruct (m_clusters _ !! _); injection Hs as <- <-; cbn; try done; try by left.
  intros vm nd' [[<- <-]|[_ Hd]]%lookup_insert_Some; [by right|by left].
Qed.

Lemma cp_stays l g : CPName owner name ∉ kept l g.
Proof. intros H%kept_start. by apply (Hcp g). Qed.

Lemma pass_step l ob w c a w' :
  world_ok l w -> ghost_ok l (GR ob) -> pass_may c -> exec w c a w' ->
  answers (GR ob) c a /\ world_ok l w' /\ ghost_ok l (follow (GR ob) c a).
Proof.
  intros Hok Hg Hmay Hexec.
  destruct c; cbn -[store_ans] in Hexec; try (subst w'; by split_and!); destruct Hexec as [Hs Hh].
  - (* store *)
    assert (Hghost : ghost_ok l (follow (GR ob) (CStore op) a)) by (by destruct op).
    enough (answers (GR ob) (CStore op) a /\ world_ok l w') by tauto.
    destruct op; cbn in Hs; try done;
      try (apply pair_equal_spec in Hs as [<- Hs]; split; [|by apply (world_same l w)]); try done.
    + by apply (seen_get _ l).
    + split; [done|]. eapply update_step; [done|exact Hs|done|]. intros c (?&?&?&?&?). by split_and!.
    + split; [done|]. eapply update_step; [done|exact Hs|done|]. intros c (?&?&?&?&?). by split_and!.
    + split; [done|]. by eapply upsert_step.
    + by apply (seen_rows _ l).
    + split; [done|]. by eapply event_step.
  - split_and!; [done| |done]. apply (world_host l w); [done..|]. by eapply keeps_create.
  - split_and!; [done| |done]. apply (world_host l w); [done..|]. by eapply keeps_runs.
  - split_and!; [done| |done]. apply (world_host l w); [done..|]. by eapply keeps_runs.
  - split_and!; [done| |done]. apply (world_host l w); [done..|]. eapply keeps_delete; [exact Hh|].
    intros g. cbn in Hmay. subst. apply cp_stays.
  - subst w'. destruct Hmay as [-> ->]. split_and!; [done|done|]. destruct Hh as [->|[m ->]]; [|done].
    intros g. rewrite observed_count. apply Nat2Z.inj_le, subseteq_size. intros vm Hvm.
    apply elem_of_group_instances. by apply (ok_host _ _ Hok).
Qed.

(** The request. *)
Lemma request_step l w c a w' :
  world_ok l w -> request_may l c -> exec w c a w' ->
  answers (GD l) c a /\ exists l', follow (GD l) c a = GD l' /\ world_ok l' w' /\ (l = true -> l' = true).
Proof.
  intros Hok Hmay Hexec.
  assert (Hsame : world_ok l w' -> answers (GD l) c a -> follow (GD l) c a = GD l ->
            answers (GD l) c a /\ exists l', follow (GD l) c a = GD l' /\ world_ok l' w' /\ (l = true -> l' = true)) by eauto.
  destruct c; cbn -[store_ans] in Hexec; try (subst w'; by apply Hsame); destruct Hexec as [Hs Hh].
  - destruct op; cbn in Hs; try done;
      try (apply pair_equal_spec in Hs as [<- Hs]; apply Hsame; [by apply (world_same l w)| |done]).
    + by apply (seen_get _ l).
    + destruct Hmay as (-> & -> & -> & Ht). split; [done|]. exists true. split_and!; [done| |done].
      destruct Hok as [(c & Hc & Hr) Hhost Hrows]. unfold mem_SetNodeGroupTarget, mem_update in Hs. rewrite Hc in Hs.
      destruct w' as [st' h']. cbn in Hs, Hh. injection Hs as _ Hs. subst st' h'. split; cbn.
      * eexists. rewrite lookup_insert_eq. split; [done|]. by eapply record_lowered.
      * intros g vm Hvm. apply Hhost. by apply kept_lowered.
      * exact Hrows.
    + by apply (seen_rows _ l).
    + apply Hsame; [by eapply delete_row_step|done|done].
    + apply Hsame; [by eapply event_step|done|done].
  - done.
  - apply Hsame; [|done|done]. apply (world_host l w); [done..|]. by eapply keeps_runs.
  - apply Hsame; [|done|done]. apply (world_host l w); [done..|]. by eapply keeps_runs.
  - apply Hsame; [|done|done]. apply (world_host l w); [done..|]. eapply keeps_delete; [exact Hh|].
    destruct Hmay as (-> & Hin & Hst). intros g Hk. unfold kept in Hk. cbn in Hk.
    destruct (String.eqb_spec g gname) as [Heq|Hne]; [|by apply Hne, (Hdisjoint _ _ name0)].
    apply elem_of_difference in Hk as [_ Hk]. by apply Hk, elem_of_list_to_set.
  - subst w'. by apply Hsame.
Qed.

Lemma ghosts_lowered l G : Forall (ghost_ok l) G -> Forall (fun s => is_request s = false) G -> Forall (ghost_ok true) G.
Proof.
  intros HG Hr. induction HG as [|s G Hs HG IH]; [constructor|]. apply Forall_cons in Hr as [Hrs Hr].
  constructor; [|by apply IH]. destruct s as [l'|[o|]]; [done| |done]. intros g. etrans; [|apply Hs].
  apply Nat2Z.inj_le, subseteq_size, kept_lowered.
Qed.

Lemma one_request G1 l G2 :
  (length (filter (fun s => is_request s = true) (G1 ++ GD l :: G2)) <= 1)%nat ->
  Forall (fun s => is_request s = false) (G1 ++ G2).
Proof.
  rewrite filter_app, filter_cons_True, length_app by done. cbn. intros Hle.
  assert (Hnone : forall G, length (filter (fun s => is_request s = true) G) = 0%nat -> Forall (fun s => is_request s = false) G).
  { intros G HG. apply length_zero_iff_nil in HG. apply Forall_forall. intros s Hin.
    destruct (is_request s) eqn:E; [|done]. exfalso. apply (filter_nil_not_elem_of _ _ s HG); [done|exact Hin]. }
  apply Forall_app. split; apply Hnone; lia.
Qed.

Lemma Inv_step w G1 s G2 c a w' :
  Inv w (G1 ++ s :: G2) -> may s c -> exec w c a w' ->
  answers s c a /\ Inv w' (G1 ++ follow s c a :: G2).
Proof.
  intros (l & Hok & HG & Hone) Hmay Hexec.
  apply Forall_app in HG as [HG1 HG2]. apply Forall_cons in HG2 as [Hs HG2]. destruct s as [l0|ob]; cbn in Hmay.
  - cbn in Hs. subst l0. destruct (request_step l w c a w' Hok Hmay Hexec) as (Ha & l' & Hf & Hok' & Hl).
    split; [done|]. exists l'. rewrite Hf. split; [done|]. split; [|by rewrite filter_app, !filter_cons_True, length_app in * by done].
    apply one_request in Hone. apply Forall_app in Hone as [Hr1 Hr2].
    assert (Hmove : forall G, Forall (ghost_ok l) G -> Forall (fun s => is_request s = false) G -> Forall (ghost_ok l') G).
    { destruct l'; [apply ghosts_lowered|]. destruct l; [by discriminate Hl|done]. }
    apply Forall_app. split; [by apply Hmove|]. constructor; [done|by apply Hmove].
  - destruct (pass_step l ob w c a w' Hok Hs Hmay Hexec) as (Ha & Hok' & Hs'). split; [done|]. exists l.
    split; [done|]. split; [by apply Forall_app; split; [|constructor]|].
    assert (Hnr : exists ob', follow (GR ob) c a = GR ob').
    { destruct c; cbn; try (by eexists); [by destruct op; eexists|by destruct a; eexists]. }
    destruct Hnr as [ob' ->]. rewrite filter_app, filter_cons_False in * by done. exact Hone.
Qed.

(** ** The programs *)

Abbreviation wpd := (wp answers follow may) (only parsing).

Definition rows_answer (c : ccall) : cans c -> Prop :=
  match c return cans c -> Prop with
  | CStore op =>
      match op return op_ans op -> Prop with
      | OListNodes o n => fun a => o = owner -> n = name -> match a with inl rows => rows_seen rows | inr _ => True end
      | _ => fun _ => True
      end
  | _ => fun _ => True
  end.

Lemma follow_pass ob c a : exists ob', follow (GR ob) c a = GR ob'.
Proof. destruct c; cbn; try (by eexists); [by destruct op; eexists|by destruct a; eexists]. Qed.

Lemma follow_request l c a : (forall now o n g t, c <> CStore (OSetNodeGroupTarget now o n g t)) -> follow (GD l) c a = GD l.
Proof. intros Hc. destruct c; try done. destruct op; try done. by destruct (Hc now owner0 name0 group target). Qed.

Lemma answers_rows s c a : answers s c a -> rows_answer c a.
Proof. destruct c; try done. by destruct op. Qed.

Lemma pass_calls {A} (p : cprog A) ob :
  only rows_answer pass_may p -> wpd p (fun s _ => exists ob', s = GR ob') (GR ob).
Proof.
  intros Hp. eapply wp_mono; [|eapply (wp_makes (fun s => exists ob', s = GR ob')); [|exact Hp|by eexists]].
  - by intros s r [? _].
  - intros s c [ob' ->] Hc. split; [exact Hc|]. intros a Ha. split; [by eapply answers_rows|apply follow_pass].
Qed.

(** With enough of every group observed, a pass over a live cluster creates no worker. *)
Lemma decide_no_worker c o :
  seen_ok (GR (Some o)) c ->
  Forall (fun act => a_Kind act = ActionStartVM \/ act = mkAction ActionCreateCP "" (CPName owner name)) (Decide (desiredFrom c) o).
Proof.
  intros (Ho & Hn & Hst & _ & Hg). unfold Decide. cbn. rewrite bool_decide_false by done. rewrite Ho, Hn.
  destruct (ob_CP o) as [cp|]; [|by repeat constructor; right]. destruct (vm_Running cp); cbn; [|by repeat constructor].
  apply Forall_concat, Forall_map. rewrite Forall_map. eapply Forall_impl; [exact Hg|]. intros g Hle. cbn.
  destruct (decide_group_spec owner name o (desired_group g)) as (ns & (Hlen & _) & ->). cbn in Hlen.
  assert (ns = []) as -> by (apply length_zero_iff_nil; cbn in Hle; lia). rewrite app_nil_r. apply Forall_map, Forall_forall. by left.
Qed.

Lemma perform_calls r c iso groups act :
  c_Owner c = owner -> c_Name c = name -> "" <> gname ->
  a_Kind act = ActionStartVM \/ act = mkAction ActionCreateCP "" (CPName owner name) ->
  only rows_answer pass_may (perform_action r c iso groups act).
Proof.
  intros Ho Hn Hg Hact. assert (Hquiet : forall c, quiet c -> pass_may c) by (by intros []).
  destruct Hact as [Hk| ->]; unfold perform_action.
  - rewrite Hk. apply only_guard; [by apply only_done|done|done].
  - cbn [a_Kind a_Name]. apply only_create_cp; try done; rewrite ?Ho, ?Hn; try done. intros now' H. by destruct Hg.
Qed.

Lemma settle_calls r c : c_Owner c = owner -> c_Name c = name -> only rows_answer pass_may (settleState r c).
Proof.
  intros Ho Hn. assert (Hquiet : forall c, quiet c -> pass_may c) by (by intros []).
  apply only_settleState; try done. 
  - intros now st reason [-> | ->]; done.
  - intros rows Ha. destruct (Ha Ho Hn) as [_ Hrows]. eapply Forall_impl; [exact Hrows|]. by intros nd.
Qed.

Lemma pass_safe r txt snapshot ob :
  c_Owner snapshot = owner -> c_Name snapshot = name -> "" <> gname ->
  wpd (reconcile_all r txt [snapshot]) (fun _ _ => True) (GR ob).
Proof.
  intros Ho Hn Hg. cbn [reconcile_all]. apply (wp_seq _ _ _ _ _ (fun s _ => exists ob', s = GR ob')).
  - apply wp_guard. unfold Observe. split; [by split|]. intros a _. destruct a as [o|m]; [|by eexists].
    apply wp_call_bind; [done|]. intros a Ha. destruct a as [c|e]; [|by destruct (Ha Ho Hn)]. specialize (Ha Ho Hn).
    pose proof Ha as (Hco & Hcn & Hst & _). apply pass_calls. cbv zeta.
    apply only_guard; [|intros [|]; [done|]|done].
    + apply only_perform. eapply Forall_impl; [by apply decide_no_worker|]. intros act Hact. by apply perform_calls.
    + unfold desiredFrom. cbn [ds_Deleting]. rewrite bool_decide_false by done. by apply settle_calls.
  - intros s res [ob' ->]. eapply wp_mono; [|apply pass_calls]; [done|].
    apply only_bind; [|done]. destruct res; [done|]. by repeat split.
Qed.
(** *** The request *)

(** The int32 arithmetic is exact. *)
Context (Hstart32 : Z.of_nat (size (start gname)) < 2 ^ 31) (Hnodes32 : Z.of_nat (length nodes) < 2 ^ 31).

Lemma in_group_rows g rows :
  g_Name g = gname -> rows_seen rows -> NoDup (in_group g rows) /\ forall vm, vm ∈ in_group g rows -> vm ∈ start gname.
Proof.
  intros Hg [Hnd Hrows]. unfold in_group. split.
  - apply (sublist_NoDup _ _ Hnd). apply fmap_sublist, sublist_filter.
  - intros vm [nd [-> [Hng Hin]%list_elem_of_filter]]%list_elem_of_fmap. rewrite Forall_forall in Hrows. apply Hrows; congruence.
Qed.
Lemma size_list_to_set_le (l : list string) : (size (list_to_set l : gset string) <= length l)%nat.
Proof.
  induction l as [|x l IH]; [done|]. cbn. rewrite size_union_alt, size_singleton.
  pose proof (subseteq_size ((list_to_set l : gset string) ∖ {[x]}) (list_to_set l) ltac:(set_solver)). lia.
Qed.

Lemma left_over ns :
  NoDup ns -> (forall vm, vm ∈ ns -> vm ∈ start gname) ->
  Z.of_nat (length ns) - Z.of_nat (length (filter (fun n => n ∈ ns) nodes)) <= remaining.
Proof.
  intros Hnd Hsub. rewrite <- (size_list_to_set (C := gset string) ns) by done.
  pose proof (size_list_to_set_le (filter (fun n => n ∈ ns) nodes)) as Hb.
  set (kept := start gname ∖ list_to_set nodes). set (batch := list_to_set (filter (fun n => n ∈ ns) nodes) : gset string) in *.
  assert (Hle : (size (list_to_set ns : gset string) <= size (kept ∪ batch))%nat).
  { apply subseteq_size. intros vm Hvm%elem_of_list_to_set. apply elem_of_union.
    destruct (decide (vm ∈ nodes)) as [Hin|Hin]; [right|left].
    - by apply elem_of_list_to_set, list_elem_of_filter.
    - apply elem_of_difference. split; [by apply Hsub|]. by rewrite elem_of_list_to_set. }
  rewrite size_union_alt in Hle. pose proof (subseteq_size (batch ∖ kept) batch ltac:(set_solver)). lia.
Qed.

Lemma target_after_le g rows host batch :
  g_Name g = gname -> shape g ∈ bounds -> rows_seen rows -> to_delete (in_group g rows) host nodes = inl batch ->
  target_after g rows batch <= remaining /\ Forall (fun n => n ∈ nodes /\ n ∈ start gname) batch.
Proof.
  intros Hg Hs Hrows ->%to_delete_filter. destruct (in_group_rows g rows Hg Hrows) as [Hnd Hsub]. split.
  - pose proof (left_over _ Hnd Hsub) as Hleft. unfold shape in Hs. rewrite Hg in Hs. specialize (Hmin _ _ Hs).
    set (ns := in_group g rows) in *. assert (Hl : Z.of_nat (length ns) <= Z.of_nat (size (start gname))).
    { rewrite <- (size_list_to_set (C := gset string) ns) by done. apply Nat2Z.inj_le, subseteq_size. intros vm.
      rewrite elem_of_list_to_set. apply Hsub. }
    pose proof (length_filter (fun n => n ∈ ns) nodes) as Hf.
    assert (Hi : forall z, - 2 ^ 31 <= z < 2 ^ 31 -> wrap i32 z = z) by (intros z Hz; apply wrap_in_type_id; [done|type_bounds]).
    unfold target_after. fold ns. rewrite (Hi (Z.of_nat (length ns))), (Hi (Z.of_nat (length (filter _ nodes)))), Hi by lia.
    case_match; lia.
  - apply Forall_forall. intros n [Hin Hn]%list_elem_of_filter. auto.
Qed.

Lemma remove_calls ns :
  Forall (fun n => n ∈ nodes /\ n ∈ start gname) ns ->
  only (fun _ _ => True) (request_may true) (remove_nodes owner name ns).
Proof.
  assert (Hquiet : forall c, quiet c -> request_may true c) by (by intros []).
  induction 1 as [|n ns [Hn Hs] Hns IH]; [done|]. cbn [remove_nodes].
  apply only_bind; [by apply only_ForgetNode|]. intros [[]|e].
  - by apply only_call.
  - destruct (negb _); [done|]. apply only_call; [done|]. intros _ _. by apply only_bind.
Qed.

Lemma request_calls {A} (p : cprog A) :
  only (fun _ _ => True) (request_may true) p -> wpd p (fun s _ => s = GD true) (GD true).
Proof.
  intros Hp. eapply wp_mono; [|eapply (wp_makes (fun s => s = GD true)); [|exact Hp|done]].
  - by intros s r [? _].
  - intros s c -> Hc. split; [exact Hc|]. intros a _. split; [done|]. destruct c; try done. by destruct op.
Qed.
Section Request.
Context (now : Time) (st : scope_state) (ctx : Context) (id : string).
Context (Hid : caIdentity now st ctx = inl (owner, name)) (Hsplit : split_char "/" id = [owner; name; gname]).

Definition drain : cprog unit := NodeGroupDeleteNodes now st ctx id nodes ≫= fun _ => mret tt.

Lemma request_group (post : ghost -> (string * string * NodeGroup) + ca_error -> Prop) l :
  (forall e, post (GD l) (inr e)) ->
  (forall g, g_Name g = gname -> shape g ∈ bounds -> post (GD l) (inl (owner, name, g))) ->
  wpd (groupFromID now st ctx id) post (GD l).
Proof.
  intros Herr Hok. unfold groupFromID. rewrite Hid, Hsplit, !String.eqb_refl. cbn [negb orb].
  apply wp_call_bind; [done|]. intros [c|e] Ha; [|by apply wp_ret]. apply wp_ret. cbn [follow].
  destruct (filter _ (c_NodeGroups c)) as [|g gs] eqn:E; [done|].
  assert (Hin : g ∈ filter (fun g => g_Name g = gname) (c_NodeGroups c)) by (rewrite E; by left).
  apply list_elem_of_filter in Hin as [Hg Hin]. apply Hok; [done|].
  destruct (Ha eq_refl eq_refl) as (_ & _ & _ & <- & _). by apply (list_elem_of_fmap_2 shape).
Qed.

Lemma request_safe : wpd drain (fun _ _ => True) (GD false).
Proof.
  unfold drain. apply wp_bind. unfold NodeGroupDeleteNodes.
  apply wp_bind, request_group; [done|]. intros g Hg Hs.
  apply wp_call_bind; [done|]. intros [rows|e] Hrows; [|by apply wp_ret]. specialize (Hrows eq_refl eq_refl).
  apply wp_call_bind; [done|]. intros host _. cbn [follow].
  destruct (to_delete (in_group g rows) host nodes) as [batch|e] eqn:Eb; [|by apply wp_ret].
  destruct (target_after_le g rows host batch Hg Hs Hrows Eb) as [Ht Hb]. cbv zeta.
  apply wp_bind. apply wp_call_bind; [done|]. intros time _. apply wp_call_bind; [by split_and!|]. intros err _. apply wp_ret.
  cbn [follow]. destruct err as [e|]; [by apply wp_ret|]. eapply wp_mono; [|apply request_calls]; [done|].
  apply only_bind; [by apply remove_calls|]. intros [stale|e]; [|done]. destruct batch as [|b batch]; [done|].
  apply only_bind; [|done]. by repeat split.
Qed.

(** ** The system *)

(** The label that makes an instance a node of this cluster belongs to its reconciler: any
    other step keeps the record, the rows and the workers. *)
Definition frame (w w' : cworld) : Prop :=
  m_clusters (w_store w') !! key owner name = m_clusters (w_store w) !! key owner name /\
  (forall vm nd, of_cluster owner name nd -> m_nodes (w_store w') !! vm = Some nd -> m_nodes (w_store w) !! vm = Some nd) /\
  (forall g vm c, worker_of owner name g c -> w_host w !! vm = Some c ->
     exists c', w_host w' !! vm = Some c' /\ worker_of owner name g c').

(** Passes of the reconciler over this cluster, from any snapshot of it. *)
Inductive arrives : cprog unit -> Prop :=
| arrives_pass r txt snapshot :
    c_Owner snapshot = owner -> c_Name snapshot = name -> arrives (reconcile_all r txt [snapshot]).

Definition system := pstep exec (fun _ _ => None) arrives frame.

(** The thread is about to create a worker. *)
Definition creates_worker {A} (p : cprog A) : Prop :=
  match p with Do (HCreateNode spec _) _ => sp_Labels spec !! LabelClusterRole <> Some RoleControlPlane | _ => False end.

Lemma frame_Inv w w' G : frame w w' -> Inv w G -> Inv w' G.
Proof.
  intros (Hc & Hn & Hh) (l & [Hr Hhost Hrows] & HG & Hone). exists l. split; [|by split]. split.
  - by rewrite Hc.
  - intros g vm Hvm. destruct (Hhost g vm Hvm) as (c & Hl & Hw). eauto.
  - intros vm nd Hl Hof. apply Hrows; auto.
Qed.

Lemma system_safe w0 T w :
  "" <> gname -> Inv w0 [GD false] -> rtc system ([drain], w0) (T, w) -> 
  Forall (fun p => ~ creates_worker p) T /\ exists l, world_ok l w.
Proof.
  intros Hg H0 Hrun.
  destruct (pool_invariant_from exec (fun _ _ => None) arrives frame follow may answers (fun _ _ => GR None) (GR None)
              (fun _ _ => True) Inv [drain] [GD false] w0 T w) as (G & HT & l & Hok & _); [| |..|done|].
  - constructor; [exact request_safe|constructor].
  - done.
  - intros p [r txt snapshot Ho Hn]. by apply pass_safe.
  - done.
  - intros w1 G (l & Hok & HG & Hone). exists l. split; [done|]. split; [by apply Forall_app; split; [|repeat constructor]|].
    rewrite filter_app, filter_cons_False, filter_nil, app_nil_r by done. done.
  - intros w1 w2 G. apply frame_Inv.
  - intros w1 G1 s G2 c a w2 HI Hmay Hexec. destruct (Inv_step _ _ _ _ _ _ _ HI Hmay Hexec) as [Ha HI']. split; [done|].
    cbn. by rewrite app_nil_r.
  - split; [|by exists l]. clear -HT. induction HT as [|p s T G Hp HT IH]; [constructor|]. constructor; [|done].
    intros Hcw. destruct p as [r|c k]; [done|]. destruct Hp as [Hc _]. destruct c; try done. destruct s; [done|]. by apply Hcw.
Qed.
End Request.
End Drain.

(** ** The theorem *)

(** A cluster at rest: its record is not being deleted, no group wants more workers than it
    has, its rows of the group are instances of the group, and the request for [nodes] leaves
    the group at least its minimum. *)
Record at_rest (owner name gname : string) (nodes : list string) (w : cworld) (c : Cluster) : Prop := {
  rest_record : m_clusters (w_store w) !! key owner name = Some c;
  rest_name : c_Owner c = owner /\ c_Name c = name;
  rest_alive : c_State c <> StateDeleting;
  rest_groups : NoDup (g_Name <$> c_NodeGroups c);
  rest_targets : Forall (fun g => EffectiveTarget g <= Z.of_nat (size (group_instances owner name (g_Name g) (w_host w))))
                   (c_NodeGroups c);
  rest_rows : forall vm nd, m_nodes (w_store w) !! vm = Some nd -> of_cluster owner name nd ->
    n_VMName nd = vm /\ (n_Group nd = gname -> vm ∈ group_instances owner name gname (w_host w));
  rest_cp : forall g, CPName owner name ∉ group_instances owner name g (w_host w);
  rest_min : Forall (fun g => g_Name g = gname ->
      MinNodes g <= Z.of_nat (size (group_instances owner name gname (w_host w) ∖ list_to_set nodes))) (c_NodeGroups c);
  rest_sizes : Z.of_nat (size (group_instances owner name gname (w_host w))) < 2 ^ 31 /\ Z.of_nat (length nodes) < 2 ^ 31;
}.

(** C16: One removal of drained nodes is not undone by the reconciler.  Take a live cluster at
    rest: its groups are named apart, no group wants more workers than it has, no worker bears the control plane's
    name, the rows of the group are instances of it, without the named nodes the group still has its minimum, and the
    counts fit an int32.  One NodeGroupDeleteNodes
    request of the autoscaler then removes nodes of the group, and passes of the reconciler over this cluster may run at any point of
    the removal, any number of them, from snapshots of any age; the host may fail any call; and
    nobody else changes the cluster's record, adds rows to it or removes workers of it.  Then no pass creates a
    worker, so what was removed is not rebuilt, and every worker the request does not name stays on the host. *)
Theorem no_resurrection owner name gname nodes c now st ctx id w0 T w :
  at_rest owner name gname nodes w0 c -> "" <> gname ->
  caIdentity now st ctx = inl (owner, name) -> split_char "/" id = [owner; name; gname] ->
  rtc (system owner name) ([drain nodes now st ctx id], w0) (T, w) ->
  Forall (fun p => ~ creates_worker p) T /\
  forall g vm, vm ∈ group_instances owner name g (w_host w0) -> vm ∉ nodes -> vm ∈ group_instances owner name g (w_host w).
Proof.
  intros [Hc [Ho Hn] Hst Hnd Ht Hrows Hcp Hmin [H32 Hn32]] Hg Hid Hsplit Hrun.
  set (start := fun g => group_instances owner name g (w_host w0)).
  assert (H : Forall (fun p => ~ creates_worker p) T /\ exists l, world_ok owner name gname nodes start (map shape (c_NodeGroups c)) l w).
  { eapply (system_safe owner name gname nodes start (map shape (c_NodeGroups c))); [..|exact Hrun]; try done.
    - by rewrite map_map.
    - intros g h vm (x & Hx & _ & _ & <-)%elem_of_group_instances (y & Hy & _ & _ & <-)%elem_of_group_instances. congruence.
    - intros mn mx (g & [= Hgn -> ->] & Hin)%list_elem_of_fmap. rewrite Forall_forall in Hmin. by apply Hmin.
    - exists false. split; [|by split; [repeat constructor|]]. split.
      + exists c. by split_and!.
      + intros g vm. apply elem_of_group_instances.
      + intros vm nd Hl Hof. destruct (Hrows vm nd Hl Hof) as [<- Hin]. done. }
  destruct H as [Hsafe [l [_ Hhost _]]]. split; [done|]. intros g vm Hvm Hnot. apply elem_of_group_instances, Hhost.
  unfold kept. destruct (_ && _); [|done]. apply elem_of_difference. split; [done|]. by rewrite elem_of_list_to_set.
Qed.

(** alice's cluster dev: two workers of group pool, of which the request removes the first. *)
Definition ex_node (vm role group : string) : Node := mkNode "alice" "dev" vm role group NodeStateReady 0.

Definition ex_vm (vm role group : string) : string * ContainerInfo :=
  (vm, instance vm "Running" (VMLabels "alice" "dev" role group)).

Definition ex_cluster : Cluster :=
  mkCluster "id" "alice" "dev" StateReady "" "v1" "1.2.3.4:6443" [mkGroup "pool" (mkSize "2" "4GB" "40GB") 1 3 2] "" 0 0.

Definition ex_world : cworld :=
  let w n := WorkerName "alice" "dev" "pool" n in let cp := CPName "alice" "dev" in
  mkWorld
    (mkMem {[key "alice" "dev" := ex_cluster]}
       (list_to_map (map (fun nd => (n_VMName nd, nd)) [ex_node (w 1) RoleWorker "pool"; ex_node (w 2) RoleWorker "pool"; ex_node cp RoleControlPlane ""])) ∅)
    (list_to_map [ex_vm (w 1) RoleWorker "pool"; ex_vm (w 2) RoleWorker "pool"; ex_vm cp RoleControlPlane ""]).

(** The certificate of the cluster's own autoscaler. *)
Definition ex_machine : Context :=
  mkContext None (Some "k8s-cluster:alice/dev") None (Some (Some [ScopeClustersScale])) None None None None.

Lemma ex_at_rest : at_rest "alice" "dev" "pool" [WorkerName "alice" "dev" "pool" 1] ex_world ex_cluster.
Proof.
  split; [vm_compute; done|done|done| | | | | |split; vm_compute; done].
  - repeat constructor. set_solver.
  - apply Forall_singleton. vm_compute. done.
  - intros vm nd Hl _. unfold ex_world in Hl. cbn [w_store m_nodes] in Hl. apply elem_of_list_to_map_2 in Hl.
    cbn [map ex_node n_VMName] in Hl. rewrite !elem_of_cons in Hl.
    destruct Hl as [[= -> ->]|[[= -> ->]|[[= -> ->]|Hl]]]; [..|by apply not_elem_of_nil in Hl]; (split; [done|]); [| |done].
    all: intros _; vm_compute; done.
  - intros g (c & Hl & _ & Hr & _)%elem_of_group_instances. vm_compute in Hl. injection Hl as <-. by vm_compute in Hr.
  - apply Forall_singleton. intros _. vm_compute. done.
Qed.

(** A pass arrives while the request is about to read. *)
Lemma no_resurrection_witness :
  let request := drain [WorkerName "alice" "dev" "pool" 1] 0 (mkScopeState false 0 0) ex_machine "alice/dev/pool" in
  let r := mkReconciler true true "" false "" true "" in
  let pass := reconcile_all r (fun _ => "") [ex_cluster] in
  Forall (fun p => ~ creates_worker p) [request; pass] /\
  WorkerName "alice" "dev" "pool" 2 ∈ group_instances "alice" "dev" "pool" (w_host ex_world).
Proof.
  intros request r pass.
  destruct (no_resurrection "alice" "dev" "pool" [WorkerName "alice" "dev" "pool" 1] ex_cluster 0 (mkScopeState false 0 0)
              ex_machine "alice/dev/pool" ex_world [request; pass] ex_world ex_at_rest) as [H1 H2];
    [done|vm_compute; reflexivity|vm_compute; reflexivity| |].
  - apply rtc_once. apply (pstep_arrive _ _ _ _ [request]). by constructor.
  - split; [exact H1|]. apply H2; [vm_compute; done|]. rewrite list_elem_of_singleton. done.
Defined.
