(* ===== verification/ClusterGuard.v ===== *)
(** * What requests may touch

    The handlers of cluster_server.go act for an authenticated caller, those of
    ca_provider_server.go for a cluster's own autoscaler.  This file proves, for every run of
    a handler, which calls it makes and on whose cluster. *)

From S2P Require Import Prelude Prog GoStrings Auth Cluster ClusterStore ClusterDecide ClusterCapacity ClusterBootstrap.
From S2P Require Import ClusterApi ClusterManager ClusterReconciler ClusterCalls ClusterCA ClusterRpc ClusterWorld ClusterDrain.
From Stdlib Require Import Ascii.
#[local] Open Scope string_scope.
#[local] Open Scope list_scope.
#[local] Open Scope Z_scope.

(** ** The requests *)

Inductive api_request :=
| RCreate (owner name : string) (isolation : Z) (groups : list pb_NodeGroup) | RUpdate (owner name : string) (groups : list pb_NodeGroup)
| RDelete (owner name : string) | RGet (owner name : string) | RList (owner : string)
| RKubeconfig (owner name : string) | RStatus (owner name : string) (limit : Z).

Inductive ca_request :=
| QGroups | QForNode (node : string) | QTarget (id : string) | QIncrease (id : string) (delta : Z)
| QDelete (id : string) (nodes : list string) | QDecrease (id : string) (delta : Z) | QNodes (id : string) | QTemplate (id : string).

(** A handler without its response: the error, if there is one. *)
Definition outcome {R E} (p : cprog (R + E)) : cprog (option E) := p ≫= fun r => mret (match r with inl _ => None | inr e => Some e end).

Definition serve (sv : ClusterServer) (txt : caps_error -> string) (now : Time) (st : scope_state) (ctx : Context) (q : api_request)
  : cprog (option cluster_rejection) :=
  match q with
  | RCreate o n iso gs => outcome (CreateCluster sv txt now st ctx o n iso gs)
  | RUpdate o n gs => outcome (UpdateClusterNodePool sv txt now st ctx o n gs)
  | RDelete o n => outcome (DeleteCluster sv now st ctx o n)
  | RGet o n => outcome (GetCluster now st ctx o n)
  | RList o => outcome (ListClusters now st ctx o)
  | RKubeconfig o n => outcome (GetClusterKubeconfig sv now st ctx o n)
  | RStatus o n limit => outcome (GetClusterStatus now st ctx o n limit)
  end.

Definition serve_ca (now : Time) (st : scope_state) (ctx : Context) (q : ca_request) : cprog (option ca_error) :=
  match q with
  | QGroups => outcome (NodeGroups now st ctx)
  | QForNode node => outcome (NodeGroupForNode now st ctx node)
  | QTarget id => outcome (NodeGroupTargetSize now st ctx id)
  | QIncrease id d => outcome (NodeGroupIncreaseSize now st ctx id d)
  | QDelete id nodes => outcome (NodeGroupDeleteNodes now st ctx id nodes)
  | QDecrease id d => outcome (NodeGroupDecreaseTargetSize now st ctx id d)
  | QNodes id => outcome (NodeGroupNodes now st ctx id)
  | QTemplate id => outcome (NodeGroupTemplateNodeInfo now st ctx id)
  end.

(** ** The API: whose clusters *)

Definition scope_of (q : api_request) : string :=
  match q with RGet _ _ | RList _ | RStatus _ _ _ => ScopeClustersRead | _ => ScopeClustersWrite end.

Definition requested (q : api_request) : string :=
  match q with
  | RCreate o _ _ _ | RUpdate o _ _ | RDelete o _ | RGet o _ | RList o | RKubeconfig o _ | RStatus o _ _ => o
  end.

(** The owner a caller [u] with these roles may act for. *)
Definition acts_for (u : string) (roles : list string) (q : api_request) (owner : string) : Prop :=
  if String.eqb (requested q) "" then
    match q with RList _ => owner = (if HasRole roles RoleAdmin then "" else u) | _ => owner = u end
  else owner = requested q /\ (u = requested q \/ HasRole roles RoleAdmin = true).

(** What a request does for [o]. *)
Definition api_store (sv : ClusterServer) (o : string) (q : api_request) (op : store_op) : Prop :=
  match q, op with
  | RCreate _ n _ _, OCreate c =>
      c_Owner c = o /\ c_Name c = n /\ c_State c = StateProvisioning /\ ValidateName n = true /\
      ValidateNodeGroups (c_NodeGroups c) = None /\ caps_check (s_caps sv) (c_NodeGroups c) = None /\
      gate_check (s_isolation sv) (c_NodeIsolation c) = None
  | RUpdate _ n _, OUpdateNodeGroups _ o' n' gs =>
      o' = o /\ n' = n /\ ValidateNodeGroups gs = None /\ caps_check (s_caps sv) gs = None
  | RUpdate _ n _, OAppendEvent o' n' e => o' = o /\ n' = n /\ e_Kind e = EventRefused
  | RDelete _ n, OSetState _ o' n' state _ => o' = o /\ n' = n /\ state = StateDeleting /\ s_reconciler sv = true
  | RDelete _ n, ODelete o' n' => o' = o /\ n' = n /\ s_reconciler sv = false
  | (RUpdate _ n _ | RDelete _ n | RGet _ n | RKubeconfig _ n | RStatus _ n _), OGet o' n' => o' = o /\ n' = n
  | RStatus _ n _, OListNodes o' n' => o' = o /\ n' = n
  | RStatus _ n _, OListEvents o' n' limit => o' = o /\ n' = n /\ 1 <= limit <= 1000
  | RList _, OList o' => o' = o
  | _, _ => False
  end.

Definition api_may (sv : ClusterServer) (o : string) (q : api_request) (c : ccall) : Prop :=
  match c with
  | CStore op => api_store sv o q op
  | HVMCapable | HContainerNodeCapable => match q with RCreate _ _ _ _ => True | _ => False end
  | HRead vm _ => match q with RKubeconfig _ n => vm = CPName o n | _ => False end
  | CNow | CNewID => True
  | _ => False
  end.

(** The store answers [Get] with the record that was asked for. *)
Definition own_record (c : ccall) : cans c -> Prop :=
  match c return cans c -> Prop with
  | CStore op =>
      match op return op_ans op -> Prop with
      | OGet o n => fun a => match a with inl c => c_Owner c = o /\ c_Name c = n | inr _ => True end
      | _ => fun _ => True
      end
  | _ => fun _ => True
  end.

Section Api.
Context (sv : ClusterServer) (txt : caps_error -> string) (now : Time) (st : scope_state) (ctx : Context).

(** A handler that does not authorise its caller returns the refusal and calls nothing. *)
Lemma caller_owner_cases q :
  (forall o, q <> RList o) ->
  match caller_owner now st ctx (scope_of q) (requested q) with
  | inr e => exists e', e = CrAuth e'
  | inl o => (RequireScope now ctx (scope_of q) st).1 = None /\ exists u roles, caller_is ctx u roles /\ acts_for u roles q o
  end.
Proof.
  intros Hq. unfold caller_owner. destruct (RequireScope _ _ _ _).1 as [e|]; [by eexists|].
  unfold resolveOwner, AuthorizeTenant, acts_for, caller_is.
  destruct (SubjectFromGRPCContext ctx) as [[u roles] ok]. destruct (String.eqb_spec (requested q) "") as [Hr|Hr].
  - destruct ok; [|by eexists]. cbn. rewrite String.eqb_refl. 
    destruct (HasRole roles RoleAdmin); cbn; (split; [done|]; exists u, roles; split; [done|]; destruct q; try done; by destruct (Hq owner)).
  - destruct ok; [|by eexists]. cbn. destruct (HasRole roles RoleAdmin) eqn:Ha; cbn; [by split; [|exists u, roles; auto]|].
    destruct (String.eqb_spec u (requested q)) as [Hu|Hu]; cbn; [|by eexists]. split; [done|]. exists u, roles. auto.
Qed.

Abbreviation within o q := (only own_record (api_may sv o q)) (only parsing).

Lemma enforceCaps_within o n gs q ev :
  (ev = true -> exists r gs', q = RUpdate r n gs') ->
  makes own_record (api_may sv o q) (enforceCaps sv txt o n gs ev)
    (fun r => match r with inl _ => caps_check (s_caps sv) gs = None | inr _ => True end).
Proof.
  intros Hq. unfold enforceCaps. destruct (caps_check (s_caps sv) gs) as [e|] eqn:E; [|by apply makes_ret].
  eapply makes_bind with (Q := fun _ => True); [|done]. destruct ev; [|done]. destruct (Hq eq_refl) as (r & gs' & ->).
  by repeat split.
Qed.

Lemma enforceIsolation_check v iso : enforceIsolation (s_isolation sv) v = inl iso -> gate_check (s_isolation sv) iso = None.
Proof.
  unfold enforceIsolation. destruct (isolationFromProto v) as [i|e]; [|done].
  destruct (gate_check (s_isolation sv) i) eqn:E; [done|]. by intros [= <-].
Qed.

Lemma create_within o r n iso gs :
  caller_owner now st ctx ScopeClustersWrite r = inl o ->
  within o (RCreate r n iso gs) (CreateCluster sv txt now st ctx r n iso gs).
Proof.
  intros Ho. unfold CreateCluster. rewrite Ho. destruct (ValidateName n) eqn:Hn; [cbn [negb]|done].
  destruct (enforceIsolation (s_isolation sv) iso) as [isolation|e] eqn:Hi; [|done]. apply enforceIsolation_check in Hi.
  apply only_bind.
  { destruct (s_reconciler sv); [|done]. unfold NodeCapable. destruct (String.eqb _ _); by apply only_done. }
  intros [[]|e]; [|done]. destruct (groupsFromProto gs) as [groups|e]; [|done]. cbv zeta.
  set (groups' := match groups with [] => DefaultNodeGroups | _ => groups end).
  destruct (ValidateNodeGroups groups') eqn:Hv; [done|].
  eapply makes_bind; [by apply enforceCaps_within|]. intros [[]|e] Hc; [|by apply makes_ret].
  apply only_call; [done|]. intros at_ _. apply only_call; [done|]. intros id _. apply only_call; [by split_and!|done].
Qed.

Lemma update_within o r n gs :
  caller_owner now st ctx ScopeClustersWrite r = inl o ->
  within o (RUpdate r n gs) (UpdateClusterNodePool sv txt now st ctx r n gs).
Proof.
  intros Ho. unfold UpdateClusterNodePool. rewrite Ho.
  destruct (groupsFromProto gs) as [groups|e]; [|done]. destruct (ValidateNodeGroups groups) eqn:Hv; [done|].
  eapply makes_bind; [apply enforceCaps_within; eauto|]. intros [[]|e] Hc; [|by apply makes_ret].
  apply only_call; [done|]. intros at_ _. apply only_call; [by split_and!|]. intros [e|] _; [done|]. by apply only_call.
Qed.

Lemma delete_within o r n :
  caller_owner now st ctx ScopeClustersWrite r = inl o -> within o (RDelete r n) (DeleteCluster sv now st ctx r n).
Proof.
  intros Ho. unfold DeleteCluster. rewrite Ho. destruct (s_reconciler sv) eqn:Hr; [|by apply only_call].
  apply only_call; [done|]. intros [c|e] _; [|done]. apply only_call; [done|]. intros at_ _. by apply only_call.
Qed.

Lemma kubeconfig_within o r n :
  caller_owner now st ctx ScopeClustersWrite r = inl o -> within o (RKubeconfig r n) (GetClusterKubeconfig sv now st ctx r n).
Proof.
  intros Ho. unfold GetClusterKubeconfig. rewrite Ho. apply only_call; [done|]. intros [c|e] Hc; [|done].
  destruct (negb _); [done|]. destruct (negb _); [done|]. destruct Hc as [Hco Hcn].
  apply only_bind; [|done]. unfold ReadKubeconfig, Kubeconfig. rewrite Hco, Hcn. by apply only_guard; [apply only_value| |].
Qed.

Lemma clampEventsLimit_range v : 1 <= clampEventsLimit v <= 1000.
Proof. unfold clampEventsLimit, defaultEventsLimit, maxEventsLimit. cases_Z; lia. Qed.

Lemma status_within o r n limit :
  caller_owner now st ctx ScopeClustersRead r = inl o -> within o (RStatus r n limit) (GetClusterStatus now st ctx r n limit).
Proof.
  intros Ho. unfold GetClusterStatus. rewrite Ho. apply only_call; [done|]. intros [c|e] _; [|done].
  apply only_call; [done|]. intros [rows|e] _; [|done].
  apply only_call; [|done]. split; [done|]. split; [done|]. apply clampEventsLimit_range.
Qed.

Lemma outcome_within o q {R} (p : rpc R) : within o q p -> within o q (outcome p).
Proof. intros Hp. by apply only_bind. Qed.

(** What a handler does for its caller: refuse, or act for an owner it authorised. *)
Lemma serve_cases q :
  (exists e, serve sv txt now st ctx q = mret (Some (CrAuth e))) \/
  (RequireScope now ctx (scope_of q) st).1 = None /\
  exists u roles o, caller_is ctx u roles /\ acts_for u roles q o /\ within o q (serve sv txt now st ctx q).
Proof.
  assert (Hq : (exists r, q = RList r) \/ forall r, q <> RList r) by (destruct q; [by right..|by left; eexists|by right|by right]).
  destruct Hq as [[r ->]|Hnl].
  - cbn [serve scope_of]. unfold ListClusters, AuthorizeTenant, acts_for, caller_is. cbn [requested].
    destruct (RequireScope _ _ _ _).1 as [e|]; [left; by eexists|].
    destruct (SubjectFromGRPCContext ctx) as [[u roles] ok].
    destruct (String.eqb_spec r "") as [->|Hr]; cbn [negb]; (destruct ok; cbn [negb]; [|left; by eexists]).
    + right. split; [done|]. exists u, roles, (if HasRole roles RoleAdmin then "" else u). split_and!; [done..|].
      apply outcome_within. by apply only_call.
    + destruct (negb (HasRole roles RoleAdmin) && negb (String.eqb u r)) eqn:E. 
      * left. eexists. destruct (HasRole roles RoleAdmin), (String.eqb u r); done.
      * right. split; [done|]. exists u, roles, r. split_and!; [done|done| |].
        -- destruct (HasRole roles RoleAdmin), (String.eqb_spec u r); auto.
        -- apply outcome_within. destruct (HasRole roles RoleAdmin), (String.eqb u r); try done; by apply only_call.
  - pose proof (caller_owner_cases q Hnl) as Hc.
    destruct (caller_owner now st ctx (scope_of q) (requested q)) as [o|e] eqn:E.
    + right. destruct Hc as (Hs & u & roles & Hu & Ha). split; [done|]. exists u, roles, o. split_and!; [done..|].
      destruct q; apply outcome_within;
        [by apply create_within|by apply update_within|by apply delete_within| | |by apply kubeconfig_within|by apply status_within].
      * unfold GetCluster. cbn in E. rewrite E. by apply only_call.
      * by destruct (Hnl owner).
    + left. destruct Hc as [e' ->]. exists e'. destruct q; cbn in E;
        unfold serve, CreateCluster, UpdateClusterNodePool, DeleteCluster, GetCluster, GetClusterKubeconfig, GetClusterStatus;
        rewrite ?E; try done. by destruct (Hnl owner).
Qed.

(** C23: Every API request, and every run of its handler, on a store that answers a Get with the record that was asked for.  Either the
    caller lacks the scope, is not
    authenticated or may not act for the requested owner: then the handler returns the refusal and has called
    nothing.  Or the handler acts for one owner: the requested one, where the caller is that tenant or
    an admin, or else the caller itself.  A listing makes the one query for the clusters of that owner; an admin that names no owner
    lists those of all.  Any other request reads and changes that owner's cluster of
    the requested name only; a record it stores has passed the validation, the ceilings and the isolation
    gate; a deletion goes through the reconciler when there is one; and the only thing it does on an instance is to
    read the kubeconfig from that cluster's control plane when the kubeconfig is what was requested. *)
Theorem api_guarded q tr p :
  Prog.runs (serve sv txt now st ctx q) tr p ->
  Forall (fun e => own_record (projT1 e) (projT2 e)) tr ->
  (exists e, tr = [] /\ p = Ret (Some (CrAuth e))) \/
  (RequireScope now ctx (scope_of q) st).1 = None /\
  exists u roles o, caller_is ctx u roles /\ acts_for u roles q o /\ Forall (fun e => api_may sv o q (projT1 e)) tr.
Proof.
  intros Hruns Hal. destruct (serve_cases q) as [[e Heq]|(Hs & u & roles & o & Hu & Ha & Hw)]; [left|right].
  - exists e. rewrite Heq in Hruns. by inversion Hruns.
  - split; [done|]. exists u, roles, o. split_and!; [done..|]. by eapply makes_runs.
Qed.
End Api.

(** alice creates a cluster of the default groups. *)
Lemma api_guarded_witness :
  let sv := mkServer true ex_caps (mkGate false None) in
  let ctx := mkContext None (Some "alice") None (Some (Some [ScopeClustersWrite])) None None None None in
  let q := RCreate "" "dev" 0 [] in
  let tr := (play working (serve sv (fun _ => "") 0 (mkScopeState false 0 0) ctx q) (mkWorld NewMemStore ∅)).1 in
  length tr = 4%nat /\ Forall (fun e => api_may sv "alice" q (projT1 e)) tr.
Proof.
  intros sv ctx q tr. assert (Hlen : length tr = 4%nat) by (vm_compute; reflexivity). split; [exact Hlen|].
  destruct (api_guarded sv (fun _ => "") 0 (mkScopeState false 0 0) ctx q tr
              (Ret (play working (serve sv (fun _ => "") 0 (mkScopeState false 0 0) ctx q) (mkWorld NewMemStore ∅)).2))
    as [(e & He & _)|(_ & u & roles & o & Hu & Ho & Hall)].
  - apply play_runs.
  - vm_compute. repeat constructor.
  - by rewrite He in Hlen.
  - replace o with "alice" in Hall; [exact Hall|]. vm_compute in Hu. injection Hu as <- _. by cbn in Ho.
Defined.

(** ** The autoscaler: what a run has seen *)

Record seen := mkSeen {
  se_record : option Cluster;   (** the last record read *)
  se_rows : option (list Node); (** the last rows read *)
  se_target : option Z;         (** the target that was stored *)
}.

Definition nothing_seen : seen := mkSeen None None None.

Definition see (s : seen) (c : ccall) : cans c -> seen :=
  match c return cans c -> seen with
  | CStore op =>
      match op return op_ans op -> seen with
      | OGet _ _ => fun a => match a with inl c => mkSeen (Some c) (se_rows s) (se_target s) | inr _ => s end
      | OListNodes _ _ => fun a => match a with inl l => mkSeen (se_record s) (Some l) (se_target s) | inr _ => s end
      | OSetNodeGroupTarget _ _ _ _ t => fun a => match a with None => mkSeen (se_record s) (se_rows s) (Some t) | Some _ => s end
      | _ => fun _ => s
      end
  | _ => fun _ => s
  end.

(** The group a request names, in the record the run has read. *)
Definition its_group (s : seen) (id : string) (g : NodeGroup) : Prop :=
  exists c p0 p1, se_record s = Some c /\ g ∈ c_NodeGroups c /\ split_char "/" id = [p0; p1; g_Name g].

(** The workers of the group there is a row for. *)
Definition its_rows (s : seen) (g : NodeGroup) : list string := in_group g (default [] (se_rows s)).

(** A node the request may remove: named, a row of the group, and the target is already stored. *)
Definition removable (s : seen) (q : ca_request) (vm : string) : Prop :=
  match q with
  | QDelete id nodes =>
      vm ∈ nodes /\ exists g t, its_group s id g /\ vm ∈ its_rows s g /\ se_target s = Some t
  | _ => False
  end.

Definition target_allowed (s : seen) (q : ca_request) (group : string) (t : Z) : Prop :=
  match q with
  | QIncrease id delta => exists g, its_group s id g /\ g_Name g = group /\ 0 < delta /\ t = wrap i32 (EffectiveTarget g + delta) /\ t <= MaxNodes g
  | QDelete id nodes =>
      exists g, its_group s id g /\ g_Name g = group /\ MinNodes g <= t /\
        t = target_after g (default [] (se_rows s)) (filter (fun n => n ∈ its_rows s g) nodes)
  | QDecrease id delta =>
      exists g, its_group s id g /\ g_Name g = group /\ delta < 0 /\ MinNodes g <= t /\
        wrap i32 (Z.of_nat (length (its_rows s g))) <= t /\ t = Z.max (wrap i32 (EffectiveTarget g + delta)) (MinNodes g)
  | _ => False
  end.

(** What a request of [o]'s cluster [n] may do. *)
Definition ca_may (o n : string) (q : ca_request) (s : seen) (c : ccall) : Prop :=
  match c with
  | CStore (OGet o' n') | CStore (OListNodes o' n') | CStore (OAppendEvent o' n' _) | HClusterVMs o' n' => o' = o /\ n' = n
  | CStore (OSetNodeGroupTarget _ o' n' group t) => o' = o /\ n' = n /\ target_allowed s q group t
  | CStore (ODeleteNode o' n' vm) => o' = o /\ n' = n /\ removable s q vm
  | HStop vm | HDelete vm => removable s q vm
  | HExec vm _ => vm = CPName o n
  | CNow | CSleep _ => True
  | _ => False
  end.

Section Autoscaler.
Context (now : Time) (st : scope_state) (ctx : Context) (owner name : string) (q : ca_request).
Context (Hid : caIdentity now st ctx = inl (owner, name)).

Abbreviation wpa := (wp (fun _ _ _ => True) see (ca_may owner name q)) (only parsing).

Lemma wpa_group (post : seen -> (string * string * NodeGroup) + ca_error -> Prop) id s :
  (forall s e, post s (inr e)) ->
  (forall c g, its_group (mkSeen (Some c) (se_rows s) (se_target s)) id g ->
     post (mkSeen (Some c) (se_rows s) (se_target s)) (inl (owner, name, g))) ->
  wpa (groupFromID now st ctx id) post s.
Proof.
  intros Herr Hok. unfold groupFromID. rewrite Hid.
  destruct (split_char "/" id) as [|p0 [|p1 [|p2 [|]]]] eqn:Es; try (apply wp_ret; apply Herr).
  destruct (_ || _); [apply wp_ret; apply Herr|].
  apply wp_call_bind; [done|]. intros [c|e] _; apply wp_ret; [|apply Herr]. cbn [see].
  destruct (filter _ (c_NodeGroups c)) as [|g gs] eqn:E; [apply Herr|]. apply Hok.
  assert (Hin : g ∈ filter (fun g => g_Name g = p2) (c_NodeGroups c)) by (rewrite E; by left).
  apply list_elem_of_filter in Hin as [<- Hin]. by exists c, p0, p1.
Qed.

(** Steps that see nothing new. *)
Definition blind (s : seen) (c : ccall) : Prop := ca_may owner name q s c /\ forall a, see s c a = s.

Lemma wpa_steps {A} (p : cprog A) s :
  only (fun _ _ => True) (blind s) p ->
  wpa p (fun s' _ => s' = s) s.
Proof.
  intros Hp. eapply wp_mono; [|eapply (wp_makes (fun s' => s' = s)); [|exact Hp|done]]; [by intros s' r [? _]|].
  intros s' c -> [Hc Hs]. split; [exact Hc|]. intros a _. by rewrite Hs.
Qed.

Lemma wpa_record k g why s : wpa (record owner name k g why) (fun s' _ => s' = s) s.
Proof. by apply wpa_steps; repeat split. Qed.

Lemma wpa_remove batch s :
  Forall (removable s q) batch -> wpa (remove_nodes owner name batch) (fun s' _ => s' = s) s.
Proof.
  intros Hb. apply wpa_steps.
  assert (Hforget : forall vm, removable s q vm -> only (fun _ _ => True) (blind s) (ForgetNode owner name vm)).
  { intros vm Hvm. assert (Hd : forall k err, only (fun _ _ => True) (blind s) (delete_attempts k vm err)).
    { intros k. induction k as [|k IH]; intros err; [done|]. simpl. apply only_call; [done|]. intros [m|] _; [|done].
      destruct k as [|k]; [done|]. apply only_call; [done|]. intros _ _. apply IH. }
    apply only_guard; [|intros _|done].
    - apply only_call; [done|]. intros _ _. by apply only_bind; [apply Hd|].
    - by apply only_call. }
  induction Hb as [|vm batch Hvm Hb IH]; [done|]. cbn [remove_nodes]. apply only_bind; [by apply Hforget|]. intros [[]|e].
  - apply only_call; [by split_and!|]. intros _ _. exact IH.
  - destruct (negb _); [done|]. apply only_call; [by split_and!|]. intros _ _. by apply only_bind.
Qed.

(** The target is stored, or the request ends. *)
Lemma wpa_target g t (post : seen -> unit + ca_error -> Prop) s :
  target_allowed s q g t -> (forall s e, post s (inr e)) -> post (mkSeen (se_record s) (se_rows s) (Some t)) (inl tt) ->
  wpa (setTarget owner name g t) post s.
Proof.
  intros Ht Herr Hok. apply wp_call_bind; [done|]. intros at_ _. apply wp_call_bind; [done|].
  intros [e|] _; apply wp_ret; [apply Herr|exact Hok].
Qed.

(** The post-condition of a step whose error ends the request. *)
Abbreviation anything := (fun _ _ => True) (only parsing).

Lemma increase_confined id delta s : q = QIncrease id delta -> wpa (NodeGroupIncreaseSize now st ctx id delta) anything s.
Proof.
  intros Hq. apply wp_bind, wpa_group; [done|]. intros c g Hg.
  destruct (Z.leb_spec delta 0); [done|]. cbv zeta. destruct (Z.ltb_spec (MaxNodes g) (wrap i32 (EffectiveTarget g + delta))).
  - eapply wp_seq; [by apply wpa_record|done].
  - apply wp_bind, wpa_target; [|done|].
    + unfold target_allowed. rewrite Hq. exists g. split_and!; done || lia.
    + eapply wp_seq; [by apply wpa_record|done].
Qed.

Lemma decrease_confined id delta s : q = QDecrease id delta -> wpa (NodeGroupDecreaseTargetSize now st ctx id delta) anything s.
Proof.
  intros Hq. apply wp_bind, wpa_group; [done|]. intros c g Hg. destruct (Z.leb_spec 0 delta); [done|].
  apply wp_call_bind; [done|]. intros [rows|e] _; [|done]. cbv zeta.
  destruct (Z.ltb_spec (wrap i32 (EffectiveTarget g + delta)) (wrap i32 (Z.of_nat (length (in_group g rows))))); [done|].
  apply wpa_target; [|done|done]. unfold target_allowed. rewrite Hq. exists g. unfold its_rows. cbn [see se_rows default].
  unfold Datatypes.id. split_and!; [done|done|lia| | |]; cases_Z; lia.
Qed.

Lemma delete_confined id nodes s : q = QDelete id nodes -> wpa (NodeGroupDeleteNodes now st ctx id nodes) anything s.
Proof.
  intros Hq. apply wp_bind, wpa_group; [done|]. intros c g Hg.
  apply wp_call_bind; [done|]. intros [rows|e] _; [|done]. apply wp_call_bind; [done|]. intros host _. cbn [see].
  destruct (to_delete (in_group g rows) host nodes) as [batch|e] eqn:Eb; [|done]. apply to_delete_filter in Eb. cbv zeta.
  apply wp_bind, wpa_target; [|done|].
  - unfold target_allowed. rewrite Hq. exists g. unfold its_rows. cbn [se_rows default]. split_and!; [done|done| |by rewrite Eb].
    unfold target_after. cases_Z; lia.
  - eapply wp_seq; [apply wpa_remove|].
    + rewrite Eb. apply Forall_forall. intros vm [Hin Hvm]%list_elem_of_filter. unfold removable. rewrite Hq. split; [done|].
      exists g, (target_after g rows batch). split_and!; [by apply Hg|done|by rewrite Eb].
    + intros s' [stale|e] ->; [|done]. destruct batch; [done|]. eapply wp_seq; [by apply wpa_record|done].
Qed.

Lemma serve_ca_confined s : wpa (serve_ca now st ctx q) anything s.
Proof.
  assert (H : forall R (p : caprog R), wpa p anything s -> wpa (outcome p) anything s).
  { intros R p Hp. eapply wp_seq; [exact Hp|done]. }
  destruct q eqn:Hq; (apply H; rewrite <- Hq);
    [..|by apply increase_confined|by apply delete_confined|by apply decrease_confined| |].
  - unfold NodeGroups. rewrite Hid. by apply wp_call_bind.
  - unfold NodeGroupForNode. rewrite Hid. by apply wp_call_bind.
  - by apply wp_bind, wpa_group.
  - apply wp_bind, wpa_group; [done|]. intros c g Hg. by apply wp_call_bind.
  - by apply wp_bind, wpa_group.
Qed.
End Autoscaler.


