(* ===== verification/ClusterFleet.v ===== *)
(** * The fleet stays within its bounds

    API requests of any callers, autoscaler requests and reconciler passes run interleaved over
    one store and one host.  Whatever they do, every record stays valid and within the
    operator's ceilings, and every instance that is created is a node of a recorded
    cluster, of the size its record gives it. *)

From S2P Require Import Prelude Prog GoStrings Auth Cluster ClusterStore ClusterStoreAgree ClusterDecide ClusterCapacity ClusterBootstrap.
From S2P Require Import ClusterApi ClusterManager ClusterReconciler ClusterCalls ClusterCA ClusterRpc ClusterWorld ClusterGuard.
From Stdlib Require Import Ascii.
#[local] Open Scope string_scope.
#[local] Open Scope list_scope.
#[local] Open Scope Z_scope.

(** ** Valid groups, whatever their targets *)

Lemma validate_groups_target gname t seen total gs :
  validate_groups seen total (target_first gname t gs) = validate_groups seen total gs.
Proof.
  revert seen total. induction gs as [|g gs IH]; intros seen total; [done|]. cbn [target_first].
  destruct (String.eqb (g_Name g) gname); [reflexivity|]. cbn [validate_groups]. destruct (validate_group seen g); [done|apply IH].
Qed.

Lemma ValidateNodeGroups_target gname t gs : ValidateNodeGroups (target_first gname t gs) = ValidateNodeGroups gs.
Proof.
  destruct gs as [|g gs]; [done|]. pose proof (validate_groups_target gname t ∅ 0 (g :: gs)) as E. revert E.
  cbn [target_first]. by destruct (String.eqb _ _).
Qed.

Lemma total_max_target gname t gs : total_max (target_first gname t gs) = total_max gs.
Proof.
  unfold total_max. generalize 0. induction gs as [|g gs IH]; intros z; [done|]. cbn [target_first].
  destruct (String.eqb _ _); [reflexivity|]. apply IH.
Qed.

Lemma check_size_target c gname t gs : omap (check_size c) (target_first gname t gs) = omap (check_size c) gs.
Proof.
  induction gs as [|g gs IH]; [done|]. cbn [target_first]. destruct (String.eqb _ _); [reflexivity|]. csimpl. by rewrite IH.
Qed.

Lemma caps_check_target c gname t gs : caps_check c (target_first gname t gs) = caps_check c gs.
Proof. unfold caps_check. by rewrite total_max_target, check_size_target. Qed.

(** ** Which group a worker is created for *)

Lemma decide_worker d o act :
  act ∈ Decide d o -> a_Kind act = ActionCreateWorker ->
  exists g n, g ∈ ds_Groups d /\ a_Group act = dg_Name g /\ a_Name act = WorkerName (ds_Tenant d) (ds_Cluster d) (dg_Name g) n.
Proof.
  intros Hin Hk. unfold Decide in Hin. destruct (ds_Deleting d) eqn:Hd.
  - exfalso. assert (Hall : Forall (fun a => a_Kind a = ActionDeleteVM) (Decide d o)) by (by apply tear_down).
    unfold Decide in Hall. rewrite Hd in Hall. rewrite Forall_forall in Hall. specialize (Hall act Hin). congruence.
  - destruct (ob_CP o) as [cp|]; [|by apply list_elem_of_singleton in Hin as ->].
    destruct (negb _); [by apply list_elem_of_singleton in Hin as ->|].
    apply list_elem_of_In, in_concat in Hin as (l & (g & <- & Hg%list_elem_of_In)%in_map_iff & Hin%list_elem_of_In).
    destruct (decide_group_spec (ds_Tenant d) (ds_Cluster d) o g) as (ns & _ & Heq). rewrite Heq in Hin.
    apply elem_of_app in Hin as [(w & -> & _)%list_elem_of_fmap|(n & -> & _)%list_elem_of_fmap]; [done|]. by exists g, n.
Qed.

(** A deleting cluster is only deleted from, another one only built. *)
Lemma Decide_kinds d o :
  if ds_Deleting d then Forall (fun a => a_Kind a = ActionDeleteVM) (Decide d o)
  else Forall (fun a => a_Kind a <> ActionDeleteVM) (Decide d o).
Proof.
  destruct (ds_Deleting d) eqn:Hd; [by apply tear_down|]. unfold Decide. rewrite Hd.
  destruct (ob_CP o) as [cp|]; [|by repeat constructor]. destruct (negb _); [by repeat constructor|].
  apply Forall_concat, Forall_map, Forall_forall. intros g _.
  destruct (decide_group_spec (ds_Tenant d) (ds_Cluster d) o g) as (ns & _ & ->).
  apply Forall_app. split; by apply Forall_map, Forall_forall.
Qed.

Lemma Decide_deletes_seen d o act :
  act ∈ Decide d o -> a_Kind act = ActionDeleteVM -> a_Name act ∈ host_names o.
Proof.
  intros Hin Hk. pose proof (Decide_kinds d o) as Hkinds. destruct (ds_Deleting d) eqn:Hd.
  2: { rewrite Forall_forall in Hkinds. by destruct (Hkinds act Hin). }
  destruct (tear_down o d Hd) as (_ & _ & Hseen & _). unfold host_names.
  destruct (Hseen act Hin) as [(w & Hw & <-)|(cp & -> & ->)]; [|set_solver]. apply elem_of_app. right.
  apply list_elem_of_fmap_2. unfold workers in Hw. destruct (ob_Workers o !! a_Group act) as [ws|] eqn:E; [|by apply elem_of_nil in Hw].
  apply list_elem_of_In, in_concat. exists ws. split; [|by apply list_elem_of_In].
  apply list_elem_of_In, elem_of_map_values. by eexists.
Qed.

Lemma group_named_in groups g :
  g ∈ groups -> exists g', g' ∈ groups /\ dg_Name g' = dg_Name g /\ group_named groups (dg_Name g) = g'.
Proof.
  intros Hg. unfold group_named. destruct (last (filter _ groups)) as [g'|] eqn:E.
  - apply last_Some in E as [l E]. assert (Hin : g' ∈ filter (fun x => dg_Name x = dg_Name g) groups) by (rewrite E; set_solver).
    apply list_elem_of_filter in Hin as [Hn Hin]. by exists g'.
  - apply last_None in E. exfalso. apply (filter_nil_not_elem_of _ _ g E); [done|exact Hg].
Qed.

Section Fleet.
(** The operator's settings. *)
Context (caps : clusterCaps) (gate : isolationGate).

Record valid_record (c : Cluster) : Prop := {
  vr_name : ValidateName (c_Name c) = true;
  vr_groups : ValidateNodeGroups (c_NodeGroups c) = None;
  vr_caps : caps_check caps (c_NodeGroups c) = None;
  vr_isolation : gate_check gate (OrDefault (c_NodeIsolation c)) = None;
}.

(** A node of the cluster: its control plane, or a worker of one of its groups, of the group's size. *)
Definition node_spec (c : Cluster) (spec : NodeSpec) : Prop :=
  spec = cp_spec (c_Owner c) (c_Name c) cpSize \/
  exists g n, g ∈ c_NodeGroups c /\
    spec = worker_spec (c_Owner c) (c_Name c) (desired_group g) (WorkerName (c_Owner c) (c_Name c) (g_Name g) n).

(** What a thread may call. *)
Definition fleet_call (c : ccall) : Prop :=
  match c with
  | CStore (OCreate c) => valid_record c
  | CStore (OUpdateNodeGroups _ _ _ gs) => ValidateNodeGroups gs = None /\ caps_check caps gs = None
  | HCreateNode spec iso => exists c, valid_record c /\ node_spec c spec /\ iso = coreIsolation (c_NodeIsolation c)
  | _ => True
  end.

(** What the answers are known to say. *)
Definition fleet_ans (c : ccall) : cans c -> Prop :=
  match c return cans c -> Prop with
  | CStore op =>
      match op return op_ans op -> Prop with
      | OGet _ _ => fun a => match a with inl c => valid_record c | inr _ => True end
      | OList _ => fun a => match a with inl l => Forall valid_record l | inr _ => True end
      | _ => fun _ => True
      end
  | _ => fun _ => True
  end.

Abbreviation obeys := (only fleet_ans fleet_call) (only parsing).

Lemma fleet_quiet c : quiet c -> fleet_call c.
Proof. by destruct c. Qed.

(** ** The reconciler *)

Section Pass.
Context (r : ClusterReconciler) (txt : cl_error -> string).

Lemma perform_obeys c o act :
  valid_record c -> act ∈ Decide (desiredFrom c) o ->
  obeys (perform_action r c (coreIsolation (c_NodeIsolation c)) (ds_Groups (desiredFrom c)) act).
Proof.
  intros Hc Hin. unfold perform_action. destruct (a_Kind act) eqn:Hk.
  - apply only_create_cp; [exact fleet_quiet|done| |done|done]. exists c. split; [done|]. split; [by left|done].
  - apply only_guard; [by apply only_done|done|done].
  - destruct (decide_worker _ _ _ Hin Hk) as (g & n & Hg & -> & ->).
    destruct (group_named_in _ _ Hg) as (g' & Hg' & Hn & ->). cbn in Hg'.
    apply list_elem_of_fmap in Hg' as (ng & -> & Hng). rewrite <- Hn.
    apply only_create_worker; [exact fleet_quiet|done| |done|done].
    exists c. split; [done|]. split; [|done]. right. by exists ng, n.
  - apply only_guard; [by apply only_DeleteVM; [exact fleet_quiet|]| |done]. intros _. by apply only_bind; [apply only_best_effort|].
Qed.

Lemma reconcileCluster_obeys c : valid_record c -> obeys (reconcileCluster r c).
Proof.
  intros Hc. unfold reconcileCluster, Observe. apply only_guard; [by apply only_value| |done]. intros o.
  apply only_call; [done|]. intros fresh Hf. set (c' := match fresh with inl c => c | inr _ => c end).
  assert (Hc' : valid_record c') by (by destruct fresh). apply only_guard; [|intros refused|done].
  - apply only_perform. apply Forall_forall. intros act. by apply perform_obeys.
  - destruct refused; [done|]. destruct (ds_Deleting _).
    + unfold finish_delete, Observe. apply only_guard; [by apply only_value| |done]. intros ob. destruct (_ && _); [|done].
      apply only_guard; [destruct (r_publish r); [by apply only_done|done]|intros _|done].
      by apply only_guard; [apply only_store| |].
    + apply only_settleState; [exact fleet_quiet|done..|]. intros rows _. by apply Forall_forall.
Qed.

Lemma reconcile_all_obeys l : Forall valid_record l -> obeys (reconcile_all r txt l).
Proof.
  induction 1 as [|c l Hc Hl IH]; [done|]. cbn [reconcile_all].
  apply only_bind; [by apply reconcileCluster_obeys|]. intros res. apply only_bind; [|by intros _].
  destruct res; [done|]. apply only_call; [done|]. intros now _. by apply only_best_effort.
Qed.

Lemma ReconcileOnce_obeys : obeys (ReconcileOnce r txt).
Proof. apply only_call; [done|]. intros [l|e] Ha; [by apply reconcile_all_obeys|done]. Qed.
End Pass.
(** ** The API *)

Section Api.
Context (sv : ClusterServer) (caps_text : caps_error -> string) (now : Time) (st : scope_state) (ctx : Context).
Context (Hcaps : s_caps sv = caps) (Hgate : s_isolation sv = gate).

Lemma enforceCaps_makes o n gs ev :
  makes fleet_ans fleet_call (enforceCaps sv caps_text o n gs ev)
    (fun r => match r with inl _ => caps_check caps gs = None | inr _ => True end).
Proof.
  unfold enforceCaps. rewrite Hcaps. destruct (caps_check caps gs) as [e|] eqn:E; [|by apply makes_ret].
  eapply makes_bind with (Q := fun _ => True); [by destruct ev|]. done.
Qed.

Lemma enforceIsolation_gate v iso : enforceIsolation gate v = inl iso -> gate_check gate (OrDefault iso) = None.
Proof.
  unfold enforceIsolation, isolationFromProto. destruct (_ || _); [by intros [= <-]|]. destruct (v =? 2); [|done].
  destruct (gate_check gate IsolationContainer) eqn:E; [done|]. intros [= <-]. exact E.
Qed.

Lemma NodeCapable_obeys iso : obeys (NodeCapable iso).
Proof. unfold NodeCapable. destruct (String.eqb _ _); by apply only_done. Qed.

Lemma CreateCluster_obeys o n iso gs : obeys (CreateCluster sv caps_text now st ctx o n iso gs).
Proof.
  unfold CreateCluster. destruct (caller_owner _ _ _ _ _) as [owner|e]; [|done].
  destruct (ValidateName n) eqn:Hn; [cbn [negb]|done]. rewrite Hgate.
  destruct (enforceIsolation gate iso) as [isolation|e] eqn:Hi; [|done]. apply enforceIsolation_gate in Hi.
  apply only_bind; [destruct (s_reconciler sv); [apply NodeCapable_obeys|done]|]. intros [[]|e]; [|done].
  destruct (groupsFromProto gs) as [groups|e]; [|done]. cbv zeta.
  set (groups' := match groups with [] => DefaultNodeGroups | _ => groups end).
  destruct (ValidateNodeGroups groups') eqn:Hv; [done|].
  eapply makes_bind; [apply enforceCaps_makes|]. intros [[]|e] Hc; [|by apply makes_ret].
  apply only_call; [done|]. intros at_ _. apply only_call; [done|]. intros id _. by apply only_call.
Qed.

Lemma UpdateClusterNodePool_obeys o n gs : obeys (UpdateClusterNodePool sv caps_text now st ctx o n gs).
Proof.
  unfold UpdateClusterNodePool. destruct (caller_owner _ _ _ _ _) as [owner|e]; [|done].
  destruct (groupsFromProto gs) as [groups|e]; [|done]. destruct (ValidateNodeGroups groups) eqn:Hv; [done|].
  eapply makes_bind; [apply enforceCaps_makes|]. intros [[]|e] Hc; [|by apply makes_ret].
  apply only_call; [done|]. intros at_ _. apply only_call; [done|]. intros [e|] _; [done|]. by apply only_call.
Qed.

Lemma DeleteCluster_obeys o n : obeys (DeleteCluster sv now st ctx o n).
Proof.
  unfold DeleteCluster. destruct (caller_owner _ _ _ _ _) as [owner|e]; [|done]. destruct (s_reconciler sv).
  - apply only_call; [done|]. intros [c|e] _; [|done]. apply only_call; [done|]. intros at_ _. by apply only_call.
  - by apply only_call.
Qed.
End Api.

(** ** The autoscaler *)

Section Provider.
Context (now : Time) (st : scope_state) (ctx : Context).

Lemma groupFromID_obeys id : obeys (groupFromID now st ctx id).
Proof.
  unfold groupFromID. destruct (caIdentity _ _ _) as [[o n]|e]; [|done].
  destruct (split_char _ _) as [|p0 [|p1 [|p2 [|]]]]; try done. destruct (_ || _); [done|]. by apply only_call.
Qed.

Lemma setTarget_obeys o n g t : obeys (setTarget o n g t).
Proof. apply only_call; [done|]. intros at_ _. by apply only_call. Qed.

Lemma remove_nodes_obeys o n ns : obeys (remove_nodes o n ns).
Proof.
  induction ns as [|vm ns IH]; [done|]. cbn [remove_nodes].
  apply only_bind; [by apply only_ForgetNode; [exact fleet_quiet|]|]. intros [[]|e].
  - by apply only_call.
  - destruct (negb _); [done|]. apply only_call; [done|]. intros _ _. by apply only_bind.
Qed.

Lemma record_obeys o n k g why : obeys (record o n k g why).
Proof. by repeat (apply only_call; [done|intros ? _]). Qed.

Lemma Increase_obeys id delta : obeys (NodeGroupIncreaseSize now st ctx id delta).
Proof.
  apply only_bind; [apply groupFromID_obeys|]. intros [[[o n] g]|e]; [|done]. destruct (_ <=? _); [done|]. cbv zeta.
  destruct (_ <? _); [by apply only_bind; [apply record_obeys|]|].
  apply only_bind; [apply setTarget_obeys|]. intros [[]|e]; [|done]. by apply only_bind; [apply record_obeys|].
Qed.

Lemma DeleteNodes_obeys id nodes : obeys (NodeGroupDeleteNodes now st ctx id nodes).
Proof.
  apply only_bind; [apply groupFromID_obeys|]. intros [[[o n] g]|e]; [|done].
  apply only_call; [done|]. intros [rows|e] _; [|done]. apply only_call; [done|]. intros host _.
  destruct (to_delete _ _ _) as [batch|e]; [|done]. cbv zeta.
  apply only_bind; [apply setTarget_obeys|]. intros [[]|e]; [|done].
  apply only_bind; [apply remove_nodes_obeys|]. intros [stale|e]; [|done]. destruct batch; [done|].
  by apply only_bind; [apply record_obeys|].
Qed.

Lemma Decrease_obeys id delta : obeys (NodeGroupDecreaseTargetSize now st ctx id delta).
Proof.
  apply only_bind; [apply groupFromID_obeys|]. intros [[[o n] g]|e]; [|done]. destruct (_ <=? _); [done|].
  apply only_call; [done|]. intros [rows|e] _; [|done]. cbv zeta. destruct (_ <? _); [done|]. apply setTarget_obeys.
Qed.

Lemma serve_ca_obeys q : obeys (serve_ca now st ctx q).
Proof.
  destruct q; (apply only_bind; [|by intros]);
    [..|apply Increase_obeys|apply DeleteNodes_obeys|apply Decrease_obeys| |].
  - unfold NodeGroups. destruct (caIdentity _ _ _) as [[o n]|e]; [|done]. by apply only_call.
  - unfold NodeGroupForNode. destruct (caIdentity _ _ _) as [[o n]|e]; [|done]. by apply only_call.
  - by apply only_bind; [apply groupFromID_obeys|].
  - apply only_bind; [apply groupFromID_obeys|]. intros [[[o n] g]|e]; [|done]. by apply only_call.
  - by apply only_bind; [apply groupFromID_obeys|].
Qed.
End Provider.

Lemma serve_obeys sv txt now st ctx q : s_caps sv = caps -> s_isolation sv = gate -> obeys (serve sv txt now st ctx q).
Proof.
  intros Hcaps Hgate. destruct q; (apply only_bind; [|by intros]);
    [by apply CreateCluster_obeys|by apply UpdateClusterNodePool_obeys|by apply DeleteCluster_obeys| | | |].
  - unfold GetCluster. destruct (caller_owner _ _ _ _ _) as [o|e]; [|done]. by apply only_call.
  - unfold ListClusters. destruct (RequireScope _ _ _ _).1; [done|]. destruct (if negb _ then _ else _) as [o|e]; [|done].
    by apply only_call.
  - unfold GetClusterKubeconfig. destruct (caller_owner _ _ _ _ _) as [o|e]; [|done].
    apply only_call; [done|]. intros [c|e] _; [|done]. destruct (negb _); [done|]. destruct (negb _); [done|].
    apply only_bind; [|done]. unfold ReadKubeconfig, Kubeconfig. by apply only_guard; [apply only_value| |].
  - unfold GetClusterStatus. destruct (caller_owner _ _ _ _ _) as [o|e]; [|done].
    apply only_call; [done|]. intros [c|e] _; [|done]. apply only_call; [done|]. intros [rows|e] _; [|done]. by apply only_call.
Qed.

(** ** The system *)

(** Requests of any caller, and passes of a reconciler. *)
Inductive arrives : cprog unit -> Prop :=
| arrives_api sv txt now st ctx q :
    s_caps sv = caps -> s_isolation sv = gate -> arrives (serve sv txt now st ctx q ≫= fun _ => mret tt)
| arrives_ca now st ctx q : arrives (serve_ca now st ctx q ≫= fun _ => mret tt)
| arrives_pass r txt : arrives (ReconcileOnce r txt).

Lemma arrives_obeys p : arrives p -> obeys p.
Proof.
  intros [sv txt now st ctx q Hc Hg|now st ctx q|r txt]; [..|apply ReconcileOnce_obeys];
    (apply only_bind; [|by intros]); [by apply serve_obeys|apply serve_ca_obeys].
Qed.

Definition records_valid (w : cworld) : Prop := map_Forall (fun _ => valid_record) (m_clusters (w_store w)).

(** Anything may happen to the host. *)
Definition host_moves (w w' : cworld) : Prop := w_store w' = w_store w.

Definition fleet : list (cprog unit) * cworld -> list (cprog unit) * cworld -> Prop :=
  pstep exec (fun _ _ => None) arrives host_moves.

Lemma valid_update o n f w a m :
  records_valid w -> (forall c, valid_record c -> valid_record (f c)) -> mem_update o n f (w_store w) = (a, m) ->
  map_Forall (fun _ => valid_record) (m_clusters m).
Proof.
  unfold mem_update. intros Hw Hf. destruct (m_clusters (w_store w) !! key o n) as [c|] eqn:E; intros [= _ <-]; [|done].
  apply map_Forall_insert_2; [|done]. by eapply Hf, Hw.
Qed.

Lemma fleet_step w c a w' :
  records_valid w -> fleet_call c -> exec w c a w' -> fleet_ans c a /\ records_valid w'.
Proof.
  intros Hw Hc Hexec. destruct c; cbn -[store_ans] in Hexec;
    try (split; [done|]; first [by subst w'|by destruct Hexec as [-> _]|unfold records_valid; destruct Hexec as [-> _]; exact Hw]).
  destruct Hexec as [Hs _]. unfold records_valid.
  destruct op; cbn in Hs; try (apply pair_equal_spec in Hs as [<- <-]; split; [|exact Hw]); try done.
  - split; [done|]. unfold mem_Create in Hs. destruct (_ !! _); injection Hs as _ <-; [done|]. apply map_Forall_insert_2; [|done].
    destruct Hc as [Hn Hv Hcaps Hi]. split; [done..|]. cbn. by destruct (c_NodeIsolation c).
  - unfold mem_Get. cbn. destruct (m_clusters (w_store w) !! key owner name) as [c|] eqn:E; [|done]. by eapply Hw.
  - cbn. unfold mem_List. rewrite (merge_sort_Permutation cluster_le). apply Forall_forall.
    intros c [_ [k Hk]%elem_of_map_values]%list_elem_of_filter. by eapply Hw.
  - split; [done|]. eapply valid_update; [done| |exact Hs]. by intros c [].
  - split; [done|]. eapply valid_update; [done| |exact Hs]. by intros c [].
  - split; [done|]. eapply valid_update; [done| |exact Hs]. by intros c []; destruct Hc.
  - split; [done|]. eapply valid_update; [done| |exact Hs]. intros c [Hn Hv Hcaps Hi].
    split; cbn; [done|by rewrite ValidateNodeGroups_target|by rewrite caps_check_target|done].
  - split; [done|]. unfold mem_Delete in Hs. destruct (_ !! _); injection Hs as _ <-; [|done]. by apply map_Forall_delete.
  - split; [done|]. unfold mem_UpsertNode in Hs. by destruct (_ !! _); injection Hs as _ <-.
  - split; [done|]. unfold mem_DeleteNode in Hs.
    destruct (m_nodes _ !! _); [destruct (_ || _)|]; by injection Hs as _ <-.
  - split; [done|]. unfold mem_AppendEvent in Hs. by destruct (_ !! _); injection Hs as _ <-.
Qed.

(** C17: API requests of any callers, autoscaler requests and reconciler passes arrive at any time
    and interleave call by call; the host may fail any call and change on its own.  In
    every reachable state:
    (1) every record has a valid name, groups that pass validation, pass the operator's ceilings
    whatever their targets, and an isolation the operator permits;
    (2) whenever a thread is about to create an instance, it is the control plane or a worker of such a
    record, labelled with its owner and name, of the size of one of its groups, and a container only where the operator permits. *)
Theorem fleet_stays_valid w0 T w :
  records_valid w0 -> rtc fleet ([], w0) (T, w) ->
  records_valid w /\
  Forall (fun p : cprog unit => match p with
                  | Do (HCreateNode spec iso) _ =>
                      exists c, valid_record c /\ node_spec c spec /\ iso = coreIsolation (c_NodeIsolation c)
                  | _ => True
                  end) T.
Proof.
  intros H0 Hrun.
  destruct (pool_invariant exec (fun _ _ => None) arrives host_moves (fun (s : unit) _ _ => s) (fun _ => fleet_call)
              (fun _ => fleet_ans) (fun _ _ => tt) tt (fun _ _ => True) (fun w G => records_valid w) w0 T w) as (G & HT & Hw).
  all: try done.
  - exact arrives_obeys.
  - intros w1 w2 G Hm Hw. unfold records_valid. by rewrite Hm.
  - intros w1 G1 s G2 c a w2. apply fleet_step.
  - split; [exact Hw|]. clear -HT. induction HT as [|p s T G Hp HT IH]; [constructor|]. constructor; [|done].
    destruct p as [r|c k]; [done|]. destruct Hp as [Hc _]. by destruct c.
Qed.
End Fleet.

(** alice's cluster dev has its control plane and lacks its worker. *)
Definition ex_record : Cluster :=
  mkCluster "id" "alice" "dev" StateReady "" "v1" "1.2.3.4:6443" [mkGroup "pool" (mkSize "2" "4GB" "40GB") 1 3 0] "" 0 0.

Definition ex_fleet : cworld :=
  let cp := CPName "alice" "dev" in
  mkWorld (mkMem {[key "alice" "dev" := ex_record]} ∅ ∅)
    {[cp := instance cp "Running" (VMLabels "alice" "dev" RoleControlPlane "")]}.

Definition ex_reconciler : ClusterReconciler := mkReconciler false false "" false "" false "".

(** A pass, five calls later: it is about to create the worker. *)
Lemma fleet_stays_valid_witness :
  let st := drive working 5 (ReconcileOnce ex_reconciler (fun _ => "")) ex_fleet in
  match st.1 with
  | Do (HCreateNode spec iso) _ =>
      sp_Name spec = "alice-k8s-dev-pool-1" /\ exists c, valid_record ex_caps (mkGate false None) c /\ node_spec c spec
  | _ => False
  end /\ records_valid ex_caps (mkGate false None) st.2.
Proof.
  intros st.
  assert (H0 : records_valid ex_caps (mkGate false None) ex_fleet).
  { intros k c Hk. unfold ex_fleet in Hk. cbn in Hk. apply lookup_singleton_Some in Hk as [_ <-]. by split; vm_compute. }
  destruct (fleet_stays_valid ex_caps (mkGate false None) ex_fleet [st.1] st.2 H0) as [H1 H2].
  - eapply rtc_l; [apply (pstep_arrive _ _ _ _ []); apply arrives_pass|]. unfold st.
    eapply (drive_steps _ _ _ _ working 5 _ [] []); [exact working_exec|done].
  - split; [|exact H1]. rewrite Forall_singleton in H2.
    assert (Hname : match st.1 with Do (HCreateNode spec _) _ => sp_Name spec = "alice-k8s-dev-pool-1" | _ => False end)
      by (vm_compute; reflexivity).
    clear -H2 Hname. destruct st.1 as [r|call k]; [done|]. destruct call; try done.
    destruct H2 as (c & Hc & Hs & _). split; [done|]. by exists c.
Defined.
