(* ===== verification/ClusterPass.v ===== *)
(** * What a pass may do

    One pass of cluster_reconciler.go over one cluster, against every answer of the store, the
    host and the other seams: which calls it makes, given the record and the observation it
    has read. *)

From S2P Require Import Prelude Prog GoStrings Incus Auth Cluster ClusterStore ClusterDecide ClusterCapacity ClusterBootstrap.
From S2P Require Import ClusterApi ClusterManager ClusterReconciler ClusterCalls ClusterCA ClusterWorld ClusterDrain ClusterGuard ClusterFleet.
From Stdlib Require Import Ascii.
#[local] Open Scope string_scope.
#[local] Open Scope list_scope.
#[local] Open Scope Z_scope.

(** What a pass has read and built. *)
Record pass := mkPass {
  ps_record : Cluster;            (** the record in force: the snapshot until it is read again *)
  ps_seen : option Observed;      (** the last observation *)
  ps_made : gset string;          (** the instances it has created *)
}.

Definition pass_start (snapshot : Cluster) : pass := mkPass snapshot None ∅.

Definition see_pass (s : pass) (c : ccall) : cans c -> pass :=
  match c return cans c -> pass with
  | CStore op =>
      match op return op_ans op -> pass with
      | OGet _ _ => fun a => match a with inl c => mkPass c (ps_seen s) (ps_made s) | inr _ => s end
      | _ => fun _ => s
      end
  | HClusterVMs _ _ => fun a => match a with inl o => mkPass (ps_record s) (Some o) (ps_made s) | inr _ => s end
  | HCreateNode spec _ =>
      fun a => match a with None => mkPass (ps_record s) (ps_seen s) ({[sp_Name spec]} ∪ ps_made s) | Some _ => s end
  | _ => fun _ => s
  end.

(** The store answers with the cluster that was asked for, and its rows. *)
Definition own_answers (c : ccall) : cans c -> Prop :=
  match c return cans c -> Prop with
  | CStore op =>
      match op return op_ans op -> Prop with
      | OGet o n => fun a => match a with inl c => c_Owner c = o /\ c_Name c = n | inr _ => True end
      | OListNodes o n => fun a => match a with inl l => Forall (of_cluster o n) l | inr _ => True end
      | _ => fun _ => True
      end
  | _ => fun _ => True
  end.

Definition deleting (c : Cluster) : Prop := c_State c = StateDeleting.

(** The instance that an action of the pass creates. *)
Definition builds_node (c : Cluster) (o : Observed) (spec : NodeSpec) : Prop :=
  exists act, act ∈ Decide (desiredFrom c) o /\
    match a_Kind act with
    | ActionCreateCP => spec = cp_spec (c_Owner c) (c_Name c) cpSize
    | ActionCreateWorker =>
        exists g, g ∈ c_NodeGroups c /\ g_Name g = a_Group act /\
          spec = worker_spec (c_Owner c) (c_Name c) (desired_group g) (a_Name act)
    | _ => False
    end.

Section Pass.
Context (owner name : string).

(** With record [c] and observation [o], and having created [made]. *)
Definition pass_call (c : Cluster) (o : option Observed) (made : gset string) (call : ccall) : Prop :=
  match call with
  | CStore (OGet o' n') | CStore (OListNodes o' n') | CStore (OSetEndpoint _ o' n' _) | CStore (OAppendEvent o' n' _)
  | HClusterVMs o' n' => o' = owner /\ n' = name
  | CStore (OSetState _ o' n' state _) => o' = owner /\ n' = name /\ ~ deleting c /\ (state = StateReady \/ state = StateDegraded)
  | CStore (OUpsertNode nd) => of_cluster owner name nd /\ ~ deleting c
  | CStore (ODeleteNode o' n' _) => o' = owner /\ n' = name /\ deleting c
  | CStore (ODelete o' n') =>
      o' = owner /\ n' = name /\ deleting c /\ exists ob, o = Some ob /\ ob_CP ob = None /\ ob_Workers ob = ∅
  | CStore _ => False
  | HCreateNode spec _ => ~ deleting c /\ exists ob, o = Some ob /\ builds_node c ob spec
  | HDelete vm => vm ∈ made \/ deleting c /\ exists ob, o = Some ob /\ vm ∈ host_names ob
  | _ => True
  end.

Definition pass_may (s : pass) (call : ccall) : Prop := pass_call (ps_record s) (ps_seen s) (ps_made s) call.

Abbreviation wpp := (wp (fun _ => own_answers) see_pass pass_may) (only parsing).

Definition in_force (c : Cluster) (o : Observed) (made : gset string) (s : pass) : Prop :=
  ps_record s = c /\ ps_seen s = Some o /\ made ⊆ ps_made s.

(** The calls of a stage at which the record and the observation stay. *)
Definition stage_call (c : Cluster) (o : Observed) (made : gset string) (call : ccall) : Prop :=
  match call with HClusterVMs _ _ | CStore (OGet _ _) => False | _ => pass_call c (Some o) made call end.

Lemma wpp_stage {A} c o made (p : cprog A) s :
  only own_answers (stage_call c o made) p -> in_force c o made s -> wpp p (fun s' _ => in_force c o made s') s.
Proof.
  intros Hp Hs. eapply wp_mono; [|eapply (wp_makes (in_force c o made)); [|exact Hp|exact Hs]]; [by intros s' x [? _]|].
  clear. intros s call (Hr & Ho & Hm) Hc. split.
  - unfold pass_may. rewrite Hr, Ho. destruct call; try done.
    + by destruct op.
    + destruct Hc as [Hc|Hc]; [left; set_solver|by right].
  - intros a Ha. split; [exact Ha|]. destruct call; try done; [by destruct op|].
    destruct a; [done|]. split_and!; [done|done|]. cbn. set_solver.
Qed.

Lemma stage_quiet c o made call : quiet call -> stage_call c o made call.
Proof. by destruct call. Qed.

Lemma stage_mono c o made made' : made ⊆ made' -> forall call, stage_call c o made call -> stage_call c o made' call.
Proof. intros Hm call. destruct call; try done. intros [H|H]; [left; set_solver|by right]. Qed.

(** ** The actions *)

Section Stage.
Context (r : ClusterReconciler) (c : Cluster) (o : Observed).
Context (Hown : c_Owner c = owner /\ c_Name c = name).

Abbreviation stage made := (only own_answers (stage_call c o made)) (only parsing).

Lemma in_force_weaken made s : in_force c o made s -> in_force c o ∅ s.
Proof. intros (? & ? & ?). split_and!; [done|done|set_solver]. Qed.

(** A program that starts with the creation of [spec]'s instance, and then may delete it. *)
Lemma wpp_created {A} spec iso (k : option string -> cprog A) s :
  ~ deleting c -> builds_node c o spec -> in_force c o ∅ s ->
  stage {[sp_Name spec]} (Do (HCreateNode spec iso) k) -> (forall m, exists x, k (Some m) = Ret x) ->
  wpp (Do (HCreateNode spec iso) k) (fun s' _ => in_force c o ∅ s') s.
Proof.
  intros Hd Hb Hs [_ Hk] Herr. destruct Hs as (Hr & Ho & Hm). split.
  - split; [by rewrite Hr|]. exists o. by rewrite Hr, Ho.
  - intros [m|] _; [destruct (Herr m) as [x ->]; by split_and!|].
    eapply wp_mono; [|apply (wpp_stage c o {[sp_Name spec]}); [exact (Hk None I)|]].
    + intros s' x. apply in_force_weaken.
    + split_and!; cbn; [done|done|set_solver].
Qed.

Lemma stage_weaken {A} (p : cprog A) made : stage ∅ p -> stage made p.
Proof. intros Hp. eapply makes_mono; [|done|exact Hp]. apply stage_mono. set_solver. Qed.

Lemma wpp_then {A B} made (p : cprog A) (k : A -> cprog B) s (post : pass -> B -> Prop) :
  stage made p -> in_force c o made s -> (forall s' a, in_force c o made s' -> wpp (k a) post s') -> wpp (p ≫= k) post s.
Proof. intros Hp Hs Hk. eapply wp_seq; [by apply wpp_stage|]. auto. Qed.

Lemma stage_event e : stage_call c o ∅ (CStore (OAppendEvent (c_Owner c) (c_Name c) e)).
Proof. done. Qed.

Lemma stage_row vm role group st at_ : ~ deleting c -> stage_call c o ∅ (CStore (OUpsertNode (mkNode (c_Owner c) (c_Name c) vm role group st at_))).
Proof. done. Qed.

Lemma ProvisionCP_within iso sans s :
  ~ deleting c -> builds_node c o (cp_spec (c_Owner c) (c_Name c) cpSize) -> in_force c o ∅ s ->
  wpp (ProvisionCP (c_Owner c) (c_Name c) iso cpSize sans) (fun s' _ => in_force c o ∅ s') s.
Proof.
  intros Hd Hb Hs. apply wpp_created; [done|done|done| |by eexists].
  apply (only_ProvisionCP own_answers); [apply stage_quiet|by split; [|exists o]|left; set_solver].
Qed.

Lemma ProvisionWorker_within iso g vm cpIP s :
  ~ deleting c -> builds_node c o (worker_spec (c_Owner c) (c_Name c) g vm) -> in_force c o ∅ s ->
  wpp (ProvisionWorker (c_Owner c) (c_Name c) iso g vm cpIP) (fun s' _ => in_force c o ∅ s') s.
Proof.
  intros Hd Hb Hs.
  assert (Hp : stage {[vm]} (ProvisionWorker (c_Owner c) (c_Name c) iso g vm cpIP)).
  { apply (only_ProvisionWorker own_answers); [apply stage_quiet|by split; [|exists o]|left; set_solver]. }
  unfold ProvisionWorker in *. destruct Hp as [_ Hp]. split; [done|]. intros [token|m] _; [|exact Hs].
  specialize (Hp (inl token) I). cbn [see_pass].
  destruct (String.eqb iso IsolationContainer).
  - destruct Hp as [_ Hp]. split; [done|]. intros [m|] _; [exact Hs|]. specialize (Hp None I).
    apply wpp_created; [done|done|done|exact Hp|by eexists].
  - apply wpp_created; [done|done|done|exact Hp|by eexists].
Qed.

Lemma perform_within iso act s :
  act ∈ Decide (desiredFrom c) o -> in_force c o ∅ s ->
  wpp (perform_action r c iso (ds_Groups (desiredFrom c)) act) (fun s' _ => in_force c o ∅ s') s.
Proof.
  intros Hin Hs. pose proof (stage_quiet c o ∅) as Hq.
  assert (Hdel : deleting c <-> a_Kind act = ActionDeleteVM).
  { pose proof (Decide_kinds (desiredFrom c) o) as H. unfold deleting. cbn in H. case_bool_decide; rewrite Forall_forall in H;
      specialize (H act Hin); tauto. }
  unfold perform_action. destruct (a_Kind act) eqn:Hk.
  - assert (Hd : ~ deleting c) by (by rewrite Hdel). unfold create_cp.
    eapply (wpp_then ∅); [apply only_admitSize; [exact Hq|intros e; exact Hown]|done|]. intros s1 [m|] Hs1; [exact Hs1|].
    eapply wp_seq; [apply ProvisionCP_within; [done| |exact Hs1]|]; [by exists act; rewrite Hk|].
    intros s2 up Hs2. eapply (wpp_then ∅); [apply only_release; exact Hq|done|]. intros s3 _ Hs3.
    apply wpp_stage; [|done]. destruct up; [|done].
    apply only_call; [done|]. intros at_ _. by apply only_bind; [apply only_best_effort|].
  - apply wpp_stage; [|done]. by apply only_guard; [apply only_done| |].
  - assert (Hd : ~ deleting c) by (by rewrite Hdel). destruct (decide_worker _ _ _ Hin Hk) as (dg & n & Hg & Hgn & Hn).
    destruct (group_named_in _ _ Hg) as (g' & Hg' & Heq & Hnamed). rewrite Hgn, Hnamed in *.
    cbn in Hg'. apply list_elem_of_fmap in Hg' as (g & -> & Hg'). unfold create_worker.
    eapply (wpp_then ∅); [apply only_admitSize; [exact Hq|intros e; exact Hown]|done|]. intros s1 [m|] Hs1; [exact Hs1|].
    eapply (wpp_then ∅); [by apply only_value|done|]. intros s2 [ip|e] Hs2.
    2: { apply wpp_stage; [|done]. by apply only_bind; [apply only_release; exact Hq|]. }
    eapply wp_seq; [apply ProvisionWorker_within; [done| |exact Hs2]|].
    { exists act. rewrite Hk. split; [done|]. exists g. rewrite Hgn. by rewrite <- Heq. }
    intros s3 up Hs3. eapply (wpp_then ∅); [apply only_release; exact Hq|done|]. intros s4 _ Hs4.
    apply wpp_stage; [|done]. destruct up; [|done]. apply only_call; [done|]. intros at_ _.
    apply only_bind; [by apply only_best_effort|]. intros _. apply only_call; [done|]. intros at' _.
    by apply only_bind; [apply only_best_effort|].
  - assert (Hd : deleting c) by (by apply Hdel). apply wpp_stage; [|done].
    apply only_guard; [apply only_DeleteVM; [done|]|intros _|done].
    + right. split; [done|]. exists o. split; [done|]. by eapply Decide_deletes_seen.
    + apply only_bind; [|done]. apply only_best_effort. destruct Hown. by split_and!.
Qed.

Lemma perform_all_within iso acts s :
  (forall act, act ∈ acts -> act ∈ Decide (desiredFrom c) o) -> in_force c o ∅ s ->
  wpp (perform_actions r c iso (ds_Groups (desiredFrom c)) acts) (fun s' _ => in_force c o ∅ s') s.
Proof.
  revert s. induction acts as [|act acts IH]; intros s Hin Hs; [exact Hs|]. cbn [perform_actions].
  apply wp_guard. eapply wp_mono; [|apply perform_within; [apply Hin; by left|exact Hs]].
  intros s' [[]|e] Hs'; [exact Hs'| |exact Hs']. apply IH; [|done]. intros a Ha. apply Hin. by right.
Qed.
End Stage.

(** ** The tail of a pass *)

(** The calls that need no observation. *)
Definition settle_call (c : Cluster) (call : ccall) : Prop :=
  match call with CStore (OGet _ _ | ODelete _ _) | HCreateNode _ _ | HDelete _ => False | _ => pass_call c None ∅ call end.

Lemma wpp_settle {A} c (p : cprog A) s :
  only own_answers (settle_call c) p -> ps_record s = c -> wpp p (fun _ _ => True) s.
Proof.
  intros Hp Hs. eapply wp_mono; [|eapply (wp_makes (fun s => ps_record s = c)); [|exact Hp|exact Hs]]; [done|].
  clear. intros s call <- Hc. split.
  - unfold pass_may. destruct call; try done. by destruct op.
  - intros a Ha. split; [exact Ha|]. destruct call; try done; [by destruct op|by destruct a].
Qed.

Lemma settle_within r c s :
  c_Owner c = owner /\ c_Name c = name -> ~ deleting c -> ps_record s = c -> wpp (settleState r c) (fun _ _ => True) s.
Proof.
  intros [Ho Hn] Hd. apply wpp_settle.
  apply (only_settleState own_answers); [by intros []|done..|by rewrite Ho, Hn|]. intros rows Hrows. rewrite Ho, Hn in Hrows.
  eapply Forall_impl; [exact Hrows|]. by intros nd.
Qed.

Lemma finish_within r c s :
  c_Owner c = owner /\ c_Name c = name -> deleting c -> ps_record s = c -> wpp (finish_delete r c) (fun _ _ => True) s.
Proof.
  intros [Ho Hn] Hd Hs. unfold finish_delete, Observe, value_or. apply wp_guard, wp_call_bind; [done|].
  intros [ob|m] _; apply wp_ret; [|done]. cbn [id]. destruct (bool_decide (ob_CP ob = None) && bool_decide (ob_Workers ob = ∅)) eqn:E; [|done].
  apply andb_true_iff in E as [Hcp%bool_decide_eq_true_1 Hw%bool_decide_eq_true_1].
  apply wp_guard. eapply wp_mono; [|apply (wpp_stage c ob ∅)].
  - intros s' [[]|e] (Hr & Hob & _); [|done]. apply wp_guard. split; [|by intros [m|] _].
    split_and!; [done|done|by rewrite Hr|]. exists ob. by rewrite Hob.
  - destruct (r_publish r); [by apply only_done|done].
  - by split_and!.
Qed.

Lemma reconcile_within r snapshot :
  c_Owner snapshot = owner -> c_Name snapshot = name -> wpp (reconcileCluster r snapshot) (fun _ _ => True) (pass_start snapshot).
Proof.
  intros Ho Hn. unfold reconcileCluster, Observe, value_or. apply wp_guard, wp_call_bind; [done|].
  intros [o|m] _; apply wp_ret; [|done]. cbn [id see_pass]. apply wp_call_bind; [done|]. intros fresh Hf. set (c := match fresh with inl c => c | inr _ => snapshot end).
  assert (Hown : c_Owner c = owner /\ c_Name c = name) by (unfold c; destruct fresh; [by destruct Hf as [-> ->]|done]).
  cbv zeta. apply wp_guard. eapply wp_mono; [|apply (perform_all_within r c o Hown); [done|by destruct fresh]].
  intros s [[]|e] (Hr & _); [done| |done]. cbn [desiredFrom ds_Deleting].
  destruct (bool_decide_reflect (c_State c = StateDeleting)); [by apply finish_within|by apply settle_within].
Qed.
End Pass.

(** C18: Every run of a pass over one cluster, whatever the host and the seams answer, and whatever
    record and rows of this cluster the store answers.  The pass observes, reads and writes this
    cluster only.  An instance is created only while the record in force is not being
    deleted, and only one that [Decide] asks for given that record and the last observation: the
    control plane, or a worker of a group, labelled and sized for it.  An instance is deleted
    only if the pass created it, or if the cluster is being deleted and the instance was
    observed as the cluster's.  Node rows are removed and the record is deleted only
    for a cluster that is being deleted, and the record only after an observation that shows neither a
    control plane nor a worker.  READY and DEGRADED are written only to a cluster that was not
    being deleted when the pass read it. *)
Theorem pass_confined r snapshot tr p :
  Prog.runs (reconcileCluster r snapshot) tr p ->
  Forall (fun e => own_answers (projT1 e) (projT2 e)) tr ->
  forall before e after, tr = before ++ e :: after ->
  pass_may (c_Owner snapshot) (c_Name snapshot) (foldl (mon_event see_pass) (pass_start snapshot) before) (projT1 e).
Proof.
  intros Hruns Hal before [c a] after ->. apply runs_app in Hruns as (q & H1 & H2). apply Forall_app in Hal as [Hal _].
  pose proof (wp_runs _ _ _ _ _ _ _ _ (reconcile_within _ _ r snapshot eq_refl eq_refl) H1 Hal) as Hq.
  inversion H2; subst. by destruct Hq.
Qed.

(** The teardown of a cluster that has its control plane only: the seventh call deletes the record. *)
Lemma pass_confined_witness :
  let c := set_cluster_state StateDeleting "" 0 ex_record in
  let tr := (play working (reconcileCluster ex_reconciler c) (mkWorld (mkMem {[key "alice" "dev" := c]} ∅ ∅) (w_host ex_fleet))).1 in
  (exists e after, tr = take 6 tr ++ e :: after /\ projT1 e = CStore (ODelete "alice" "dev")) /\
  let s := foldl (mon_event see_pass) (pass_start c) (take 6 tr) in
  deleting (ps_record s) /\ exists ob, ps_seen s = Some ob /\ ob_CP ob = None /\ ob_Workers ob = ∅.
Proof.
  intros c tr.
  assert (Hsplit : exists e after, tr = take 6 tr ++ e :: after /\ projT1 e = CStore (ODelete "alice" "dev")).
  { destruct (drop 6 tr) as [|e after] eqn:E; [by vm_compute in E|]. exists e, after. split.
    - by rewrite <- E, take_drop.
    - apply (f_equal head) in E. vm_compute in E. by injection E as <-. }
  split; [exact Hsplit|]. destruct Hsplit as (e & after & Htr & He). intros s.
  pose proof (pass_confined ex_reconciler c tr _ (play_runs _ _ _)) as H.
  assert (Hal : Forall (fun e => own_answers (projT1 e) (projT2 e)) tr) by (vm_compute; repeat constructor).
  specialize (H Hal _ _ _ Htr). fold s in H. rewrite He in H. destruct H as (_ & _ & Hd & ob & Hob). split; [exact Hd|].
  by exists ob.
Defined.

(** ** What the code does not prevent *)

Definition record_of (w : cworld) : option Cluster := m_clusters (w_store w) !! key "alice" "dev".

(** A host that cannot delete. *)
Definition stuck (c : ccall) (w : cworld) : cans c * cworld :=
  match c return cans c * cworld -> cans c * cworld with HDelete _ => fun _ => (Some "busy", w) | _ => fun r => r end (working c w).

(** A teardown that fails writes ERROR over DELETING, and the next pass starts the control plane again. *)
Example deletion_is_lost :
  let c := set_cluster_state StateDeleting "" 0 ex_record in
  let w0 := mkWorld (mkMem {[key "alice" "dev" := c]} ∅ ∅) (w_host ex_fleet) in
  let w1 := (handle stuck (ReconcileOnce ex_reconciler (fun _ => "stop")) w0).2 in
  let w2 := (handle working (ReconcileOnce ex_reconciler (fun _ => "stop")) w1).2 in
  c_State <$> record_of w1 = Some StateError /\
  ci_State <$> w_host w1 !! CPName "alice" "dev" = Some "Stopped" /\
  ci_State <$> w_host w2 !! CPName "alice" "dev" = Some "Running".
Proof. vm_compute. done. Qed.

(** The int32 sum of a scale-up wraps, passes the maximum and is stored as a negative target. *)
Example scale_up_wraps :
  let increase := serve_ca 0 (mkScopeState false 0 0) ex_machine (QIncrease "alice/dev/pool" (2 ^ 31 - 1)) in
  let '(err, w) := handle working increase ex_world in
  err = None /\ (fun c => TargetNodes <$> c_NodeGroups c) <$> record_of w = Some [- 2 ^ 31 + 1].
Proof. vm_compute. done. Qed.

(** Two drains of a group without a minimum: the first has read the rows when the second
    runs.  No worker is left, the target is 1, and the next pass builds a worker. *)
Example two_drains_rebuild :
  let drain n := serve_ca 0 (mkScopeState false 0 0) ex_machine (QDelete "alice/dev/pool" [WorkerName "alice" "dev" "pool" n]) in
  let c := set_groups [mkGroup "pool" (mkSize "2" "4GB" "40GB") 0 3 2] 0 ex_cluster in
  let w0 := mkWorld (mkMem {[key "alice" "dev" := c]} (m_nodes (w_store ex_world)) ∅) (w_host ex_world) in
  let '(first, w1) := drive working 3 (drain 1) w0 in
  let '(err2, w2) := handle working (drain 2) w1 in
  let '(err1, w3) := handle working first w2 in
  let w4 := (handle working (ReconcileOnce ex_reconciler (fun _ => "")) w3).2 in
  err1 = None /\ err2 = None /\
  (fun c => TargetNodes <$> c_NodeGroups c) <$> record_of w3 = Some [1] /\
  group_instances "alice" "dev" "pool" (w_host w3) = ∅ /\ size (group_instances "alice" "dev" "pool" (w_host w4)) = 1%nat.
Proof. vm_compute. done. Qed.
