(* ===== verification/NetPolicy.v ===== *)
(** * Network policies: validation and normal form

    internal/netpolicy/netpolicy.go.  [Compile] turns a policy message into parsed, masked, deduplicated and
    sorted prefixes, or an error; [ToProto] prints the normal form that is stored.
    [strings.ToLower] beyond ASCII is an argument. *)

From S2P Require Import Prelude GoStrings GoSort GoNet GoNetip GoTime SafeCast.
From Stdlib Require Import Ascii.
#[local] Open Scope string_scope.
#[local] Open Scope list_scope.
#[local] Open Scope Z_scope.

(** ** Messages *)

(** An element of the repeated field may be nil: [option]. *)
Record NetworkPolicyDenyRule := mkRule {
  r_Cidr : string; r_Port : Z; r_Proto : string; r_Note : string; r_ExpiresAt : string;
}.

Record NetworkPolicy := mkPolicy {
  p_Tenant : string;
  p_AllowIntraTenant : bool;
  p_EgressCidrs : list string;
  p_EgressDomains : list string;
  p_AllowMetadata : bool;
  p_Mode : Z;
  p_Source : string;
  p_DenyRules : list (option NetworkPolicyDenyRule);
}.

Definition MODE_UNSPECIFIED : Z := 0.
Definition MODE_LOG_ONLY : Z := 1.
Definition MODE_ENFORCE : Z := 2.

(** ** The compiled form *)

Record DenyRule := mkDeny { d_CIDR : Prefix; d_Port : Z; d_Proto : Z; d_Note : string; d_ExpiresAt : Time }.

Record CompiledPolicy := mkCompiled {
  c_Tenant : string;
  c_AllowIntraTenant : bool;
  c_EgressCIDRs : list Prefix;
  c_EgressDomains : list string;
  c_AllowMetadata : bool;
  c_Mode : Z;
  c_LogOnly : bool;
  c_DenyRules : list DenyRule;
}.

Definition Expired (d : DenyRule) (now : Time) : bool := negb (IsZero (d_ExpiresAt d)) && After now (d_ExpiresAt d).

Inductive PolicyError :=
| PolicyNil
| TenantRequired
| InvalidEgressCIDR (c : string)
| InvalidDomain (d : string)
| DenyCIDRRequired
| InvalidDenyCIDR (c : string)
| PortOutOfRange (p : Z)
| UnknownProto (s : string)
| InvalidExpiry (s : string)
| UnknownMode (m : Z).

Definition result (A : Type) : Type := A + PolicyError.

#[export] Instance result_ret : MRet result := fun _ => inl.
#[export] Instance result_bind : MBind result :=
  fun A B f x => match x with inl a => f a | inr e => inr e end.

Definition required {A} (e : PolicyError) (x : option A) : result A := match x with Some a => inl a | None => inr e end.

(** ** Prefixes *)

(** A bare address stands for its full-length prefix. *)
Definition parse_cidr (c : string) : option Prefix :=
  if contains_char "/" c then Masked <$> ParsePrefix c
  else (fun a => PrefixFrom a (BitLen a)) <$> ParseAddr c.

Fixpoint cidrs_loop (seen : gmap string Prefix) (raw : list string) : result (gmap string Prefix) :=
  match raw with
  | [] => inl seen
  | c :: raw =>
      let c := TrimSpace c in
      if String.eqb c "" then cidrs_loop seen raw
      else
        p ← required (InvalidEgressCIDR c) (ParsePrefix c);
        let p := Masked p in
        cidrs_loop (<[Prefix_String p := p]> seen) raw
  end.

Definition compileCIDRs (raw : list string) : result (list Prefix) :=
  seen ← cidrs_loop ∅ raw; mret (sorted_by Prefix_String (values seen)).

(** ** Domains and protocols *)

Section Lower.
Context (ToLower : string -> string).

Definition parseProto (s : string) : result Z :=
  let l := ToLower (TrimSpace s) in
  if String.eqb l "" || String.eqb l "any" then inl 0
  else if String.eqb l "tcp" then inl 6
  else if String.eqb l "udp" then inl 17
  else inr (UnknownProto s).

Definition protoName (p : Z) : string := if p =? 6 then "tcp" else if p =? 17 then "udp" else "".

Fixpoint domains_loop (seen : gset string) (raw : list string) : result (gset string) :=
  match raw with
  | [] => inl seen
  | d :: raw =>
      let d := TrimSuffix (ToLower (TrimSpace d)) "." in
      if String.eqb d "" then domains_loop seen raw
      else if contains_char "/" d || contains_char ":" d || contains_char " " d then inr (InvalidDomain d)
      else domains_loop ({[d]} ∪ seen) raw
  end.

Definition compileDomains (raw : list string) : result (list string) :=
  seen ← domains_loop ∅ raw; mret (sorted_by id (elements seen)).

(** ** Deny rules *)

Definition parse_expiry (s : string) : result Time :=
  let s := TrimSpace s in
  if String.eqb s "" then inl 0 else required (InvalidExpiry s) (ParseRFC3339 s).

(** One rule of the request. *)
Definition compile_rule (r : NetworkPolicyDenyRule) : result DenyRule :=
  let c := TrimSpace (r_Cidr r) in
  if String.eqb c "" then inr DenyCIDRRequired
  else
    prefix ← required (InvalidDenyCIDR c) (parse_cidr c);
    if 65535 <? r_Port r then inr (PortOutOfRange (r_Port r))
    else
      proto ← parseProto (r_Proto r);
      exp ← parse_expiry (r_ExpiresAt r);
      mret (mkDeny prefix (U16FromUint (r_Port r)) proto (TrimSpace (r_Note r)) exp).

Definition cidr_key (d : DenyRule) : string := Prefix_String (d_CIDR d).

Fixpoint rules_loop (seen : gmap string DenyRule) (raw : list (option NetworkPolicyDenyRule)) : result (gmap string DenyRule) :=
  match raw with
  | [] => inl seen
  | None :: raw => rules_loop seen raw
  | Some r :: raw => d ← compile_rule r; rules_loop (<[cidr_key d := d]> seen) raw
  end.

Definition compileDenyRules (raw : list (option NetworkPolicyDenyRule)) : result (list DenyRule) :=
  seen ← rules_loop ∅ raw; mret (sorted_by cidr_key (values seen)).

(** ** Policies *)

Definition resolve_mode (m : Z) : result Z :=
  if m =? MODE_UNSPECIFIED then inl MODE_LOG_ONLY
  else if (m =? MODE_LOG_ONLY) || (m =? MODE_ENFORCE) then inl m
  else inr (UnknownMode m).

Definition Compile (p : option NetworkPolicy) : result CompiledPolicy :=
  p ← required PolicyNil p;
  let tenant := TrimSpace (p_Tenant p) in
  if String.eqb tenant "" then inr TenantRequired
  else
    cidrs ← compileCIDRs (p_EgressCidrs p);
    domains ← compileDomains (p_EgressDomains p);
    deny ← compileDenyRules (p_DenyRules p);
    mode ← resolve_mode (p_Mode p);
    mret (mkCompiled tenant (p_AllowIntraTenant p) cidrs domains (p_AllowMetadata p) mode (negb (mode =? MODE_ENFORCE)) deny).

Definition rule_proto (d : DenyRule) : NetworkPolicyDenyRule :=
  mkRule (Prefix_String (d_CIDR d)) (d_Port d) (protoName (d_Proto d)) (d_Note d)
    (if IsZero (d_ExpiresAt d) then "" else FormatRFC3339 (d_ExpiresAt d)).

Definition ToProto (c : CompiledPolicy) : NetworkPolicy :=
  mkPolicy (c_Tenant c) (c_AllowIntraTenant c) (Prefix_String <$> c_EgressCIDRs c) (c_EgressDomains c) (c_AllowMetadata c)
    (c_Mode c) "" (Some ∘ rule_proto <$> c_DenyRules c).
End Lower.

(** [strings.ToLower] on ASCII text, for examples. *)
Fixpoint lower_string (s : string) : string :=
  match s with "" => "" | String c s => String (lower_ascii c) (lower_string s) end.

Example compile_ex :
  (ToProto <$> match Compile lower_string (Some (mkPolicy " acme " true ["10.1.2.3/8"; " "; "10.0.0.0/8"; "1.1.1.1/32"] ["API.github.com."] false 0 "x"
     [Some (mkRule "1.2.3.4" 443 "TCP" " cve " ""); None; Some (mkRule "1.2.3.4/32" 80 "" "late" "2030-01-01T00:00:00Z")])) with
   | inl c => Some c | inr _ => None end)
  = Some (mkPolicy "acme" true ["1.1.1.1/32"; "10.0.0.0/8"] ["api.github.com"] false 1 ""
      [Some (mkRule "1.2.3.4/32" 80 "" "late" "2030-01-01T00:00:00Z")]).
Proof. vm_compute. reflexivity. Qed.
