(* ===== verification/NetNormal.v ===== *)
(** * The normal form of a network policy

    What [Compile] accepts and returns: one rule per prefix, the last one winning
    ([compileDenyRules_spec]), and a form that survives being printed, stored and compiled again
    ([normal_form_stable]), with the texts for which it does not. *)

From S2P Require Import Prelude GoStrings GoSort GoNet GoNetip GoTime SafeCast NetPolicy.
From Stdlib Require Import Ascii.
#[local] Open Scope string_scope.
#[local] Open Scope list_scope.
#[local] Open Scope Z_scope.

(** ** Text without blanks *)

Definition graphic (c : ascii) : bool := (33 <=? nat_of_ascii c)%nat && (nat_of_ascii c <=? 126)%nat.

Definition starts_no_rune (runes : list string) (c : ascii) : bool :=
  forallb (fun r => match r with String a _ => negb (Ascii.eqb a c) | "" => false end) runes.

Lemma graphic_starts c : graphic c = true -> starts_no_rune space_runes c = true /\ starts_no_rune (map reverse space_runes) c = true.
Proof. destruct c as [[] [] [] [] [] [] [] []]; vm_compute; done. Qed.

Lemma starts_no_rune_strip runes c s : starts_no_rune runes c = true -> strip_one runes (String c s) = None.
Proof.
  intros H. apply strip_one_none, Forall_forall. intros r Hr. unfold starts_no_rune in H. rewrite forallb_forall in H.
  apply list_elem_of_In, H in Hr. destruct r as [|a r]; [done|]. cbn. by apply negb_true_iff in Hr as ->.
Qed.

Lemma str_all_reverse p s : str_all p (reverse s) = str_all p s.
Proof. induction s as [|c s IH]; [done|]. rewrite reverse_cons, str_all_app, IH. cbn. by rewrite andb_true_r, andb_comm. Qed.

Lemma graphic_trim_left runes s :
  (forall c, graphic c = true -> starts_no_rune runes c = true) -> nonempty_runes runes -> str_all graphic s = true ->
  trim_left_with runes s = s.
Proof.
  intros Hr Hn Hs. apply trim_left_id. destruct s as [|c s].
  - apply strip_one_none. eapply Forall_impl; [exact Hn|]. by intros [|].
  - cbn in Hs. apply andb_true_iff in Hs as [Hc _]. by apply starts_no_rune_strip, Hr.
Qed.

Lemma TrimSpace_graphic s : str_all graphic s = true -> TrimSpace s = s.
Proof.
  intros Hs. unfold TrimSpace. cbv zeta.
  assert (H1 : trim_left_with space_runes s = s).
  { apply graphic_trim_left; [intros c Hc; exact (proj1 (graphic_starts c Hc))|exact space_runes_nonempty|exact Hs]. }
  assert (H2 : trim_left_with (map reverse space_runes) (reverse s) = reverse s).
  { apply graphic_trim_left; [intros c Hc; exact (proj2 (graphic_starts c Hc))|exact space_runes_rev_nonempty|].
    by rewrite str_all_reverse. }
  rewrite H1, H2. apply reverse_involutive.
Qed.

Lemma str_all_impl (p q : ascii -> bool) s : (forall c, p c = true -> q c = true) -> str_all p s = true -> str_all q s = true.
Proof.
  intros Hpq. induction s as [|c s IH]; [done|]. cbn. rewrite !andb_true_iff. intros [Hc Hs]. auto.
Qed.

Lemma Itoa_graphic z : 0 <= z < 256 -> str_all graphic (Itoa z) = true.
Proof. intros Hz. apply (forall_below (fun z => str_all graphic (Itoa z)) 256); [vm_compute; reflexivity|done]. Qed.

Lemma padded_graphic z : 0 <= z < 100 -> str_all graphic (padded 2 z) = true.
Proof. intros Hz. apply (forall_below (fun z => str_all graphic (padded 2 z)) 100); [vm_compute; reflexivity|done]. Qed.

Lemma octets_string_graphic a b c d :
  octet a -> octet b -> octet c -> octet d -> str_all graphic (octets_string a b c d) = true.
Proof.
  unfold octet. intros Ha Hb Hc Hd. unfold octets_string. rewrite !str_all_app, !Itoa_graphic by lia. done.
Qed.

Lemma String16_graphic ip : length ip = 16%nat -> Forall octet ip -> str_all graphic (String16 ip) = true.
Proof.
  intros Hl Ho. destruct (groups_spec 8 ip Hl Ho) as (_ & Hg & _).
  apply (str_all_impl v6_char); [intros c; destruct c as [[] [] [] [] [] [] [] []]; vm_compute; done|].
  unfold String16. cbv zeta. destruct (best_run (groups ip)) as [[s e]|].
  - fold (groups_text (take s (groups ip))) (groups_text (drop e (groups ip))).
    rewrite !str_all_app, !groups_text_all by (by apply Forall_take || by apply Forall_drop). done.
  - by apply groups_text_all.
Qed.

Lemma Addr_String_graphic a : addr_ok a -> str_all graphic (Addr_String a) = true.
Proof.
  assert (H4 : forall q, length q = 4%nat -> Forall octet q -> str_all graphic (String4 q) = true).
  { intros q Hl Ho. destruct q as [|x [|y [|u [|v [|? ?]]]]]; try done. rewrite !Forall_cons in Ho.
    apply octets_string_graphic; tauto. }
  destruct a as [q|b z]; cbn [addr_ok Addr_String]; [by intros [Hl Ho]; apply H4|].
  intros (Hl & Ho & ->). rewrite string_app_nil_r. destruct (is_4in6 b).
  - rewrite str_all_app, H4; [done|rewrite length_drop; lia|by apply Forall_drop].
  - by apply String16_graphic.
Qed.

Lemma Prefix_String_graphic p : prefix_ok p -> str_all graphic (Prefix_String p) = true.
Proof.
  destruct p as [a n]. intros [Ha Hn]. cbn in *. assert (BitLen a <= 128) by by destruct a.
  unfold Prefix_String. cbn [pf_addr pf_bits]. rewrite !str_all_app, Addr_String_graphic, Itoa_graphic by (done || lia). done.
Qed.

Lemma Prefix_String_slash p : contains_char "/" (Prefix_String p) = true.
Proof. unfold Prefix_String. rewrite !contains_char_app. apply orb_true_iff. right. done. Qed.

Lemma Format_graphic t : four_digit_year t -> str_all graphic (FormatRFC3339 t) = true.
Proof.
  unfold four_digit_year, FormatRFC3339. cbv zeta. destruct (civil (t / Second / 86400)) as [[y m] d] eqn:Hc. intros Hy.
  apply civil_inverse in Hc as (_ & Hm & Hd). pose proof (daysIn_max m y) as Hdd.
  rewrite padded_year by done. rewrite !str_all_app, !padded_graphic by (Z.to_euclidean_division_equations; lia). done.
Qed.

(** ** What each loop computes *)

Section Lower.
Context (ToLower : string -> string).

Lemma required_inl {A} e (x : option A) a : required e x = inl a <-> x = Some a.
Proof. destruct x; cbn; naive_solver. Qed.

Lemma result_bind_inl {A B} (x : result A) (f : A -> result B) b :
  x ≫= f = inl b <-> exists a, x = inl a /\ f a = inl b.
Proof. destruct x as [a|e]; cbn; naive_solver. Qed.

(** The prefixes of the entries that are not blank. *)
Inductive egress_parsed : list string -> list Prefix -> Prop :=
| ep_nil : egress_parsed [] []
| ep_blank c raw ps : TrimSpace c = "" -> egress_parsed raw ps -> egress_parsed (c :: raw) ps
| ep_cons c raw p ps : TrimSpace c <> "" -> ParsePrefix (TrimSpace c) = Some p -> egress_parsed raw ps ->
    egress_parsed (c :: raw) (Masked p :: ps).

Lemma cidrs_loop_spec raw seen m :
  cidrs_loop seen raw = inl m <-> exists ps, egress_parsed raw ps /\ m = index_into Prefix_String seen ps.
Proof.
  revert seen. induction raw as [|c raw IH]; intros seen; cbn [cidrs_loop]; cbv zeta.
  - split; [intros [= <-]; exists []; split; [constructor|done]|]. intros (ps & Hp & ->). by inversion Hp; subst.
  - destruct (String.eqb_spec (TrimSpace c) "") as [E|E].
    + rewrite IH. split; intros (ps & Hp & ->); exists ps; (split; [|done]); [by constructor|by inversion Hp; subst].
    + rewrite result_bind_inl. setoid_rewrite required_inl. split.
      * intros (p & Hp & (ps & Hps & ->)%IH). exists (Masked p :: ps). split; [by constructor|done].
      * intros (ps & Hp & ->). inversion Hp as [| |? ? p ps' ? Hpp Hps]; subst; [done|]. exists p. split; [done|].
        apply IH. by exists ps'.
Qed.

(** The rules of the entries that are not nil. *)
Inductive rules_parsed : list (option NetworkPolicyDenyRule) -> list DenyRule -> Prop :=
| rp_nil : rules_parsed [] []
| rp_none raw ds : rules_parsed raw ds -> rules_parsed (None :: raw) ds
| rp_some r raw d ds : compile_rule ToLower r = inl d -> rules_parsed raw ds -> rules_parsed (Some r :: raw) (d :: ds).

Lemma rules_loop_spec raw seen m :
  rules_loop ToLower seen raw = inl m <-> exists ds, rules_parsed raw ds /\ m = index_into cidr_key seen ds.
Proof.
  revert seen. induction raw as [|[r|] raw IH]; intros seen; cbn [rules_loop].
  - split; [intros [= <-]; exists []; split; [constructor|done]|]. intros (ds & Hp & ->). by inversion Hp; subst.
  - rewrite result_bind_inl. split.
    + intros (d & Hd & (ds & Hds & ->)%IH). exists (d :: ds). split; [by constructor|done].
    + intros (ds & Hp & ->). inversion Hp as [| |? ? d ds' Hd Hds]; subst. exists d. split; [done|]. apply IH. by exists ds'.
  - rewrite IH. split; intros (ds & Hp & ->); exists ds; (split; [|done]); [by constructor|by inversion Hp; subst].
Qed.

(** One rule per prefix: the last of the list. *)
Lemma compileDenyRules_spec raw out :
  compileDenyRules ToLower raw = inl out <->
  exists ds, rules_parsed raw ds /\ out = sorted_by cidr_key (values (index_into cidr_key ∅ ds)).
Proof.
  unfold compileDenyRules. rewrite result_bind_inl. setoid_rewrite rules_loop_spec. split.
  - intros (m & (ds & Hds & ->) & [= <-]). by exists ds.
  - intros (ds & Hds & ->). eexists. split; [by exists ds|done].
Qed.

Lemma compileCIDRs_spec raw out :
  compileCIDRs raw = inl out <->
  exists ps, egress_parsed raw ps /\ out = sorted_by Prefix_String (values (index_into Prefix_String ∅ ps)).
Proof.
  unfold compileCIDRs. rewrite result_bind_inl. setoid_rewrite cidrs_loop_spec. split.
  - intros (m & (ds & Hds & ->) & [= <-]). by exists ds.
  - intros (ds & Hds & ->). eexists. split; [by exists ds|done].
Qed.

(** ** Compiled prefixes and rules are normal *)

Definition prefix_normal (p : Prefix) : Prop := prefix_ok p /\ Masked p = p.

Lemma Masked_normal p : prefix_ok p -> prefix_normal (Masked p).
Proof. intros Hp. split; [by apply Masked_ok|apply Masked_idem]. Qed.

Lemma parse_cidr_normal c p : parse_cidr c = Some p -> prefix_normal p.
Proof.
  unfold parse_cidr. destruct (contains_char "/" c).
  - destruct (ParsePrefix c) as [q|] eqn:E; [|done]. intros [= <-]. by eapply Masked_normal, ParsePrefix_ok.
  - destruct (ParseAddr c) as [a|] eqn:E; [|done]. intros [= <-]. apply ParseAddr_ok in E.
    split; [by apply PrefixFrom_ok|by apply Masked_PrefixFrom].
Qed.

Lemma ParsePrefix_normal p : prefix_normal p -> ParsePrefix (Prefix_String p) = Some p.
Proof. intros [Hp _]. by apply ParsePrefix_String. Qed.

Lemma parse_cidr_String p : prefix_normal p -> parse_cidr (Prefix_String p) = Some p.
Proof.
  intros Hp. unfold parse_cidr. rewrite Prefix_String_slash, ParsePrefix_normal by done. cbn. f_equal. apply Hp.
Qed.

Record rule_normal (d : DenyRule) : Prop := {
  rn_cidr : prefix_normal (d_CIDR d);
  rn_port : 0 <= d_Port d <= 65535;
  rn_proto : d_Proto d ∈ [0; 6; 17];
  rn_note : TrimSpace (d_Note d) = d_Note d;
}.

(** A uint32 field. *)
Definition port_u32 (r : option NetworkPolicyDenyRule) : Prop :=
  match r with Some r => in_type u32 (r_Port r) | None => True end.

Lemma parseProto_range s p : parseProto ToLower s = inl p -> p ∈ [0; 6; 17].
Proof.
  unfold parseProto. cbv zeta. destruct (_ || _); [intros [= <-]; set_solver|].
  destruct (String.eqb _ "tcp"); [intros [= <-]; set_solver|].
  destruct (String.eqb _ "udp"); [intros [= <-]; set_solver|done].
Qed.

Lemma U16FromUint_small v : 0 <= v <= 65535 -> U16FromUint v = v.
Proof.
  intros Hv. unfold U16FromUint, MaxUint16. destruct (Z.ltb_spec 65535 v); [lia|].
  apply wrap_in_type_id; [done|]. split; cbn [it_min it_max u16 it_bits it_signed]; lia.
Qed.

Lemma compile_rule_normal r d : port_u32 (Some r) -> compile_rule ToLower r = inl d -> rule_normal d.
Proof.
  intros Hport. unfold compile_rule. cbv zeta. destruct (String.eqb _ ""); [done|].
  rewrite result_bind_inl. intros (p & Hp%required_inl & H). destruct (Z.ltb_spec 65535 (r_Port r)); [done|].
  apply result_bind_inl in H as (pr & Hpr & H). apply result_bind_inl in H as (e & He & [= <-]).
  assert (0 <= r_Port r) by apply Hport. split; cbn [d_CIDR d_Port d_Proto d_Note].
  - by eapply parse_cidr_normal.
  - rewrite U16FromUint_small; lia.
  - by eapply parseProto_range.
  - apply TrimSpace_idem.
Qed.

Lemma rules_parsed_normal raw ds : Forall port_u32 raw -> rules_parsed raw ds -> Forall rule_normal ds.
Proof.
  intros Hp H. induction H as [|raw ds H IH|r raw d ds Hd H IH]; [constructor|apply Forall_cons in Hp as [_ Hp]; auto|].
  apply Forall_cons in Hp as [Hr Hp]. constructor; [by eapply compile_rule_normal|auto].
Qed.

Lemma egress_parsed_normal raw ps : egress_parsed raw ps -> Forall prefix_normal ps.
Proof.
  induction 1 as [| |c raw p ps _ Hp _ IH]; [constructor|done|]. constructor; [|done]. by eapply Masked_normal, ParsePrefix_ok.
Qed.

Lemma sorted_index_Forall {A} (key : A -> string) (P : A -> Prop) l :
  Forall P l -> Forall P (sorted_by key (values (index_into key ∅ l))).
Proof.
  intros Hl. apply Forall_forall. intros x Hx%elem_of_sorted_index. rewrite Forall_forall in Hl. apply Hl.
  apply last_Some_elem_of in Hx. by apply list_elem_of_filter in Hx as [_ Hx].
Qed.

(** ** Printing a compiled policy and compiling it again *)

(** [strings.ToLower] on the protocol names. *)
Context (ToLower_names : forall s, s ∈ [""; "tcp"; "udp"] -> ToLower s = s).

(** An expiry that its printed form denotes. *)
Definition expiry_printable (t : Time) : Prop := IsZero t = true \/ (four_digit_year t /\ t mod Second = 0).

Lemma parse_expiry_print t :
  expiry_printable t -> parse_expiry (if IsZero t then "" else FormatRFC3339 t) = inl t.
Proof.
  intros [H|[Hy Hs]].
  - rewrite H. unfold IsZero in H. apply Z.eqb_eq in H as ->. reflexivity.
  - destruct (IsZero t) eqn:E; [unfold IsZero in E; apply Z.eqb_eq in E as ->; reflexivity|].
    unfold parse_expiry. rewrite TrimSpace_graphic by by apply Format_graphic. cbv zeta.
    destruct (String.eqb_spec (FormatRFC3339 t) "") as [E0|_].
    { pose proof (Parse_Format t Hy) as H. rewrite E0 in H. discriminate H. }
    rewrite Parse_Format, Hs, Z.sub_0_r by done. done.
Qed.

Lemma parseProto_name p : p ∈ [0; 6; 17] -> parseProto ToLower (protoName p) = inl p.
Proof.
  rewrite !elem_of_cons, elem_of_nil. unfold parseProto.
  intros [->|[->|[->|[]]]]; cbv zeta;
    change (TrimSpace (protoName 0)) with ""; change (TrimSpace (protoName 6)) with "tcp";
    change (TrimSpace (protoName 17)) with "udp"; rewrite ToLower_names by (rewrite !elem_of_cons; auto); reflexivity.
Qed.

Lemma compile_rule_print d :
  rule_normal d -> expiry_printable (d_ExpiresAt d) -> compile_rule ToLower (rule_proto d) = inl d.
Proof.
  intros [Hc Hp Hpr Hn] He. unfold compile_rule, rule_proto. cbn [r_Cidr r_Port r_Proto r_Note r_ExpiresAt]. cbv zeta.
  rewrite TrimSpace_graphic by (apply Prefix_String_graphic, Hc).
  destruct (String.eqb_spec (Prefix_String (d_CIDR d)) "") as [E|_].
  { pose proof (Prefix_String_slash (d_CIDR d)) as H. by rewrite E in H. }
  rewrite parse_cidr_String by done. cbn [required mbind result_bind].
  destruct (Z.ltb_spec 65535 (d_Port d)); [lia|].
  rewrite parseProto_name by done. cbn [mbind result_bind]. rewrite parse_expiry_print by done. cbn [mbind result_bind].
  rewrite U16FromUint_small, Hn by lia. by destruct d.
Qed.

Lemma rules_parsed_print ds :
  Forall rule_normal ds -> Forall (fun d => expiry_printable (d_ExpiresAt d)) ds ->
  rules_parsed (Some ∘ rule_proto <$> ds) ds.
Proof.
  induction ds as [|d ds IH]; intros Hn He; [constructor|]. apply Forall_cons in Hn as [Hd Hn]. apply Forall_cons in He as [Hde He].
  cbn. constructor; [by apply compile_rule_print|by apply IH].
Qed.

Lemma compileDenyRules_print ds :
  Forall rule_normal ds -> Forall (fun d => expiry_printable (d_ExpiresAt d)) ds ->
  StronglySorted (key_le cidr_key) ds -> NoDup (cidr_key <$> ds) ->
  compileDenyRules ToLower (Some ∘ rule_proto <$> ds) = inl ds.
Proof.
  intros Hn He Hs Hd. apply compileDenyRules_spec. exists ds. split; [by apply rules_parsed_print|].
  symmetry. by apply sorted_index_id.
Qed.

Lemma compileDenyRules_form raw ds :
  Forall port_u32 raw -> compileDenyRules ToLower raw = inl ds ->
  Forall rule_normal ds /\ StronglySorted (key_le cidr_key) ds /\ NoDup (cidr_key <$> ds).
Proof.
  intros Hp (es & Hes & ->)%compileDenyRules_spec. split_and!.
  - apply sorted_index_Forall. by eapply rules_parsed_normal.
  - apply sorted_values_sorted.
  - apply sorted_values_NoDup, index_into_keyed, keyed_empty.
Qed.

Lemma egress_parsed_print ps : Forall prefix_normal ps -> egress_parsed (Prefix_String <$> ps) ps.
Proof.
  induction 1 as [|p ps Hp _ IH]; [constructor|]. cbn. rewrite <- (proj2 Hp) at 2.
  assert (Ht : TrimSpace (Prefix_String p) = Prefix_String p) by (apply TrimSpace_graphic, Prefix_String_graphic, Hp).
  constructor; [|rewrite Ht; by apply ParsePrefix_normal|done].
  rewrite Ht. intros E. pose proof (Prefix_String_slash p) as H. by rewrite E in H.
Qed.

Lemma compileCIDRs_stable raw ps : compileCIDRs raw = inl ps -> compileCIDRs (Prefix_String <$> ps) = inl ps.
Proof.
  intros (qs & Hqs & ->)%compileCIDRs_spec. apply compileCIDRs_spec. eexists. split.
  - apply egress_parsed_print, sorted_index_Forall. by eapply egress_parsed_normal.
  - symmetry. apply sorted_index_id; [apply sorted_values_sorted|apply sorted_values_NoDup, index_into_keyed, keyed_empty].
Qed.

(** A domain that its own normalization keeps. *)
Definition domain_stable (d : string) : Prop := TrimSuffix (ToLower (TrimSpace d)) "." = d.

Definition domain_ok (d : string) : Prop :=
  d <> "" /\ contains_char "/" d = false /\ contains_char ":" d = false /\ contains_char " " d = false.

Lemma domains_loop_ok raw seen s : set_Forall domain_ok seen -> domains_loop ToLower seen raw = inl s -> set_Forall domain_ok s.
Proof.
  revert seen. induction raw as [|d raw IH]; intros seen Hs; cbn [domains_loop]; cbv zeta; [by intros [= <-]|].
  destruct (String.eqb_spec (TrimSuffix (ToLower (TrimSpace d)) ".") "") as [E|E]; [by apply IH|].
  destruct (contains_char "/" _) eqn:E1; [done|]. destruct (contains_char ":" _) eqn:E2; [done|].
  destruct (contains_char " " _) eqn:E3; [done|]. cbn [orb]. apply IH. apply set_Forall_union; [|done].
  apply set_Forall_singleton. done.
Qed.

Lemma domains_loop_stable ds seen :
  Forall domain_ok ds -> Forall domain_stable ds -> domains_loop ToLower seen ds = inl (list_to_set ds ∪ seen).
Proof.
  revert seen. induction ds as [|d ds IH]; intros seen Ho Hs; cbn [domains_loop]; cbv zeta.
  - f_equal. set_solver.
  - apply Forall_cons in Ho as [(H0 & H1 & H2 & H3) Ho]. apply Forall_cons in Hs as [Hd Hs]. rewrite Hd.
    destruct (String.eqb_spec d "") as [E|_]; [done|]. rewrite H1, H2, H3. cbn [orb]. rewrite IH by done. f_equal. set_solver.
Qed.

Lemma compileDomains_stable raw ds :
  compileDomains ToLower raw = inl ds -> Forall domain_stable ds -> compileDomains ToLower ds = inl ds.
Proof.
  unfold compileDomains. rewrite result_bind_inl. intros (s & Hs & [= <-]) Hst.
  apply domains_loop_ok in Hs; [|apply set_Forall_empty]. rewrite domains_loop_stable; [|..|done].
  - cbn. f_equal. apply sorted_by_id; [apply sorted_values_sorted| |].
    + rewrite list_fmap_id. unfold sorted_by. rewrite merge_sort_Permutation. apply NoDup_elements.
    + unfold sorted_by. rewrite union_empty_r_L, merge_sort_Permutation. apply NoDup_Permutation; [apply NoDup_elements..|].
      intros x. rewrite !elem_of_elements, elem_of_list_to_set, ?merge_sort_Permutation. by rewrite ?elem_of_elements.
  - apply Forall_forall. intros x Hx%elem_of_sorted_by. by apply Hs, elem_of_elements.
Qed.

(** The normal form is stable: compiling what [ToProto] prints of a compiled policy gives the policy back,
    rule for rule, when its domains are in the form normalization leaves and its expiries have a year of
    four digits and no fraction of a second. *)
Theorem normal_form_stable p c :
  Compile ToLower (Some p) = inl c -> Forall port_u32 (p_DenyRules p) ->
  Forall domain_stable (c_EgressDomains c) -> Forall (fun d => expiry_printable (d_ExpiresAt d)) (c_DenyRules c) ->
  Compile ToLower (Some (ToProto c)) = inl c.
Proof.
  intros Hc Hports. unfold Compile in Hc. cbn [required mbind result_bind] in Hc. cbv zeta in Hc.
  destruct (String.eqb_spec (TrimSpace (p_Tenant p)) "") as [E|E]; [done|].
  apply result_bind_inl in Hc as (ps & Hps & Hc). apply result_bind_inl in Hc as (doms & Hdoms & Hc).
  apply result_bind_inl in Hc as (ds & Hds & Hc). apply result_bind_inl in Hc as (m & Hm & [= <-]).
  cbn [c_EgressDomains c_DenyRules]. intros Hst Hexp. apply compileDenyRules_form in Hds as (Hn & Hs & Hd); [|done].
  unfold Compile, ToProto.
  cbn [required mbind result_bind c_Tenant c_AllowIntraTenant c_EgressCIDRs c_EgressDomains c_AllowMetadata c_Mode c_DenyRules
    p_Tenant p_AllowIntraTenant p_EgressCidrs p_EgressDomains p_AllowMetadata p_Mode p_DenyRules]. cbv zeta.
  rewrite TrimSpace_idem. destruct (String.eqb_spec (TrimSpace (p_Tenant p)) "") as [|_]; [done|].
  rewrite (compileCIDRs_stable _ _ Hps). cbn [mbind result_bind].
  rewrite (compileDomains_stable _ _ Hdoms Hst). cbn [mbind result_bind].
  rewrite compileDenyRules_print by done. cbn [mbind result_bind].
  assert (resolve_mode m = inl m) as ->; [|done].
  unfold resolve_mode in *. destruct (p_Mode p =? MODE_UNSPECIFIED); [by injection Hm as <-|].
  destruct ((p_Mode p =? MODE_LOG_ONLY) || (p_Mode p =? MODE_ENFORCE)) eqn:Em; [|done]. injection Hm as <-.
  rewrite Em. by destruct (p_Mode p =? MODE_UNSPECIFIED) eqn:E0; [apply Z.eqb_eq in E0; rewrite E0 in Em|].
Qed.
End Lower.

Lemma lower_names s : s ∈ [""; "tcp"; "udp"] -> lower_string s = s.
Proof. rewrite !elem_of_cons, elem_of_nil. by intros [->|[->|[->|[]]]]. Qed.

Definition sample : NetworkPolicy :=
  mkPolicy " acme " true ["10.1.2.3/8"; "2001:db8::1/32"; "10.0.0.0/8"] ["API.github.com."] false 2 ""
    [Some (mkRule "1.2.3.4" 443 "TCP" " cve " ""); None; Some (mkRule "1.2.3.4/32" 80 "" "late" "2030-01-01T02:00:00+02:00")].

Definition sample_compiled : CompiledPolicy :=
  mkCompiled "acme" true [mkPrefix (AddrV4 [10; 0; 0; 0]) 8; mkPrefix (AddrV6 ([32; 1; 13; 184] ++ replicate 12 0) "") 32]
    ["api.github.com"] false 2 false [mkDeny (mkPrefix (AddrV4 [1; 2; 3; 4]) 32) 80 0 "late" (UnixTime (1893456000 * Second))].

Lemma normal_form_stable_witness :
  Compile lower_string (Some sample) = inl sample_compiled /\
  Compile lower_string (Some (ToProto sample_compiled)) = inl sample_compiled.
Proof.
  split; [vm_compute; reflexivity|]. apply (normal_form_stable lower_string lower_names sample).
  - vm_compute. reflexivity.
  - repeat (apply Forall_cons; split; [cbn; try done; split; cbn [it_min it_max u32 it_bits it_signed]; lia|]). by apply Forall_nil.
  - apply Forall_singleton. vm_compute. reflexivity.
  - apply Forall_singleton. right. split; [vm_compute; split; [discriminate|reflexivity]|vm_compute; reflexivity].
Defined.

(** ** Forms that do not survive *)

(** A second trailing dot, a blank before it. *)
Example domain_changes :
  let compiled d := match compileDomains lower_string [d] with inl l => l | inr _ => [] end in
  compiled "a.." = ["a."] /\ compiled "a." = ["a"]
  /\ compiled (String "a" (String "009" ".")) = [String "a" (String "009" "")] /\ compiled (String "a" (String "009" "")) = ["a"].
Proof. vm_compute. done. Qed.

(** An offset moves an accepted expiry past the year 9999, and its printed form is refused; a fraction is cut. *)
Example expiry_changes :
  match parse_expiry "9999-12-31T23:59:59-01:00" with
  | inl t => FormatRFC3339 t = "10000-01-01T00:59:59Z" /\ parse_expiry (FormatRFC3339 t) = inr (InvalidExpiry "10000-01-01T00:59:59Z")
  | inr _ => False
  end
  /\ FormatRFC3339 <$> ParseRFC3339 "2030-01-01T00:00:00.9Z" = Some "2030-01-01T00:00:00Z".
Proof. vm_compute. done. Qed.

(** The zero time as an expiry means no expiry. *)
Example expiry_of_year_one : parse_expiry "0001-01-01T00:00:00Z" = inl 0 /\ forall p n pr no now, Expired (mkDeny p n pr no 0) now = false.
Proof. split; [vm_compute; reflexivity|done]. Qed.
