(* ===== verification/NetStore.v ===== *)
(** * The stores of network policies

    internal/server/network_policy_store.go: the map of a standalone daemon and the table of Postgres, both behind
    the interface [PolicyStore], whose laws say what each operation does to the stored policies.  Columns hold the
    Go values; their SQL and JSON forms are not modelled, nor are statements that fail. *)

From S2P Require Import Prelude GoStrings GoSort NetPolicy.
#[local] Open Scope string_scope.
#[local] Open Scope list_scope.
#[local] Open Scope Z_scope.

Abbreviation rules := (list (option NetworkPolicyDenyRule)) (only parsing).

(** A [nil] rule is copied as an empty one. *)
Definition cloneDenyRules (rs : rules) : rules := (fun r => Some (default (mkRule "" 0 "" "" "") r)) <$> rs.

Definition with_rules (rs : rules) (p : NetworkPolicy) : NetworkPolicy :=
  mkPolicy (p_Tenant p) (p_AllowIntraTenant p) (p_EgressCidrs p) (p_EgressDomains p) (p_AllowMetadata p) (p_Mode p) (p_Source p) rs.

Definition clonePolicy (p : NetworkPolicy) : NetworkPolicy := with_rules (cloneDenyRules (p_DenyRules p)) p.

(** A policy that says nothing. *)
Definition blankPolicy (tenant : string) : NetworkPolicy := mkPolicy tenant false [] [] false MODE_UNSPECIFIED "" [].

(** ** The interface *)

(** Policies and rules without nil rules, each policy under its tenant. *)
Definition no_nil (rs : rules) : Prop := Forall is_Some rs.
Definition table_ok (m : gmap string NetworkPolicy) : Prop :=
  map_Forall (fun t p => p_Tenant p = t /\ no_nil (p_DenyRules p)) m.

(** What [Set] makes of the table: the rules of the tenant stay. *)
Definition set_policy (p : NetworkPolicy) (m : gmap string NetworkPolicy) : gmap string NetworkPolicy :=
  <[p_Tenant p := with_rules (default [] (p_DenyRules <$> m !! p_Tenant p)) p]> m.

(** The policy that [MutateDenyRules] starts from. *)
Definition policy_of (tenant : string) (m : gmap string NetworkPolicy) : NetworkPolicy := default (blankPolicy tenant) (m !! tenant).

Class PolicyStore (S : Type) := {
  Set_ : NetworkPolicy -> S -> S;
  Get : string -> S -> option NetworkPolicy;
  List_ : S -> list NetworkPolicy;
  Delete : string -> S -> S;
  MutateDenyRules : forall E, string -> (rules -> rules + E) -> S -> (NetworkPolicy + E) * S;
  table : S -> gmap string NetworkPolicy;
}.

(** What a store promises: each operation in terms of the table. *)
Class PolicyStoreLaws (S : Type) `{PolicyStore S} := {
  Set_law p s : table_ok (table s) -> table (Set_ p s) = set_policy p (table s);
  Get_law t s : table_ok (table s) -> Get t s = table s !! t;
  List_law s : table_ok (table s) -> List_ s = sorted_by p_Tenant (values (table s));
  Delete_law t s : table (Delete t s) = delete t (table s);
  Mutate_law E t (f : rules -> rules + E) s :
    table_ok (table s) -> (forall rs rs', f rs = inl rs' -> no_nil rs') ->
    match f (p_DenyRules (policy_of t (table s))) with
    | inl rs =>
        (MutateDenyRules E t f s).1 = inl (with_rules rs (policy_of t (table s)))
        /\ table (MutateDenyRules E t f s).2 = <[t := with_rules rs (policy_of t (table s))]> (table s)
    | inr e => (MutateDenyRules E t f s).1 = inr e /\ table (MutateDenyRules E t f s).2 = table s
    end;
}.

Lemma cloneDenyRules_id rs : no_nil rs -> cloneDenyRules rs = rs.
Proof. induction 1 as [|r rs [x ->] _ IH]; [done|]. cbn. f_equal. exact IH. Qed.

Lemma with_rules_id p : with_rules (p_DenyRules p) p = p.
Proof. by destruct p. Qed.

Lemma policy_of_no_nil t m : table_ok m -> no_nil (p_DenyRules (policy_of t m)).
Proof. intros Hm. unfold policy_of. destruct (m !! t) as [p|] eqn:E; [by eapply (Hm t p)|constructor]. Qed.

Lemma policy_of_tenant t m : table_ok m -> p_Tenant (policy_of t m) = t.
Proof. intros Hm. unfold policy_of. destruct (m !! t) as [p|] eqn:E; [by eapply (Hm t p)|done]. Qed.

Lemma set_policy_ok p m : table_ok m -> table_ok (set_policy p m).
Proof.
  intros Hm. apply map_Forall_insert_2; [|done]. split; [done|]. cbn. destruct (m !! p_Tenant p) as [q|] eqn:E; [by eapply (Hm _ q)|constructor].
Qed.

(** ** In memory *)

Abbreviation MemStore := (gmap string NetworkPolicy) (only parsing).

Definition mem_Set (p : NetworkPolicy) (s : MemStore) : MemStore :=
  let np := clonePolicy p in
  <[p_Tenant p := with_rules (match s !! p_Tenant p with Some old => cloneDenyRules (p_DenyRules old) | None => [] end) np]> s.

Definition mem_Get (t : string) (s : MemStore) : option NetworkPolicy := clonePolicy <$> s !! t.

Definition mem_List (s : MemStore) : list NetworkPolicy := sorted_by p_Tenant (clonePolicy <$> values s).

Definition mem_Delete (t : string) (s : MemStore) : MemStore := delete t s.

Definition mem_MutateDenyRules E (t : string) (fn : rules -> rules + E) (s : MemStore) : (NetworkPolicy + E) * MemStore :=
  let p := default (blankPolicy t) (s !! t) in
  match fn (cloneDenyRules (p_DenyRules p)) with
  | inr e => (inr e, s)
  | inl newRules => let np := with_rules newRules (clonePolicy p) in (inl (clonePolicy np), <[t := np]> s)
  end.

#[export] Instance mem_store : PolicyStore MemStore := {
  Set_ := mem_Set; Get := mem_Get; List_ := mem_List; Delete := mem_Delete; MutateDenyRules := mem_MutateDenyRules; table := id
}.

Lemma clonePolicy_id t p m : table_ok m -> m !! t = Some p -> clonePolicy p = p.
Proof. intros Hm E. unfold clonePolicy. rewrite cloneDenyRules_id by by eapply (Hm t p). apply with_rules_id. Qed.

#[export] Instance mem_laws : PolicyStoreLaws MemStore.
Proof.
  split.
  - intros p s Hs. change (mem_Set p s = set_policy p s). unfold mem_Set, set_policy. f_equal.
    destruct (s !! p_Tenant p) as [old|] eqn:E; cbn; [|reflexivity]. rewrite cloneDenyRules_id by by eapply (Hs _ old). done.
  - intros t s Hs. change (mem_Get t s = s !! t). unfold mem_Get. destruct (s !! t) as [p|] eqn:E; cbn; [|done].
    by rewrite (clonePolicy_id t p s).
  - intros s Hs. change (mem_List s = sorted_by p_Tenant (values s)). unfold mem_List. f_equal.
    assert (Hv : Forall (fun p => clonePolicy p = p) (values s)).
    { apply Forall_forall. intros p (t & E)%elem_of_values. by eapply clonePolicy_id. }
    rewrite (Forall_fmap_ext_1 _ id); [by rewrite list_fmap_id|exact Hv].
  - done.
  - intros E t f s Hs Hf. change (table s) with s. cbn [MutateDenyRules mem_store]. unfold mem_MutateDenyRules.
    fold (policy_of t s). rewrite cloneDenyRules_id by by apply policy_of_no_nil.
    destruct (f (p_DenyRules (policy_of t s))) as [rs|e] eqn:Ef; [|done]. cbn [fst snd]. change (table ?x) with x.
    pose proof (Hf _ _ Ef) as Hn. unfold clonePolicy. cbn [p_DenyRules with_rules]. rewrite (cloneDenyRules_id rs) by done. done.
Qed.

(** ** In Postgres *)

(** A row of [network_policies], under its tenant. *)
Record pg_row := mkRow {
  pr_allow_intra_tenant : bool; pr_egress_cidrs : list string; pr_egress_domains : list string; pr_mode : Z;
  pr_allow_metadata : bool; pr_source : string; pr_deny_rules : list NetworkPolicyDenyRule;
}.

Abbreviation PGStore := (gmap string pg_row) (only parsing).

Definition encodeDenyRules (rs : rules) : list NetworkPolicyDenyRule := default (mkRule "" 0 "" "" "") <$> rs.
Definition decodeDenyRules (rs : list NetworkPolicyDenyRule) : rules := Some <$> rs.

(** What [Scan] fills in. *)
Definition scan_policy (t : string) (r : pg_row) : NetworkPolicy :=
  mkPolicy t (pr_allow_intra_tenant r) (pr_egress_cidrs r) (pr_egress_domains r) (pr_allow_metadata r) (pr_mode r) (pr_source r)
    (decodeDenyRules (pr_deny_rules r)).

(** The defaults of the columns. *)
Definition default_row : pg_row := mkRow false [] [] 0 false "" [].

Definition with_deny (rs : list NetworkPolicyDenyRule) (r : pg_row) : pg_row :=
  mkRow (pr_allow_intra_tenant r) (pr_egress_cidrs r) (pr_egress_domains r) (pr_mode r) (pr_allow_metadata r) (pr_source r) rs.

(** INSERT with no rules; ON CONFLICT every column but the rules. *)
Definition pg_Set (p : NetworkPolicy) (s : PGStore) : PGStore :=
  let row rs := mkRow (p_AllowIntraTenant p) (p_EgressCidrs p) (p_EgressDomains p) (p_Mode p) (p_AllowMetadata p) (p_Source p) rs in
  <[p_Tenant p := match s !! p_Tenant p with Some old => row (pr_deny_rules old) | None => row [] end]> s.

Definition pg_Get (t : string) (s : PGStore) : option NetworkPolicy := scan_policy t <$> s !! t.

Definition pg_table (s : PGStore) : gmap string NetworkPolicy := map_imap (fun t r => Some (scan_policy t r)) s.

(** ORDER BY tenant, byte-wise. *)
Definition pg_List (s : PGStore) : list NetworkPolicy := sorted_by p_Tenant (values (pg_table s)).

Definition pg_Delete (t : string) (s : PGStore) : PGStore := delete t s.

(** One transaction: the row is there, locked, and rewritten, or the transaction is rolled back. *)
Definition pg_MutateDenyRules E (t : string) (fn : rules -> rules + E) (s : PGStore) : (NetworkPolicy + E) * PGStore :=
  let row := default default_row (s !! t) in
  let p := scan_policy t row in
  match fn (p_DenyRules p) with
  | inr e => (inr e, s)
  | inl newRules => (inl (with_rules newRules p), <[t := with_deny (encodeDenyRules newRules) row]> s)
  end.

#[export] Instance pg_store : PolicyStore PGStore := {
  Set_ := pg_Set; Get := pg_Get; List_ := pg_List; Delete := pg_Delete; MutateDenyRules := pg_MutateDenyRules; table := pg_table
}.

Lemma pg_table_lookup t s : pg_table s !! t = scan_policy t <$> s !! t.
Proof. unfold pg_table. rewrite map_lookup_imap. by destruct (s !! t). Qed.

Lemma pg_table_insert t r s : pg_table (<[t := r]> s) = <[t := scan_policy t r]> (pg_table s).
Proof.
  apply map_eq. intros u. rewrite pg_table_lookup, !lookup_insert. case_decide as E; [by subst|]. by rewrite pg_table_lookup.
Qed.

Lemma decode_encode rs : no_nil rs -> decodeDenyRules (encodeDenyRules rs) = rs.
Proof. induction 1 as [|r rs [x ->] _ IH]; [done|]. cbn. f_equal. exact IH. Qed.

Lemma pg_policy_of t s : scan_policy t (default default_row (s !! t)) = policy_of t (pg_table s).
Proof. unfold policy_of. rewrite pg_table_lookup. by destruct (s !! t). Qed.

#[export] Instance pg_laws : PolicyStoreLaws PGStore.
Proof.
  split.
  - intros p s Hs. change (pg_table (pg_Set p s) = set_policy p (pg_table s)). unfold pg_Set, set_policy.
    rewrite pg_table_insert, pg_table_lookup. f_equal. by destruct (s !! p_Tenant p).
  - intros t s Hs. change (pg_Get t s = pg_table s !! t). by rewrite pg_table_lookup.
  - done.
  - intros t s. change (pg_table (pg_Delete t s) = delete t (pg_table s)). apply map_eq. intros u.
    unfold pg_Delete. rewrite pg_table_lookup, !lookup_delete. case_decide; [done|]. by rewrite pg_table_lookup.
  - intros E t f s Hs Hf. change (table s) with (pg_table s). cbn [MutateDenyRules pg_store]. unfold pg_MutateDenyRules. rewrite pg_policy_of.
    destruct (f (p_DenyRules (policy_of t (pg_table s)))) as [rs|e] eqn:Ef; [|done]. cbn [fst snd]. change (table ?x) with (pg_table x).
    split; [done|]. rewrite pg_table_insert. f_equal. rewrite <- pg_policy_of.
    unfold scan_policy, with_rules, with_deny. cbn. by rewrite decode_encode by by eapply Hf.
Qed.
