(* ===== verification/NetApi.v ===== *)
(** * What the network-policy API keeps

    Lemmas on stored policies, and the two theorems on the handlers of NetServer.v. *)

From S2P Require Import Prelude GoStrings GoSort GoNet GoNetip GoTime SafeCast Auth NetPolicy NetNormal NetStore NetServer.
From Stdlib Require Import Ascii.
#[local] Open Scope string_scope.
#[local] Open Scope list_scope.
#[local] Open Scope Z_scope.

(** ** Characters a trimmed text does not have *)

Lemma contains_char_reverse c s : contains_char c (reverse s) = contains_char c s.
Proof.
  induction s as [|a s IH]; [done|]. rewrite reverse_cons, contains_char_app, IH. cbn. by rewrite orb_false_r, orb_comm.
Qed.

Lemma lacks_suffix c p s : contains_char c (p +:+ s) = false -> contains_char c s = false.
Proof. rewrite contains_char_app. by intros [_ H]%orb_false_iff. Qed.

Lemma lacks_trim_left c runes s : contains_char c s = false -> contains_char c (trim_left_with runes s) = false.
Proof. destruct (strip_all_suffix (S (String.length s)) runes s) as [p Hp]. rewrite Hp at 1. apply lacks_suffix. Qed.

Lemma lacks_TrimSpace c s : contains_char c s = false -> contains_char c (TrimSpace s) = false.
Proof.
  intros H. unfold TrimSpace. cbv zeta. rewrite contains_char_reverse. apply lacks_trim_left. rewrite contains_char_reverse.
  by apply lacks_trim_left.
Qed.

Lemma lacks_drop c n s : contains_char c s = false -> contains_char c (drop_str n s) = false.
Proof.
  revert s. induction n as [|n IH]; intros s; [by destruct s|]. destruct s as [|a s]; [done|]. cbn. intros [_ H]%orb_false_iff. by apply IH.
Qed.

Lemma lacks_TrimSuffix c s p : contains_char c s = false -> contains_char c (TrimSuffix s p) = false.
Proof.
  intros H. unfold TrimSuffix. destruct (HasSuffix p s); [|done]. rewrite contains_char_reverse. apply lacks_drop.
  by rewrite contains_char_reverse.
Qed.

(** ** Indexes *)

Lemma index_lookup_NoDup {A} (key : A -> string) l k x :
  NoDup (key <$> l) -> index_into key ∅ l !! k = Some x <-> x ∈ l /\ key x = k.
Proof.
  intros Hn. rewrite index_into_lookup. split.
  - destruct (last _) as [y|] eqn:E; [|done]. intros [= <-]. apply last_Some_elem_of, list_elem_of_filter in E. tauto.
  - intros [Hx Hk]. destruct (last (filter (fun x => key x = k) l)) as [y|] eqn:E.
    + apply last_Some_elem_of, list_elem_of_filter in E as [Hy Hyl]. f_equal.
      apply list_elem_of_lookup in Hx as [i Hi]. apply list_elem_of_lookup in Hyl as [j Hj].
      assert (i = j) as <-; [|congruence]. eapply (NoDup_lookup _ _ _ k Hn); rewrite list_lookup_fmap, ?Hi, ?Hj; cbn; congruence.
    + apply last_None in E. assert (Hf : x ∈ filter (fun x => key x = k) l) by by apply list_elem_of_filter. rewrite E in Hf. by apply elem_of_nil in Hf.
Qed.

Lemma index_sorted_values {A} (key : A -> string) m : keyed key m -> index_into key ∅ (sorted_by key (values m)) = m.
Proof.
  intros Hm. apply map_eq. intros k. apply option_eq. intros x. rewrite index_lookup_NoDup by by apply sorted_values_NoDup.
  rewrite elem_of_sorted_by, elem_of_values. split.
  - intros [[k' Hk'] <-]. by rewrite <- (Hm _ _ Hk').
  - intros Hk. split; [by exists k|]. symmetry. by apply Hm.
Qed.

Lemma index_into_union {A} (key : A -> string) m l : index_into key m l = index_into key ∅ l ∪ m.
Proof.
  apply map_eq. intros k. rewrite lookup_union, !index_into_lookup. destruct (last _); cbn; [by destruct (m !! k)|]. by destruct (m !! k).
Qed.

Lemma index_filter {A} (key : A -> string) (P : string -> Prop) `{!forall x, Decision (P (key x))}
    `{!forall p : string * A, Decision ((fun '(k, _) => P k) p)} l :
  NoDup (key <$> l) -> index_into key ∅ (filter (fun x => P (key x)) l) = filter (fun '(k, _) => P k) (index_into key ∅ l).
Proof.
  intros Hn. apply map_eq. intros k. apply option_eq. intros x. rewrite map_lookup_filter_Some, !index_lookup_NoDup; [|done|].
  - rewrite list_elem_of_filter. naive_solver.
  - eapply sublist_NoDup; [exact Hn|]. apply fmap_sublist, sublist_filter.
Qed.

(** ** Compilation, part by part *)

(** [strings.ToLower] keeps the protocol names and makes no slash, colon or blank. *)
Record lower_ok (ToLower : string -> string) : Prop := {
  lo_names s : s ∈ [""; "tcp"; "udp"] -> ToLower s = s;
  lo_chars c s : c ∈ ["/"; ":"; " "]%char -> contains_char c s = false -> contains_char c (ToLower s) = false;
}.

Lemma lower_string_chars c s : c ∈ ["/"; ":"; " "]%char -> contains_char c s = false -> contains_char c (lower_string s) = false.
Proof.
  intros Hc. induction s as [|a s IH]; [done|]. intros [Ha Hs]%orb_false_iff. cbn [lower_string contains_char]. apply orb_false_iff.
  split; [|by apply IH]. rewrite !elem_of_cons, elem_of_nil in Hc.
  destruct Hc as [->|[->|[->|[]]]]; revert Ha; destruct a as [[] [] [] [] [] [] [] []]; vm_compute; done.
Qed.

Lemma lower_string_ok : lower_ok lower_string.
Proof. split; [apply lower_names|apply lower_string_chars]. Qed.

Section Api.
Context (ToLower : string -> string) (Hlow : lower_ok ToLower).

Lemma domains_loop_total ds seen : Forall domain_ok ds -> exists s, domains_loop ToLower seen ds = inl s.
Proof.
  revert seen. induction ds as [|d ds IH]; intros seen Hd; [by eexists|]. apply Forall_cons in Hd as [(_ & H1 & H2 & H3) Hd].
  cbn [domains_loop]. cbv zeta. destruct (String.eqb _ ""); [by apply IH|].
  assert (Hl : forall c, c ∈ ["/"; ":"; " "]%char -> contains_char c d = false -> contains_char c (TrimSuffix (ToLower (TrimSpace d)) ".") = false).
  { intros c Hc H. apply lacks_TrimSuffix, (lo_chars _ Hlow), lacks_TrimSpace, H. exact Hc. }
  rewrite !Hl by (done || rewrite !elem_of_cons; auto). by apply IH.
Qed.

Lemma compileDomains_total ds : Forall domain_ok ds -> exists doms, compileDomains ToLower ds = inl doms.
Proof. intros Hd. unfold compileDomains. destruct (domains_loop_total ds ∅ Hd) as [s ->]. by eexists. Qed.

Lemma compileDomains_ok raw doms : compileDomains ToLower raw = inl doms -> Forall domain_ok doms.
Proof.
  unfold compileDomains. rewrite result_bind_inl. intros (s & Hs & [= <-]). apply domains_loop_ok in Hs; [|apply set_Forall_empty].
  apply Forall_forall. intros d Hd%elem_of_sorted_by. by apply Hs, elem_of_elements.
Qed.

Lemma Compile_inl p c :
  Compile ToLower (Some p) = inl c <->
  TrimSpace (p_Tenant p) <> "" /\ exists ps doms ds m,
    compileCIDRs (p_EgressCidrs p) = inl ps /\ compileDomains ToLower (p_EgressDomains p) = inl doms /\
    compileDenyRules ToLower (p_DenyRules p) = inl ds /\ resolve_mode (p_Mode p) = inl m /\
    c = mkCompiled (TrimSpace (p_Tenant p)) (p_AllowIntraTenant p) ps doms (p_AllowMetadata p) m (negb (m =? MODE_ENFORCE)) ds.
Proof.
  unfold Compile. cbn [required mbind result_bind]. cbv zeta. destruct (String.eqb_spec (TrimSpace (p_Tenant p)) "") as [E|E].
  { split; [done|]. by intros [? _]. }
  split.
  - intros Hc. apply result_bind_inl in Hc as (ps & Hps & Hc). apply result_bind_inl in Hc as (doms & Hdoms & Hc).
    apply result_bind_inl in Hc as (ds & Hds & Hc). apply result_bind_inl in Hc as (m & Hm & [= <-]). split; [done|]. by exists ps, doms, ds, m.
  - intros (_ & ps & doms & ds & m & -> & -> & -> & -> & ->). reflexivity.
Qed.

Lemma resolve_mode_idem m m' : resolve_mode m = inl m' -> resolve_mode m' = inl m'.
Proof.
  unfold resolve_mode. destruct (m =? MODE_UNSPECIFIED) eqn:E0; [by intros [= <-]|].
  destruct ((m =? MODE_LOG_ONLY) || (m =? MODE_ENFORCE)) eqn:Em; [|done]. intros [= <-]. by rewrite E0, Em.
Qed.

(** ** Stored policies *)

(** The rules are those that printing [ds] leaves. *)
Record rules_stored (raw : rules) (ds : list DenyRule) : Prop := {
  rs_print : raw = Some ∘ rule_proto <$> ds;
  rs_normal : Forall rule_normal ds;
  rs_expiry : Forall (fun d => expiry_printable (d_ExpiresAt d)) ds;
  rs_sorted : StronglySorted (key_le cidr_key) ds;
  rs_distinct : NoDup (cidr_key <$> ds);
}.

Record policy_stored (t : string) (p : NetworkPolicy) : Prop := {
  ps_tenant : p_Tenant p = t;
  ps_name : TrimSpace t = t /\ t <> "";
  ps_cidrs : exists ps, compileCIDRs (p_EgressCidrs p) = inl ps;
  ps_domains : Forall domain_ok (p_EgressDomains p);
  ps_mode : exists m, resolve_mode (p_Mode p) = inl m;
  ps_rules : exists ds, rules_stored (p_DenyRules p) ds;
}.

Definition all_stored (m : gmap string NetworkPolicy) : Prop := map_Forall policy_stored m.

Lemma rules_stored_nil : rules_stored [] [].
Proof. split; constructor. Qed.

Lemma rules_stored_no_nil raw ds : rules_stored raw ds -> no_nil raw.
Proof. intros [-> _ _ _ _]. apply Forall_forall. intros r (d & -> & _)%list_elem_of_fmap. by eexists. Qed.

Lemma all_stored_ok m : all_stored m -> table_ok m.
Proof.
  intros Hm t p Hp. destruct (Hm t p Hp) as [Ht _ _ _ _ [ds Hds]]. split; [done|]. by eapply rules_stored_no_nil.
Qed.

Lemma rules_stored_parsed raw ds : rules_stored raw ds -> rules_parsed ToLower raw ds.
Proof. intros [-> Hn He _ _]. by apply rules_parsed_print; [apply (lo_names _ Hlow)|..]. Qed.

Lemma rules_stored_compile raw ds : rules_stored raw ds -> compileDenyRules ToLower raw = inl ds.
Proof. intros [-> Hn He Hs Hd]. by apply compileDenyRules_print; [apply (lo_names _ Hlow)|..]. Qed.

(** A stored policy compiles, under its tenant and to its rules. *)
Lemma stored_compiles t p :
  policy_stored t p -> exists c, Compile ToLower (Some p) = inl c /\ c_Tenant c = t /\ Some ∘ rule_proto <$> c_DenyRules c = p_DenyRules p.
Proof.
  intros [Ht [Htrim Hne] [ps Hps] Hd [m Hm] [ds Hds]]. destruct (compileDomains_total _ Hd) as [doms Hdoms]. subst t.
  eexists. split.
  - apply Compile_inl. split; [by rewrite Htrim|]. exists ps, doms, ds, m. split_and!; [done|done|by apply rules_stored_compile|done|reflexivity].
  - cbn. split; [done|]. symmetry. apply Hds.
Qed.

(** What [ToProto] prints is stored, with whatever stored rules. *)
Lemma compiled_stored p c rs ds :
  Compile ToLower (Some p) = inl c -> rules_stored rs ds -> policy_stored (c_Tenant c) (with_rules rs (ToProto c)).
Proof.
  intros Hc Hds. destruct (proj1 (Compile_inl p c) Hc) as (Hne & ps & doms & es & m & Hps & Hdoms & _ & Hm & ->).
  split; cbn [with_rules ToProto p_Tenant p_EgressCidrs p_EgressDomains p_Mode p_DenyRules c_Tenant c_EgressCIDRs c_EgressDomains c_Mode].
  - done.
  - split; [apply TrimSpace_idem|done].
  - exists ps. by eapply compileCIDRs_stable.
  - by eapply compileDomains_ok.
  - exists m. by eapply resolve_mode_idem.
  - by exists ds.
Qed.

Lemma policy_of_stored t m : all_stored m -> exists ds, rules_stored (p_DenyRules (policy_of t m)) ds.
Proof.
  intros Hm. unfold policy_of. destruct (m !! t) as [p|] eqn:E; [by apply (ps_rules _ _ (Hm t p E))|]. exists []. apply rules_stored_nil.
Qed.

Lemma set_stored m p c : all_stored m -> Compile ToLower (Some p) = inl c -> all_stored (set_policy (ToProto c) m).
Proof.
  intros Hm Hc. apply map_Forall_insert_2; [|done].
  assert (exists ds, rules_stored (default [] (p_DenyRules <$> m !! p_Tenant (ToProto c))) ds) as [ds Hds].
  { destruct (m !! p_Tenant (ToProto c)) as [q|] eqn:E; [by apply (ps_rules _ _ (Hm _ q E))|]. exists []. apply rules_stored_nil. }
  change (p_Tenant (ToProto c)) with (c_Tenant c). by eapply compiled_stored.
Qed.

(** A tenant's first rules make it a policy. *)
Lemma mutate_stored m t rs ds :
  all_stored m -> TrimSpace t = t -> t <> "" -> rules_stored rs ds -> all_stored (<[t := with_rules rs (policy_of t m)]> m).
Proof.
  intros Hm Ht Hne Hds. apply map_Forall_insert_2; [|done]. unfold policy_of. destruct (m !! t) as [p|] eqn:E; cbn [default].
  - destruct (Hm t p E) as [H1 H2 H3 H4 H5 _]. split; cbn; try done. by exists ds.
  - split; cbn [p_Tenant p_EgressCidrs p_EgressDomains p_Mode p_DenyRules with_rules blankPolicy].
    + done.
    + done.
    + exists []. vm_compute. reflexivity.
    + constructor.
    + exists MODE_LOG_ONLY. reflexivity.
    + by exists ds.
Qed.

(** ** A patch *)

(** Rules by the text of their prefix, the last of the list winning. *)
Definition rules_index (raw : rules) : gmap string DenyRule :=
  match rules_loop ToLower ∅ raw with inl m => m | inr _ => ∅ end.

(** What a caller may add: ports in the width of their field, expiries in whole seconds of a year of four digits. *)
Definition rule_storable (r : option NetworkPolicyDenyRule) : Prop :=
  port_u32 r /\ match r with Some r => forall d, compile_rule ToLower r = inl d -> expiry_printable (d_ExpiresAt d) | None => True end.

Lemma rules_index_parsed raw ds : rules_parsed ToLower raw ds -> rules_index raw = index_into cidr_key ∅ ds.
Proof.
  intros Hp. unfold rules_index. destruct (rules_loop ToLower ∅ raw) as [m|e] eqn:E.
  - apply rules_loop_spec in E as (es & Hes & ->). f_equal. revert es Hes. induction Hp; intros es Hes; inversion Hes; subst; [done|by auto|].
    f_equal; [congruence|by auto].
  - assert (H : rules_loop ToLower ∅ raw = inl (index_into cidr_key ∅ ds)) by (apply rules_loop_spec; by exists ds). congruence.
Qed.

Lemma rules_parsed_app l k ds es : rules_parsed ToLower l ds -> rules_parsed ToLower k es -> rules_parsed ToLower (l ++ k) (ds ++ es).
Proof. intros Hl Hk. induction Hl; cbn; [done|by constructor|by constructor]. Qed.

Lemma storable_expiry raw ds :
  Forall rule_storable raw -> rules_parsed ToLower raw ds -> Forall (fun d => expiry_printable (d_ExpiresAt d)) ds.
Proof.
  intros Hs Hp. induction Hp as [|raw ds _ IH|r raw d ds Hd _ IH]; [constructor|apply Forall_cons in Hs as [_ Hs]; auto|].
  apply Forall_cons in Hs as [[_ Hr] Hs]. constructor; [by apply Hr|auto].
Qed.

Lemma storable_ports raw : Forall rule_storable raw -> Forall port_u32 raw.
Proof. intros H. eapply Forall_impl; [exact H|]. by intros r [Hr _]. Qed.

(** The stored rule's text normalizes to its key. *)
Lemma normalize_stored d : rule_normal d -> normalizeDenyCIDR (rule_cidr (Some (rule_proto d))) = Some (cidr_key d).
Proof.
  intros [Hc _ _ _]. unfold normalizeDenyCIDR. cbn [rule_cidr rule_proto r_Cidr]. cbv zeta.
  rewrite TrimSpace_graphic by (apply Prefix_String_graphic, Hc).
  destruct (String.eqb_spec (Prefix_String (d_CIDR d)) "") as [E|_].
  { pose proof (Prefix_String_slash (d_CIDR d)) as H. by rewrite E in H. }
  by rewrite parse_cidr_String.
Qed.

Lemma kept_stored remove raw ds :
  rules_stored raw ds -> filter (kept_rule remove) raw = Some ∘ rule_proto <$> filter (fun d => cidr_key d ∉ remove) ds.
Proof.
  intros [-> Hn _ _ _]. induction Hn as [|d ds Hd _ IH]; [done|]. rewrite fmap_cons, !filter_cons, IH.
  assert (Hk : kept_rule remove ((Some ∘ rule_proto) d) <-> cidr_key d ∉ remove).
  { unfold kept_rule. cbn [compose]. by rewrite normalize_stored. }
  destruct (decide (kept_rule _ _)), (decide (cidr_key d ∉ remove)); tauto || done.
Qed.

Lemma sorted_filter {A} (R : relation A) (P : A -> Prop) `{!forall x, Decision (P x)} l : StronglySorted R l -> StronglySorted R (filter P l).
Proof.
  induction 1 as [|x l _ IH Hx]; [constructor|]. rewrite filter_cons. destruct (decide (P x)); [|done]. constructor; [done|].
  apply Forall_forall. intros y [_ Hy]%list_elem_of_filter. rewrite Forall_forall in Hx. by apply Hx.
Qed.

Lemma filter_same_length {A} (P : A -> Prop) `{!forall x, Decision (P x)} l : length (filter P l) = length l -> filter P l = l.
Proof.
  induction l as [|x l IH]; [done|]. rewrite filter_cons. pose proof (length_filter P l) as Hle.
  destruct (decide (P x)); cbn; [intros [= Hl]; by rewrite IH|lia].
Qed.

Lemma rules_stored_filter raw ds (P : DenyRule -> Prop) `{!forall d, Decision (P d)} :
  rules_stored raw ds -> rules_stored (Some ∘ rule_proto <$> filter P ds) (filter P ds).
Proof.
  intros [_ Hn He Hs Hd]. split.
  - done.
  - apply Forall_forall. intros d [_ Hin]%list_elem_of_filter. rewrite Forall_forall in Hn. by apply Hn.
  - apply Forall_forall. intros d [_ Hin]%list_elem_of_filter. rewrite Forall_forall in He. by apply He.
  - by apply sorted_filter.
  - eapply sublist_NoDup; [exact Hd|]. apply fmap_sublist, sublist_filter.
Qed.

(** Compiling stored rules and storable additions gives rules that can be stored, indexed as the request says. *)
Lemma merge_stored kept ks add es :
  rules_stored kept ks -> Forall rule_storable add -> rules_parsed ToLower add es ->
  exists ds, compileDenyRules ToLower (kept ++ add) = inl ds /\ rules_stored (Some ∘ rule_proto <$> ds) ds /\
    rules_index (Some ∘ rule_proto <$> ds) = rules_index add ∪ index_into cidr_key ∅ ks.
Proof.
  intros Hk Ha Hes. pose proof (rules_stored_parsed _ _ Hk) as Hks. pose proof (rules_parsed_app _ _ _ _ Hks Hes) as Hall.
  set (ds := sorted_by cidr_key (values (index_into cidr_key ∅ (ks ++ es)))).
  assert (Hc : compileDenyRules ToLower (kept ++ add) = inl ds) by (apply compileDenyRules_spec; by exists (ks ++ es)).
  assert (Hports : Forall port_u32 (kept ++ add)).
  { apply Forall_app. split; [|by apply storable_ports]. rewrite (rs_print _ _ Hk). apply Forall_fmap.
    eapply Forall_impl; [apply (rs_normal _ _ Hk)|]. intros d [_ Hp _ _]. cbn. split; cbn [it_min it_max u32 it_bits it_signed]; lia. }
  destruct (compileDenyRules_form ToLower _ _ Hports Hc) as (Hn & Hs & Hd).
  assert (He : Forall (fun d => expiry_printable (d_ExpiresAt d)) ds).
  { apply sorted_index_Forall, Forall_app. split; [apply (rs_expiry _ _ Hk)|by eapply storable_expiry]. }
  assert (Hst : rules_stored (Some ∘ rule_proto <$> ds) ds) by (split; done).
  exists ds. split; [done|]. split; [done|]. rewrite (rules_index_parsed _ _ (rules_stored_parsed _ _ Hst)), (rules_index_parsed _ _ Hes).
  unfold ds. rewrite index_sorted_values by apply index_into_keyed, keyed_empty.
  unfold index_into at 1. rewrite foldl_app. change (foldl _ _ es) with (index_into cidr_key (index_into cidr_key ∅ ks) es).
  apply index_into_union.
Qed.

(** The patch function on stored rules. *)
Lemma patch_rules_spec t add remove raw es :
  t <> "" -> TrimSpace t = t -> (exists ds, rules_stored raw ds) -> Forall rule_storable add -> rules_parsed ToLower add es ->
  match patch_rules ToLower t add remove raw with
  | inl rs => (exists ds, rules_stored rs ds) /\ rules_index rs = rules_index add ∪ filter (fun '(k, _) => k ∉ remove) (rules_index raw)
  | inr e => e = RuleNotFound /\ add = [] /\ filter (kept_rule remove) raw = raw
  end.
Proof.
  intros Hne Ht [ds Hds] Ha Hes. unfold patch_rules. cbv zeta.
  destruct ((length add =? 0)%nat && _) eqn:E.
  - apply andb_true_iff in E as [E1%Nat.eqb_eq E2%Nat.eqb_eq]. apply length_zero_iff_nil in E1. split_and!; [done|done|].
    by apply filter_same_length.
  - rewrite (kept_stored _ _ _ Hds).
    destruct (merge_stored _ _ add es (rules_stored_filter _ _ (fun d => cidr_key d ∉ remove) Hds) Ha Hes) as (ns & Hc & Hst & Hix).
    assert (HC : Compile ToLower (Some (denying_policy t ((Some ∘ rule_proto <$> filter (fun d => cidr_key d ∉ remove) ds) ++ add)))
      = inl (mkCompiled t false [] [] false MODE_LOG_ONLY true ns)).
    { apply Compile_inl. split; [change (TrimSpace t <> ""); by rewrite Ht|]. exists [], [], ns, MODE_LOG_ONLY. split_and!; [vm_compute; reflexivity..|exact Hc|reflexivity|].
      cbn [denying_policy with_rules blankPolicy p_Tenant p_AllowIntraTenant p_AllowMetadata]. by rewrite Ht. }
    rewrite HC. cbn [ToProto p_DenyRules c_DenyRules]. split; [by exists ns|]. change (λ d, Some (rule_proto d)) with (Some ∘ rule_proto).
    rewrite Hix. f_equal. rewrite (rules_index_parsed _ _ (rules_stored_parsed _ _ Hds)).
    apply (index_filter cidr_key (fun k => k ∉ remove)), (rs_distinct _ _ Hds).
Qed.

(** ** The handlers over a store *)

Context {S : Type} `{PolicyStoreLaws S}.

Lemma patch_no_nil t add remove rs rs' : patch_rules ToLower t add remove rs = inl rs' -> no_nil rs'.
Proof.
  unfold patch_rules. cbv zeta. destruct (_ && _); [done|]. destruct (Compile _ _) as [c|]; [|done]. intros [= <-].
  apply Forall_forall. intros r (d & -> & _)%list_elem_of_fmap. by eexists.
Qed.

Lemma denying_parsed t add c : Compile ToLower (Some (denying_policy t add)) = inl c -> exists es, rules_parsed ToLower add es.
Proof.
  intros Hc. destruct (proj1 (Compile_inl _ _) Hc) as (_ & _ & _ & ds & _ & _ & _ & Hds & _). apply compileDenyRules_spec in Hds as (es & Hes & _).
  by exists es.
Qed.

(** The atomic step of a patch, on stored policies. *)
Lemma mutate_patched t add remove s r s' :
  t <> "" -> TrimSpace t = t -> all_stored (table s) -> Forall rule_storable add -> (exists es, rules_parsed ToLower add es) ->
  MutateDenyRules mutate_error t (patch_rules ToLower t add remove) s = (r, s') ->
  match r with
  | inl q => table s' = <[t := q]> (table s) /\ q = with_rules (p_DenyRules q) (policy_of t (table s)) /\
      (exists ds, rules_stored (p_DenyRules q) ds) /\
      rules_index (p_DenyRules q) = rules_index add ∪ filter (fun '(k, _) => k ∉ remove) (rules_index (p_DenyRules (policy_of t (table s))))
  | inr e => e = RuleNotFound /\ table s' = table s
  end.
Proof.
  intros Hne Ht Hs Ha [es Hes] Hm.
  pose proof (Mutate_law mutate_error t (patch_rules ToLower t add remove) s (all_stored_ok _ Hs) (patch_no_nil t add remove)) as Hlaw.
  pose proof (patch_rules_spec t add remove _ es Hne Ht (policy_of_stored t _ Hs) Ha Hes) as Hp.
  rewrite Hm in Hlaw. cbn [fst snd] in Hlaw. revert Hlaw Hp. generalize (patch_rules ToLower t add remove (p_DenyRules (policy_of t (table s)))).
  intros [rs|e] [-> Htab] Hp; [|by destruct Hp as [-> _]]. destruct Hp as [Hst Hix]. by split_and!.
Qed.

(** C21: A patch does what it names, once, or nothing.  Over stored policies, when the additions can be stored: an accepted patch is an
    administrator's; the rule of each prefix afterwards is the last one added for it, or else the old one unless it was removed, and
    everything else of the policy and every other tenant's policy is as before.  A refused patch changes nothing, and the merge of
    stored and added rules never fails. *)
Theorem patch_exact ctx tenant add remove_cidrs s :
  all_stored (table s) -> Forall rule_storable add ->
  let t := TrimSpace tenant in
  let '(r, s') := PatchNetworkPolicyDenyRules ToLower ctx tenant add remove_cidrs s in
  match r with
  | inl q =>
      RequireRole ctx RoleAdmin = None /\ table s' = <[t := q]> (table s) /\ q = with_rules (p_DenyRules q) (policy_of t (table s)) /\
      exists remove, normalize_all normalizeDenyCIDR remove_cidrs = inl remove /\
        rules_index (p_DenyRules q) = rules_index add ∪ filter (fun '(k, _) => k ∉ remove) (rules_index (p_DenyRules (policy_of t (table s))))
  | inr e => table s' = table s /\ forall e', e <> Internal e'
  end.
Proof.
  intros Hs Ha. cbv zeta. unfold PatchNetworkPolicyDenyRules. destruct (RequireRole ctx RoleAdmin) as [e|]; [done|]. cbv zeta.
  destruct (String.eqb_spec (TrimSpace tenant) "") as [E|Hne]; [done|]. set (t := TrimSpace tenant) in *.
  destruct ((length add =? 0)%nat && _); [done|].
  destruct (Compile ToLower _) as [c|] eqn:Hc; [|done].
  destruct (normalize_all normalizeDenyCIDR remove_cidrs) as [remove|]; [|done].
  apply denying_parsed in Hc. destruct (MutateDenyRules _ _ _ _) as [r s'] eqn:Hm.
  pose proof (mutate_patched t add remove s r s' Hne (TrimSpace_idem tenant) Hs Ha Hc Hm) as Hp.
  destruct r as [q|e]; [|by destruct Hp as [-> Hp]]. destruct Hp as (H1 & H2 & _ & H3). split_and!; [done|done|done|]. by exists remove.
Qed.

(** A call whose rules can be stored. *)
Definition call_storable (c : api_call) : Prop := match c with APatch _ add _ => Forall rule_storable add | _ => True end.

Lemma serve_stored ctx c s : all_stored (table s) -> call_storable c -> all_stored (table (serve ToLower ctx c s).2).
Proof.
  intros Hs Hc. destruct c as [req|tenant add remove|tenant|tenant|]; cbn [serve].
  - unfold SetNetworkPolicy. destruct (RequireRole ctx RoleAdmin); [done|]. destruct req as [p|]; [|done].
    destruct (Compile ToLower (Some p)) as [c|] eqn:Ec; [|done]. cbn. rewrite Set_law by by apply all_stored_ok. by eapply set_stored.
  - cbn in Hc. unfold PatchNetworkPolicyDenyRules. destruct (RequireRole ctx RoleAdmin); [done|]. cbv zeta.
    destruct (String.eqb_spec (TrimSpace tenant) "") as [|Hne]; [done|]. set (t := TrimSpace tenant) in *. destruct (_ && _); [done|].
    destruct (Compile ToLower _) as [c|] eqn:Ec; [|done]. destruct (normalize_all _ _) as [rm|]; [|done].
    apply denying_parsed in Ec. destruct (MutateDenyRules _ _ _ _) as [r s'] eqn:Hm.
    pose proof (mutate_patched t add rm s r s' Hne (TrimSpace_idem tenant) Hs Hc Ec Hm) as Hp. cbn [snd].
    destruct r as [q|e]; [|by destruct Hp as [_ ->]]. destruct Hp as (-> & -> & [ds Hds] & _).
    eapply mutate_stored; [done|apply TrimSpace_idem|done|exact Hds].
  - unfold DeleteNetworkPolicy. destruct (RequireRole ctx RoleAdmin); [done|]. destruct (String.eqb tenant ""); [done|]. cbn.
    rewrite Delete_law. by apply map_Forall_delete.
  - done.
  - done.
Qed.

Lemma serve_all_stored calls s :
  all_stored (table s) -> Forall (fun p => call_storable p.2) calls -> all_stored (table (serve_all ToLower calls s).2).
Proof.
  revert s. induction calls as [|[ctx c] calls IH]; intros s Hs Hc; [done|]. apply Forall_cons in Hc as [Hc Hcs]. cbn [serve_all].
  pose proof (serve_stored ctx c s Hs Hc) as H1. destruct (serve ToLower ctx c s) as [a s1]. cbn in H1.
  specialize (IH s1 H1 Hcs). by destruct (serve_all ToLower calls s1).
Qed.

(** C22: No stored policy is skipped, as long as the rules that are added can be stored: their ports are 32-bit and their expiries, if
    any, whole seconds of a UTC year of four digits.  After any such calls of the API from an empty store, by whatever callers, every
    policy the enforcer lists compiles, under its own tenant and to exactly the rules that are stored, and no two listed policies share a
    tenant.  An expiry whose UTC form lies after the year 9999 is accepted too, and blocks the policy ([far_expiry_blocks_patches]). *)
Theorem policies_stay_effective calls s :
  table s = ∅ -> Forall (fun p => call_storable p.2) calls ->
  let l := List_ (serve_all ToLower calls s).2 in
  NoDup (p_Tenant <$> l) /\
  Forall (fun p => exists c, Compile ToLower (Some p) = inl c /\ c_Tenant c = p_Tenant p
    /\ Some ∘ rule_proto <$> c_DenyRules c = p_DenyRules p) l.
Proof.
  intros Hs Hc. cbv zeta. assert (Hempty : all_stored (table s)) by (rewrite Hs; apply map_Forall_empty).
  pose proof (serve_all_stored calls s Hempty Hc) as Hst. rewrite List_law by by apply all_stored_ok. split.
  - apply sorted_values_NoDup. intros t p Hp. symmetry. apply (ps_tenant _ _ (Hst t p Hp)).
  - apply Forall_forall. intros p [t Hp]%elem_of_sorted_by%elem_of_values. destruct (Hst t p Hp) as [Ht _ _ _ _ _].
    destruct (stored_compiles t p (Hst t p Hp)) as (c & Hcomp & Hten & Hr). exists c. split_and!; [done|congruence|done].
Qed.
End Api.

(** ** A tenant's first patches *)

Definition admin : Auth.Context := mkContext None (Some "root") (Some [RoleAdmin]) None None None None None.
Definition nobody : Auth.Context := mkContext None None None None None None None None.

Definition cve : option NetworkPolicyDenyRule := Some (mkRule "1.2.3.4" 443 "tcp" "cve" "2030-01-01T00:00:00Z").

Definition acme_calls : list (Auth.Context * api_call) :=
  [(admin, APatch " acme " [cve] []); (nobody, ADelete "acme");
   (admin, ASet (Some (mkPolicy "acme" true ["10.1.2.3/8"] ["API.github.com."] false MODE_ENFORCE "" [])))].

Definition acme_store : gmap string NetworkPolicy := (serve_all lower_string acme_calls ∅).2.

Example acme_stored :
  acme_store = {["acme" := mkPolicy "acme" true ["10.0.0.0/8"] ["api.github.com"] false MODE_ENFORCE ""
    [Some (mkRule "1.2.3.4/32" 443 "tcp" "cve" "2030-01-01T00:00:00Z")]]}.
Proof. vm_compute. reflexivity. Qed.

Lemma cve_storable : Forall (rule_storable lower_string) [cve].
Proof.
  apply Forall_singleton. split; [split; cbn [it_min it_max u32 it_bits it_signed]; cbn; lia|]. intros d Hd.
  assert (compile_rule lower_string (mkRule "1.2.3.4" 443 "tcp" "cve" "2030-01-01T00:00:00Z")
    = inl (mkDeny (mkPrefix (AddrV4 [1; 2; 3; 4]) 32) 443 6 "cve" (UnixTime (1893456000 * Second)))) as E by (vm_compute; reflexivity).
  rewrite E in Hd. injection Hd as <-. right. split; [vm_compute; split; [discriminate|reflexivity]|vm_compute; reflexivity].
Qed.

Lemma acme_storable : Forall (fun p => call_storable lower_string p.2) acme_calls.
Proof. constructor; [exact cve_storable|]. constructor; [exact I|]. constructor; [exact I|constructor]. Qed.

Lemma acme_all_stored : all_stored (table acme_store).
Proof.
  pose proof (serve_all_stored lower_string lower_string_ok (S := gmap string NetworkPolicy) acme_calls ∅ (map_Forall_empty _) acme_storable) as H.
  exact H.
Qed.

Lemma policies_stay_effective_witness :
  Forall (fun p => call_storable lower_string p.2) acme_calls /\
  Forall (fun p => exists c, Compile lower_string (Some p) = inl c /\ c_Tenant c = p_Tenant p) (List_ acme_store).
Proof.
  split; [exact acme_storable|].
  pose proof (policies_stay_effective lower_string lower_string_ok (S := gmap string NetworkPolicy) acme_calls ∅ eq_refl acme_storable) as [_ Hl].
  eapply Forall_impl; [exact Hl|]. intros p (c & H1 & H2 & _). by exists c.
Defined.

(** Removing the rule by its bare address while adding another leaves exactly the other. *)
Definition second : option NetworkPolicyDenyRule := Some (mkRule "10.0.0.0/8" 0 "" "" "").

Lemma second_storable : Forall (rule_storable lower_string) [second].
Proof.
  apply Forall_singleton. split; [split; cbn [it_min it_max u32 it_bits it_signed]; cbn; lia|]. intros d Hd.
  assert (compile_rule lower_string (mkRule "10.0.0.0/8" 0 "" "" "") = inl (mkDeny (mkPrefix (AddrV4 [10; 0; 0; 0]) 8) 0 0 "" 0)) as E
    by (vm_compute; reflexivity).
  rewrite E in Hd. injection Hd as <-. left. reflexivity.
Qed.

Lemma patch_exact_witness :
  all_stored (table acme_store) /\ Forall (rule_storable lower_string) [second] /\
  match (PatchNetworkPolicyDenyRules lower_string admin "acme" [second] [" 1.2.3.4 "] acme_store).1 with
  | inl q => p_Mode q = MODE_ENFORCE
  | inr _ => False
  end.
Proof.
  split; [exact acme_all_stored|]. split; [exact second_storable|].
  pose proof (patch_exact lower_string lower_string_ok (S := gmap string NetworkPolicy) admin "acme" [second] [" 1.2.3.4 "] acme_store
    acme_all_stored second_storable) as Hp. cbv zeta in Hp.
  assert (Hin : match (PatchNetworkPolicyDenyRules lower_string admin "acme" [second] [" 1.2.3.4 "] acme_store).1 with
    | inl _ => true | inr _ => false end = true) by (vm_compute; reflexivity).
  assert (Hmode : p_Mode (policy_of (TrimSpace "acme") acme_store) = MODE_ENFORCE) by (vm_compute; reflexivity).
  revert Hin Hp. generalize (PatchNetworkPolicyDenyRules lower_string admin "acme" [second] [" 1.2.3.4 "] acme_store).
  intros [[q|e] s'] Hin Hp; [|discriminate Hin]. cbn [fst]. destruct Hp as (_ & _ & Hq & _). rewrite Hq. exact Hmode.
Defined.

(** ** Answers that differ from what is stored *)

(** [SetNetworkPolicy] answers with the rules of its request, which the store drops. *)
Example set_echoes_its_rules :
  let req := mkPolicy "a" false [] [] false 0 "" [Some (mkRule "1.2.3.4" 0 "" "" "")] in
  let '(r, s) := SetNetworkPolicy lower_string admin (Some req) (∅ : gmap string NetworkPolicy) in
  match r with
  | inl p => length (p_DenyRules p) = 1%nat /\ (p_DenyRules <$> s !! "a") = Some []
  | inr _ => False
  end.
Proof. vm_compute. done. Qed.

(** A rule whose offset moves its expiry past the year 9999 is accepted; from then on every patch of that tenant that keeps it fails. *)
Example far_expiry_blocks_patches :
  let far := Some (mkRule "1.2.3.4" 0 "" "" "9999-12-31T23:59:59-01:00") in
  let '(_, s) := PatchNetworkPolicyDenyRules lower_string admin "a" [far] [] (∅ : gmap string NetworkPolicy) in
  let '(r, s2) := PatchNetworkPolicyDenyRules lower_string admin "a" [second] [] s in
  r = inr (Internal (InvalidExpiry "10000-01-01T00:59:59Z")) /\ s2 = s /\
  (match s !! "a" with Some p => Compile lower_string (Some p) | None => inr PolicyNil end) = inr (InvalidExpiry "10000-01-01T00:59:59Z").
Proof. vm_compute. done. Qed.
