(* ===== verification/NetBpf.v ===== *)
(** * What the network policy puts into the kernel's maps, and its byte layouts

    internal/netbpf: policymap.go (entries of the maps), veth.go (which interface), events.go, flows.go and
    the layout helpers of loader.go and sigmap.go.  The byte order of the machine is an argument. *)

From S2P Require Import Prelude GoStrings GoSort GoNet GoNetip SafeCast NetPolicy.
From Stdlib Require Import Ascii.
#[local] Open Scope string_scope.
#[local] Open Scope list_scope.
#[local] Open Scope Z_scope.

(** ** Entries *)

Definition ModeLogOnly : Z := 1.
Definition ModeEnforce : Z := 2.

Record PolicyConfig := mkConfig { cfg_TenantID : Z; cfg_Mode : Z; cfg_AllowIntra : Z; cfg_AllowMetadata : Z }.

(** A tenant-scoped destination prefix, the key of both tries. *)
Record EgressEntry := mkEgress { e_PrefixLen : Z; e_TenantID : Z; e_Addr : list Z }.

Definition DenyKey : Type := EgressEntry.

Record DenyEntry := mkDenyEntry { de_Key : DenyKey; de_Port : Z; de_Proto : Z }.

#[export] Instance config_eq_dec : EqDecision PolicyConfig.
Proof. solve_decision. Defined.
#[export] Instance egress_eq_dec : EqDecision EgressEntry.
Proof. solve_decision. Defined.
#[export] Instance egress_countable : Countable EgressEntry.
Proof.
  refine (inj_countable' (fun e => (e_PrefixLen e, e_TenantID e, e_Addr e)) (fun '(n, t, a) => mkEgress n t a) _).
  by intros [].
Defined.
#[export] Instance deny_eq_dec : EqDecision DenyEntry.
Proof. solve_decision. Defined.

Definition tenantPrefixBits : Z := 32.

(** The key of a prefix: 32 bits of tenant, then the prefix; [None] for IPv6. *)
Definition entry_key (tenantID : Z) (p : Prefix) : option EgressEntry :=
  match pf_addr p with
  | AddrV4 q => Some (mkEgress (wrap u32 (tenantPrefixBits + U32 (pf_bits p))) tenantID q)
  | AddrV6 _ _ => None
  end.

Definition CompileDeny (tenantID : Z) (c : CompiledPolicy) : option (list DenyEntry) :=
  mapM (fun d => (fun k => mkDenyEntry k (d_Port d) (d_Proto d)) <$> entry_key tenantID (d_CIDR d)) (c_DenyRules c).

Definition CompileConfig (tenantID : Z) (c : CompiledPolicy) : PolicyConfig :=
  let mode := U8 (c_Mode c) in
  let mode := if negb (mode =? ModeLogOnly) && negb (mode =? ModeEnforce) then ModeLogOnly else mode in
  mkConfig tenantID mode (if c_AllowIntraTenant c then 1 else 0) (if c_AllowMetadata c then 1 else 0).

Definition CompileEgress (tenantID : Z) (c : CompiledPolicy) : option (list EgressEntry) :=
  mapM (entry_key tenantID) (c_EgressCIDRs c).

(** ** The interface of a container *)

Definition veth_key (k : string) : bool := HasPrefix "volatile." k && HasSuffix ".host_name" k.

Definition HostVethFromConfig (config : gmap string string) : string :=
  let v := TrimSpace (default "" (config !! "volatile.eth0.host_name")) in
  if negb (String.eqb v "") then v
  else
    let keys := filter (fun k => veth_key k = true /\ TrimSpace (default "" (config !! k)) <> "") (map_to_list config).*1 in
    match sorted_by id keys with
    | [] => ""
    | k :: _ => TrimSpace (default "" (config !! k))
    end.

Example veth_ex :
  HostVethFromConfig {["volatile.net1.host_name" := "vethB"; "volatile.lan0.host_name" := " vethA "; "volatile.eth0.hwaddr" := "x"]} = "vethA"
  /\ HostVethFromConfig {["volatile.eth0.host_name" := "veth0"; "volatile.a.host_name" := "vethA"]} = "veth0"
  /\ HostVethFromConfig ∅ = "".
Proof. vm_compute. done. Qed.

(** ** Machine words in memory *)

Section Layout.
Context (big : bool).

Fixpoint little (n : nat) (v : Z) : list Z :=
  match n with O => [] | S n => v mod 256 :: little n (v / 256) end.

Fixpoint of_little (bs : list Z) : Z := match bs with [] => 0 | b :: bs => b + 256 * of_little bs end.

(** [binary.NativeEndian.PutUint16], [32], [64] and their readers. *)
Definition Put (n : nat) (v : Z) : list Z := if big then rev (little n v) else little n v.
Definition Get (bs : list Z) : Z := of_little (if big then rev bs else bs).

(** Bytes [i] to [j] of a slice. *)
Definition slice (i j : nat) (bs : list Z) : list Z := take (j - i) (drop i bs).

Definition byte (i : nat) (bs : list Z) : Z := nth i bs 0.

(** ** Entries as bytes *)

Definition vethPolicyValue (cfg : PolicyConfig) : list Z :=
  Put 4 (cfg_TenantID cfg) ++ [cfg_Mode cfg; cfg_AllowIntra cfg; cfg_AllowMetadata cfg; 0].

Definition egressKeyBytes (e : EgressEntry) : list Z := Put 4 (e_PrefixLen e) ++ Put 4 (e_TenantID e) ++ e_Addr e.

Definition denyValueBytes (e : DenyEntry) : list Z := Put 2 (de_Port e) ++ [de_Proto e; 0].

(** ** Denied flows *)

Record DenyEvent := mkEvent {
  ev_Ifindex : Z; ev_TenantID : Z; ev_Saddr : Z; ev_Daddr : Z; ev_Dport : Z; ev_Proto : Z; ev_Reason : Z; ev_SigID : Z;
}.

Definition DenyReasonPolicy : Z := 0.
Definition DenyReasonVirtualPatch : Z := 1.
Definition DenyReasonSignature : Z := 2.

Definition denyEventSizeV1 : nat := 20.

Definition ParseDenyEvent (raw : list Z) : option DenyEvent :=
  if (length raw <? denyEventSizeV1)%nat then None
  else Some (mkEvent (Get (slice 0 4 raw)) (Get (slice 4 8 raw)) (Get (slice 8 12 raw)) (Get (slice 12 16 raw))
    (Get (slice 16 18 raw)) (byte 18 raw) (byte 19 raw) (if (22 <=? length raw)%nat then Get (slice 20 22 raw) else 0)).

(** [struct deny_event] of the program, in memory. *)
Definition deny_event (e : DenyEvent) : list Z :=
  Put 4 (ev_Ifindex e) ++ Put 4 (ev_TenantID e) ++ Put 4 (ev_Saddr e) ++ Put 4 (ev_Daddr e) ++ Put 2 (ev_Dport e)
  ++ [ev_Proto e; ev_Reason e] ++ Put 2 (ev_SigID e) ++ [0; 0].

Definition ipFromBE (v : Z) : list Z := Put 4 v.

(** ** Flows *)

Record FlowRecord := mkFlow {
  f_Ifindex : Z; f_Saddr : Z; f_Daddr : Z; f_Sport : Z; f_Dport : Z; f_Proto : Z;
  f_Packets : Z; f_Bytes : Z; f_FirstNs : Z; f_LastNs : Z; f_RxPackets : Z; f_RxBytes : Z;
}.

Definition flowKeySize : nat := 20.
Definition flowStatSizeV1 : nat := 32.
Definition flowStatSize : nat := 48.

Definition encodeFlowKey (r : FlowRecord) : list Z :=
  Put 4 (f_Ifindex r) ++ Put 4 (f_Saddr r) ++ Put 4 (f_Daddr r) ++ Put 2 (f_Sport r) ++ Put 2 (f_Dport r) ++ [f_Proto r; 0; 0; 0].

Definition decodeFlowKey (b : list Z) (r : FlowRecord) : option FlowRecord :=
  if (length b <? flowKeySize)%nat then None
  else Some (mkFlow (Get (slice 0 4 b)) (Get (slice 4 8 b)) (Get (slice 8 12 b)) (Get (slice 12 14 b)) (Get (slice 14 16 b))
    (byte 16 b) (f_Packets r) (f_Bytes r) (f_FirstNs r) (f_LastNs r) (f_RxPackets r) (f_RxBytes r)).

Definition decodeFlowStat (b : list Z) (r : FlowRecord) : option FlowRecord :=
  if (length b <? flowStatSizeV1)%nat then None
  else
    let rx := (flowStatSize <=? length b)%nat in
    Some (mkFlow (f_Ifindex r) (f_Saddr r) (f_Daddr r) (f_Sport r) (f_Dport r) (f_Proto r)
      (Get (slice 0 8 b)) (Get (slice 8 16 b)) (Get (slice 16 24 b)) (Get (slice 24 32 b))
      (if rx then Get (slice 32 40 b) else f_RxPackets r) (if rx then Get (slice 40 48 b) else f_RxBytes r)).

(** [struct flow_stat] of the program, in memory. *)
Definition flow_stat (r : FlowRecord) : list Z :=
  Put 8 (f_Packets r) ++ Put 8 (f_Bytes r) ++ Put 8 (f_FirstNs r) ++ Put 8 (f_LastNs r) ++ Put 8 (f_RxPackets r) ++ Put 8 (f_RxBytes r).

(** [Loader.Flows]: decode every entry of the map, stopping at the first one that does not decode. *)
Definition zeroFlow : FlowRecord := mkFlow 0 0 0 0 0 0 0 0 0 0 0 0.

Definition Flows (entries : list (list Z * list Z)) : option (list FlowRecord) :=
  mapM (fun '(k, v) => decodeFlowKey k zeroFlow ≫= decodeFlowStat v) entries.

(** ** Lemmas: words *)

Lemma length_little n v : length (little n v) = n.
Proof. revert v. induction n as [|n IH]; intros v; cbn; [done|]. by rewrite IH. Qed.

Lemma length_Put n v : length (Put n v) = n.
Proof. unfold Put. destruct big; rewrite ?length_rev; apply length_little. Qed.

Lemma of_little_little n v : 0 <= v < 256 ^ Z.of_nat n -> of_little (little n v) = v.
Proof.
  revert v. induction n as [|n IH]; intros v Hv; cbn [little of_little]; [cbn in Hv; lia|].
  rewrite Nat2Z.inj_succ, Z.pow_succ_r in Hv by lia.
  rewrite IH; [|split; [apply Z.div_pos; lia|apply Z.div_lt_upper_bound; lia]].
  pose proof (Z.div_mod v 256). lia.
Qed.

Lemma Get_Put n v : 0 <= v < 256 ^ Z.of_nat n -> Get (Put n v) = v.
Proof. intros Hv. unfold Get, Put. destruct big; [rewrite rev_involutive|]; by apply of_little_little. Qed.

Lemma slice_skip i j n (l r : list Z) :
  length l = n -> (n <= i <= j)%nat -> slice i j (l ++ r) = slice (i - n) (j - n) r.
Proof.
  intros Hl Hi. unfold slice. rewrite drop_app_ge by lia. rewrite Hl. f_equal. lia.
Qed.

Lemma slice_here j (l r : list Z) : length l = j -> slice 0 j (l ++ r) = l.
Proof. intros Hl. unfold slice. rewrite Nat.sub_0_r. cbn [drop]. by apply take_app_length'. Qed.

Lemma byte_skip i n (l r : list Z) : length l = n -> (n <= i)%nat -> byte i (l ++ r) = byte (i - n) r.
Proof. intros Hl Hi. unfold byte. rewrite app_nth2 by lia. by rewrite Hl. Qed.

End Layout.

(** Evaluate the slices of a concatenation of words. *)
Ltac read_fields :=
  repeat first
    [ rewrite (slice_here _ (Put _ _ _)) by apply length_Put
    | rewrite (byte_skip _ _ (Put _ _ _)) by (first [apply length_Put|cbn; lia])
    | rewrite (slice_skip _ _ _ (Put _ _ _)) by (first [apply length_Put|cbn; lia]) ].

Definition word (n : nat) (v : Z) : Prop := 0 <= v < 256 ^ Z.of_nat n.

Section Roundtrip.
Context (big : bool).

Record event_ok (e : DenyEvent) : Prop := {
  eo_if : word 4 (ev_Ifindex e); eo_tenant : word 4 (ev_TenantID e); eo_src : word 4 (ev_Saddr e);
  eo_dst : word 4 (ev_Daddr e); eo_dport : word 2 (ev_Dport e); eo_sig : word 2 (ev_SigID e);
}.

(** The program's event, padded as the perf ring pads it. *)
Lemma ParseDenyEvent_bytes e pad :
  event_ok e -> ParseDenyEvent big (deny_event big e ++ pad) = Some e.
Proof.
  intros [H1 H2 H3 H4 H5 H6]. unfold ParseDenyEvent, deny_event.
  rewrite <- !app_assoc, !length_app, !length_Put. cbn [length].
  destruct (Nat.ltb_spec (4 + (4 + (4 + (4 + (2 + (2 + (2 + (2 + length pad)))))))) denyEventSizeV1) as [H|_]; [unfold denyEventSizeV1 in H; lia|].
  destruct (Nat.leb_spec 22 (4 + (4 + (4 + (4 + (2 + (2 + (2 + (2 + length pad))))))))) as [_|H]; [|lia].
  read_fields. rewrite (slice_skip _ _ 2 [ev_Proto e; ev_Reason e]) by (done || cbn; lia). read_fields.
  rewrite !Get_Put by done. by destruct e.
Qed.

Record flow_ok (r : FlowRecord) : Prop := {
  fo_if : word 4 (f_Ifindex r); fo_src : word 4 (f_Saddr r); fo_dst : word 4 (f_Daddr r);
  fo_sport : word 2 (f_Sport r); fo_dport : word 2 (f_Dport r);
  fo_packets : word 8 (f_Packets r); fo_bytes : word 8 (f_Bytes r); fo_first : word 8 (f_FirstNs r);
  fo_last : word 8 (f_LastNs r); fo_rxp : word 8 (f_RxPackets r); fo_rxb : word 8 (f_RxBytes r);
}.

Lemma decodeFlowKey_encode r r0 :
  flow_ok r ->
  decodeFlowKey big (encodeFlowKey big r) r0
  = Some (mkFlow (f_Ifindex r) (f_Saddr r) (f_Daddr r) (f_Sport r) (f_Dport r) (f_Proto r)
      (f_Packets r0) (f_Bytes r0) (f_FirstNs r0) (f_LastNs r0) (f_RxPackets r0) (f_RxBytes r0)).
Proof.
  intros []. unfold decodeFlowKey, encodeFlowKey. rewrite !length_app, !length_Put. cbn [length Nat.add flowKeySize Nat.ltb Nat.leb].
  read_fields. by rewrite !Get_Put.
Qed.

Lemma decodeFlowStat_encode r r0 :
  flow_ok r ->
  decodeFlowStat big (flow_stat big r) r0
  = Some (mkFlow (f_Ifindex r0) (f_Saddr r0) (f_Daddr r0) (f_Sport r0) (f_Dport r0) (f_Proto r0)
      (f_Packets r) (f_Bytes r) (f_FirstNs r) (f_LastNs r) (f_RxPackets r) (f_RxBytes r)).
Proof.
  intros []. unfold decodeFlowStat, flow_stat. rewrite !length_app, !length_Put.
  cbn [length Nat.add flowStatSizeV1 flowStatSize Nat.ltb Nat.leb]. rewrite <- (app_nil_r (Put big 8 (f_RxBytes r))).
  read_fields. by rewrite !Get_Put.
Qed.

(** What the program tallies is what the daemon reads. *)
Lemma Flows_tally rs :
  Forall flow_ok rs -> Flows big ((fun r => (encodeFlowKey big r, flow_stat big r)) <$> rs) = Some rs.
Proof.
  intros Hrs. unfold Flows. rewrite mapM_fmap_Forall_Some with (g := fun r => (encodeFlowKey big r, flow_stat big r)); [done|].
  eapply Forall_impl; [exact Hrs|]. intros r Hr. rewrite decodeFlowKey_encode by done. cbn.
  rewrite decodeFlowStat_encode by done. by destruct r.
Qed.

(** An older object's counters: no reply direction. *)
Lemma decodeFlowStat_v1 r r0 :
  flow_ok r ->
  decodeFlowStat big (take 32 (flow_stat big r)) r0
  = Some (mkFlow (f_Ifindex r0) (f_Saddr r0) (f_Daddr r0) (f_Sport r0) (f_Dport r0) (f_Proto r0)
      (f_Packets r) (f_Bytes r) (f_FirstNs r) (f_LastNs r) (f_RxPackets r0) (f_RxBytes r0)).
Proof.
  intros []. unfold flow_stat. rewrite !app_assoc, <- (app_assoc _ (Put big 8 (f_RxPackets r))), take_app_length'
    by (rewrite !length_app, !length_Put; done).
  unfold decodeFlowStat. rewrite <- !app_assoc, !length_app, !length_Put.
  cbn [length Nat.add flowStatSizeV1 flowStatSize Nat.ltb Nat.leb]. rewrite <- (app_nil_r (Put big 8 (f_LastNs r))).
  read_fields. by rewrite !Get_Put.
Qed.

Definition entry_ok (e : EgressEntry) : Prop := word 4 (e_PrefixLen e) /\ word 4 (e_TenantID e).

(** Different entries have different keys in the kernel. *)
Lemma egressKeyBytes_inj e f : entry_ok e -> entry_ok f -> egressKeyBytes big e = egressKeyBytes big f -> e = f.
Proof.
  intros [H1 H2] [H3 H4] He. unfold egressKeyBytes in He.
  apply app_inj_1 in He as [Hn He]; [|by rewrite !length_Put]. apply app_inj_1 in He as [Ht Ha]; [|by rewrite !length_Put].
  apply (f_equal (Get big)) in Hn, Ht. rewrite !Get_Put in Hn, Ht by done. destruct e, f; cbn in *; congruence.
Qed.
End Roundtrip.
