(* ===== verification/NetData.v ===== *)
(** * The data plane of the network policy

    experimental/ebpf-phaseA/netpolicy.bpf.c, the two programs on a container's veth.  A packet is its bytes.
    The kernel's longest-prefix lookup and its LRU table are arguments; [lpm_law] is what the kernel
    documents of the lookup, and [lpm_ref] satisfies it. *)

From S2P Require Import Prelude GoNet GoNetip SafeCast NetPolicy NetBpf.
From Stdlib Require Import Ascii.
#[local] Open Scope list_scope.
#[local] Open Scope Z_scope.

(** ** Maps *)

Record flow_key := mkFlowKey { fk_ifindex : Z; fk_saddr : list Z; fk_daddr : list Z; fk_sport : Z; fk_dport : Z; fk_proto : Z }.

#[export] Instance flow_key_eq_dec : EqDecision flow_key.
Proof. solve_decision. Defined.
#[export] Instance flow_key_countable : Countable flow_key.
Proof.
  refine (inj_countable' (fun k => (fk_ifindex k, fk_saddr k, fk_daddr k, fk_sport k, fk_dport k, fk_proto k))
    (fun '(i, s, d, sp, dp, p) => mkFlowKey i s d sp dp p) _).
  by intros [].
Defined.

Record flow_tally := mkTally { t_packets : Z; t_bytes : Z; t_first : Z; t_last : Z; t_rx_packets : Z; t_rx_bytes : Z }.

Record signature := mkSig { s_len : Z; s_enabled : Z; s_id : Z; s_pat : list Z }.

(** What the daemon writes. *)
Record kmaps := mkMaps {
  k_veth : gmap Z PolicyConfig;
  k_egress : gmap EgressEntry unit;
  k_deny : gmap EgressEntry (Z * Z);
  k_ip : gmap (list Z) Z;
}.

(** The rest of the program's state: counters, flows, the perf ring, the signature slots and the scratch buffer. *)
Record pstate := mkState {
  st_seen : Z;
  st_would_deny : Z;
  st_flows : gmap flow_key flow_tally;
  st_events : list DenyEvent;
  st_signatures : list signature;
  st_sig_config : Z;
  st_scan_buf : list Z;
}.

Inductive action := TC_ACT_OK | TC_ACT_SHOT.

#[export] Instance action_eq_dec : EqDecision action.
Proof. solve_decision. Defined.

(** ** Packets *)

(** The linear part, the rest, and the two interface indices of an [__sk_buff]. *)
Record skb := mkSkb { sk_data : list Z; sk_paged : list Z; sk_ingress_ifindex : Z; sk_ifindex : Z }.

Definition sk_bytes (s : skb) : list Z := sk_data s ++ sk_paged s.
Definition sk_len (s : skb) : Z := Z.of_nat (length (sk_bytes s)).

Definition sizeof_eth : nat := 14.
Definition sizeof_ip : nat := 20.
Definition sizeof_tcp : nat := 20.
Definition sizeof_udp : nat := 8.

Definition be16 (i : nat) (s : skb) : Z := byte i (sk_data s) * 256 + byte (S i) (sk_data s).

(** The Ethernet and IPv4 headers are in the linear part. *)
Definition is_ipv4 (s : skb) : bool :=
  (sizeof_eth <=? length (sk_data s))%nat && (be16 12 s =? 0x800) && (sizeof_eth + sizeof_ip <=? length (sk_data s))%nat.

Definition ip_protocol (s : skb) : Z := byte 23 (sk_data s).
Definition ip_saddr (s : skb) : list Z := slice 26 30 (sk_data s).
Definition ip_daddr (s : skb) : list Z := slice 30 34 (sk_data s).

Definition IPPROTO_TCP : Z := 6.
Definition IPPROTO_UDP : Z := 17.

(** Source and destination port, 0 where there is none. *)
Definition ports (s : skb) : Z * Z :=
  if ip_protocol s =? IPPROTO_TCP then
    if (sizeof_eth + sizeof_ip + sizeof_tcp <=? length (sk_data s))%nat then (be16 34 s, be16 36 s) else (0, 0)
  else if ip_protocol s =? IPPROTO_UDP then
    if (sizeof_eth + sizeof_ip + sizeof_udp <=? length (sk_data s))%nat then (be16 34 s, be16 36 s) else (0, 0)
  else (0, 0).

(** ** Longest-prefix match *)

Definition key_ok (k : EgressEntry) : Prop :=
  32 <= e_PrefixLen k <= 64 /\ length (e_Addr k) = 4%nat /\ mask_octets (e_PrefixLen k - 32) (e_Addr k) = e_Addr k.

(** The key's prefix matches the tenant and the address. *)
Definition covers (k : EgressEntry) (tenant : Z) (addr : list Z) : Prop :=
  e_TenantID k = tenant /\ mask_octets (e_PrefixLen k - 32) addr = mask_octets (e_PrefixLen k - 32) (e_Addr k).

#[export] Instance covers_dec k t a : Decision (covers k t a).
Proof. unfold covers. apply _. Defined.

Definition longest {V} (m : gmap EgressEntry V) (t : Z) (a : list Z) (k : EgressEntry) : Prop :=
  is_Some (m !! k) /\ covers k t a /\ forall k', is_Some (m !! k') -> covers k' t a -> e_PrefixLen k' <= e_PrefixLen k.

(** A lookup returns the value of the longest matching prefix, and fails only when none matches. *)
Definition lpm_law (lpm : forall V, gmap EgressEntry V -> Z -> list Z -> option V) : Prop :=
  forall V (m : gmap EgressEntry V) t a,
    match lpm V m t a with
    | Some v => exists k, m !! k = Some v /\ longest m t a k
    | None => forall k, is_Some (m !! k) -> ~ covers k t a
    end.

(** A list of candidates, the first of the longest ones. *)
Fixpoint best_match {V} (t : Z) (a : list Z) (l : list (EgressEntry * V)) : option (EgressEntry * V) :=
  match l with
  | [] => None
  | (k, v) :: l =>
      match best_match t a l with
      | Some (k', v') =>
          if bool_decide (covers k t a) && (e_PrefixLen k' <? e_PrefixLen k) then Some (k, v) else Some (k', v')
      | None => if bool_decide (covers k t a) then Some (k, v) else None
      end
  end.

Definition lpm_ref (V : Type) (m : gmap EgressEntry V) (t : Z) (a : list Z) : option V := snd <$> best_match t a (map_to_list m).

Lemma best_match_spec {V} t a (l : list (EgressEntry * V)) :
  match best_match t a l with
  | Some (k, v) => (k, v) ∈ l /\ covers k t a /\ forall k' v', (k', v') ∈ l -> covers k' t a -> e_PrefixLen k' <= e_PrefixLen k
  | None => forall k v, (k, v) ∈ l -> ~ covers k t a
  end.
Proof.
  induction l as [|[k v] l IH]; cbn [best_match]; [intros k v H; by apply elem_of_nil in H|].
  destruct (best_match t a l) as [[k' v']|].
  - destruct IH as (Hin & Hc & Hmax). case_bool_decide as Hk; cbn [andb].
    + destruct (Z.ltb_spec (e_PrefixLen k') (e_PrefixLen k)).
      * split_and!; [by left|done|]. intros k2 v2 [[= -> ->]|H2]%elem_of_cons Hc2; [lia|]. specialize (Hmax _ _ H2 Hc2). lia.
      * split_and!; [by right|done|]. intros k2 v2 [[= -> ->]|H2]%elem_of_cons Hc2; [lia|by eapply Hmax].
    + split_and!; [by right|done|]. intros k2 v2 [[= -> ->]|H2]%elem_of_cons Hc2; [done|by eapply Hmax].
  - case_bool_decide as Hk.
    + split_and!; [by left|done|]. intros k2 v2 [[= -> ->]|H2]%elem_of_cons Hc2; [lia|]. by apply IH in H2.
    + intros k2 v2 [[= -> ->]|H2]%elem_of_cons; [done|by apply IH in H2].
Qed.

Lemma lpm_ref_law : lpm_law lpm_ref.
Proof.
  intros V m t a. unfold lpm_ref. pose proof (best_match_spec t a (map_to_list m)) as H.
  destruct (best_match t a (map_to_list m)) as [[k v]|]; cbn.
  - destruct H as (Hin%elem_of_map_to_list & Hc & Hmax). exists k. split; [done|]. split; [by eexists|]. split; [done|].
    intros k' [v' Hv'] Hc'. eapply Hmax; [by apply elem_of_map_to_list|done].
  - intros k [v Hv]. eapply H. by apply elem_of_map_to_list.
Qed.

(** Two masked keys of one length that cover an address are the same. *)
Lemma covers_unique k k' t a :
  key_ok k -> key_ok k' -> covers k t a -> covers k' t a -> e_PrefixLen k = e_PrefixLen k' -> k = k'.
Proof.
  intros (_ & _ & Hk) (_ & _ & Hk') [Ht Ha] [Ht' Ha'] Hl. rewrite Hk in Ha. rewrite Hk' in Ha'.
  destruct k, k'. cbn in *. rewrite Hl in Ha. congruence.
Qed.

Lemma longest_unique {V} (m : gmap EgressEntry V) t a k k' :
  key_ok k -> key_ok k' -> longest m t a k -> longest m t a k' -> k = k'.
Proof.
  intros Ho Ho' (Hk & Hc & Hmax) (Hk' & Hc' & Hmax'). eapply covers_unique; [done..|].
  specialize (Hmax _ Hk' Hc'). specialize (Hmax' _ Hk Hc). lia.
Qed.

(** ** The programs *)

Section Programs.
Context (lpm : forall V, gmap EgressEntry V -> Z -> list Z -> option V).
Context (lru_update : gmap flow_key flow_tally -> flow_key -> flow_tally -> gmap flow_key flow_tally).
Context (big : bool).

Definition bump64 (v : Z) : Z := wrap u64 (v + 1).

Definition bump_seen (st : pstate) : pstate :=
  mkState (bump64 (st_seen st)) (st_would_deny st) (st_flows st) (st_events st) (st_signatures st) (st_sig_config st) (st_scan_buf st).
Definition bump_would_deny (st : pstate) : pstate :=
  mkState (st_seen st) (bump64 (st_would_deny st)) (st_flows st) (st_events st) (st_signatures st) (st_sig_config st) (st_scan_buf st).
Definition set_flows (fl : gmap flow_key flow_tally) (st : pstate) : pstate :=
  mkState (st_seen st) (st_would_deny st) fl (st_events st) (st_signatures st) (st_sig_config st) (st_scan_buf st).
Definition emit (e : DenyEvent) (st : pstate) : pstate :=
  mkState (st_seen st) (st_would_deny st) (st_flows st) (st_events st ++ [e]) (st_signatures st) (st_sig_config st) (st_scan_buf st).
Definition set_scan_buf (b : list Z) (st : pstate) : pstate :=
  mkState (st_seen st) (st_would_deny st) (st_flows st) (st_events st) (st_signatures st) (st_sig_config st) b.

Definition account_flow (now : Z) (s : skb) (fk : flow_key) (st : pstate) : pstate :=
  let len := sk_len s in
  match st_flows st !! fk with
  | Some t =>
      set_flows (<[fk := mkTally (bump64 (t_packets t)) (wrap u64 (t_bytes t + len)) (t_first t) now (t_rx_packets t) (t_rx_bytes t)]>
        (st_flows st)) st
  | None => set_flows (lru_update (st_flows st) fk (mkTally 1 len now now 0 0)) st
  end.

Definition account_reply (now : Z) (s : skb) (fk : flow_key) (st : pstate) : pstate :=
  let len := sk_len s in
  match st_flows st !! fk with
  | Some t =>
      set_flows (<[fk := mkTally (t_packets t) (t_bytes t) (t_first t) now (bump64 (t_rx_packets t)) (wrap u64 (t_rx_bytes t + len))]>
        (st_flows st)) st
  | None => set_flows (lru_update (st_flows st) fk (mkTally 0 0 now now 1 len)) st
  end.

Definition METADATA_IPV4 : list Z := [169; 254; 169; 254].

(** The virtual-patch rule that decides for the destination, if it matches port and protocol. *)
Definition vpatch_deny (m : kmaps) (cfg : PolicyConfig) (daddr : list Z) (dport proto : Z) : bool :=
  match lpm _ (k_deny m) (cfg_TenantID cfg) daddr with
  | Some (port, pr) => ((port =? 0) || (port =? dport)) && ((pr =? 0) || (pr =? proto))
  | None => false
  end.

(** The allow checks. *)
Definition allowed (m : kmaps) (cfg : PolicyConfig) (daddr : list Z) : bool :=
  if bool_decide (daddr = METADATA_IPV4) then negb (cfg_AllowMetadata cfg =? 0)
  else
    match k_ip m !! daddr with
    | Some t => (t =? cfg_TenantID cfg) && negb (cfg_AllowIntra cfg =? 0)
    | None => match lpm _ (k_egress m) (cfg_TenantID cfg) daddr with Some _ => true | None => false end
    end.

(** What the container sends: SEC("classifier/netpolicy"). *)
Definition netpolicy_ingress (now : Z) (m : kmaps) (s : skb) (st : pstate) : action * pstate :=
  if negb (is_ipv4 s) then (TC_ACT_OK, st)
  else
    let ifindex := sk_ingress_ifindex s in
    match k_veth m !! ifindex with
    | None => (TC_ACT_OK, st)
    | Some cfg =>
        let st := bump_seen st in
        let '(sport, dport) := ports s in
        let proto := ip_protocol s in
        let st := account_flow now s (mkFlowKey ifindex (ip_saddr s) (ip_daddr s) sport dport proto) st in
        let vpatch := vpatch_deny m cfg (ip_daddr s) dport proto in
        if negb vpatch && allowed m cfg (ip_daddr s) then (TC_ACT_OK, st)
        else
          let st := bump_would_deny st in
          let reason := if vpatch then DenyReasonVirtualPatch else DenyReasonPolicy in
          let st := emit (mkEvent ifindex (cfg_TenantID cfg) (Get big (ip_saddr s)) (Get big (ip_daddr s)) dport proto reason 0) st in
          (if cfg_Mode cfg =? ModeEnforce then TC_ACT_SHOT else TC_ACT_OK, st)
    end.

(** *** Signatures *)

Definition SIG_MAX_LEN : nat := 32.
Definition SIG_MAX_COUNT : nat := 32.
Definition SCAN_WINDOW : nat := 256.
Definition SIG_SCAN_MIN : Z := 32.

Definition sig_scan_enabled (st : pstate) : bool := negb (st_sig_config st =? 0).

(** The callback of the loop over slots and offsets: whether to stop, and the matched id. *)
Definition sig_match_at (sigs : list signature) (buf : list Z) (n : nat) (idx : nat) (match_id : Z) : bool * Z :=
  if negb (match_id =? 0) then (true, match_id)
  else
    let si := (idx / SCAN_WINDOW)%nat in
    let i := (idx mod SCAN_WINDOW)%nat in
    match sigs !! si with
    | None => (false, match_id)
    | Some s =>
        if s_enabled s =? 0 then (false, match_id)
        else
          let slen := Z.to_nat (s_len s) in
          if (slen =? 0)%nat || (SIG_MAX_LEN <? slen)%nat || (n <? i + slen)%nat then (false, match_id)
          else if forallb (fun j => implb (j <? slen)%nat (byte ((i + j) mod SCAN_WINDOW) buf =? byte j (s_pat s))) (seq 0 SIG_MAX_LEN)
               then (true, s_id s)
               else (false, match_id)
    end.

(** [bpf_loop]: until the callback asks to stop, [count] times at most. *)
Fixpoint bpf_loop (f : nat -> Z -> bool * Z) (count idx : nat) (ctx : Z) : Z :=
  match count with
  | O => ctx
  | S c => let '(stop, ctx) := f idx ctx in if stop then ctx else bpf_loop f c (S idx) ctx
  end.

(** The window that fits the payload. *)
Definition scan_window (avail : Z) : option nat :=
  if 256 <=? avail then Some 256%nat
  else if 128 <=? avail then Some 128%nat
  else if 64 <=? avail then Some 64%nat
  else if SIG_SCAN_MIN <=? avail then Some 32%nat
  else None.

Definition scan_inbound (s : skb) (off : nat) (avail : Z) (st : pstate) : Z * pstate :=
  match scan_window avail with
  | None => (0, st)
  | Some n =>
      let buf := slice off (off + n) (sk_bytes s) ++ drop n (st_scan_buf st) in
      (bpf_loop (sig_match_at (st_signatures st) buf n) (SIG_MAX_COUNT * SCAN_WINDOW) 0 0, set_scan_buf buf st)
  end.

Definition tcp_hlen (s : skb) : Z := byte 46 (sk_data s) / 16 * 4.

(** What the container receives: SEC("classifier/netpolicy_egress"). *)
Definition netpolicy_egress (now : Z) (m : kmaps) (s : skb) (st : pstate) : action * pstate :=
  if negb (is_ipv4 s) then (TC_ACT_OK, st)
  else
    let ifindex := sk_ifindex s in
    match k_veth m !! ifindex with
    | None => (TC_ACT_OK, st)
    | Some cfg =>
        let '(sport, dport) := ports s in
        let proto := ip_protocol s in
        let st := account_reply now s (mkFlowKey ifindex (ip_daddr s) (ip_saddr s) dport sport proto) st in
        if (proto =? IPPROTO_TCP) && sig_scan_enabled st && (sizeof_eth + sizeof_ip + sizeof_tcp <=? length (sk_data s))%nat then
          let payload_off := 34 + tcp_hlen s in
          if (20 <=? tcp_hlen s) && (payload_off <? sk_len s) then
            let '(sig, st) := scan_inbound s (Z.to_nat payload_off) (sk_len s - payload_off) st in
            if sig =? 0 then (TC_ACT_OK, st)
            else
              let st := bump_would_deny st in
              let st := emit (mkEvent ifindex (cfg_TenantID cfg) (Get big (ip_saddr s)) (Get big (ip_daddr s)) dport proto
                                DenyReasonSignature (wrap u16 sig)) st in
              (if cfg_Mode cfg =? ModeEnforce then TC_ACT_SHOT else TC_ACT_OK, st)
          else (TC_ACT_OK, st)
        else (TC_ACT_OK, st)
    end.
End Programs.
