(* ===== verification/NetScan.v ===== *)
(** * The signature scan

    The flattened loop of netpolicy.bpf.c over slots and offsets finds the first enabled slot whose
    pattern occurs in the window ([scan_loop_spec]), and the receive program drops exactly that. *)

From S2P Require Import Prelude GoNet GoNetip SafeCast NetPolicy NetBpf NetData.
#[local] Open Scope list_scope.
#[local] Open Scope Z_scope.

(** ** The loop *)

Fixpoint first_hit (hit : nat -> bool) (count idx : nat) : option nat :=
  match count with
  | O => None
  | S c => if hit idx then Some idx else first_hit hit c (S idx)
  end.

Lemma first_hit_Some hit c idx k :
  first_hit hit c idx = Some k -> (idx <= k < idx + c)%nat /\ hit k = true /\ forall j, (idx <= j < k)%nat -> hit j = false.
Proof.
  revert idx. induction c as [|c IH]; intros idx; cbn; [done|]. destruct (hit idx) eqn:E.
  - intros [= <-]. split; [lia|]. split; [done|]. lia.
  - intros (H1 & H2 & H3)%IH. split; [lia|]. split; [done|]. intros j Hj.
    destruct (decide (j = idx)) as [->|]; [done|]. apply H3. lia.
Qed.

Lemma first_hit_None hit c idx : first_hit hit c idx = None -> forall j, (idx <= j < idx + c)%nat -> hit j = false.
Proof.
  revert idx. induction c as [|c IH]; intros idx; cbn; [lia|]. destruct (hit idx) eqn:E; [done|].
  intros H j Hj. destruct (decide (j = idx)) as [->|]; [done|]. apply (IH _ H). lia.
Qed.

Lemma bpf_loop_first_hit f c idx :
  (forall i, (f i 0).1 = false -> (f i 0).2 = 0) ->
  bpf_loop f c idx 0 = match first_hit (fun i => (f i 0).1) c idx with Some k => (f k 0).2 | None => 0 end.
Proof.
  intros Hf. revert idx. induction c as [|c IH]; intros idx; [done|]. cbn [bpf_loop first_hit].
  specialize (Hf idx). destruct (f idx 0) as [[] v] eqn:E; cbn in *; [by rewrite E|]. rewrite Hf by done. apply IH.
Qed.

Lemma find_at {A} (f : A -> bool) l k x :
  l !! k = Some x -> f x = true -> (forall j y, (j < k)%nat -> l !! j = Some y -> f y = false) -> find f l = Some x.
Proof.
  revert k. induction l as [|y l IH]; intros k Hk Hx Hj; [done|]. cbn [find]. destruct k as [|k].
  - injection Hk as ->. by rewrite Hx.
  - rewrite (Hj 0%nat y) by (done || lia). eapply IH; [exact Hk|done|]. intros j z Hjk Hz. apply (Hj (S j) z); [lia|done].
Qed.

Lemma find_nowhere {A} (f : A -> bool) l : (forall j y, l !! j = Some y -> f y = false) -> find f l = None.
Proof.
  induction l as [|y l IH]; intros H; [done|]. cbn [find]. rewrite (H 0%nat y eq_refl). apply IH. intros j z Hz. by apply (H (S j)).
Qed.

(** ** One slot at one offset *)

Section Scan.
Context (buf : list Z) (n : nat).

Definition slot_ok (s : signature) : bool :=
  negb (s_enabled s =? 0) && negb (Z.to_nat (s_len s) =? 0)%nat && negb (SIG_MAX_LEN <? Z.to_nat (s_len s))%nat.

(** The pattern is at offset [i] of the window. *)
Definition occurs_at (s : signature) (i : nat) : Prop :=
  (i + Z.to_nat (s_len s) <= n)%nat /\ slice i (i + Z.to_nat (s_len s)) buf = take (Z.to_nat (s_len s)) (s_pat s).

#[export] Instance occurs_at_dec s i : Decision (occurs_at s i).
Proof. unfold occurs_at. apply _. Defined.

(** An enabled pattern of the window. *)
Definition occurs (s : signature) : bool :=
  slot_ok s && existsb (fun i => bool_decide (occurs_at s i)) (seq 0 SCAN_WINDOW).

Definition sig_ok (s : signature) : Prop := length (s_pat s) = SIG_MAX_LEN /\ 0 <= s_len s.

Definition at_slot (s : signature) (i : nat) : bool := slot_ok s && bool_decide (occurs_at s i).

Context (Hbuf : length buf = SCAN_WINDOW) (Hn : (n <= SCAN_WINDOW)%nat).

(** The comparison loop compares the pattern. *)
Lemma compare_spec s i :
  sig_ok s -> (Z.to_nat (s_len s) <= SIG_MAX_LEN)%nat -> (i + Z.to_nat (s_len s) <= n)%nat ->
  forallb (fun j => implb (j <? Z.to_nat (s_len s))%nat (byte ((i + j) mod SCAN_WINDOW) buf =? byte j (s_pat s))) (seq 0 SIG_MAX_LEN)
  = bool_decide (slice i (i + Z.to_nat (s_len s)) buf = take (Z.to_nat (s_len s)) (s_pat s)).
Proof.
  intros [Hp Hl] Hm Hi. set (slen := Z.to_nat (s_len s)) in *. unfold SIG_MAX_LEN, SCAN_WINDOW in *.
  assert (Hs : slice i (i + slen) buf = map (fun j => byte (i + j) buf) (seq 0 slen)).
  { unfold slice. replace (i + slen - i)%nat with slen by lia. apply (nth_ext _ _ 0 (byte (i + 0) buf)).
    - rewrite length_take, length_drop, length_map, length_seq. lia.
    - intros j Hj. rewrite length_take, length_drop in Hj. rewrite (map_nth (fun j => byte (i + j) buf)), seq_nth by lia.
      rewrite nth_firstn, nth_skipn. by destruct (Nat.ltb_spec j slen); [|lia]. }
  assert (Ht : take slen (s_pat s) = map (fun j => byte j (s_pat s)) (seq 0 slen)).
  { apply (nth_ext _ _ 0 (byte 0 (s_pat s))).
    - rewrite length_take, length_map, length_seq. lia.
    - intros j Hj. rewrite length_take in Hj. rewrite (map_nth (fun j => byte j (s_pat s))), seq_nth by lia.
      rewrite nth_firstn. by destruct (Nat.ltb_spec j slen); [|lia]. }
  rewrite Hs, Ht. apply eq_bool_prop_intro. rewrite Is_true_true, Is_true_true, bool_decide_eq_true, forallb_forall. split.
  - intros H. apply map_ext_in. intros j Hj%in_seq. specialize (H j ltac:(apply in_seq; lia)).
    destruct (Nat.ltb_spec j slen); [|lia]. cbn [implb] in H. apply Z.eqb_eq in H. by rewrite Nat.mod_small in H by lia.
  - intros H j Hj%in_seq. destruct (Nat.ltb_spec j slen); [|done]. cbn [implb]. apply Z.eqb_eq. rewrite Nat.mod_small by lia.
    apply (f_equal (fun l => nth j l (byte (i + 0) buf))) in H. rewrite (map_nth (fun j => byte (i + j) buf)), seq_nth in H by lia.
    rewrite (nth_indep _ _ (byte 0 (s_pat s))), (map_nth (fun j => byte j (s_pat s))), seq_nth in H
      by (rewrite ?length_map, ?length_seq; lia).
    done.
Qed.

Lemma sig_match_at_spec sigs idx s :
  Forall sig_ok sigs -> sigs !! (idx / SCAN_WINDOW)%nat = Some s ->
  sig_match_at sigs buf n idx 0 = if at_slot s (idx mod SCAN_WINDOW) then (true, s_id s) else (false, 0).
Proof.
  intros Hs Hi. unfold sig_match_at. cbn [Z.eqb negb]. rewrite Hi. unfold at_slot, slot_ok.
  rewrite Forall_lookup in Hs. specialize (Hs _ _ Hi).
  destruct (s_enabled s =? 0); [done|]. destruct (Nat.eqb_spec (Z.to_nat (s_len s)) 0); [done|].
  destruct (Nat.ltb_spec SIG_MAX_LEN (Z.to_nat (s_len s))); [done|]. cbn [orb negb andb].
  destruct (Nat.ltb_spec n (idx mod SCAN_WINDOW + Z.to_nat (s_len s))).
  - rewrite bool_decide_eq_false_2; [done|]. intros [H' _]. lia.
  - rewrite compare_spec by (done || lia).
    destruct (bool_decide _) eqn:E; [apply bool_decide_eq_true in E; by rewrite bool_decide_eq_true_2|].
    apply bool_decide_eq_false in E. rewrite bool_decide_eq_false_2; [done|]. by intros [_ H'].
Qed.

Lemma sig_match_at_none sigs idx : sigs !! (idx / SCAN_WINDOW)%nat = None -> sig_match_at sigs buf n idx 0 = (false, 0).
Proof. intros Hi. unfold sig_match_at. cbn [Z.eqb negb]. by rewrite Hi. Qed.

Lemma occurs_iff s : occurs s = true <-> exists i, (i < SCAN_WINDOW)%nat /\ at_slot s i = true.
Proof.
  unfold occurs, at_slot. rewrite andb_true_iff, existsb_exists. split.
  - intros [Hs (i & Hi%in_seq & Ho)]. exists i. split; [lia|]. by rewrite Hs.
  - intros (i & Hi & [Hs Ho]%andb_true_iff). split; [done|]. exists i. split; [apply in_seq; lia|done].
Qed.

(** The scan finds the first slot whose pattern occurs. *)
Lemma scan_loop_spec sigs :
  Forall sig_ok sigs -> length sigs = SIG_MAX_COUNT ->
  bpf_loop (sig_match_at sigs buf n) (SIG_MAX_COUNT * SCAN_WINDOW) 0 0
  = match find occurs sigs with Some s => s_id s | None => 0 end.
Proof.
  intros Hs Hl.
  assert (Hat : forall idx, sig_match_at sigs buf n idx 0
    = match sigs !! (idx / SCAN_WINDOW)%nat with
      | Some s => if at_slot s (idx mod SCAN_WINDOW) then (true, s_id s) else (false, 0)
      | None => (false, 0)
      end).
  { intros idx. destruct (sigs !! _) as [s|] eqn:E; [by apply sig_match_at_spec|by apply sig_match_at_none]. }
  rewrite bpf_loop_first_hit.
  2: { intros i. rewrite Hat. destruct (sigs !! _) as [s|]; [|done]. by destruct (at_slot s _). }
  set (f := fun i => (sig_match_at sigs buf n i 0).1).
  assert (Hf : forall si i s, (i < SCAN_WINDOW)%nat -> sigs !! si = Some s -> f (si * SCAN_WINDOW + i)%nat = at_slot s i).
  { intros si i s Hi Hsi. unfold f. rewrite Hat. replace ((si * SCAN_WINDOW + i) / SCAN_WINDOW)%nat with si.
    - rewrite Hsi. replace ((si * SCAN_WINDOW + i) mod SCAN_WINDOW)%nat with i; [by destruct (at_slot s i)|].
      rewrite Nat.add_comm, Nat.Div0.mod_add. symmetry. by apply Nat.mod_small.
    - rewrite Nat.div_add_l by done. by rewrite Nat.div_small, Nat.add_0_r. }
  destruct (first_hit f (SIG_MAX_COUNT * SCAN_WINDOW) 0) as [k|] eqn:E.
  - apply first_hit_Some in E as (Hk & Hit & Hbefore). rewrite Hat. unfold f in Hit. rewrite Hat in Hit.
    destruct (sigs !! (k / SCAN_WINDOW)%nat) as [s|] eqn:Es; [|done]. destruct (at_slot s (k mod SCAN_WINDOW)) eqn:Ea; [|done].
    rewrite (find_at _ _ (k / SCAN_WINDOW)%nat s); [done|done| |].
    + apply occurs_iff. exists (k mod SCAN_WINDOW)%nat. split; [by apply Nat.mod_upper_bound|done].
    + intros j y Hj Hy. apply not_true_is_false. intros (i & Hi & Ho)%occurs_iff.
      rewrite <- (Hf j i y Hi Hy), Hbefore in Ho; [done|].
      pose proof (Nat.div_mod_eq k SCAN_WINDOW). unfold SCAN_WINDOW in *. lia.
  - rewrite find_nowhere; [done|]. intros j y Hy. apply not_true_is_false. intros (i & Hi & Ho)%occurs_iff.
    rewrite <- (Hf j i y Hi Hy), (first_hit_None _ _ _ E) in Ho; [done|].
    apply lookup_lt_Some in Hy. rewrite Hl in Hy. unfold SIG_MAX_COUNT, SCAN_WINDOW in *. lia.
Qed.
End Scan.

(** ** The program on the receive side *)

(** A pattern in the payload: within the first [n] bytes from [off]. *)
Definition in_payload (bytes : list Z) (off n : nat) (s : signature) : bool :=
  slot_ok s && existsb (fun i => bool_decide ((i + Z.to_nat (s_len s) <= n)%nat /\
    slice (off + i) (off + i + Z.to_nat (s_len s)) bytes = take (Z.to_nat (s_len s)) (s_pat s))) (seq 0 SCAN_WINDOW).

Definition scan_ready (st : pstate) : Prop :=
  length (st_scan_buf st) = SCAN_WINDOW /\ length (st_signatures st) = SIG_MAX_COUNT /\ Forall sig_ok (st_signatures st).

Lemma slice_window off n i l (bytes tl : list Z) :
  (i + l <= n)%nat -> (off + n <= length bytes)%nat ->
  slice i (i + l) (slice off (off + n) bytes ++ tl) = slice (off + i) (off + i + l) bytes.
Proof.
  intros Hi Hn. unfold slice. replace (off + n - off)%nat with n by lia. replace (i + l - i)%nat with l by lia.
  replace (off + i + l - (off + i))%nat with l by lia.
  rewrite skipn_app, length_take, length_drop. replace (i - n `min` (length bytes - off))%nat with 0%nat by lia. cbn [drop].
  rewrite take_app_le by (rewrite length_drop, length_take, length_drop; lia).
  rewrite skipn_firstn_comm, take_take, drop_drop. by replace (l `min` (n - i))%nat with l by lia.
Qed.

Lemma existsb_pointwise {A} (f g : A -> bool) l : (forall x, f x = g x) -> existsb f l = existsb g l.
Proof. intros H. induction l as [|x l IH]; cbn; [done|]. by rewrite H, IH. Qed.

Lemma occurs_payload off n (bytes tl : list Z) s :
  (off + n <= length bytes)%nat -> occurs (slice off (off + n) bytes ++ tl) n s = in_payload bytes off n s.
Proof.
  intros Hn. unfold occurs, in_payload. f_equal. apply existsb_pointwise. intros i. apply bool_decide_ext. unfold occurs_at.
  split; intros [Hi Ho]; (split; [done|]); [rewrite <- Ho; symmetry|rewrite <- Ho]; by apply slice_window.
Qed.

Lemma find_ext {A} (f g : A -> bool) l : (forall x, f x = g x) -> find f l = find g l.
Proof. intros H. induction l as [|x l IH]; cbn; [done|]. by rewrite H, IH. Qed.

Lemma scan_window_fits avail n : scan_window avail = Some n -> Z.of_nat n <= avail /\ (n <= SCAN_WINDOW)%nat.
Proof.
  unfold scan_window, SIG_SCAN_MIN, SCAN_WINDOW.
  destruct (Z.leb_spec 256 avail); [intros [= <-]; lia|]. destruct (Z.leb_spec 128 avail); [intros [= <-]; lia|].
  destruct (Z.leb_spec 64 avail); [intros [= <-]; lia|]. destruct (Z.leb_spec 32 avail); [intros [= <-]; lia|done].
Qed.

(** The id of the first slot with a pattern in the window. *)
Definition scan_result (st : pstate) (s : skb) (off : nat) (avail : Z) : Z :=
  match scan_window avail with
  | None => 0
  | Some n => match find (in_payload (sk_bytes s) off n) (st_signatures st) with Some sig => s_id sig | None => 0 end
  end.

Lemma scan_inbound_spec s off avail st :
  scan_ready st -> Z.of_nat off + avail = sk_len s -> (scan_inbound s off avail st).1 = scan_result st s off avail.
Proof.
  intros (Hb & Hl & Hs) Ha. unfold scan_inbound, scan_result. destruct (scan_window avail) as [n|] eqn:Hw; [|done].
  apply scan_window_fits in Hw as [Hn Hn']. unfold sk_len in Ha. cbn [fst]. rewrite scan_loop_spec; [|..|done|done].
  - erewrite find_ext; [done|]. intros x. apply occurs_payload. lia.
  - rewrite length_app, length_drop, Hb. unfold slice. rewrite length_take, length_drop. lia.
  - done.
Qed.

Section Receive.
Context (lru_update : gmap flow_key flow_tally -> flow_key -> flow_tally -> gmap flow_key flow_tally) (big : bool).

Lemma account_reply_keeps now s fk st :
  st_signatures (account_reply lru_update now s fk st) = st_signatures st
  /\ st_scan_buf (account_reply lru_update now s fk st) = st_scan_buf st
  /\ st_sig_config (account_reply lru_update now s fk st) = st_sig_config st.
Proof. unfold account_reply. cbv zeta. by destruct (st_flows st !! fk). Qed.

(** Toward a container, exactly one kind of packet is dropped: TCP to a veth whose policy is enforced, while the scan is
    on, with a payload in which the first enabled signature that occurs in the scanned window has a nonzero id. *)
Theorem receive_drops now m s st :
  scan_ready st ->
  (netpolicy_egress lru_update big now m s st).1 = TC_ACT_SHOT <->
  is_ipv4 s = true /\ ip_protocol s = IPPROTO_TCP /\ sig_scan_enabled st = true /\ (54 <= length (sk_data s))%nat /\
  20 <= tcp_hlen s /\ 34 + tcp_hlen s < sk_len s /\
  (exists cfg, k_veth m !! sk_ifindex s = Some cfg /\ cfg_Mode cfg = ModeEnforce) /\
  scan_result st s (Z.to_nat (34 + tcp_hlen s)) (sk_len s - (34 + tcp_hlen s)) <> 0.
Proof.
  intros Hready. unfold netpolicy_egress. destruct (is_ipv4 s); cbn [negb]; [|naive_solver]. cbv zeta.
  destruct (k_veth m !! sk_ifindex s) as [cfg|]; [|naive_solver]. destruct (ports s) as [sport dport].
  set (st1 := account_reply _ _ _ _ _).
  assert (Hkeep : st_signatures st1 = st_signatures st /\ st_scan_buf st1 = st_scan_buf st /\ st_sig_config st1 = st_sig_config st)
    by apply account_reply_keeps.
  clearbody st1. destruct Hkeep as (H1 & H2 & H3).
  assert (Hready1 : scan_ready st1) by (unfold scan_ready; by rewrite H1, H2).
  assert (sig_scan_enabled st1 = sig_scan_enabled st) as -> by (unfold sig_scan_enabled; by rewrite H3).
  destruct (Z.eqb_spec (ip_protocol s) IPPROTO_TCP); cbn [andb]; [|naive_solver].
  destruct (sig_scan_enabled st); cbn [andb]; [|naive_solver]. unfold sizeof_eth, sizeof_ip, sizeof_tcp. cbn [Nat.add].
  destruct (Nat.leb_spec 54 (length (sk_data s))); [|split; [done|intros (?&?&?&?&?); lia]].
  destruct (Z.leb_spec 20 (tcp_hlen s)); cbn [andb]; [|split; [done|intros (?&?&?&?&?&?); lia]].
  destruct (Z.ltb_spec (34 + tcp_hlen s) (sk_len s)); [|split; [done|intros (?&?&?&?&?&?&?); lia]].
  pose proof (scan_inbound_spec s (Z.to_nat (34 + tcp_hlen s)) (sk_len s - (34 + tcp_hlen s)) st1 Hready1 ltac:(lia)) as Hscan.
  destruct (scan_inbound _ _ _ _) as [sig st2]. cbn [fst] in Hscan. subst sig.
  assert (Hr : forall off a, scan_result st1 s off a = scan_result st s off a) by (intros; unfold scan_result; by rewrite H1).
  rewrite Hr. destruct (Z.eqb_spec (scan_result st s (Z.to_nat (34 + tcp_hlen s)) (sk_len s - (34 + tcp_hlen s))) 0); [naive_solver|].
  destruct (Z.eqb_spec (cfg_Mode cfg) ModeEnforce); cbn [fst]; [|naive_solver].
  split; [|done]. intros _. split_and!; try done. by exists cfg.
Qed.
End Receive.

(** ** A packet *)

(** A TCP segment to 10.0.0.2:80: the headers, 12 bytes of padding, the pattern, more padding. *)
Definition segment (pattern : list Z) : skb :=
  mkSkb (replicate 12 0 ++ [8; 0] ++ [69; 0; 0; 0; 0; 0; 0; 0; 64; 6; 0; 0; 203; 0; 113; 9; 10; 0; 0; 2]
         ++ [156; 64; 0; 80] ++ replicate 8 0 ++ [80] ++ replicate 7 0)
    (replicate 12 65 ++ pattern ++ replicate 40 66) 0 7.

Definition slots_of (sigs : list signature) : list signature :=
  sigs ++ replicate (SIG_MAX_COUNT - length sigs) (mkSig 0 0 0 (replicate SIG_MAX_LEN 0)).

Definition armed_state (sigs : list signature) : pstate := mkState 0 0 ∅ [] (slots_of sigs) 1 (replicate SCAN_WINDOW 0).

Definition shellshock : signature := mkSig 4 1 2 ([40; 41; 32; 123] ++ replicate 28 0).

Definition enforced_veth : kmaps := mkMaps {[7 := mkConfig 3 ModeEnforce 0 0]} ∅ ∅ ∅.

Lemma receive_drops_witness :
  scan_ready (armed_state [shellshock]) /\
  (netpolicy_egress (fun m k t => <[k := t]> m) true 0 enforced_veth (segment [40; 41; 32; 123]) (armed_state [shellshock])).1 = TC_ACT_SHOT.
Proof.
  assert (Hready : scan_ready (armed_state [shellshock])).
  { split; [vm_compute; reflexivity|]. split; [vm_compute; reflexivity|]. apply Forall_app. split.
    - apply Forall_singleton. split; [vm_compute; reflexivity|cbn; lia].
    - apply Forall_replicate. split; [vm_compute; reflexivity|cbn; lia]. }
  split; [exact Hready|]. apply (receive_drops (fun m k t => <[k := t]> m) true 0 enforced_veth _ _ Hready).
  split_and!; [vm_compute; reflexivity..|vm_compute; lia|vm_compute; done|vm_compute; done| |vm_compute; done].
  exists (mkConfig 3 ModeEnforce 0 0). by vm_compute.
Defined.

(** The window is the power of two that fits: what follows it is not scanned. *)
Example scan_misses_the_tail :
  (netpolicy_egress (fun m k t => <[k := t]> m) true 0 enforced_veth
     (mkSkb (sk_data (segment [])) (replicate 125 65 ++ [40; 41; 32; 123] ++ replicate 126 65) 0 7) (armed_state [shellshock])).1 = TC_ACT_OK
  /\ (netpolicy_egress (fun m k t => <[k := t]> m) true 0 enforced_veth
     (mkSkb (sk_data (segment [])) (replicate 125 65 ++ [40; 41; 32; 123] ++ replicate 127 65) 0 7) (armed_state [shellshock])).1 = TC_ACT_SHOT.
Proof. vm_compute. done. Qed.
