(* ===== verification/NetPlan.v ===== *)
(** * Planning and applying the kernel's maps

    internal/server/network_policy_plan.go and the second half of [reconcile] of network_policy_enforcer.go, over
    the calls of the loader.  A monitor follows what the kernel holds: a call that answers true took
    effect, one that answers false did not. *)

From S2P Require Import Prelude Prog GoStrings GoNet GoNetip SafeCast NetPolicy NetBpf NetData.
#[local] Open Scope string_scope.
#[local] Open Scope list_scope.
#[local] Open Scope Z_scope.

(** ** The plan *)

Record containerView := mkView {
  v_Name : string;
  v_Tenant : string;
  v_TenantID : Z;
  v_IP : list Z;
  v_HasIP : bool;
  v_Ifindex : Z;
  v_HasVeth : bool;
  v_Running : bool;
}.

Record reconcilePlan := mkPlan {
  pl_ipTenant : gmap (list Z) Z;
  pl_vethPolicy : gmap Z PolicyConfig;
  pl_ifName : gmap Z string;
  pl_egress : list EgressEntry;
  pl_deny : list DenyEntry;
}.

Definition emptyPlan : reconcilePlan := mkPlan ∅ ∅ ∅ [] [].

(** The configuration of one veth: log-only without a policy, and unless enforcement is armed. *)
Definition view_config (policies : gmap string CompiledPolicy) (enforceEnabled : bool) (v : containerView) : PolicyConfig :=
  let cfg :=
    match policies !! v_Tenant v with
    | Some policy => CompileConfig (v_TenantID v) policy
    | None => mkConfig (v_TenantID v) ModeLogOnly 0 0
    end in
  if (cfg_Mode cfg =? ModeEnforce) && negb enforceEnabled
  then mkConfig (cfg_TenantID cfg) ModeLogOnly (cfg_AllowIntra cfg) (cfg_AllowMetadata cfg) else cfg.

(** One iteration: the plan and the tenants whose rules are in it. *)
Definition plan_view (policies : gmap string CompiledPolicy) (enforceEnabled : bool)
  (acc : reconcilePlan * gset Z) (v : containerView) : reconcilePlan * gset Z :=
  let '(pl, done) := acc in
  let ips := if v_HasIP v then <[v_IP v := v_TenantID v]> (pl_ipTenant pl) else pl_ipTenant pl in
  let live := v_Running v && v_HasVeth v in
  let veths := if live then <[v_Ifindex v := view_config policies enforceEnabled v]> (pl_vethPolicy pl) else pl_vethPolicy pl in
  let names := if live then <[v_Ifindex v := v_Name v]> (pl_ifName pl) else pl_ifName pl in
  match policies !! v_Tenant v with
  | Some policy =>
      if decide (v_TenantID v ∈ done) then (mkPlan ips veths names (pl_egress pl) (pl_deny pl), done)
      else (mkPlan ips veths names (pl_egress pl ++ default [] (CompileEgress (v_TenantID v) policy))
              (pl_deny pl ++ default [] (CompileDeny (v_TenantID v) policy)), {[v_TenantID v]} ∪ done)
  | None => (mkPlan ips veths names (pl_egress pl) (pl_deny pl), done)
  end.

Definition planReconcile (views : list containerView) (policies : gmap string CompiledPolicy) (enforceEnabled : bool) : reconcilePlan :=
  (foldl (plan_view policies enforceEnabled) (emptyPlan, ∅) views).1.

Definition activeDenyRules (rules : list DenyRule) (now : Time) : list DenyRule := filter (fun r => Expired r now = false) rules.

(** ** Calls *)

(** A slot of the signature map as the daemon writes it. *)
Record SignatureEntry := mkSlot { sl_ID : Z; sl_Len : Z; sl_Enabled : bool; sl_Pattern : list Z }.

Record Container := mkContainer {
  cn_Name : string; cn_Role : string; cn_Tenant : string; cn_Labels : gmap string string; cn_IPAddress : string; cn_State : string;
}.

Record SigMsg := mkSigMsg { sg_Name : string; sg_Pattern : list Z; sg_Enabled : bool; sg_Id : Z; sg_Note : string }.

Inductive ncall :=
(** the loader: what changes the kernel *)
| NSetIPTenant (ip : list Z) (tenant : Z) | NDeleteIPTenant (ip : list Z)
| NAddEgress (e : EgressEntry) | NDeleteEgress (e : EgressEntry)
| NAddDeny (e : DenyEntry) | NDeleteDeny (k : DenyKey)
| NSetVethPolicy (ifindex : Z) (cfg : PolicyConfig)
| NAttachVeth (ifindex : Z) | NAttachVethEgress (ifindex : Z) | NDetachVeth (ifindex : Z)
| NSetSignature (slot : nat) (e : SignatureEntry)
(** what the loaded object offers *)
| NHasDenyRules | NHasSignatures
(** the daemon's sources *)
| NListContainers | NGetRawInstance (name : string) | NVethIndex (veth : string) | NTenantID (tenant : string)
| NListPolicies | NResolve (domain : string) | NListSignatures | NNow.

Definition nans (c : ncall) : Type :=
  match c with
  | NListContainers => option (list Container)
  | NGetRawInstance _ => option (gmap string string)
  | NVethIndex _ | NTenantID _ => option Z
  | NListPolicies => option (list NetworkPolicy)
  | NResolve _ => list (list Z)
  | NListSignatures => option (list SigMsg)
  | NNow => Time
  | _ => bool
  end.

Abbreviation nprog := (prog nans) (only parsing).

(** ** What the kernel holds *)

Record kernel := mkKernel { kn_maps : kmaps; kn_links : gset Z; kn_slots : gmap nat SignatureEntry }.

Definition on_veth f (k : kernel) : kernel :=
  let m := kn_maps k in mkKernel (mkMaps (f (k_veth m)) (k_egress m) (k_deny m) (k_ip m)) (kn_links k) (kn_slots k).
Definition on_egress f (k : kernel) : kernel :=
  let m := kn_maps k in mkKernel (mkMaps (k_veth m) (f (k_egress m)) (k_deny m) (k_ip m)) (kn_links k) (kn_slots k).
Definition on_deny f (k : kernel) : kernel :=
  let m := kn_maps k in mkKernel (mkMaps (k_veth m) (k_egress m) (f (k_deny m)) (k_ip m)) (kn_links k) (kn_slots k).
Definition on_ip f (k : kernel) : kernel :=
  let m := kn_maps k in mkKernel (mkMaps (k_veth m) (k_egress m) (k_deny m) (f (k_ip m))) (kn_links k) (kn_slots k).
Definition on_links f (k : kernel) : kernel := mkKernel (kn_maps k) (f (kn_links k)) (kn_slots k).
Definition on_slots f (k : kernel) : kernel := mkKernel (kn_maps k) (kn_links k) (f (kn_slots k)).

(** A call and its answer.  [DetachVeth] forgets the link whatever the kernel answers. *)
Definition kstep (k : kernel) (c : ncall) : nans c -> kernel :=
  match c as c return nans c -> kernel with
  | NSetIPTenant ip t => fun ok => if ok then on_ip <[ip := t]> k else k
  | NDeleteIPTenant ip => fun ok => if ok then on_ip (delete ip) k else k
  | NAddEgress e => fun ok => if ok then on_egress <[e := tt]> k else k
  | NDeleteEgress e => fun ok => if ok then on_egress (delete e) k else k
  | NAddDeny e => fun ok => if ok then on_deny <[de_Key e := (de_Port e, de_Proto e)]> k else k
  | NDeleteDeny d => fun ok => if ok then on_deny (delete d) k else k
  | NSetVethPolicy i cfg => fun ok => if ok then on_veth <[i := cfg]> k else k
  | NAttachVeth i => fun ok => if ok then on_links (union {[i]}) k else k
  | NDetachVeth i => fun _ => on_links (fun l => l ∖ {[i]}) k
  | NSetSignature slot e => fun ok => if ok then on_slots <[slot := e]> k else k
  | _ => fun _ => k
  end.

(** ** Applying *)

(** The order in which Go walks a map. *)
Section Apply.
Context (walk : forall A, list A -> list A).

Definition entries {K A} `{Countable K} (m : gmap K A) : list (K * A) := walk _ (map_to_list m).

Definition diffEgress (installed : gset EgressEntry) (desired : list EgressEntry) : list EgressEntry * list EgressEntry :=
  (filter (.∉ installed) desired, filter (.∉ desired) (walk _ (elements installed))).

Definition diffDeny (installed : gmap DenyKey DenyEntry) (desired : list DenyEntry) : list DenyEntry * list DenyKey :=
  (filter (fun e => installed !! de_Key e <> Some e) desired,
   filter (fun k => k ∉ de_Key <$> desired) (entries installed).*1).

Definition diffIPTenant (installed desired : gmap (list Z) Z) : gmap (list Z) Z * list (list Z) :=
  (filter (fun '(ip, t) => installed !! ip <> Some t) desired, filter (fun ip => desired !! ip = None) (entries installed).*1).

(** A loop of calls over a list: each one that works is recorded. *)
Fixpoint record_each {A S} (c : A -> ncall) (ok : forall a, nans (c a) -> bool) (upd : A -> S -> S) (l : list A) (s : S) : nprog S :=
  match l with
  | [] => mret s
  | a :: l => r ← call (c a); record_each c ok upd l (if ok a r then upd a s else s)
  end.

Definition applyDeny (installed : gmap DenyKey DenyEntry) (desired : list DenyEntry) : nprog (gmap DenyKey DenyEntry) :=
  let '(upsert, del) := diffDeny installed desired in
  installed ← record_each NAddDeny (fun _ r => r) (fun de => <[de_Key de := de]>) upsert installed;
  record_each NDeleteDeny (fun _ r => r) delete del installed.

Definition applyIPTenant (installed desired : gmap (list Z) Z) : nprog (gmap (list Z) Z) :=
  let '(set, del) := diffIPTenant installed desired in
  installed ← record_each (fun p => NSetIPTenant p.1 p.2) (fun _ r => r) (fun p => <[p.1 := p.2]>) (entries set) installed;
  record_each NDeleteIPTenant (fun _ r => r) delete del installed.

Definition applyEgress (installed : gset EgressEntry) (desired : list EgressEntry) : nprog (gset EgressEntry) :=
  let '(toAdd, toDel) := diffEgress installed desired in
  installed ← record_each NAddEgress (fun _ r => r) (fun e s => {[e]} ∪ s) toAdd installed;
  record_each NDeleteEgress (fun _ r => r) (fun e s => s ∖ {[e]}) toDel installed.

(** One veth of the plan: whether it counts as present. *)
Definition apply_veth (ifName : gmap Z string) (attached : gmap Z string) (present : gset Z) (ifindex : Z) (cfg : PolicyConfig)
  : nprog (gmap Z string * gset Z) :=
  set ← call (NSetVethPolicy ifindex cfg);
  if negb set then mret (attached, present)
  else
    att ← call (NAttachVeth ifindex);
    if negb att then mret (attached, present)
    else
      _ ← call (NAttachVethEgress ifindex);
      mret (<[ifindex := default "" (ifName !! ifindex)]> attached, {[ifindex]} ∪ present).

Fixpoint apply_veths (ifName : gmap Z string) (l : list (Z * PolicyConfig)) (attached : gmap Z string) (present : gset Z)
  : nprog (gmap Z string * gset Z) :=
  match l with
  | [] => mret (attached, present)
  | (i, cfg) :: l => '(attached, present) ← apply_veth ifName attached present i cfg; apply_veths ifName l attached present
  end.

(** The veths that are gone. *)
Definition detach_gone (present : gset Z) (attached : gmap Z string) : nprog (gmap Z string) :=
  record_each NDetachVeth (fun _ _ => true) delete (filter (.∉ present) (entries attached).*1) attached.

(** What the enforcer remembers of the kernel. *)
Record enforcer := mkEnforcer {
  en_attached : gmap Z string;
  en_enforced : gset Z;
  en_egress : gset EgressEntry;
  en_deny : gmap DenyKey DenyEntry;
  en_ip : gmap (list Z) Z;
}.

Definition enforced_tenants (veths : gmap Z PolicyConfig) : gset Z :=
  list_to_set (cfg_TenantID <$> filter (fun cfg => cfg_Mode cfg = ModeEnforce) (map_to_list veths).*2).

(** [reconcile] from the plan on. *)
Definition converge (pl : reconcilePlan) (e : enforcer) : nprog enforcer :=
  ips ← applyIPTenant (en_ip e) (pl_ipTenant pl);
  egress ← applyEgress (en_egress e) (pl_egress pl);
  hasDeny ← call NHasDenyRules;
  deny ← (if hasDeny : bool then applyDeny (en_deny e) (pl_deny pl) else mret (en_deny e));
  '(attached, present) ← apply_veths (pl_ifName pl) (entries (pl_vethPolicy pl)) (en_attached e) ∅;
  attached ← detach_gone present attached;
  mret (mkEnforcer attached (enforced_tenants (pl_vethPolicy pl)) egress deny ips).
End Apply.
