(* ===== verification/NetConverge.v ===== *)
(** * Converging the kernel's maps

    Whatever fails, the enforcer's tables mirror the kernel ([converge_mirrors]); when nothing fails, the
    kernel holds the plan ([converge_installs]); an unarmed enforcer leaves no configuration that drops. *)

From S2P Require Import Prelude Prog GoStrings GoNet GoNetip SafeCast NetPolicy NetBpf NetData NetPlan.
#[local] Open Scope string_scope.
#[local] Open Scope list_scope.
#[local] Open Scope Z_scope.

(** ** Folds over maps *)

Lemma foldl_insert_lookup {K A} `{Countable K} (l : list (K * A)) (m : gmap K A) i :
  NoDup l.*1 -> foldl (fun m p => <[p.1 := p.2]> m) m l !! i = (list_to_map l ∪ m) !! i.
Proof.
  revert m. induction l as [|[k v] l IH]; intros m Hn; cbn; [by rewrite map_empty_union|]. cbn in Hn. apply NoDup_cons in Hn as [Hk Hn].
  rewrite IH by done. rewrite !lookup_union, !lookup_insert.
  destruct (decide (k = i)) as [->|]; [|done]. rewrite not_elem_of_list_to_map_1 by done. by destruct (m !! i).
Qed.

Lemma foldl_delete_lookup {K A} `{Countable K} (l : list K) (m : gmap K A) i :
  foldl (fun m k => delete k m) m l !! i = if decide (i ∈ l) then None else m !! i.
Proof.
  revert m. induction l as [|k l IH]; intros m; cbn; [done|]. rewrite IH. destruct (decide (i = k)) as [->|].
  - rewrite lookup_delete_eq. destruct (decide (k ∈ l)), (decide (k ∈ k :: l)); set_solver.
  - rewrite lookup_delete_ne by done. destruct (decide (i ∈ l)), (decide (i ∈ k :: l)); set_solver.
Qed.

Lemma foldl_union {A} `{Countable A} (l : list A) (s : gset A) : foldl (fun s e => {[e]} ∪ s) s l = s ∪ list_to_set l.
Proof. revert s. induction l as [|a l IH]; intros s; cbn; [set_solver|]. rewrite IH. set_solver. Qed.

Lemma foldl_difference {A} `{Countable A} (l : list A) (s : gset A) : foldl (fun s e => s ∖ {[e]}) s l = s ∖ list_to_set l.
Proof. revert s. induction l as [|a l IH]; intros s; cbn; [set_solver|]. rewrite IH. set_solver. Qed.

Section Converge.
Context (walk : forall A, list A -> list A) (Hwalk : forall A (l : list A), walk A l ≡ₚ l).

Lemma elem_of_entries {K A} `{Countable K} (m : gmap K A) k v : (k, v) ∈ entries walk m <-> m !! k = Some v.
Proof. unfold entries. by rewrite Hwalk, elem_of_map_to_list. Qed.

Lemma elem_of_entries_fst {K A} `{Countable K} (m : gmap K A) k : k ∈ (entries walk m).*1 <-> is_Some (m !! k).
Proof.
  rewrite list_elem_of_fmap. split; [intros ([k' v] & -> & Hk%elem_of_entries); by exists v|].
  intros [v Hv]. exists (k, v). by rewrite elem_of_entries.
Qed.

Lemma NoDup_entries {K A} `{Countable K} (m : gmap K A) : NoDup (entries walk m).*1.
Proof. unfold entries. rewrite Hwalk. apply NoDup_fst_map_to_list. Qed.

Lemma list_to_map_entries {K A} `{Countable K} (m : gmap K A) : list_to_map (entries walk m) = m.
Proof.
  rewrite (list_to_map_proper _ (map_to_list m)); [by rewrite list_to_map_to_list|apply NoDup_entries|apply Hwalk].
Qed.

(** ** Programs against the kernel *)

Context (al : forall c, nans c -> Prop).

Abbreviation holds p post k := (wp (fun (_ : kernel) => al) kstep (fun _ _ => True) p post k) (only parsing).

(** A loop keeps a relation between what it records and the kernel; when its calls work, it records all of them. *)
Lemma record_each_wp {A S} (c : A -> ncall) (ok : forall a, nans (c a) -> bool) (upd : A -> S -> S) (R : S -> kernel -> Prop) l s k :
  (forall a s k r, R s k -> R (if ok a r then upd a s else s) (kstep k (c a) r)) -> R s k ->
  holds (record_each c ok upd l s)
    (fun k' s' => R s' k' /\ ((forall a r, al (c a) r -> ok a r = true) -> s' = foldl (fun s a => upd a s) s l)) k.
Proof.
  intros HR. revert s k. induction l as [|a l IH]; intros s k Hs; cbn [record_each]; [by split|].
  apply wp_call_bind; [done|]. intros r Hr. eapply wp_mono; [|apply IH, HR, Hs]. cbn.
  intros k' s' [H1 H2]. split; [done|]. intros Hok. rewrite H2 by done. cbn. by rewrite (Hok a r Hr).
Qed.

(** Two loops, one after the other. *)
Lemma record_both_wp {A B S} (c : A -> ncall) (ok : forall a, nans (c a) -> bool) (upd : A -> S -> S)
  (d : B -> ncall) (okd : forall b, nans (d b) -> bool) (updd : B -> S -> S) (R : S -> kernel -> Prop) l1 l2 s k :
  (forall a s k r, R s k -> R (if ok a r then upd a s else s) (kstep k (c a) r)) ->
  (forall a s k r, R s k -> R (if okd a r then updd a s else s) (kstep k (d a) r)) -> R s k ->
  holds (s ← record_each c ok upd l1 s; record_each d okd updd l2 s)
    (fun k' s' => R s' k' /\
      ((forall a r, al (c a) r -> ok a r = true) -> (forall a r, al (d a) r -> okd a r = true) ->
       s' = foldl (fun s a => updd a s) (foldl (fun s a => upd a s) s l1) l2)) k.
Proof.
  intros H1 H2 Hs. eapply wp_seq; [by apply (record_each_wp _ _ _ R)|]. cbn beta. intros k1 s1 [HR1 E1].
  eapply wp_mono; [|by apply (record_each_wp _ _ _ R)]. cbn beta. intros k2 s2 [HR2 E2]. split; [done|].
  intros Hc Hd. by rewrite E2, E1.
Qed.

(** The enforcer's tables are what the kernel holds. *)
Definition deny_value (d : DenyEntry) : Z * Z := (de_Port d, de_Proto d).

Definition deny_mirrors (d : gmap DenyKey DenyEntry) (m : gmap EgressEntry (Z * Z)) : Prop :=
  map_Forall (fun k e => de_Key e = k) d /\ m = deny_value <$> d.

Definition set_map (s : gset EgressEntry) : gmap EgressEntry unit := gset_to_gmap tt s.

Record mirrors (ips : gmap (list Z) Z) (egress : gset EgressEntry) (deny : gmap DenyKey DenyEntry) (attached : gmap Z string)
  (k : kernel) : Prop := {
  mi_ip : k_ip (kn_maps k) = ips;
  mi_egress : k_egress (kn_maps k) = set_map egress;
  mi_deny : deny_mirrors deny (k_deny (kn_maps k));
  mi_links : kn_links k = dom attached;
}.

(** The steps of each table. *)
Lemma mirrors_set_ip ips eg dn at_ k ip t :
  mirrors ips eg dn at_ k -> mirrors (<[ip := t]> ips) eg dn at_ (on_ip <[ip := t]> k).
Proof. intros [<- H1 H2 H3]. by split. Qed.

Lemma mirrors_delete_ip ips eg dn at_ k ip : mirrors ips eg dn at_ k -> mirrors (delete ip ips) eg dn at_ (on_ip (delete ip) k).
Proof. intros [<- H1 H2 H3]. by split. Qed.

Lemma mirrors_add_egress ips eg dn at_ k e :
  mirrors ips eg dn at_ k -> mirrors ips ({[e]} ∪ eg) dn at_ (on_egress <[e := tt]> k).
Proof.
  intros [H0 H1 H2 H3]. split; try done. cbn. rewrite H1. unfold set_map. apply map_eq. intros i.
  destruct (decide (i = e)) as [->|].
  - rewrite lookup_insert_eq. symmetry. apply lookup_gset_to_gmap_Some. set_solver.
  - rewrite lookup_insert_ne by done. rewrite !lookup_gset_to_gmap. by rewrite !option_guard_decide; repeat case_decide; set_solver.
Qed.

Lemma mirrors_delete_egress ips eg dn at_ k e :
  mirrors ips eg dn at_ k -> mirrors ips (eg ∖ {[e]}) dn at_ (on_egress (delete e) k).
Proof.
  intros [H0 H1 H2 H3]. split; try done. cbn. rewrite H1. unfold set_map. by rewrite gset_to_gmap_difference_singleton.
Qed.

Lemma mirrors_add_deny ips eg dn at_ k d :
  mirrors ips eg dn at_ k -> mirrors ips eg (<[de_Key d := d]> dn) at_ (on_deny <[de_Key d := (de_Port d, de_Proto d)]> k).
Proof.
  intros [H0 H1 [H2 H2'] H3]. split; try done. split; [by apply map_Forall_insert_2|]. cbn. by rewrite H2', fmap_insert.
Qed.

Lemma mirrors_delete_deny ips eg dn at_ k d :
  mirrors ips eg dn at_ k -> mirrors ips eg (delete d dn) at_ (on_deny (delete d) k).
Proof.
  intros [H0 H1 [H2 H2'] H3]. split; try done. split; [by apply map_Forall_delete|]. cbn. by rewrite H2', fmap_delete.
Qed.

Lemma mirrors_attach ips eg dn at_ k i n :
  mirrors ips eg dn at_ k -> mirrors ips eg dn (<[i := n]> at_) (on_links (union {[i]}) k).
Proof. intros [H0 H1 H2 H3]. split; try done. cbn. rewrite H3, dom_insert_L. done. Qed.

Lemma mirrors_detach ips eg dn at_ k i :
  mirrors ips eg dn at_ k -> mirrors ips eg dn (delete i at_) (on_links (fun l => l ∖ {[i]}) k).
Proof. intros [H0 H1 H2 H3]. split; try done. cbn. rewrite H3, dom_delete_L. done. Qed.

Lemma mirrors_veth ips eg dn at_ k f : mirrors ips eg dn at_ k -> mirrors ips eg dn at_ (on_veth f k).
Proof. intros [H0 H1 H2 H3]. by split. Qed.

(** ** Each table *)

(** The answer of a call that worked, on an object with every map. *)
Definition good_answer (c : ncall) : nans c -> Prop :=
  match c as c return nans c -> Prop with
  | NSetIPTenant _ _ | NDeleteIPTenant _ | NAddEgress _ | NDeleteEgress _ | NAddDeny _ | NDeleteDeny _ | NSetVethPolicy _ _
  | NAttachVeth _ | NAttachVethEgress _ | NDetachVeth _ | NSetSignature _ _ | NHasDenyRules => fun ok => ok = true
  | _ => fun _ => True
  end.

Definition reliable : Prop := forall c r, al c r -> good_answer c r.

Definition veths (k : kernel) : gmap Z PolicyConfig := k_veth (kn_maps k).

Lemma ip_table (ips desired : gmap (list Z) Z) :
  foldl (fun s ip => delete ip s)
    (foldl (fun s p => <[p.1 := p.2]> s) ips (entries walk (filter (fun '(ip, t) => ips !! ip <> Some t) desired)))
    (filter (fun ip => desired !! ip = None) (entries walk ips).*1) = desired.
Proof.
  apply map_eq. intros ip. rewrite foldl_delete_lookup.
  rewrite foldl_insert_lookup by apply NoDup_entries. rewrite list_to_map_entries, lookup_union.
  destruct (decide _) as [Hd|Hd]; [by apply list_elem_of_filter in Hd as [-> _]|].
  rewrite map_lookup_filter. destruct (desired !! ip) as [t|] eqn:Et; cbn.
  - destruct (ips !! ip) as [t'|] eqn:Ei; [|by rewrite option_guard_True].
    destruct (decide (t' = t)) as [->|Hne]; [by rewrite option_guard_False by naive_solver|].
    by rewrite option_guard_True by congruence.
  - destruct (ips !! ip) as [t'|] eqn:Ei; [|done]. exfalso. apply Hd. apply list_elem_of_filter. split; [done|].
    apply elem_of_entries_fst. by eexists.
Qed.

Lemma applyIPTenant_wp ips eg dn at_ k desired :
  mirrors ips eg dn at_ k ->
  holds (applyIPTenant walk ips desired)
    (fun k' ips' => (mirrors ips' eg dn at_ k' /\ veths k' = veths k) /\ (reliable -> ips' = desired)) k.
Proof.
  intros Hm. unfold applyIPTenant, diffIPTenant. eapply wp_mono; [|apply (record_both_wp _ _ _ _ _ _ (fun s k' => mirrors s eg dn at_ k' /\ veths k' = veths k))].
  - cbn beta. intros k' s' [HR E]. split; [done|]. intros Hr. rewrite E by (intros a r H; exact (Hr _ _ H)). apply ip_table.
  - intros p s k' [] [H1 H2]; [split; [by apply mirrors_set_ip|done]|done].
  - intros ip s k' [] [H1 H2]; [split; [by apply mirrors_delete_ip|done]|done].
  - done.
Qed.

Lemma applyEgress_wp ips eg dn at_ k desired :
  mirrors ips eg dn at_ k ->
  holds (applyEgress walk eg desired)
    (fun k' eg' => (mirrors ips eg' dn at_ k' /\ veths k' = veths k) /\ (reliable -> eg' = list_to_set desired)) k.
Proof.
  intros Hm. unfold applyEgress, diffEgress. eapply wp_mono; [|apply (record_both_wp _ _ _ _ _ _ (fun s k' => mirrors ips s dn at_ k' /\ veths k' = veths k))].
  - cbn beta. intros k' s' [HR E]. split; [done|]. intros Hr. rewrite E by (intros a r H; exact (Hr _ _ H)).
    rewrite foldl_difference, foldl_union. apply set_eq. intros e.
    rewrite elem_of_difference, elem_of_union, !elem_of_list_to_set, !list_elem_of_filter, Hwalk, elem_of_elements.
    destruct (decide (e ∈ eg)), (decide (e ∈ desired)); naive_solver.
  - intros e s k' [] [H1 H2]; [split; [by apply mirrors_add_egress|done]|done].
  - intros e s k' [] [H1 H2]; [split; [by apply mirrors_delete_egress|done]|done].
  - done.
Qed.

(** The kernel map of a list of entries with distinct keys. *)
Definition deny_index (l : list DenyEntry) : gmap DenyKey DenyEntry := list_to_map ((fun d => (de_Key d, d)) <$> l).

Lemma deny_index_Some l k d : NoDup (de_Key <$> l) -> deny_index l !! k = Some d <-> d ∈ l /\ de_Key d = k.
Proof.
  intros Hn. unfold deny_index. rewrite <- elem_of_list_to_map.
  - rewrite list_elem_of_fmap. split; [intros (x & [= -> ->] & Hx); done|]. intros [Hd <-]. by exists d.
  - rewrite <- list_fmap_compose. done.
Qed.

(** Upserting what differs and deleting what is not desired gives the desired table. *)
Lemma deny_table dn desired :
  NoDup (de_Key <$> desired) -> map_Forall (fun k e => de_Key e = k) dn ->
  foldl (fun s k => delete k s)
    (foldl (fun s a => <[de_Key a := a]> s) dn (filter (fun e => dn !! de_Key e <> Some e) desired))
    (filter (fun k => k ∉ de_Key <$> desired) (entries walk dn).*1)
  = deny_index desired.
Proof.
  intros Hn Hkey. set (ups := filter _ desired).
  apply map_eq. intros d. rewrite foldl_delete_lookup.
  assert (Hups : foldl (fun s a => <[de_Key a := a]> s) dn ups !! d = (deny_index ups ∪ dn) !! d).
  { unfold deny_index. rewrite <- foldl_insert_lookup.
    - by rewrite foldl_fmap.
    - rewrite <- list_fmap_compose. eapply sublist_NoDup; [exact Hn|]. apply fmap_sublist, sublist_filter. }
  assert (Hnu : NoDup (de_Key <$> ups)) by (eapply sublist_NoDup; [exact Hn|]; apply fmap_sublist, sublist_filter).
  rewrite Hups, lookup_union. destruct (decide _) as [Hd|Hd].
  * apply list_elem_of_filter in Hd as [Hd _]. symmetry. apply eq_None_not_Some. intros [x Hx].
    apply deny_index_Some in Hx as [Hx <-]; [|done]. by apply Hd, list_elem_of_fmap_2.
  * apply option_eq. intros x. rewrite deny_index_Some by done.
    rewrite union_Some, eq_None_not_Some, deny_index_Some by done. split.
    -- intros [[[_ Hx]%list_elem_of_filter Hk]|[Hnone Hx]]; [done|]. split; [|by eapply Hkey].
       assert (Hin : d ∈ de_Key <$> desired).
       { apply dec_stable. intros Hnd. apply Hd, list_elem_of_filter. split; [done|]. apply elem_of_entries_fst. by eexists. }
       apply list_elem_of_fmap in Hin as (y & -> & Hy). destruct (decide (dn !! de_Key y = Some y)) as [Ey|Ey]; [congruence|].
       exfalso. apply Hnone. exists y. apply deny_index_Some; [done|]. split; [|done]. apply list_elem_of_filter. by split.
    -- intros [Hx Hk]. destruct (decide (dn !! d = Some x)) as [Ex|Ex].
       ++ right. split; [|done]. intros [y [[Hy Hyd]%list_elem_of_filter Hky]%deny_index_Some]; [|done].
          assert (y = x) as ->; [|congruence].
          assert (Hl : deny_index desired !! d = Some y) by by apply deny_index_Some.
          assert (Hl' : deny_index desired !! d = Some x) by by apply deny_index_Some. congruence.
       ++ left. split; [|done]. apply list_elem_of_filter. split; [by rewrite Hk|done].
Qed.

Lemma applyDeny_wp ips eg dn at_ k desired :
  mirrors ips eg dn at_ k ->
  holds (applyDeny walk dn desired)
    (fun k' dn' => (mirrors ips eg dn' at_ k' /\ veths k' = veths k)
       /\ (reliable -> NoDup (de_Key <$> desired) -> dn' = deny_index desired)) k.
Proof.
  intros Hm. unfold applyDeny, diffDeny. eapply wp_mono; [|apply (record_both_wp _ _ _ _ _ _ (fun s k' => mirrors ips eg s at_ k' /\ veths k' = veths k))].
  - cbn beta. intros k' s' [HR E]. split; [done|]. intros Hr Hn. rewrite E by (intros a r H; exact (Hr _ _ H)).
    apply deny_table; [done|apply (mi_deny _ _ _ _ _ Hm)].
  - intros e s k' [] [H1 H2]; [split; [by apply mirrors_add_deny|done]|done].
  - intros e s k' [] [H1 H2]; [split; [by apply mirrors_delete_deny|done]|done].
  - done.
Qed.

(** ** The veths *)

(** What a pass over [l] may have written. *)
Definition veths_from (l : list (Z * PolicyConfig)) (k k' : kernel) : Prop :=
  forall i c, veths k' !! i = Some c -> veths k !! i = Some c \/ (i, c) ∈ l.

Lemma apply_veth_wp ips eg dn ifName at_ present i cfg k :
  mirrors ips eg dn at_ k -> present ⊆ dom at_ ->
  holds (apply_veth ifName at_ present i cfg)
    (fun k' '(at', present') => mirrors ips eg dn at' k' /\ present' ⊆ dom at' /\ veths_from [(i, cfg)] k k' /\
       (reliable -> present' = {[i]} ∪ present /\ veths k' = <[i := cfg]> (veths k) /\ dom at' = {[i]} ∪ dom at_)) k.
Proof.
  intros Hm Hp. unfold apply_veth.
  assert (Hset : veths_from [(i, cfg)] k (on_veth <[i := cfg]> k)).
  { intros j c. unfold veths. cbn. rewrite lookup_insert. case_decide; [intros [= <-]; subst; right; set_solver|by left]. }
  apply wp_call_bind; [done|]. intros [] Hr; cbn [negb kstep].
  - apply wp_call_bind; [done|]. intros [] Hr2; cbn [negb kstep].
    + apply wp_call_bind; [done|]. intros r3 Hr3. cbn [kstep]. split_and!.
      * by apply mirrors_attach, mirrors_veth.
      * rewrite dom_insert_L. set_solver.
      * exact Hset.
      * intros _. split_and!; [done|done|by rewrite dom_insert_L].
    + split_and!; [by apply mirrors_veth|done|exact Hset|]. intros Hrel. by specialize (Hrel _ _ Hr2).
  - split_and!; [done|done|by left|]. intros Hrel. by specialize (Hrel _ _ Hr).
Qed.

Lemma apply_veths_wp ips eg dn ifName l at_ present k :
  mirrors ips eg dn at_ k -> present ⊆ dom at_ ->
  holds (apply_veths ifName l at_ present)
    (fun k' '(at', present') => mirrors ips eg dn at' k' /\ present' ⊆ dom at' /\ veths_from l k k' /\
       (reliable -> NoDup l.*1 -> present' = list_to_set l.*1 ∪ present /\ veths k' = list_to_map l ∪ veths k
          /\ dom at' = list_to_set l.*1 ∪ dom at_)) k.
Proof.
  revert at_ present k. induction l as [|[i cfg] l IH]; intros at_ present k Hm Hp; cbn [apply_veths].
  - cbn. split_and!; [done|done|by left|]. intros _ _. split_and!; [set_solver|by rewrite map_empty_union|set_solver].
  - eapply wp_seq; [by eapply apply_veth_wp|]. cbn beta. intros k1 [at1 p1] (Hm1 & Hp1 & Hv1 & Hr1).
    eapply wp_mono; [|by apply IH]. cbn beta. intros k2 [at2 p2] (Hm2 & Hp2 & Hv2 & Hr2). split_and!; [done|done|..].
    + intros j c Hj. apply Hv2 in Hj as [Hj|Hj]; [|right; by right]. apply Hv1 in Hj as [Hj|Hj]; [by left|right; set_solver].
    + intros Hrel Hn. cbn in Hn. apply NoDup_cons in Hn as [Hi Hn].
      destruct (Hr1 Hrel) as (-> & E1 & Ed1). destruct (Hr2 Hrel Hn) as (-> & -> & ->). rewrite E1, Ed1. cbn. split_and!; [set_solver| |set_solver].
      rewrite <- insert_union_r by by apply not_elem_of_list_to_map_1. by rewrite insert_union_l.
Qed.

Lemma detach_gone_wp ips eg dn at_ present k :
  mirrors ips eg dn at_ k -> present ⊆ dom at_ ->
  holds (detach_gone walk present at_)
    (fun k' at' => mirrors ips eg dn at' k' /\ veths k' = veths k /\ dom at' = present) k.
Proof.
  intros Hm Hp. unfold detach_gone.
  eapply wp_mono; [|apply (record_each_wp _ _ _ (fun s k' => mirrors ips eg dn s k' /\ veths k' = veths k))].
  - cbn beta. intros k' s' [[HR HR'] E]. split; [done|]. split; [done|]. rewrite E by done. apply set_eq. intros i.
    rewrite elem_of_dom, foldl_delete_lookup. destruct (decide _) as [Hd|Hd].
    + apply list_elem_of_filter in Hd as [Hd _]. split; [by intros [? ?]|done].
    + rewrite <- elem_of_dom. split; [|set_solver]. intros Hi. apply dec_stable. intros Hnp. apply Hd, list_elem_of_filter.
      split; [done|]. by apply elem_of_entries_fst, elem_of_dom.
  - intros i s k' r [H1 H2]. split; [by apply mirrors_detach|done].
  - done.
Qed.

(** ** The whole pass *)

Definition mirrored (e : enforcer) (k : kernel) : Prop := mirrors (en_ip e) (en_egress e) (en_deny e) (en_attached e) k.

(** What a pass does whatever is answered, and what it does when every call works. *)
Lemma converge_wp pl e k :
  mirrored e k ->
  holds (converge walk pl e)
    (fun k' e' => mirrored e' k' /\ veths_from (map_to_list (pl_vethPolicy pl)) k k' /\
       (reliable -> NoDup (de_Key <$> pl_deny pl) ->
          en_ip e' = pl_ipTenant pl /\ en_egress e' = list_to_set (pl_egress pl) /\ en_deny e' = deny_index (pl_deny pl)
          /\ dom (en_attached e') = dom (pl_vethPolicy pl) /\ veths k' = pl_vethPolicy pl ∪ veths k
          /\ en_enforced e' = enforced_tenants (pl_vethPolicy pl))) k.
Proof.
  intros Hm. unfold converge. eapply wp_seq; [by apply applyIPTenant_wp|]. cbn beta. intros k1 ips [[Hm1 V1] C1].
  eapply wp_seq; [by apply applyEgress_wp|]. cbn beta. intros k2 eg [[Hm2 V2] C2].
  apply wp_call_bind; [done|]. intros has Hhas. cbn [kstep].
  eapply (wp_seq _ _ _ _ _ (fun k' dn' => (mirrors ips eg dn' (en_attached e) k' /\ veths k' = veths k2)
    /\ (reliable -> NoDup (de_Key <$> pl_deny pl) -> dn' = deny_index (pl_deny pl)))).
  { destruct has; [by apply applyDeny_wp|]. cbn. split; [done|]. intros Hrel. by specialize (Hrel _ _ Hhas). }
  cbn beta. intros k3 dn [[Hm3 V3] C3].
  eapply wp_seq; [by apply (apply_veths_wp ips eg dn)|]. cbn beta. intros k4 [at4 present] (Hm4 & Hp4 & V4 & C4).
  eapply wp_seq; [by apply detach_gone_wp|]. cbn beta. intros k5 at5 (Hm5 & V5 & Hd5). cbn.
  assert (Vk : veths k3 = veths k) by congruence. split; [done|]. split.
  - intros i c. rewrite V5. intros Hi. apply V4 in Hi as [Hi|Hi]; [left; by rewrite <- Vk|right].
    by apply elem_of_map_to_list, elem_of_entries.
  - intros Hrel Hn. destruct (C4 Hrel (NoDup_entries _)) as (-> & Hv & _). split_and!; [by apply C1|by apply C2|by apply C3| | |done].
    + rewrite Hd5. rewrite union_empty_r_L. apply set_eq. intros i.
      by rewrite elem_of_list_to_set, elem_of_entries_fst, elem_of_dom.
    + rewrite V5, Hv, Vk. by rewrite list_to_map_entries.
Qed.
End Converge.
