(* ===== verification/NetVerdict.v ===== *)
(** * What an enforced policy means for a packet

    The composition of the plan, the pass that installs it and the program that reads the maps: after a
    pass in which every call worked, the verdict on a packet is the policy's ([pass_enforced]). *)

From S2P Require Import Prelude Prog GoStrings GoNet GoNetip SafeCast NetPolicy NetNormal NetBpf NetData NetPlan NetConverge.
#[local] Open Scope string_scope.
#[local] Open Scope list_scope.
#[local] Open Scope Z_scope.

(** ** What the plan contains *)

Section Plan.
Context (policies : gmap string CompiledPolicy) (enforceEnabled : bool).

Definition live (v : containerView) : Prop := v_Running v && v_HasVeth v = true.
Definition has_ip (v : containerView) : Prop := v_HasIP v = true.

#[export] Instance live_dec v : Decision (live v).
Proof. unfold live. apply _. Defined.
#[export] Instance has_ip_dec v : Decision (has_ip v).
Proof. unfold has_ip. apply _. Defined.

(** The first view of each tenant that has a policy. *)
Fixpoint firsts (done : gset Z) (views : list containerView) : list (containerView * CompiledPolicy) :=
  match views with
  | [] => []
  | v :: views =>
      match policies !! v_Tenant v with
      | Some p => if decide (v_TenantID v ∈ done) then firsts done views else (v, p) :: firsts ({[v_TenantID v]} ∪ done) views
      | None => firsts done views
      end
  end.

Definition egress_of (vp : containerView * CompiledPolicy) : list EgressEntry := default [] (CompileEgress (v_TenantID vp.1) vp.2).
Definition deny_of (vp : containerView * CompiledPolicy) : list DenyEntry := default [] (CompileDeny (v_TenantID vp.1) vp.2).

Lemma filter_has_ip v vs : filter has_ip (v :: vs) = if v_HasIP v then v :: filter has_ip vs else filter has_ip vs.
Proof. rewrite filter_cons. unfold has_ip at 1. destruct (decide _) as [->|H]; [done|]. by destruct (v_HasIP v). Qed.

Lemma filter_live v vs : filter live (v :: vs) = if v_Running v && v_HasVeth v then v :: filter live vs else filter live vs.
Proof. rewrite filter_cons. unfold live at 1. destruct (decide _) as [->|H]; [done|]. by destruct (v_Running v && v_HasVeth v). Qed.

Lemma plan_fold views pl done :
  let r := (foldl (plan_view policies enforceEnabled) (pl, done) views).1 in
  pl_ipTenant r = foldl (fun m p => <[p.1 := p.2]> m) (pl_ipTenant pl) ((fun v => (v_IP v, v_TenantID v)) <$> filter has_ip views)
  /\ pl_vethPolicy r = foldl (fun m p => <[p.1 := p.2]> m) (pl_vethPolicy pl)
       ((fun v => (v_Ifindex v, view_config policies enforceEnabled v)) <$> filter live views)
  /\ pl_egress r = pl_egress pl ++ mjoin (egress_of <$> firsts done views)
  /\ pl_deny r = pl_deny pl ++ mjoin (deny_of <$> firsts done views).
Proof.
  revert pl done. induction views as [|v views IH]; intros pl done; [cbn; by rewrite !app_nil_r|].
  cbn [foldl firsts]. destruct (plan_view policies enforceEnabled (pl, done) v) as [pl1 done1] eqn:E.
  specialize (IH pl1 done1). cbn zeta in IH |- *. destruct IH as (-> & -> & -> & ->).
  rewrite filter_has_ip, filter_live. unfold plan_view in E.
  destruct (policies !! v_Tenant v) as [p|]; [destruct (decide (v_TenantID v ∈ done))|]; injection E as <- <-; cbn [pl_ipTenant pl_vethPolicy pl_egress pl_deny];
    destruct (v_HasIP v), (v_Running v && v_HasVeth v); cbn; rewrite ?app_assoc; done.
Qed.

(** Tenant ids name tenants. *)
Definition ids_ok (views : list containerView) : Prop :=
  forall v w, v ∈ views -> w ∈ views -> v_TenantID v = v_TenantID w <-> v_Tenant v = v_Tenant w.

Lemma firsts_sound done views v p : (v, p) ∈ firsts done views -> v ∈ views /\ policies !! v_Tenant v = Some p /\ v_TenantID v ∉ done.
Proof.
  revert done. induction views as [|w views IH]; intros done; cbn [firsts]; [by intros H%elem_of_nil|].
  destruct (policies !! v_Tenant w) as [q|] eqn:E; [destruct (decide (v_TenantID w ∈ done))|].
  - intros (H1 & H2 & H3)%IH. split_and!; [by right|done|done].
  - intros [[= -> ->]|(H1 & H2 & H3)%IH]%elem_of_cons; [split_and!; [by left|done|done]|]. split_and!; [by right|done|set_solver].
  - intros (H1 & H2 & H3)%IH. split_and!; [by right|done|done].
Qed.

Lemma firsts_complete done views v p :
  v ∈ views -> policies !! v_Tenant v = Some p -> v_TenantID v ∉ done ->
  exists w q, (w, q) ∈ firsts done views /\ v_TenantID w = v_TenantID v.
Proof.
  revert done. induction views as [|w views IH]; intros done Hv Hp Hd; [by apply elem_of_nil in Hv|]. cbn [firsts].
  apply elem_of_cons in Hv as [->|Hv].
  - rewrite Hp. destruct (decide _); [done|]. exists w, p. split; [by left|done].
  - destruct (policies !! v_Tenant w) as [q|] eqn:E; [destruct (decide (v_TenantID w ∈ done))|]; [by apply IH| |by apply IH].
    destruct (decide (v_TenantID v = v_TenantID w)) as [Heq|Hne]; [exists w, q; split; [by left|done]|].
    destruct (IH ({[v_TenantID w]} ∪ done) Hv Hp ltac:(set_solver)) as (w' & q' & Hw & Ht). exists w', q'. split; [by right|done].
Qed.

Lemma firsts_NoDup done views : NoDup ((fun vp => v_TenantID vp.1) <$> firsts done views).
Proof.
  revert done. induction views as [|w views IH]; intros done; cbn [firsts]; [constructor|].
  destruct (policies !! v_Tenant w) as [q|]; [destruct (decide (v_TenantID w ∈ done))|]; [apply IH| |apply IH].
  cbn. constructor; [|apply IH]. intros ([v p] & Heq & (_ & _ & Hn)%firsts_sound)%list_elem_of_fmap. cbn in Heq. set_solver.
Qed.

(** The entries of the plan are those of the tenants' policies. *)
Lemma elem_of_firsts {A} (f : containerView * CompiledPolicy -> list A) views x :
  ids_ok views -> (forall v w p, v_TenantID v = v_TenantID w -> f (v, p) = f (w, p)) ->
  x ∈ mjoin (f <$> firsts ∅ views) <-> exists v p, v ∈ views /\ policies !! v_Tenant v = Some p /\ x ∈ f (v, p).
Proof.
  intros Hids Hf. rewrite list_elem_of_join. setoid_rewrite list_elem_of_fmap. split.
  - intros (l & Hx & ([v p] & -> & (Hv & Hp & _)%firsts_sound)). by exists v, p.
  - intros (v & p & Hv & Hp & Hx). destruct (firsts_complete ∅ views v p Hv Hp ltac:(set_solver)) as (w & q & Hw & Ht).
    pose proof (firsts_sound _ _ _ _ Hw) as (Hwv & Hq & _). assert (v_Tenant w = v_Tenant v) as Hten by by apply (Hids w v).
    exists (f (w, q)). split; [|by exists (w, q)]. rewrite Hten in Hq. assert (q = p) as -> by congruence. by rewrite (Hf w v).
Qed.
End Plan.

(** ** What the policy means *)

(** The prefix contains an IPv4 address. *)
Definition contains (p : Prefix) (addr : list Z) : Prop :=
  match pf_addr p with
  | AddrV4 q => mask_octets (pf_bits p) addr = mask_octets (pf_bits p) q
  | AddrV6 _ _ => False
  end.

(** The rule that decides for an address: the most specific one that contains it. *)
Definition decisive (c : CompiledPolicy) (addr : list Z) (d : DenyRule) : Prop :=
  d ∈ c_DenyRules c /\ contains (d_CIDR d) addr /\
  forall d', d' ∈ c_DenyRules c -> contains (d_CIDR d') addr -> pf_bits (d_CIDR d') <= pf_bits (d_CIDR d).

Definition rule_hits (d : DenyRule) (dport proto : Z) : Prop :=
  (d_Port d = 0 \/ d_Port d = dport) /\ (d_Proto d = 0 \/ d_Proto d = proto).

(** Where a tenant's container may connect. *)
Definition destination_ok (views : list containerView) (tenant : string) (c : CompiledPolicy) (addr : list Z) : Prop :=
  if decide (addr = METADATA_IPV4) then c_AllowMetadata c = true
  else (exists w, w ∈ views /\ has_ip w /\ v_IP w = addr /\ v_Tenant w = tenant /\ c_AllowIntraTenant c = true)
    \/ ((forall w, w ∈ views -> has_ip w -> v_IP w <> addr) /\ exists p, p ∈ c_EgressCIDRs c /\ contains p addr).

Definition permits (views : list containerView) (tenant : string) (c : CompiledPolicy) (addr : list Z) (dport proto : Z) : Prop :=
  ~ (exists d, decisive c addr d /\ rule_hits d dport proto) /\ destination_ok views tenant c addr.

(** A compiled IPv4 policy. *)
Definition prefix_v4 (p : Prefix) : Prop := prefix_normal p /\ Is4 (pf_addr p) = true.

Record policy_v4 (c : CompiledPolicy) : Prop := {
  pv_egress : Forall prefix_v4 (c_EgressCIDRs c);
  pv_deny : Forall (fun d => prefix_v4 (d_CIDR d)) (c_DenyRules c);
}.

(** Distinct prefixes, as [Compile] leaves them. *)
Definition policy_distinct (c : CompiledPolicy) : Prop := NoDup (d_CIDR <$> c_DenyRules c).

(** ** Keys *)

(** Small numbers fit their words. *)
Ltac word_range := first [done|split; cbn [it_min it_max u32 u64 it_bits it_signed]; lia].

Lemma entry_key_v4 t p : prefix_v4 p -> exists q, pf_addr p = AddrV4 q /\ entry_key t p = Some (mkEgress (32 + pf_bits p) t q)
  /\ key_ok (mkEgress (32 + pf_bits p) t q).
Proof.
  intros [[[Ha Hb] Hm] H4]. unfold entry_key. destruct p as [[q|b z] n]; [|done]. cbn [pf_addr pf_bits BitLen addr_ok] in *.
  exists q. split; [done|].
  assert (Hw : wrap u32 (tenantPrefixBits + U32 n) = 32 + n).
  { unfold U32, tenantPrefixBits, MaxUint32. destruct (Z.ltb_spec n 0); [lia|].
    rewrite (wrap_in_type_id u64 n) by word_range. destruct (Z.ltb_spec 4294967295 n); [lia|].
    rewrite (wrap_in_type_id u32 n) by word_range. by rewrite (wrap_in_type_id u32 (32 + n)) by word_range. }
  rewrite Hw. split; [done|]. split; cbn [e_PrefixLen e_Addr]; [lia|]. split; [apply Ha|].
  replace (32 + n - 32) with n by lia. unfold Masked in Hm. cbn in Hm. injection Hm as Hm. done.
Qed.

Lemma entry_key_inj t t' p p' k : entry_key t p = Some k -> entry_key t' p' = Some k -> prefix_v4 p -> prefix_v4 p' -> t = t' /\ p = p'.
Proof.
  intros Hk Hk' Hp Hp'. destruct (entry_key_v4 t p Hp) as (q & Hq & E & _). destruct (entry_key_v4 t' p' Hp') as (q' & Hq' & E' & _).
  rewrite E in Hk. rewrite E' in Hk'. assert (Heq : mkEgress (32 + pf_bits p) t q = mkEgress (32 + pf_bits p') t' q') by congruence.
  injection Heq as Hn Ht Hqq. split; [done|]. destruct p, p'. cbn in *. f_equal; [congruence|lia].
Qed.

(** A key of the tries covers what its prefix contains. *)
Lemma covers_contains t t' p k addr : prefix_v4 p -> entry_key t p = Some k -> covers k t' addr <-> t = t' /\ contains p addr.
Proof.
  intros Hp Hk. destruct (entry_key_v4 t p Hp) as (q & Hq & E & _). rewrite E in Hk. injection Hk as <-.
  unfold covers, contains. cbn [e_TenantID e_PrefixLen e_Addr]. rewrite Hq. by replace (32 + pf_bits p - 32) with (pf_bits p) by lia.
Qed.

Lemma entry_key_len t p k : prefix_v4 p -> entry_key t p = Some k -> e_PrefixLen k = 32 + pf_bits p.
Proof. intros Hp Hk. destruct (entry_key_v4 t p Hp) as (q & _ & E & _). rewrite E in Hk. by injection Hk as <-. Qed.

Definition deny_entry (t : Z) (d : DenyRule) : option DenyEntry :=
  (fun k => mkDenyEntry k (d_Port d) (d_Proto d)) <$> entry_key t (d_CIDR d).

(** The entries of a policy are those of its prefixes. *)
Lemma elem_of_mapM {A B} (f : A -> option B) (l : list A) x :
  Forall (fun a => is_Some (f a)) l -> x ∈ default [] (mapM f l) <-> exists a, a ∈ l /\ f a = Some x.
Proof.
  intros Hl. assert (exists k, mapM f l = Some k) as [k Hk] by by apply mapM_is_Some_2.
  rewrite Hk. cbn. apply mapM_Some in Hk. clear Hl. induction Hk as [|a y l k Hy Hk IH].
  - split; [by intros ?%elem_of_nil|]. by intros (a & ?%elem_of_nil & _).
  - rewrite elem_of_cons, IH. split.
    + intros [->|(b & Hb & E)]; [exists a; split; [by left|done]|]. exists b. split; [by right|done].
    + intros (b & [->|Hb]%elem_of_cons & E); [left; congruence|]. right. by exists b.
Qed.

Lemma entry_key_Some t p : prefix_v4 p -> is_Some (entry_key t p).
Proof. intros Hp. destruct (entry_key_v4 t p Hp) as (q & _ & -> & _). by eexists. Qed.

Lemma elem_of_egress v c e :
  policy_v4 c -> e ∈ egress_of (v, c) <-> exists p, p ∈ c_EgressCIDRs c /\ entry_key (v_TenantID v) p = Some e.
Proof.
  intros [He _]. apply elem_of_mapM. eapply Forall_impl; [exact He|]. intros p. apply entry_key_Some.
Qed.

Lemma elem_of_deny v c e :
  policy_v4 c -> e ∈ deny_of (v, c) <-> exists d, d ∈ c_DenyRules c /\ deny_entry (v_TenantID v) d = Some e.
Proof.
  intros [_ Hd]. apply elem_of_mapM. eapply Forall_impl; [exact Hd|]. intros d Hp. cbn in Hp.
  apply fmap_is_Some, entry_key_Some, Hp.
Qed.

Lemma Forall2_from_right {A B} (R : A -> B -> Prop) l k y : Forall2 R l k -> y ∈ k -> exists x, x ∈ l /\ R x y.
Proof.
  induction 1 as [|a b l k Hab H IH]; [by intros ?%elem_of_nil|].
  intros [->|Hy]%elem_of_cons; [exists a; split; [by left|done]|]. destruct (IH Hy) as (x & Hx & HR). exists x. split; [by right|done].
Qed.

(** Rules that compilation leaves: normal, one per prefix. *)
Definition rules_distinct (c : CompiledPolicy) : Prop :=
  Forall (fun d => prefix_normal (d_CIDR d)) (c_DenyRules c) /\ NoDup (d_CIDR <$> c_DenyRules c).

Lemma deny_of_tenant v c e : e ∈ deny_of (v, c) -> e_TenantID (de_Key e) = v_TenantID v.
Proof.
  unfold deny_of. cbn [fst snd]. destruct (CompileDeny (v_TenantID v) c) as [l|] eqn:E; [|by intros ?%elem_of_nil]. cbn.
  apply mapM_Some in E. intros He. destruct (Forall2_from_right _ _ _ _ E He) as (d & Hd & Hk).
  apply fmap_Some in Hk as (k & Hk & ->). cbn. unfold entry_key in Hk. destruct (pf_addr (d_CIDR d)); [|done]. by injection Hk as <-.
Qed.

Lemma egress_of_tenant v c e : e ∈ egress_of (v, c) -> e_TenantID e = v_TenantID v.
Proof.
  unfold egress_of. cbn [fst snd]. destruct (CompileEgress (v_TenantID v) c) as [l|] eqn:E; [|by intros ?%elem_of_nil]. cbn.
  apply mapM_Some in E. intros He. destruct (Forall2_from_right _ _ _ _ E He) as (p & Hp & Hk).
  unfold entry_key in Hk. destruct (pf_addr p); [|done]. by injection Hk as <-.
Qed.

Lemma deny_of_NoDup v c : rules_distinct c -> NoDup (de_Key <$> deny_of (v, c)).
Proof.
  intros [Hn Hd]. unfold deny_of. cbn [fst snd]. destruct (CompileDeny (v_TenantID v) c) as [l|] eqn:E; [|constructor]. cbn.
  unfold CompileDeny in E. apply mapM_Some in E. revert Hn Hd. induction E as [|d e ds es He Hes IH]; intros Hn Hd; [constructor|].
  cbn in Hd |- *. apply Forall_cons in Hn as [Hn Hns]. apply NoDup_cons in Hd as [Hd Hds]. constructor; [|by apply IH].
  intros (e' & Heq & He')%list_elem_of_fmap. destruct (Forall2_from_right _ _ _ _ Hes He') as (d' & Hd' & Hk').
  apply fmap_Some in He as (k & Hk & ->). apply fmap_Some in Hk' as (k' & Hk' & ->). cbn in Heq. subst k'.
  rewrite Forall_forall in Hns. specialize (Hns _ Hd').
  assert (H4 : forall p, prefix_normal p -> is_Some (entry_key (v_TenantID v) p) -> prefix_v4 p).
  { intros p Hp [x Hx]. split; [done|]. unfold entry_key in Hx. by destruct (pf_addr p). }
  destruct (entry_key_inj _ _ _ _ _ Hk Hk' (H4 _ Hn ltac:(by eexists)) (H4 _ Hns ltac:(by eexists))) as [_ Hc].
  apply Hd. rewrite Hc. by apply list_elem_of_fmap_2.
Qed.

Section Verdict.
Context (policies : gmap string CompiledPolicy) (views : list containerView) (armed : bool).

Record views_ok : Prop := {
  vo_ids : ids_ok views;
  vo_ips : NoDup (v_IP <$> filter has_ip views);
  vo_ifs : NoDup (v_Ifindex <$> filter live views);
  vo_rules : map_Forall (fun _ c => rules_distinct c) policies;
}.

Context (Hok : views_ok).

Let pl := planReconcile views policies armed.

Lemma pl_deny_eq : pl_deny pl = mjoin (deny_of <$> firsts policies ∅ views).
Proof. pose proof (plan_fold policies armed views emptyPlan ∅) as (_ & _ & _ & H). exact H. Qed.

Lemma pl_egress_eq : pl_egress pl = mjoin (egress_of <$> firsts policies ∅ views).
Proof. pose proof (plan_fold policies armed views emptyPlan ∅) as (_ & _ & H & _). exact H. Qed.

Lemma pl_deny_NoDup : NoDup (de_Key <$> pl_deny pl).
Proof.
  rewrite pl_deny_eq. pose proof (firsts_NoDup policies ∅ views) as Hn.
  assert (Hs : forall v c, (v, c) ∈ firsts policies ∅ views -> rules_distinct c).
  { intros v c (_ & Hc & _)%firsts_sound. by eapply (vo_rules Hok). }
  revert Hn Hs. generalize (firsts policies ∅ views). intros l. induction l as [|[v c] l IH]; intros Hn Hs; [constructor|].
  cbn in Hn. apply NoDup_cons in Hn as [Hv Hn]. rewrite fmap_cons. cbn [mjoin list_join]. rewrite fmap_app. apply NoDup_app. split_and!.
  - apply deny_of_NoDup, (Hs v c). by left.
  - intros k (e & -> & He)%list_elem_of_fmap (e' & Heq & He')%list_elem_of_fmap. apply deny_of_tenant in He.
    apply list_elem_of_join in He' as (es & He' & ([w q] & -> & Hw)%list_elem_of_fmap). apply deny_of_tenant in He'.
    apply Hv. apply list_elem_of_fmap. exists (w, q). split; [|done]. cbn. congruence.
  - apply IH; [done|]. intros w q Hw. apply (Hs w q). by right.
Qed.

Lemma elem_of_pl_deny e : e ∈ pl_deny pl <-> exists v c, v ∈ views /\ policies !! v_Tenant v = Some c /\ e ∈ deny_of (v, c).
Proof.
  rewrite pl_deny_eq. apply elem_of_firsts; [apply (vo_ids Hok)|]. intros v w p H. unfold deny_of. cbn. by rewrite H.
Qed.

Lemma elem_of_pl_egress e : e ∈ pl_egress pl <-> exists v c, v ∈ views /\ policies !! v_Tenant v = Some c /\ e ∈ egress_of (v, c).
Proof.
  rewrite pl_egress_eq. apply elem_of_firsts; [apply (vo_ids Hok)|]. intros v w p H. unfold egress_of. cbn. by rewrite H.
Qed.

Lemma foldl_pairs_Some {K A B} `{Countable K} (f : B -> K) (g : B -> A) (l : list B) k a :
  NoDup (f <$> l) ->
  foldl (fun m p => <[p.1 := p.2]> m) (∅ : gmap K A) ((fun b => (f b, g b)) <$> l) !! k = Some a <-> exists b, b ∈ l /\ f b = k /\ g b = a.
Proof.
  intros Hn. assert (Hn' : NoDup ((fun b => (f b, g b)) <$> l).*1) by (rewrite <- list_fmap_compose; done).
  rewrite foldl_insert_lookup by done. rewrite map_union_empty, <- elem_of_list_to_map by done. rewrite list_elem_of_fmap.
  split; [intros (b & [= -> ->] & Hb); by exists b|]. intros (b & Hb & <- & <-). by exists b.
Qed.

Lemma pl_ip_Some ip t : pl_ipTenant pl !! ip = Some t <-> exists v, v ∈ views /\ has_ip v /\ v_IP v = ip /\ v_TenantID v = t.
Proof.
  pose proof (plan_fold policies armed views emptyPlan ∅) as (H & _). unfold pl, planReconcile. rewrite H. cbn [pl_ipTenant emptyPlan].
  rewrite foldl_pairs_Some by apply (vo_ips Hok). setoid_rewrite list_elem_of_filter. naive_solver.
Qed.

Lemma pl_veth_Some i cfg :
  pl_vethPolicy pl !! i = Some cfg <-> exists v, v ∈ views /\ live v /\ v_Ifindex v = i /\ view_config policies armed v = cfg.
Proof.
  pose proof (plan_fold policies armed views emptyPlan ∅) as (_ & H & _). unfold pl, planReconcile. rewrite H. cbn [pl_vethPolicy emptyPlan].
  rewrite foldl_pairs_Some by apply (vo_ifs Hok). setoid_rewrite list_elem_of_filter. naive_solver.
Qed.

(** Every configuration of the plan is some view's. *)
Lemma pl_veth_from i cfg : pl_vethPolicy pl !! i = Some cfg -> exists v, v ∈ views /\ live v /\ view_config policies armed v = cfg.
Proof.
  pose proof (plan_fold policies armed views emptyPlan ∅) as (_ & H & _). unfold pl, planReconcile. rewrite H. cbn [pl_vethPolicy emptyPlan].
  assert (Hgen : forall l (m : gmap Z PolicyConfig), foldl (fun m p => <[p.1 := p.2]> m) m l !! i = Some cfg -> m !! i = Some cfg \/ (i, cfg) ∈ l).
  { induction l as [|[j x] l IH]; intros m; cbn; [by left|]. intros [Hl|Hl]%IH; [|right; by right].
    rewrite lookup_insert in Hl. case_decide; [injection Hl as <-; subst; right; by left|by left]. }
  intros [Hl|Hl]%Hgen; [done|]. apply list_elem_of_fmap in Hl as (v & [= _ ->] & Hv). apply list_elem_of_filter in Hv as [Hl Hv]. by exists v.
Qed.

(** The kernel holds the plan. *)
Record installed (m : kmaps) : Prop := {
  in_ip : k_ip m = pl_ipTenant pl;
  in_egress : k_egress m = set_map (list_to_set (pl_egress pl));
  in_deny : k_deny m = deny_value <$> deny_index (pl_deny pl);
  in_veth : pl_vethPolicy pl ⊆ k_veth m;
}.

(** ** The program against the policy *)

Context (lpm : forall V, gmap EgressEntry V -> Z -> list Z -> option V) (Hlpm : lpm_law lpm).
Context (m : kmaps) (Hm : installed m).
Context (v : containerView) (c : CompiledPolicy) (Hv : v ∈ views) (Hc : policies !! v_Tenant v = Some c) (Hv4 : policy_v4 c).

(** The policy's own entries are the ones under the tenant's id. *)
Lemma own_deny e : e ∈ pl_deny pl -> e_TenantID (de_Key e) = v_TenantID v -> exists d, d ∈ c_DenyRules c /\ deny_entry (v_TenantID v) d = Some e.
Proof.
  intros (w & q & Hw & Hq & He)%elem_of_pl_deny Ht. pose proof (deny_of_tenant _ _ _ He) as Hwt.
  assert (v_Tenant w = v_Tenant v) as Hten by (apply (vo_ids Hok w v Hw Hv); congruence).
  assert (q = c) as -> by (rewrite Hten in Hq; congruence). apply elem_of_deny in He; [|done]. by rewrite <- Hwt, Ht in He.
Qed.

Lemma own_deny_in d e : d ∈ c_DenyRules c -> deny_entry (v_TenantID v) d = Some e -> e ∈ pl_deny pl.
Proof. intros Hd He. apply elem_of_pl_deny. exists v, c. split_and!; [done|done|]. apply elem_of_deny; [done|]. by exists d. Qed.

Lemma k_deny_Some k x : k_deny m !! k = Some x <-> exists e, e ∈ pl_deny pl /\ de_Key e = k /\ deny_value e = x.
Proof.
  rewrite (in_deny _ Hm), lookup_fmap, fmap_Some. setoid_rewrite deny_index_Some; [|apply pl_deny_NoDup]. naive_solver.
Qed.

Lemma rule_v4 d : d ∈ c_DenyRules c -> prefix_v4 (d_CIDR d).
Proof. destruct Hv4 as [_ H]. rewrite Forall_forall in H. apply H. Qed.

Lemma rule_entry d : d ∈ c_DenyRules c -> exists e, deny_entry (v_TenantID v) d = Some e /\ entry_key (v_TenantID v) (d_CIDR d) = Some (de_Key e)
  /\ deny_value e = (d_Port d, d_Proto d).
Proof.
  intros Hd. destruct (entry_key_Some (v_TenantID v) _ (rule_v4 d Hd)) as [k Hk]. unfold deny_entry. rewrite Hk. by eexists.
Qed.

(** A deny key of the kernel that covers an address for the tenant is one of the policy's rules. *)
Lemma covering_rule k x addr :
  k_deny m !! k = Some x -> covers k (v_TenantID v) addr ->
  exists d, d ∈ c_DenyRules c /\ entry_key (v_TenantID v) (d_CIDR d) = Some k /\ contains (d_CIDR d) addr /\ x = (d_Port d, d_Proto d).
Proof.
  intros (e & He & <- & <-)%k_deny_Some Hcov. destruct (own_deny e He (proj1 Hcov)) as (d & Hd & Hde).
  destruct (rule_entry d Hd) as (e' & He' & Hk & Hval). assert (e' = e) as -> by congruence.
  exists d. split_and!; [done|done| |done]. by apply (covers_contains _ (v_TenantID v) _ _ addr (rule_v4 d Hd) Hk).
Qed.

Lemma rule_installed d addr : d ∈ c_DenyRules c -> contains (d_CIDR d) addr ->
  exists k, entry_key (v_TenantID v) (d_CIDR d) = Some k /\ k_deny m !! k = Some (d_Port d, d_Proto d) /\ covers k (v_TenantID v) addr.
Proof.
  intros Hd Hcon. destruct (rule_entry d Hd) as (e & He & Hk & Hval). exists (de_Key e). split_and!; [done| |].
  - apply k_deny_Some. exists e. split_and!; [by eapply own_deny_in|done|done].
  - by apply (covers_contains _ _ _ _ addr (rule_v4 d Hd) Hk).
Qed.

(** The longest key is the decisive rule's. *)
Lemma longest_decisive k d addr :
  entry_key (v_TenantID v) (d_CIDR d) = Some k -> d ∈ c_DenyRules c ->
  longest (k_deny m) (v_TenantID v) addr k -> decisive c addr d.
Proof.
  intros Hk Hd (_ & Hcov & Hmax). split; [done|]. split; [by eapply (covers_contains _ (v_TenantID v)), Hcov; [apply rule_v4|]|].
  intros d' Hd' Hcon'. destruct (rule_installed d' addr Hd' Hcon') as (k' & Hk' & Hin & Hcov').
  specialize (Hmax k' ltac:(by eexists) Hcov'). rewrite (entry_key_len _ _ _ (rule_v4 d Hd) Hk), (entry_key_len _ _ _ (rule_v4 d' Hd') Hk') in Hmax. lia.
Qed.

Lemma contains_unique p q addr : prefix_v4 p -> prefix_v4 q -> contains p addr -> contains q addr -> pf_bits p = pf_bits q -> p = q.
Proof.
  intros [[_ Hp] Hp4] [[_ Hq] Hq4] Hcp Hcq Hb. destruct p as [[a|] n], q as [[b|] l]; try done. unfold contains in *. cbn in *. subst l.
  unfold Masked in Hp, Hq. cbn in Hp, Hq. injection Hp as Hp. injection Hq as Hq. f_equal. f_equal. congruence.
Qed.

Lemma decisive_unique addr d d' : decisive c addr d -> decisive c addr d' -> d = d'.
Proof.
  intros (Hd & Hcon & Hmax) (Hd' & Hcon' & Hmax').
  assert (Hcidr : d_CIDR d = d_CIDR d').
  { eapply contains_unique; [by apply rule_v4|by apply rule_v4|done|done|]. specialize (Hmax _ Hd' Hcon'). specialize (Hmax' _ Hd Hcon). lia. }
  pose proof (vo_rules Hok _ _ Hc) as [_ Hn].
  apply list_elem_of_lookup in Hd as [i Hi]. apply list_elem_of_lookup in Hd' as [j Hj].
  assert (i = j) as <-; [|congruence]. eapply (NoDup_lookup _ _ _ (d_CIDR d) Hn); rewrite list_lookup_fmap, ?Hi, ?Hj; cbn; congruence.
Qed.

Definition hits_bool (port pr dport proto : Z) : bool := ((port =? 0) || (port =? dport)) && ((pr =? 0) || (pr =? proto)).

Lemma hits_bool_iff d dport proto : hits_bool (d_Port d) (d_Proto d) dport proto = true <-> rule_hits d dport proto.
Proof. unfold hits_bool, rule_hits. rewrite andb_true_iff, !orb_true_iff, !Z.eqb_eq. naive_solver. Qed.

Lemma vpatch_deny_spec cfg addr dport proto :
  cfg_TenantID cfg = v_TenantID v ->
  vpatch_deny lpm m cfg addr dport proto = true <-> exists d, decisive c addr d /\ rule_hits d dport proto.
Proof.
  intros Ht. unfold vpatch_deny. rewrite Ht. pose proof (Hlpm _ (k_deny m) (v_TenantID v) addr) as H.
  destruct (lpm _ (k_deny m) (v_TenantID v) addr) as [[port pr]|].
  - destruct H as (k & Hk & Hlong). pose proof Hlong as (_ & Hcov & _).
    destruct (covering_rule k _ addr Hk Hcov) as (d & Hd & Hkd & Hcon & Heq). injection Heq as -> ->.
    pose proof (longest_decisive k d addr Hkd Hd Hlong) as Hdec. fold (hits_bool (d_Port d) (d_Proto d) dport proto).
    rewrite hits_bool_iff. split; [by exists d|]. intros (d' & Hd' & Hh). by rewrite (decisive_unique addr d d').
  - split; [done|]. intros (d & (Hd & Hcon & _) & _). destruct (rule_installed d addr Hd Hcon) as (k & _ & Hk & Hcov).
    exfalso. apply (H k); [by eexists|done].
Qed.

(** The allow-list. *)
Lemma egress_lookup addr :
  (exists x, lpm _ (k_egress m) (v_TenantID v) addr = Some x) <-> exists p, p ∈ c_EgressCIDRs c /\ contains p addr.
Proof.
  assert (Hin : forall k, is_Some (k_egress m !! k) <-> k ∈ pl_egress pl).
  { intros k. rewrite (in_egress _ Hm). unfold set_map. rewrite <- (elem_of_list_to_set (C := gset EgressEntry)), <- elem_of_dom.
    by rewrite dom_gset_to_gmap. }
  pose proof (Hlpm _ (k_egress m) (v_TenantID v) addr) as H.
  destruct Hv4 as [Hve _]. rewrite Forall_forall in Hve.
  destruct (lpm _ (k_egress m) (v_TenantID v) addr) as [u|].
  - split; [intros _|by eexists]. destruct H as (k & Hk & (_ & Hcov & _)).
    assert (Hk' : k ∈ pl_egress pl) by (apply Hin; by eexists).
    apply elem_of_pl_egress in Hk' as (w & q & Hw & Hq & Hkw). pose proof (egress_of_tenant _ _ _ Hkw) as Hwt.
    assert (v_Tenant w = v_Tenant v) as Hten by (apply (vo_ids Hok w v Hw Hv); rewrite <- Hwt; apply Hcov).
    assert (q = c) as -> by (rewrite Hten in Hq; congruence). apply elem_of_egress in Hkw as (p & Hp & Hkp); [|done].
    exists p. split; [done|]. eapply (covers_contains _ (v_TenantID v)); [by apply Hve|exact Hkp|exact Hcov].
  - split; [by intros [? ?]|]. intros (p & Hp & Hcon). destruct (entry_key_Some (v_TenantID v) p (Hve _ Hp)) as [k Hk].
    exfalso. apply (H k); [apply Hin, elem_of_pl_egress; exists v, c; split_and!; [done|done|apply elem_of_egress; [done|by exists p]]|].
    by apply (covers_contains _ _ _ _ addr (Hve _ Hp) Hk).
Qed.

Lemma allowed_spec cfg addr :
  cfg_TenantID cfg = v_TenantID v -> (cfg_AllowIntra cfg =? 0) = negb (c_AllowIntraTenant c) -> (cfg_AllowMetadata cfg =? 0) = negb (c_AllowMetadata c) ->
  allowed lpm m cfg addr = true <-> destination_ok views (v_Tenant v) c addr.
Proof.
  intros Ht Hi Hmeta. unfold allowed, destination_ok. rewrite Hi, Hmeta, Ht, !negb_involutive.
  case_bool_decide as Ha; [by rewrite decide_True|]. rewrite decide_False by done. rewrite (in_ip _ Hm).
  destruct (pl_ipTenant pl !! addr) as [t|] eqn:Et.
  - apply pl_ip_Some in Et as (w & Hw & Hip & Hipw & <-). rewrite andb_true_iff, Z.eqb_eq. split.
    + intros [Hwv Hintra]. left. exists w. split_and!; try done. by apply (vo_ids Hok w v Hw Hv).
    + intros [(w' & Hw' & Hip' & Hipw' & Hten & Hintra)|[Hno _]]; [|by destruct (Hno w Hw Hip)]. split; [|done].
      assert (Hl : pl_ipTenant pl !! addr = Some (v_TenantID w')) by (apply pl_ip_Some; by exists w').
      assert (Hl' : pl_ipTenant pl !! addr = Some (v_TenantID w)) by (apply pl_ip_Some; by exists w).
      assert (v_TenantID w' = v_TenantID v) by by apply (vo_ids Hok w' v Hw' Hv). congruence.
  - assert (Hno : forall w, w ∈ views -> has_ip w -> v_IP w <> addr).
    { intros w Hw Hip Heq. assert (Hl : pl_ipTenant pl !! addr = Some (v_TenantID w)) by (apply pl_ip_Some; by exists w). congruence. }
    pose proof (egress_lookup addr) as Hl. destruct (lpm _ (k_egress m) (v_TenantID v) addr) as [u|]; split; try done.
    + intros _. right. split; [done|]. apply Hl. by eexists.
    + intros [(w & Hw & Hip & Hipw & _)|[_ Hp]]; [by destruct (Hno w Hw Hip)|]. apply Hl in Hp as [? ?]. done.
Qed.
End Verdict.

(** ** Verdicts *)

Section Program.
Context (lpm : forall V, gmap EgressEntry V -> Z -> list Z -> option V).
Context (lru_update : gmap flow_key flow_tally -> flow_key -> flow_tally -> gmap flow_key flow_tally) (big : bool).

(** What the send program returns on a managed veth. *)
Lemma ingress_action now m s st cfg :
  is_ipv4 s = true -> k_veth m !! sk_ingress_ifindex s = Some cfg ->
  (netpolicy_ingress lpm lru_update big now m s st).1 =
  (if (negb (vpatch_deny lpm m cfg (ip_daddr s) (ports s).2 (ip_protocol s)) && allowed lpm m cfg (ip_daddr s))
      || negb (cfg_Mode cfg =? ModeEnforce) then TC_ACT_OK else TC_ACT_SHOT).
Proof.
  intros Hip Hcfg. unfold netpolicy_ingress. rewrite Hip. cbn [negb]. cbv zeta. rewrite Hcfg.
  destruct (ports s) as [sport dport]. cbn [snd].
  destruct (negb (vpatch_deny lpm m cfg (ip_daddr s) dport (ip_protocol s)) && allowed lpm m cfg (ip_daddr s)); [done|].
  cbn [orb fst]. by destruct (cfg_Mode cfg =? ModeEnforce).
Qed.

(** A configuration that is not enforcing drops nothing, in either direction. *)
Definition log_only (veths : gmap Z PolicyConfig) : Prop := map_Forall (fun _ cfg => cfg_Mode cfg <> ModeEnforce) veths.

Lemma log_only_passes now m s st :
  log_only (k_veth m) ->
  (netpolicy_ingress lpm lru_update big now m s st).1 = TC_ACT_OK /\ (netpolicy_egress lru_update big now m s st).1 = TC_ACT_OK.
Proof.
  intros Hl. split.
  - destruct (is_ipv4 s) eqn:Hip; [|unfold netpolicy_ingress; by rewrite Hip].
    destruct (k_veth m !! sk_ingress_ifindex s) as [cfg|] eqn:Hcfg; [|unfold netpolicy_ingress; rewrite Hip; cbn [negb]; cbv zeta; by rewrite Hcfg].
    rewrite (ingress_action _ _ _ _ cfg) by done. apply Hl in Hcfg. cbn in Hcfg. destruct (Z.eqb_spec (cfg_Mode cfg) ModeEnforce); [done|].
    by rewrite orb_true_r.
  - unfold netpolicy_egress. destruct (negb (is_ipv4 s)); [done|]. cbv zeta.
    destruct (k_veth m !! sk_ifindex s) as [cfg|] eqn:Hcfg; [|done]. apply Hl in Hcfg. cbn in Hcfg.
    destruct (ports s) as [sport dport]. destruct (_ && _ && _); [|done]. destruct (_ && _); [|done].
    destruct (scan_inbound _ _ _ _) as [sig st2]. destruct (sig =? 0); [done|]. cbn [fst].
    destruct (Z.eqb_spec (cfg_Mode cfg) ModeEnforce); done.
Qed.

Context (Hlpm : lpm_law lpm).
Context (walk : forall A, list A -> list A) (Hwalk : forall A (l : list A), walk A l ≡ₚ l).

Context (al : forall c, nans c -> Prop) (Hal : reliable al).

(** A pass over a kernel and its tables, in which every call works. *)
Definition pass (pl : reconcilePlan) (e : enforcer) (post : kernel -> enforcer -> Prop) (k : kernel) : Prop :=
  wp (fun _ => al) kstep (fun _ _ => True) (converge walk pl e) post k.

(** What it leaves in the kernel. *)
Lemma pass_installs policies views armed e k :
  views_ok policies views -> mirrored e k ->
  pass (planReconcile views policies armed) e (fun k' e' => mirrored e' k' /\ installed policies views armed (kn_maps k')) k.
Proof.
  intros Hok Hm. unfold pass. eapply wp_mono; [|by apply converge_wp]. cbn beta. intros k' e' (Hm' & _ & H). split; [done|].
  destruct (H Hal (pl_deny_NoDup _ _ _ Hok)) as (H1 & H2 & H3 & _ & H5 & _).
  destruct Hm' as [M1 M2 [_ M3] _]. split; [congruence|congruence|congruence|]. fold (veths k'). rewrite H5. apply map_union_subseteq_l.
Qed.

(** The verdicts of the send program are the policy's. *)
Lemma pass_enforced policies views e k :
  views_ok policies views -> mirrored e k ->
  pass (planReconcile views policies true) e (fun k' e' => mirrored e' k' /\
    forall v c now s st,
      v ∈ views -> live v -> policies !! v_Tenant v = Some c -> c_Mode c = MODE_ENFORCE -> policy_v4 c ->
      is_ipv4 s = true -> sk_ingress_ifindex s = v_Ifindex v ->
      (netpolicy_ingress lpm lru_update big now (kn_maps k') s st).1 = TC_ACT_OK
      <-> permits views (v_Tenant v) c (ip_daddr s) (ports s).2 (ip_protocol s)) k.
Proof.
  intros Hok Hm. unfold pass. eapply wp_mono; [|by apply pass_installs]. cbn beta.
  intros k' e' [Hm' Hin]. split; [done|]. intros v c now s st Hv Hl Hc Hmode H4 Hip Hif.
  assert (Hcfg : k_veth (kn_maps k') !! sk_ingress_ifindex s
    = Some (mkConfig (v_TenantID v) ModeEnforce (if c_AllowIntraTenant c then 1 else 0) (if c_AllowMetadata c then 1 else 0))).
  { rewrite Hif. eapply lookup_weaken; [|apply (in_veth _ _ _ _ Hin)]. apply pl_veth_Some; [done|]. exists v. split_and!; [done|done|done|].
    unfold view_config. rewrite Hc. unfold CompileConfig. by rewrite Hmode. }
  rewrite (ingress_action _ _ _ _ _ Hip Hcfg). set (cfg := mkConfig _ _ _ _) in *.
  change (cfg_Mode cfg =? ModeEnforce) with true. rewrite orb_false_r.
  pose proof (vpatch_deny_spec policies views true Hok lpm Hlpm _ Hin v c Hv Hc H4 cfg (ip_daddr s) (ports s).2 (ip_protocol s) eq_refl) as Hd.
  assert (Ha : allowed lpm (kn_maps k') cfg (ip_daddr s) = true <-> destination_ok views (v_Tenant v) c (ip_daddr s)).
  { apply (allowed_spec policies views true Hok lpm Hlpm _ Hin v c Hv Hc H4 cfg); [done|by destruct (c_AllowIntraTenant c)|by destruct (c_AllowMetadata c)]. }
  unfold permits. rewrite <- Hd, <- Ha. destruct (vpatch_deny _ _ _ _ _ _), (allowed _ _ _ _); cbn; naive_solver.
Qed.

(** Tenants are isolated: after such a pass, no container of a tenant with an enforced policy reaches a container of another
    tenant, whatever the policy allows; only the metadata address, which no container has, is decided otherwise. *)
Theorem tenants_isolated policies views e k :
  views_ok policies views -> mirrored e k ->
  pass (planReconcile views policies true) e (fun k' _ =>
    forall v w c now s st,
      v ∈ views -> w ∈ views -> live v -> has_ip w -> v_Tenant v <> v_Tenant w -> v_IP w <> METADATA_IPV4 ->
      policies !! v_Tenant v = Some c -> c_Mode c = MODE_ENFORCE ->
      is_ipv4 s = true -> sk_ingress_ifindex s = v_Ifindex v -> ip_daddr s = v_IP w ->
      (netpolicy_ingress lpm lru_update big now (kn_maps k') s st).1 = TC_ACT_SHOT) k.
Proof.
  intros Hok Hm. unfold pass. eapply wp_mono; [|by apply pass_installs]. cbn beta.
  intros k' e' [_ Hin] v w c now s st Hv Hw Hl Hip Hne Hmeta Hc Hmode His Hif Hd.
  assert (Hcfg : exists ai am, k_veth (kn_maps k') !! sk_ingress_ifindex s = Some (mkConfig (v_TenantID v) ModeEnforce ai am)).
  { rewrite Hif. eexists _, _. eapply lookup_weaken; [|apply (in_veth _ _ _ _ Hin)]. apply pl_veth_Some; [done|]. exists v. split_and!; [done|done|done|].
    unfold view_config. rewrite Hc. unfold CompileConfig. by rewrite Hmode. }
  destruct Hcfg as (ai & am & Hcfg). rewrite (ingress_action _ _ _ _ _ His Hcfg).
  assert (Ha : allowed lpm (kn_maps k') (mkConfig (v_TenantID v) ModeEnforce ai am) (ip_daddr s) = false).
  { unfold allowed. rewrite Hd, bool_decide_eq_false_2 by done. rewrite (in_ip _ _ _ _ Hin).
    assert (pl_ipTenant (planReconcile views policies true) !! v_IP w = Some (v_TenantID w)) as -> by (apply pl_ip_Some; [done|by exists w]).
    destruct (Z.eqb_spec (v_TenantID w) (cfg_TenantID (mkConfig (v_TenantID v) ModeEnforce ai am))) as [E|]; [|done].
    exfalso. apply Hne. symmetry. by apply (vo_ids _ _ Hok w v Hw Hv). }
  by rewrite Ha, andb_false_r.
Qed.
End Program.

(** ** Two tenants *)

Definition view_a : containerView := mkView "a-container" "a" 1 [10; 0; 0; 2] true 7 true true.
Definition view_b : containerView := mkView "b-container" "b" 2 [10; 0; 0; 3] true 8 true true.

(** A policy that allows everything it can name. *)
Definition open_policy : CompiledPolicy :=
  mkCompiled "a" true [mkPrefix (AddrV4 [0; 0; 0; 0]) 0] [] true MODE_ENFORCE false [].

Definition freshEnforcer : enforcer := mkEnforcer ∅ ∅ ∅ ∅ ∅.
Definition emptyKernel : kernel := mkKernel (mkMaps ∅ ∅ ∅ ∅) ∅ ∅.

(** An IPv4 packet that arrives from an interface. *)
Definition packet (ifindex : Z) (proto : Z) (daddr : list Z) (dport : Z) : skb :=
  mkSkb (replicate 12 0 ++ [8; 0] ++ [69; 0; 0; 0; 0; 0; 0; 0; 64; proto; 0; 0; 10; 0; 0; 2] ++ daddr
         ++ [156; 64; dport / 256; dport mod 256] ++ replicate 16 0) [] ifindex ifindex.

Definition insert_lru (m : gmap flow_key flow_tally) (k : flow_key) (t : flow_tally) : gmap flow_key flow_tally := <[k := t]> m.
Definition in_order (A : Type) (l : list A) : list A := l.

Lemma mirrored_fresh : mirrored freshEnforcer emptyKernel.
Proof. by split. Qed.

Lemma two_views_ok : views_ok {["a" := open_policy]} [view_a; view_b].
Proof.
  split.
  - intros v w Hv Hw. rewrite !elem_of_cons, elem_of_nil in Hv, Hw. destruct Hv as [->|[->|[]]], Hw as [->|[->|[]]]; done.
  - apply (bool_decide_unpack _). vm_compute. exact I.
  - apply (bool_decide_unpack _). vm_compute. exact I.
  - apply map_Forall_singleton. split; constructor.
Qed.

Lemma tenants_isolated_witness :
  views_ok {["a" := open_policy]} [view_a; view_b] /\ mirrored freshEnforcer emptyKernel /\
  pass in_order good_answer (planReconcile [view_a; view_b] {["a" := open_policy]} true) freshEnforcer
    (fun k _ => (netpolicy_ingress lpm_ref insert_lru true 0 (kn_maps k) (packet 7 17 [10; 0; 0; 3] 53)
                   (mkState 0 0 ∅ [] [] 0 [])).1 = TC_ACT_SHOT) emptyKernel.
Proof.
  split; [exact two_views_ok|]. split; [exact mirrored_fresh|].
  pose proof (tenants_isolated lpm_ref insert_lru true in_order (fun A l => Permutation_refl l) good_answer
    (fun c r H => H) _ _ _ _ two_views_ok mirrored_fresh) as Hpass.
  unfold pass in Hpass |- *. eapply wp_mono; [|exact Hpass].
  cbn beta. intros k e H. apply (H view_a view_b open_policy).
  - by left.
  - right. by left.
  - vm_compute. by split.
  - vm_compute. reflexivity.
  - vm_compute. discriminate.
  - vm_compute. discriminate.
  - vm_compute. reflexivity.
  - vm_compute. reflexivity.
  - vm_compute. reflexivity.
  - vm_compute. reflexivity.
  - vm_compute. reflexivity.
Defined.
