(* ===== verification/NetEnforcer.v ===== *)
(** * The network-policy enforcer

    internal/server/network_policy_enforcer.go: what a pass reads (containers, interfaces, policies, signatures), and the whole of
    [reconcile] as a program over those reads and the loader's calls. *)

From S2P Require Import Prelude Prog GoStrings GoUtf8 GoNet GoNetip GoBytes SafeCast Incus NetPolicy NetNormal NetBpf NetData NetPlan NetConverge NetVerdict.
From Stdlib Require Import Ascii.
#[local] Open Scope string_scope.
#[local] Open Scope list_scope.
#[local] Open Scope Z_scope.

(** ** Tenants *)

Definition containerSuffix := "-container".
Definition cloudOrgIDLabel := "cloud_org_id".

Definition tenantOf (containerName : string) : string :=
  if HasSuffix containerSuffix containerName then TrimSuffix containerName containerSuffix else "".

Definition resolveTenant (tenantLabel cloudOrgID containerName : string) : string :=
  let t := TrimSpace tenantLabel in
  if negb (String.eqb t "") then t
  else
    let t := TrimSpace cloudOrgID in
    if negb (String.eqb t "") then t else tenantOf containerName.

Definition tenant_of (c : Container) : string :=
  resolveTenant (cn_Tenant c) (default "" (cn_Labels c !! cloudOrgIDLabel)) (cn_Name c).

Example tenant_ex :
  resolveTenant " org1 " "x" "a-container" = "org1" /\ resolveTenant "" "x" "a-container" = "x" /\ resolveTenant "" " " "a-container" = "a"
  /\ resolveTenant "" "" "cld-1" = "".
Proof. vm_compute. done. Qed.

(** ** Interfaces *)

Abbreviation nprog := (prog nans) (only parsing).

(** A container's interface: from the cache, or after an inspection. *)
Definition inspectVeth (cache : gmap string string) (name : string) : nprog (option Z * gmap string string) :=
  cfg ← call (NGetRawInstance name);
  match cfg with
  | None => mret (None, cache)
  | Some cfg =>
      let veth := HostVethFromConfig cfg in
      if String.eqb veth "" then mret (None, cache)
      else
        r ← call (NVethIndex veth);
        match r with
        | None => mret (None, cache)
        | Some ifindex => mret (Some ifindex, <[name := veth]> cache)
        end
  end.

Definition resolveVeth (cache : gmap string string) (name : string) : nprog (option Z * gmap string string) :=
  let veth := default "" (cache !! name) in
  if String.eqb veth "" then inspectVeth cache name
  else
    r ← call (NVethIndex veth);
    match r with
    | Some ifindex => mret (Some ifindex, cache)
    | None => inspectVeth (delete name cache) name
    end.

(** ** Containers *)

Record gathered := mkGathered {
  ga_views : list containerView; ga_idName : gmap Z string; ga_running : gset string; ga_cache : gmap string string;
}.

Definition view_ip (c : Container) : option (list Z) :=
  match ParseAddr (cn_IPAddress c) with Some (AddrV4 q) => Some q | _ => None end.

Definition is_running (c : Container) : bool := EqualFold (cn_State c) "running".

(** One container of the listing. *)
Definition gather_one (g : gathered) (c : Container) : nprog gathered :=
  if String.eqb (cn_Role c) RoleControlPlane then mret g
  else
    let tenant := tenant_of c in
    if String.eqb tenant "" then mret g
    else
      r ← call (NTenantID tenant);
      match r with
      | None => mret g
      | Some tid =>
          let ids := <[tid := tenant]> (ga_idName g) in
          let ip := view_ip c in
          let view ifindex := mkView (cn_Name c) tenant tid (default [] ip) (bool_decide (is_Some ip))
            (default 0 ifindex) (bool_decide (is_Some ifindex)) (is_running c) in
          if is_running c then
            '(ifindex, cache) ← resolveVeth (ga_cache g) (cn_Name c);
            mret (mkGathered (ga_views g ++ [view ifindex]) ids ({[cn_Name c]} ∪ ga_running g) cache)
          else mret (mkGathered (ga_views g ++ [view None]) ids (ga_running g) (ga_cache g))
      end.

Fixpoint gather_loop (g : gathered) (l : list Container) : nprog gathered :=
  match l with
  | [] => mret g
  | c :: l => g ← gather_one g c; gather_loop g l
  end.

(** The views, the names of the ids, and the cache without containers that no longer run. *)
Definition gather (cache : gmap string string) : nprog (option (list containerView * gmap Z string * gmap string string)) :=
  l ← call NListContainers;
  match l with
  | None => mret None
  | Some l =>
      g ← gather_loop (mkGathered [] ∅ ∅ cache) l;
      mret (Some (ga_views g, ga_idName g, filter (fun '(name, _) => name ∈ ga_running g) (ga_cache g)))
  end.

(** ** Policies *)

Section Enforcer.
Context (walk : forall A, list A -> list A) (ToLower : string -> string).

Fixpoint resolve_domains (doms : list string) : nprog (list Prefix) :=
  match doms with
  | [] => mret []
  | d :: doms =>
      ips ← call (NResolve d);
      rest ← resolve_domains doms;
      mret (((fun ip => PrefixFrom (AddrV4 ip) 32) <$> ips) ++ rest)
  end.

Fixpoint compile_loop (out : gmap string CompiledPolicy) (stored : list NetworkPolicy) : nprog (gmap string CompiledPolicy) :=
  match stored with
  | [] => mret out
  | p :: stored =>
      match Compile ToLower (Some p) with
      | inr _ => compile_loop out stored
      | inl c =>
          extra ← resolve_domains (c_EgressDomains c);
          now ← call NNow;
          compile_loop (<[c_Tenant c := mkCompiled (c_Tenant c) (c_AllowIntraTenant c) (c_EgressCIDRs c ++ extra) (c_EgressDomains c)
            (c_AllowMetadata c) (c_Mode c) (c_LogOnly c) (activeDenyRules (c_DenyRules c) now)]> out) stored
      end
  end.

Definition compiledPolicies : nprog (option (gmap string CompiledPolicy)) :=
  stored ← call NListPolicies;
  match stored with
  | None => mret None
  | Some stored => out ← compile_loop ∅ stored; mret (Some out)
  end.

(** ** Signatures *)

Record Signature := mkSignature { sn_ID : Z; sn_Name : string; sn_Pattern : list Z }.

Definition bytes_of_string (s : string) : list Z := (fun a => Z.of_nat (nat_of_ascii a)) <$> String.list_ascii_of_string s.

Definition BuiltinSignatures : list Signature :=
  [ mkSignature 1 "log4shell-jndi" (bytes_of_string "${jndi:");
    mkSignature 2 "shellshock" (bytes_of_string "() {");
    mkSignature 3 "spring4shell" (bytes_of_string "class.module.classLoader");
    mkSignature 4 "path-traversal" (bytes_of_string "../../../");
    mkSignature 5 "etc-passwd" (bytes_of_string "/etc/passwd") ].

(** Operator signatures after the built-in ones, up to the slots there are. *)
Fixpoint add_operator (sigs : list Signature) (ops : list SigMsg) : list Signature :=
  match ops with
  | [] => sigs
  | op :: ops =>
      if negb (sg_Enabled op) then add_operator sigs ops
      else if (SIG_MAX_COUNT <=? length sigs)%nat then sigs
      else add_operator (sigs ++ [mkSignature (U16FromUint (sg_Id op)) (sg_Name op) (sg_Pattern op)]) ops
  end.

Definition fingerprint_one (s : Signature) : string :=
  Itoa (sn_ID s) +:+ ":" +:+ sn_Name s +:+ ":" +:+ hexEncode (sn_Pattern s) +:+ ";".

Definition fingerprint (sigs : list Signature) : string := foldr (fun s t => fingerprint_one s +:+ t) "" sigs.

Definition toSigEntry (s : Signature) : SignatureEntry :=
  let n := Nat.min (length (sn_Pattern s)) SIG_MAX_LEN in
  mkSlot (sn_ID s) (U8 (Z.of_nat n)) true (take n (sn_Pattern s) ++ replicate (SIG_MAX_LEN - n) 0).

Definition emptySlot : SignatureEntry := mkSlot 0 0 false (replicate SIG_MAX_LEN 0).

Record conf := mkConf { cf_sigEnabled : bool; cf_sigStore : bool; cf_enforceEnabled : bool }.

Definition effectiveSignatures (cf : conf) : nprog (list Signature) :=
  if cf_sigStore cf then
    ops ← call NListSignatures;
    match ops with
    | None => mret BuiltinSignatures
    | Some ops => mret (add_operator BuiltinSignatures ops)
    end
  else mret BuiltinSignatures.

Fixpoint write_slots (slots : list nat) (sigs : list Signature) : nprog unit :=
  match slots with
  | [] => mret tt
  | slot :: slots =>
      _ ← call (NSetSignature slot (match sigs !! slot with Some s => toSigEntry s | None => emptySlot end));
      write_slots slots sigs
  end.

(** ** The enforcer's state and its pass *)

Record daemon := mkDaemon {
  dm_enf : enforcer;
  dm_vethCache : gmap string string;
  dm_idName : gmap Z string;
  dm_sigNames : gmap Z string;
  dm_sigLoaded : string;
}.

Definition with_enf e (d : daemon) : daemon := mkDaemon e (dm_vethCache d) (dm_idName d) (dm_sigNames d) (dm_sigLoaded d).
Definition with_cache c (d : daemon) : daemon := mkDaemon (dm_enf d) c (dm_idName d) (dm_sigNames d) (dm_sigLoaded d).
Definition with_ids i (d : daemon) : daemon := mkDaemon (dm_enf d) (dm_vethCache d) i (dm_sigNames d) (dm_sigLoaded d).
Definition with_sigs n l (d : daemon) : daemon := mkDaemon (dm_enf d) (dm_vethCache d) (dm_idName d) n l.

Definition refreshSignatureSlots (cf : conf) (d : daemon) : nprog daemon :=
  if negb (cf_sigEnabled cf) then mret d
  else
    has ← call NHasSignatures;
    if negb has then mret d
    else
      sigs ← effectiveSignatures cf;
      let fp := fingerprint sigs in
      if String.eqb fp (dm_sigLoaded d) then mret d
      else
        _ ← write_slots (seq 0 SIG_MAX_COUNT) sigs;
        mret (with_sigs (foldl (fun m s => <[sn_ID s := sn_Name s]> m) ∅ sigs) fp d).

(** The state after a pass, and whether the pass completed. *)
Definition reconcile (cf : conf) (d : daemon) : nprog (daemon * bool) :=
  g ← gather (dm_vethCache d);
  match g with
  | None => mret (d, false)
  | Some (views, idName, cache) =>
      let d := with_cache cache d in
      ps ← compiledPolicies;
      match ps with
      | None => mret (d, false)
      | Some policies =>
          let plan := planReconcile views policies (cf_enforceEnabled cf) in
          d ← refreshSignatureSlots cf d;
          e ← converge walk plan (dm_enf d);
          mret (with_ids idName (with_enf e d), true)
      end
  end.

(** [NewNetworkPolicyEnforcer]. *)
Definition newDaemon : daemon := mkDaemon (mkEnforcer ∅ ∅ ∅ ∅ ∅) ∅ ∅ ∅ "".

(** Passes one after the other. *)
Fixpoint passes (cf : conf) (n : nat) (d : daemon) : nprog daemon :=
  match n with
  | O => mret d
  | S n => '(d, _) ← reconcile cf d; passes cf n d
  end.

(** [TenantForIP]. *)
Definition TenantForIP (d : daemon) (ip : Addr) : option string :=
  match ip with
  | AddrV4 q => en_ip (dm_enf d) !! q ≫= fun id => dm_idName d !! id
  | AddrV6 _ _ => None
  end.

(** How [OnDenyEvent] files an event: the audit action and whether it counts as dropped. *)
Definition deny_action (d : daemon) (e : DenyEvent) : string * bool :=
  let dropped := bool_decide (ev_TenantID e ∈ en_enforced (dm_enf d)) in
  (if ev_Reason e =? DenyReasonSignature then "network_policy.signature_match"
   else if ev_Reason e =? DenyReasonVirtualPatch then "network_policy.virtual_patch"
   else if dropped then "network_policy.deny_dropped" else "network_policy.deny_logged", dropped).
End Enforcer.
