(* ===== verification/NetPass.v ===== *)
(** * Passes of the network-policy enforcer

    Over whole passes: an enforcer that is not armed never drops a packet, whatever fails
    ([unarmed_never_drops]); a pass over sources and a loader that work makes the kernel decide as the
    stored policies say ([enforced_policy]), and the pass's views and policies are those of the sources. *)

From S2P Require Import Prelude Prog GoStrings GoSort GoUtf8 GoNet GoNetip GoBytes SafeCast Incus NetPolicy NetNormal NetBpf NetData NetPlan NetConverge NetVerdict NetEnforcer.
#[local] Open Scope string_scope.
#[local] Open Scope list_scope.
#[local] Open Scope Z_scope.

(** ** The reads change no map *)

(** Calls after which the maps and links are as before. *)
Definition quiet (c : ncall) : Prop :=
  match c with
  | NSetIPTenant _ _ | NDeleteIPTenant _ | NAddEgress _ | NDeleteEgress _ | NAddDeny _ | NDeleteDeny _ | NSetVethPolicy _ _
  | NAttachVeth _ | NAttachVethEgress _ | NDetachVeth _ => False
  | _ => True
  end.

Lemma quiet_keeps c k a : quiet c -> kn_maps (kstep k c a) = kn_maps k /\ kn_links (kstep k c a) = kn_links k.
Proof. destruct c; cbn; try done. by destruct a. Qed.

Lemma mirrored_same e k k' : kn_maps k' = kn_maps k -> kn_links k' = kn_links k -> mirrored e k -> mirrored e k'.
Proof. intros Hm Hl [H1 H2 H3 H4]. split; rewrite ?Hm, ?Hl; done. Qed.

(** A quiet program keeps what only depends on the maps and links. *)
Lemma quiet_wp {R} al (p : prog nans R) (Q : R -> Prop) e (v0 : gmap Z PolicyConfig) k :
  makes al quiet p Q -> mirrored e k /\ veths k = v0 ->
  wp (fun _ => al) kstep (fun _ _ => True) p (fun k' r => (mirrored e k' /\ veths k' = v0) /\ Q r) k.
Proof.
  intros Hp Hk. refine (wp_makes (fun k => mirrored e k /\ veths k = v0) al quiet _ _ _ p Q k _ Hp Hk).
  intros k1 c [H1 H2] Hc. split; [done|]. intros a Ha. destruct (quiet_keeps c k1 a Hc) as [Hm Hl]. split; [done|].
  split; [by eapply mirrored_same|]. unfold veths in *. by rewrite Hm.
Qed.

(** A quiet call, and what follows on each answer. *)
Ltac quiet_call :=
  match goal with |- makes ?al ?P (mbind ?k (call ?c)) ?Q => refine (makes_call al P c k Q I _) end.

Section Reads.
Context (al : forall c, nans c -> Prop).

Lemma inspectVeth_makes cache name (Q : option Z * gmap string string -> Prop) :
  (forall r, Q r) -> makes al quiet (inspectVeth cache name) Q.
Proof.
  intros HQ. unfold inspectVeth. quiet_call. intros [cfg|] _; [|by apply makes_ret]. cbv zeta. destruct (String.eqb _ _); [by apply makes_ret|].
  quiet_call. intros [i|] _; by apply makes_ret.
Qed.

Lemma resolveVeth_makes cache name (Q : option Z * gmap string string -> Prop) :
  (forall r, Q r) -> makes al quiet (resolveVeth cache name) Q.
Proof.
  intros HQ. unfold resolveVeth. cbv zeta. destruct (String.eqb _ _); [by apply inspectVeth_makes|].
  quiet_call. intros [i|] _; [by apply makes_ret|by apply inspectVeth_makes].
Qed.

Abbreviation trivial := (fun _ => True) (only parsing).

Lemma gather_makes cache : makes al quiet (gather cache) trivial.
Proof.
  unfold gather. quiet_call. intros [l|] _; [|by apply makes_ret]. apply (makes_bind _ _ _ _ trivial); [|intros g _; by apply makes_ret].
  generalize (mkGathered [] ∅ ∅ cache). induction l as [|c l IH]; intros g; cbn [gather_loop]; [by apply makes_ret|].
  apply (makes_bind _ _ _ _ trivial); [|intros g' _; apply IH]. unfold gather_one. destruct (String.eqb (cn_Role c) _); [by apply makes_ret|].
  cbv zeta. destruct (String.eqb (tenant_of c) _); [by apply makes_ret|]. quiet_call.
  intros [tid|] _; [|by apply makes_ret]. destruct (is_running c); [|by apply makes_ret].
  apply (makes_bind _ _ _ _ trivial); [by apply (resolveVeth_makes _ _ trivial)|]. intros [i cache'] _. by apply makes_ret.
Qed.

Lemma resolve_domains_makes doms : makes al quiet (resolve_domains doms) trivial.
Proof.
  induction doms as [|d doms IH]; [by apply makes_ret|]. cbn [resolve_domains]. quiet_call. intros ips _.
  apply (makes_bind _ _ _ _ trivial); [exact IH|]. intros ps _. by apply makes_ret.
Qed.

Lemma compiledPolicies_makes ToLower : makes al quiet (compiledPolicies ToLower) trivial.
Proof.
  unfold compiledPolicies. quiet_call. intros [l|] _; [|by apply makes_ret]. apply (makes_bind _ _ _ _ trivial); [|intros o _; by apply makes_ret].
  generalize (∅ : gmap string CompiledPolicy). induction l as [|p l IH]; intros out; cbn [compile_loop]; [by apply makes_ret|].
  destruct (Compile ToLower (Some p)) as [c|]; [|apply IH]. apply (makes_bind _ _ _ _ trivial); [apply resolve_domains_makes|]. intros ps _.
  quiet_call. intros now _. apply IH.
Qed.

Lemma write_slots_makes slots sigs : makes al quiet (write_slots slots sigs) trivial.
Proof. induction slots as [|s slots IH]; [by apply makes_ret|]. cbn [write_slots]. quiet_call. intros r _. apply IH. Qed.

Lemma refresh_makes cf d : makes al quiet (refreshSignatureSlots cf d) (fun d' => dm_enf d' = dm_enf d /\ dm_vethCache d' = dm_vethCache d).
Proof.
  unfold refreshSignatureSlots. destruct (negb (cf_sigEnabled cf)); [by apply makes_ret|]. quiet_call.
  intros has _. destruct (negb has); [by apply makes_ret|].
  eapply (makes_bind _ _ _ _ trivial).
  - unfold effectiveSignatures. destruct (cf_sigStore cf); [|by apply makes_ret]. quiet_call. intros [ops|] _; by apply makes_ret.
  - intros sigs _. cbv zeta. destruct (String.eqb _ _); [by apply makes_ret|]. apply (makes_bind _ _ _ _ trivial); [apply write_slots_makes|]. intros _ _. by apply makes_ret.
Qed.
End Reads.

(** ** Whatever fails *)

Definition anything (c : ncall) (_ : nans c) : Prop := True.

Section Passes.
Context (walk : forall A, list A -> list A) (Hwalk : forall A (l : list A), walk A l ≡ₚ l).
Context (ToLower : string -> string).

Abbreviation holds p post k := (wp (fun (_ : kernel) => anything) kstep (fun _ _ => True) p post k) (only parsing).

(** The tables mirror the kernel after any pass, and an unarmed pass leaves no configuration that drops. *)
Lemma reconcile_keeps cf d k :
  mirrored (dm_enf d) k ->
  holds (reconcile walk ToLower cf d)
    (fun k' r => mirrored (dm_enf r.1) k' /\ (cf_enforceEnabled cf = false -> log_only (veths k) -> log_only (veths k'))) k.
Proof.
  intros Hm. unfold reconcile. eapply wp_seq; [by apply (quiet_wp _ _ _ (dm_enf d) (veths k) _ (gather_makes _ _))|].
  cbn beta. intros k1 [[[views ids] cache]|] [[Hm1 Hv1] _]; [|cbn; split; [done|by rewrite Hv1]]. cbv zeta.
  eapply wp_seq; [by apply (quiet_wp _ _ _ (dm_enf d) (veths k) _ (compiledPolicies_makes _ ToLower))|].
  cbn beta. intros k2 [policies|] [[Hm2 Hv2] _]; [|cbn; split; [done|by rewrite Hv2]].
  eapply wp_seq; [by apply (quiet_wp _ _ _ (dm_enf d) (veths k) _ (refresh_makes _ cf (with_cache cache d)))|].
  cbn beta. intros k3 d3 [[Hm3 Hv3] [Hd3 _]]. cbn in Hd3. rewrite Hd3.
  eapply wp_seq; [by apply (converge_wp walk Hwalk)|]. cbn beta. intros k4 e (Hm4 & Hv4 & _). cbn. split; [done|].
  intros Hoff Hl i cfg Hi. apply Hv4 in Hi as [Hi|Hi]; [rewrite Hv3 in Hi; by eapply Hl|].
  apply elem_of_map_to_list, pl_veth_from in Hi as (v & _ & _ & <-). unfold view_config. rewrite Hoff.
  destruct (_ && _) eqn:E; [done|]. apply andb_false_iff in E as [E|E]; [|done]. by apply Z.eqb_neq in E.
Qed.

Lemma passes_keep cf n d k :
  mirrored (dm_enf d) k ->
  holds (passes walk ToLower cf n d)
    (fun k' d' => mirrored (dm_enf d') k' /\ (cf_enforceEnabled cf = false -> log_only (veths k) -> log_only (veths k'))) k.
Proof.
  revert d k. induction n as [|n IH]; intros d k Hm; [by split|]. cbn [passes].
  eapply wp_seq; [by apply reconcile_keeps|]. cbn beta. intros k1 [d1 ok] [Hm1 Hl1]. cbn in Hm1.
  eapply wp_mono; [|by apply IH]. cbn beta. intros k2 d2 [Hm2 Hl2]. split; [done|]. auto.
Qed.

(** C20: An enforcer that is not armed never drops: after any number of passes from a fresh start, whatever its sources and the
    loader answered, its tables are exactly what the kernel holds, and every packet in either direction passes. *)
Theorem unarmed_never_drops lpm lru_update big cf n :
  cf_enforceEnabled cf = false ->
  holds (passes walk ToLower cf n newDaemon) (fun k d =>
    mirrored (dm_enf d) k /\
    forall now s st, (netpolicy_ingress lpm lru_update big now (kn_maps k) s st).1 = TC_ACT_OK
      /\ (netpolicy_egress lru_update big now (kn_maps k) s st).1 = TC_ACT_OK) emptyKernel.
Proof.
  intros Hoff. eapply wp_mono; [|apply passes_keep].
  - cbn beta. intros k d [Hm Hl]. split; [done|]. intros now s st. apply log_only_passes, (Hl Hoff). by apply map_Forall_empty.
  - by split.
Qed.
End Passes.

(** ** Sources and a loader that work *)

Record sources := mkSources {
  w_containers : list Container;
  w_config : string -> gmap string string;
  w_veth : string -> option Z;
  w_id : string -> Z;
  w_policies : list NetworkPolicy;
  w_resolve : string -> list (list Z);
  w_now : Time;
}.

(** What such sources answer, and a loader every call of which works. *)
Definition truthful (w : sources) (c : ncall) : nans c -> Prop :=
  match c as c return nans c -> Prop with
  | NListContainers => fun r => r = Some (w_containers w)
  | NGetRawInstance n => fun r => r = Some (w_config w n)
  | NVethIndex v => fun r => r = w_veth w v
  | NTenantID t => fun r => r = Some (w_id w t)
  | NListPolicies => fun r => r = Some (w_policies w)
  | NResolve d => fun r => r = w_resolve w d
  | NNow => fun r => r = w_now w
  | NListSignatures | NHasSignatures => fun _ => True
  | c => fun r => good_answer c r
  end.

Lemma truthful_reliable w : reliable (truthful w).
Proof. intros c r. by destruct c. Qed.

Section Sources.
Context (w : sources) (ToLower : string -> string).

(** A container's interface, and its view. *)
Definition veth_of (name : string) : option Z :=
  let veth := HostVethFromConfig (w_config w name) in
  if String.eqb veth "" then None else w_veth w veth.

Definition managed (c : Container) : bool := negb (String.eqb (cn_Role c) RoleControlPlane) && negb (String.eqb (tenant_of c) "").

Definition view_of (c : Container) : containerView :=
  let ifindex := if is_running c then veth_of (cn_Name c) else None in
  mkView (cn_Name c) (tenant_of c) (w_id w (tenant_of c)) (default [] (view_ip c)) (bool_decide (is_Some (view_ip c)))
    (default 0 ifindex) (bool_decide (is_Some ifindex)) (is_running c).

Definition views_of : list containerView := view_of <$> filter (fun c => managed c = true) (w_containers w).

(** The policy in force: with the addresses of its domains, without its expired rules. *)
Definition in_force (c : CompiledPolicy) : CompiledPolicy :=
  mkCompiled (c_Tenant c) (c_AllowIntraTenant c)
    (c_EgressCIDRs c ++ (d ← c_EgressDomains c; (fun ip => PrefixFrom (AddrV4 ip) 32) <$> w_resolve w d))
    (c_EgressDomains c) (c_AllowMetadata c) (c_Mode c) (c_LogOnly c) (activeDenyRules (c_DenyRules c) (w_now w)).

Definition policies_from (out : gmap string CompiledPolicy) (stored : list NetworkPolicy) : gmap string CompiledPolicy :=
  foldl (fun out p => match Compile ToLower (Some p) with inl c => <[c_Tenant c := in_force c]> out | inr _ => out end) out stored.

Definition policies_of : gmap string CompiledPolicy := policies_from ∅ (w_policies w).

(** A cached name is the container's current one, or one the host no longer has. *)
Definition cache_ok (cache : gmap string string) : Prop :=
  map_Forall (fun name veth => veth <> "" /\ (veth = HostVethFromConfig (w_config w name) \/ w_veth w veth = None)) cache.

Abbreviation answers p Q := (makes (truthful w) quiet p Q) (only parsing).

Lemma inspectVeth_answers cache name :
  cache_ok cache -> answers (inspectVeth cache name) (fun r => r.1 = veth_of name /\ cache_ok r.2).
Proof.
  intros Hc. unfold inspectVeth. quiet_call. intros r ->. cbv zeta. unfold veth_of.
  destruct (String.eqb_spec (HostVethFromConfig (w_config w name)) "") as [E|E]; [by apply makes_ret|].
  quiet_call. intros r ->. destruct (w_veth w _) as [i|] eqn:Ei; apply makes_ret; (split; [done|]); [|done].
  apply map_Forall_insert_2; [|done]. split; [done|by left].
Qed.

Lemma resolveVeth_answers cache name :
  cache_ok cache -> answers (resolveVeth cache name) (fun r => r.1 = veth_of name /\ cache_ok r.2).
Proof.
  intros Hc. unfold resolveVeth. cbv zeta. destruct (cache !! name) as [veth|] eqn:Hl; [|by apply inspectVeth_answers].
  change (default "" (Some veth)) with veth. destruct (Hc _ _ Hl) as [Hne Hv]. destruct (String.eqb_spec veth "") as [E|E]; [by apply inspectVeth_answers|].
  quiet_call. intros r Hr. cbn in Hr. destruct r as [i|].
  - apply makes_ret. destruct Hv as [->|Hv]; [|congruence]. split; [|done]. unfold veth_of. destruct (String.eqb_spec (HostVethFromConfig (w_config w name)) ""); [done|].
    cbn. congruence.
  - apply inspectVeth_answers. by apply map_Forall_delete.
Qed.

Lemma gather_loop_answers l g :
  cache_ok (ga_cache g) ->
  answers (gather_loop g l) (fun g' => ga_views g' = ga_views g ++ (view_of <$> filter (fun c => managed c = true) l) /\ cache_ok (ga_cache g')).
Proof.
  revert g. induction l as [|c l IH]; intros g Hc; cbn [gather_loop]; [by apply makes_ret; rewrite app_nil_r|].
  apply (makes_bind _ _ _ _ (fun g' => ga_views g' = ga_views g ++ (if managed c then [view_of c] else []) /\ cache_ok (ga_cache g'))).
  - unfold gather_one, managed. destruct (String.eqb (cn_Role c) RoleControlPlane); cbn [negb andb]; [by apply makes_ret; rewrite app_nil_r|].
    cbv zeta. destruct (String.eqb (tenant_of c) ""); cbn [negb]; [by apply makes_ret; rewrite app_nil_r|].
    quiet_call. intros r ->. unfold view_of. cbv zeta. destruct (is_running c); [|by apply makes_ret].
    eapply makes_bind; [by apply resolveVeth_answers|]. intros [i cache] [Hi Hc']. cbn in Hi, Hc'. subst i. by apply makes_ret.
  - intros g1 [Hg1 Hc1]. eapply makes_mono; [done| |by apply IH]. cbn beta. intros g2 [-> Hc2]. split; [|done].
    rewrite Hg1, filter_cons, <- app_assoc. f_equal. destruct (managed c); [by rewrite decide_True|by rewrite decide_False].
Qed.

Lemma gather_answers cache :
  cache_ok cache -> answers (gather cache) (fun r => exists ids cache', r = Some (views_of, ids, cache') /\ cache_ok cache').
Proof.
  intros Hc. unfold gather. quiet_call. intros r ->. eapply makes_bind; [by apply gather_loop_answers|].
  cbn beta. intros g [Hv Hg]. apply makes_ret. eexists _, _. split; [by rewrite Hv|]. intros n v Hn. apply map_lookup_filter_Some in Hn as [Hn _]. by apply (Hg n).
Qed.

Lemma resolve_domains_answers doms :
  answers (resolve_domains doms) (fun ps => ps = d ← doms; (fun ip => PrefixFrom (AddrV4 ip) 32) <$> w_resolve w d).
Proof.
  induction doms as [|d doms IH]; [by apply makes_ret|]. cbn [resolve_domains]. quiet_call. intros r ->.
  eapply makes_bind; [exact IH|]. intros ps ->. by apply makes_ret.
Qed.

Lemma compile_loop_answers stored out : answers (compile_loop ToLower out stored) (fun r => r = policies_from out stored).
Proof.
  revert out. induction stored as [|p stored IH]; intros out; cbn [compile_loop]; [by apply makes_ret|].
  unfold policies_from. cbn [foldl]. destruct (Compile ToLower (Some p)) as [c|]; [|apply IH].
  eapply makes_bind; [apply resolve_domains_answers|]. intros ps ->. quiet_call. intros r ->. apply IH.
Qed.

Lemma compiledPolicies_answers : answers (compiledPolicies ToLower) (fun r => r = Some policies_of).
Proof.
  unfold compiledPolicies. quiet_call. intros r ->. eapply makes_bind; [apply compile_loop_answers|]. intros out ->. by apply makes_ret.
Qed.

(** What the theorem asks of the sources: ids name tenants, and addresses and interfaces are not shared. *)
Record sources_ok : Prop := {
  so_ids : forall c d, c ∈ w_containers w -> d ∈ w_containers w -> managed c = true -> managed d = true -> w_id w (tenant_of c) = w_id w (tenant_of d) -> tenant_of c = tenant_of d;
  so_ips : NoDup (v_IP <$> filter has_ip views_of);
  so_ifs : NoDup (v_Ifindex <$> filter live views_of);
  so_ports : Forall (fun p => Forall port_u32 (p_DenyRules p)) (w_policies w);
}.

Lemma compiled_rules p c : Forall port_u32 (p_DenyRules p) -> Compile ToLower (Some p) = inl c -> rules_distinct (in_force c).
Proof.
  intros Hp Hc. unfold Compile in Hc. cbn [required mbind result_bind] in Hc. cbv zeta in Hc. destruct (String.eqb _ ""); [done|].
  apply result_bind_inl in Hc as (ps & _ & Hc). apply result_bind_inl in Hc as (doms & _ & Hc).
  apply result_bind_inl in Hc as (ds & Hds & Hc). apply result_bind_inl in Hc as (m & _ & [= <-]).
  apply compileDenyRules_form in Hds as (Hn & _ & Hd); [|done]. unfold rules_distinct, in_force, activeDenyRules. cbn [c_DenyRules].
  split.
  - apply Forall_forall. intros d [_ Hin]%list_elem_of_filter. rewrite Forall_forall in Hn. by apply Hn.
  - eapply sublist_NoDup; [|apply fmap_sublist, sublist_filter]. unfold cidr_key in Hd.
    apply (NoDup_fmap_1 Prefix_String). by rewrite <- list_fmap_compose.
Qed.

Lemma policies_rules : sources_ok -> map_Forall (fun _ c => rules_distinct c) policies_of.
Proof.
  intros Hok. unfold policies_of, policies_from. pose proof (so_ports Hok) as Hp. revert Hp.
  assert (H0 : map_Forall (fun (_ : string) c => rules_distinct c) ∅) by apply map_Forall_empty. revert H0.
  generalize (∅ : gmap string CompiledPolicy). induction (w_policies w) as [|p l IH]; intros out Hout Hl; [done|]. cbn [foldl].
  apply Forall_cons in Hl as [Hp Hl]. apply IH; [|done]. destruct (Compile ToLower (Some p)) as [c|] eqn:E; [|done].
  apply map_Forall_insert_2; [by eapply compiled_rules|done].
Qed.

Lemma sources_views_ok : sources_ok -> views_ok policies_of views_of.
Proof.
  intros Hok. split; [|apply (so_ips Hok)|apply (so_ifs Hok)|by apply policies_rules].
  intros v u (c & -> & [Mc Hc]%list_elem_of_filter)%list_elem_of_fmap (d & -> & [Md Hd]%list_elem_of_filter)%list_elem_of_fmap. cbn.
  split; [by apply (so_ids Hok)|congruence].
Qed.
End Sources.

(** C19: An armed enforcer makes the kernel decide as the stored policies say.  After a pass over working sources and a working loader, from
    whatever the kernel held before, a running container of a tenant with an enforced IPv4 policy may send an IPv4 packet exactly if the
    policy permits it: no unexpired virtual-patch rule decides against it, and the destination is the metadata service with an opt-in, a
    container of the same tenant with intra-tenant traffic allowed, or an address outside the fleet that the allow-list or the address of
    an allowed domain contains. *)
Theorem enforced_policy lpm lru_update big walk ToLower w cf d k :
  lpm_law lpm -> (forall A (l : list A), walk A l ≡ₚ l) ->
  sources_ok w -> cache_ok w (dm_vethCache d) -> mirrored (dm_enf d) k -> cf_enforceEnabled cf = true ->
  wp (fun _ => truthful w) kstep (fun _ _ => True) (reconcile walk ToLower cf d) (fun k' r =>
    r.2 = true /\ mirrored (dm_enf r.1) k' /\
    forall c p i now s st,
      c ∈ w_containers w -> managed c = true -> is_running c = true -> veth_of w (cn_Name c) = Some i ->
      policies_of w ToLower !! tenant_of c = Some p -> c_Mode p = MODE_ENFORCE -> policy_v4 p ->
      is_ipv4 s = true -> sk_ingress_ifindex s = i ->
      (netpolicy_ingress lpm lru_update big now (kn_maps k') s st).1 = TC_ACT_OK
      <-> permits (views_of w) (tenant_of c) p (ip_daddr s) (ports s).2 (ip_protocol s)) k.
Proof.
  intros Hlpm Hwalk Hok Hcache Hm Harm. unfold reconcile.
  eapply wp_seq; [by apply (quiet_wp _ _ _ (dm_enf d) (veths k) _ (gather_answers w _ Hcache))|].
  cbn beta. intros k1 r [[Hm1 _] (ids & cache & -> & Hcache')]. cbv zeta.
  eapply wp_seq; [by apply (quiet_wp _ _ _ (dm_enf d) (veths k1) _ (compiledPolicies_answers w ToLower))|].
  cbn beta. intros k2 r [[Hm2 _] ->].
  eapply wp_seq; [by apply (quiet_wp _ _ _ (dm_enf d) (veths k2) _ (refresh_makes _ cf (with_cache cache d)))|].
  cbn beta. intros k3 d3 [[Hm3 _] [Hd3 _]]. cbn in Hd3. rewrite Hd3, Harm.
  eapply wp_seq; [by apply (pass_enforced lpm lru_update big Hlpm walk Hwalk (truthful w) (truthful_reliable w) _ _ _ _ (sources_views_ok w ToLower Hok))|].
  cbn beta. intros k4 e [Hm4 Hverdict]. cbn. split; [done|]. split; [done|].
  intros c p i now s st Hc Hman Hrun Hi Hp Hmode H4 Hip Hif.
  apply (Hverdict (view_of w c) p now s st); try done.
  - unfold views_of. apply list_elem_of_fmap. exists c. split; [done|]. by apply list_elem_of_filter.
  - unfold live, view_of. cbn. rewrite Hrun, Hi. done.
  - unfold view_of. cbn. by rewrite Hrun, Hi.
Qed.

(** ** A fleet of two tenants *)

Definition unarmed : conf := mkConf true true false.

Lemma unarmed_never_drops_witness :
  cf_enforceEnabled unarmed = false /\
  wp (fun _ => anything) kstep (fun _ _ => True) (passes in_order lower_string unarmed 2 newDaemon) (fun k d =>
    mirrored (dm_enf d) k /\ (netpolicy_ingress lpm_ref insert_lru true 0 (kn_maps k) (packet 7 6 [1; 2; 3; 4] 443)
      (mkState 0 0 ∅ [] [] 0 [])).1 = TC_ACT_OK) emptyKernel.
Proof.
  split; [reflexivity|].
  pose proof (unarmed_never_drops in_order (fun A l => Permutation_refl l) lower_string lpm_ref insert_lru true unarmed 2 eq_refl) as Hpass.
  eapply wp_mono; [|exact Hpass].
  cbn beta. intros k d [Hm H]. split; [exact Hm|]. apply H.
Defined.

Definition fleet : sources :=
  mkSources
    [mkContainer "a-container" "" "" ∅ "10.0.0.2" "Running"; mkContainer "b-container" "" "" ∅ "10.0.0.3" "Stopped";
     mkContainer "core" "core-controlplane" "a" ∅ "10.0.0.9" "Running"]
    (fun name => {["volatile.eth0.host_name" := "veth-" +:+ name]})
    (fun veth => if String.eqb veth "veth-a-container" then Some 7 else None)
    (fun tenant => if String.eqb tenant "a" then 1 else 2)
    [mkPolicy "a" true ["1.2.0.0/16"] ["api.example.org"] false MODE_ENFORCE ""
       [Some (mkRule "1.2.3.0/24" 443 "tcp" "cve" ""); Some (mkRule "1.2.9.0/24" 0 "" "old" "2020-01-01T00:00:00Z")]]
    (fun d => if String.eqb d "api.example.org" then [[93; 184; 216; 34]] else [])
    (UnixTime (1700000000 * Second)).

Definition armed : conf := mkConf true true true.

Definition fleet_policy : CompiledPolicy :=
  mkCompiled "a" true [mkPrefix (AddrV4 [1; 2; 0; 0]) 16; mkPrefix (AddrV4 [93; 184; 216; 34]) 32] ["api.example.org"] false MODE_ENFORCE false
    [mkDeny (mkPrefix (AddrV4 [1; 2; 3; 0]) 24) 443 6 "cve" 0].

Lemma fleet_ok : sources_ok fleet.
Proof.
  split.
  - intros c d Hc Hd. cbn [fleet w_containers] in Hc, Hd. rewrite !elem_of_cons, elem_of_nil in Hc, Hd.
    destruct Hc as [->|[->|[->|[]]]], Hd as [->|[->|[->|[]]]]; vm_compute; done.
  - apply (bool_decide_unpack _). vm_compute. exact I.
  - apply (bool_decide_unpack _). vm_compute. exact I.
  - repeat (apply Forall_cons; split); try apply Forall_nil; split; cbn; lia.
Qed.

Lemma fleet_policy_eq : policies_of fleet lower_string !! "a" = Some fleet_policy.
Proof. vm_compute. reflexivity. Qed.

Lemma fleet_policy_v4 : policy_v4 fleet_policy.
Proof.
  assert (Hp : forall q n, Forall octet q -> length q = 4%nat -> 0 <= n <= 32 -> mask_octets n q = q ->
    prefix_v4 (mkPrefix (AddrV4 q) n)).
  { intros q n Hq Hl Hn Hm. split; [|reflexivity]. split; [split; [by split|exact Hn]|]. unfold Masked. cbn. by rewrite Hm. }
  assert (Ho : forall l, forallb (fun b => (0 <=? b) && (b <=? 255)) l = true -> Forall octet l).
  { intros l H. apply Forall_forall. intros b Hb. rewrite forallb_forall in H. specialize (H b (proj1 (list_elem_of_In _ _) Hb)).
    apply andb_true_iff in H as [H1%Z.leb_le H2%Z.leb_le]. by split. }
  split; repeat (apply Forall_cons; split); try apply Forall_nil_2; (apply Hp; [by apply Ho|done|lia|by vm_compute]).
Qed.

Lemma enforced_policy_witness :
  sources_ok fleet /\ cf_enforceEnabled armed = true /\
  wp (fun _ => truthful fleet) kstep (fun _ _ => True) (reconcile in_order lower_string armed newDaemon) (fun k r =>
    r.2 = true /\
    (netpolicy_ingress lpm_ref insert_lru true 0 (kn_maps k) (packet 7 6 [1; 2; 9; 4] 443) (mkState 0 0 ∅ [] [] 0 [])).1 = TC_ACT_OK)
    emptyKernel.
Proof.
  split; [exact fleet_ok|]. split; [reflexivity|].
  assert (Hcache : cache_ok fleet (dm_vethCache newDaemon)) by apply map_Forall_empty.
  pose proof (enforced_policy lpm_ref insert_lru true in_order lower_string fleet armed newDaemon emptyKernel lpm_ref_law
    (fun A l => Permutation_refl l) fleet_ok Hcache mirrored_fresh eq_refl) as Hpass.
  eapply wp_mono; [|exact Hpass]. cbn beta. intros k r (Hdone & _ & H). split; [exact Hdone|].
  apply (H (mkContainer "a-container" "" "" ∅ "10.0.0.2" "Running") fleet_policy 7).
  - by left.
  - vm_compute. reflexivity.
  - vm_compute. reflexivity.
  - vm_compute. reflexivity.
  - exact fleet_policy_eq.
  - vm_compute. reflexivity.
  - exact fleet_policy_v4.
  - vm_compute. reflexivity.
  - vm_compute. reflexivity.
  - split.
    + intros (d & (Hd & Hin & _) & _). apply list_elem_of_singleton in Hd as ->. vm_compute in Hin. discriminate.
    + unfold destination_ok. rewrite decide_False by (vm_compute; discriminate). right. split.
      * intros v Hv _. assert (Hips : v_IP <$> views_of fleet = [[10; 0; 0; 2]; [10; 0; 0; 3]]) by (vm_compute; reflexivity).
        apply (list_elem_of_fmap_2 v_IP) in Hv. rewrite Hips, !elem_of_cons, elem_of_nil in Hv.
        destruct Hv as [->|[->|[]]]; vm_compute; discriminate.
      * exists (mkPrefix (AddrV4 [1; 2; 0; 0]) 16). split; [by left|]. vm_compute. reflexivity.
Defined.

(** ** What the enforcer does not promise

    Runs against working sources and a loader some calls of which fail, and policies
    that are accepted but mean less than they say. *)

(** ** Running a pass *)

Definition loader_answer (w : sources) (ok : bool) (c : ncall) : nans c :=
  match c as c return nans c with
  | NListContainers => Some (w_containers w)
  | NGetRawInstance n => Some (w_config w n)
  | NVethIndex v => w_veth w v
  | NTenantID t => Some (w_id w t)
  | NListPolicies => Some (w_policies w)
  | NResolve d => w_resolve w d
  | NNow => w_now w
  | NListSignatures => None
  | NHasSignatures => true
  | _ => ok
  end.

(** A loader that refuses the calls [bad] names. *)
Definition loader (w : sources) (bad : ncall -> bool) (c : ncall) (k : kernel) : nans c * kernel :=
  let a := loader_answer w (negb (bad c)) c in (a, kstep k c a).

Definition run (w : sources) (bad : ncall -> bool) (d : daemon) (k : kernel) : daemon * kernel :=
  let '((d, _), k) := handle (loader w bad) (reconcile in_order lower_string armed d) k in (d, k).

Definition nothing_bad (c : ncall) : bool := false.

(** What becomes of a packet: the program runs only where it is attached. *)
Definition sent (k : kernel) (s : skb) : action :=
  if decide (sk_ingress_ifindex s ∈ kn_links k) then (netpolicy_ingress lpm_ref insert_lru true 0 (kn_maps k) s (mkState 0 0 ∅ [] [] 0 [])).1
  else TC_ACT_OK.

Definition with_policies (l : list NetworkPolicy) (w : sources) : sources :=
  mkSources (w_containers w) (w_config w) (w_veth w) (w_id w) l (w_resolve w) (w_now w).

Definition verdict_under (p : NetworkPolicy) (addr : list Z) (dport : Z) : action :=
  sent (run (with_policies [p] fleet) nothing_bad newDaemon emptyKernel).2 (packet 7 6 addr dport).

(** ** A failed call detaches a running container *)

Definition refuses_policy (c : ncall) : bool := match c with NSetVethPolicy _ _ => true | _ => false end.

(** Setting the policy again fails in a later pass: the pass detaches the program of the running container, whose traffic then
    passes unfiltered until a later pass attaches it again. *)
Example refresh_failure_opens :
  let '(d1, k1) := run fleet nothing_bad newDaemon emptyKernel in
  let '(_, k2) := run fleet refuses_policy d1 k1 in
  sent k1 (packet 7 6 [8; 8; 8; 8] 443) = TC_ACT_SHOT /\ sent k2 (packet 7 6 [8; 8; 8; 8] 443) = TC_ACT_OK
  /\ kn_links k1 = {[7]} /\ kn_links k2 = ∅.
Proof. vm_compute. done. Qed.

(** ** Accepted policies that mean less *)

Definition denying (rules : list NetworkPolicyDenyRule) : NetworkPolicy :=
  mkPolicy "a" true ["0.0.0.0/0"] [] false MODE_ENFORCE "" (Some <$> rules).

(** One IPv6 rule, which the server accepts, and none of the tenant's rules is installed. *)
Example ipv6_rule_drops_all :
  verdict_under (denying [mkRule "1.2.3.4" 0 "" "" ""]) [1; 2; 3; 4] 443 = TC_ACT_SHOT
  /\ verdict_under (denying [mkRule "1.2.3.4" 0 "" "" ""; mkRule "2001:db8::1" 0 "" "" ""]) [1; 2; 3; 4] 443 = TC_ACT_OK.
Proof. vm_compute. done. Qed.

(** One IPv6 prefix in the allow-list, and nothing outside the fleet is allowed. *)
Example ipv6_prefix_allows_none :
  let allowing l := mkPolicy "a" true l [] false MODE_ENFORCE "" [] in
  verdict_under (allowing ["1.2.0.0/16"]) [1; 2; 3; 4] 443 = TC_ACT_OK
  /\ verdict_under (allowing ["1.2.0.0/16"; "2001:db8::/32"]) [1; 2; 3; 4] 443 = TC_ACT_SHOT.
Proof. vm_compute. done. Qed.

(** A rule for one port of a network reopens its other ports, which a rule for a larger network had closed. *)
Example narrower_rule_reopens :
  let broad := mkRule "10.0.0.0/8" 0 "" "" "" in
  let narrow := mkRule "10.1.0.0/16" 443 "tcp" "" "" in
  verdict_under (denying [broad]) [10; 1; 2; 3] 22 = TC_ACT_SHOT /\ verdict_under (denying [broad; narrow]) [10; 1; 2; 3] 22 = TC_ACT_OK.
Proof. vm_compute. done. Qed.

(** Of two rules for one network the later one counts. *)
Example second_port_replaces_first :
  let rule port := mkRule "1.2.3.4" port "tcp" "" "" in
  verdict_under (denying [rule 80]) [1; 2; 3; 4] 80 = TC_ACT_SHOT /\ verdict_under (denying [rule 80; rule 443]) [1; 2; 3; 4] 80 = TC_ACT_OK.
Proof. vm_compute. done. Qed.

(** A policy stored with an expiry the parser refuses: its tenant falls back to log-only. *)
Example unparsed_expiry_opens :
  verdict_under (denying [mkRule "1.2.3.4" 0 "" "" "9999-12-31T23:59:59Z"]) [1; 2; 3; 4] 443 = TC_ACT_SHOT
  /\ verdict_under (denying [mkRule "1.2.3.4" 0 "" "" "10000-01-01T00:59:59Z"]) [1; 2; 3; 4] 443 = TC_ACT_OK.
Proof. vm_compute. done. Qed.

(** ** Signatures *)

(** Two signature sets with one fingerprint: a name may contain the separators. *)
Example fingerprints_collide :
  let one := [mkSignature 1024 "a" [1]; mkSignature 1025 "b" [2]] in
  let other := [mkSignature 1024 "a:01;1025:b" [2]] in
  fingerprint one = fingerprint other.
Proof. vm_compute. done. Qed.

(** A slot that could not be written stays unwritten: the pass records the set as loaded. *)
Example failed_slot_is_not_retried :
  let bad c := match c with NSetSignature 1 _ => true | _ => false end in
  let '(d1, k1) := run fleet bad newDaemon emptyKernel in
  let '(_, k2) := run fleet nothing_bad d1 k1 in
  kn_slots k1 !! 1%nat = None /\ kn_slots k2 !! 1%nat = None /\ is_Some (kn_slots k2 !! 0%nat).
Proof. vm_compute. split_and!; [done|done|by eexists]. Qed.

(** ** Packets the program misreads *)

(** With IP options the ports are read from the options, so a rule for one port does not see the packet. *)
Example options_hide_the_port :
  let k := (run (with_policies [denying [mkRule "1.2.3.4" 443 "tcp" "" ""]] fleet) nothing_bad newDaemon emptyKernel).2 in
  let with_options := mkSkb (replicate 12 0 ++ [8; 0] ++ [70; 0; 0; 0; 0; 0; 0; 0; 64; 6; 0; 0; 10; 0; 0; 2; 1; 2; 3; 4]
    ++ [1; 1; 1; 1] ++ [156; 64; 1; 187] ++ replicate 16 0) [] 7 7 in
  sent k (packet 7 6 [1; 2; 3; 4] 443) = TC_ACT_SHOT /\ sent k with_options = TC_ACT_OK.
Proof. vm_compute. done. Qed.
