(* ===== verification/NetSources.v ===== *)
(** * What the enforcer's passes read: tenant ids, signatures, addresses of domains, flows

    internal/server: tenant_registry.go, network_policy_signature_store.go, domain_resolver.go, the signature
    handlers of network_policy_server.go and the flow poll of network_policy_enforcer.go; internal/netpolicy/signatures.go.
    Ids name tenants ([one_id_per_tenant], also between daemons that race), and an id in the audit log names
    the signature that matched ([audit_names_signature]).  As in NetStore, columns hold the Go values. *)

From Stdlib Require Import Ascii.
From S2P Require Import Prelude Prog GoStrings GoSort GoNet GoNetip GoTime SafeCast Auth Incus NetPolicy NetNormal NetBpf NetData NetPlan NetVerdict NetEnforcer NetServer NetPass.
#[local] Open Scope string_scope.
#[local] Open Scope list_scope.
#[local] Open Scope Z_scope.

(** ** Assignments of numbers to names *)

(** MAX(id) over the rows, 0 when there are none. *)
Definition max_id (m : gmap string Z) : Z := foldr Z.max 0 (values m).

Lemma foldr_max_ge l i : i ∈ l -> i <= foldr Z.max 0 l.
Proof. induction 1; cbn; lia. Qed.

Lemma foldr_max_nonneg l : 0 <= foldr Z.max 0 l.
Proof. induction l; cbn; lia. Qed.

Lemma foldr_max_le l n : 0 <= n -> Forall (fun i => i <= n) l -> 0 <= foldr Z.max 0 l <= n.
Proof. induction 2; cbn; lia. Qed.

Lemma max_id_ge m t i : m !! t = Some i -> i <= max_id m.
Proof. intros H. apply foldr_max_ge, elem_of_values. by exists t. Qed.

Lemma max_id_le m n : 0 <= n -> map_Forall (fun _ i => i <= n) m -> 0 <= max_id m <= n.
Proof. intros Hn Hm. apply foldr_max_le; [done|]. apply Forall_forall. intros i (t & Ht)%elem_of_values. by eapply Hm. Qed.

Lemma max_id_mono (m m' : gmap string Z) : m ⊆ m' -> max_id m <= max_id m'.
Proof.
  intros Hm. apply foldr_max_le; [|apply Forall_forall; intros i (t & Ht)%elem_of_values; eapply max_id_ge, lookup_weaken; done].
  apply foldr_max_nonneg.
Qed.

(** Numbers from 1 on, no more than there are names, each of one name. *)
Definition ids_ok (m : gmap string Z) : Prop :=
  map_Forall (fun _ i => 1 <= i <= Z.of_nat (size m)) m /\ forall t u i, m !! t = Some i -> m !! u = Some i -> t = u.

Lemma ids_ok_empty : ids_ok ∅.
Proof. split; [apply map_Forall_empty|]. by intros t u i H. Qed.

Lemma ids_ok_insert m t i :
  ids_ok m -> m !! t = None -> 1 <= i <= Z.of_nat (size m) + 1 -> (forall u, m !! u <> Some i) -> ids_ok (<[t := i]> m).
Proof.
  intros [Hr Hi] Ht Hb Hnew. split.
  - rewrite map_size_insert_None by done. apply map_Forall_insert_2; [lia|]. intros u j Hu. specialize (Hr u j Hu). cbn in Hr. lia.
  - intros u v j [[-> <-]|[_ Hu]]%lookup_insert_Some [[-> Hv]|[_ Hv]]%lookup_insert_Some; [done| | |by eapply Hi].
    + by destruct (Hnew v).
    + subst. by destruct (Hnew u).
Qed.

Lemma max_id_size m : ids_ok m -> 0 <= max_id m <= Z.of_nat (size m).
Proof. intros [Hr _]. apply max_id_le; [lia|]. intros t i Hi. specialize (Hr t i Hi). cbn in Hr. lia. Qed.

(** ** The registry of tenants *)

(** The interface: an operation, and the assignments made so far. *)
Class TenantRegistry (R : Type) := {
  ID : string -> R -> option Z * R;
  assigned : R -> gmap string Z;
  registry_ok : R -> Prop;
}.

(** The number of tenants that a registry is promised to hold. *)
Definition registry_room : Z := MaxInt32.

Class TenantRegistryLaws (R : Type) `{TenantRegistry R} := {
  registry_ids r : registry_ok r -> ids_ok (assigned r);
  ID_ok t r : registry_ok r -> Z.of_nat (size (assigned r)) < registry_room -> registry_ok (ID t r).2;
  ID_answers t r : registry_ok r -> Z.of_nat (size (assigned r)) < registry_room ->
    exists i, (ID t r).1 = Some i /\
      assigned (ID t r).2 = match assigned r !! t with Some _ => assigned r | None => <[t := i]> (assigned r) end /\
      assigned (ID t r).2 !! t = Some i;
}.

(** *** In memory *)

Record MemTenantRegistry := mkMemRegistry { mr_ids : gmap string Z; mr_next : Z }.

Definition NewMemTenantRegistry : MemTenantRegistry := mkMemRegistry ∅ 1.

Definition mem_ID (tenant : string) (r : MemTenantRegistry) : option Z * MemTenantRegistry :=
  match mr_ids r !! tenant with
  | Some id => (Some id, r)
  | None => let id := mr_next r in (Some id, mkMemRegistry (<[tenant := id]> (mr_ids r)) (wrap u32 (mr_next r + 1)))
  end.

Definition mem_registry_ok (r : MemTenantRegistry) : Prop :=
  ids_ok (mr_ids r) /\ mr_next r = wrap u32 (Z.of_nat (size (mr_ids r)) + 1).

#[export] Instance mem_registry : TenantRegistry MemTenantRegistry := {
  ID := mem_ID; assigned := mr_ids; registry_ok := mem_registry_ok
}.

(** *** In Postgres: the rows of [tenant_ids], and what one daemon remembers of them *)

(** The statement.  [snap] are the rows that its snapshot shows; the constraints look at all rows. *)
Definition assign_tenant (snap : gmap string Z) (tenant : string) (rows : gmap string Z) : option Z * gmap string Z :=
  let id := max_id snap + 1 in
  if MaxInt32 <? id then (None, rows)
  else
    match rows !! tenant with
    | Some old => (Some old, rows)
    | None => if existsb (Z.eqb id) (values rows) then (None, rows) else (Some id, <[tenant := id]> rows)
    end.

(** [ID] of one daemon with cache [c]. *)
Definition pg_ID (snap : gmap string Z) (tenant : string) (c rows : gmap string Z) : option Z * gmap string Z * gmap string Z :=
  match c !! tenant with
  | Some id => (Some id, c, rows)
  | None =>
      let '(r, rows) := assign_tenant snap tenant rows in
      match r with
      | None => (None, c, rows)
      | Some id => let uid := wrap u32 id in (Some uid, <[tenant := uid]> c, rows)
      end
  end.

Record PostgresTenantRegistry := mkPgRegistry { pr_cache : gmap string Z; pr_rows : gmap string Z }.

(** A daemon on its own: its statements see every row. *)
Definition pg_alone (tenant : string) (r : PostgresTenantRegistry) : option Z * PostgresTenantRegistry :=
  let '(i, c, rows) := pg_ID (pr_rows r) tenant (pr_cache r) (pr_rows r) in (i, mkPgRegistry c rows).

(** The rows are within the column's type. *)
Definition rows_ok (rows : gmap string Z) : Prop := ids_ok rows /\ map_Forall (fun _ i => i <= MaxInt32) rows.

#[export] Instance pg_registry : TenantRegistry PostgresTenantRegistry := {
  ID := pg_alone; assigned := pr_rows; registry_ok := fun r => rows_ok (pr_rows r) /\ pr_cache r ⊆ pr_rows r
}.

Lemma wrap_u32_id i : 0 <= i <= MaxInt32 -> wrap u32 i = i.
Proof. intros H. apply wrap_in_type_id; [done|]. unfold in_type, it_min, it_max, MaxInt32 in *. cbn in *. lia. Qed.

Lemma fresh_above m i : max_id m < i -> forall u, m !! u <> Some i.
Proof. intros Hi u Hu. apply max_id_ge in Hu. lia. Qed.

#[export] Instance mem_registry_laws : TenantRegistryLaws MemTenantRegistry.
Proof.
  split.
  - by intros r [].
  - intros t r [Hok Hn] Hroom. cbn [ID mem_registry assigned registry_ok] in *. unfold mem_ID, mem_registry_ok, registry_room in *.
    destruct (mr_ids r !! t) as [i|] eqn:Ht; [done|]. cbn [snd mr_ids mr_next]. rewrite Hn, wrap_u32_id by lia.
    rewrite map_size_insert_None by done. split; [|f_equal; lia]. apply ids_ok_insert; [done|done|lia|]. apply fresh_above. pose proof (max_id_size _ Hok). lia.
  - intros t r [Hok Hn] Hroom. cbn [ID mem_registry assigned registry_ok] in *. unfold mem_ID.
    destruct (mr_ids r !! t) as [i|] eqn:Ht; cbn [fst snd mr_ids]; eexists; (split; [done|]); (split; [done|]); [done|]. apply lookup_insert_eq.
Qed.

Lemma assign_tenant_spec snap t rows :
  rows_ok rows -> snap ⊆ rows ->
  match assign_tenant snap t rows with
  | (None, rows') => rows' = rows /\ (snap = rows -> registry_room <= Z.of_nat (size rows))
  | (Some i, rows') => rows_ok rows' /\ rows' !! t = Some i /\ rows' = match rows !! t with Some _ => rows | None => <[t := i]> rows end
  end.
Proof.
  intros [Hok Hcol] Hsnap. unfold assign_tenant. cbv zeta. pose proof (max_id_size _ Hok) as Hmax. pose proof (max_id_mono _ _ Hsnap) as Hmono.
  assert (H0 : 0 <= max_id snap) by (apply foldr_max_nonneg).
  destruct (Z.ltb_spec MaxInt32 (max_id snap + 1)) as [Hbig|Hsmall]; [split; [done|]; intros ->; unfold registry_room; lia|].
  destruct (rows !! t) as [old|] eqn:Ht; [by rewrite Ht|].
  destruct (existsb (Z.eqb (max_id snap + 1)) (values rows)) eqn:Hx.
  - split; [done|]. intros ->. exfalso. apply existsb_exists in Hx as (j & Hj%list_elem_of_In & Heq%Z.eqb_eq). apply elem_of_values in Hj as (u & Hu).
    apply max_id_ge in Hu. lia.
  - split; [|by rewrite lookup_insert_eq]. split; [|by apply map_Forall_insert_2].
    apply ids_ok_insert; [done|done|lia|]. intros u Hu. apply not_true_iff_false in Hx. apply Hx, existsb_exists.
    exists (max_id snap + 1). split; [|by apply Z.eqb_eq]. apply list_elem_of_In, elem_of_values. by exists u.
Qed.

(** One call of a daemon whose cache agrees with the rows. *)
Lemma pg_ID_spec snap t c rows :
  rows_ok rows -> snap ⊆ rows -> c ⊆ rows ->
  let '(r, c', rows') := pg_ID snap t c rows in
  rows_ok rows' /\ rows ⊆ rows' /\ c' ⊆ rows' /\
  match r with
  | None => rows' = rows /\ (snap = rows -> registry_room <= Z.of_nat (size rows))
  | Some i => rows' !! t = Some i /\ rows' = match rows !! t with Some _ => rows | None => <[t := i]> rows end
  end.
Proof.
  intros Hok Hsnap Hc. unfold pg_ID. destruct (c !! t) as [i|] eqn:Ht.
  - assert (Hr : rows !! t = Some i) by by eapply lookup_weaken. by rewrite Hr.
  - pose proof (assign_tenant_spec snap t rows Hok Hsnap) as Ha. destruct (assign_tenant snap t rows) as [[i|] rows']; [|by destruct Ha as [-> Ha]].
    destruct Ha as (Hok' & Hi & Hrows). cbv zeta. assert (Hiw : wrap u32 i = i).
    { apply wrap_u32_id. destruct Hok' as [[Hr _] Hm]. specialize (Hr t i Hi). specialize (Hm t i Hi). cbn in *. lia. }
    rewrite Hiw. assert (Hsub : rows ⊆ rows') by (rewrite Hrows; destruct (rows !! t) eqn:E; [done|by apply insert_subseteq]).
    split; [done|]. split; [done|]. split; [|done]. apply insert_subseteq_l; [done|by etransitivity].
Qed.

#[export] Instance pg_registry_laws : TenantRegistryLaws PostgresTenantRegistry.
Proof.
  split.
  - by intros r [[] _].
  - intros t r [Hok Hc] _. cbn [ID pg_registry registry_ok] in *. unfold pg_alone.
    pose proof (pg_ID_spec (pr_rows r) t (pr_cache r) (pr_rows r) Hok (reflexivity _) Hc) as H.
    destruct (pg_ID _ _ _ _) as [[i c'] rows']. by destruct H as (? & _ & ? & _).
  - intros t r [Hok Hc] Hroom. cbn [ID pg_registry registry_ok assigned] in *. unfold pg_alone.
    pose proof (pg_ID_spec (pr_rows r) t (pr_cache r) (pr_rows r) Hok (reflexivity _) Hc) as H.
    destruct (pg_ID _ _ _ _) as [[[i|] c'] rows'].
    + destruct H as (_ & _ & _ & Hi & Hrows). cbn [fst snd pr_rows]. by exists i.
    + destruct H as (_ & _ & _ & _ & Hfull). specialize (Hfull eq_refl). lia.
Qed.

(** *** Daemons that share a database *)

Record fleet_db := mkFleet { fd_rows : gmap string Z; fd_caches : gmap nat (gmap string Z) }.

(** A daemon asks, with a snapshot that may miss rows of the others; or it restarts. *)
Inductive ask_step : fleet_db -> option (string * Z) -> fleet_db -> Prop :=
| Ask w d snap t r c rows :
    snap ⊆ fd_rows w -> pg_ID snap t (default ∅ (fd_caches w !! d)) (fd_rows w) = (r, c, rows) ->
    ask_step w (pair t <$> r) (mkFleet rows (<[d := c]> (fd_caches w)))
| Reboot w d : ask_step w None (mkFleet (fd_rows w) (delete d (fd_caches w))).

(** The answers of a run, in order. *)
Inductive asked : fleet_db -> list (string * Z) -> fleet_db -> Prop :=
| asked_nil w : asked w [] w
| asked_cons w o w' l w'' : ask_step w o w' -> asked w' l w'' -> asked w (option_list o ++ l) w''.

Definition fleet_db_ok (w : fleet_db) : Prop := rows_ok (fd_rows w) /\ map_Forall (fun _ c => c ⊆ fd_rows w) (fd_caches w).

Lemma ask_step_ok w o w' :
  fleet_db_ok w -> ask_step w o w' ->
  fleet_db_ok w' /\ fd_rows w ⊆ fd_rows w' /\ forall t i, o = Some (t, i) -> fd_rows w' !! t = Some i.
Proof.
  intros [Hok Hc] Hstep. destruct Hstep as [w d snap t r c rows Hsnap Hid|w d]; cbn [fd_rows fd_caches].
  - assert (Hd : default ∅ (fd_caches w !! d) ⊆ fd_rows w).
    { destruct (fd_caches w !! d) as [c0|] eqn:E; [by apply (Hc d)|apply map_empty_subseteq]. }
    pose proof (pg_ID_spec snap t _ _ Hok Hsnap Hd) as H. rewrite Hid in H. destruct H as (Hok' & Hsub & Hc' & Hr).
    split; [split; [done|]|split; [done|]].
    + apply map_Forall_insert_2; [done|]. intros e c0 He. etransitivity; [by apply (Hc e)|done].
    + intros u i. destruct r as [j|]; cbn; [|done]. intros [= <- <-]. by destruct Hr.
  - split; [split; [done|by apply map_Forall_delete]|]. done.
Qed.

Lemma asked_rows w l w' :
  fleet_db_ok w -> asked w l w' -> fleet_db_ok w' /\ fd_rows w ⊆ fd_rows w' /\ Forall (fun '(t, i) => fd_rows w' !! t = Some i) l.
Proof.
  intros Hw Hrun. induction Hrun as [w|w o w1 l w2 Hstep _ IH]; [split; [done|split; [done|constructor]]|].
  destruct (ask_step_ok _ _ _ Hw Hstep) as (Hw1 & Hsub & Ho). destruct (IH Hw1) as (Hw2 & Hsub2 & Hl).
  split; [done|]. split; [by etransitivity|]. apply Forall_app. split; [|done].
  destruct o as [[t i]|]; constructor; [|constructor]. eapply lookup_weaken; [|exact Hsub2]. by apply Ho.
Qed.

(** C28: Tenant ids stay with their tenants: over any run of daemons on one database, each answering from its cache or by the statement
    over a snapshot that may miss the others' inserts, with restarts in between, every id handed out is positive and fits the column, two
    answers for the same tenant are the same id, and two tenants never get the same one. *)
Theorem one_id_per_tenant w l w' t i u j :
  fleet_db_ok w -> asked w l w' -> (t, i) ∈ l -> (u, j) ∈ l -> 1 <= i <= MaxInt32 /\ (i = j <-> t = u).
Proof.
  intros Hw Hrun Ht Hu. destruct (asked_rows _ _ _ Hw Hrun) as ([[[Hr Hinj] Hcol] _] & _ & Hl). rewrite Forall_forall in Hl.
  pose proof (Hl _ Ht) as Hti. pose proof (Hl _ Hu) as Huj. cbn in Hti, Huj. split.
  - specialize (Hr t i Hti). specialize (Hcol t i Hti). cbn in Hr, Hcol. lia.
  - split; [intros <-; by eapply Hinj|intros <-; congruence].
Qed.

(** Two daemons that ask at once: the second insert hits the constraint, and its retry sees the first. *)
Lemma one_id_per_tenant_witness :
  fleet_db_ok (mkFleet ∅ ∅) /\
  (exists w, asked (mkFleet ∅ ∅) [("a", 1); ("b", 2); ("a", 1)] w) /\
  forall w, asked (mkFleet ∅ ∅) [("a", 1); ("b", 2); ("a", 1)] w -> 1 <= 1 <= MaxInt32 /\ (1 = 2 <-> "a" = "b").
Proof.
  assert (Hok : fleet_db_ok (mkFleet ∅ ∅)).
  { split; [split; [apply ids_ok_empty|apply map_Forall_empty]|apply map_Forall_empty]. }
  split; [exact Hok|]. split.
  - eexists. change [("a", 1); ("b", 2); ("a", 1)] with
      (option_list (Some ("a", 1)) ++ option_list None ++ option_list (Some ("b", 2)) ++ option_list None ++ option_list (Some ("a", 1)) ++ []).
    eapply asked_cons; [apply (Ask _ 0 ∅ "a" (Some 1) {["a" := 1]} {["a" := 1]}); [done|vm_compute; reflexivity]|].
    eapply asked_cons; [apply (Ask _ 1 ∅ "b" None ∅ {["a" := 1]}); [apply map_empty_subseteq|vm_compute; reflexivity]|].
    eapply asked_cons; [apply (Ask _ 1 {["a" := 1]} "b" (Some 2) {["b" := 2]} (<["b" := 2]> {["a" := 1]})); [done|vm_compute; reflexivity]|].
    eapply asked_cons; [apply (Reboot _ 0)|].
    eapply asked_cons; [apply (Ask _ 0 {["a" := 1]} "a" (Some 1) {["a" := 1]} (<["b" := 2]> {["a" := 1]})); [|vm_compute; reflexivity]|apply asked_nil].
    apply map_singleton_subseteq_l. vm_compute. reflexivity.
  - intros w Hrun. apply (one_id_per_tenant _ _ _ "a" 1 "b" 2 Hok Hrun); set_solver.
Defined.

(** *** The ids of a fleet *)

Section Fleet.
Context {R : Type} `{TenantRegistryLaws R}.

(** The registry after a pass has asked for the tenants of its containers. *)
Definition ask_all (ts : list string) (r : R) : R := foldl (fun r t => (ID t r).2) r ts.

Lemma ask_all_assigned ts r :
  registry_ok r -> Z.of_nat (size (assigned r)) + Z.of_nat (length ts) < registry_room ->
  registry_ok (ask_all ts r) /\ assigned r ⊆ assigned (ask_all ts r) /\ Forall (fun t => is_Some (assigned (ask_all ts r) !! t)) ts.
Proof.
  revert r. induction ts as [|t ts IH]; intros r Hok Hroom; [by split_and!|]. cbn [ask_all foldl length] in *.
  destruct (ID_answers t r Hok) as (i & _ & Ha & Hi); [lia|].
  assert (Hsub : assigned r ⊆ assigned (ID t r).2).
  { rewrite Ha. destruct (assigned r !! t) eqn:E; [done|]. by apply insert_subseteq. }
  assert (Hsize : (size (assigned (ID t r).2) <= S (size (assigned r)))%nat).
  { rewrite Ha. destruct (assigned r !! t) eqn:E; [lia|]. by rewrite map_size_insert_None. }
  destruct (IH (ID t r).2) as (Hok' & Hsub' & Hall); [apply ID_ok; [done|lia]|lia|]. split; [done|]. split; [by etransitivity|].
  constructor; [|exact Hall]. exists i. by eapply lookup_weaken.
Qed.

(** A fleet whose ids come from a registry keeps its tenants apart, as [enforced_policy] asks. *)
Lemma registry_sources (w : sources) r :
  let r' := ask_all (tenant_of <$> w_containers w) r in
  registry_ok r -> Z.of_nat (size (assigned r)) + Z.of_nat (length (w_containers w)) < registry_room ->
  w_id w = (fun t => default 0 (assigned r' !! t)) ->
  NoDup (v_IP <$> filter has_ip (views_of w)) -> NoDup (v_Ifindex <$> filter live (views_of w)) ->
  Forall (fun p => Forall port_u32 (p_DenyRules p)) (w_policies w) -> sources_ok w.
Proof.
  intros r' Hok Hroom Hid Hips Hifs Hports. split; [|done..]. intros c d Hc Hd _ _. rewrite Hid.
  destruct (ask_all_assigned (tenant_of <$> w_containers w) r Hok) as (Hok' & _ & Hall); [by rewrite length_fmap|].
  rewrite Forall_fmap, Forall_forall in Hall. destruct (Hall c Hc) as [i Hi], (Hall d Hd) as [j Hj]. cbn in Hi, Hj. unfold r'. rewrite Hi, Hj. cbn. intros <-.
  by eapply (registry_ids _ Hok').
Qed.
End Fleet.

(** ** Signatures *)

Definition SigMaxLen : nat := 32.
Definition OperatorIDBase : Z := 1000.

Inductive sig_error := NilSignature | NameRequired | NameBlank (name : string) | PatternRequired (name : string) | PatternLong (name : string) (n : nat).

Definition ContainsAny (s chars : string) : bool :=
  existsb (fun a => existsb (Ascii.eqb a) (String.list_ascii_of_string chars)) (String.list_ascii_of_string s).

Definition ValidateSignature (s : option SigMsg) : (string * list Z) + sig_error :=
  match s with
  | None => inr NilSignature
  | Some s =>
      let name := TrimSpace (sg_Name s) in
      if String.eqb name "" then inr NameRequired
      else if ContainsAny name (" " +:+ String "009"%char "/") then inr (NameBlank name)
      else
        let pattern := sg_Pattern s in
        if (length pattern =? 0)%nat then inr (PatternRequired name)
        else if (SigMaxLen <? length pattern)%nat then inr (PatternLong name (length pattern))
        else inl (name, pattern)
  end.

(** *** The interface of the stores *)

Definition ids_of (m : gmap string SigMsg) : gmap string Z := sg_Id <$> m.

(** Ids above the built-in ones that fit the 16 bits of the kernel, each of one name. *)
Definition sigs_ok (m : gmap string SigMsg) : Prop :=
  map_Forall (fun n s => sg_Name s = n /\ OperatorIDBase <= sg_Id s <= MaxUint16) m /\
  forall n n' s s', m !! n = Some s -> m !! n' = Some s' -> sg_Id s = sg_Id s' -> n = n'.

Class SignatureStore (S : Type) := {
  sig_Set : string -> list Z -> bool -> string -> S -> option SigMsg * S;
  sig_List : S -> list SigMsg;
  sig_Delete : string -> S -> bool * S;
  sig_table : S -> gmap string SigMsg;
  sig_ok : S -> Prop;
  (** how many ids were given out, an upper bound *)
  sig_used : S -> Z;
}.

Definition sig_budget : Z := MaxUint16 + 1 - OperatorIDBase.

Class SignatureStoreLaws (S : Type) `{SignatureStore S} := {
  sig_table_ok s : sig_ok s -> sigs_ok (sig_table s);
  sig_Set_law name pattern enabled note s : sig_ok s -> sig_used s < sig_budget ->
    exists id s',
      sig_Set name pattern enabled note s = (Some (mkSigMsg name pattern enabled id note), s') /\
      (forall old, sig_table s !! name = Some old -> id = sg_Id old) /\
      sig_table s' = <[name := mkSigMsg name pattern enabled id note]> (sig_table s) /\
      sig_ok s' /\ sig_used s' <= sig_used s + 1;
  sig_List_law s : sig_ok s -> sig_List s = sorted_by sg_Name (values (sig_table s));
  sig_Delete_law name s :
    (sig_Delete name s).1 = bool_decide (is_Some (sig_table s !! name)) /\
    sig_table (sig_Delete name s).2 = delete name (sig_table s) /\
    (sig_ok s -> sig_ok (sig_Delete name s).2 /\ sig_used (sig_Delete name s).2 <= sig_used s);
}.

Lemma sigs_ok_delete n m : sigs_ok m -> sigs_ok (delete n m).
Proof.
  intros [Hr Hi]. split; [by apply map_Forall_delete|]. intros a b s s' [_ Ha]%lookup_delete_Some [_ Hb]%lookup_delete_Some. by eapply Hi.
Qed.

(** A row under a name keeps its id, or takes one that no other name has. *)
Lemma sigs_ok_insert n s m :
  sigs_ok m -> sg_Name s = n -> OperatorIDBase <= sg_Id s <= MaxUint16 ->
  (forall n' s', m !! n' = Some s' -> n' <> n -> sg_Id s' <> sg_Id s) -> sigs_ok (<[n := s]> m).
Proof.
  intros [Hr Hi] Hn Hb Hnew. split; [by apply map_Forall_insert_2|].
  intros a b x y [[<- <-]|[Ha Hx]]%lookup_insert_Some [[<- <-]|[Hb' Hy]]%lookup_insert_Some; intros Hid; [done| | |by eapply Hi].
  - symmetry in Hid. by apply (Hnew b y) in Hid.
  - by apply (Hnew a x) in Hid.
Qed.

(** *** In memory *)

Record memSignature := mkMemSig { ms_id : Z; ms_pattern : list Z; ms_enabled : bool; ms_note : string }.

Record MemSignatureStore := mkMemSigs { mg_m : gmap string memSignature; mg_nextID : Z }.

Definition NewMemSignatureStore : MemSignatureStore := mkMemSigs ∅ OperatorIDBase.

Definition sigToProto (name : string) (r : memSignature) : SigMsg := mkSigMsg name (ms_pattern r) (ms_enabled r) (ms_id r) (ms_note r).

Definition mem_sig_table (s : MemSignatureStore) : gmap string SigMsg := map_imap (fun n r => Some (sigToProto n r)) (mg_m s).

Definition mem_sig_Set (name : string) (pattern : list Z) (enabled : bool) (note : string) (s : MemSignatureStore) : option SigMsg * MemSignatureStore :=
  let '(id, next) := match mg_m s !! name with Some cur => (ms_id cur, mg_nextID s) | None => (mg_nextID s, wrap u16 (mg_nextID s + 1)) end in
  let r := mkMemSig id pattern enabled note in
  (Some (sigToProto name r), mkMemSigs (<[name := r]> (mg_m s)) next).

Definition mem_sig_List (s : MemSignatureStore) : list SigMsg :=
  sorted_by sg_Name (values (mem_sig_table s)).

Definition mem_sig_Delete (name : string) (s : MemSignatureStore) : bool * MemSignatureStore :=
  match mg_m s !! name with None => (false, s) | Some _ => (true, mkMemSigs (delete name (mg_m s)) (mg_nextID s)) end.

(** *** In Postgres *)

Record sig_row := mkSigRow { sr_id : Z; sr_pattern : list Z; sr_enabled : bool; sr_note : string }.

Abbreviation PgSignatureStore := (gmap string sig_row) (only parsing).

Definition row_to_proto (name : string) (r : sig_row) : SigMsg := mkSigMsg name (sr_pattern r) (sr_enabled r) (U32 (sr_id r)) (sr_note r).

Definition pg_sig_table (s : PgSignatureStore) : gmap string SigMsg := map_imap (fun n r => Some (row_to_proto n r)) s.

(** COALESCE(MAX(id), base - 1) + 1. *)
Definition next_sig_id (s : PgSignatureStore) : Z :=
  match (sr_id <$> values s) with [] => OperatorIDBase - 1 | i :: l => foldr Z.max i l end + 1.

Definition pg_sig_Set (name : string) (pattern : list Z) (enabled : bool) (note : string) (s : PgSignatureStore) : option SigMsg * PgSignatureStore :=
  match s !! name with
  | Some old => let r := mkSigRow (sr_id old) pattern enabled note in (Some (row_to_proto name r), <[name := r]> s)
  | None =>
      let id := next_sig_id s in
      if MaxInt32 <? id then (None, s)
      else let r := mkSigRow id pattern enabled note in (Some (row_to_proto name r), <[name := r]> s)
  end.

(** ORDER BY name, byte-wise. *)
Definition pg_sig_List (s : PgSignatureStore) : list SigMsg := sorted_by sg_Name (values (pg_sig_table s)).

Definition pg_sig_Delete (name : string) (s : PgSignatureStore) : bool * PgSignatureStore :=
  (bool_decide (is_Some (s !! name)), delete name s).

(** *** Both keep the promise *)

(** One more than the largest id in use. *)
Definition mem_limit (s : MemSignatureStore) : Z := if mg_nextID s =? 0 then MaxUint16 + 1 else mg_nextID s.

#[export] Instance mem_sigs : SignatureStore MemSignatureStore := {
  sig_Set := mem_sig_Set; sig_List := mem_sig_List; sig_Delete := mem_sig_Delete; sig_table := mem_sig_table;
  sig_ok := fun s => sigs_ok (mem_sig_table s) /\ OperatorIDBase <= mem_limit s <= MaxUint16 + 1 /\
    map_Forall (fun _ m => sg_Id m < mem_limit s) (mem_sig_table s);
  sig_used := fun s => mem_limit s - OperatorIDBase
}.

#[export] Instance pg_sigs : SignatureStore PgSignatureStore := {
  sig_Set := pg_sig_Set; sig_List := pg_sig_List; sig_Delete := pg_sig_Delete; sig_table := pg_sig_table;
  sig_ok := fun s => sigs_ok (pg_sig_table s) /\ map_Forall (fun _ r => OperatorIDBase <= sr_id r <= MaxUint16) s;
  sig_used := fun s => next_sig_id s - OperatorIDBase
}.

Lemma imap_insert {A B} (f : string -> A -> B) n x (m : gmap string A) :
  map_imap (fun k y => Some (f k y)) (<[n := x]> m) = <[n := f n x]> (map_imap (fun k y => Some (f k y)) m).
Proof.
  apply map_eq. intros k. rewrite map_lookup_imap, !lookup_insert. case_decide as E; [by subst|]. by rewrite map_lookup_imap.
Qed.

Lemma imap_delete {A B} (f : string -> A -> B) n (m : gmap string A) :
  map_imap (fun k y => Some (f k y)) (delete n m) = delete n (map_imap (fun k y => Some (f k y)) m).
Proof. apply map_eq. intros k. rewrite map_lookup_imap, !lookup_delete. case_decide; [done|]. by rewrite map_lookup_imap. Qed.

Lemma imap_lookup {A B} (f : string -> A -> B) n (m : gmap string A) : map_imap (fun k y => Some (f k y)) m !! n = f n <$> m !! n.
Proof. rewrite map_lookup_imap. by destruct (m !! n). Qed.

(** A row whose id is below no other's: fresh. *)
Lemma sigs_ok_fresh n s m lim :
  sigs_ok m -> map_Forall (fun _ x => sg_Id x < lim) m -> sg_Name s = n -> sg_Id s = lim -> OperatorIDBase <= lim <= MaxUint16 ->
  sigs_ok (<[n := s]> m).
Proof.
  intros Hm Hlt Hn Hid Hb. apply sigs_ok_insert; [done|done|lia|]. intros n' s' Hs' _. specialize (Hlt n' s' Hs'). cbn in Hlt. lia.
Qed.

(** A row over one with the same id. *)
Lemma sigs_ok_update n s old m : sigs_ok m -> m !! n = Some old -> sg_Name s = n -> sg_Id s = sg_Id old -> sigs_ok (<[n := s]> m).
Proof.
  intros Hm Hold Hn Hid. destruct (proj1 Hm n old Hold) as [_ Hb]. apply sigs_ok_insert; [done|done|lia|].
  intros n' s' Hs' Hne Heq. rewrite Hid in Heq. by apply Hne, (proj2 Hm n' n s' old).
Qed.

#[export] Instance mem_sigs_laws : SignatureStoreLaws MemSignatureStore.
Proof.
  split.
  - by intros s [].
  - intros name pattern enabled note s (Hok & Hb & Hlt) Hroom. cbn [sig_used sig_Set mem_sigs sig_table sig_ok] in *. unfold mem_sig_Set.
    unfold mem_sig_table in *. destruct (mg_m s !! name) as [cur|] eqn:E; cbn [snd mg_m mg_nextID].
    + eexists (ms_id cur), _. split; [done|]. cbn [mg_m]. rewrite imap_insert, imap_lookup, E. cbn [fmap option_fmap option_map].
      split; [by intros old [= <-]|]. split; [done|].
      change (mem_limit (mkMemSigs ?m (mg_nextID s))) with (mem_limit s). split; [|lia]. split; [|split; [done|]].
      * eapply sigs_ok_update; [done|by rewrite imap_lookup, E|done|done].
      * apply map_Forall_insert_2; [|done]. apply (Hlt name (sigToProto name cur)). by rewrite imap_lookup, E.
    + eexists (mg_nextID s), _. split; [done|]. cbn [mg_m]. rewrite imap_insert, imap_lookup, E. split; [done|]. split; [done|].
      assert (Hn : mg_nextID s = mem_limit s).
      { unfold mem_limit in *. destruct (Z.eqb_spec (mg_nextID s) 0); [unfold sig_budget in *; lia|done]. }
      assert (Hl : mem_limit (mkMemSigs (<[name := mkMemSig (mg_nextID s) pattern enabled note]> (mg_m s)) (wrap u16 (mg_nextID s + 1))) = mem_limit s + 1).
      { unfold sig_budget, OperatorIDBase, MaxUint16 in *. unfold mem_limit at 1. cbn [mg_nextID]. rewrite Hn. destruct (Z.eq_dec (mem_limit s) 65535) as [->|Hne]; [done|].
        rewrite wrap_in_type_id; [|done|split; unfold it_min, it_max; cbn; lia]. destruct (Z.eqb_spec (mem_limit s + 1) 0); lia. }
      unfold sig_budget, OperatorIDBase, MaxUint16 in *. rewrite Hl. split; [|lia]. split; [|split; [lia|]].
      * apply (sigs_ok_fresh _ _ _ (mem_limit s)); [done|done|done|done|unfold OperatorIDBase, MaxUint16; lia].
      * apply map_Forall_insert_2; [cbn; lia|]. intros n m Hm. specialize (Hlt n m Hm). cbn in Hlt. lia.
  - done.
  - intros name s. cbn [sig_Delete mem_sigs sig_table sig_ok sig_used]. unfold mem_sig_Delete, mem_sig_table. rewrite imap_lookup.
    destruct (mg_m s !! name) as [r|] eqn:E; cbn [fst snd mg_m].
    + rewrite imap_delete. split; [done|]. split; [done|]. intros (Hok & Hb & Hlt). split; [|done].
      split; [by apply sigs_ok_delete|]. split; [done|by apply map_Forall_delete].
    + split; [done|]. split; [|done]. rewrite delete_id; [done|]. by rewrite imap_lookup, E.
Qed.

Lemma u32_fits v : 0 <= v <= MaxUint32 -> U32 v = v.
Proof.
  intros H. unfold U32. destruct (Z.ltb_spec v 0); [lia|]. unfold MaxUint32 in *.
  rewrite wrap_in_type_id by (done || (unfold in_type, it_min, it_max; cbn; lia)). destruct (Z.ltb_spec 4294967295 v); [lia|].
  apply wrap_in_type_id; [done|]. unfold in_type, it_min, it_max. cbn. lia.
Qed.

(** The next id is above every one in use, and within the bound. *)
Lemma foldr_max_from (i : Z) (l : list Z) : (forall j, j ∈ i :: l -> j <= foldr Z.max i l) /\ foldr Z.max i l ∈ i :: l.
Proof.
  induction l as [|k l [IH1 IH2]]; cbn [foldr]; [split; [set_solver by lia|set_solver]|]. split.
  - intros j [->|[->|Hj]%elem_of_cons]%elem_of_cons; [specialize (IH1 i ltac:(left))|lia|specialize (IH1 j ltac:(by right))]; lia.
  - destruct (Z.max_spec k (foldr Z.max i l)) as [[_ ->]|[_ ->]]; set_solver.
Qed.

Lemma next_sig_id_above (s : PgSignatureStore) n r : s !! n = Some r -> sr_id r < next_sig_id s.
Proof.
  intros Hr. assert (Hin : sr_id r ∈ sr_id <$> values s) by (apply list_elem_of_fmap_2, elem_of_values; by exists n).
  unfold next_sig_id. destruct (sr_id <$> values s) as [|i l]; [by apply elem_of_nil in Hin|]. apply (foldr_max_from i l) in Hin. lia.
Qed.

Lemma next_sig_id_le (s : PgSignatureStore) k : OperatorIDBase <= k -> map_Forall (fun _ r => sr_id r < k) s -> next_sig_id s <= k.
Proof.
  intros Hk Hs. assert (Hl : Forall (fun i => i < k) (sr_id <$> values s)).
  { apply Forall_fmap, Forall_forall. intros r (n & Hn)%elem_of_values. by apply (Hs n). }
  unfold next_sig_id. destruct (sr_id <$> values s) as [|i l]; [unfold OperatorIDBase in *; lia|].
  rewrite Forall_forall in Hl. specialize (Hl _ (proj2 (foldr_max_from i l))). cbn in Hl. lia.
Qed.

Lemma next_sig_id_base (s : PgSignatureStore) : map_Forall (fun _ r => OperatorIDBase <= sr_id r <= MaxUint16) s -> OperatorIDBase <= next_sig_id s.
Proof.
  intros Hs. unfold next_sig_id. destruct (values s) as [|r l] eqn:E; [done|]. cbn [fmap list_fmap].
  assert (Hr : r ∈ values s) by (rewrite E; left). apply elem_of_values in Hr as (n & Hn). specialize (Hs n r Hn). cbn in Hs.
  pose proof (proj1 (foldr_max_from (sr_id r) (sr_id <$> l)) (sr_id r) ltac:(left)). lia.
Qed.

#[export] Instance pg_sigs_laws : SignatureStoreLaws PgSignatureStore.
Proof.
  split.
  - by intros s [].
  - intros name pattern enabled note s (Hok & Hb) Hroom. cbn [sig_used sig_Set pg_sigs sig_table sig_ok] in *. unfold pg_sig_Set.
    unfold pg_sig_table in *. unfold sig_budget in Hroom.
    destruct (s !! name) as [old|] eqn:E.
    + assert (Hu : U32 (sr_id old) = sr_id old).
      { apply u32_fits. specialize (Hb name old E). cbn in Hb. unfold OperatorIDBase, MaxUint16, MaxUint32 in *. lia. }
      eexists (sr_id old), _. split; [unfold row_to_proto; cbn; by rewrite Hu|]. rewrite imap_insert, imap_lookup, E. unfold row_to_proto. cbn. rewrite Hu. split; [by intros ? [= <-]|].
      split; [done|]. split; [split|].
      * eapply sigs_ok_update; [exact Hok|by rewrite imap_lookup, E|done|by cbn; rewrite Hu].
      * apply map_Forall_insert_2; [|done]. by apply (Hb name old).
      * apply Z.le_trans with (next_sig_id s - OperatorIDBase); [|lia]. apply Z.sub_le_mono_r, next_sig_id_le; [by apply next_sig_id_base|].
        apply map_Forall_insert_2; [exact (next_sig_id_above s name old E)|]. intros n r. apply next_sig_id_above.
    + pose proof (next_sig_id_base s Hb) as Hn. assert (Hn' : next_sig_id s <= MaxUint16) by lia. cbv zeta.
      destruct (Z.ltb_spec MaxInt32 (next_sig_id s)) as [Hbig|_]; [unfold MaxInt32, MaxUint16 in *; lia|].
      assert (Hu : U32 (next_sig_id s) = next_sig_id s).
      { apply u32_fits. unfold OperatorIDBase, MaxUint16, MaxUint32 in *. lia. }
      eexists (next_sig_id s), _. split; [unfold row_to_proto; cbn; by rewrite Hu|]. rewrite imap_insert, imap_lookup, E. unfold row_to_proto. cbn. rewrite Hu. split; [done|].
      split; [done|]. split; [split|].
      * apply (sigs_ok_fresh _ _ _ (next_sig_id s)); [done| |done|done|lia].
        intros n m. rewrite imap_lookup. intros (r & Hr & ->)%fmap_Some. pose proof (next_sig_id_above s n r Hr). specialize (Hb n r Hr). cbn in *.
        rewrite u32_fits; [done|]. unfold OperatorIDBase, MaxUint16, MaxUint32 in *. lia.
      * apply map_Forall_insert_2; [cbn; lia|done].
      * assert (Hle : next_sig_id (<[name := mkSigRow (next_sig_id s) pattern enabled note]> s) <= next_sig_id s + 1); [|lia].
        apply next_sig_id_le; [lia|]. apply map_Forall_insert_2; [cbn; lia|]. intros n r Hr. apply next_sig_id_above in Hr. lia.
  - done.
  - intros name s. cbn [sig_Delete pg_sigs sig_table sig_ok sig_used]. unfold pg_sig_Delete, pg_sig_table. cbn [fst snd]. rewrite imap_lookup, imap_delete.
    split; [apply bool_decide_ext; symmetry; apply fmap_is_Some|]. split; [done|]. intros [Hok Hb].
    split; [split; [by apply sigs_ok_delete|by apply map_Forall_delete]|]. apply Z.sub_le_mono_r, next_sig_id_le; [by apply next_sig_id_base|].
    apply map_Forall_delete. intros n r. apply next_sig_id_above.
Qed.

(** *** The handlers *)

Inductive sig_api_error := SigRefused (e : auth_error) | SigUnavailable | SigInvalid (e : sig_error) | SigNameRequired | SigInternal.

Section Handlers.
Context {S : Type} `{SignatureStore S}.

(** [None]: the daemon has no store. *)
Definition SetNetworkPolicySignature (ctx : Auth.Context) (req : option SigMsg) (st : option S) : (SigMsg + sig_api_error) * option S :=
  match RequireRole ctx RoleAdmin with
  | Some e => (inr (SigRefused e), st)
  | None =>
      match st with
      | None => (inr SigUnavailable, st)
      | Some s =>
          match ValidateSignature req with
          | inr e => (inr (SigInvalid e), st)
          | inl (name, pattern) =>
              let '(r, s) := sig_Set name pattern (default false (sg_Enabled <$> req)) (default "" (sg_Note <$> req)) s in
              (match r with Some m => inl m | None => inr SigInternal end, Some s)
          end
      end
  end.

Definition ListNetworkPolicySignatures (ctx : Auth.Context) (st : option S) : list SigMsg + sig_api_error :=
  match RequireRoleOrScope ctx RoleAdmin ScopeNetworkPolicyRead with
  | Some e => inr (SigRefused e)
  | None => inl (match st with None => [] | Some s => sig_List s end)
  end.

Definition DeleteNetworkPolicySignature (ctx : Auth.Context) (name : string) (st : option S) : (unit + sig_api_error) * option S :=
  match RequireRole ctx RoleAdmin with
  | Some e => (inr (SigRefused e), st)
  | None =>
      match st with
      | None => (inr SigUnavailable, st)
      | Some s => if String.eqb name "" then (inr SigNameRequired, st) else (inl tt, Some (sig_Delete name s).2)
      end
  end.

Inductive sig_call := CSet (req : option SigMsg) | CDelete (name : string) | CList.

Definition serve_sig (st : option S) (c : Auth.Context * sig_call) : option S :=
  match c.2 with
  | CSet req => (SetNetworkPolicySignature c.1 req st).2
  | CDelete name => (DeleteNetworkPolicySignature c.1 name st).2
  | CList => st
  end.
End Handlers.

(** Names as they are validated, and patterns that fit a slot. *)
Definition pattern_fits (m : SigMsg) : Prop := (1 <= length (sg_Pattern m) <= SigMaxLen)%nat.

Lemma ValidateSignature_inl req name pattern :
  ValidateSignature req = inl (name, pattern) -> (1 <= length pattern <= SigMaxLen)%nat /\ name <> "" /\ ContainsAny name (" " +:+ String "009"%char "/") = false.
Proof.
  unfold ValidateSignature. destruct req as [s|]; [|done]. cbv zeta. destruct (String.eqb_spec (TrimSpace (sg_Name s)) ""); [done|].
  destruct (ContainsAny _ _) eqn:Hc; [done|]. destruct (Nat.eqb_spec (length (sg_Pattern s)) 0); [done|].
  destruct (Nat.ltb_spec SigMaxLen (length (sg_Pattern s))); [done|]. intros [= <- <-]. split; [lia|]. done.
Qed.

Section Served.
Context {S : Type} `{SignatureStoreLaws S}.

Definition store_fine (s : S) : Prop := sig_ok s /\ map_Forall (fun _ m => pattern_fits m) (sig_table s).

Lemma unserved s : store_fine s -> exists s', Some s = Some s' /\ store_fine s' /\ sig_used s' <= sig_used s + 1.
Proof. intros Hs. exists s. split; [done|]. split; [done|lia]. Qed.

Lemma serve_sig_fine s c :
  store_fine s -> sig_used s < sig_budget ->
  exists s', serve_sig (Some s) c = Some s' /\ store_fine s' /\ sig_used s' <= sig_used s + 1.
Proof.
  intros Hs Hroom. pose proof (unserved s Hs) as Hsame. destruct Hs as [Hok Hp]. destruct c as [ctx [req|name|]]; cbn [serve_sig fst snd].
  - unfold SetNetworkPolicySignature. destruct (RequireRole ctx RoleAdmin); [exact Hsame|].
    destruct (ValidateSignature req) as [[name pattern]|e] eqn:Hv; [|exact Hsame].
    destruct (sig_Set_law name pattern (default false (sg_Enabled <$> req)) (default "" (sg_Note <$> req)) s Hok Hroom) as (id & s' & -> & _ & Ht & Hok' & Hu).
    eexists. split; [done|]. cbn [snd]. split; [split; [done|]|done]. rewrite Ht. apply map_Forall_insert_2; [|done]. by apply ValidateSignature_inl in Hv as [Hv _].
  - unfold DeleteNetworkPolicySignature. destruct (RequireRole ctx RoleAdmin); [exact Hsame|].
    destruct (String.eqb name ""); [exact Hsame|]. destruct (sig_Delete_law name s) as (_ & Ht & Hk). destruct (Hk Hok) as [Hok' Hu].
    eexists. split; [done|]. split; [split; [done|]|cbn [snd]; lia]. cbn [snd]. rewrite Ht. by apply map_Forall_delete.
  - exact Hsame.
Qed.

Lemma serve_sigs_fine calls s :
  store_fine s -> sig_used s + Z.of_nat (length calls) <= sig_budget -> exists s', foldl serve_sig (Some s) calls = Some s' /\ store_fine s'.
Proof.
  revert s. induction calls as [|c calls IH]; intros s Hs Hroom; [by exists s|]. cbn [foldl length] in *.
  destruct (serve_sig_fine s c Hs) as (s' & -> & Hs' & Hu); [lia|]. apply IH; [done|lia].
Qed.

(** A name that is not deleted keeps its id. *)
Lemma serve_sig_keeps_id s c name m :
  sig_ok s -> sig_used s < sig_budget -> c.2 <> CDelete name -> sig_table s !! name = Some m ->
  exists s' m', serve_sig (Some s) c = Some s' /\ sig_table s' !! name = Some m' /\ sg_Id m' = sg_Id m.
Proof.
  intros Hok Hroom Hc Hm. destruct c as [ctx [req|n|]]; cbn [serve_sig fst snd] in *.
  - unfold SetNetworkPolicySignature. destruct (RequireRole ctx RoleAdmin); [by exists s, m|].
    destruct (ValidateSignature req) as [[n pattern]|e]; [|by exists s, m].
    destruct (sig_Set_law n pattern (default false (sg_Enabled <$> req)) (default "" (sg_Note <$> req)) s Hok Hroom) as (id & s' & -> & Hold & Ht & _).
    eexists. destruct (decide (n = name)) as [->|Hne].
    + eexists. split; [done|]. cbn [snd]. rewrite Ht, lookup_insert_eq. split; [done|]. by apply Hold.
    + exists m. split; [done|]. cbn [snd]. by rewrite Ht, lookup_insert_ne.
  - unfold DeleteNetworkPolicySignature. destruct (RequireRole ctx RoleAdmin); [by exists s, m|].
    destruct (String.eqb n ""); [by exists s, m|]. destruct (sig_Delete_law n s) as (_ & Ht & _).
    eexists _, m. split; [done|]. cbn [snd]. rewrite Ht, lookup_delete_ne; [done|]. congruence.
  - by exists s, m.
Qed.
End Served.

(** *** What the kernel and the audit log make of them *)

(** The signatures that a poll of the store makes effective. *)
Abbreviation effective ops := (add_operator BuiltinSignatures ops) (only parsing).

Lemma add_operator_from ops sigs :
  exists k, add_operator sigs ops = sigs ++ k /\
    k `sublist_of` ((fun op => mkSignature (U16FromUint (sg_Id op)) (sg_Name op) (sg_Pattern op)) <$> ops) /\
    (length (sigs ++ k) <= Nat.max SIG_MAX_COUNT (length sigs))%nat /\
    (length (sigs ++ k) < SIG_MAX_COUNT -> forall op, op ∈ ops -> sg_Enabled op = true -> mkSignature (U16FromUint (sg_Id op)) (sg_Name op) (sg_Pattern op) ∈ k)%nat.
Proof.
  revert sigs. induction ops as [|op ops IH]; intros sigs; cbn [add_operator].
  { exists []. rewrite app_nil_r. split; [done|]. split; [constructor|]. split; [lia|]. intros _ op Hop. by apply elem_of_nil in Hop. }
  destruct (sg_Enabled op) eqn:Hen; cbn [negb].
  - destruct (Nat.leb_spec SIG_MAX_COUNT (length sigs)) as [Hfull|Hspace].
    + exists []. rewrite app_nil_r. split; [done|]. split; [apply sublist_nil_l|]. split; lia.
    + destruct (IH (sigs ++ [mkSignature (U16FromUint (sg_Id op)) (sg_Name op) (sg_Pattern op)])) as (k & -> & Hk & Hl & Hin).
      eexists (_ :: k). rewrite <- app_assoc. split; [done|]. split; [by constructor|]. rewrite <- app_assoc in Hin. cbn [app] in Hin.
      rewrite !length_app in Hl. cbn [length] in Hl. split; [rewrite length_app; cbn [length]; lia|]. intros Hlen o [->|Ho]%elem_of_cons Heo; [left|right; by apply Hin].
  - destruct (IH sigs) as (k & -> & Hk & Hl & Hin). exists k. split; [done|]. split; [by apply sublist_cons|]. split; [done|].
    intros Hlen o [->|Ho]%elem_of_cons Heo; [congruence|by apply Hin].
Qed.

Definition names_of (sigs : list Signature) : gmap Z string := foldl (fun m s => <[sn_ID s := sn_Name s]> m) ∅ sigs.

Lemma names_of_lookup sigs sg : NoDup (sn_ID <$> sigs) -> sg ∈ sigs -> names_of sigs !! sn_ID sg = Some (sn_Name sg).
Proof.
  unfold names_of. generalize (∅ : gmap Z string). induction sigs as [|s sigs IH]; intros m Hn Hin; [by apply elem_of_nil in Hin|].
  cbn [fmap list_fmap] in Hn. apply NoDup_cons in Hn as [Hs Hn]. cbn [foldl]. apply elem_of_cons in Hin as [->|Hin]; [|by apply IH].
  clear IH Hn. assert (Hl : <[sn_ID s := sn_Name s]> m !! sn_ID s = Some (sn_Name s)) by apply lookup_insert_eq. revert Hs Hl.
  generalize (<[sn_ID s := sn_Name s]> m). induction sigs as [|u sigs IH]; intros m' Hs Hl; [done|]. cbn [foldl fmap list_fmap] in *.
  apply not_elem_of_cons in Hs as [Hne Hs]. apply IH; [done|]. by rewrite lookup_insert_ne.
Qed.

Lemma fingerprint_builtin k : fingerprint (BuiltinSignatures ++ k) <> "".
Proof.
  unfold BuiltinSignatures. cbn [app]. unfold fingerprint. cbn [foldr]. set (t := foldr _ _ k). clearbody t. vm_compute. discriminate.
Qed.

Lemma U16_fits i : 0 <= i <= MaxUint16 -> U16FromUint i = i.
Proof.
  intros H. unfold U16FromUint. destruct (Z.ltb_spec MaxUint16 i); [lia|]. apply wrap_in_type_id; [done|].
  unfold in_type, it_min, it_max, MaxUint16 in *. cbn. lia.
Qed.

(** A pattern that fits is in its slot whole. *)
Lemma slot_whole sg :
  (length (sn_Pattern sg) <= SIG_MAX_LEN)%nat -> take (Z.to_nat (sl_Len (toSigEntry sg))) (sl_Pattern (toSigEntry sg)) = sn_Pattern sg.
Proof.
  intros Hl. unfold toSigEntry. cbn [sl_Len sl_Pattern]. rewrite Nat.min_l by done. rewrite (take_ge (sn_Pattern sg)) by done. unfold SIG_MAX_LEN in Hl.
  assert (Hu : U8 (Z.of_nat (length (sn_Pattern sg))) = Z.of_nat (length (sn_Pattern sg))).
  { unfold U8, MaxUint8. destruct (Z.ltb_spec (Z.of_nat (length (sn_Pattern sg))) 0); [lia|]. destruct (Z.ltb_spec 255 (Z.of_nat (length (sn_Pattern sg)))); [lia|].
    apply wrap_in_type_id; [done|]. unfold in_type, it_min, it_max. cbn. lia. }
  rewrite Hu, Nat2Z.id. by apply take_app_length.
Qed.

(** The ids of effective signatures are distinct. *)
Lemma effective_distinct (m : gmap string SigMsg) : sigs_ok m -> NoDup (sn_ID <$> effective (sorted_by sg_Name (values m))).
Proof.
  intros [Hr Hi]. destruct (add_operator_from (sorted_by sg_Name (values m)) BuiltinSignatures) as (k & -> & Hk & _).
  assert (Hlook : forall op, op ∈ sorted_by sg_Name (values m) -> m !! sg_Name op = Some op /\ OperatorIDBase <= sg_Id op <= MaxUint16).
  { intros op (n & Hn)%elem_of_sorted_by%elem_of_values. destruct (Hr n op Hn) as [<- Hb]. done. }
  assert (Hu : forall op, op ∈ sorted_by sg_Name (values m) -> U16FromUint (sg_Id op) = sg_Id op).
  { intros op Hop. apply U16_fits. destruct (Hlook op Hop). unfold OperatorIDBase in *. lia. }
  rewrite fmap_app. apply NoDup_app. split; [by apply (bool_decide_unpack _); vm_compute|]. split.
  - intros i Hb (s & -> & Hs)%list_elem_of_fmap. apply (sublist_subseteq _ _ Hk), list_elem_of_fmap in Hs as (op & -> & Hop).
    cbn in Hb. rewrite (Hu op Hop) in Hb. destruct (Hlook op Hop) as [_ Ho]. unfold OperatorIDBase in Ho. rewrite !elem_of_cons, elem_of_nil in Hb. lia.
  - eapply sublist_NoDup; [|by apply fmap_sublist]. rewrite <- list_fmap_compose.
    apply NoDup_fmap_2_strong.
    + intros a b Ha Hb'. cbn. rewrite (Hu a Ha), (Hu b Hb'). intros Hid. destruct (Hlook a Ha) as [La _], (Hlook b Hb') as [Lb _].
      pose proof (Hi _ _ _ _ La Lb Hid) as E. congruence.
    + apply (NoDup_fmap_1 sg_Name), sorted_values_NoDup. intros n s Hs. by destruct (Hr n s Hs).
Qed.

(** The answers to a poll that sees the listed signatures. *)
Definition polled (ops : list SigMsg) (c : ncall) : nans c -> Prop :=
  match c as c return nans c -> Prop with
  | NListSignatures => fun r => r = Some ops
  | NHasSignatures => fun r => r = true
  | c => fun _ => True
  end.

(** C29: An id in the audit log names the signature that matched.  After any calls of the signature API on a fresh store, fewer
    than there are 16-bit ids, the first refresh gives the kernel the built-in signatures and then the enabled ones of the store, as many as
    there are slots: each slot holds its pattern whole, no two have the same id, and the daemon's names give every id the name of the signature it is installed under. *)
Theorem audit_names_signature S `{SignatureStoreLaws S} (s0 : S) calls cf :
  sig_ok s0 -> sig_table s0 = ∅ -> sig_used s0 = 0 -> Z.of_nat (length calls) <= sig_budget ->
  cf_sigEnabled cf = true -> cf_sigStore cf = true ->
  exists s, foldl serve_sig (Some s0) calls = Some s /\
    let sigs := effective (sig_List s) in
    makes (polled (sig_List s)) (fun _ => True) (refreshSignatureSlots cf newDaemon) (fun d =>
      (length sigs <= SIG_MAX_COUNT)%nat /\ BuiltinSignatures `prefix_of` sigs /\ NoDup (sn_ID <$> sigs) /\
      (forall sg, sg ∈ sigs -> dm_sigNames d !! sn_ID sg = Some (sn_Name sg) /\ take (Z.to_nat (sl_Len (toSigEntry sg))) (sl_Pattern (toSigEntry sg)) = sn_Pattern sg) /\
      (length sigs < SIG_MAX_COUNT -> forall n m, sig_table s !! n = Some m -> sg_Enabled m = true -> mkSignature (sg_Id m) n (sg_Pattern m) ∈ sigs)%nat).
Proof.
  intros Hok Hempty Hused Hcalls Hen Hst. destruct (serve_sigs_fine calls s0) as (s & -> & Hs & Hp); [|lia|].
  { split; [done|]. rewrite Hempty. apply map_Forall_empty. }
  exists s. split; [done|]. cbv zeta. pose proof (sig_table_ok s Hs) as Htab. pose proof (effective_distinct _ Htab) as Hdist. rewrite sig_List_law by done.
  destruct (add_operator_from (sorted_by sg_Name (values (sig_table s))) BuiltinSignatures) as (k & Heff & Hk & Hlen & Hall).
  assert (Hfit : forall sg, sg ∈ BuiltinSignatures ++ k -> (length (sn_Pattern sg) <= SIG_MAX_LEN)%nat).
  { intros sg [Hb|(op & -> & (n & Hn)%elem_of_sorted_by%elem_of_values)%(sublist_subseteq _ _ Hk)%list_elem_of_fmap]%elem_of_app.
    - revert sg Hb. apply Forall_forall. repeat (apply Forall_cons; split); try apply Forall_nil_2; vm_compute; lia.
    - apply (Hp n op Hn). }
  rewrite Heff in *. unfold refreshSignatureSlots. rewrite Hen. cbn [negb]. quiet_call. intros has ->. cbn [negb].
  eapply (makes_bind _ _ _ _ (fun sigs => sigs = BuiltinSignatures ++ k)).
  { unfold effectiveSignatures. rewrite Hst. quiet_call. intros ops ->. apply makes_ret. exact Heff. }
  intros sigs ->. cbv zeta. destruct (String.eqb_spec (fingerprint (BuiltinSignatures ++ k)) (dm_sigLoaded newDaemon)) as [E|_]; [by apply fingerprint_builtin in E|].
  apply (makes_bind _ _ _ _ (fun _ => True)); [apply (makes_mono _ quiet _ _ (fun _ => True)); [done|done|apply write_slots_makes]|]. intros _ _. apply makes_ret.
  split; [exact Hlen|]. split; [by exists k|]. split; [done|]. split.
  - intros sg Hsg. split; [by apply names_of_lookup|]. by apply slot_whole, Hfit.
  - intros Hroom n m Hm Hmen. apply elem_of_app. right. destruct (proj1 Htab n m Hm) as [<- Hb].
    rewrite <- (U16_fits (sg_Id m)) by (unfold OperatorIDBase in *; lia). apply Hall; [done| |done]. apply elem_of_sorted_by, elem_of_values. by eexists.
Qed.

Lemma pg_sigs_empty : sig_ok (∅ : PgSignatureStore) /\ sig_table (∅ : PgSignatureStore) = ∅ /\ sig_used (∅ : PgSignatureStore) = 0.
Proof.
  split; [|split; [reflexivity|vm_compute; reflexivity]]. split; [|by intros n r Hr]. change (sigs_ok ∅).
  split; [by intros n m Hm|by intros n n' s s' Hs].
Qed.

Definition sig_admin : Auth.Context := mkContext None (Some "root") (Some [RoleAdmin]) None None None None None.

Lemma audit_names_signature_witness :
  let calls := [(sig_admin, CSet (Some (mkSigMsg " cve-1 " [1; 2; 3] true 0 "")))] in
  sig_table (∅ : PgSignatureStore) = ∅ /\ Z.of_nat (length calls) <= sig_budget /\
  exists s : PgSignatureStore, foldl serve_sig (Some ∅) calls = Some s /\
    makes (polled (sig_List s)) (fun _ => True) (refreshSignatureSlots (mkConf true true true) newDaemon)
      (fun d => forall sg, sg ∈ effective (sig_List s) -> dm_sigNames d !! sn_ID sg = Some (sn_Name sg)).
Proof.
  intros calls. split; [reflexivity|]. split; [vm_compute; discriminate|].
  destruct pg_sigs_empty as (Hok & Ht & Hu).
  pose proof (audit_names_signature PgSignatureStore ∅ calls (mkConf true true true) Hok Ht Hu ltac:(vm_compute; discriminate) eq_refl eq_refl) as (s & Hs & Hm).
  exists s. split; [exact Hs|]. eapply makes_mono; [|clear Hs|exact Hm]; [intros c Hc; exact Hc|].
  cbn beta. intros d (_ & _ & _ & Hnames & _) sg Hsg. exact (proj1 (Hnames sg Hsg)).
Defined.

(** *** What the interface's comment promises and the stores do not *)

Definition after (S : Type) `{SignatureStore S} (s : S) (l : list (string + string)) : S :=
  foldl (fun s c => match c with inl n => (sig_Set n [1] true "" s).2 | inr n => (sig_Delete n s).2 end) s l.

(** Postgres gives the id of a deleted signature to the next one: rows of the audit log then name another. *)
Example deleted_id_is_reused :
  sg_Id <$> sig_table (after PgSignatureStore ∅ [inl "a"; inl "b"]) !! "b" = Some 1001 /\
  sg_Id <$> sig_table (after PgSignatureStore ∅ [inl "a"; inl "b"; inr "b"; inl "c"]) !! "c" = Some 1001 /\
  sg_Id <$> sig_table (after MemSignatureStore NewMemSignatureStore [inl "a"; inl "b"; inr "b"; inl "c"]) !! "c" = Some 1002.
Proof. vm_compute. done. Qed.

(** The check of a name looks for two of the blanks. *)
Example newline_in_a_name :
  ValidateSignature (Some (mkSigMsg ("a" +:+ String "010"%char "b") [1] true 0 "")) = inl ("a" +:+ String "010"%char "b", [1]) /\
  ValidateSignature (Some (mkSigMsg "a b" [1] true 0 "")) = inr (NameBlank "a b").
Proof. vm_compute. done. Qed.

(** ** Addresses of domains *)

(** An IPv4 address as the number that [Less] compares. *)
Definition v4_number (q : list Z) : Z := foldl (fun n b => n * 256 + b) 0 q.

Definition v4_le (q r : list Z) : Prop := v4_number q <= v4_number r.

#[export] Instance v4_le_dec q r : Decision (v4_le q r).
Proof. unfold v4_le. apply _. Defined.

(** The answers of [LookupNetIP] that are kept: those in four-byte form. *)
Definition v4_of (addrs : list Addr) : list (list Z) := omap (fun a => match a with AddrV4 q => Some q | AddrV6 _ _ => None end) addrs.

Section Resolver.
Context (LookupNetIP : string -> option (list Addr)).

Definition refresh_domain (acc : gset string * gmap string (list (list Z))) (dom : string) : gset string * gmap string (list (list Z)) :=
  let '(requested, cache) := acc in
  if String.eqb dom "" || bool_decide (dom ∈ requested) then (requested, cache)
  else
    ({[dom]} ∪ requested, match LookupNetIP dom with None => cache | Some addrs => <[dom := merge_sort v4_le (v4_of addrs)]> cache end).

Definition Refresh (domains : list string) (cache : gmap string (list (list Z))) : gmap string (list (list Z)) :=
  let '(requested, cache) := foldl refresh_domain (∅, cache) domains in
  filter (fun '(dom, _) => dom ∈ requested) cache.

Definition IPs (cache : gmap string (list (list Z))) (domain : string) : list (list Z) := default [] (cache !! domain).

(** [refreshDomains] over the stored policies. *)
Definition refreshDomains (stored : option (list NetworkPolicy)) (cache : gmap string (list (list Z))) : gmap string (list (list Z)) :=
  match stored with
  | None => cache
  | Some stored =>
      let domains := stored ≫= p_EgressDomains in
      if (length domains =? 0)%nat then cache else Refresh domains cache
  end.

(** What is known of a domain after a refresh. *)
Definition resolved (dom : string) (old : option (list (list Z))) : option (list (list Z)) :=
  match LookupNetIP dom with Some addrs => Some (merge_sort v4_le (v4_of addrs)) | None => old end.

Lemma refresh_loop domains req cache :
  let '(req', cache') := foldl refresh_domain (req, cache) domains in
  forall dom, (dom ∈ req' <-> dom ∈ req \/ (dom ∈ domains /\ dom <> "")) /\
    cache' !! dom = if decide (dom ∈ domains /\ dom <> "" /\ dom ∉ req) then resolved dom (cache !! dom) else cache !! dom.
Proof.
  revert req cache. induction domains as [|d domains IH]; intros req cache; cbn [foldl].
  { intros dom. split; [set_solver|]. rewrite decide_False; [done|]. by intros [H%elem_of_nil _]. }
  destruct (refresh_domain (req, cache) d) as [req1 cache1] eqn:E. specialize (IH req1 cache1).
  destruct (foldl refresh_domain (req1, cache1) domains) as [req' cache']. intros dom. destruct (IH dom) as [Hr Hc]. clear IH. revert E.
  unfold refresh_domain. destruct (String.eqb_spec d "") as [->|Hd]; cbn [orb].
  { intros [= -> ->]. split; [set_solver|]. rewrite Hc. destruct (decide (dom = "")) as [->|Hne].
    - rewrite !decide_False by naive_solver. done.
    - apply decide_ext. set_solver. }
  destruct (bool_decide_reflect (d ∈ req)) as [Hin|Hin].
  { intros [= -> ->]. split; [set_solver|]. rewrite Hc. apply decide_ext. set_solver. }
  intros [= <- <-]. split; [set_solver|]. rewrite Hc. destruct (decide (dom = d)) as [->|Hne].
  - rewrite (decide_False (P := d ∈ domains /\ _)) by set_solver. rewrite decide_True by set_solver. unfold resolved.
    destruct (LookupNetIP d); [by rewrite lookup_insert_eq|done].
  - transitivity (if decide (dom ∈ domains /\ dom <> "" /\ dom ∉ {[d]} ∪ req) then resolved dom (cache !! dom) else cache !! dom).
    + destruct (LookupNetIP d); [|done]. by rewrite lookup_insert_ne.
    + apply decide_ext. set_solver.
Qed.

(** A failing name server neither opens nor closes anything: after a refresh every requested domain has the IPv4 answers of its
    lookup in order, or what was known before when the lookup failed, and nothing is known of any other domain. *)
Theorem Refresh_spec domains cache dom :
  Refresh domains cache !! dom = if decide (dom ∈ domains /\ dom <> "") then resolved dom (cache !! dom) else None.
Proof.
  unfold Refresh. pose proof (refresh_loop domains ∅ cache) as H. destruct (foldl refresh_domain (∅, cache) domains) as [req' cache'].
  destruct (H dom) as [Hr Hc]. rewrite map_lookup_filter, Hc. destruct (decide (dom ∈ domains /\ dom <> "")) as [Hd|Hd].
  - rewrite decide_True by set_solver. destruct (resolved dom (cache !! dom)); [|done]. cbn. rewrite option_guard_True; [done|]. apply Hr. by right.
  - rewrite decide_False by set_solver. destruct (cache !! dom); [|done]. cbn. rewrite option_guard_False; [done|]. rewrite Hr. set_solver.
Qed.
End Resolver.

(** Answers in IPv4-mapped form are dropped, so the domain has no address. *)
Example mapped_answers_are_dropped :
  IPs (Refresh (fun _ => Some [AddrV6 (v4_in_v6 ++ [93; 184; 216; 34]) ""]) ["example.org"] ∅) "example.org" = [] /\
  IPs (Refresh (fun _ => Some [AddrV4 [93; 184; 216; 34]; AddrV4 [9; 9; 9; 9]]) ["example.org"] ∅) "example.org" = [[9; 9; 9; 9]; [93; 184; 216; 34]].
Proof. vm_compute. done. Qed.
