(* ===== verification/Traffic.v ===== *)
(** * Traffic: whose packets, live and in the history

    internal/traffic: cache.go (names and addresses of containers), collector.go (conntrack events and eBPF flows, the live view and
    what is saved), fanout.go, the rows and re-aggregation of store.go; and the flow poll of internal/server/network_policy_enforcer.go.
    Saves run on goroutines, so they reach the table in any order; a step relation interleaves them with everything else.
    Every container is shown from one source ([one_source_per_container]), a flow leaves the kernel only after
    its counters were handed to the collector ([reaped_after_handover]), re-aggregation groups rows by the start of their
    interval ([reAggregate_groups]), and what the auto-sleeper reads is the end of a saved row ([history_is_closed]).
    Columns hold the Go values; duration_seconds and the SQL of the queries are not modelled. *)

From Stdlib Require Import Ascii.
From S2P Require Import Prelude Prog GoStrings GoSort GoNet GoNetip SafeCast NetPolicy NetBpf Incus AutoSleep.
#[local] Open Scope string_scope.
#[local] Open Scope list_scope.
#[local] Open Scope Z_scope.

(** ** Names and addresses of containers *)

Record ContainerCache := mkCache { cc_ipToName : gmap string string; cc_nameToIP : gmap string string; cc_nameToID : gmap string string }.

Definition NewContainerCache : ContainerCache := mkCache ∅ ∅ ∅.

Definition LookupIP (ip : string) (c : ContainerCache) : string := default "" (cc_ipToName c !! ip).
Definition LookupName (name : string) (c : ContainerCache) : string := default "" (cc_nameToIP c !! name).
Definition LookupID (name : string) (c : ContainerCache) : string := default "" (cc_nameToID c !! name).

(** What [GetContainerWithNetwork] tells of a container. *)
Record NetworkInfo := mkNetInfo { ni_IPAddress : string; ni_Labels : gmap string string }.

Definition drop_name (current : gset string) (c : ContainerCache) (e : string * string) : ContainerCache :=
  if bool_decide (e.1 ∈ current) then c
  else mkCache (delete e.2 (cc_ipToName c)) (delete e.1 (cc_nameToIP c)) (delete e.1 (cc_nameToID c)).

Definition add_name (c : ContainerCache) (e : string * NetworkInfo) : ContainerCache :=
  let '(name, info) := e in
  let '(ips, names) :=
    if String.eqb (ni_IPAddress info) "" then (cc_ipToName c, cc_nameToIP c)
    else (<[ni_IPAddress info := name]> (cc_ipToName c), <[name := ni_IPAddress info]> (cc_nameToIP c)) in
  let id := default "" (ni_Labels info !! "cloud_container_id") in
  mkCache ips names (if String.eqb id "" then cc_nameToID c else <[name := id]> (cc_nameToID c)).

Section Cache.
(** The order in which Go walks a map. *)
Context (walk : forall A, list A -> list A) (Hwalk : forall A (l : list A), walk A l ≡ₚ l).

(** [names] is the listing, [fetch] the lookup of one container. *)
Definition Refresh (names : option (list string)) (fetch : string -> option NetworkInfo) (c : ContainerCache) : ContainerCache :=
  match names with
  | None => c
  | Some names =>
      let current : gset string := list_to_set names in
      let toFetch := filter (fun n => cc_nameToIP c !! n = None) names in
      let fetched : gmap string NetworkInfo := foldl (fun m n => match fetch n with Some i => <[n := i]> m | None => m end) ∅ toFetch in
      let c := foldl (drop_name current) c (walk _ (map_to_list (cc_nameToIP c))) in
      foldl add_name c (walk _ (map_to_list fetched))
  end.

(** An address leads to a name that has it. *)
Definition cache_sound (c : ContainerCache) : Prop := forall ip n, cc_ipToName c !! ip = Some n -> cc_nameToIP c !! n = Some ip.

Lemma drop_loop current l c :
  cache_sound c -> NoDup (fst <$> l) -> (forall n ip, (n, ip) ∈ l -> cc_nameToIP c !! n = Some ip) ->
  cache_sound (foldl (drop_name current) c l) /\
  forall n, cc_nameToIP (foldl (drop_name current) c l) !! n = if decide (n ∈ l.*1 /\ n ∉ current) then None else cc_nameToIP c !! n.
Proof.
  revert c. induction l as [|[m ip] l IH]; intros c Hs Hn Hl; cbn [foldl fmap list_fmap fst].
  { split; [done|]. intros n. rewrite decide_False; [done|]. by intros [H%elem_of_nil _]. }
  apply NoDup_cons in Hn as [Hm Hn]. unfold drop_name at 2 4. cbn [fst snd]. destruct (bool_decide_reflect (m ∈ current)) as [Hc|Hc].
  - destruct (IH c Hs Hn) as [Hs' Hd]; [intros n i Hi; apply Hl; by right|]. split; [done|]. intros n. rewrite Hd.
    apply decide_ext. set_solver.
  - destruct (IH (mkCache (delete ip (cc_ipToName c)) (delete m (cc_nameToIP c)) (delete m (cc_nameToID c)))) as [Hs' Hd].
    + intros i n. cbn [cc_ipToName cc_nameToIP]. intros [Hi Hin]%lookup_delete_Some. apply lookup_delete_Some. split; [|by apply Hs]. intros E. apply Hs in Hin. rewrite <- E in Hin.
      rewrite (Hl m ip) in Hin by left. congruence.
    + done.
    + intros n i Hi. cbn. apply lookup_delete_Some. split; [|apply Hl; by right]. intros ->. apply Hm. apply list_elem_of_fmap. by exists (n, i).
    + split; [done|]. intros n. rewrite Hd. cbn [cc_nameToIP]. destruct (decide (n = m)) as [->|Hne].
      * rewrite decide_False by naive_solver. rewrite lookup_delete_eq, decide_True; [done|]. split; [left|done].
      * rewrite lookup_delete_ne by done. apply decide_ext. set_solver.
Qed.

Lemma add_loop l c :
  cache_sound c -> NoDup (fst <$> l) -> (forall n i, (n, i) ∈ l -> cc_nameToIP c !! n = None) ->
  cache_sound (foldl add_name c l) /\
  (forall n, n ∉ l.*1 -> cc_nameToIP (foldl add_name c l) !! n = cc_nameToIP c !! n) /\
  (forall n i, (n, i) ∈ l -> cc_nameToIP (foldl add_name c l) !! n = if String.eqb (ni_IPAddress i) "" then None else Some (ni_IPAddress i)).
Proof.
  revert c. induction l as [|[m i] l IH]; intros c Hs Hn Hl; cbn [foldl fmap list_fmap fst].
  { split; [done|]. split; [done|]. by intros n i Hi%elem_of_nil. }
  apply NoDup_cons in Hn as [Hm Hn]. assert (Hmc : cc_nameToIP c !! m = None) by (apply (Hl m i); left).
  assert (Hnames : cc_nameToIP (add_name c (m, i)) = if String.eqb (ni_IPAddress i) "" then cc_nameToIP c else <[m := ni_IPAddress i]> (cc_nameToIP c)).
  { unfold add_name. by destruct (String.eqb (ni_IPAddress i) ""). }
  destruct (IH (add_name c (m, i))) as (Hs' & Hout & Hin); [| done | |].
  - unfold add_name. destruct (String.eqb (ni_IPAddress i) ""); [exact Hs|]. intros ip n. cbn. intros [[<- <-]|[Hne Hip]]%lookup_insert_Some.
    + apply lookup_insert_eq.
    + apply Hs in Hip. rewrite lookup_insert_ne; [done|]. congruence.
  - intros n j Hj. rewrite Hnames. assert (n <> m) by (intros ->; apply Hm, list_elem_of_fmap; by exists (m, j)).
    destruct (String.eqb _ _); [|rewrite lookup_insert_ne by done]; apply (Hl n j); by right.
  - split; [done|]. split.
    + intros n [Hne Hn']%not_elem_of_cons. rewrite Hout, Hnames by done. destruct (String.eqb _ _); [done|]. by rewrite lookup_insert_ne.
    + intros n j [[= -> ->]|Hj]%elem_of_cons; [|by apply Hin]. rewrite Hout, Hnames by done. destruct (String.eqb _ _); [done|]. apply lookup_insert_eq.
Qed.

(** Every address in use leads back to its name. *)
Definition cache_exact (c : ContainerCache) : Prop := forall ip n, cc_ipToName c !! ip = Some n <-> cc_nameToIP c !! n = Some ip.

Definition unshared (c : ContainerCache) : Prop := forall n m ip, cc_nameToIP c !! n = Some ip -> cc_nameToIP c !! m = Some ip -> n = m.

Lemma drop_exact current l c :
  cache_exact c -> NoDup (fst <$> l) -> (forall n ip, (n, ip) ∈ l -> cc_nameToIP c !! n = Some ip) -> cache_exact (foldl (drop_name current) c l).
Proof.
  revert c. induction l as [|[m ip] l IH]; intros c Hx Hn Hl; [done|]. cbn [foldl fmap list_fmap fst] in *. apply NoDup_cons in Hn as [Hm Hn].
  assert (Hmi : cc_nameToIP c !! m = Some ip) by (apply Hl; left).
  apply IH; [|done|]; unfold drop_name; cbn [fst snd]; destruct (bool_decide_reflect (m ∈ current)); [done| | |]; cbn [cc_ipToName cc_nameToIP].
  - intros i n'. cbn [cc_ipToName cc_nameToIP]. rewrite !lookup_delete_Some, (Hx i n'). split; intros [Hne H]; (split; [intros E|done]); apply Hne; subst.
    + congruence.
    + apply Hx in H, Hmi. congruence.
  - intros n' i Hi. apply Hl. by right.
  - intros n' i Hi. apply lookup_delete_Some. split; [|apply Hl; by right]. intros ->. apply Hm, list_elem_of_fmap. by exists (n', i).
Qed.

Lemma add_keeps l c n ip :
  NoDup (fst <$> l) -> (forall n i, (n, i) ∈ l -> cc_nameToIP c !! n = None) -> cc_nameToIP c !! n = Some ip -> cc_nameToIP (foldl add_name c l) !! n = Some ip.
Proof.
  revert c. induction l as [|[m i] l IH]; intros c Hn Hl H; [done|]. cbn [foldl fmap list_fmap fst] in *. apply NoDup_cons in Hn as [Hm Hn].
  assert (Hmc : cc_nameToIP c !! m = None) by (apply (Hl m i); left). assert (m <> n) by (intros ->; congruence).
  apply IH; [done| |]; unfold add_name; destruct (String.eqb (ni_IPAddress i) ""); cbn [cc_nameToIP]; [| |done|by rewrite lookup_insert_ne].
  - intros k j Hj. apply (Hl k j). by right.
  - intros k j Hj. rewrite lookup_insert_ne; [apply (Hl k j); by right|]. intros ->. apply Hm, list_elem_of_fmap. by exists (k, j).
Qed.

Lemma add_exact l c :
  cache_exact c -> NoDup (fst <$> l) -> (forall n i, (n, i) ∈ l -> cc_nameToIP c !! n = None) -> unshared (foldl add_name c l) ->
  cache_exact (foldl add_name c l).
Proof.
  revert c. induction l as [|[m i] l IH]; intros c Hx Hn Hl Hu; [done|]. cbn [foldl fmap list_fmap fst] in *. apply NoDup_cons in Hn as [Hm Hn].
  assert (Hmc : cc_nameToIP c !! m = None) by (apply (Hl m i); left).
  assert (Hl' : forall n j, (n, j) ∈ l -> cc_nameToIP (add_name c (m, i)) !! n = None).
  { intros k j Hj. unfold add_name. destruct (String.eqb (ni_IPAddress i) ""); cbn [cc_nameToIP]; [apply (Hl k j); by right|].
    rewrite lookup_insert_ne; [apply (Hl k j); by right|]. intros ->. apply Hm, list_elem_of_fmap. by exists (k, j). }
  apply IH; [|done|exact Hl'|exact Hu]. revert Hu Hl'. unfold add_name. destruct (String.eqb_spec (ni_IPAddress i) "") as [E|E]; cbn [cc_nameToIP].
  { done. }
  intros Hu Hl' ip n'. cbn [cc_ipToName cc_nameToIP]. rewrite !lookup_insert_Some, (Hx ip n'). split.
  - intros [[<- <-]|[Hne H]]; [by left|]. right. split; [|done]. intros <-. congruence.
  - intros [[<- <-]|[Hne H]]; [by left|]. right. split; [|done]. intros <-. apply Hne.
    apply (Hu m n' (ni_IPAddress i)); apply add_keeps; cbn [cc_nameToIP]; [done|exact Hl'|apply lookup_insert_eq|done|exact Hl'|by rewrite lookup_insert_ne].
Qed.

(** The lookups that succeed, by name. *)
Lemma fetched_lookup (fetch : string -> option NetworkInfo) (l : list string) (m : gmap string NetworkInfo) n :
  foldl (fun m n => match fetch n with Some i => <[n := i]> m | None => m end) m l !! n =
  if decide (n ∈ l) then match fetch n with Some i => Some i | None => m !! n end else m !! n.
Proof.
  revert m. induction l as [|k l IH]; intros m; cbn [foldl]; [by rewrite decide_False by apply not_elem_of_nil|]. rewrite IH.
  destruct (decide (n = k)) as [->|Hne].
  - rewrite (decide_True (P := k ∈ k :: l)) by left. destruct (fetch k) as [i|] eqn:Ek; [rewrite lookup_insert_eq|]; by destruct (decide _).
  - transitivity (if decide (n ∈ l) then match fetch n with Some i => Some i | None => m !! n end else m !! n).
    + destruct (fetch k); [|done]. by rewrite lookup_insert_ne.
    + apply decide_ext. set_solver.
Qed.

Lemma NoDup_walk {A} (m : gmap string A) : NoDup (fst <$> walk _ (map_to_list m)).
Proof using Hwalk. rewrite Hwalk. apply NoDup_fst_map_to_list. Qed.

(** What a container's address is after a refresh: what it was, or what the lookup of a new one says. *)
Definition address_after (fetch : string -> option NetworkInfo) (c : ContainerCache) (n : string) : option string :=
  match cc_nameToIP c !! n with
  | Some ip => Some ip
  | None => i ← fetch n; if String.eqb (ni_IPAddress i) "" then None else Some (ni_IPAddress i)
  end.

(** Packets are attributed to a container that has the address: after a refresh of a sound cache the listed containers have the
    address they had, or the one looked up for a new one, no other has any, and an address leads only to a container that has it; where no two containers share an
    address, before and after, it leads to every one of them. *)
Theorem Refresh_attributes names fetch c :
  cache_sound c ->
  let c' := Refresh (Some names) fetch c in
  cache_sound c' /\
  (forall n, cc_nameToIP c' !! n = if decide (n ∈ names) then address_after fetch c n else None) /\
  (cache_exact c -> unshared c' -> forall n ip, n ∈ names -> address_after fetch c n = Some ip -> n <> "" -> LookupIP ip c' = n).
Proof using Hwalk.
  intros Hs c'. unfold c', Refresh. clear c'. set (current := list_to_set names : gset string).
  set (fetched := foldl _ ∅ _). set (l := walk _ (map_to_list (cc_nameToIP c))).
  assert (Hl : forall n ip, (n, ip) ∈ l -> cc_nameToIP c !! n = Some ip) by (intros n ip; unfold l; rewrite Hwalk; by apply elem_of_map_to_list).
  assert (Hl' : forall n, n ∈ l.*1 <-> is_Some (cc_nameToIP c !! n)).
  { intros n. rewrite list_elem_of_fmap. split; [intros ([k ip] & -> & H); exists ip; by apply Hl|]. intros [ip H]. exists (n, ip). split; [done|].
    unfold l. rewrite Hwalk. by apply elem_of_map_to_list. }
  destruct (drop_loop current l c Hs (NoDup_walk _) Hl) as [Hs1 Hd]. pose proof (fun Hx => drop_exact current l c Hx (NoDup_walk _) Hl) as Hx1.
  set (c1 := foldl (drop_name current) c l) in *. set (k := walk _ (map_to_list fetched)).
  assert (Hk : forall n i, (n, i) ∈ k <-> n ∈ names /\ cc_nameToIP c !! n = None /\ fetch n = Some i).
  { intros n i. unfold k. rewrite Hwalk, elem_of_map_to_list. unfold fetched. rewrite fetched_lookup, lookup_empty. case_decide as Hin; rewrite list_elem_of_filter in Hin;
      destruct (fetch n); naive_solver. }
  assert (Hd1 : forall n, cc_nameToIP c1 !! n = if decide (n ∈ names) then cc_nameToIP c !! n else None).
  { intros n. rewrite Hd. unfold current. destruct (decide (n ∈ names)) as [Hin|Hin].
    - rewrite decide_False; [done|]. rewrite elem_of_list_to_set. by intros [_ H].
    - destruct (cc_nameToIP c !! n) eqn:E; [|by case_decide]. rewrite decide_True; [done|]. rewrite Hl', elem_of_list_to_set. split; [by eexists|done]. }
  assert (Hnew : forall n i, (n, i) ∈ k -> cc_nameToIP c1 !! n = None).
  { intros n i (Hin & Hno & _)%Hk. by rewrite Hd1, decide_True. }
  destruct (add_loop k c1 Hs1 (NoDup_walk _) Hnew) as (Hs2 & Hout & Hin2).
  assert (Hnames : forall n, cc_nameToIP (foldl add_name c1 k) !! n = if decide (n ∈ names) then address_after fetch c n else None).
  { intros n. unfold address_after. destruct (decide (n ∈ k.*1)) as [([m i] & -> & Hmi)%list_elem_of_fmap|Hno].
    - cbn [fst]. rewrite (Hin2 m i Hmi). apply Hk in Hmi as (Hin & Hno & Hf). by rewrite decide_True, Hno, Hf.
    - rewrite Hout, Hd1 by done. destruct (decide (n ∈ names)) as [Hin|Hin]; [|done]. destruct (cc_nameToIP c !! n) eqn:E; [done|].
      destruct (fetch n) as [i|] eqn:Ef; [|done]. destruct Hno. apply list_elem_of_fmap. exists (n, i). split; [done|]. by apply Hk. }
  split; [done|]. split; [done|]. intros Hx Hu n ip Hin Hip Hne. unfold LookupIP.
  rewrite (proj2 (add_exact k c1 (Hx1 Hx) (NoDup_walk _) Hnew Hu ip n)); [done|]. by rewrite Hnames, decide_True.
Qed.
End Cache.

Definition as_listed (A : Type) (l : list A) : list A := l.

Lemma Refresh_attributes_witness :
  let fetch n := if String.eqb n "a" then Some (mkNetInfo "10.0.0.5" ∅) else None in
  cache_sound NewContainerCache /\ cc_nameToIP (Refresh as_listed (Some ["a"; "b"]) fetch NewContainerCache) !! "a" = Some "10.0.0.5" /\
  cc_nameToIP (Refresh as_listed (Some ["a"; "b"]) fetch NewContainerCache) !! "b" = None.
Proof.
  intros fetch. assert (Hs : cache_sound NewContainerCache) by (intros ip n H; done).
  destruct (Refresh_attributes as_listed (fun A l => Permutation_refl l) ["a"; "b"] fetch NewContainerCache Hs) as (_ & Hn & _).
  split; [exact Hs|]. split; rewrite Hn; reflexivity.
Defined.

(** A container that leaves takes with it the address that another has by now, and the other is never looked up again. *)
Example deleted_name_takes_an_address :
  let fetch n := Some (mkNetInfo "10.0.0.5" ∅) in
  let c1 := Refresh as_listed (Some ["a"]) fetch NewContainerCache in
  let c2 := Refresh as_listed (Some ["a"; "b"]) fetch c1 in
  let c3 := Refresh as_listed (Some ["b"]) fetch c2 in
  LookupIP "10.0.0.5" c2 = "b" /\ LookupIP "10.0.0.5" c3 = "" /\ LookupName "b" c3 = "10.0.0.5" /\
  Refresh as_listed (Some ["b"]) fetch c3 = c3.
Proof. vm_compute. done. Qed.

(** A container that never had an address leaves its id behind. *)
Example id_of_a_former_container :
  let c1 := Refresh as_listed (Some ["a"]) (fun _ => Some (mkNetInfo "" {["cloud_container_id" := "tenant-1"]})) NewContainerCache in
  let c2 := Refresh as_listed (Some []) (fun _ => None) c1 in
  let c3 := Refresh as_listed (Some ["a"]) (fun _ => Some (mkNetInfo "10.0.0.7" ∅)) c2 in
  LookupID "a" c3 = "tenant-1".
Proof. vm_compute. done. Qed.

(** ** Connections *)

Inductive Protocol := PROTOCOL_UNSPECIFIED | PROTOCOL_TCP | PROTOCOL_UDP | PROTOCOL_ICMP.
Inductive Direction := DIRECTION_UNSPECIFIED | INGRESS | EGRESS.
Inductive ConnectionState := STATE_UNSPECIFIED | SYN_SENT | SYN_RECV | ESTABLISHED | FIN_WAIT | CLOSE_WAIT | TIME_WAIT | CLOSED.

#[export] Instance protocol_eq_dec : EqDecision Protocol.
Proof. solve_decision. Defined.
#[export] Instance direction_eq_dec : EqDecision Direction.
Proof. solve_decision. Defined.

Record Connection := mkConn {
  n_Id : string; n_ContainerName : string; n_ContainerIp : string; n_Protocol : Protocol;
  n_SourceIp : string; n_SourcePort : Z; n_DestIp : string; n_DestPort : Z;
  n_State : ConnectionState; n_Direction : Direction;
  n_BytesSent : Z; n_BytesReceived : Z; n_PacketsSent : Z; n_PacketsReceived : Z;
  n_FirstSeen : Time; n_LastSeen : option Time; n_TimeoutSeconds : Z;
}.

Definition protoStringToEnum (p : string) : Protocol :=
  if String.eqb p "tcp" then PROTOCOL_TCP else if String.eqb p "udp" then PROTOCOL_UDP else if String.eqb p "icmp" then PROTOCOL_ICMP
  else PROTOCOL_UNSPECIFIED.

Definition stateStringToEnum (s : string) : ConnectionState :=
  if String.eqb s "SYN_SENT" then SYN_SENT else if String.eqb s "SYN_RECV" then SYN_RECV
  else if String.eqb s "ESTABLISHED" then ESTABLISHED else if String.eqb s "FIN_WAIT" then FIN_WAIT
  else if String.eqb s "CLOSE_WAIT" then CLOSE_WAIT else if String.eqb s "LAST_ACK" || String.eqb s "TIME_WAIT" then TIME_WAIT
  else if String.eqb s "CLOSE" then CLOSED else STATE_UNSPECIFIED.

(** *** From conntrack *)

Inductive ConntrackEventType := EventNew | EventUpdate | EventDestroy.

#[export] Instance event_type_eq_dec : EqDecision ConntrackEventType.
Proof. solve_decision. Defined.

Record ConntrackEvent := mkCtEvent {
  ct_ID : string; ct_Type : ConntrackEventType; ct_Protocol : string; ct_SrcIP : string; ct_SrcPort : Z; ct_DstIP : string; ct_DstPort : Z;
  ct_State : string; ct_BytesOrig : Z; ct_BytesReply : Z; ct_PacketsOrig : Z; ct_PacketsReply : Z; ct_Timeout : Z; ct_Timestamp : Time;
}.

Definition convertToProto (e : ConntrackEvent) (name ip : string) (d : Direction) : Connection :=
  let sent := bool_decide (d = EGRESS) in
  mkConn (ct_ID e) name ip (protoStringToEnum (ct_Protocol e)) (ct_SrcIP e) (ct_SrcPort e) (ct_DstIP e) (ct_DstPort e)
    (stateStringToEnum (ct_State e)) d
    (if sent then ct_BytesOrig e else ct_BytesReply e) (if sent then ct_BytesReply e else ct_BytesOrig e)
    (if sent then ct_PacketsOrig e else ct_PacketsReply e) (if sent then ct_PacketsReply e else ct_PacketsOrig e)
    (ct_Timestamp e) (Some (ct_Timestamp e)) (ct_Timeout e).

(** The connection of an event, if an end of it is a container: the source first. *)
Definition attribute (cache : ContainerCache) (e : ConntrackEvent) : option Connection :=
  if negb (String.eqb (LookupIP (ct_SrcIP e) cache) "") then Some (convertToProto e (LookupIP (ct_SrcIP e) cache) (ct_SrcIP e) EGRESS)
  else if negb (String.eqb (LookupIP (ct_DstIP e) cache) "") then Some (convertToProto e (LookupIP (ct_DstIP e) cache) (ct_DstIP e) INGRESS)
  else None.

(** *** From the flows of the kernel *)

Record EBPFFlow := mkEBPF {
  b_ContainerName : string; b_ContainerIP : string; b_Protocol : string; b_SrcIP : string; b_SrcPort : Z; b_DstIP : string; b_DstPort : Z;
  b_Bytes : Z; b_Packets : Z; b_RxBytes : Z; b_RxPackets : Z; b_First : Time; b_Last : Time;
}.

Definition ebpfFlowID (f : EBPFFlow) : string :=
  "ebpf-" +:+ b_ContainerName f +:+ "-" +:+ b_Protocol f +:+ "-" +:+ b_SrcIP f +:+ ":" +:+ Itoa (b_SrcPort f) +:+ "-"
  +:+ b_DstIP f +:+ ":" +:+ Itoa (b_DstPort f).

Definition ebpfFlowToConn (f : EBPFFlow) : Connection :=
  mkConn (ebpfFlowID f) (b_ContainerName f) (b_ContainerIP f) (protoStringToEnum (b_Protocol f)) (b_SrcIP f) (b_SrcPort f) (b_DstIP f) (b_DstPort f)
    STATE_UNSPECIFIED EGRESS (b_Bytes f) (b_RxBytes f) (b_Packets f) (b_RxPackets f) (b_First f) (Some (b_Last f)) 0.

(** ** The history *)

(** A row of traffic_connections, under its conntrack_id. *)
Record history_row := mkHistory {
  h_container_name : string; h_protocol : Protocol; h_source_ip : string; h_source_port : Z; h_dest_ip : string; h_dest_port : Z;
  h_direction : Direction; h_bytes_sent : Z; h_bytes_received : Z; h_packets_sent : Z; h_packets_received : Z;
  h_started_at : Time; h_ended_at : option Time;
}.

Definition row_of (c : Connection) : history_row :=
  mkHistory (n_ContainerName c) (n_Protocol c) (n_SourceIp c) (n_SourcePort c) (n_DestIp c) (n_DestPort c) (n_Direction c)
    (n_BytesSent c) (n_BytesReceived c) (n_PacketsSent c) (n_PacketsReceived c) (n_FirstSeen c) (n_LastSeen c).

(** ON CONFLICT DO NOTHING on the unique index of conntrack_id. *)
Definition SaveConnection (c : Connection) (rows : gmap string history_row) : gmap string history_row :=
  match rows !! n_Id c with Some _ => rows | None => <[n_Id c := row_of c]> rows end.

(** ** The collector *)

Record Collector := mkCollector {
  co_cache : ContainerCache;
  co_connections : gmap string Connection;
  co_ebpfFlows : gmap string Connection;
  co_conntrackSeen : gset string;
}.

Definition with_cache (c : ContainerCache) (k : Collector) : Collector := mkCollector c (co_connections k) (co_ebpfFlows k) (co_conntrackSeen k).

Definition NewCollector : Collector := mkCollector NewContainerCache ∅ ∅ ∅.

(** Each operation gives the new state and the connections it sends off to be saved; [store]: the history is configured. *)
Section Collector.
Context (store : bool).

Definition processConntrackEvent (e : ConntrackEvent) (k : Collector) : Collector * list Connection :=
  match attribute (co_cache k) e with
  | None => (k, [])
  | Some conn =>
      let destroyed := bool_decide (ct_Type e = EventDestroy) in
      (mkCollector (co_cache k) (if destroyed then delete (ct_ID e) (co_connections k) else <[ct_ID e := conn]> (co_connections k))
         (co_ebpfFlows k) ({[n_ContainerName conn]} ∪ co_conntrackSeen k),
       if destroyed && store then [conn] else [])
  end.

Definition snapshot_one (cache : ContainerCache) (acc : gmap string Connection * gset string) (e : ConntrackEvent)
  : gmap string Connection * gset string :=
  match attribute cache e with
  | None => acc
  | Some conn => (<[ct_ID e := conn]> acc.1, {[n_ContainerName conn]} ∪ acc.2)
  end.

(** [None]: no monitor, or the dump failed. *)
Definition takeSnapshot (events : option (list ConntrackEvent)) (k : Collector) : Collector :=
  match events with
  | None => k
  | Some events =>
      let '(conns, seen) := foldl (snapshot_one (co_cache k)) (∅, co_conntrackSeen k) events in
      mkCollector (co_cache k) conns (co_ebpfFlows k) seen
  end.

Definition closedFlows (prev next : gmap string Connection) : list Connection :=
  (filter (fun '(id, _) => next !! id = None) (map_to_list prev)).*2.

Definition persistClosedFlows (conns : list Connection) (k : Collector) : list Connection :=
  if store then filter (fun c => n_ContainerName c ∉ co_conntrackSeen k) conns else [].

Definition IngestEBPFFlows (flows : list EBPFFlow) (k : Collector) : Collector * list Connection :=
  let next := foldl (fun m f => <[n_Id (ebpfFlowToConn f) := ebpfFlowToConn f]> m) ∅ flows in
  let k' := mkCollector (co_cache k) (co_connections k) next (co_conntrackSeen k) in
  (k', persistClosedFlows (closedFlows (co_ebpfFlows k) next) k').

Definition PersistEBPFFlows (flows : list EBPFFlow) (k : Collector) : list Connection := persistClosedFlows (ebpfFlowToConn <$> flows) k.

(** The live view, conntrack's part and the eBPF part; an empty name means every container. *)
Definition wanted (name : string) (c : Connection) : bool := String.eqb name "" || String.eqb (n_ContainerName c) name.

Definition from_conntrack (name : string) (k : Collector) : list Connection := filter (fun c => wanted name c = true) (values (co_connections k)).
Definition from_ebpf (name : string) (k : Collector) : list Connection :=
  filter (fun c => n_ContainerName c ∉ co_conntrackSeen k /\ wanted name c = true) (values (co_ebpfFlows k)).

(** A refresh of an empty cache comes first; it is a step of its own. *)
Definition GetConnections (events : option (list ConntrackEvent)) (name : string) (k : Collector) : list Connection * Collector :=
  let k := takeSnapshot events k in (from_conntrack name k ++ from_ebpf name k, k).
End Collector.

(** ** Everything at once *)

Record world := mkWorld { w_col : Collector; w_pending : list Connection; w_rows : gmap string history_row }.

Definition newWorld : world := mkWorld NewCollector [] ∅.

Section System.
Context (walk : forall A, list A -> list A) (store : bool).

Inductive step : world -> world -> Prop :=
| SEvent e w k l : processConntrackEvent store e (w_col w) = (k, l) -> step w (mkWorld k (w_pending w ++ l) (w_rows w))
| SSnapshot events w : step w (mkWorld (takeSnapshot events (w_col w)) (w_pending w) (w_rows w))
| SIngest flows w k l : IngestEBPFFlows store flows (w_col w) = (k, l) -> step w (mkWorld k (w_pending w ++ l) (w_rows w))
| SPersist flows w : step w (mkWorld (w_col w) (w_pending w ++ PersistEBPFFlows store flows (w_col w)) (w_rows w))
| SRefresh names fetch w :
    step w (mkWorld (with_cache (Refresh walk names fetch (co_cache (w_col w))) (w_col w)) (w_pending w) (w_rows w))
| SSave l1 c l2 w : w_pending w = l1 ++ c :: l2 -> step w (mkWorld (w_col w) (l1 ++ l2) (SaveConnection c (w_rows w)))
| SLost l1 c l2 w : w_pending w = l1 ++ c :: l2 -> step w (mkWorld (w_col w) (l1 ++ l2) (w_rows w))
| SCleanup rows w : rows ⊆ w_rows w -> step w (mkWorld (w_col w) (w_pending w) rows).

Definition reachable : world -> Prop := rtc step newWorld.

(** Conntrack's connections are of containers it has seen, and what is saved has ended. *)
Definition conns_ok (k : Collector) : Prop :=
  map_Forall (fun id c => n_Id c = id /\ n_ContainerName c ∈ co_conntrackSeen k) (co_connections k).

Definition ended (c : Connection) : Prop := is_Some (n_LastSeen c).

Record world_ok (w : world) : Prop := {
  wo_conns : conns_ok (w_col w);
  wo_ebpf : map_Forall (fun id c => n_Id c = id /\ ended c) (co_ebpfFlows (w_col w));
  wo_pending : Forall ended (w_pending w);
  wo_rows : map_Forall (fun _ h => is_Some (h_ended_at h)) (w_rows w);
}.

Lemma seen_more (conns : gmap string Connection) (seen seen' : gset string) :
  map_Forall (fun id c => n_Id c = id /\ n_ContainerName c ∈ seen) conns -> seen ⊆ seen' ->
  map_Forall (fun id c => n_Id c = id /\ n_ContainerName c ∈ seen') conns.
Proof. intros H Hs id c Hc. destruct (H id c Hc). split; [done|]. set_solver. Qed.

Lemma attribute_id cache e c : attribute cache e = Some c -> n_Id c = ct_ID e /\ ended c.
Proof.
  unfold attribute. destruct (negb _); [intros [= <-]; split; [done|by eexists]|]. destruct (negb _); [intros [= <-]; split; [done|by eexists]|done].
Qed.

Lemma snapshot_ok cache events acc :
  map_Forall (fun id c => n_Id c = id /\ n_ContainerName c ∈ acc.2) acc.1 ->
  let acc' := foldl (snapshot_one cache) acc events in
  map_Forall (fun id c => n_Id c = id /\ n_ContainerName c ∈ acc'.2) acc'.1.
Proof.
  revert acc. induction events as [|e events IH]; intros acc H; [done|]. cbn [foldl]. apply IH. unfold snapshot_one.
  destruct (attribute cache e) as [c|] eqn:E; [|done]. apply attribute_id in E as [E _]. cbn [fst snd]. apply map_Forall_insert_2; [split; [done|set_solver]|].
  intros id d Hd. destruct (H id d Hd). split; [done|set_solver].
Qed.

Lemma ingest_flows (flows : list EBPFFlow) (m : gmap string Connection) :
  map_Forall (fun id c => n_Id c = id /\ ended c) m ->
  map_Forall (fun id c => n_Id c = id /\ ended c) (foldl (fun m f => <[n_Id (ebpfFlowToConn f) := ebpfFlowToConn f]> m) m flows).
Proof.
  revert m. induction flows as [|f flows IH]; intros m H; [done|]. cbn [foldl]. apply IH, map_Forall_insert_2; [|done]. split; [done|by eexists].
Qed.

Lemma persist_ended l k : Forall ended l -> Forall ended (persistClosedFlows store l k).
Proof.
  intros H. unfold persistClosedFlows. destruct store; [|constructor].
  rewrite Forall_forall in *. intros c [_ Hc]%list_elem_of_filter. by apply H.
Qed.

Lemma closed_from prev next c : c ∈ closedFlows prev next -> exists id, prev !! id = Some c /\ next !! id = None.
Proof.
  unfold closedFlows. intros ([id d] & -> & [Hn Hp]%list_elem_of_filter)%list_elem_of_fmap. exists id. split; [by apply elem_of_map_to_list|done].
Qed.

Lemma save_ok c rows :
  ended c -> map_Forall (fun _ h => is_Some (h_ended_at h)) rows -> map_Forall (fun _ h => is_Some (h_ended_at h)) (SaveConnection c rows).
Proof. intros Hc Hr. unfold SaveConnection. destruct (rows !! n_Id c); [done|]. by apply map_Forall_insert_2. Qed.

Lemma world_step_ok w w' : world_ok w -> step w w' -> world_ok w'.
Proof.
  intros [Hc Hb Hp Hr] Hstep. destruct Hstep as [e w k l E|events w|flows w k l E|flows w|names fetch w|l1 c l2 w E|l1 c l2 w E|rows w E];
    cbn in *.
  - unfold processConntrackEvent in E. destruct (attribute (co_cache (w_col w)) e) as [conn|] eqn:Ea; [|injection E as <- <-; rewrite app_nil_r; by split].
    apply attribute_id in Ea as [Hid He]. injection E as <- <-. split; cbn; [|done| |done].
    + unfold conns_ok. cbn.
      apply (seen_more _ _ ({[n_ContainerName conn]} ∪ co_conntrackSeen (w_col w))) in Hc; [|apply union_subseteq_r]. destruct (bool_decide _); [by apply map_Forall_delete|]. apply map_Forall_insert_2; [split; [done|set_solver]|done].
    + apply Forall_app. split; [done|]. destruct (_ && _); [by constructor|constructor].
  - unfold takeSnapshot. destruct events as [events|]; [|by split]. pose proof (snapshot_ok (co_cache (w_col w)) events (∅, co_conntrackSeen (w_col w)) (map_Forall_empty _)) as H.
    destruct (foldl _ _ _) as [conns seen]. by split.
  - unfold IngestEBPFFlows in E. injection E as <- <-. split; [done| | |done].
    + cbn. apply ingest_flows, map_Forall_empty.
    + cbn. apply Forall_app. split; [done|]. apply persist_ended, Forall_forall. intros c (id & Hid & _)%closed_from. by apply (Hb id c).
  - split; [done|done| |done]. cbn. apply Forall_app. split; [done|]. apply persist_ended, Forall_fmap, Forall_forall. intros f _. by eexists.
  - by split.
  - rewrite E in Hp. apply Forall_app in Hp as [Hp1 [Hp2 Hp3]%Forall_cons]. split; [done|done|by apply Forall_app|by apply save_ok].
  - rewrite E in Hp. apply Forall_app in Hp as [Hp1 [Hp2 Hp3]%Forall_cons]. split; [done|done|by apply Forall_app|done].
  - split; [done|done|done|]. intros id h Hh. apply (Hr id h). by eapply lookup_weaken.
Qed.

Lemma newWorld_ok : world_ok newWorld.
Proof. split; cbn; [apply map_Forall_empty|apply map_Forall_empty|constructor|apply map_Forall_empty]. Qed.

Lemma reachable_ok w : reachable w -> world_ok w.
Proof.
  assert (Hrun : forall x y, rtc step x y -> world_ok x -> world_ok y).
  { intros x y Hxy. induction Hxy as [x|x y z Hs _ IH]; [done|]. intros Hx. apply IH. by eapply world_step_ok. }
  intros H. apply (Hrun newWorld w H newWorld_ok).
Qed.

(** C30: Traffic is counted once: in every reachable state and after any snapshot, two connections that the live view shows for the same
    container are both conntrack's or both from the kernel's flow map, the latter only for a container that conntrack never attributed; and
    what an eBPF poll sends to the history is of such containers only. *)
Theorem one_source_per_container w events name flows :
  reachable w ->
  (let '(l, k) := GetConnections events name (w_col w) in
   forall c d, c ∈ l -> d ∈ l -> n_ContainerName c = n_ContainerName d ->
     c ∈ values (co_connections k) /\ d ∈ values (co_connections k)
     \/ c ∈ values (co_ebpfFlows k) /\ d ∈ values (co_ebpfFlows k) /\ n_ContainerName c ∉ co_conntrackSeen k)
  /\ Forall (fun c => n_ContainerName c ∉ co_conntrackSeen (w_col w))
       ((IngestEBPFFlows store flows (w_col w)).2 ++ PersistEBPFFlows store flows (w_col w)).
Proof.
  intros Hw%reachable_ok. pose proof (wo_conns _ (world_step_ok _ _ Hw (SSnapshot events w))) as Hk. cbn in Hk. split.
  - unfold GetConnections. set (k := takeSnapshot events (w_col w)) in *.
    assert (Hc : forall c, c ∈ from_conntrack name k -> c ∈ values (co_connections k) /\ n_ContainerName c ∈ co_conntrackSeen k).
    { intros c [_ Hv]%list_elem_of_filter. split; [done|]. apply elem_of_values in Hv as (id & Hid). by apply (Hk id c). }
    assert (He : forall c, c ∈ from_ebpf name k -> c ∈ values (co_ebpfFlows k) /\ n_ContainerName c ∉ co_conntrackSeen k).
    { intros c [[Hn _] Hv]%list_elem_of_filter. by split. }
    intros c d [[Hc1 Hc2]%Hc|[Hc1 Hc2]%He]%elem_of_app [[Hd1 Hd2]%Hc|[Hd1 Hd2]%He]%elem_of_app E; [by left| | |by right]; rewrite E in Hc2; done.
  - unfold IngestEBPFFlows, PersistEBPFFlows, persistClosedFlows. cbn [snd]. destruct store; [|constructor].
    apply Forall_app. split; apply Forall_forall; intros c [Hc _]%list_elem_of_filter; exact Hc.
Qed.

(** What the auto-sleeper's query reads. *)
Definition activity_rows (w : world) : list conn_row := (fun h => AutoSleep.mkRow (h_container_name h) (h_ended_at h)) <$> values (w_rows w).

Lemma max_activity_ended dbnow name rows t :
  Forall (fun r => is_Some (row_ended_at r)) rows -> max_activity dbnow name rows = Some t ->
  exists r, r ∈ rows /\ row_container_name r = name /\ row_ended_at r = Some t.
Proof.
  revert t. induction rows as [|r rows IH]; intros t H Ht; [done|]. apply Forall_cons in H as [[e He] H]. cbn [max_activity] in Ht.
  destruct (String.eqb_spec (row_container_name r) name) as [Hn|Hn].
  - rewrite He in Ht. injection Ht as <-. destruct (max_activity dbnow name rows) as [u|] eqn:Eu; [|exists r; split; [left|done]].
    destruct (Z.max_spec e u) as [[_ ->]|[_ ->]]; [|exists r; split; [left|done]]. destruct (IH u H eq_refl) as (q & Hq & Hqn & Hqe). exists q. split; [by right|done].
  - destruct (IH t H Ht) as (q & Hq & Hqn & Hqe). exists q. split; [by right|done].
Qed.

(** What the auto-sleeper reads is the end stamp of a saved row: in every reachable state all rows of the history have one, so
    the last activity it reads for a container is that of one of the container's rows, or that there is none.  Against what its query means to do, no
    connection counts as open now ([open_session_is_put_to_sleep]); a flow that was reaped while quiet counts with the stamp of its last poll. *)
Theorem history_is_closed w dbnow name t :
  reachable w -> LastNetworkActivity dbnow (Some (activity_rows w)) name = Some t ->
  t = 0 \/ exists id h, w_rows w !! id = Some h /\ h_container_name h = name /\ h_ended_at h = Some t.
Proof.
  intros Hw%reachable_ok Ht. unfold LastNetworkActivity in Ht. injection Ht as <-.
  destruct (max_activity dbnow name (activity_rows w)) as [u|] eqn:E; [|by left]. right. cbn. apply max_activity_ended in E as (r & Hr & Hn & He).
  - apply list_elem_of_fmap in Hr as (h & -> & (id & Hh)%elem_of_values). by exists id, h.
  - apply Forall_fmap, Forall_forall. intros h (id & Hh)%elem_of_values. by apply (wo_rows _ Hw id h).
Qed.
End System.

(** ** A session of two hours *)

Definition a_cache : ContainerCache := mkCache {["10.0.0.5" := "alice-container"]} {["alice-container" := "10.0.0.5"]} ∅.

Definition ssh (ty : ConntrackEventType) (t : Time) : ConntrackEvent :=
  mkCtEvent "42" ty "tcp" "198.51.100.7" 50000 "10.0.0.5" 22 "ESTABLISHED" 900 100 9 1 0 t.

Definition started : Time := 1000 * Hour.

Definition with_session : world :=
  let k := with_cache a_cache NewCollector in
  let '(k, l) := processConntrackEvent true (ssh EventNew (started + Hour)) k in mkWorld k l ∅.

Definition alice (lastNet now : Time) : DecideInput :=
  {| di_Username := "alice"; di_State := "Running"; di_AutoSleepEnabled := true; di_IdleThresholdMinutes := 30; di_IsCoreRole := false;
     di_LastStartedAt := started; di_LastNetworkActivity := lastNet; di_Now := now |}.

(** While the session is open nothing is saved of it, and the container is put to sleep under it. *)
Example open_session_is_put_to_sleep :
  n_State <$> co_connections (w_col with_session) !! "42" = Some ESTABLISHED /\ w_pending with_session = [] /\
  d_Action (Decide (alice (default 0 (LastNetworkActivity (started + 3 * Hour) (Some (activity_rows with_session)) "alice-container")) (started + 3 * Hour)))
  = ActionSleep.
Proof. vm_compute. done. Qed.

(** The row of a connection that conntrack saw closing begins when it ended. *)
Example saved_session_has_no_length :
  let '(_, l) := processConntrackEvent true (ssh EventDestroy (started + 3 * Hour)) (w_col with_session) in
  (fun c => (n_FirstSeen c, n_LastSeen c)) <$> l = [(started + 3 * Hour, Some (started + 3 * Hour))].
Proof. vm_compute. done. Qed.

Definition alice_network (n : string) : option NetworkInfo := Some (mkNetInfo "10.0.0.5" ∅).

Lemma a_cache_refreshed : Refresh as_listed (Some ["alice-container"]) alice_network NewContainerCache = a_cache.
Proof. vm_compute. reflexivity. Qed.

Lemma with_session_reachable : reachable as_listed true with_session.
Proof.
  eapply rtc_l; [apply (SRefresh as_listed true (Some ["alice-container"]) alice_network newWorld)|].
  eapply rtc_l; [|apply rtc_refl]. unfold newWorld. cbn [w_col w_pending w_rows co_cache NewCollector]. rewrite a_cache_refreshed.
  exact (SEvent as_listed true (ssh EventNew (started + Hour)) (mkWorld (with_cache a_cache NewCollector) [] ∅) _ _ (surjective_pairing _)).
Qed.

Definition demo_flow (bytes : Z) (t : Time) : EBPFFlow :=
  mkEBPF "bob-container" "10.0.0.6" "tcp" "10.0.0.6" 40000 "203.0.113.9" 443 bytes 10 bytes 10 started t.

Lemma one_source_per_container_witness :
  reachable as_listed true with_session /\
  Forall (fun c => n_ContainerName c ∉ co_conntrackSeen (w_col with_session))
    ((IngestEBPFFlows true [demo_flow 100 started] (w_col with_session)).2 ++ PersistEBPFFlows true [demo_flow 100 started] (w_col with_session)).
Proof.
  split; [exact with_session_reachable|].
  exact (proj2 (one_source_per_container as_listed true with_session None "" [demo_flow 100 started] with_session_reachable)).
Defined.

Lemma history_is_closed_witness :
  reachable as_listed true with_session /\
  (0 = 0 \/ exists id h, w_rows with_session !! id = Some h /\ h_container_name h = "alice-container" /\ h_ended_at h = Some 0).
Proof.
  split; [exact with_session_reachable|].
  apply (history_is_closed as_listed true with_session (started + 3 * Hour) "alice-container" 0 with_session_reachable). vm_compute. reflexivity.
Defined.

(** ** The poll of the kernel's flows *)

Section Poll.
Context (big : bool).

Definition ipFromBE (v : Z) : Addr := AddrV4 (Put big 4 v).
Definition Src (r : FlowRecord) : Addr := ipFromBE (f_Saddr r).
Definition Dst (r : FlowRecord) : Addr := ipFromBE (f_Daddr r).

Definition protoName (proto : Z) : string := if proto =? 1 then "icmp" else if proto =? 6 then "tcp" else if proto =? 17 then "udp" else "".

Definition idle_flow (nowNs : Z) (idleFor : Duration) (r : FlowRecord) : bool :=
  (f_LastNs r <? nowNs) && (U64FromI64 idleFor <? wrap u64 (nowNs - f_LastNs r)).

Definition splitIdleFlows (records : list FlowRecord) (nowNs : Z) (idleFor : Duration) : list FlowRecord * list FlowRecord :=
  (filter (fun r => idle_flow nowNs idleFor r = false) records, filter (fun r => idle_flow nowNs idleFor r = true) records).

(** [clock]: seconds and nanoseconds of CLOCK_MONOTONIC, if it could be read. *)
Definition monotonicNowNs (clock : option (Z * Z)) : Z :=
  match clock with None => 0 | Some (sec, nsec) => wrap u64 (wrap u64 (U64FromI64 sec * 1000000000) + U64FromI64 nsec) end.

Definition render (name : string) (now : Time) (r : FlowRecord) : EBPFFlow :=
  let src := Addr_String (Src r) in
  let dur := if f_FirstNs r <=? f_LastNs r then I64FromU64 (wrap u64 (f_LastNs r - f_FirstNs r)) else 0 in
  mkEBPF name src (protoName (f_Proto r)) src (f_Sport r) (Addr_String (Dst r)) (f_Dport r)
    (I64FromU64 (f_Bytes r)) (I64FromU64 (f_Packets r)) (I64FromU64 (f_RxBytes r)) (I64FromU64 (f_RxPackets r)) (Add now (- dur)) now.

Definition flowsToEBPF (records : list FlowRecord) (attached : gmap Z string) (now : Time) : list EBPFFlow :=
  omap (fun r => let name := default "" (attached !! f_Ifindex r) in if String.eqb name "" then None else Some (render name now r)) records.

(** What a poll asks of the loader, the clocks, the collector and the detector. *)
Inductive fcall :=
| FFlows | FNow | FMonotonic
| FIngest (flows : list EBPFFlow) | FHook (flows : list FlowRecord) | FPersist (flows : list EBPFFlow) | FDelete (r : FlowRecord).

Definition fans (c : fcall) : Type :=
  match c with FFlows => option (list FlowRecord) | FNow => Time | FMonotonic => option (Z * Z) | FDelete _ => bool | _ => unit end.

Abbreviation fprog := (prog fans) (only parsing).

Fixpoint delete_flows (idle : list FlowRecord) : fprog unit :=
  match idle with [] => mret tt | r :: idle => _ ← call (FDelete r); delete_flows idle end.

(** [hook]: a detector listens.  Without a loader or a sink nothing happens. *)
Definition pollFlows (loader sink hook : bool) (attached : gmap Z string) (idleTimeout : Duration) : fprog unit :=
  if negb loader || negb sink then mret tt
  else
    records ← call FFlows;
    match records with
    | None => mret tt
    | Some records =>
        now ← call FNow;
        clock ← call FMonotonic;
        let '(active, idle) := splitIdleFlows records (monotonicNowNs clock) idleTimeout in
        _ ← call (FIngest (flowsToEBPF active attached now));
        _ ← (if hook then call (FHook active) else mret tt);
        if (length idle =? 0)%nat then mret tt
        else _ ← call (FPersist (flowsToEBPF idle attached now)); delete_flows idle
    end.

(** What a poll has read and said so far. *)
Record poll := mkPoll { po_read : list FlowRecord; po_now : Time; po_mono : Z; po_live : list EBPFFlow; po_hooked : list FlowRecord; po_handed : list EBPFFlow }.

Definition poll_step (s : poll) (c : fcall) : fans c -> poll :=
  match c as c return fans c -> poll with
  | FFlows => fun r => mkPoll (default [] r) (po_now s) (po_mono s) (po_live s) (po_hooked s) (po_handed s)
  | FNow => fun t => mkPoll (po_read s) t (po_mono s) (po_live s) (po_hooked s) (po_handed s)
  | FMonotonic => fun t => mkPoll (po_read s) (po_now s) (monotonicNowNs t) (po_live s) (po_hooked s) (po_handed s)
  | FIngest l => fun _ => mkPoll (po_read s) (po_now s) (po_mono s) l (po_hooked s) (po_handed s)
  | FHook l => fun _ => mkPoll (po_read s) (po_now s) (po_mono s) (po_live s) l (po_handed s)
  | FPersist l => fun _ => mkPoll (po_read s) (po_now s) (po_mono s) (po_live s) (po_hooked s) (po_handed s ++ l)
  | FDelete _ => fun _ => s
  end.

(** A flow may leave the kernel only when it was read, is idle by the clock that was read, and was handed to the collector ([FPersist]) if its
    interface is a container's.  What the collector does with it is [PersistEBPFFlows]. *)
Definition may_delete (attached : gmap Z string) (idleTimeout : Duration) (s : poll) (c : fcall) : Prop :=
  match c with
  | FDelete r =>
      r ∈ po_read s /\ f_LastNs r + U64FromI64 idleTimeout < po_mono s /\
      forall name, attached !! f_Ifindex r = Some name -> name <> "" -> render name (po_now s) r ∈ po_handed s
  | _ => True
  end.
(** The kernel's stamps are 64 bits wide. *)
Definition stamps_u64 (c : fcall) : fans c -> Prop :=
  match c as c return fans c -> Prop with
  | FFlows => fun r => Forall (fun f => in_type u64 (f_LastNs f)) (default [] r)
  | _ => fun _ => True
  end.

Lemma mono_range clock : 0 <= monotonicNowNs clock < 2 ^ 64.
Proof. unfold monotonicNowNs. destruct clock as [[sec nsec]|]; [|lia]. apply (Z.mod_pos_bound _ (2 ^ 64)). lia. Qed.

Lemma idle_since nowNs idleFor r :
  in_type u64 (f_LastNs r) -> 0 <= nowNs < 2 ^ 64 -> idle_flow nowNs idleFor r = true -> f_LastNs r + U64FromI64 idleFor < nowNs.
Proof.
  unfold idle_flow. intros Hr Hn [H1%Z.ltb_lt H2%Z.ltb_lt]%andb_true_iff. unfold in_type, it_min, it_max in Hr. cbn in Hr.
  rewrite wrap_in_type_id in H2; [lia|done|]. unfold in_type, it_min, it_max. cbn. lia.
Qed.

Lemma rendered records attached now r name :
  r ∈ records -> attached !! f_Ifindex r = Some name -> name <> "" -> render name now r ∈ flowsToEBPF records attached now.
Proof.
  intros Hr Hn Hne. apply list_elem_of_omap. exists r. split; [done|]. rewrite Hn. cbn. by destruct (String.eqb_spec name "").
Qed.

Lemma delete_flows_wp attached idleTimeout idle s (post : poll -> Prop) :
  (forall r, r ∈ idle -> may_delete attached idleTimeout s (FDelete r)) -> post s ->
  wp (fun _ => stamps_u64) poll_step (may_delete attached idleTimeout) (delete_flows idle) (fun s _ => post s) s.
Proof.
  intros Hd Hp. induction idle as [|r idle IH]; [done|]. cbn [delete_flows]. split; [apply Hd; left|]. intros ok _. apply IH. intros q Hq. apply Hd. by right.
Qed.

(** A flow leaves the kernel only after its counters were handed over: whatever the loader and the clocks answer, a poll deletes
    only flows that it read, that are idle by the monotonic clock by more than the timeout (none when the clock cannot be read), and
    that it handed to [PersistEBPFFlows] before, if their interface is a container's; and each flow it read on a container's interface is at the end in the
    live view, and shown to the detector, if it is active, and was handed over if it is idle.  That the counters reach the history does not follow: the
    collector saves in the background, only when it has a store, not for a container that conntrack covers, and not under an id that has a
    row ([resumed_flow_is_not_recorded]). *)
Theorem reaped_after_handover loader sink hook attached idleTimeout :
  wp (fun _ => stamps_u64) poll_step (may_delete attached idleTimeout) (pollFlows loader sink hook attached idleTimeout)
    (fun s _ => forall r name, r ∈ po_read s -> attached !! f_Ifindex r = Some name -> name <> "" ->
      if idle_flow (po_mono s) idleTimeout r then render name (po_now s) r ∈ po_handed s
      else render name (po_now s) r ∈ po_live s /\ (hook = true -> r ∈ po_hooked s))
    (mkPoll [] 0 0 [] [] []).
Proof.
  unfold pollFlows. destruct (negb loader || negb sink); [by intros r name Hr%elem_of_nil|].
  split; [done|]. intros [records|] Hst; cbn [stamps_u64 default] in Hst; [|by intros r name Hr%elem_of_nil].
  split; [done|]. intros now _. split; [done|]. intros clock _. cbn [mbind prog_mbind bind call]. unfold splitIdleFlows.
  set (mono := monotonicNowNs clock) in *. set (active := filter (fun r => idle_flow mono idleTimeout r = false) records). set (idle := filter (fun r => idle_flow mono idleTimeout r = true) records).
  set (live := flowsToEBPF active attached now).
  assert (Hact : forall r, r ∈ records -> idle_flow mono idleTimeout r = false -> r ∈ active) by (intros r Hr Hi; by apply list_elem_of_filter).
  assert (Hidle : forall r, r ∈ idle <-> idle_flow mono idleTimeout r = true /\ r ∈ records) by (intros r; unfold idle; by rewrite list_elem_of_filter).
  split; [done|]. intros u _. cbn [poll_step po_read po_now po_mono po_handed po_live po_hooked default].
  apply (wp_seq _ _ _ _ _ (fun s _ => s = mkPoll records now mono live (if hook then active else []) [])); [by destruct hook|].
  intros s u' ->. assert (Hlive : forall r name, r ∈ records -> attached !! f_Ifindex r = Some name -> name <> "" -> idle_flow mono idleTimeout r = false ->
    render name now r ∈ live /\ (hook = true -> r ∈ if hook then active else [])).
  { intros r name Hr Hn Hne Hi. split; [by apply rendered; [apply Hact| |]|]. intros ->. by apply Hact. }
  cbn beta. destruct (Nat.eqb_spec (length idle) 0) as [Hz|Hz].
  - intros r name Hr Hn Hne. cbn in *. destruct (idle_flow mono idleTimeout r) eqn:Hi; [|by apply Hlive].
    apply length_zero_iff_nil in Hz. assert (Hin : r ∈ idle) by by apply Hidle. rewrite Hz in Hin. by apply elem_of_nil in Hin.
  - split; [done|]. intros v _. cbn [poll_step po_read po_now po_mono po_handed po_live po_hooked app]. apply delete_flows_wp.
    + intros r [Hi Hr]%Hidle. split; [done|]. split.
      * apply idle_since; [|apply mono_range|done]. rewrite Forall_forall in Hst. by apply Hst.
      * intros name Hn Hne. apply rendered; [by apply Hidle|done|done].
    + intros r name Hr Hn Hne. cbn in *. destruct (idle_flow mono idleTimeout r) eqn:Hi; [|by apply Hlive]. apply rendered; [by apply Hidle|done|done].
Qed.
End Poll.

(** *** A connection that pauses *)

Definition save_all (l : list Connection) (rows : gmap string history_row) : gmap string history_row := foldl (fun rows c => SaveConnection c rows) rows l.

(** One connection is reaped while it is quiet and goes on afterwards, with counters that start at zero: of its 1000 bytes
    the history has the first 100, and its last activity is the one before the pause. *)
Example resumed_flow_is_not_recorded :
  let f1 := demo_flow 100 (started + Hour) in
  let f2 := demo_flow 900 (started + 5 * Hour) in
  let '(k1, l1) := IngestEBPFFlows true [f1] NewCollector in
  let '(k2, l2) := IngestEBPFFlows true [] k1 in
  let l3 := PersistEBPFFlows true [f1] k2 in
  let '(k3, l4) := IngestEBPFFlows true [f2] k2 in
  let '(k4, l5) := IngestEBPFFlows true [] k3 in
  let l6 := PersistEBPFFlows true [f2] k4 in
  let rows := save_all (l1 ++ l2 ++ l3 ++ l4 ++ l5 ++ l6) ∅ in
  (fun h => (h_bytes_sent h, h_ended_at h)) <$> values rows = [(100, Some (started + Hour))].
Proof. vm_compute. done. Qed.

(** ** Summaries *)

Record DestinationStats := mkDest { ds_DestIp : string; ds_ConnectionCount : Z; ds_BytesTotal : Z }.

Record ConnectionSummary := mkSummary {
  cs_ContainerName : string; cs_ActiveConnections : Z; cs_TcpConnections : Z; cs_UdpConnections : Z;
  cs_TotalBytesSent : Z; cs_TotalBytesReceived : Z; cs_TopDestinations : list DestinationStats;
}.

Definition sum64 (a b : Z) : Z := wrap i64 (a + b).

(** Counts and bytes by destination. *)
Definition by_destination (conns : list Connection) : gmap string (Z * Z) :=
  foldl (fun m c =>
    let '(n, b) := default (0, 0) (m !! n_DestIp c) in
    <[n_DestIp c := (n + 1, sum64 b (sum64 (n_BytesSent c) (n_BytesReceived c)))]> m) ∅ conns.

Definition bump32 (p : Protocol) (n : Z) (c : Connection) : Z := if decide (n_Protocol c = p) then wrap i32 (n + 1) else n.

Definition summarize (name : string) (conns : list Connection) : ConnectionSummary :=
  mkSummary name (I32 (Z.of_nat (length conns)))
    (foldl (bump32 PROTOCOL_TCP) 0 conns) (foldl (bump32 PROTOCOL_UDP) 0 conns)
    (foldl (fun t c => sum64 t (n_BytesSent c)) 0 conns) (foldl (fun t c => sum64 t (n_BytesReceived c)) 0 conns)
    ((fun '(ip, (n, b)) => mkDest ip (I32 n) b) <$> map_to_list (by_destination conns)).

Definition GetConnectionSummary (events : option (list ConntrackEvent)) (name : string) (k : Collector) : ConnectionSummary * Collector :=
  let '(conns, k) := GetConnections events name k in (summarize name conns, k).

(** What a summary says adds up. *)
Definition conn_sum (f : Connection -> Z) (conns : list Connection) : Z := foldr (fun c n => f c + n) 0 conns.

Lemma foldl_sum64 (f : Connection -> Z) conns t : in_type i64 t -> foldl (fun t c => sum64 t (f c)) t conns = wrap i64 (t + conn_sum f conns).
Proof.
  revert t. induction conns as [|c conns IH]; intros t Ht; cbn [foldl conn_sum foldr]; [by rewrite Z.add_0_r, wrap_in_type_id|].
  rewrite IH by (by apply wrap_in_type). unfold sum64. rewrite wrap_add_l by done. f_equal. unfold conn_sum. lia.
Qed.

Definition dest_step (m : gmap string (Z * Z)) (c : Connection) : gmap string (Z * Z) :=
  let '(n, b) := default (0, 0) (m !! n_DestIp c) in
  <[n_DestIp c := (n + 1, sum64 b (sum64 (n_BytesSent c) (n_BytesReceived c)))]> m.

Definition dest_total (f : Z * Z -> Z) (m : gmap string (Z * Z)) : Z := map_fold (fun _ p n => f p + n) 0 m.

Lemma dest_total_step f m c : f (0, 0) = 0 ->
  dest_total f (dest_step m c) = dest_total f m - f (default (0, 0) (m !! n_DestIp c)) +
    f (let '(n, b) := default (0, 0) (m !! n_DestIp c) in (n + 1, sum64 b (sum64 (n_BytesSent c) (n_BytesReceived c)))).
Proof.
  intros H0. unfold dest_step. destruct (default (0, 0) (m !! n_DestIp c)) as [n b] eqn:E. rewrite <- insert_delete_eq. unfold dest_total at 1.
  rewrite map_fold_insert_L; [|intros; lia|apply lookup_delete_eq]. fold (dest_total f (delete (n_DestIp c) m)).
  assert (Hm : dest_total f m = f (n, b) + dest_total f (delete (n_DestIp c) m)).
  { destruct (m !! n_DestIp c) as [p|] eqn:Hp; cbn in E; subst.
    - unfold dest_total. rewrite (map_fold_delete_L _ _ (n_DestIp c) (n, b) m); [done|intros; lia|done].
    - injection E as <- <-. by rewrite H0, delete_id. }
  lia.
Qed.

(** The summary of a container balances: the totals are the wrapped sums over its connections, the destinations' counts add up to
    the number of connections and their bytes to the bytes sent and received. *)
Theorem summary_balances name conns :
  let s := summarize name conns in
  cs_TotalBytesSent s = wrap i64 (conn_sum n_BytesSent conns) /\ cs_TotalBytesReceived s = wrap i64 (conn_sum n_BytesReceived conns) /\
  dest_total fst (by_destination conns) = Z.of_nat (length conns) /\
  wrap i64 (dest_total snd (by_destination conns)) = wrap i64 (cs_TotalBytesSent s + cs_TotalBytesReceived s).
Proof.
  cbv zeta. unfold summarize. cbn [cs_TotalBytesSent cs_TotalBytesReceived].
  rewrite !foldl_sum64 by done. rewrite !Z.add_0_l, wrap_add_l, wrap_add_r by done. split; [done|]. split; [done|].
  change (by_destination conns) with (foldl dest_step ∅ conns).
  assert (H : forall m, dest_total fst (foldl dest_step m conns) = dest_total fst m + Z.of_nat (length conns) /\
    wrap i64 (dest_total snd (foldl dest_step m conns)) = wrap i64 (dest_total snd m + (conn_sum n_BytesSent conns + conn_sum n_BytesReceived conns))).
  { induction conns as [|c conns IH]; intros m; cbn [foldl length conn_sum foldr]; [split; [lia|f_equal; lia]|].
    destruct (IH (dest_step m c)) as [-> ->]. rewrite !dest_total_step by done. destruct (default (0, 0) (m !! n_DestIp c)) as [n b]. cbn [fst snd].
    split; [lia|]. fold (conn_sum n_BytesSent conns) (conn_sum n_BytesReceived conns).
    unfold sum64. rewrite wrap_add_r by done. set (x := b + _).
    replace (dest_total snd m - b + wrap i64 x + (conn_sum n_BytesSent conns + conn_sum n_BytesReceived conns))
      with (wrap i64 x + (dest_total snd m - b + (conn_sum n_BytesSent conns + conn_sum n_BytesReceived conns))) by lia.
    rewrite wrap_add_l by done. unfold x. f_equal. lia. }
  destruct (H ∅) as [-> ->]. split; [reflexivity|]. done.
Qed.

(** *** Fan-out *)

Record EgressStat := mkStat { es_ContainerName : string; es_ContainerID : string; es_DistinctDestinations : Z; es_EgressConnections : Z }.

Definition fan (m : gmap string (gset string * Z)) (c : string * string) : gmap string (gset string * Z) :=
  let '(dests, n) := default (∅, 0) (m !! c.1) in
  <[c.1 := (if String.eqb c.2 "" then dests else {[c.2]} ∪ dests, n + 1)]> m.

(** Pairs of container and destination. *)
Definition aggregateEgress (conns : list (string * string)) (idForName : string -> string) : list EgressStat :=
  sorted_by es_ContainerName (values (map_imap (fun name a => Some (mkStat name (idForName name) (Z.of_nat (size a.1)) a.2)) (foldl fan ∅ conns))).

Definition EgressFanout (monitor : bool) (events : option (list ConntrackEvent)) (k : Collector) : option (list EgressStat) * Collector :=
  if negb monitor then (None, k)
  else
    let k := takeSnapshot events k in
    (Some (aggregateEgress ((fun c => (n_ContainerName c, n_DestIp c)) <$> filter (fun c => n_Direction c = EGRESS) (values (co_connections k)))
             (fun n => LookupID n (co_cache k))), k).

Definition dests_of (conns : list (string * string)) (name : string) : gset string :=
  list_to_set (filter (fun d => d <> "") (snd <$> filter (fun c => c.1 = name) conns)).

Lemma dests_of_cons who dst conns name :
  dests_of ((who, dst) :: conns) name =
  if decide (who = name) then if String.eqb dst "" then dests_of conns name else {[dst]} ∪ dests_of conns name else dests_of conns name.
Proof.
  unfold dests_of. rewrite filter_cons. cbn [fst]. destruct (decide (who = name)); [|done]. cbn [fmap list_fmap snd]. rewrite filter_cons.
  destruct (String.eqb_spec dst "") as [->|Hd]; [by rewrite decide_False by congruence|by rewrite decide_True].
Qed.

Lemma fan_spec conns m name :
  foldl fan m conns !! name =
  (let here := filter (fun c => c.1 = name) conns in
   if decide (here = []) then m !! name
   else let '(dests, n) := default (∅, 0) (m !! name) in Some (dests_of conns name ∪ dests, n + Z.of_nat (length here))).
Proof.
  revert m. induction conns as [|[who dst] conns IH]; intros m; cbn [foldl]; [done|]. rewrite IH. clear IH. cbv zeta.
  rewrite dests_of_cons, filter_cons. cbn [fst]. destruct (decide (who = name)) as [->|Hne].
  - rewrite (decide_False (P := (_ :: _) = [])) by done. unfold fan. cbn [fst snd]. destruct (default (∅, 0) (m !! name)) as [dests n].
    rewrite lookup_insert_eq. cbn [default length]. unfold id. destruct (decide (filter (fun c => c.1 = name) conns = [])) as [He|He].
    + assert (Hd : dests_of conns name = ∅) by (unfold dests_of; by rewrite He). rewrite Hd, He. cbn [length].
      f_equal. f_equal. destruct (String.eqb dst ""); set_solver.
    + f_equal. f_equal; [destruct (String.eqb dst ""); set_solver|lia].
  - assert (Hf : fan m (who, dst) !! name = m !! name).
    { unfold fan. cbn [fst snd]. destruct (default (∅, 0) (m !! who)). by rewrite lookup_insert_ne. }
    by rewrite Hf.
Qed.

Lemma fan_from_empty conns name :
  foldl fan ∅ conns !! name =
  if decide (filter (fun c => c.1 = name) conns = []) then None
  else Some (dests_of conns name, Z.of_nat (length (filter (fun c => c.1 = name) conns))).
Proof. rewrite fan_spec, lookup_empty. cbv zeta. destruct (decide _); [done|]. unfold default. by rewrite union_empty_r_L. Qed.

(** The fan-out of a container is what it is: one line per container that has an egress connection, in the order of names, with the
    number of its connections and of the distinct addresses they go to. *)
Theorem aggregateEgress_exact conns idForName :
  StronglySorted (key_le es_ContainerName) (aggregateEgress conns idForName) /\
  forall st, st ∈ aggregateEgress conns idForName <->
    exists name, name ∈ conns.*1 /\
      st = mkStat name (idForName name) (Z.of_nat (size (dests_of conns name))) (Z.of_nat (length (filter (fun c => c.1 = name) conns))).
Proof.
  split; [apply sorted_values_sorted|]. intros st. unfold aggregateEgress. rewrite elem_of_sorted_by, elem_of_values.
  assert (Hin : forall name, name ∈ conns.*1 <-> filter (fun c => c.1 = name) conns <> []).
  { intros name. rewrite list_elem_of_fmap. split.
    - intros (c & -> & Hc) He. assert (H : c ∈ filter (fun d => d.1 = c.1) conns) by by apply list_elem_of_filter. rewrite He in H. by apply elem_of_nil in H.
    - intros Hne. destruct (filter (fun c => c.1 = name) conns) as [|c l] eqn:E; [done|]. assert (H : c ∈ c :: l) by left. rewrite <- E in H.
      apply list_elem_of_filter in H as [<- H]. by exists c. }
  split.
  - intros (name & Hn). rewrite map_lookup_imap, fan_from_empty in Hn. exists name. rewrite Hin.
    destruct (decide (filter (fun c => c.1 = name) conns = [])) as [He|He]; [done|]. by injection Hn as <-.
  - intros (name & Hn & ->). exists name. rewrite map_lookup_imap, fan_from_empty. by rewrite decide_False by by apply Hin.
Qed.

(** ** Aggregates *)

Record TrafficAggregate := mkAggregate {
  ag_Timestamp : Time; ag_DestIp : string; ag_DestPort : Z; ag_BytesSent : Z; ag_BytesReceived : Z; ag_ConnectionCount : Z;
}.

Definition Truncate (t : Time) (d : Duration) : Time := if d <=? 0 then t else t - t mod d.
Definition Unix (t : Time) : Z := (t - unixToInternal) / Second.

Definition parseInterval (interval : string) : option Duration :=
  let like := String.eqb interval in
  if like "" then Some Hour else if like "1m" then Some Minute else if like "5m" then Some (5 * Minute) else if like "15m" then Some (15 * Minute)
  else if like "30m" then Some (30 * Minute) else if like "1h" then Some Hour else if like "6h" then Some (6 * Hour)
  else if like "12h" then Some (12 * Hour) else if like "1d" then Some (24 * Hour) else None.

Definition add_bucket (interval : Duration) (m : gmap Z TrafficAggregate) (a : TrafficAggregate) : gmap Z TrafficAggregate :=
  let t := Truncate (ag_Timestamp a) interval in
  <[Unix t :=
    match m !! Unix t with
    | Some e => mkAggregate (ag_Timestamp e) (ag_DestIp e) (ag_DestPort e) (sum64 (ag_BytesSent e) (ag_BytesSent a))
        (sum64 (ag_BytesReceived e) (ag_BytesReceived a)) (wrap i32 (ag_ConnectionCount e + ag_ConnectionCount a))
    | None => mkAggregate t (ag_DestIp a) (ag_DestPort a) (ag_BytesSent a) (ag_BytesReceived a) (ag_ConnectionCount a)
    end]> m.

Definition reAggregate (l : list TrafficAggregate) (interval : Duration) : list TrafficAggregate :=
  match l with [] => [] | _ => (map_to_list (foldl (add_bucket interval) ∅ l)).*2 end.

(** What [GetAggregates] makes of the hourly rows of the query. *)
Definition at_interval (interval : string) (hourly : list TrafficAggregate) : option (list TrafficAggregate) :=
  d ← parseInterval interval; Some (if Hour <? d then reAggregate hourly d else hourly).

(** The sum of a field over a list, and over the buckets. *)
Definition summed (f : TrafficAggregate -> Z) (l : list TrafficAggregate) : Z := foldr (fun a n => f a + n) 0 l.
Definition in_buckets (f : TrafficAggregate -> Z) (m : gmap Z TrafficAggregate) : Z := map_fold (fun _ a n => f a + n) 0 m.

Lemma in_buckets_list f m : summed f (map_to_list m).*2 = in_buckets f m.
Proof. unfold in_buckets, summed. rewrite map_fold_foldr. induction (map_to_list m) as [|[k a] l IH]; [done|]. cbn. by rewrite IH. Qed.

Lemma in_buckets_insert f m k a : in_buckets f (<[k := a]> m) = f a + in_buckets f (delete k m).
Proof.
  rewrite <- insert_delete_eq. unfold in_buckets. rewrite map_fold_insert_L; [done|intros; lia|apply lookup_delete_eq].
Qed.

Lemma in_buckets_lookup f m k e : m !! k = Some e -> in_buckets f m = f e + in_buckets f (delete k m).
Proof. intros H. rewrite <- in_buckets_insert. by rewrite insert_id. Qed.

(** A field that is added with wrap-around. *)
Definition additive (it : int_type) (f : TrafficAggregate -> Z) : Prop :=
  0 < it_bits it /\ forall d m a, exists e, <[Unix (Truncate (ag_Timestamp a) d) := e]> m = add_bucket d m a /\
    f e = match m !! Unix (Truncate (ag_Timestamp a) d) with Some o => wrap it (f o + f a) | None => f a end.

Lemma buckets_sum it f d l m :
  additive it f -> wrap it (in_buckets f (foldl (add_bucket d) m l)) = wrap it (in_buckets f m + summed f l).
Proof.
  intros [Hb Hf]. revert m. induction l as [|a l IH]; intros m; cbn [foldl summed foldr]; [by rewrite Z.add_0_r|]. rewrite IH. fold (summed f l).
  destruct (Hf d m a) as (e & <- & He). rewrite in_buckets_insert. set (k := Unix _) in *.
  destruct (m !! k) as [o|] eqn:Ho.
  - rewrite He, (in_buckets_lookup _ _ _ _ Ho), <- Z.add_assoc, wrap_add_l by done. f_equal. lia.
  - rewrite He, delete_id by done. f_equal. lia.
Qed.

Lemma sent_additive : additive i64 ag_BytesSent.
Proof. split; [done|]. intros d m a. eexists. split; [done|]. by destruct (m !! _). Qed.
Lemma received_additive : additive i64 ag_BytesReceived.
Proof. split; [done|]. intros d m a. eexists. split; [done|]. by destruct (m !! _). Qed.
Lemma count_additive : additive i32 ag_ConnectionCount.
Proof. split; [done|]. intros d m a. eexists. split; [done|]. by destruct (m !! _). Qed.

(** The second at which the bucket of a row starts. *)
Definition starts (d : Duration) (a : TrafficAggregate) : Z := Unix (Truncate (ag_Timestamp a) d).

(** The bucket [b] of these rows: the start, the destination of the first, and the sums. *)
Definition bucket_of (d : Duration) (rows : list TrafficAggregate) (b : TrafficAggregate) : Prop :=
  match rows with
  | [] => False
  | r :: _ =>
      ag_Timestamp b = Truncate (ag_Timestamp r) d /\ ag_DestIp b = ag_DestIp r /\ ag_DestPort b = ag_DestPort r /\
      wrap i64 (ag_BytesSent b) = wrap i64 (summed ag_BytesSent rows) /\
      wrap i64 (ag_BytesReceived b) = wrap i64 (summed ag_BytesReceived rows) /\
      wrap i32 (ag_ConnectionCount b) = wrap i32 (summed ag_ConnectionCount rows)
  end.

Lemma summed_snoc f l a : summed f (l ++ [a]) = summed f l + f a.
Proof. unfold summed. induction l as [|b l IH]; cbn; lia. Qed.

Lemma bucket_first d a : bucket_of d [a] (mkAggregate (Truncate (ag_Timestamp a) d) (ag_DestIp a) (ag_DestPort a) (ag_BytesSent a) (ag_BytesReceived a) (ag_ConnectionCount a)).
Proof. cbn. by rewrite !Z.add_0_r. Qed.

Lemma wrap_snoc it x y z : 0 < it_bits it -> wrap it x = wrap it y -> wrap it (wrap it (x + z)) = wrap it (y + z).
Proof. intros Hb H. by rewrite <- (Z.add_0_r (wrap it (x + z))), wrap_add_l, Z.add_0_r, <- (wrap_add_l it x), H, wrap_add_l. Qed.

Lemma bucket_more d rows e a :
  bucket_of d rows e ->
  bucket_of d (rows ++ [a]) (mkAggregate (ag_Timestamp e) (ag_DestIp e) (ag_DestPort e) (sum64 (ag_BytesSent e) (ag_BytesSent a))
    (sum64 (ag_BytesReceived e) (ag_BytesReceived a)) (wrap i32 (ag_ConnectionCount e + ag_ConnectionCount a))).
Proof.
  destruct rows as [|r rows]; [done|]. intros (Ht & Hi & Hp & Hs & Hr & Hc). cbn [bucket_of app].
  change (r :: rows ++ [a]) with ((r :: rows) ++ [a]). rewrite !summed_snoc. split_and!; try done; by apply wrap_snoc.
Qed.

Lemma buckets_lookup d l u :
  match foldl (add_bucket d) ∅ l !! u with
  | Some b => Unix (ag_Timestamp b) = u /\ bucket_of d (filter (fun r => starts d r = u) l) b
  | None => filter (fun r => starts d r = u) l = []
  end.
Proof.
  induction l as [|a l IH] using rev_ind; [done|]. rewrite foldl_snoc, filter_app, filter_cons, filter_nil.
  set (m := foldl (add_bucket d) ∅ l) in *. unfold add_bucket. cbv zeta. fold (starts d a). destruct (decide (starts d a = u)) as [<-|Hne].
  - rewrite lookup_insert_eq. destruct (m !! starts d a) as [e|] eqn:E.
    + destruct IH as [Hu Hb]. split; [exact Hu|]. by apply bucket_more.
    + rewrite IH. split; [done|apply bucket_first].
  - rewrite lookup_insert_ne, app_nil_r by done. exact IH.
Qed.

(** C31: Coarser buckets: re-aggregated to a larger interval, the rows give exactly one bucket for each start of an interval in
    which one of them falls; its bytes sent, bytes received and connections are the sums, with wrap-around, of the rows that fall into that
    interval and of no others, so the totals over all buckets are those over all rows; and it carries the destination of the first of its
    rows, whatever the destinations of the others. *)
Theorem reAggregate_groups l d :
  NoDup (Unix ∘ ag_Timestamp <$> reAggregate l d) /\
  (forall u, u ∈ (Unix ∘ ag_Timestamp <$> reAggregate l d) <-> u ∈ (starts d <$> l)) /\
  Forall (fun b => bucket_of d (filter (fun r => starts d r = Unix (ag_Timestamp b)) l) b) (reAggregate l d) /\
  wrap i64 (summed ag_BytesSent (reAggregate l d)) = wrap i64 (summed ag_BytesSent l) /\
  wrap i64 (summed ag_BytesReceived (reAggregate l d)) = wrap i64 (summed ag_BytesReceived l) /\
  wrap i32 (summed ag_ConnectionCount (reAggregate l d)) = wrap i32 (summed ag_ConnectionCount l).
Proof.
  assert (Hsum : forall it f, additive it f -> wrap it (summed f (reAggregate l d)) = wrap it (summed f l)).
  { intros it f Hf. pose proof (buckets_sum it f d l ∅ Hf) as H. unfold reAggregate. destruct l as [|a l]; [done|]. by rewrite in_buckets_list, H. }
  set (m := foldl (add_bucket d) ∅ l). assert (Hre : reAggregate l d = (map_to_list m).*2) by by destruct l.
  assert (Hm : forall u b, m !! u = Some b -> Unix (ag_Timestamp b) = u /\ bucket_of d (filter (fun r => starts d r = u) l) b).
  { intros u b E. pose proof (buckets_lookup d l u) as H. fold m in H. by rewrite E in H. }
  assert (Hk : Unix ∘ ag_Timestamp <$> reAggregate l d = (map_to_list m).*1).
  { rewrite Hre, <- list_fmap_compose. apply Forall_fmap_ext_1, Forall_forall. intros [k a] Hka%elem_of_map_to_list. cbn. by destruct (Hm k a Hka). }
  split; [|split; [|split; [|split_and!; apply Hsum; [apply sent_additive|apply received_additive|apply count_additive]]]].
  - rewrite Hk. apply NoDup_fst_map_to_list.
  - intros u. rewrite Hk. pose proof (buckets_lookup d l u) as H. fold m in H. rewrite !list_elem_of_fmap. split.
    + clear H. intros ([k b] & -> & E%elem_of_map_to_list). cbn. destruct (Hm k b E) as [_ Hb]. destruct (filter _ l) as [|r rows] eqn:Ef; [done|].
      exists r. assert (Hr : r ∈ r :: rows) by left. rewrite <- Ef in Hr. by apply list_elem_of_filter in Hr as [<- ?].
    + intros (r & -> & Hr). destruct (m !! starts d r) as [b|] eqn:E; [exists (starts d r, b); split; [done|by apply elem_of_map_to_list]|].
      assert (Hin : r ∈ filter (fun q => starts d q = starts d r) l) by by apply list_elem_of_filter. rewrite H in Hin. by apply elem_of_nil in Hin.
  - rewrite Hre. apply Forall_fmap, Forall_forall. intros [k b] E%elem_of_map_to_list. cbn. destruct (Hm k b E) as [-> Hb]. exact Hb.
Qed.

(** Rows of different destinations fall into one bucket, under the first one's address. *)
Example destinations_are_merged :
  let row ip n := mkAggregate (UnixTime (1700000000 * Second)) ip 443 n 0 1 in
  at_interval "1d" [row "203.0.113.9" 100; row "198.51.100.7" 5000] =
  Some [mkAggregate (UnixTime (1699920000 * Second)) "203.0.113.9" 443 5100 0 2].
Proof. vm_compute. done. Qed.

(** Below an hour the rows stay hourly. *)
Example minutes_are_hours : forall rows, at_interval "1m" rows = Some rows /\ at_interval "1h" rows = Some rows.
Proof. done. Qed.
